(* ===== verification/_CoqProject ===== *)
-Q . S2P
Prelude.v
CString.v
Format.v
LinkedList.v
LockFree.v
SpinLock.v
FsLayout.v
BlockCache.v
FsLog.v
BlockAlloc.v
BlockStore.v
SwapDev.v
Inode.v
Mkfs.v
SepLogic.v
RbTree.v
RbErase.v
RbQueue.v
Sem.v
Sched.v
SchedInv.v
Timer.v
Proc.v
Pages.v
PageTable.v
Paging.v
PageSwap.v
KernelPt.v
Traps.v
SdRegs.v
SdHost.v
SdQueue.v
Slab.v
Ipc.v
