(* ===== verification/Prelude.v ===== *)
(** * A verification development for the OS-2022Fall kernel

    The program under [src/src/] is a teaching operating system for the
    Raspberry Pi 3: a kernel in C (AArch64, four processors) with a file system,
    page tables, an SD card driver, message queues and a scheduler, and a host
    program that makes the first disk image.  This library models the parts
    that carry its logic as executable Rocq definitions, translated function by
    function, and proves what they promise.

    ** The parts, and the files that model them

    - [Prelude.v] (this file): the outcome of C code, the state monad [M], its
      weakest preconditions [wp], wrap-around [u8] ... [i64], byte lists,
      little-endian words, loops, and the lemmas and hint databases the other
      files share.
    - [CString.v]: [common/string.c].  [Format.v]: [common/format.c] and [printk].
    - [LinkedList.v]: the intrusive lists and queues of [common/list.[ch]], on a
      heap of nodes.  [LockFree.v]: the lock-free list of pages in the same file,
      interleaved one memory access at a time.  [SpinLock.v]:
      [common/spinlock.c], interleaved in the same way, and [common/bitmap.h].
    - File system.  [FsLayout.v]: the layout on disk ([fs/defines.h]).
      [BlockCache.v], [FsLog.v], [BlockAlloc.v]: [fs/cache.c], that is the block
      cache, the write-ahead log and the block bitmap with the swap slots.
      [BlockStore.v]: the interface of [BlockCache] that the inode layer calls
      (classes [BlockOps] and [BlockLaws]) and the instance by the cache.
      [Inode.v]: [fs/inode.c], proved against the interface.  [Mkfs.v]:
      [user/mkfs/main.c], the program that makes the first image, and that the
      layers above can use what it makes.
    - Memory.  [SepLogic.v]: a small separation logic on memories of 64-bit words,
      in Iris's proof mode.  [RbTree.v], [RbErase.v]: [common/rbtree.c], pointer
      by pointer.  [Pages.v]: the page allocator of [kernel/mem.c] and the
      addresses of [aarch64/mmu.h].  [PageTable.v]: the tables of [kernel/pt.c];
      [KernelPt.v]: those that are built into the kernel.  [SwapDev.v]: the swap
      device as an interface (classes [SwapOps] and [SwapLaws]), and the
      instance by the block cache and the swap slots.  [Paging.v]:
      [kernel/paging.c] and page directories, over that interface;
      [PageSwap.v]: what moving a section to the disk and back does.  [Slab.v]:
      [kalloc] and [kfree] of [kernel/mem.c].
    - Processes.  [Sem.v]: [common/sem.c], a routine at a time, any number of
      sleepers.  [RbQueue.v]: ordered queues as an interface (class [RbOps], its laws
      what the trees are proved to do), which [Sched.v] and [Timer.v] use.  [Sched.v]:
      [kernel/sched.c]; [SchedInv.v]: what the scheduler keeps, over all
      sequences of its events.  [Timer.v]: the timers and the clock of a
      processor, [kernel/cpu.c] and [driver/clock.c].  [Proc.v]:
      [kernel/proc.c] and [kernel/container.c], on the semaphores of [Sem.v].
    - SD card.  [SdRegs.v]: constants, command table and the parsing of card
      registers; [SdHost.v]: the driver code of [driver/sddef.h] and
      [driver/mbox.c] against any controller (class [Device]); [SdQueue.v]: the
      request queue of [driver/sd.c] and the block device, against any
      controller that answers (class [Controller]).
    - [Traps.v]: [driver/interrupt.c], [kernel/syscall.c] and [aarch64/trap.c].
    - [Ipc.v]: [common/ipc.c] over an interface for the allocators
      (class [Allocator]).

    A definition has the name of its C function; the parts of a function that
    are definitions of their own (the body of a loop, a branch) have names the
    manifest lists with their lines.  Structs are records with the C fields;
    pointers are indices of a table of objects (blocks, inodes), addresses of
    nodes (lists) or of words (trees, page tables).  Integers are [Z], wrapped
    where C wraps.  [PANIC] and a failed [ASSERT] are the outcome [Panicked],
    undefined behaviour is [Faulted], a sleep that nobody ends is [Asleep].

    ** What the theorems show

    - Crash safety and transactions ([FsLog]): a commit cut at any device write
      and recovered is all or nothing; a logged write is durable when the
      operation ends; the log's budget; start-up always faults (a finding).
    - The cache ([BlockCache]): acquiring on every branch, and the cache's size.
    - Allocation of blocks and swap slots ([BlockAlloc]): lowest free, zeroed,
      given back; the panics.
    - Files and directories ([Inode]): write then read, insert then lookup, what
      [inode_put] frees, one object per inode number.
    - Lists and queues ([LinkedList], [LockFree]): refinement of sequences,
      termination of the loop macro, linearizability with one fetcher, and the
      ABA interleaving with two.
    - Spin locks ([SpinLock]): critical sections run one after the other, which
      is why the other files take a routine under a lock as one step.
    - Output ([Format]): numbers read back as they were printed, inside their
      buffer, and what each directive puts out.
    - Red-black trees ([RbTree], [RbErase]): insertion, search and removal keep
      order, colours and black height and touch no other memory.
    - Page tables ([Pages], [PageTable], [KernelPt]): mapping, looking up and
      freeing, with every page accounted for; what the kernel's tables map.
    - Demand paging ([Paging], [PageSwap], [SwapDev]): what a page fault maps,
      what a smaller heap gives back, and what is left of a section that goes to
      the disk and comes back, over any swap device; the disk is one.
    - Objects ([Slab]): live objects do not overlap, [kalloc] and [kfree] are
      inverse, and what happens when no page is left.
    - Semaphores ([Sem]): no unit is lost or invented and no sleeper stays while
      there are units, over every interleaving.
    - Scheduler ([SchedInv]): no assertion fails, every process that can run is
      queued once or runs on one processor, and the search for the next process
      is the depth-first search of the queues.
    - Timers ([Timer]): the clock is always set for the first timer, an
      interrupt runs the handlers that are due, once and in order, and how far
      ahead a timer can be.
    - Processes ([Proc]): the tree, unique numbers, no child that has exited is
      missed by a parent that sleeps in [wait], what [wait] and [kill] return.
    - Disk image ([Mkfs]): the image has the files, and the cache and the inode
      layer start from it.
    - SD host ([SdRegs], [SdHost]): every loop ends whatever the hardware
      answers, register write order, capacity and clock arithmetic.
    - Block device ([SdQueue]): on a controller that answers, reads and writes
      are those of a disk of blocks; and how a wake-up is lost.
    - Message queues ([Ipc]): an invariant of all reachable states, sending and
      receiving as inverse operations, when a send comes to an end, removal.

    ** Fuel

    Loops whose end is not structural take fuel; the fuel that a definition
    passes is shown to be enough by the theorems that it returns [Ok]: the scan
    of the bitmap has a turn per bitmap block and one more, reading and writing
    files one per byte and one more, [mkfs] one per byte appended and one more,
    tree descents one per node, the SD loops as many as their counters; for the
    searches of the scheduler and of the process tree there is a bound from
    which on every fuel gives the result.  [vformat] has a turn per character
    and one more, the digits of a number 65, the waits of the SD driver as many
    as the delays they count, the timer interrupt one per timer that is due and
    one more.  [alloc_page_for_user] takes its fuel as an argument: how often it
    has to move a section to the disk depends on the processes; its theorems are
    for enough free pages, where any fuel will do.  [pipeline_send] takes its fuel as an argument:
    there are states in which no fuel is enough, and that is a theorem.

    ** Not modelled

    The interleaving of threads inside of critical sections, except where a file
    says so: the definitions run in one thread, with a sleep as an outcome; the
    semaphores, the scheduler and the processes are sequences of the critical
    sections of any number of threads, which [SpinLock.v] justifies on
    sequentially consistent memory.  Memory ordering below that, barriers and
    translation caches: the source has them as inline assembly.  The start of
    the kernel and of the other processors ([main.c], [kernel/core.c],
    [kernel/init.c]): calls of the functions that the linker collects in tables,
    in an order the source does not give.  The assembly that saves and restores
    registers, the registers of the serial port, and the in-kernel tests. *)

From stdpp Require Export base option list gmap fin_maps sets.
From Stdlib Require Export ZArith Lia.

#[global] Open Scope Z_scope.

(** ** Outcomes and the state monad

    C code either returns, stops in [PANIC()]/[ASSERT], does something C leaves
    undefined (a null dereference, an access out of bounds), or goes to sleep
    and is never woken by the run being modelled.  [OutOfFuel] is the model's
    own: a loop ran longer than the bound it was given. *)

Inductive failure := Panicked | Faulted | Asleep | OutOfFuel.

Inductive outcome (A : Type) : Type :=
| Ok (a : A)
| Fail (f : failure).
Arguments Ok {A} a.
Arguments Fail {A} f.

Definition M (St A : Type) : Type := St → outcome (A * St).

#[export] Instance M_ret St : MRet (M St) := λ A a s, Ok (a, s).
#[export] Instance M_bind St : MBind (M St) := λ A B f m s,
  match m s with
  | Ok (a, s') => f a s'
  | Fail e => Fail e
  end.

#[export] Instance M_fmap St : FMap (M St) := λ A B f m, m ≫= λ a, mret (f a).

Definition fail {St A} (e : failure) : M St A := λ _, Fail e.
Definition panic {St A} : M St A := fail Panicked.
Definition fault {St A} : M St A := fail Faulted.
Definition gets {St A} (f : St → A) : M St A := λ s, Ok (f s, s).
Definition modify {St} (f : St → St) : M St unit := λ s, Ok (tt, f s).
Definition assert_ {St} (b : bool) : M St unit := if b then mret tt else panic.

(** A null pointer, an index out of range: C leaves the access undefined. *)
Definition deref {St A} (o : option A) : M St A :=
  match o with Some a => mret a | None => fault end.

(** Run a computation on a component of the state. *)
Definition zoom {T St A} (proj : T → St) (inj : St → T → T) (m : M St A) : M T A :=
  λ t, match m (proj t) with
       | Ok (a, s) => Ok (a, inj s t)
       | Fail e => Fail e
       end.

(** [for (x : l) body(x)], and the same loop left early with a result. *)
Fixpoint for_each {St A} (l : list A) (body : A → M St unit) : M St unit :=
  match l with
  | [] => mret tt
  | x :: l' => body x ;; for_each l' body
  end.

Fixpoint for_until {St A R} (l : list A) (body : A → M St (option R)) : M St (option R) :=
  match l with
  | [] => mret None
  | x :: l' =>
      r ← body x;
      match r with
      | Some v => mret (Some v)
      | None => for_until l' body
      end
  end.

(** [lo, lo+1, ..., hi-1]: the values of a counting loop. *)
Definition zseq (lo hi : Z) : list Z := (λ k, lo + Z.of_nat k) <$> seq 0 (Z.to_nat (hi - lo)).

(** ** Machine integers *)

Definition wrap (w x : Z) : Z := x mod 2 ^ w.
Definition swrap (w x : Z) : Z := (x + 2 ^ (w - 1)) mod 2 ^ w - 2 ^ (w - 1).
Definition u8 (x : Z) : Z := wrap 8 x.
Definition u16 (x : Z) : Z := wrap 16 x.
Definition u32 (x : Z) : Z := wrap 32 x.
Definition u64 (x : Z) : Z := wrap 64 x.
Definition i32 (x : Z) : Z := swrap 32 x.
Definition i64 (x : Z) : Z := swrap 64 x.

Definition byte_ok (b : Z) : Prop := 0 ≤ b < 256.

(** Little-endian layout of an [n]-byte unsigned integer. *)
Fixpoint le_bytes (n : nat) (x : Z) : list Z :=
  match n with
  | O => []
  | S n' => x mod 256 :: le_bytes n' (x / 256)
  end.

Fixpoint le_value (l : list Z) : Z :=
  match l with
  | [] => 0
  | b :: l' => b + 256 * le_value l'
  end.

(** ** Windows of a buffer *)

Definition slice {A} (l : list A) (off n : nat) : list A := take n (drop off l).
Definition splice {A} (l : list A) (off : nat) (w : list A) : list A :=
  take off l ++ w ++ drop (off + length w) l.

(** ** Total-correctness triples

    [wp m Q s]: from [s], [m] returns (it neither panics, faults, sleeps nor
    runs out of fuel) and its result and final state satisfy [Q]. *)
Definition wp {St A} (m : M St A) (Q : A → St → Prop) (s : St) : Prop :=
  ∃ a s', m s = Ok (a, s') ∧ Q a s'.

(** ** Lemmas on the monad *)

Section monad.
Context {St : Type}.
Implicit Types s : St.

Lemma bind_run {A B} (m : M St A) (f : A → M St B) s :
  (m ≫= f) s = match m s with Ok (a, s') => f a s' | Fail e => Fail e end.
Proof. reflexivity. Qed.

Lemma bind_Ok {A B} (m : M St A) (f : A → M St B) s a s' :
  m s = Ok (a, s') → (m ≫= f) s = f a s'.
Proof. intros H. by rewrite bind_run, H. Qed.

Lemma bind_Fail {A B} (m : M St A) (f : A → M St B) s e :
  m s = Fail e → (m ≫= f) s = Fail e.
Proof. intros H. by rewrite bind_run, H. Qed.

Lemma bind_inv {A B} (m : M St A) (f : A → M St B) s b s'' :
  (m ≫= f) s = Ok (b, s'') → ∃ a s', m s = Ok (a, s') ∧ f a s' = Ok (b, s'').
Proof. rewrite bind_run. destruct (m s) as [[a s']|]; [eauto | done]. Qed.

Lemma wp_ret {A} (a : A) (Q : A → St → Prop) s : Q a s → wp (mret a) Q s.
Proof. intros H. by exists a, s. Qed.

Lemma wp_bind {A B} (m : M St A) (f : A → M St B) (Q : B → St → Prop) s :
  wp m (λ a, wp (f a) Q) s → wp (m ≫= f) Q s.
Proof.
  intros (a & s' & Hm & b & s'' & Hf & HQ). exists b, s''.
  by rewrite (bind_Ok _ _ _ _ _ Hm).
Qed.

(** Reassociation: [m; k; n] run as [(m; k); n]. *)
Lemma wp_seq2 {A B C} (m : M St A) (k : M St B) (n : M St C) (Q : C → St → Prop) s :
  wp (m ;; k) (λ _, wp n Q) s → wp (m ;; k ;; n) Q s.
Proof.
  intros (b & s2 & E & HQ). apply bind_inv in E as (a & s1 & E1 & E2).
  apply wp_bind. exists a, s1. split; [done|]. apply wp_bind. by exists b, s2.
Qed.

(** The first three steps of a longer computation, on their own. *)
Lemma bind_assoc3 {A B C D} (m : M St A) (k : M St B) (l : M St C) (n : M St D) s :
  (m ;; k ;; l ;; n) s = ((m ;; k ;; l) ;; n) s.
Proof.
  rewrite !bind_run. destruct (m s) as [[a s1]|]; [|done]. rewrite !bind_run.
  destruct (k s1) as [[b s2]|]; [|done]. by rewrite !bind_run.
Qed.

Lemma wp_seq3 {A B C D} (m : M St A) (k : M St B) (l : M St C) (n : M St D) (Q : D → St → Prop) s :
  wp (m ;; k ;; l) (λ _, wp n Q) s → wp (m ;; k ;; l ;; n) Q s.
Proof. intros H%wp_bind. unfold wp in *. by rewrite bind_assoc3. Qed.

Lemma wp_mono {A} (m : M St A) (P Q : A → St → Prop) s :
  wp m P s → (∀ a s', P a s' → Q a s') → wp m Q s.
Proof. intros (a & s' & Hm & HP) HPQ. exists a, s'. auto. Qed.

Lemma wp_gets {A} (f : St → A) (Q : A → St → Prop) s : Q (f s) s → wp (gets f) Q s.
Proof. intros H. by exists (f s), s. Qed.

Lemma wp_modify (f : St → St) (Q : unit → St → Prop) s : Q tt (f s) → wp (modify f) Q s.
Proof. intros H. by exists tt, (f s). Qed.

Lemma wp_assert (b : bool) (Q : unit → St → Prop) s : b = true → Q tt s → wp (assert_ b) Q s.
Proof. intros -> H. by exists tt, s. Qed.

Lemma wp_deref {A} (o : option A) a (Q : A → St → Prop) s :
  o = Some a → Q a s → wp (deref o) Q s.
Proof. intros -> H. by exists a, s. Qed.

Lemma wp_Ok {A} (m : M St A) (Q : A → St → Prop) s a s' :
  m s = Ok (a, s') → wp m Q s → Q a s'.
Proof. intros H (a' & s'' & H' & HQ). rewrite H in H'. by simplify_eq. Qed.

Lemma wp_unit (m : M St unit) (Q : St → Prop) s :
  wp m (λ _, Q) s → ∃ s', m s = Ok (tt, s') ∧ Q s'.
Proof. intros ([] & s' & E & HQ). by exists s'. Qed.

(** A counting loop keeps an invariant indexed by the elements still to come. *)
Lemma wp_for_each {A} (body : A → M St unit) (I : list A → St → Prop) (l : list A) s :
  I l s →
  (∀ x l' s', I (x :: l') s' → wp (body x) (λ _, I l') s') →
  wp (for_each l body) (λ _, I []) s.
Proof.
  intros HI Hbody. revert s HI. induction l as [|x l IH]; intros s HI; simpl.
  - by apply wp_ret.
  - apply wp_bind. eapply wp_mono; [by apply Hbody|]. intros [] s' Hs'. by apply IH.
Qed.
End monad.

(** [wp_steps] runs the leading primitive steps of a computation. *)
Ltac wp_step :=
  first
    [ apply wp_bind
    | apply wp_ret
    | apply wp_gets
    | apply wp_modify ].
Ltac wp_steps := repeat (wp_step; cbn beta).

(** ** Machine-integer lemmas *)

Lemma wrap_small w x : 0 ≤ x < 2 ^ w → wrap w x = x.
Proof. apply Z.mod_small. Qed.

Lemma wrap_range w x : 0 ≤ w → 0 ≤ wrap w x < 2 ^ w.
Proof. intros H. apply Z.mod_pos_bound. by apply Z.pow_pos_nonneg. Qed.

Lemma swrap_small w x : 0 < w → - 2 ^ (w - 1) ≤ x < 2 ^ (w - 1) → swrap w x = x.
Proof.
  intros Hw Hx. unfold swrap. rewrite Z.mod_small; [lia|].
  replace (2 ^ w) with (2 * 2 ^ (w - 1)); [lia|].
  rewrite <-Z.pow_succ_r by lia. f_equal; lia.
Qed.

Lemma u64_small x : 0 ≤ x < 2 ^ 64 → u64 x = x.
Proof. apply wrap_small. Qed.
Lemma u32_small x : 0 ≤ x < 2 ^ 32 → u32 x = x.
Proof. apply wrap_small. Qed.
Lemma u16_small x : 0 ≤ x < 2 ^ 16 → u16 x = x.
Proof. apply wrap_small. Qed.
Lemma u8_small x : 0 ≤ x < 2 ^ 8 → u8 x = x.
Proof. apply wrap_small. Qed.
Lemma i32_small x : - 2 ^ 31 ≤ x < 2 ^ 31 → i32 x = x.
Proof. intros H. apply swrap_small; [lia|]. exact H. Qed.
Lemma i64_small x : - 2 ^ 63 ≤ x < 2 ^ 63 → i64 x = x.
Proof. intros H. apply swrap_small; [lia|]. exact H. Qed.

(** A field of [w] bits at [lo], masked in place. *)
Lemma land_field x lo w : 0 ≤ lo → 0 ≤ w → Z.land x (Z.shiftl (Z.ones w) lo) = Z.shiftl (Z.shiftr x lo mod 2 ^ w) lo.
Proof.
  intros Hlo Hw. apply Z.bits_inj'. intros n Hn. rewrite Z.land_spec, !Z.shiftl_spec by done.
  destruct (decide (n < lo)) as [H|H].
  - rewrite (Z.testbit_neg_r (Z.ones w)), (Z.testbit_neg_r (_ mod _)) by lia. apply andb_false_r.
  - rewrite Z.testbit_ones_nonneg by lia. destruct (n - lo <? w) eqn:E.
    + rewrite Z.mod_pow2_bits_low, Z.shiftr_spec, andb_true_r by lia. f_equal. lia.
    + rewrite Z.mod_pow2_bits_high by lia. apply andb_false_r.
Qed.

(** The field itself. *)
Lemma field_eq x lo w : 0 ≤ lo → 0 ≤ w → Z.shiftr (Z.land x (Z.shiftl (Z.ones w) lo)) lo = x / 2 ^ lo mod 2 ^ w.
Proof.
  intros Hlo Hw. rewrite land_field, Z.shiftr_shiftl_l, Z.sub_diag, Z.shiftl_0_r by done. by rewrite Z.shiftr_div_pow2.
Qed.

Lemma u8_byte x : byte_ok (u8 x).
Proof. apply (wrap_range 8). lia. Qed.

Lemma length_le_bytes n x : length (le_bytes n x) = n.
Proof. revert x. induction n; intros; simpl; [done | by rewrite IHn]. Qed.

Lemma le_bytes_ok n x : Forall byte_ok (le_bytes n x).
Proof.
  revert x. induction n; intros; simpl; constructor; [|done].
  apply Z.mod_pos_bound. lia.
Qed.

Lemma le_value_bytes n x : 0 ≤ x < 2 ^ (8 * Z.of_nat n) → le_value (le_bytes n x) = x.
Proof.
  revert x. induction n as [|n IH]; intros x Hx; cbn [le_bytes le_value].
  - simpl in Hx. lia.
  - rewrite IH; [pose proof (Z.div_mod x 256); lia|].
    replace (8 * Z.of_nat (S n)) with (8 + 8 * Z.of_nat n) in Hx by lia.
    rewrite Z.pow_add_r in Hx by lia. change (2 ^ 8) with 256 in Hx.
    split; [apply Z.div_pos; lia | apply Z.div_lt_upper_bound; lia].
Qed.

Lemma le_value_range l : Forall byte_ok l → 0 ≤ le_value l < 2 ^ (8 * Z.of_nat (length l)).
Proof.
  induction 1 as [|b l Hb Hl IH]; cbn [le_value length]; [simpl; lia|].
  replace (8 * Z.of_nat (S (length l))) with (8 + 8 * Z.of_nat (length l)) by lia.
  rewrite Z.pow_add_r by lia. change (2 ^ 8) with 256. unfold byte_ok in Hb. lia.
Qed.

Lemma le_bytes_value l : Forall byte_ok l → le_bytes (length l) (le_value l) = l.
Proof.
  induction 1 as [|b l Hb Hl IH]; cbn [le_value length le_bytes]; [done|].
  unfold byte_ok in Hb. f_equal.
  - rewrite (Z.mul_comm 256), Z_mod_plus_full. by apply Z.mod_small.
  - rewrite (Z.mul_comm 256), Z.div_add by lia. rewrite Z.div_small by lia.
    by rewrite Z.add_0_l.
Qed.

(** ** Buffers *)

Section buffers.
Context {A : Type}.
Implicit Types l w : list A.

Lemma length_splice l off w : (off + length w ≤ length l)%nat → length (splice l off w) = length l.
Proof. intros H. unfold splice. rewrite !length_app, length_take, length_drop. lia. Qed.

Lemma length_slice l off n : (off + n ≤ length l)%nat → length (slice l off n) = n.
Proof. intros H. unfold slice. rewrite length_take, length_drop. lia. Qed.

Lemma lookup_slice l off n k : (k < n)%nat → slice l off n !! k = l !! (off + k)%nat.
Proof. intros H. unfold slice. by rewrite lookup_take_lt, lookup_drop by lia. Qed.

Lemma lookup_splice_in l off w k :
  (off + length w ≤ length l)%nat → (off ≤ k < off + length w)%nat →
  splice l off w !! k = w !! (k - off)%nat.
Proof.
  intros Hl Hk. unfold splice.
  rewrite lookup_app_r; rewrite length_take; [|lia].
  rewrite lookup_app_l by lia. f_equal. lia.
Qed.

Lemma lookup_splice_out l off w k :
  (off + length w ≤ length l)%nat → (k < off ∨ off + length w ≤ k)%nat →
  splice l off w !! k = l !! k.
Proof.
  intros Hl Hk. unfold splice. destruct Hk as [Hk|Hk].
  - rewrite lookup_app_l by (rewrite length_take; lia). by apply lookup_take_lt.
  - rewrite lookup_app_r; rewrite length_take; [|lia].
    rewrite lookup_app_r by lia. rewrite lookup_drop. f_equal. lia.
Qed.

Lemma slice_splice_eq l off w :
  (off + length w ≤ length l)%nat → slice (splice l off w) off (length w) = w.
Proof.
  intros H. apply list_eq. intros k. destruct (decide (k < length w)%nat).
  - rewrite lookup_slice, lookup_splice_in by lia. f_equal. lia.
  - rewrite !lookup_ge_None_2; [done|lia|].
    unfold slice. rewrite length_take. lia.
Qed.

Lemma slice_splice_ne l off w off' n :
  (off + length w ≤ length l)%nat → (off' + n ≤ off ∨ off + length w ≤ off')%nat →
  slice (splice l off w) off' n = slice l off' n.
Proof.
  intros Hl H. apply list_eq. intros k. destruct (decide (k < n)%nat).
  - rewrite !lookup_slice by lia. apply lookup_splice_out; lia.
  - unfold slice. rewrite !lookup_ge_None_2; [done|rewrite length_take; lia..].
Qed.

Lemma splice_slice l off n : (off + n ≤ length l)%nat → splice l off (slice l off n) = l.
Proof.
  intros H. pose proof (length_slice l off n H) as Hs.
  apply list_eq. intros k. destruct (decide (off ≤ k < off + n)%nat).
  - rewrite lookup_splice_in, lookup_slice by lia. f_equal. lia.
  - rewrite lookup_splice_out by lia. done.
Qed.

Lemma Forall_slice (P : A → Prop) l off n : Forall P l → Forall P (slice l off n).
Proof. intros H. by apply Forall_take, Forall_drop. Qed.

Lemma Forall_splice (P : A → Prop) l off w :
  Forall P l → Forall P w → Forall P (splice l off w).
Proof.
  intros Hl Hw. unfold splice.
  apply Forall_app_2; [by apply Forall_take|].
  apply Forall_app_2; [done | by apply Forall_drop].
Qed.
End buffers.

Lemma list_alter_alter {A} (f g : A → A) p (l : list A) : alter g p (alter f p l) = alter (g ∘ f) p l.
Proof.
  apply list_eq. intros q. destruct (decide (q = p)) as [->|]; [|by rewrite !list_lookup_alter_ne].
  rewrite !list_lookup_alter_eq. by destruct (l !! p).
Qed.

(** A list without one of its elements. *)
Lemma filter_ne_absent {A} `{EqDecision A} (p : A) (l : list A) : p ∉ l → filter (λ x, x ≠ p) l = l.
Proof.
  induction l as [|x l IH]; [done|]. intros [? ?]%not_elem_of_cons. rewrite filter_cons_True by congruence. by rewrite IH.
Qed.

Lemma length_filter_ne {A} `{EqDecision A} (p : A) (l : list A) :
  NoDup l → p ∈ l → length l = S (length (filter (λ x, x ≠ p) l)).
Proof.
  induction 1 as [|x l Hx Hd IH]; [by intros ?%not_elem_of_nil|]. intros Hp. destruct (decide (x = p)) as [->|Hne].
  - rewrite filter_cons_False by tauto. simpl. by rewrite filter_ne_absent.
  - rewrite filter_cons_True by done. simpl. rewrite <-IH; [done|]. by apply elem_of_cons in Hp as [?|?].
Qed.

(** ** Counting loops *)

Lemma length_zseq lo hi : length (zseq lo hi) = Z.to_nat (hi - lo).
Proof. unfold zseq. by rewrite length_fmap, length_seq. Qed.

Lemma lookup_zseq lo hi k :
  (k < Z.to_nat (hi - lo))%nat → zseq lo hi !! k = Some (lo + Z.of_nat k).
Proof. intros H. unfold zseq. by rewrite list_lookup_fmap, lookup_seq_lt. Qed.

Lemma elem_of_zseq lo hi x : x ∈ zseq lo hi ↔ lo ≤ x < hi.
Proof.
  unfold zseq. rewrite list_elem_of_fmap. setoid_rewrite elem_of_seq. split.
  - intros (k & -> & Hk). lia.
  - intros H. exists (Z.to_nat (x - lo)). lia.
Qed.

Lemma zseq_nil lo hi : hi ≤ lo → zseq lo hi = [].
Proof. intros H. unfold zseq. by rewrite Z2Nat.nonpos by lia. Qed.

Lemma zseq_cons lo hi : lo < hi → zseq lo hi = lo :: zseq (lo + 1) hi.
Proof.
  intros H. unfold zseq.
  replace (Z.to_nat (hi - lo)) with (S (Z.to_nat (hi - (lo + 1)))) by lia.
  cbn [seq fmap list_fmap]. f_equal; [lia|].
  rewrite <-fmap_S_seq, <-list_fmap_compose. apply list_fmap_ext. intros; simpl; lia.
Qed.

(** A counting loop keeps an invariant of its counter. *)
Lemma wp_for_zseq {St} (body : Z → M St unit) (I : Z → St → Prop) lo hi s :
  lo ≤ hi → I lo s →
  (∀ k s', lo ≤ k < hi → I k s' → wp (body k) (λ _, I (k + 1)) s') →
  wp (for_each (zseq lo hi) body) (λ _, I hi) s.
Proof.
  intros Hle. remember (Z.to_nat (hi - lo)) as n eqn:En. revert lo Hle En s.
  induction n as [|n IH]; intros lo Hle En s HI Hb.
  - rewrite zseq_nil by lia. apply wp_ret. by replace hi with lo by lia.
  - rewrite zseq_cons by lia. apply wp_bind. eapply wp_mono; [apply Hb; [lia|done]|].
    intros [] s' Hs'. apply IH; [lia..|done|]. intros k s'' Hk. apply Hb. lia.
Qed.

(** ** Hints *)

Create HintDb kernel discriminated.
#[export] Hint Resolve u8_byte le_bytes_ok Forall_slice Forall_splice : kernel.
Create Rewrite HintDb len.
#[export] Hint Rewrite @length_app @length_take @length_drop @length_replicate
  length_le_bytes @length_insert length_zseq @length_fmap @length_seq : len.
Ltac len := repeat first [progress autorewrite with len | progress cbn [length]]; try lia.
Ltac len_in := repeat first [progress autorewrite with len in * | progress cbn [length] in *]; try lia.

(** Sets of block numbers. *)
Lemma difference_known `{Countable A} (a : A) (B L : gset A) : a ∈ L → B ∖ ({[a]} ∪ L) = B ∖ L.
Proof. set_solver. Qed.

Lemma size_difference_one `{Countable A} (a : A) (B L : gset A) :
  a ∈ B → a ∉ L → size (B ∖ L) = S (size (B ∖ ({[a]} ∪ L))).
Proof.
  intros HB HL. assert (B ∖ L = {[a]} ∪ B ∖ ({[a]} ∪ L)) as ->.
  { apply set_eq. intros x. destruct (decide (x = a)) as [->|]; set_solver. }
  rewrite size_union by set_solver. by rewrite size_singleton.
Qed.
