(* ===== verification/CString.v ===== *)
(** * The memory and string routines

    [src/common/string.c].  The routines that write ([memset], [memcpy],
    [memmove], [strncpy]) act on a memory of bytes, with pointers as offsets
    into it, so that overlapping arguments mean what they do in C; an access
    outside it is a fault.  The routines that only read take the bytes from
    their pointer on.  [char] is unsigned, as on AArch64.

    [memmove] copies the old content whatever the overlap ([memmove_correct]);
    [memcpy] does so only when it does not read what it has written
    ([memcpy_correct], [memcpy_overlap]); [strncmp] is zero exactly on strings
    equal up to [n] characters ([strncmp_zero]). *)

From S2P Require Import Prelude.

Abbreviation mem := (list Z).

Definition load (p : nat) : M mem Z := m ← gets id; deref (m !! p).
Definition store (p : nat) (v : Z) : M mem unit := load p ;; modify (<[p := v]>).

(** ** Writing *)

(** The loop bodies run for [i], [i + 1], ..., [k] times. *)
Fixpoint fill_from (s : nat) (c : Z) (k : nat) : M mem unit :=
  match k with
  | O => mret tt
  | S k' => store s (u8 (Z.land c 0xff)) ;; fill_from (S s) c k'
  end.
Definition memset (s : nat) (c : Z) (n : nat) : M mem nat := fill_from s c n ;; mret s.

Fixpoint copy_up (d s : nat) (k : nat) : M mem unit :=
  match k with
  | O => mret tt
  | S k' => c ← load s; store d c ;; copy_up (S d) (S s) k'
  end.
Definition memcpy (dest src n : nat) : M mem nat := copy_up dest src n ;; mret dest.

(** [d] and [s] point one past the bytes still to copy. *)
Fixpoint copy_down (d s : nat) (k : nat) : M mem unit :=
  match k with
  | O => mret tt
  | S k' => c ← load (Nat.pred s); store (Nat.pred d) c ;; copy_down (Nat.pred d) (Nat.pred s) k'
  end.
Definition memmove (dest src n : nat) : M mem nat :=
  (if (src <? dest)%nat && (dest - src <? n)%nat
   then copy_down (dest + n) (src + n) n
   else copy_up dest src n) ;;
  mret dest.

Fixpoint pad_from (d : nat) (k : nat) : M mem unit :=
  match k with
  | O => mret tt
  | S k' => store d 0 ;; pad_from (S d) k'
  end.
Fixpoint strncpy_from (d s : nat) (k : nat) : M mem unit :=
  match k with
  | O => mret tt
  | S k' => c ← load s; if c =? 0 then pad_from d k else store d c ;; strncpy_from (S d) (S s) k'
  end.
Definition strncpy (dest src n : nat) : M mem nat := strncpy_from dest src n ;; mret dest.

Fixpoint strncpy_fast_from (d s : nat) (k : nat) : M mem unit :=
  match k with
  | O => mret tt
  | S k' => c ← load s; if c =? 0 then store d 0 else store d c ;; strncpy_fast_from (S d) (S s) k'
  end.
Definition strncpy_fast (dest src n : nat) : M mem nat := strncpy_fast_from dest src n ;; mret dest.

(** ** Reading *)

Fixpoint memcmp (s1 s2 : list Z) (n : nat) {struct n} : option Z :=
  match n with
  | O => Some 0
  | S n' =>
      match s1, s2 with
      | c1 :: s1', c2 :: s2' => if negb (c1 =? c2) then Some (c1 - c2) else memcmp s1' s2' n'
      | _, _ => None
      end
  end.

Fixpoint strncmp (s1 s2 : list Z) (n : nat) {struct n} : option Z :=
  match n with
  | O => Some 0
  | S n' =>
      match s1, s2 with
      | c1 :: s1', c2 :: s2' =>
          if negb (c1 =? c2) then Some (c1 - c2)
          else if (c1 =? 0) || (c2 =? 0) then Some 0
          else strncmp s1' s2' n'
      | _, _ => None
      end
  end.

Fixpoint strlen (s : list Z) : option Z :=
  match s with
  | [] => None
  | c :: s' => if c =? 0 then Some 0 else (λ k, k + 1) <$> strlen s'
  end.

(** ** Specifications *)

(** The characters of a string before its terminator, at most [n]. *)
Fixpoint cstr (n : nat) (s : list Z) : list Z :=
  match n, s with
  | S n', c :: s' => if c =? 0 then [] else c :: cstr n' s'
  | _, _ => []
  end.
(** What [strncpy] leaves: the characters, padded with zeroes. *)
Definition cpad (n : nat) (s : list Z) : list Z := cstr n s ++ replicate (n - length (cstr n s)) 0.
(** [n] characters of [s] can be read, or its terminator comes first. *)
Definition readable (n : nat) (s : list Z) : Prop := (n ≤ length s)%nat ∨ 0 ∈ s.

Lemma length_cstr n s : (length (cstr n s) ≤ n)%nat.
Proof.
  revert s. induction n as [|n IH]; intros s; [done|]. destruct s as [|c s]; cbn; [lia|].
  destruct (c =? 0); cbn; [lia|]. specialize (IH s). lia.
Qed.
Lemma length_cpad n s : length (cpad n s) = n.
Proof. unfold cpad. pose proof (length_cstr n s). rewrite length_app, length_replicate. lia. Qed.

Lemma load_run m p c : m !! p = Some c → load p m = Ok (c, m).
Proof. intros H. unfold load. rewrite bind_run. cbn. by rewrite H. Qed.
Lemma store_run m p v : (p < length m)%nat → store p v m = Ok (tt, <[p := v]> m).
Proof. intros [c H]%lookup_lt_is_Some. unfold store. by rewrite bind_run, (load_run _ _ _ H). Qed.

Lemma splice_cons {A} (l : list A) d x w :
  (d < length l)%nat → splice (<[d := x]> l) (S d) w = splice l d (x :: w).
Proof.
  intros Hd. unfold splice. rewrite (take_S_r _ _ x) by (by apply list_lookup_insert_eq).
  rewrite take_insert_ge by lia. rewrite <-(assoc_L (++)). cbn [app length]. do 2 f_equal.
  f_equal. rewrite drop_insert_lt by lia. f_equal. lia.
Qed.

Lemma splice_nil {A} (l : list A) d : splice l d [] = l.
Proof. unfold splice. cbn. rewrite Nat.add_0_r. apply take_drop. Qed.

Lemma slice_cons {A} (l : list A) s k x : l !! s = Some x → slice l s (S k) = x :: slice l (S s) k.
Proof. intros H. unfold slice. by rewrite (drop_S _ _ _ H). Qed.

Lemma slice_insert_out {A} (l : list A) s k d x :
  (d < s ∨ s + k ≤ d)%nat → slice (<[d := x]> l) s k = slice l s k.
Proof.
  intros H. unfold slice. destruct H; [by rewrite drop_insert_lt by lia|].
  destruct (decide (d < s)%nat); [by rewrite drop_insert_lt by lia|].
  rewrite drop_insert_ge by lia. by rewrite take_insert_ge by lia.
Qed.

(** ** The loops *)

Lemma fill_from_run k m s c :
  (s + k ≤ length m)%nat → fill_from s c k m = Ok (tt, splice m s (replicate k (u8 (Z.land c 0xff)))).
Proof.
  revert m s. induction k as [|k IH]; intros m s Hk; cbn [fill_from replicate]; [by rewrite splice_nil|].
  rewrite bind_run, store_run by lia. rewrite IH by (rewrite length_insert; lia).
  by rewrite splice_cons by lia.
Qed.

(** Copying upwards is right when no byte is overwritten before it is read. *)
Lemma copy_up_run k m d s :
  (d + k ≤ length m)%nat → (s + k ≤ length m)%nat → (d ≤ s ∨ s + k ≤ d)%nat →
  copy_up d s k m = Ok (tt, splice m d (slice m s k)).
Proof.
  revert m d s. induction k as [|k IH]; intros m d s Hd Hs Ho; cbn [copy_up].
  - unfold slice. rewrite take_0. by rewrite splice_nil.
  - destruct (lookup_lt_is_Some_2 m s) as [x Hx]; [lia|].
    rewrite bind_run, (load_run _ _ _ Hx), bind_run, store_run by lia.
    rewrite IH by (rewrite ?length_insert; lia). rewrite slice_insert_out by lia.
    rewrite (slice_cons _ _ _ _ Hx). by rewrite splice_cons by lia.
Qed.

Lemma slice_snoc {A} (l : list A) s k x : l !! (s + k)%nat = Some x → slice l s (S k) = slice l s k ++ [x].
Proof. intros H. unfold slice. apply take_S_r. by rewrite lookup_drop. Qed.

Lemma splice_snoc {A} (l : list A) d k w x :
  length w = k → (d + k < length l)%nat → splice (<[(d + k)%nat := x]> l) d w = splice l d (w ++ [x]).
Proof.
  intros <- Hd. unfold splice. rewrite take_insert_ge by lia. rewrite <-(assoc_L (++)). do 2 f_equal.
  rewrite length_app. cbn. replace (d + (length w + 1))%nat with (S (d + length w)) by lia.
  rewrite (drop_S _ x (d + length w)) by (by apply list_lookup_insert_eq). f_equal.
  by rewrite drop_insert_lt by lia.
Qed.

Lemma copy_down_run k m d s :
  (d + k ≤ length m)%nat → (s + k ≤ length m)%nat → (s ≤ d)%nat →
  copy_down (d + k) (s + k) k m = Ok (tt, splice m d (slice m s k)).
Proof.
  revert m. induction k as [|k IH]; intros m Hd Hs Ho; cbn [copy_down].
  - unfold slice. rewrite take_0. by rewrite splice_nil.
  - replace (Nat.pred (s + S k)) with (s + k)%nat by lia. replace (Nat.pred (d + S k)) with (d + k)%nat by lia.
    destruct (lookup_lt_is_Some_2 m (s + k)) as [x Hx]; [lia|].
    rewrite bind_run, (load_run _ _ _ Hx), bind_run, store_run by lia.
    rewrite IH by (rewrite ?length_insert; lia). rewrite slice_insert_out by lia.
    rewrite (slice_snoc _ _ _ _ Hx). rewrite splice_snoc; [done| |lia].
    apply length_slice. lia.
Qed.

Lemma pad_from_run k m d : (d + k ≤ length m)%nat → pad_from d k m = Ok (tt, splice m d (replicate k 0)).
Proof.
  revert m d. induction k as [|k IH]; intros m d Hk; cbn [pad_from replicate]; [by rewrite splice_nil|].
  rewrite bind_run, store_run by lia. rewrite IH by (rewrite length_insert; lia).
  by rewrite splice_cons by lia.
Qed.

Lemma readable_cons n c s : c ≠ 0 → readable (S n) (c :: s) → readable n s.
Proof.
  intros Hc [H|H]; [left; cbn in H; lia|right]. apply elem_of_cons in H as [?|?]; [congruence|done].
Qed.

Lemma strncpy_from_run k m d s :
  (d + k ≤ length m)%nat → readable k (slice m s k) → (d + k ≤ s ∨ s + k ≤ d)%nat →
  strncpy_from d s k m = Ok (tt, splice m d (cpad k (slice m s k))).
Proof.
  revert m d s. induction k as [|k IH]; intros m d s Hd Hr Ho; cbn [strncpy_from].
  - unfold cpad. cbn. by rewrite splice_nil.
  - destruct (m !! s) as [x|] eqn:Hx.
    2: { apply lookup_ge_None in Hx. unfold slice in Hr. rewrite drop_ge in Hr by lia.
         destruct Hr as [Hr|Hr]; [cbn in Hr; lia|set_solver]. }
    rewrite bind_run, (load_run _ _ _ Hx). rewrite (slice_cons _ _ _ _ Hx) in *. unfold cpad. cbn [cstr].
    destruct (x =? 0) eqn:E; [cbn [length app]; rewrite Nat.sub_0_r; by apply pad_from_run|].
    apply Z.eqb_neq in E. cbn [length]. rewrite bind_run, store_run by lia.
    assert (Hsl : slice (<[d := x]> m) (S s) k = slice m (S s) k) by (apply slice_insert_out; lia).
    rewrite IH; [|rewrite length_insert; lia|rewrite Hsl; by eapply readable_cons|lia].
    rewrite Hsl. cbn [Nat.sub app]. by rewrite splice_cons by lia.
Qed.

(** ** Properties *)

(** [memmove] leaves at [dest] the bytes that were at [src], however the two
    ranges overlap, and nothing else changes. *)
Theorem memmove_correct m dest src n :
  (dest + n ≤ length m)%nat → (src + n ≤ length m)%nat →
  memmove dest src n m = Ok (dest, splice m dest (slice m src n)).
Proof.
  intros Hd Hs. unfold memmove. rewrite bind_run.
  destruct ((src <? dest)%nat && (dest - src <? n)%nat) eqn:E.
  - apply andb_prop in E as [E1 E2]. apply Nat.ltb_lt in E1, E2. by rewrite copy_down_run by lia.
  - rewrite copy_up_run; [done|lia|lia|]. apply andb_false_iff in E as [E|E]; apply Nat.ltb_ge in E; lia.
Qed.

Lemma memmove_correct_witness :
  memmove 1 0 3 [1; 2; 3; 4] = Ok (1%nat, [1; 1; 2; 3]).
Proof. apply (memmove_correct [1; 2; 3; 4] 1 0 3); cbn; lia. Defined.

(** [memset], [memcpy] (when the copy does not catch up with its own
    writes) and [strncpy] (of a string outside the destination) change exactly
    [n] bytes, to the value, the source, and the string padded with zeroes. *)
Theorem copies_correct m dest src c n :
  (dest + n ≤ length m)%nat →
  memset dest c n m = Ok (dest, splice m dest (replicate n (u8 (Z.land c 255)))) ∧
  ((src + n ≤ length m)%nat → (dest ≤ src ∨ src + n ≤ dest)%nat →
   memcpy dest src n m = Ok (dest, splice m dest (slice m src n))) ∧
  (readable n (slice m src n) → (dest + n ≤ src ∨ src + n ≤ dest)%nat →
   strncpy dest src n m = Ok (dest, splice m dest (cpad n (slice m src n)))).
Proof.
  intros Hd. split_and!.
  - unfold memset. by rewrite bind_run, fill_from_run.
  - intros Hs Ho. unfold memcpy. by rewrite bind_run, copy_up_run.
  - intros Hr Ho. unfold strncpy. by rewrite bind_run, strncpy_from_run.
Qed.

Lemma copies_correct_witness :
  memcpy 0 1 2 [7; 8; 9; 0] = Ok (0%nat, [8; 9; 9; 0]) ∧
  strncpy 0 4 3 [7; 8; 9; 1; 5; 0; 6; 6] = Ok (0%nat, [5; 0; 0; 1; 5; 0; 6; 6]).
Proof.
  split.
  - refine (proj1 (proj2 (copies_correct [7; 8; 9; 0] 0 1 0 2 _)) _ _); cbn; lia.
  - refine (proj2 (proj2 (copies_correct [7; 8; 9; 1; 5; 0; 6; 6] 0 4 0 3 _)) _ _); cbn; [lia| |lia].
    left. cbn. lia.
Defined.

(** [memcpy] onto a range that starts inside the source repeats its first bytes. *)
Example memcpy_overlap : memcpy 1 0 3 [1; 2; 3; 4] = Ok (1%nat, [1; 1; 1; 1]).
Proof. reflexivity. Qed.

Lemma strncmp_spec n s1 s2 :
  readable n s1 → readable n s2 → ∃ r, strncmp s1 s2 n = Some r ∧ (r = 0 ↔ cstr n s1 = cstr n s2).
Proof.
  revert s1 s2. induction n as [|n IH]; intros s1 s2 H1 H2; [exists 0; split; [done|by split]|].
  destruct s1 as [|c1 s1]; [destruct H1 as [H1|H1]; [cbn in H1; lia|by apply not_elem_of_nil in H1]|].
  destruct s2 as [|c2 s2]; [destruct H2 as [H2|H2]; [cbn in H2; lia|by apply not_elem_of_nil in H2]|]. cbn [strncmp cstr].
  destruct (c1 =? c2) eqn:E; cbn [negb].
  - apply Z.eqb_eq in E as <-. rewrite orb_diag. destruct (c1 =? 0) eqn:E0; [exists 0; split; [done|by split]|].
    apply Z.eqb_neq in E0. destruct (IH s1 s2) as (r & Hr & Hr0); [by eapply readable_cons..|].
    exists r. split; [done|]. rewrite Hr0. split; [by intros ->|by intros [= ->]].
  - apply Z.eqb_neq in E. exists (c1 - c2). split; [done|]. split; [lia|].
    destruct (c1 =? 0) eqn:E1, (c2 =? 0) eqn:E2; try done.
    + apply Z.eqb_eq in E1, E2. lia.
    + by intros [= ->].
Qed.

(** [strncmp] reads no further than the terminators, and is zero exactly
    when the two strings, cut at [n] characters, are equal. *)
Theorem strncmp_zero n s1 s2 :
  readable n s1 → readable n s2 → ∃ r, strncmp s1 s2 n = Some r ∧ (r = 0 ↔ cstr n s1 = cstr n s2).
Proof. apply strncmp_spec. Qed.

Lemma strncmp_zero_witness :
  ∃ r, strncmp [104; 105; 0; 7] [104; 105; 0; 9; 9] 14 = Some r ∧ (r = 0 ↔ [104; 105] = [104; 105]).
Proof. apply (strncmp_zero 14 [104; 105; 0; 7] [104; 105; 0; 9; 9]); right; set_solver. Defined.

Lemma memcmp_spec n s1 s2 :
  (n ≤ length s1)%nat → (n ≤ length s2)%nat → ∃ r, memcmp s1 s2 n = Some r ∧ (r = 0 ↔ take n s1 = take n s2).
Proof.
  revert s1 s2. induction n as [|n IH]; intros [|c1 s1] [|c2 s2] H1 H2; cbn in H1, H2; try lia;
    try (exists 0; split; [done|by split]). cbn [memcmp take].
  destruct (c1 =? c2) eqn:E; cbn [negb].
  - apply Z.eqb_eq in E as <-. destruct (IH s1 s2) as (r & Hr & Hr0); [lia..|].
    exists r. split; [done|]. rewrite Hr0. split; [by intros ->|by intros [= ->]].
  - apply Z.eqb_neq in E. exists (c1 - c2). split; [done|]. split; [lia|]. by intros [= ?].
Qed.

Lemma strlen_spec s n : strlen s = Some n ↔ ∃ l rest, s = l ++ 0 :: rest ∧ 0 ∉ l ∧ n = Z.of_nat (length l).
Proof.
  revert n. induction s as [|c s IH]; intros n; cbn [strlen].
  - split; [done|]. by intros ([|? ?] & ? & ? & _).
  - destruct (c =? 0) eqn:E.
    + apply Z.eqb_eq in E as ->. split.
      * intros [= <-]. exists [], s. split_and!; [done|set_solver|done].
      * intros (l & rest & E' & Hl & ->). destruct l as [|x l]; [done|]. injection E' as <- _. set_solver.
    + apply Z.eqb_neq in E. destruct (strlen s) as [k|] eqn:Ek; cbn.
      * destruct (proj1 (IH k) eq_refl) as (l & rest & -> & Hl & ->). split.
        -- intros [= <-]. exists (c :: l), rest. split_and!; [done|set_solver|cbn; lia].
        -- intros (l' & rest' & E' & Hl' & ->). destruct l' as [|x l']; cbn in E'; [congruence|]. injection E' as <- E'. f_equal.
           assert (Some (Z.of_nat (length l)) = Some (Z.of_nat (length l'))) as [= ->]; [|cbn; lia].
           apply IH. exists l', rest'. split_and!; [done|set_solver|done].
      * split; [done|]. intros (l' & rest' & E' & Hl' & ->). destruct l' as [|x l']; cbn in E'; [congruence|]. injection E' as <- E'.
        exfalso. assert (None = Some (Z.of_nat (length l'))); [|done]. apply IH.
        exists l', rest'. split_and!; [done|set_solver|done].
Qed.
