(* ===== verification/Format.v ===== *)
(** * Formatted output

    [src/common/format.c]: [_print_int] and [vformat], which [printk] runs with the
    console for [put_char].  The format and the strings are bytes from a pointer
    on, as in [CString.v], whose [strncmp] finds the directives.  An argument has
    the width it was passed with; [va_arg] with another one is undefined, a fault
    here.

    The theorems: what [_print_int] writes reads back as the number, the least
    [i64] included, and never overruns its buffer; [vformat] writes what the
    directives of the format say, in order, and copies the ones it does not know. *)

From iris.prelude Require Import prelude.
From S2P Require Import Prelude CString.
#[local] Open Scope Z_scope.

(** ** Code *)

Inductive arg : Type :=
| AInt (x : Z)
| ALong (x : Z)
| AStr (s : option (list Z)).

Record fmt_state : Type := Fmt { out : list Z; args : list arg }.
Abbreviation M := (Prelude.M fmt_state).

Definition put_char (c : Z) : M unit := modify (λ s, Fmt (s.(out) ++ [c]) s.(args)).

(** The types that [va_arg] is used with; [usize] is [u64], [isize] is [i64]. *)
Inductive ctype : Type := CU32 | CI32 | CU64 | CI64.

Definition next_arg : M arg :=
  l ← gets args;
  a ← deref (head l);
  modify (λ s, Fmt s.(out) (tail l)) ;;
  mret a.
Definition va_arg (t : ctype) : M Z :=
  a ← next_arg;
  match t, a with
  | CU32, AInt x => mret (u32 x)
  | CI32, AInt x => mret (i32 x)
  | CU64, ALong x => mret (u64 x)
  | CI64, ALong x => mret (i64 x)
  | _, _ => fault
  end.
Definition va_str : M (option (list Z)) :=
  a ← next_arg; match a with AStr s => mret s | _ => fault end.

(** "0123456789abcdef" *)
Definition digit : list Z := [48; 49; 50; 51; 52; 53; 54; 55; 56; 57; 97; 98; 99; 100; 101; 102].

(** [do { *pos++ = digit[v % base]; } while (v /= base);]: [buf] up to [pos]. *)
Fixpoint print_digits (fuel : nat) (v base : Z) (buf : list Z) : M (list Z) :=
  match fuel with
  | O => fail OutOfFuel
  | S fuel =>
      d ← deref (digit !! Z.to_nat (v mod base));
      if (length buf <? 64)%nat then
        let buf := buf ++ [d] in
        let v := v / base in
        if v =? 0 then mret buf else print_digits fuel v base buf
      else fault
  end.

Definition _print_int (u base : Z) (is_signed : bool) : M unit :=
  let v := u64 u in
  let negative := is_signed && (u <? 0) in
  (if negative then put_char 45 else mret tt) ;;
  buf ← print_digits 65 (if negative then u64 (- v) else v) base [];
  for_each (reverse buf) put_char.

(** The strings of [_INT_CASE], with type, base and sign. *)
Record int_case : Type := IntCase { ident : list Z; ctyp : ctype; cbase : Z; csign : bool }.
Definition _INT_CASEs : list int_case := [
  IntCase [117] CU32 10 false;             (* u *)
  IntCase [108; 108; 117] CU64 10 false;   (* llu *)
  IntCase [100] CI32 10 true;              (* d *)
  IntCase [108; 108; 100] CI64 10 true;    (* lld *)
  IntCase [120] CU32 16 false;             (* x *)
  IntCase [108; 108; 120] CU64 16 false;   (* llx *)
  IntCase [112] CU64 16 false;             (* p *)
  IntCase [122; 117] CU64 10 false;        (* zu *)
  IntCase [122; 100] CI64 10 true          (* zd *)
].

(** The chain of [else if]s; [None] when [special] is 0 at its end. *)
Fixpoint int_cases (cs : list int_case) (pos : list Z) : M (option (list Z)) :=
  match cs with
  | [] => mret None
  | c :: cs =>
      r ← deref (strncmp pos (c.(ident) ++ [0]) (length c.(ident)));
      if r =? 0 then
        x ← va_arg c.(ctyp);
        _print_int (i64 x) c.(cbase) c.(csign) ;;
        mret (Some (drop (length c.(ident)) pos))
      else int_cases cs pos
  end.

Fixpoint put_string (s : list Z) : M unit :=
  match s with
  | [] => fault
  | c :: s => if c =? 0 then mret tt else put_char c ;; put_string s
  end.

(** "(null)" *)
Definition null_string : list Z := [40; 110; 117; 108; 108; 41; 0].

(** After a '%': where the format goes on, if this was a directive. *)
Definition special (pos : list Z) : M (option (list Z)) :=
  c ← deref (head pos);
  if c =? 37 then put_char 37 ;; mret (Some (tail pos))
  else if c =? 99 then x ← va_arg CI32; put_char (u8 x) ;; mret (Some (tail pos))
  else if c =? 115 then
    s ← va_str;
    put_string (default null_string s) ;;
    mret (Some (tail pos))
  else int_cases _INT_CASEs pos.

Fixpoint vformat_loop (fuel : nat) (pos : list Z) : M unit :=
  match fuel with
  | O => fail OutOfFuel
  | S fuel =>
      c ← deref (head pos);
      let pos := tail pos in
      if c =? 0 then mret tt
      else if c =? 37 then
        r ← special pos;
        match r with
        | Some pos => vformat_loop fuel pos
        | None => put_char c ;; vformat_loop fuel pos
        end
      else put_char c ;; vformat_loop fuel pos
  end.
(** Every turn goes on by a character. *)
Definition vformat (fmt : list Z) : M unit := vformat_loop (length fmt) fmt.

(** [printk], whose lock is not modelled; [format] is the same function. *)
Definition printk (fmt : list Z) (arg : list arg) (console : list Z) : outcome (list Z) :=
  match vformat fmt (Fmt console arg) with
  | Ok (_, s) => Ok s.(out)
  | Fail e => Fail e
  end.

(** ** Numerals *)

(** The value of a digit. *)
Definition digit_value (c : Z) : option Z :=
  if (48 <=? c) && (c <=? 57) then Some (c - 48)
  else if (97 <=? c) && (c <=? 102) then Some (c - 87) else None.

Fixpoint read_digits (base acc : Z) (l : list Z) : option Z :=
  match l with
  | [] => Some acc
  | c :: l => d ← digit_value c; if d <? base then read_digits base (acc * base + d) l else None
  end.

(** Reading a number: an optional sign, and at least one digit. *)
Definition read_nat (base : Z) (l : list Z) : option Z := match l with [] => None | _ => read_digits base 0 l end.
Definition read_int (base : Z) (l : list Z) : option Z :=
  match l with
  | c :: l' => if c =? 45 then Z.opp <$> read_nat base l' else read_nat base l
  | [] => None
  end.

(** No leading zero. *)
Definition short_nat (l : list Z) : Prop := head l = Some 48 → l = [48].
Definition short_int (l : list Z) : Prop := short_nat l ∧ ∀ l', l = 45 :: l' → short_nat l' ∧ l' ≠ [48].

Lemma digit_spec k : 0 ≤ k < 16 → ∃ c, digit !! Z.to_nat k = Some c ∧ digit_value c = Some k ∧ c ≠ 45 ∧ c ≠ 0 ∧ (c = 48 → k = 0).
Proof.
  intros Hk. assert (H : k ∈ zseq 0 16) by (by apply elem_of_zseq). revert H. cbn [zseq].
  intros H. repeat (apply elem_of_cons in H as [->|H]; [eexists; split; [reflexivity|]; by split_and!|]).
  by apply elem_of_nil in H.
Qed.

Lemma read_digits_app base acc l1 l2 : read_digits base acc (l1 ++ l2) = (read_digits base acc l1 ≫= λ a, read_digits base a l2).
Proof.
  revert acc. induction l1 as [|c l1 IH]; intros acc; [done|]. cbn [read_digits app]. destruct (digit_value c) as [d|]; [|done].
  cbn. by destruct (d <? base).
Qed.

(** The digits of [v], least first: [ds] reads as [v] from its end. *)
Record numeral (base v : Z) (ds : list Z) : Prop := {
  u_read : read_digits base 0 (reverse ds) = Some v;
  u_some : ds ≠ [];
  u_short : short_nat (reverse ds);
  u_sign : 45 ∉ ds;
}.

Lemma numeral_one base d c : 0 ≤ d < base → digit_value c = Some d → c ≠ 45 → numeral base d [c].
Proof.
  intros Hd Hc H45. assert (E : reverse [c] = [c]) by done. split; rewrite ?E; [|done|intros [= ->]; done|set_solver].
  cbn. rewrite Hc. cbn. by destruct (Z.ltb_spec d base); [|lia].
Qed.

Lemma numeral_cons base v d c ds :
  0 ≤ d < base → digit_value c = Some d → c ≠ 45 → v ≠ 0 → numeral base v ds → numeral base (v * base + d) (c :: ds).
Proof.
  intros Hd Hc H45 Hv [Hr Hne Hs Hg]. assert (E : reverse (c :: ds) = reverse ds ++ [c]) by apply reverse_cons.
  split; rewrite ?E; [| |intros Hh|set_solver].
  - rewrite read_digits_app Hr. cbn. rewrite Hc. cbn. by destruct (Z.ltb_spec d base); [|lia].
  - done.
  - destruct (reverse ds) as [|x l] eqn:El; [by apply (f_equal reverse) in El; rewrite reverse_involutive in El|].
    injection Hh as ->. specialize (Hs eq_refl). injection Hs as ->. cbn in Hr. destruct (48 - 48 <? base); [|done]. injection Hr as ?. lia.
Qed.

Lemma digits_spec base v : ∀ fuel n buf s, 2 ≤ base ≤ 16 → 0 ≤ v < base ^ Z.of_nat n → (length buf + n ≤ 64)%nat → (0 < n ≤ fuel)%nat →
  ∃ ds, print_digits fuel v base buf s = Ok (buf ++ ds, s) ∧ numeral base v ds.
Proof.
  intros fuel. revert v. induction fuel as [|fuel IH]; intros v n buf s Hb Hv Hl Hn; [lia|]. cbn [print_digits].
  pose proof (Z.mod_pos_bound v base ltac:(lia)) as Hm. pose proof (Z.div_mod v base ltac:(lia)) as Hdm.
  destruct (digit_spec (v mod base) ltac:(lia)) as (c & Ec & Hc & H45 & _). rewrite Ec (bind_Ok (deref (Some c)) _ s c s eq_refl).
  destruct (Nat.ltb_spec (length buf) 64) as [_|?]; [|lia]. destruct (Z.eqb_spec (v / base) 0) as [E0|Hne].
  - exists [c]. split; [done|]. rewrite E0 Z.mul_0_r Z.add_0_l in Hdm. rewrite {1}Hdm. by apply numeral_one.
  - assert (Hpos : 0 < v / base) by (pose proof (Z.div_pos v base); lia).
    destruct n as [|n]; [lia|]. rewrite Nat2Z.inj_succ Z.pow_succ_r in Hv; [|lia].
    destruct (IH (v / base) n (buf ++ [c]) s Hb) as (ds & E & Hds).
    + split; [lia|]. apply Z.div_lt_upper_bound; lia.
    + rewrite length_app. cbn. lia.
    + destruct n; [|lia]. change (Z.of_nat 0) with 0 in Hv. rewrite Z.pow_0_r Z.mul_1_r in Hv. rewrite Z.div_small in Hpos; lia.
    + exists (c :: ds). rewrite E -app_assoc. split; [done|]. rewrite {1}Hdm Z.mul_comm. by apply numeral_cons.
Qed.

Lemma put_all l s : for_each l put_char s = Ok (tt, Fmt (s.(out) ++ l) s.(args)).
Proof.
  revert s. induction l as [|c l IH]; intros s; cbn [for_each]; [by rewrite app_nil_r; destruct s|].
  rewrite (bind_Ok _ _ s tt (Fmt (s.(out) ++ [c]) s.(args))) // IH. cbn. by rewrite -app_assoc.
Qed.

Definition int_value (u : Z) (is_signed : bool) : Z := if is_signed then u else u64 u.

Lemma read_numeral base v ds : numeral base v ds → read_nat base (reverse ds) = Some v.
Proof.
  intros [Hr Hne _ _]. unfold read_nat. destruct (reverse ds) eqn:E; [|done].
  by apply (f_equal reverse) in E; rewrite reverse_involutive in E.
Qed.

Lemma numeral_head base v ds c l : numeral base v ds → reverse ds = c :: l → c ≠ 45.
Proof. intros [_ _ _ Hg] E ->. apply Hg. rewrite -(reverse_involutive ds) E. set_solver. Qed.

Lemma read_int_numeral base v ds : numeral base v ds → read_int base (reverse ds) = Some v ∧ short_int (reverse ds).
Proof.
  intros Hn. pose proof (read_numeral _ _ _ Hn) as Hr. split.
  - unfold read_int. destruct (reverse ds) as [|c l] eqn:E; [done|].
    pose proof (numeral_head _ _ _ _ _ Hn E) as H45. by destruct (Z.eqb_spec c 45).
  - split; [by destruct Hn|]. intros l' E. by destruct (numeral_head _ _ _ _ _ Hn E).
Qed.

Lemma read_int_negative base v ds : numeral base v ds → v ≠ 0 → read_int base (45 :: reverse ds) = Some (- v) ∧ short_int (45 :: reverse ds).
Proof.
  intros Hn Hv. pose proof (read_numeral _ _ _ Hn) as Hr. split.
  - cbn [read_int]. by rewrite Z.eqb_refl Hr.
  - split; [done|]. intros l' [= <-]. split; [by destruct Hn|]. intros E. rewrite E in Hr.
    unfold read_nat in Hr. cbn in Hr. destruct (48 - 48 <? base); [|done]. injection Hr as ?. lia.
Qed.

(** Reads back as [x], in the shortest way. *)
Definition prints_as (base x : Z) (l : list Z) : Prop := read_int base l = Some x ∧ short_int l.

Lemma print_int_spec u base sg s :
  2 ≤ base ≤ 16 → - 2 ^ 63 ≤ u < 2 ^ 63 →
  ∃ l, _print_int u base sg s = Ok (tt, Fmt (s.(out) ++ l) s.(args)) ∧ prints_as base (int_value u sg) l.
Proof.
  intros Hb Hu. assert (Hpow : 2 ^ 64 ≤ base ^ Z.of_nat 64) by (apply Z.pow_le_mono_l; lia).
  set (neg := sg && (u <? 0)). set (v := if neg then u64 (- u64 u) else u64 u).
  assert (Hv : 0 ≤ v < 2 ^ 64) by (unfold v; destruct neg; apply (wrap_range 64); lia).
  set (s1 := if neg then Fmt (s.(out) ++ [45]) s.(args) else s).
  destruct (digits_spec base v 65 64 [] s1 Hb ltac:(lia) ltac:(cbn; lia) ltac:(lia)) as (ds & Eds & Hds).
  exists (if neg then 45 :: reverse ds else reverse ds). split.
  - unfold _print_int. fold neg. fold v. rewrite (bind_Ok _ _ s tt s1); [|by unfold s1; destruct neg].
    rewrite (bind_Ok _ _ _ _ _ Eds) put_all. unfold s1. destruct neg; cbn; by rewrite -?app_assoc.
  - unfold int_value. destruct neg eqn:En; unfold neg in En.
    + apply andb_prop in En as [-> Hlt%Z.ltb_lt]. assert (Ev : v = - u).
      { unfold v, u64, wrap. rewrite -(Z_mod_plus_full (- (u mod 2 ^ 64)) (- (u / 2 ^ 64)) (2 ^ 64)).
        replace (- (u mod 2 ^ 64) + - (u / 2 ^ 64) * 2 ^ 64) with (- u) by (pose proof (Z.div_mod u (2 ^ 64)); lia).
        apply Z.mod_small. lia. }
      replace u with (- v) by lia. apply read_int_negative; [done|lia].
    + destruct sg; [|by apply read_int_numeral]. cbn in En. apply Z.ltb_ge in En.
      assert (Ev : v = u) by (apply u64_small; lia). rewrite -{1}Ev. by apply read_int_numeral.
Qed.

(** C32: A number that [_print_int] writes reads back as it was, the least [i64]
    included, without a leading zero; in bases 2 to 16 it neither leaves the
    digit table nor its 64-byte buffer. *)
Theorem print_int_roundtrip u base sg s :
  2 ≤ base ≤ 16 → - 2 ^ 63 ≤ u < 2 ^ 63 →
  ∃ l, _print_int u base sg s = Ok (tt, Fmt (s.(out) ++ l) s.(args)) ∧
    read_int base l = Some (int_value u sg) ∧ short_int l.
Proof. apply print_int_spec. Qed.

(** ** Formats *)

(** What a format is made of; [Unknown c] is a '%' that starts no directive. *)
Inductive item : Type :=
| Lit (c : Z)
| Percent
| Chr
| Str
| Num (c : int_case)
| Unknown (c : Z).

Definition render (i : item) : list Z :=
  match i with
  | Lit c => [c]
  | Percent => [37; 37]
  | Chr => [37; 99]
  | Str => [37; 115]
  | Num c => 37 :: c.(ident)
  | Unknown c => [37; c]
  end.

(** The letters that start directives. *)
Definition letters : list Z := [37; 99; 115; 117; 108; 100; 120; 112; 122].
Definition item_ok (i : item) : Prop :=
  match i with
  | Lit c => c ≠ 0 ∧ c ≠ 37
  | Num c => c ∈ _INT_CASEs
  | Unknown c => c ≠ 0 ∧ c ∉ letters
  | _ => True
  end.

Definition arg_value (t : ctype) (a : arg) : option Z :=
  match t, a with
  | CU32, AInt x => Some (u32 x)
  | CI32, AInt x => Some (i32 x)
  | CU64, ALong x => Some (u64 x)
  | CI64, ALong x => Some (i64 x)
  | _, _ => None
  end.
Definition str_arg (s : option (list Z)) : list Z := default null_string s.

(** The arguments that are left; [None]: they are not what the item asks for. *)
Definition takes (i : item) (l : list arg) : option (list arg) :=
  match i, l with
  | Chr, AInt _ :: l => Some l
  | Str, AStr s :: l => if bool_decide (0 ∈ str_arg s) then Some l else None
  | Num c, a :: l => (λ _, l) <$> arg_value c.(ctyp) a
  | Chr, _ | Str, _ | Num _, _ => None
  | _, l => Some l
  end.
(** [w] is what the item shows for the arguments. *)
Definition shows (i : item) (l : list arg) (w : list Z) : Prop :=
  match i, l with
  | Lit c, _ => w = [c]
  | Percent, _ => w = [37]
  | Chr, AInt x :: _ => w = [u8 (i32 x)]
  | Str, AStr s :: _ => w = cstr (length (str_arg s)) (str_arg s)
  | Num c, a :: _ => ∃ x, arg_value c.(ctyp) a = Some x ∧ prints_as c.(cbase) x w
  | Unknown c, _ => w = [37; c]
  | _, _ => False
  end.

Fixpoint takes_all (its : list item) (l : list arg) : option (list arg) :=
  match its with [] => Some l | i :: its => l ← takes i l; takes_all its l end.
Fixpoint shows_all (its : list item) (l : list arg) (w : list Z) : Prop :=
  match its with
  | [] => w = []
  | i :: its => ∃ w1 w2 l', w = w1 ++ w2 ∧ shows i l w1 ∧ takes i l = Some l' ∧ shows_all its l' w2
  end.

(** *** The pieces *)

Lemma va_arg_run t s : va_arg t s =
  match s.(args) with
  | a :: l => match arg_value t a with Some x => Ok (x, Fmt s.(out) l) | None => Fail Faulted end
  | [] => Fail Faulted
  end.
Proof. destruct s as [o [|a l]]; [done|]. by destruct t, a. Qed.

Lemma next_arg_run s : next_arg s = match s.(args) with a :: l => Ok (a, Fmt s.(out) l) | [] => Fail Faulted end.
Proof. by destruct s as [o [|a l]]. Qed.

Lemma put_string_run l s : put_string l s =
  if bool_decide (0 ∈ l) then Ok (tt, Fmt (s.(out) ++ cstr (length l) l) s.(args)) else Fail Faulted.
Proof.
  revert s. induction l as [|c l IH]; intros s; cbn [put_string cstr length]; [done|].
  destruct (Z.eqb_spec c 0) as [->|Hc].
  - rewrite bool_decide_eq_true_2; [|by left]. rewrite app_nil_r. by destruct s.
  - rewrite (bind_Ok _ _ s tt (Fmt (s.(out) ++ [c]) s.(args))) // IH. cbn [out args]. rewrite -app_assoc.
    assert (0 ∈ c :: l ↔ 0 ∈ l) as Hin by (rewrite elem_of_cons; naive_solver).
    destruct (decide (0 ∈ l)); [rewrite !bool_decide_eq_true_2 //; by apply Hin|rewrite !bool_decide_eq_false_2 //; by rewrite Hin].
Qed.

Lemma int_cases_found c rest s : c ∈ _INT_CASEs →
  int_cases _INT_CASEs (c.(ident) ++ rest) s =
  (x ← va_arg c.(ctyp); _print_int (i64 x) c.(cbase) c.(csign) ;; mret (Some rest)) s.
Proof.
  unfold _INT_CASEs at 1. intros H. repeat (apply elem_of_cons in H as [->|H]; [reflexivity|]). by apply elem_of_nil in H.
Qed.

Lemma int_cases_skip k cs c rest d ds s : k.(ident) = d :: ds → c ≠ d →
  int_cases (k :: cs) (c :: rest) s = int_cases cs (c :: rest) s.
Proof.
  intros E Hne. cbn [int_cases]. rewrite E. cbn [length app strncmp]. rewrite (proj2 (Z.eqb_neq c d) Hne). cbn [negb].
  rewrite (bind_Ok (deref (Some (c - d))) _ s (c - d) s eq_refl). by destruct (Z.eqb_spec (c - d) 0); [lia|].
Qed.

Lemma int_cases_none c rest s : c ∉ letters → int_cases _INT_CASEs (c :: rest) s = Ok (None, s).
Proof.
  unfold letters. rewrite !not_elem_of_cons. intros (_ & _ & _ & Hu & Hl & Hd & Hx & Hp & Hz & _). unfold _INT_CASEs.
  do 9 (erewrite int_cases_skip; [|reflexivity|done]). done.
Qed.

Lemma i32_range x : - 2 ^ 31 ≤ i32 x < 2 ^ 31.
Proof. unfold i32, swrap. change (2 ^ (32 - 1)) with (2 ^ 31). pose proof (Z.mod_pos_bound (x + 2 ^ 31) (2 ^ 32)). lia. Qed.
Lemma i64_range x : - 2 ^ 63 ≤ i64 x < 2 ^ 63.
Proof. unfold i64, swrap. change (2 ^ (64 - 1)) with (2 ^ 63). pose proof (Z.mod_pos_bound (x + 2 ^ 63) (2 ^ 64)). lia. Qed.
Lemma u64_i64 x : 0 ≤ x < 2 ^ 64 → u64 (i64 x) = x.
Proof.
  intros Hx. unfold i64, swrap, u64, wrap. change (2 ^ (64 - 1)) with (2 ^ 63).
  replace ((x + 2 ^ 63) mod 2 ^ 64 - 2 ^ 63) with (x + - ((x + 2 ^ 63) / 2 ^ 64) * 2 ^ 64)
    by (pose proof (Z.div_mod (x + 2 ^ 63) (2 ^ 64)); lia).
  rewrite Z_mod_plus_full. by apply Z.mod_small.
Qed.

(** The conversion to [i64] and back loses nothing. *)
Lemma case_value c a x : c ∈ _INT_CASEs → arg_value c.(ctyp) a = Some x →
  2 ≤ c.(cbase) ≤ 16 ∧ int_value (i64 x) c.(csign) = x.
Proof.
  intros Hc Ha. pose proof (wrap_range 32) as R32. pose proof (wrap_range 64) as R64. pose proof i32_range as S32. pose proof i64_range as S64.
  unfold _INT_CASEs in Hc.
  repeat (apply elem_of_cons in Hc as [->|Hc]; [split; [cbn; lia|]; destruct a as [y|y|y]; try done; injection Ha as <-;
    unfold int_value; cbn [csign]; solve [apply i64_small; specialize (S32 y); specialize (S64 y); lia
      |apply u64_i64; unfold u32, u64; specialize (R32 y); specialize (R64 y); lia]|]).
  by apply elem_of_nil in Hc.
Qed.

(** An [_INT_CASE], once its string is found. *)
Lemma int_case_run c rest s : c ∈ _INT_CASEs →
  match takes (Num c) s.(args) with
  | Some l => ∃ w, int_cases _INT_CASEs (c.(ident) ++ rest) s = Ok (Some rest, Fmt (s.(out) ++ w) l) ∧ shows (Num c) s.(args) w
  | None => int_cases _INT_CASEs (c.(ident) ++ rest) s = Fail Faulted
  end.
Proof.
  intros Hc. rewrite int_cases_found //. pose proof (va_arg_run c.(ctyp) s) as E. destruct s.(args) as [|a l]; cbn [takes]; [by rewrite bind_run E|].
  destruct (arg_value c.(ctyp) a) as [x|] eqn:Ea; cbn; [|by rewrite bind_run E].
  destruct (case_value c a x Hc Ea) as [Hb Hv].
  destruct (print_int_spec (i64 x) c.(cbase) c.(csign) (Fmt s.(out) l) Hb (i64_range x)) as (w & Ew & Hw). rewrite Hv in Hw.
  exists w. split; [|eauto]. by rewrite (bind_Ok _ _ _ _ _ E) (bind_Ok _ _ _ _ _ Ew).
Qed.

Lemma special_run i rest s : item_ok i → (∀ c, i ≠ Lit c) →
  match takes i s.(args) with
  | Some l => ∃ w pos, special (tail (render i) ++ rest) s = Ok (pos, Fmt (s.(out) ++ w) l) ∧
      match i with Unknown _ => pos = None ∧ w = [] ∧ l = s.(args) | _ => pos = Some rest ∧ shows i s.(args) w end
  | None => special (tail (render i) ++ rest) s = Fail Faulted
  end.
Proof.
  intros Hi Hlit. destruct i as [c| | | |k|c]; cbn [takes render tail app].
  - by destruct (Hlit c).
  - by exists [37], (Some rest).
  - unfold special. rewrite (bind_Ok (deref (Some 99)) _ s 99 s eq_refl). cbn [Z.eqb Pos.eqb].
    pose proof (va_arg_run CI32 s) as E. destruct s.(args) as [|[x|x|x] l]; cbn in E; try by rewrite bind_run E.
    exists [u8 (i32 x)], (Some rest). split; [|done]. by rewrite (bind_Ok _ _ _ _ _ E).
  - unfold special. rewrite (bind_Ok (deref (Some 115)) _ s 115 s eq_refl). cbn [Z.eqb Pos.eqb].
    pose proof (next_arg_run s) as E. destruct s.(args) as [|a l]; [by rewrite bind_run /va_str bind_run E|].
    destruct a as [x|x|o]; try by rewrite bind_run /va_str bind_run E.
    rewrite (bind_Ok va_str _ s o (Fmt s.(out) l)); [|by rewrite /va_str bind_run E].
    rewrite bind_run put_string_run. fold (str_arg o). cbn [out args]. case_bool_decide; [|done].
    by exists (cstr (length (str_arg o)) (str_arg o)), (Some rest).
  - assert (Hk : special (ident k ++ rest) s = int_cases _INT_CASEs (ident k ++ rest) s).
    { cbn in Hi. unfold _INT_CASEs in Hi. repeat (apply elem_of_cons in Hi as [->|Hi]; [reflexivity|]). by apply elem_of_nil in Hi. }
    rewrite Hk. pose proof (int_case_run k rest s Hi) as H. cbn [takes] in H. destruct (args s) as [|a l]; [done|].
    destruct (_ <$> _) as [l'|]; [|done]. destruct H as (w & E & Hw). by exists w, (Some rest).
  - destruct Hi as [_ Hc]. exists [], None. rewrite app_nil_r. split; [|done]. unfold special.
    rewrite (bind_Ok (deref (Some c)) _ s c s eq_refl). pose proof (int_cases_none c rest s Hc) as E.
    unfold letters in Hc. rewrite !not_elem_of_cons in Hc. destruct Hc as (H37 & H99 & H115 & _).
    rewrite (proj2 (Z.eqb_neq _ _) H37) (proj2 (Z.eqb_neq _ _) H99) (proj2 (Z.eqb_neq _ _) H115) E. by destruct s.
Qed.

(** A character that is no directive. *)
Lemma loop_plain fuel c pos s : c ≠ 0 → c ≠ 37 →
  vformat_loop (S fuel) (c :: pos) s = vformat_loop fuel pos (Fmt (s.(out) ++ [c]) s.(args)).
Proof.
  intros H0 H37. cbn [vformat_loop head]. rewrite (bind_Ok (deref (Some c)) _ s c s eq_refl).
  by rewrite (proj2 (Z.eqb_neq _ _) H0) (proj2 (Z.eqb_neq _ _) H37).
Qed.

(** One item of the format. *)
Lemma loop_item fuel i rest s : item_ok i → (length (render i ++ rest) ≤ fuel)%nat →
  match takes i s.(args) with
  | Some l => ∃ w fuel', shows i s.(args) w ∧ (length rest ≤ fuel')%nat ∧
      vformat_loop fuel (render i ++ rest) s = vformat_loop fuel' rest (Fmt (s.(out) ++ w) l)
  | None => vformat_loop fuel (render i ++ rest) s = Fail Faulted
  end.
Proof.
  intros Hi Hf. rewrite length_app in Hf.
  assert (Hlit : (∃ c, i = Lit c) ∨ ∀ c, i ≠ Lit c) by (destruct i; (by left; eexists) || by right).
  destruct Hlit as [[c ->]|Hlit].
  { destruct Hi as [H0 H37]. cbn in *. destruct fuel as [|fuel]; [lia|]. exists [c], fuel. split; [done|]. split; [lia|].
    by apply loop_plain. }
  pose proof (special_run i rest s Hi Hlit) as H.
  assert (Er : render i = 37 :: tail (render i)) by (destruct i; [by edestruct Hlit|done..]).
  destruct fuel as [|fuel]; [rewrite Er in Hf; cbn in Hf; lia|]. rewrite Er. cbn [app vformat_loop head tail].
  rewrite (bind_Ok (deref (Some 37)) _ s 37 s eq_refl). cbn [Z.eqb Pos.eqb].
  destruct (takes i s.(args)) as [l|]; [|by rewrite bind_run H]. destruct H as (w & pos & E & Hw).
  rewrite (bind_Ok _ _ _ _ _ E). rewrite Er in Hf. cbn [length] in Hf.
  destruct i as [c| | | |k|c]; try (destruct Hw as [-> Hw]; exists w, fuel; split; [exact Hw|]; split; [lia|done]).
  destruct Hw as (-> & -> & ->). cbn in Hf. destruct fuel as [|fuel]; [lia|]. exists [37; c], fuel. split; [done|]. split; [lia|].
  rewrite app_nil_r. destruct Hi as [H0 Hc]. rewrite (bind_Ok _ _ _ tt (Fmt (out s ++ [37]) (args s))); [|by destruct s].
  cbn [render tail app]. rewrite loop_plain //; [|set_solver]. cbn. by rewrite -app_assoc.
Qed.

Lemma loop_items its (rest : list Z) fuel s : Forall item_ok its → (length (concat (render <$> its) ++ 0%Z :: rest) ≤ fuel)%nat →
  match takes_all its s.(args) with
  | Some l => ∃ w, vformat_loop fuel (concat (render <$> its) ++ 0 :: rest) s = Ok (tt, Fmt (s.(out) ++ w) l) ∧
      shows_all its s.(args) w
  | None => vformat_loop fuel (concat (render <$> its) ++ 0 :: rest) s = Fail Faulted
  end.
Proof.
  revert fuel s. induction its as [|i its IH]; intros fuel s Hok Hf; cbn [fmap list_fmap concat takes_all app] in *.
  - exists []. rewrite app_nil_r. destruct fuel; [cbn in Hf; lia|]. by destruct s.
  - apply Forall_cons in Hok as [Hi Hok]. rewrite -app_assoc in Hf |- *.
    pose proof (loop_item fuel i (concat (render <$> its) ++ 0 :: rest) s Hi Hf) as H.
    destruct (takes i s.(args)) as [l|] eqn:Et; cbn [mbind option_bind]; [|exact H]. destruct H as (w & fuel' & Hw & Hf' & ->).
    specialize (IH fuel' (Fmt (out s ++ w) l) Hok Hf'). cbn [args out] in IH. destruct (takes_all its l) as [l'|]; [|exact IH].
    destruct IH as (w2 & -> & Hw2). exists (w ++ w2). rewrite -app_assoc. split; [done|]. by exists w, w2, l.
Qed.

(** C33: [vformat] of a format of known and unknown directives and other
    characters ends, having put out what each of them shows for its arguments,
    in order, and nothing else; exactly when an argument is missing or not of
    the width its directive asks for, the access to it is undefined. *)
Theorem vformat_correct its rest o l : Forall item_ok its →
  match takes_all its l with
  | Some l' => ∃ w, vformat (concat (render <$> its) ++ 0 :: rest) (Fmt o l) = Ok (tt, Fmt (o ++ w) l') ∧ shows_all its l w
  | None => vformat (concat (render <$> its) ++ 0 :: rest) (Fmt o l) = Fail Faulted
  end.
Proof. intros Hok. by apply (loop_items its rest _ (Fmt o l) Hok). Qed.

(** ** Examples *)

Module FormatExamples.

Definition D : int_case := IntCase [100] CI32 10 true.
Definition LLX : int_case := IntCase [108; 108; 120] CU64 16 false.
(** "a=%d %llx%%%02s" *)
Definition its0 : list item := [Lit 97; Lit 61; Num D; Lit 32; Num LLX; Percent; Unknown 48; Lit 50; Lit 115].

Lemma print_int_roundtrip_witness :
  ∃ l, _print_int (- 2 ^ 63) 10 true (Fmt [7] []) = Ok (tt, Fmt ([7] ++ l) []) ∧
    read_int 10 l = Some (int_value (- 2 ^ 63) true) ∧ short_int l.
Proof. apply (print_int_roundtrip (- 2 ^ 63) 10 true (Fmt [7] [])); lia. Defined.

Lemma its0_ok : Forall item_ok its0.
Proof.
  repeat (apply Forall_cons_2 || apply Forall_nil_2); try done.
  - by apply list_elem_of_In; cbn; auto.
  - by apply list_elem_of_In; cbn; auto 10.
  - split; [done|]. unfold letters. rewrite !not_elem_of_cons. split_and!; try done. apply not_elem_of_nil.
Qed.

Lemma vformat_correct_witness :
  match takes_all its0 [AInt (-1); ALong 255; AInt 3] with
  | Some l' => ∃ w, vformat (concat (render <$> its0) ++ 0 :: [9]) (Fmt [] [AInt (-1); ALong 255; AInt 3]) = Ok (tt, Fmt ([] ++ w) l') ∧
      shows_all its0 [AInt (-1); ALong 255; AInt 3] w
  | None => vformat (concat (render <$> its0) ++ 0 :: [9]) (Fmt [] [AInt (-1); ALong 255; AInt 3]) = Fail Faulted
  end.
Proof. apply (vformat_correct its0 [9] [] [AInt (-1); ALong 255; AInt 3] its0_ok). Defined.

(** It prints "a=-1 ff%%02s". *)
Example its0_run :
  printk (concat (render <$> its0) ++ [0]) [AInt (-1); ALong 255; AInt 3] [] =
  Ok [97; 61; 45; 49; 32; 102; 102; 37; 37; 48; 50; 115].
Proof. reflexivity. Qed.

(** "%08x": the argument is not used. *)
Example width_not_known : printk [37; 48; 56; 120; 0] [AInt 5] [] = Ok [37; 48; 56; 120].
Proof. reflexivity. Qed.

Example null_string_run : printk [37; 115; 0] [AStr None] [] = Ok [40; 110; 117; 108; 108; 41].
Proof. reflexivity. Qed.

Example least_i64 : printk [37; 108; 108; 100; 0] [ALong (- 2 ^ 63)] [] =
  Ok [45; 57; 50; 50; 51; 51; 55; 50; 48; 51; 54; 56; 53; 52; 55; 55; 53; 56; 48; 56].
Proof. reflexivity. Qed.

End FormatExamples.
