(* ===== verification/LinkedList.v ===== *)
(** * Circular doubly linked lists and the queues built on them

    [src/common/list.c] and [src/common/list.h].  The heap maps the address of
    a [ListNode] to its two pointers; an access through a null or foreign
    pointer is [Faulted].  [ring h l] says that the nodes of [l], in order,
    form one circular list of [h].  The theorems show that merging, inserting
    and detaching act on rings as appending, consing and removing act on
    sequences, that the traversal macro visits the ring once and then its head,
    and that [Queue] refines a first-in first-out sequence. *)

From S2P Require Import Prelude.

Module DList.

Definition NULL : Z := 0.

Record ListNode := mkNode { prev : Z; next : Z }.
Abbreviation heap := (gmap Z ListNode).

Definition load (p : Z) : M heap ListNode :=
  h ← gets id; deref (h !! p).

Definition set_next (p v : Z) : M heap unit :=
  n ← load p; modify (insert p (mkNode (prev n) v)).
Definition set_prev (p v : Z) : M heap unit :=
  n ← load p; modify (insert p (mkNode v (next n))).

(** Initialising a node does not read it: the memory is the caller's. *)
Definition init_list_node (node : Z) : M heap unit :=
  modify (insert node (mkNode node node)).

Definition _merge_list (node1 node2 : Z) : M heap Z :=
  if node1 =? NULL then mret node2
  else if node2 =? NULL then mret node1
  else
    node3 ← next <$> load node1;
    node4 ← prev <$> load node2;
    set_next node1 node2 ;;
    set_prev node2 node1 ;;
    set_next node4 node3 ;;
    set_prev node3 node4 ;;
    mret node1.

Definition _insert_into_list (list node : Z) : M heap Z :=
  init_list_node node ;; _merge_list list node.

Definition _detach_from_list (node : Z) : M heap Z :=
  n ← load node;
  let pv := prev n in
  set_next pv (next n) ;;
  n' ← load node;
  set_prev (next n') (prev n') ;;
  init_list_node node ;;
  mret (if pv =? node then NULL else pv).

Definition _empty_list (list : Z) : M heap bool :=
  n ← load list; mret (next n =? list).

(** [_for_in_list(valptr, list)]: the sequence of values [valptr] takes.  The
    body also runs for the head itself, after which the loop stops. *)
Fixpoint walk (fuel : nat) (flag valptr : Z) : M heap (list Z) :=
  match fuel with
  | O => fail OutOfFuel
  | S fuel' =>
      if valptr =? NULL then mret []
      else if valptr =? flag then mret [valptr]
      else n ← load valptr;
           rest ← walk fuel' flag (next n);
           mret (valptr :: rest)
  end.

Definition _for_in_list (fuel : nat) (lst : Z) : M heap (list Z) :=
  n ← load lst; walk fuel lst (next n).

(** ** Rings

    Each node carries two independent fields, seen separately as [nxt] and
    [prv]; [lnk h x y] says that [x] and [y] are neighbours, in that order. *)
Definition nxt (h : heap) (p : Z) : option Z := next <$> h !! p.
Definition prv (h : heap) (p : Z) : option Z := prev <$> h !! p.
Definition lnk (h : heap) (x y : Z) : Prop := nxt h x = Some y ∧ prv h y = Some x.

(** [seg h x l z]: from [x] through the nodes of [l], in order, to [z]. *)
Fixpoint seg (h : heap) (x : Z) (l : list Z) (z : Z) : Prop :=
  match l with
  | [] => lnk h x z
  | y :: l' => lnk h x y ∧ seg h y l' z
  end.

Definition ring (h : heap) (l : list Z) : Prop :=
  match l with
  | [] => False
  | x :: l' => NoDup (x :: l') ∧ (NULL ∉ x :: l') ∧ seg h x l' x
  end.

(** Two heaps with the same fields at the nodes of [l]. *)
Definition agree_on (l : list Z) (h h' : heap) : Prop := ∀ p, p ∈ l → h !! p = h' !! p.

Lemma load_Ok h p n : h !! p = Some n → load p h = Ok (n, h).
Proof. intros H. unfold load. rewrite bind_run. cbn. by rewrite H. Qed.

Lemma load_inv h p : is_Some (nxt h p) → ∃ n, load p h = Ok (n, h) ∧ (h !! p = Some n).
Proof.
  unfold nxt. intros [v Hv]. destruct (h !! p) as [n|] eqn:E; [|done].
  exists n. auto using load_Ok.
Qed.

Lemma wp_load h p n (Q : ListNode → heap → Prop) : h !! p = Some n → Q n h → wp (load p) Q h.
Proof. intros H HQ. exists n, h. auto using load_Ok. Qed.

(** What a field update leaves behind, field by field. *)
Lemma wp_set_next h p v (Q : unit → heap → Prop) :
  is_Some (h !! p) →
  (∀ h', (∀ q, nxt h' q = if decide (q = p) then Some v else nxt h q) →
         (∀ q, prv h' q = prv h q) →
         (∀ q, q ≠ p → h' !! q = h !! q) → Q tt h') →
  wp (set_next p v) Q h.
Proof.
  intros [n Hn] HQ. unfold set_next. apply wp_bind, (wp_load _ _ n); [done|].
  apply wp_modify, HQ; intros q; unfold nxt, prv.
  - case_decide; subst; by simplify_map_eq.
  - destruct (decide (q = p)); subst; by simplify_map_eq.
  - intros Hq. by simplify_map_eq.
Qed.

Lemma wp_set_prev h p v (Q : unit → heap → Prop) :
  is_Some (h !! p) →
  (∀ h', (∀ q, prv h' q = if decide (q = p) then Some v else prv h q) →
         (∀ q, nxt h' q = nxt h q) →
         (∀ q, q ≠ p → h' !! q = h !! q) → Q tt h') →
  wp (set_prev p v) Q h.
Proof.
  intros [n Hn] HQ. unfold set_prev. apply wp_bind, (wp_load _ _ n); [done|].
  apply wp_modify, HQ; intros q; unfold nxt, prv.
  - case_decide; subst; by simplify_map_eq.
  - destruct (decide (q = p)); subst; by simplify_map_eq.
  - intros Hq. by simplify_map_eq.
Qed.

Lemma nxt_dom h p v : nxt h p = Some v → is_Some (h !! p).
Proof. unfold nxt. destruct (h !! p); [eauto | done]. Qed.
Lemma prv_dom h p v : prv h p = Some v → is_Some (h !! p).
Proof. unfold prv. destruct (h !! p); [eauto | done]. Qed.
Lemma dom_nxt h p : is_Some (h !! p) ↔ is_Some (nxt h p).
Proof. unfold nxt. by rewrite fmap_is_Some. Qed.
Lemma dom_prv h p : is_Some (h !! p) ↔ is_Some (prv h p).
Proof. unfold prv. by rewrite fmap_is_Some. Qed.

(** ** Segments *)

Lemma last_cons (a b : Z) l : List.last (b :: l) a = List.last l b.
Proof. revert a b. induction l as [|c l IH]; intros a b; [done|]. etrans; [exact (IH a c)|symmetry; exact (IH b c)]. Qed.

Lemma seg_app h x l1 y l2 z : seg h x (l1 ++ y :: l2) z ↔ (seg h x l1 y ∧ seg h y l2 z).
Proof. revert x. induction l1 as [|w l1 IH]; intros x; simpl; [done|]. rewrite IH. tauto. Qed.

Lemma seg_ext h h' x l z :
  (∀ q, q ∈ x :: l → nxt h' q = nxt h q) →
  (∀ q, q ∈ l ++ [z] → prv h' q = prv h q) →
  seg h x l z → seg h' x l z.
Proof.
  revert x. induction l as [|y l IH]; intros x Hn Hp; simpl; unfold lnk.
  - rewrite Hn, Hp by set_solver. done.
  - rewrite Hn, Hp by set_solver. intros [? ?]. split; [done|].
    apply IH; [set_solver.. | done].
Qed.

Lemma seg_first h x l z : seg h x l z → nxt h x = Some (hd z l).
Proof. destruct l; simpl; unfold lnk; tauto. Qed.

Lemma seg_last h x l z : seg h x l z → prv h z = Some (List.last l x).
Proof.
  revert x. induction l as [|y l IH]; intros x; simpl; unfold lnk; [tauto|].
  intros [_ H]. apply IH in H. rewrite H. f_equal.
  change (List.last l y = List.last (y :: l) x). by rewrite last_cons.
Qed.

Lemma seg_dom h x l z : seg h x l z → ∀ p, p ∈ x :: l ++ [z] → is_Some (h !! p).
Proof.
  revert x. induction l as [|y l IH]; intros x; cbn [seg app]; unfold lnk.
  - intros [H1 H2] p. rewrite !elem_of_cons, elem_of_nil.
    intros [->|[->|[]]]; eauto using nxt_dom, prv_dom.
  - intros [[H1 H2] H] p. rewrite elem_of_cons. intros [->|Hp]; [eauto using nxt_dom|].
    by apply (IH y H).
Qed.

Lemma ring_dom h l p : ring h l → p ∈ l → is_Some (h !! p).
Proof.
  destruct l as [|x l]; [done|]. intros (_ & _ & H) Hp.
  eapply seg_dom; [exact H|]. set_solver.
Qed.

Lemma ring_agree h h' l : agree_on l h h' → ring h l → ring h' l.
Proof.
  destruct l as [|x l]; [done|]. intros Ha (? & ? & H). split_and!; [done..|].
  eapply seg_ext; [..|exact H]; intros q Hq; unfold nxt, prv; rewrite Ha; set_solver.
Qed.

(** A ring may be entered at any of its nodes. *)
Lemma ring_rotate h x l1 y l2 : ring h (x :: l1 ++ y :: l2) → ring h (y :: l2 ++ x :: l1).
Proof.
  intros (Hnd & Hnull & H). apply seg_app in H as [H1 H2]. split_and!.
  - assert (Hp : y :: l2 ++ x :: l1 ≡ₚ x :: l1 ++ y :: l2).
    { change (y :: l2 ++ x :: l1) with ((y :: l2) ++ (x :: l1)).
      change (x :: l1 ++ y :: l2) with ((x :: l1) ++ (y :: l2)). apply Permutation_app_comm. }
    by rewrite Hp.
  - set_solver.
  - by apply seg_app.
Qed.

Lemma elem_of_hd_app (a : Z) l : hd a l ∈ a :: l.
Proof. destruct l; set_solver. Qed.
Lemma elem_of_last (a : Z) l : List.last l a ∈ a :: l.
Proof.
  revert a. induction l as [|b l IH]; intros a; [set_solver|].
  rewrite last_cons. apply elem_of_cons. right. apply IH.
Qed.

Lemma NoDup_last_ne (x y : Z) l : NoDup (x :: y :: l) → List.last (y :: l) x ≠ x.
Proof.
  rewrite last_cons. intros [Hx _]%NoDup_cons E. apply Hx. rewrite <-E. apply elem_of_last.
Qed.

(** Redirecting the last link of a segment. *)
Lemma seg_retarget h h' x l z z' :
  NoDup (x :: l) →
  (∀ q, q ∈ x :: l → q ≠ List.last l x → nxt h' q = nxt h q) →
  nxt h' (List.last l x) = Some z' →
  (∀ q, q ∈ l → prv h' q = prv h q) →
  prv h' z' = Some (List.last l x) →
  seg h x l z → seg h' x l z'.
Proof.
  revert x. induction l as [|y l IH]; intros x Hnd Hn Hlast Hp Hz; simpl.
  - done.
  - intros [[H1 H2] H]. pose proof (NoDup_last_ne _ _ _ Hnd) as Hne.
    rewrite last_cons in Hlast, Hz, Hn, Hne.
    split; [split|].
    + rewrite Hn; [done | set_solver | congruence].
    + rewrite Hp; [done | set_solver].
    + apply NoDup_cons in Hnd as [_ Hnd].
      apply IH; [done| |done|set_solver|done|done]. intros q Hq. apply Hn. set_solver.
Qed.

(** ** Merging, inserting, detaching *)

Lemma hd_ne (q a : Z) l : q ≠ a → q ∉ l → q ≠ hd a l.
Proof. destruct l; set_solver. Qed.

(** The four assignments, as one change of the two fields. *)
Lemma merge_fields h a b n3 n4 (Q : Z → heap → Prop) :
  a ≠ NULL → b ≠ NULL → nxt h a = Some n3 → prv h b = Some n4 →
  is_Some (h !! n3) → is_Some (h !! n4) →
  (∀ h', (∀ q, nxt h' q = if decide (q = n4) then Some n3
                          else if decide (q = a) then Some b else nxt h q) →
         (∀ q, prv h' q = if decide (q = n3) then Some n4
                          else if decide (q = b) then Some a else prv h q) →
         (∀ q, q ∉ [a; b; n3; n4] → h' !! q = h !! q) → Q a h') →
  wp (_merge_list a b) Q h.
Proof.
  intros Ha Hb Hn Hp [m3 H3] [m4 H4] HQ. unfold _merge_list.
  rewrite (proj2 (Z.eqb_neq a NULL) Ha), (proj2 (Z.eqb_neq b NULL) Hb).
  destruct (nxt_dom _ _ _ Hn) as [na Hna]. destruct (prv_dom _ _ _ Hp) as [nb Hnb].
  assert (next na = n3) as E3 by (unfold nxt in Hn; rewrite Hna in Hn; cbn in *; congruence).
  assert (prev nb = n4) as E4 by (unfold prv in Hp; rewrite Hnb in Hp; cbn in *; congruence).
  do 2 (apply wp_bind, wp_bind; eapply wp_load; [done|]; apply wp_ret).
  rewrite E3, E4.
  apply wp_bind, wp_set_next; [eauto|]. intros h1 N1 P1 F1.
  assert (D1 : ∀ q, is_Some (h !! q) → is_Some (h1 !! q))
    by (intros q; rewrite !dom_prv, P1; done).
  apply wp_bind, wp_set_prev; [eauto|]. intros h2 P2 N2 F2.
  assert (D2 : ∀ q, is_Some (h !! q) → is_Some (h2 !! q))
    by (intros q; rewrite (dom_nxt h2), N2, <-dom_nxt; auto).
  apply wp_bind, wp_set_next; [eauto|]. intros h3 N3 P3 F3.
  assert (D3 : ∀ q, is_Some (h !! q) → is_Some (h3 !! q))
    by (intros q; rewrite (dom_prv h3), P3, <-dom_prv; auto).
  apply wp_bind, wp_set_prev; [eauto|]. intros h4 P4 N4 F4. apply wp_ret, HQ.
  - intros q. by rewrite N4, N3, N2, N1.
  - intros q. by rewrite P4, P3, P2, P1.
  - intros q Hq. rewrite F4, F3, F2, F1; set_solver.
Qed.

(** The ring those two fields describe. *)
Lemma merge_seg h h' a l1 b l2 :
  NoDup (a :: b :: l2 ++ l1) → seg h a l1 a → seg h b l2 b →
  (∀ q, nxt h' q = if decide (q = List.last l2 b) then Some (hd a l1)
                   else if decide (q = a) then Some b else nxt h q) →
  (∀ q, prv h' q = if decide (q = hd a l1) then Some (List.last l2 b)
                   else if decide (q = b) then Some a else prv h q) →
  seg h' a (b :: l2 ++ l1) a.
Proof.
  intros Hnd S1 S2 N P.
  pose proof (elem_of_last b l2) as Hi4. pose proof (elem_of_hd_app a l1) as Hi3.
  rewrite app_comm_cons, NoDup_cons, NoDup_app in Hnd.
  destruct Hnd as (Ha & Hnd2 & Hdisj & Hnd1).
  assert (L1 : lnk h' a b).
  { split; [rewrite N | rewrite P]; rewrite decide_False, decide_True by set_solver; done. }
  assert (S2' : seg h' b l2 (hd a l1)).
  { eapply seg_retarget; [done|..|exact S2].
    - intros q Hq Hne. rewrite N. by do 2 (case_decide; [exfalso; set_solver|]).
    - by rewrite N, decide_True.
    - intros q Hq. apply NoDup_cons in Hnd2 as [Hb _]. rewrite P.
      rewrite decide_False by (apply hd_ne; set_solver).
      rewrite decide_False by set_solver. done.
    - by rewrite P, decide_True. }
  split; [exact L1|]. destruct l1 as [|c l1]; [by rewrite app_nil_r|].
  apply seg_app. split; [exact S2'|]. destruct S1 as [_ S1].
  apply NoDup_cons in Hnd1 as [Hc _]. simpl in N, P.
  eapply seg_ext; [..|exact S1]; intros q Hq.
  - rewrite N. by do 2 (case_decide; [exfalso; set_solver|]).
  - rewrite P. by do 2 (case_decide; [exfalso; set_solver|]).
Qed.

Lemma merge_ring h a l1 b l2 :
  ring h (a :: l1) → ring h (b :: l2) → (∀ p, p ∈ a :: l1 → p ∉ b :: l2) →
  wp (_merge_list a b)
     (λ r h', r = a ∧ ring h' (a :: b :: l2 ++ l1) ∧
              (∀ p, p ∉ a :: l1 → p ∉ b :: l2 → h' !! p = h !! p)) h.
Proof.
  intros R1 R2 Hdisj.
  pose proof (elem_of_last b l2) as Hi4. pose proof (elem_of_hd_app a l1) as Hi3.
  assert (D3 : is_Some (h !! hd a l1)) by (eapply ring_dom; [exact R1 | done]).
  assert (D4 : is_Some (h !! List.last l2 b)) by (eapply ring_dom; [exact R2 | done]).
  destruct R1 as (Hnd1 & Hnull1 & S1), R2 as (Hnd2 & Hnull2 & S2).
  eapply merge_fields; eauto using seg_first, seg_last; [set_solver..|].
  intros h' N P F. split; [done|]. split; [|intros p Hp1 Hp2; apply F; set_solver].
  assert (Hnd : NoDup (a :: b :: l2 ++ l1)).
  { change (NoDup (a :: (b :: l2) ++ l1)). apply NoDup_cons in Hnd1 as [? ?].
    apply NoDup_cons. rewrite NoDup_app. set_solver. }
  split; [done|]. split; [set_solver|]. by eapply merge_seg.
Qed.

(** Inserting a fresh node puts it right after the head. *)
Lemma insert_into_list_ring h a l node :
  ring h (a :: l) → node ≠ NULL → node ∉ a :: l →
  wp (_insert_into_list a node)
     (λ r h', r = a ∧ ring h' (a :: node :: l) ∧
              (∀ p, p ∉ a :: l → p ≠ node → h' !! p = h !! p)) h.
Proof.
  intros R Hnull Hfresh. unfold _insert_into_list. apply wp_bind, wp_modify.
  set (h1 := <[node:=_]> h).
  assert (R1 : ring h1 (a :: l)).
  { eapply ring_agree; [|exact R]. intros p Hp. unfold h1.
    rewrite lookup_insert_ne; [done|]. set_solver. }
  assert (R2 : ring h1 [node]).
  { split_and!; [apply NoDup_singleton|set_solver|].
    split; [unfold nxt|unfold prv]; unfold h1; by simplify_map_eq. }
  eapply wp_mono; [apply (merge_ring _ _ _ _ [] R1 R2); set_solver|].
  intros r h' (-> & HR & F). split_and!; [done|exact HR|].
  intros p Hp Hn. rewrite F by set_solver. unfold h1. by simplify_map_eq.
Qed.

(** The four assignments of a detach, as one change of the two fields. *)
Lemma detach_fields h x pv nx (Q : Z → heap → Prop) :
  nxt h x = Some nx → prv h x = Some pv → is_Some (h !! pv) → is_Some (h !! nx) →
  (∀ h', (∀ q, nxt h' q = if decide (q = x) then Some x
                          else if decide (q = pv) then Some nx else nxt h q) →
         (∀ q, prv h' q = if decide (q = x) then Some x
                          else if decide (q = nx) then Some pv else prv h q) →
         (∀ q, q ∉ [x; pv; nx] → h' !! q = h !! q) →
         Q (if pv =? x then NULL else pv) h') →
  wp (_detach_from_list x) Q h.
Proof.
  intros Hn Hp Hpv Hnx HQ. unfold _detach_from_list.
  destruct (nxt_dom _ _ _ Hn) as [n Hx].
  assert (next n = nx) as En by (unfold nxt in Hn; rewrite Hx in Hn; cbn in *; congruence).
  assert (prev n = pv) as Ep by (unfold prv in Hp; rewrite Hx in Hp; cbn in *; congruence).
  apply wp_bind; eapply wp_load; [done|]. cbv zeta. rewrite En, Ep.
  apply wp_bind, wp_set_next; [done|]. intros h1 N1 P1 F1.
  assert (Hn1 : nxt h1 x = Some nx) by (rewrite N1; case_decide; [done | exact Hn]).
  assert (Hp1 : prv h1 x = Some pv) by (by rewrite P1).
  destruct (nxt_dom _ _ _ Hn1) as [n1 Hx1].
  assert (next n1 = nx) as En1 by (unfold nxt in Hn1; rewrite Hx1 in Hn1; cbn in *; congruence).
  assert (prev n1 = pv) as Ep1 by (unfold prv in Hp1; rewrite Hx1 in Hp1; cbn in *; congruence).
  apply wp_bind; eapply wp_load; [done|]. rewrite En1, Ep1.
  apply wp_bind, wp_set_prev; [by rewrite dom_prv, P1, <-dom_prv|]. intros h2 P2 N2 F2.
  apply wp_bind, wp_modify, wp_ret, HQ.
  - intros q. unfold nxt at 1. case_decide; subst; [by simplify_map_eq|].
    rewrite lookup_insert_ne by done. fold (nxt h2 q). by rewrite N2, N1.
  - intros q. unfold prv at 1. case_decide; subst; [by simplify_map_eq|].
    rewrite lookup_insert_ne by done. fold (prv h2 q). by rewrite P2, P1.
  - intros q Hq. rewrite lookup_insert_ne, F2, F1; set_solver.
Qed.

Lemma ring_single h x : x ≠ NULL → nxt h x = Some x → prv h x = Some x → ring h [x].
Proof. intros H Hn Hp. split_and!; [apply NoDup_singleton | set_solver | done]. Qed.

(** Detaching a node from a ring with other nodes: the others stay a ring in
    the same order, the node becomes a ring of its own and its predecessor is
    returned.  A node alone in its ring yields the null pointer. *)
Lemma detach_ring h x y l :
  ring h (x :: y :: l) →
  wp (_detach_from_list x)
     (λ r h', r = List.last (y :: l) x ∧ ring h' (y :: l) ∧ ring h' [x] ∧
              (∀ p, p ∉ x :: y :: l → h' !! p = h !! p)) h.
Proof.
  intros R. pose proof (λ p, ring_dom _ _ p R) as D. destruct R as (Hnd & Hnull & S).
  pose proof (elem_of_last y l) as Hi. pose proof (NoDup_last_ne _ _ _ Hnd) as Hne.
  pose proof (seg_last _ _ _ _ S) as Hp. rewrite last_cons in *.
  destruct S as [[Hn Hpy] S]. apply NoDup_cons in Hnd as [Hx Hnd].
  eapply detach_fields; [exact Hn|exact Hp|apply D; set_solver..|].
  intros h' N P F. rewrite (proj2 (Z.eqb_neq _ _) Hne).
  split; [done|]. split; [|split].
  - split; [done|]. split; [set_solver|]. eapply seg_retarget; [done|..|exact S].
    + intros q Hq Hq'. rewrite N. by rewrite !decide_False by set_solver.
    + rewrite N, decide_False, decide_True; [done..|]. set_solver.
    + intros q Hq. apply NoDup_cons in Hnd as [Hy _].
      rewrite P. by rewrite !decide_False by set_solver.
    + rewrite P, decide_False, decide_True; [done..|]. set_solver.
  - apply ring_single; [set_solver|by rewrite N, decide_True|by rewrite P, decide_True].
  - intros p Hp'. apply F. set_solver.
Qed.

Lemma detach_single h x :
  ring h [x] →
  wp (_detach_from_list x)
     (λ r h', r = NULL ∧ ring h' [x] ∧ (∀ p, p ≠ x → h' !! p = h !! p)) h.
Proof.
  intros R. pose proof (ring_dom _ _ x R) as D. destruct R as (Hnd & Hnull & [Hn Hp]).
  eapply detach_fields; [exact Hn|exact Hp|apply D; set_solver..|].
  intros h' N P F. rewrite Z.eqb_refl. split; [done|]. split.
  - apply ring_single; [set_solver|by rewrite N, decide_True|by rewrite P, decide_True].
  - intros p Hp'. apply F. set_solver.
Qed.

(** ** Traversal *)

Lemma walk_seg h flag l x fuel :
  seg h x l flag → NULL ∉ flag :: l → flag ∉ l → (length l < fuel)%nat →
  walk fuel flag (hd flag l) h = Ok (l ++ [flag], h).
Proof.
  revert x fuel. induction l as [|y l IH]; intros x fuel S Hnull Hflag Hf;
    (destruct fuel as [|fuel]; simpl in Hf; [lia|]); cbn [walk hd].
  - rewrite (proj2 (Z.eqb_neq flag NULL)) by set_solver. by rewrite Z.eqb_refl.
  - rewrite (proj2 (Z.eqb_neq y NULL)), (proj2 (Z.eqb_neq y flag)) by set_solver.
    destruct S as [_ S]. pose proof (seg_first _ _ _ _ S) as Hn.
    destruct (nxt_dom _ _ _ Hn) as [n Hy]. unfold nxt in Hn. rewrite Hy in Hn. simplify_eq/=.
    rewrite (bind_Ok _ _ _ _ _ (load_Ok _ _ _ Hy)), Hn.
    rewrite (bind_Ok _ _ _ (l ++ [flag]) h); [done|]. eapply IH; [done|set_solver..|lia].
Qed.

(** The loop terminates on every ring and its body sees each member once, in
    list order, and last of all the head itself. *)
Theorem for_in_list_visits h flag l fuel :
  ring h (flag :: l) → (length l < fuel)%nat →
  _for_in_list fuel flag h = Ok (l ++ [flag], h).
Proof.
  intros (Hnd & Hnull & S) Hf. apply NoDup_cons in Hnd as [Hflag _].
  pose proof (seg_first _ _ _ _ S) as Hn. destruct (nxt_dom _ _ _ Hn) as [n Hy].
  unfold _for_in_list. rewrite (bind_Ok _ _ _ _ _ (load_Ok _ _ _ Hy)).
  unfold nxt in Hn. rewrite Hy in Hn. simplify_eq/=. rewrite Hn. by eapply walk_seg.
Qed.

Lemma empty_list_ring h flag l :
  ring h (flag :: l) → _empty_list flag h = Ok (bool_decide (l = []), h).
Proof.
  intros (Hnd & Hnull & S). apply NoDup_cons in Hnd as [Hflag _].
  pose proof (seg_first _ _ _ _ S) as Hn. destruct (nxt_dom _ _ _ Hn) as [n Hy].
  unfold _empty_list. rewrite (bind_Ok _ _ _ _ _ (load_Ok _ _ _ Hy)).
  unfold nxt in Hn. rewrite Hy in Hn. simplify_eq/=. rewrite Hn. unfold mret, M_ret.
  do 2 f_equal. destruct l as [|y l]; simpl.
  - by rewrite Z.eqb_refl.
  - apply Z.eqb_neq. set_solver.
Qed.

(** Inserting a node and detaching it again leaves the ring as it was and
    the node a ring of its own; in between, the node is the first after the
    head. *)
Theorem insert_detach h a l node :
  ring h (a :: l) → node ≠ NULL → node ∉ a :: l →
  ∃ h1 h2, _insert_into_list a node h = Ok (a, h1) ∧ ring h1 (a :: node :: l) ∧
    _detach_from_list node h1 = Ok (a, h2) ∧ ring h2 (a :: l) ∧ ring h2 [node] ∧
    ∀ p, p ∉ a :: node :: l → h2 !! p = h !! p.
Proof.
  intros R Hn Hfresh. destruct (insert_into_list_ring h a l node R Hn Hfresh) as (r & h1 & E1 & -> & R1 & F1).
  pose proof (ring_rotate h1 a [] node l R1) as R1'. exists h1.
  destruct l as [|y l]; cbn [app] in R1'.
  - destruct (detach_ring h1 node a [] R1') as (r & h2 & E2 & -> & Ra & Rn & F2). exists h2.
    split_and!; [done..|]. intros p Hp. rewrite F2 by set_solver. apply F1; set_solver.
  - destruct (detach_ring h1 node y (l ++ [a]) R1') as (r & h2 & E2 & -> & Ra & Rn & F2). exists h2.
    split_and!; [done|done| |by apply (ring_rotate h2 y l a [])|done|].
    + rewrite E2. do 2 f_equal. change (y :: l ++ [a]) with ((y :: l) ++ [a]). apply List.last_last.
    + intros p Hp. rewrite F2 by set_solver. apply F1; set_solver.
Qed.

(** A ring of three nodes. *)
Definition ring3 : heap :=
  <[1 := mkNode 3 2]> (<[2 := mkNode 1 3]> (<[3 := mkNode 2 1]> ∅)).

Lemma ring3_ok : ring ring3 [1; 2; 3].
Proof. split_and!; [repeat constructor; set_solver|set_solver|]. vm_compute. by split_and!. Qed.

Lemma insert_detach_witness :
  ∃ h1 h2, _insert_into_list 1 9 ring3 = Ok (1, h1) ∧ ring h1 [1; 9; 2; 3] ∧
    _detach_from_list 9 h1 = Ok (1, h2) ∧ ring h2 [1; 2; 3] ∧ ring h2 [9] ∧
    ∀ p, p ∉ [1; 9; 2; 3] → h2 !! p = ring3 !! p.
Proof. apply (insert_detach ring3 1 [2; 3] 9 ring3_ok); [done|set_solver]. Defined.

Lemma for_in_list_visits_witness : _for_in_list 5 1 ring3 = Ok ([2; 3; 1], ring3).
Proof. apply (for_in_list_visits ring3 1 [2; 3] 5 ring3_ok). cbn. lia. Defined.

End DList.

(** ** The queue of [list.c] *)

Module Queue.
Import DList.

(** [struct Queue], without its spinlock: each operation is one critical
    section.  [qbegin], [qend] are the C fields [begin], [end]. *)
Record Queue := mkQueue { qbegin : Z; qend : Z; sz : Z }.

Definition St : Type := Queue * heap.
Definition on_heap {A} (m : M heap A) : M St A := zoom snd (λ h s, (s.1, h)) m.
Definition get_queue : M St Queue := gets fst.
Definition put_queue (q : Queue) : M St unit := modify (λ s, (q, s.2)).

Definition queue_init : M St unit := put_queue (mkQueue NULL NULL 0).

Definition queue_push (item : Z) : M St unit :=
  on_heap (init_list_node item) ;;
  x ← get_queue;
  (if sz x =? 0 then put_queue (mkQueue item item (sz x))
   else on_heap (_merge_list (qend x) item) ;;
        put_queue (mkQueue (qbegin x) item (sz x))) ;;
  x ← get_queue;
  put_queue (mkQueue (qbegin x) (qend x) (i32 (sz x + 1))).

Definition queue_pop : M St unit :=
  x ← get_queue;
  if sz x =? 0 then panic
  else
    (if sz x =? 1 then put_queue (mkQueue NULL NULL (sz x))
     else
       let t := qbegin x in
       n ← on_heap (load (qbegin x));
       put_queue (mkQueue (next n) (qend x) (sz x)) ;;
       on_heap (_detach_from_list t) ;; mret tt) ;;
    x ← get_queue;
    put_queue (mkQueue (qbegin x) (qend x) (i32 (sz x - 1))).

Definition queue_front : M St Z :=
  x ← get_queue;
  if qbegin x =? NULL then panic else mret (qbegin x).

Definition queue_empty : M St bool :=
  x ← get_queue; mret (sz x =? 0).

(** The sequence a queue stands for, front first. *)
Definition represents (s : St) (l : list Z) : Prop :=
  sz s.1 = Z.of_nat (length l) ∧ Z.of_nat (length l) < 2 ^ 31 ∧
  match l with
  | [] => qbegin s.1 = NULL ∧ qend s.1 = NULL
  | x :: l' => ring s.2 l ∧ qbegin s.1 = x ∧ qend s.1 = List.last l' x
  end.

Lemma wp_on_heap {A} (m : M heap A) (Q : A → St → Prop) s :
  wp m (λ a h, Q a (s.1, h)) s.2 → wp (on_heap m) Q s.
Proof.
  intros (a & h & Hm & HQ). exists a, (s.1, h). unfold on_heap, zoom. by rewrite Hm.
Qed.

Lemma represents_cons h b e n x l :
  n = Z.of_nat (S (length l)) → n < 2 ^ 31 → ring h (x :: l) → b = x → e = List.last l x →
  represents (mkQueue b e n, h) (x :: l).
Proof. intros -> ? ? -> ->. by split_and!. Qed.

(** [queue_push] appends at the back. *)
Lemma queue_push_refines s l item :
  represents s l → item ≠ NULL → item ∉ l → Z.of_nat (S (length l)) < 2 ^ 31 →
  wp (queue_push item) (λ _ s', represents s' (l ++ [item])) s.
Proof.
  intros (Hsz & Hmax & Hl) Hnull Hfresh Hbound. destruct s as [[b e n] h]. simpl in *. subst n.
  unfold queue_push. apply wp_bind, wp_on_heap, wp_modify. cbn [fst snd].
  set (h1 := <[item:=_]> h). apply wp_bind, wp_gets. cbn [fst sz].
  assert (R1 : ring h1 [item]) by
    (apply ring_single; [done|unfold nxt|unfold prv]; unfold h1; by simplify_map_eq).
  destruct l as [|x l]; cbn [length] in *.
  - apply wp_bind, wp_modify. apply wp_bind, wp_gets. apply wp_modify. by split_and!.
  - destruct Hl as (R & -> & ->). rewrite (proj2 (Z.eqb_neq _ 0)) by lia.
    assert (R0 : ring h1 (x :: l)).
    { eapply ring_agree; [|exact R]. intros p Hp. unfold h1. rewrite lookup_insert_ne; set_solver. }
    apply wp_bind, wp_bind, wp_on_heap. cbn [fst snd qend].
    destruct l as [|y l'] using rev_ind; cbn [List.last].
    + eapply wp_mono; [apply (merge_ring _ _ [] _ [] R0 R1); set_solver|].
      intros r h2 (-> & R2 & _). apply wp_modify, wp_bind, wp_gets, wp_modify.
      split; [done|]. split; [done|]. split_and!; [exact R2|done|done].
    + clear IHl'. apply ring_rotate in R0.
      rewrite List.last_last. cbn [app] in R0.
      eapply wp_mono; [apply (merge_ring _ _ _ _ [] R0 R1); set_solver|].
      intros r h2 (-> & R2 & _). apply wp_modify, wp_bind, wp_gets, wp_modify.
      cbn [app] in R2. apply (ring_rotate _ _ [item]) in R2.
      change ((x :: l' ++ [y]) ++ [item]) with (x :: (l' ++ [y]) ++ [item]).
      apply represents_cons; cbn [fst snd sz qbegin]; [rewrite i32_small by lia| | | |].
      * len.
      * rewrite i32_small by lia. len_in.
      * by rewrite <-app_assoc.
      * done.
      * by rewrite List.last_last.
Qed.

(** [queue_pop] drops the front, and stops the kernel on an empty queue. *)
Lemma queue_pop_refines s x l :
  represents s (x :: l) → wp queue_pop (λ _ s', represents s' l) s.
Proof.
  intros (Hsz & Hmax & R & Hb & He). destruct s as [[b e n] h]. simpl in *. subst b e n.
  unfold queue_pop. apply wp_bind, wp_gets. cbn [fst sz].
  rewrite (proj2 (Z.eqb_neq _ 0)) by lia. destruct l as [|y l]; simpl length.
  - apply wp_bind, wp_modify, wp_bind, wp_gets, wp_modify. by split_and!.
  - rewrite (proj2 (Z.eqb_neq _ 1)) by lia. cbn [qbegin qend].
    assert (Hn : nxt h x = Some y) by (destruct R as (_ & _ & S); apply (seg_first _ _ _ _ S)).
    destruct (nxt_dom _ _ _ Hn) as [nd Hx]. unfold nxt in Hn. rewrite Hx in Hn. simplify_eq/=.
    apply wp_bind, wp_bind, wp_on_heap. eapply wp_load; [done|]. cbn [fst snd].
    apply wp_bind, wp_modify, wp_bind, wp_on_heap. cbn [fst snd].
    eapply wp_mono; [apply (detach_ring _ _ _ _ R)|].
    intros r h2 (_ & R2 & _). apply wp_ret, wp_bind, wp_gets, wp_modify.
    cbn [fst snd length] in *.
    apply represents_cons; cbn [sz qend]; [rewrite i32_small by lia; lia|
      rewrite i32_small by lia; lia|done|done|exact (last_cons x _ l)].
Qed.

Lemma queue_pop_empty s : represents s [] → queue_pop s = Fail Panicked.
Proof.
  intros (Hsz & _ & _). destruct s as [[b e n] h]. cbn in Hsz. by subst n.
Qed.

Lemma queue_front_refines s l :
  represents s l →
  queue_front s = match l with [] => Fail Panicked | x :: _ => Ok (x, s) end.
Proof.
  intros (_ & _ & Hl). destruct s as [[b e n] h]. destruct l as [|x l].
  - destruct Hl as [Hb _]. cbn in Hb. by subst b.
  - destruct Hl as (R & Hb & _). cbn in Hb. subst b. unfold queue_front, get_queue. rewrite bind_run. cbn [gets fst qbegin].
    rewrite (proj2 (Z.eqb_neq x NULL)); [done|].
    destruct R as (_ & Hnull & _). set_solver.
Qed.

Lemma queue_empty_refines s l :
  represents s l → queue_empty s = Ok (bool_decide (l = []), s).
Proof.
  intros (Hsz & _ & _). destruct s as [[b e n] h]. cbn in Hsz. subst n. by destruct l.
Qed.

(** A client of the queue is a sequence of calls. *)
Inductive op := Push (item : Z) | Pop | Front | IsEmpty.

Definition exec (o : op) : M St Z :=
  match o with
  | Push x => queue_push x ;; mret 0
  | Pop => queue_pop ;; mret 0
  | Front => queue_front
  | IsEmpty => queue_empty ≫= λ b : bool, mret (if b then 1 else 0)
  end.

Fixpoint exec_all (os : list op) : M St (list Z) :=
  match os with
  | [] => mret []
  | o :: os' => r ← exec o; rs ← exec_all os'; mret (r :: rs)
  end.

(** The same calls on a sequence. *)
Definition spec (o : op) : M (list Z) Z :=
  match o with
  | Push x => modify (λ l, l ++ [x]) ;; mret 0
  | Pop => l ← gets id; match l with [] => panic | _ :: l' => modify (λ _, l') ;; mret 0 end
  | Front => l ← gets id; match l with [] => panic | x :: _ => mret x end
  | IsEmpty => l ← gets id; mret (if decide (l = []) then 1 else 0)
  end.

Fixpoint spec_all (os : list op) : M (list Z) (list Z) :=
  match os with
  | [] => mret []
  | o :: os' => r ← spec o; rs ← spec_all os'; mret (r :: rs)
  end.

(** Nodes are pushed when they are not in the queue, and the length stays an [int]. *)
Fixpoint legal (os : list op) (l : list Z) : Prop :=
  match os with
  | [] => True
  | o :: os' =>
      (∀ x, o = Push x → x ≠ NULL ∧ x ∉ l ∧ Z.of_nat (S (length l)) < 2 ^ 31) ∧
      ∀ r l', spec o l = Ok (r, l') → legal os' l'
  end.

Lemma exec_refines s l o :
  represents s l → (∀ x, o = Push x → x ≠ NULL ∧ x ∉ l ∧ Z.of_nat (S (length l)) < 2 ^ 31) →
  match spec o l with
  | Ok (r, l') => ∃ s', exec o s = Ok (r, s') ∧ represents s' l'
  | Fail e => exec o s = Fail e
  end.
Proof.
  intros R Hl. destruct o as [x| | |]; cbn [exec].
  - destruct (Hl x eq_refl) as (H1 & H2 & H3).
    destruct (queue_push_refines s l x R H1 H2 H3) as ([] & s' & E & R'). exists s'.
    by rewrite bind_run, E.
  - destruct l as [|x l]; cbn [spec]; rewrite bind_run; cbn [gets id].
    + by rewrite bind_run, (queue_pop_empty s R).
    + destruct (queue_pop_refines s x l R) as ([] & s' & E & R'). exists s'. by rewrite bind_run, E.
  - pose proof (queue_front_refines s l R) as E. destruct l as [|x l]; cbn; [done|]. by exists s.
  - rewrite bind_run, (queue_empty_refines s l R). change (spec IsEmpty l) with (@Ok (Z * list Z) (if decide (l = []) then 1 else 0, l)).
    exists s. split; [|done]. by case_bool_decide; case_decide.
Qed.

(** The pointer queue refines the sequence: any legal series of calls
    returns what it returns on the sequence, and stops the kernel exactly where
    a pop or a front finds it empty. *)
Theorem queue_refines_sequence s l os :
  represents s l → legal os l →
  match spec_all os l with
  | Ok (rs, l') => ∃ s', exec_all os s = Ok (rs, s') ∧ represents s' l'
  | Fail e => exec_all os s = Fail e
  end.
Proof.
  revert s l. induction os as [|o os IH]; intros s l R Hl; cbn [spec_all exec_all]; [by exists s|].
  destruct Hl as [Hp Hl]. pose proof (exec_refines s l o R Hp) as E. rewrite bind_run.
  destruct (spec o l) as [[r l1]|e]; [|by rewrite bind_run, E].
  destruct E as (s1 & E & R1). specialize (IH s1 l1 R1 (Hl r l1 eq_refl)). rewrite bind_run.
  destruct (spec_all os l1) as [[rs l2]|e].
  - destruct IH as (s2 & E2 & R2). exists s2. by rewrite bind_run, E, bind_run, E2.
  - by rewrite bind_run, E, bind_run, IH.
Qed.

Lemma queue_refines_sequence_witness :
  let os := [IsEmpty; Push 5; Push 7; Front; Pop; Front; Pop; IsEmpty] in
  ∃ s', exec_all os (mkQueue NULL NULL 0, ∅) = Ok ([1; 0; 0; 5; 0; 7; 0; 1], s') ∧ represents s' [].
Proof.
  apply (queue_refines_sequence (mkQueue NULL NULL 0, ∅) []
    [IsEmpty; Push 5; Push 7; Front; Pop; Front; Pop; IsEmpty]).
  - by split_and!.
  - cbn. split_and!; [done|]. intros r l [= _ <-]. split.
    { intros x [= <-]. split_and!; [done|set_solver|done]. }
    intros r1 l1 [= _ <-]. split.
    { intros x [= <-]. split_and!; [done|set_solver|done]. }
    do 5 (intros ? ? [= _ <-]; split; [done|]). by intros ? ? [= _ <-].
Defined.

End Queue.
