(* ===== verification/LockFree.v ===== *)
(** * The lock-free page queue

    [add_to_queue] and [fetch_from_queue] of [src/common/list.c], interleaved
    one memory access at a time.  Each thread is a program counter; [step]
    executes the next access of one thread, or starts an operation of it.  The
    compare-and-exchange is weak: the scheduler may make it fail spuriously.

    With any number of threads adding and a single thread fetching, the queue
    is a linearizable stack ([single_consumer_refines]).  With two threads
    fetching it is not: the old head's [next] is read before the exchange, and
    a page freed again in between makes the exchange succeed with a stale
    successor, so one page is handed out twice ([two_consumers_aba]). *)

From S2P Require Import Prelude.

Module LockFree.

Definition NULL : Z := 0.

(** Program counters.  [AddLoad n] is about to run [node->next = *head];
    [AddCas n] the exchange of [add_to_queue]; [FetchLoad] the load
    [node = *head]; [FetchRead n] the argument [node->next]; [FetchCas n m] the
    exchange of [n] for [m]. *)
Inductive pc :=
| Idle
| AddLoad (n : Z) | AddCas (n : Z)
| FetchLoad | FetchRead (n : Z) | FetchCas (n m : Z).

#[export] Instance pc_eq_dec : EqDecision pc.
Proof. solve_decision. Defined.

(** Completed operations, in the order they took effect. *)
Inductive event := Added (n : Z) | Fetched (n : Z).

#[export] Instance event_eq_dec : EqDecision event.
Proof. solve_decision. Defined.

(** [held]: the nodes the clients own, i.e. fetched and not yet added back. *)
Record state := mkState {
  head : Z;
  nx : gmap Z Z;
  pcs : gmap nat pc;
  held : gset Z;
  trace : list event;
}.

Inductive action :=
| StartAdd (n : Z)
| StartFetch
| Tick (spurious : bool).

Definition at_pc (t : nat) (c : pc) (s : state) : state :=
  mkState (head s) (nx s) (<[t := c]> (pcs s)) (held s) (trace s).

Definition store_next (n v : Z) (s : state) : state :=
  mkState (head s) (<[n := v]> (nx s)) (pcs s) (held s) (trace s).

Definition tick (t : nat) (spurious : bool) (c : pc) (s : state) : option state :=
  match c with
  | Idle => None
  | AddLoad n => Some (at_pc t (AddCas n) (store_next n (head s) s))
  | AddCas n =>
      e ← nx s !! n;
      if negb spurious && (head s =? e)
      then Some (at_pc t Idle (mkState n (nx s) (pcs s) (held s) (trace s ++ [Added n])))
      else Some (at_pc t (AddLoad n) (store_next n (head s) s))
  | FetchLoad =>
      if head s =? NULL
      then Some (at_pc t Idle (mkState (head s) (nx s) (pcs s) (held s) (trace s ++ [Fetched NULL])))
      else Some (at_pc t (FetchRead (head s)) s)
  | FetchRead n => m ← nx s !! n; Some (at_pc t (FetchCas n m) s)
  | FetchCas n m =>
      if negb spurious && (head s =? n)
      then Some (at_pc t Idle (mkState m (nx s) (pcs s) ({[n]} ∪ held s) (trace s ++ [Fetched n])))
      else Some (at_pc t FetchLoad s)
  end.

Definition step (t : nat) (a : action) (s : state) : option state :=
  let c := default Idle (pcs s !! t) in
  match a with
  | StartAdd n =>
      if decide (c = Idle ∧ n ∈ held s)
      then Some (at_pc t (AddLoad n) (mkState (head s) (nx s) (pcs s) (held s ∖ {[n]}) (trace s)))
      else None
  | StartFetch => if decide (c = Idle) then Some (at_pc t FetchLoad s) else None
  | Tick spurious => tick t spurious c s
  end.

Fixpoint run (sched : list (nat * action)) (s : state) : option state :=
  match sched with
  | [] => Some s
  | (t, a) :: sched' => s' ← step t a s; run sched' s'
  end.

(** A queue holding the nodes of [l], all threads idle, nothing handed out. *)
Fixpoint build (l : list Z) : gmap Z Z :=
  match l with
  | [] => ∅
  | x :: l' => <[x := hd NULL l']> (build l')
  end.
Definition init (l : list Z) : state := mkState (hd NULL l) (build l) ∅ ∅ [].

(** ** The abstract stack *)

Definition spec_step (e : event) (l : list Z) : option (list Z) :=
  match e with
  | Added n => Some (n :: l)
  | Fetched n =>
      match l with
      | [] => if n =? NULL then Some [] else None
      | x :: l' => if n =? x then Some l' else None
      end
  end.

Fixpoint replay (tr : list event) (l : list Z) : option (list Z) :=
  match tr with
  | [] => Some l
  | e :: tr' => l' ← spec_step e l; replay tr' l'
  end.

(** [links m p l]: the nodes reached from [p] are those of [l], then null. *)
Fixpoint links (m : gmap Z Z) (p : Z) (l : list Z) : Prop :=
  match l with
  | [] => p = NULL
  | x :: l' => p = x ∧ ∃ q, m !! x = Some q ∧ links m q l'
  end.

(** The fetches of a schedule all belong to thread [c]. *)
Definition only_fetcher (c : nat) (sched : list (nat * action)) : Prop :=
  Forall (λ ta, ta.2 = StartFetch → ta.1 = c) sched.

(** The node a thread is adding. *)
Definition adding (c : pc) : option Z :=
  match c with AddLoad n | AddCas n => Some n | _ => None end.

Definition fetching (c : pc) : Prop :=
  match c with FetchLoad | FetchRead _ | FetchCas _ _ => True | _ => False end.

(** What the fetching thread has read is still true of the queue. *)
Definition fetch_ok (c : pc) (m : gmap Z Z) (l : list Z) : Prop :=
  match c with
  | FetchRead n => n ∈ l
  | FetchCas n q => n ∈ l ∧ m !! n = Some q
  | _ => True
  end.

Record inv (c : nat) (l0 : list Z) (s : state) (l : list Z) : Prop := {
  inv_replay : replay (trace s) l0 = Some l;
  inv_links : links (nx s) (head s) l;
  inv_nodup : NoDup l;
  inv_null : NULL ∉ l ∧ NULL ∉ held s;
  inv_held : ∀ n, n ∈ held s → n ∉ l ∧ is_Some (nx s !! n);
  inv_add : ∀ t p n, pcs s !! t = Some p → adding p = Some n →
            n ∉ l ∧ n ∉ held s ∧ n ≠ NULL ∧ is_Some (nx s !! n);
  inv_add_ne : ∀ t t' p p' n, pcs s !! t = Some p → pcs s !! t' = Some p' →
               adding p = Some n → adding p' = Some n → t = t';
  inv_fetcher : ∀ t p, pcs s !! t = Some p → fetching p → t = c;
  inv_fetch : ∀ t p, pcs s !! t = Some p → fetch_ok p (nx s) l;
}.

Lemma replay_app tr e l0 l l' :
  replay tr l0 = Some l → spec_step e l = Some l' → replay (tr ++ [e]) l0 = Some l'.
Proof.
  revert l0. induction tr as [|e0 tr IH]; intros l0; simpl.
  - intros [= ->] ->. done.
  - destruct (spec_step e0 l0) as [l1|]; simpl; [apply IH | done].
Qed.

Lemma links_insert m p l n v : n ∉ l → links m p l → links (<[n:=v]> m) p l.
Proof.
  revert p. induction l as [|x l IH]; intros p Hn; simpl; [done|].
  intros (-> & q & Hq & H). split; [done|]. exists q.
  rewrite lookup_insert_ne by set_solver. split; [done|]. apply IH; [set_solver | done].
Qed.

Lemma links_build l : NoDup l → links (build l) (hd NULL l) l.
Proof.
  induction l as [|x l IH]; intros Hnd; simpl; [done|]. apply NoDup_cons in Hnd as [Hx Hnd].
  split; [done|]. exists (hd NULL l). rewrite lookup_insert_eq. split; [done|].
  apply links_insert; auto.
Qed.

Lemma inv_init c l : NoDup l → NULL ∉ l → inv c l (init l) l.
Proof.
  intros Hnd Hnull. split; cbn; try set_solver. by apply links_build.
Qed.

(** One thread moves to program counter [q]; memory and ghost state as given. *)
Lemma inv_move c l0 s l t p q s' l' :
  inv c l0 s l → default Idle (pcs s !! t) = p →
  pcs s' = <[t:=q]> (pcs s) →
  replay (trace s') l0 = Some l' → links (nx s') (head s') l' → NoDup l' →
  NULL ∉ l' → NULL ∉ held s' →
  (∀ n, n ∈ held s' → n ∉ l' ∧ is_Some (nx s' !! n)) →
  (∀ n, adding q = Some n →
     n ∉ l' ∧ n ∉ held s' ∧ n ≠ NULL ∧ is_Some (nx s' !! n) ∧
     (adding p = Some n ∨ n ∈ held s)) →
  (∀ t' p' n, t' ≠ t → pcs s !! t' = Some p' → adding p' = Some n →
     n ∉ l' ∧ n ∉ held s' ∧ is_Some (nx s' !! n)) →
  (fetching q → t = c) → fetch_ok q (nx s') l' →
  (∀ p', t ≠ c → pcs s !! c = Some p' → fetch_ok p' (nx s) l → fetch_ok p' (nx s') l') →
  inv c l0 s' l'.
Proof.
  intros I Hp Hpcs Hr Hl Hnd Hn1 Hn2 Hheld Hq Hother Hfq Hokq Hokc.
  assert (Hpt : ∀ n, adding p = Some n → pcs s !! t = Some p).
  { intros n Hn. destruct (pcs s !! t) eqn:E; simpl in Hp; subst; done. }
  split; [done..| | | |].
  - intros t' p' n. rewrite Hpcs. destruct (decide (t' = t)) as [->|Hne].
    + rewrite lookup_insert_eq. intros [= <-] Hn. destruct (Hq _ Hn); naive_solver.
    + rewrite lookup_insert_ne by done. intros Hp' Hn.
      destruct (Hother _ _ _ Hne Hp' Hn) as (?&?&?).
      destruct (inv_add _ _ _ _ I _ _ _ Hp' Hn) as (?&?&?&?). done.
  - intros t1 t2 p1 p2 n. rewrite Hpcs.
    assert (Hx : ∀ t', t' ≠ t → ∀ p', pcs s !! t' = Some p' → adding q = Some n →
                 adding p' = Some n → False).
    { intros t' Hne p' Hp' Hqn Hp'n. destruct (Hq _ Hqn) as (_&_&_&_&[Hpn|Hh]).
      - by apply Hne, (inv_add_ne _ _ _ _ I _ _ _ _ n Hp' (Hpt _ Hpn)).
      - destruct (inv_add _ _ _ _ I _ _ _ Hp' Hp'n) as (_&?&_). done. }
    destruct (decide (t1 = t)) as [->|H1], (decide (t2 = t)) as [->|H2];
      rewrite ?lookup_insert_eq, ?(lookup_insert_ne _ t t1), ?(lookup_insert_ne _ t t2) by done;
      [done|naive_solver|naive_solver|]. apply (inv_add_ne _ _ _ _ I).
  - intros t' p'. rewrite Hpcs. destruct (decide (t' = t)) as [->|Hne].
    + rewrite lookup_insert_eq. intros [= <-]. done.
    + rewrite lookup_insert_ne by done. apply (inv_fetcher _ _ _ _ I).
  - intros t' p'. rewrite Hpcs. destruct (decide (t' = t)) as [->|Hne].
    + rewrite lookup_insert_eq. by intros [= <-].
    + rewrite lookup_insert_ne by done. intros Hp'.
      destruct (decide (t' = c)) as [->|Hc].
      * apply Hokc; [congruence|done|]. by apply (inv_fetch _ _ _ _ I _ _ Hp').
      * destruct p'; simpl; try done; exfalso; apply Hc; by eapply (inv_fetcher _ _ _ _ I).
Qed.

Lemma head_in m p l : links m p l → p ≠ NULL → p ∈ l.
Proof. destruct l as [|x l]; simpl; [done|]. intros [-> _] _. set_solver. Qed.

Lemma links_null m l : links m NULL l → NULL ∉ l → l = [].
Proof. destruct l as [|x l]; simpl; [done|]. intros [<- _] H. set_solver. Qed.

Lemma pcs_adding c l0 s l t p n :
  inv c l0 s l → default Idle (pcs s !! t) = p → adding p = Some n →
  n ∉ l ∧ n ∉ held s ∧ n ≠ NULL ∧ is_Some (nx s !! n).
Proof.
  intros I Hp Hn. destruct (pcs s !! t) as [p'|] eqn:E; simpl in Hp; subst; [|done].
  by eapply (inv_add _ _ _ _ I).
Qed.

Lemma pcs_fetching c l0 s l t p :
  inv c l0 s l → default Idle (pcs s !! t) = p → fetching p →
  t = c ∧ fetch_ok p (nx s) l.
Proof.
  intros I Hp Hf. destruct (pcs s !! t) as [p'|] eqn:E; simpl in Hp; subst; [|done].
  split; [by eapply (inv_fetcher _ _ _ _ I) | by eapply (inv_fetch _ _ _ _ I)].
Qed.

(** Rewriting the [next] field of a node being added disturbs nothing. *)
Lemma inv_store c l0 s l t p q n :
  inv c l0 s l → default Idle (pcs s !! t) = p → adding p = Some n → adding q = Some n →
  inv c l0 (at_pc t q (store_next n (head s) s)) l.
Proof.
  intros I Hp Hpn Hqn. destruct (pcs_adding _ _ _ _ _ _ _ I Hp Hpn) as (Hl & Hh & Hn0 & Hd).
  pose proof (inv_null _ _ _ _ I) as [N1 N2].
  assert (Hsome : ∀ k, is_Some (nx s !! k) → is_Some (<[n:=head s]> (nx s) !! k)).
  { intros k Hk. destruct (decide (n = k)) as [->|]; by simplify_map_eq. }
  eapply (inv_move c l0 s l t p q); try done; cbn.
  - by apply (inv_replay _ _ _ _ I).
  - apply links_insert; [done|]. apply (inv_links _ _ _ _ I).
  - apply (inv_nodup _ _ _ _ I).
  - intros k Hk. destruct (inv_held _ _ _ _ I k Hk). auto.
  - intros k Hk. rewrite Hqn in Hk. simplify_eq. auto 6.
  - intros t' p' k Hne Hp' Hk.
    destruct (inv_add _ _ _ _ I _ _ _ Hp' Hk) as (?&?&?&?). auto.
  - destruct q; done.
  - destruct q; done.
  - intros p' _ _. destruct p'; simpl; try done. intros [? ?]. split; [done|].
    rewrite lookup_insert_ne; [done|]. congruence.
Qed.

Lemma inv_start c l0 s l t a s' :
  (∀ b, a ≠ Tick b) → inv c l0 s l → (a = StartFetch → t = c) → step t a s = Some s' →
  inv c l0 s' l.
Proof.
  intros Ha I Hc Hs. pose proof (inv_null _ _ _ _ I) as [N1 N2].
  destruct a as [n| |b]; [..|by destruct (Ha b)]; unfold step in Hs; case_decide as D; simplify_eq.
  - destruct D as [D Hn]. destruct (inv_held _ _ _ _ I n Hn) as [Hl Hd].
    eapply (inv_move c l0 s l t _ (AddLoad n)); try done; cbn.
    + by apply (inv_replay _ _ _ _ I).
    + apply (inv_links _ _ _ _ I).
    + apply (inv_nodup _ _ _ _ I).
    + set_solver.
    + intros k Hk. apply (inv_held _ _ _ _ I). set_solver.
    + intros k [= <-]. split_and!; [done|set_solver|set_solver|done|by right].
    + intros t' p' k Hne Hp' Hk.
      destruct (inv_add _ _ _ _ I _ _ _ Hp' Hk) as (?&?&?&?). set_solver.
  - eapply (inv_move c l0 s l t _ FetchLoad); try done; cbn; try apply I; auto.
    intros t' p' k Hne Hp' Hk.
    destruct (inv_add _ _ _ _ I _ _ _ Hp' Hk) as (?&?&?&?). auto.
Qed.

Lemma inv_add_cas c l0 s l t n :
  inv c l0 s l → default Idle (pcs s !! t) = AddCas n → nx s !! n = Some (head s) →
  inv c l0 (at_pc t Idle (mkState n (nx s) (pcs s) (held s) (trace s ++ [Added n]))) (n :: l).
Proof.
  intros I Hp Hn. pose proof (inv_null _ _ _ _ I) as [N1 N2].
  destruct (pcs_adding _ _ _ _ _ _ n I Hp eq_refl) as (Hl & Hh & Hn0 & Hd).
  eapply (inv_move c l0 s l t _ Idle); try done; cbn.
  - eapply replay_app; [apply (inv_replay _ _ _ _ I)|done].
  - split; [done|]. exists (head s). split; [done|]. apply (inv_links _ _ _ _ I).
  - apply NoDup_cons. split; [done|]. apply (inv_nodup _ _ _ _ I).
  - set_solver.
  - intros k Hk. destruct (inv_held _ _ _ _ I k Hk). set_solver.
  - intros t' p' k Hne Hp' Hk.
    destruct (inv_add _ _ _ _ I _ _ _ Hp' Hk) as (?&?&?&?). split; [|done].
    apply not_elem_of_cons. split; [|done]. intros ->. apply Hne.
    destruct (pcs s !! t) as [p''|] eqn:E; simpl in Hp; subst; [|done].
    by eapply (inv_add_ne _ _ _ _ I _ _ _ _ n Hp' E).
  - intros p' _ _. destruct p'; simpl; set_solver.
Qed.

Lemma inv_fetch_cas c l0 s l t n m :
  inv c l0 s l → default Idle (pcs s !! t) = FetchCas n m → head s = n →
  ∃ l', inv c l0 (at_pc t Idle (mkState m (nx s) (pcs s) ({[n]} ∪ held s)
                                         (trace s ++ [Fetched n]))) l'.
Proof.
  intros I Hp Hh. pose proof (inv_null _ _ _ _ I) as [N1 N2].
  destruct (pcs_fetching _ _ _ _ _ _ I Hp) as [Hc [Hin Hm]]; [done|].
  pose proof (inv_links _ _ _ _ I) as L. pose proof (inv_nodup _ _ _ _ I) as Hnd.
  destruct l as [|x l]; simpl in L; [set_solver|]. destruct L as (Hx & q & Hq & L).
  assert (x = n) as -> by congruence. assert (q = m) as -> by congruence.
  apply NoDup_cons in Hnd as [Hnl Hnd]. exists l.
  eapply (inv_move c l0 s _ t _ Idle); try done; cbn.
  - eapply replay_app; [apply (inv_replay _ _ _ _ I)|]. simpl. by rewrite Z.eqb_refl.
  - set_solver.
  - set_solver.
  - intros k [->%elem_of_singleton|Hk]%elem_of_union; [eauto|].
    destruct (inv_held _ _ _ _ I k Hk). set_solver.
  - intros t' p' k Hne Hp' Hk.
    destruct (inv_add _ _ _ _ I _ _ _ Hp' Hk) as (?&?&?&?). set_solver.
Qed.

(** A step that only moves a program counter. *)
Lemma inv_goto c l0 s l t p q :
  inv c l0 s l → default Idle (pcs s !! t) = p → adding q = None → (fetching q → t = c) →
  fetch_ok q (nx s) l → inv c l0 (at_pc t q s) l.
Proof.
  intros I Hp Hq Hf Hok. pose proof (inv_null _ _ _ _ I) as [N1 N2].
  eapply (inv_move c l0 s l t _ q); try done; cbn; try apply I; [by rewrite Hq|].
  intros t' p' k Hne Hp' Hk.
  destruct (inv_add _ _ _ _ I _ _ _ Hp' Hk) as (?&?&?&?). auto.
Qed.

Lemma inv_step c l0 s l t a s' :
  inv c l0 s l → (a = StartFetch → t = c) → step t a s = Some s' → ∃ l', inv c l0 s' l'.
Proof.
  intros I Hc Hs. pose proof (inv_links _ _ _ _ I) as L. pose proof (inv_null _ _ _ _ I) as [N1 N2].
  destruct a as [n| |b]; [exists l; eapply inv_start; [|exact I|exact Hc|exact Hs]; done..|].
  unfold step, tick in Hs. destruct (default Idle (pcs s !! t)) as [|n|n| |n|n m] eqn:Hp; [done|..].
  - simplify_eq. exists l. by eapply inv_store.
  - destruct (nx s !! n) as [e|] eqn:He; [|done]. cbn in Hs.
    destruct (negb b && (head s =? e)) eqn:E; simplify_eq.
    + apply andb_true_iff in E as [_ E%Z.eqb_eq]. subst e. exists (n :: l). by apply inv_add_cas.
    + exists l. by eapply inv_store.
  - destruct (pcs_fetching _ _ _ _ _ _ I Hp) as [-> _]; [done|].
    destruct (head s =? NULL) eqn:E; simplify_eq.
    + apply Z.eqb_eq in E. rewrite E in L. apply links_null in L as ->; [|done]. exists [].
      eapply (inv_move c l0 s [] c _ Idle); try done; cbn; try apply I; try done.
      * eapply replay_app; [apply (inv_replay _ _ _ _ I)|done].
      * intros t' p' k Hne Hp' Hk.
        destruct (inv_add _ _ _ _ I _ _ _ Hp' Hk) as (?&?&?&?). auto.
    + exists l. eapply inv_goto; try done. simpl. eapply head_in; [done|]. by apply Z.eqb_neq.
  - destruct (pcs_fetching _ _ _ _ _ _ I Hp) as [-> Hin]; [done|].
    destruct (nx s !! n) as [m|] eqn:Hm; cbn in Hs; simplify_eq.
    exists l. by eapply inv_goto.
  - destruct (pcs_fetching _ _ _ _ _ _ I Hp) as [-> Hin]; [done|].
    destruct (negb b && (head s =? n)) eqn:E; simplify_eq.
    + apply andb_true_iff in E as [_ E%Z.eqb_eq]. by eapply inv_fetch_cas.
    + exists l. by eapply inv_goto.
Qed.

Lemma inv_run c l0 sched s l s' :
  inv c l0 s l → only_fetcher c sched → run sched s = Some s' → ∃ l', inv c l0 s' l'.
Proof.
  revert s l. induction sched as [|[t a] sched IH]; intros s l I Hf Hr; simpl in Hr.
  - simplify_eq. eauto.
  - apply Forall_cons in Hf as [H Hf]. destruct (step t a s) as [s1|] eqn:E; [|done].
    destruct (inv_step _ _ _ _ _ _ _ I H E) as [l1 I1]. by eapply IH.
Qed.

(** C16: With one fetching thread, whatever the interleaving and the spurious
    failures: the completed operations, in the order they took effect, are an
    execution of a stack; memory holds exactly its contents, in order; and no
    node is both in the queue and handed out. *)
Theorem single_consumer_refines c l0 sched s :
  NoDup l0 → NULL ∉ l0 → only_fetcher c sched → run sched (init l0) = Some s →
  ∃ l, replay (trace s) l0 = Some l ∧ links (nx s) (head s) l ∧ NoDup l ∧
       (∀ n, n ∈ held s → n ∉ l).
Proof.
  intros Hnd Hnull Hf Hr.
  destruct (inv_run _ _ _ _ _ _ (inv_init c l0 Hnd Hnull) Hf Hr) as [l I].
  exists l. split_and!; [apply I|apply I|apply I|]. intros n Hn. by apply (inv_held _ _ _ _ I).
Qed.

(** An adder races with the fetcher, whose last exchange first fails spuriously. *)
Definition race_sched : list (nat * action) :=
  [(1, StartFetch); (1, Tick false); (1, Tick false); (1, Tick false);
   (1, StartFetch); (1, Tick false); (1, Tick false);
   (2, StartAdd 10); (2, Tick false); (2, Tick false);
   (1, Tick false); (1, Tick false); (1, Tick false); (1, Tick true);
   (1, Tick false); (1, Tick false); (1, Tick false)]%nat.

Lemma single_consumer_refines_witness :
  NoDup [10; 20; 30] ∧ only_fetcher 1 race_sched ∧
  ∃ s l, run race_sched (init [10; 20; 30]) = Some s ∧
    trace s = [Fetched 10; Added 10; Fetched 10] ∧
    replay (trace s) [10; 20; 30] = Some l ∧ links (nx s) (head s) l ∧ NoDup l ∧
    (∀ n, n ∈ held s → n ∉ l).
Proof.
  assert (Hnd : NoDup [10; 20; 30]) by (repeat constructor; set_solver).
  assert (Hnull : NULL ∉ [10; 20; 30]) by set_solver.
  assert (Hf : only_fetcher 1 race_sched) by (unfold only_fetcher, race_sched; repeat constructor; done).
  split; [exact Hnd|]. split; [exact Hf|].
  set (s := default (init []) (run race_sched (init [10; 20; 30]))).
  assert (E : run race_sched (init [10; 20; 30]) = Some s) by (vm_compute; reflexivity).
  destruct (single_consumer_refines 1 [10; 20; 30] race_sched s Hnd Hnull Hf E) as [l Hl].
  exists s, l. split; [exact E|]. split; [vm_compute; reflexivity|exact Hl].
Defined.


(** A thread that runs alone, without spurious failures, completes an add in
    two memory accesses and a fetch of a non-empty queue in three. *)
Theorem solo_completes s t l :
  links (nx s) (head s) l → NULL ∉ l → default Idle (pcs s !! t) = Idle →
  (∀ n, n ∈ held s → ∃ s',
     run [(t, StartAdd n); (t, Tick false); (t, Tick false)] s = Some s' ∧
     head s' = n ∧ trace s' = trace s ++ [Added n]) ∧
  (∀ n l', l = n :: l' → ∃ s',
     run [(t, StartFetch); (t, Tick false); (t, Tick false); (t, Tick false)] s = Some s' ∧
     head s' = hd NULL l' ∧ n ∈ held s' ∧ trace s' = trace s ++ [Fetched n]).
Proof.
  intros L Hnull Hidle. split.
  - intros n Hn. cbn [run step]. rewrite decide_True by done. cbn.
    rewrite lookup_insert_eq. cbn. rewrite lookup_insert_eq. cbn.
    rewrite lookup_insert_eq. cbn. rewrite Z.eqb_refl. eexists; split; [reflexivity|done].
  - intros n l' ->. simpl in L. destruct L as (Hh & q & Hq & L).
    cbn [run step]. rewrite decide_True by done. cbn.
    rewrite lookup_insert_eq. cbn. rewrite (proj2 (Z.eqb_neq (head s) NULL)) by set_solver. cbn.
    rewrite lookup_insert_eq. cbn. rewrite Hh, Hq. cbn.
    rewrite lookup_insert_eq. cbn. rewrite Hh, Z.eqb_refl. cbn.
    eexists; split; [reflexivity|]. cbn. split_and!; [|set_solver|done].
    destruct l'; simpl in L; [done|]. by destruct L as [-> _].
Qed.

Lemma solo_completes_witness :
  ∃ s', run [(0%nat, StartFetch); (0%nat, Tick false); (0%nat, Tick false); (0%nat, Tick false)]
          (init [5; 6]) = Some s' ∧
        head s' = 6 ∧ 5 ∈ held s' ∧ trace s' = [Fetched 5].
Proof.
  refine (proj2 (solo_completes (init [5; 6]) 0 [5; 6] _ _ _) 5 [6] eq_refl).
  - exact (links_build [5; 6] ltac:(repeat constructor; set_solver)).
  - set_solver.
  - reflexivity.
Defined.

End LockFree.
