(* ===== verification/SpinLock.v ===== *)
(** * Spin locks and bitmaps

    [src/common/spinlock.c], one access to the lock at a time, by any number of
    threads: each thread has a list of critical sections to run, and a section is
    a list of steps on what the lock protects.  The theorem is what the other
    files rely on when they take a routine that runs under a lock as one step:
    whatever the interleaving, the sections have run one after the other, in the
    order in which the lock was taken.

    [src/common/bitmap.h]: bits in an array of 64-bit cells. *)

From stdpp Require Import base list.
From S2P Require Import Prelude.
#[local] Open Scope Z_scope.

Module SpinLock.

(** ** Threads *)

Section lock.
(** What the lock protects. *)
Context {Sh : Type}.

(** A critical section: its accesses to the protected state, in order. *)
Definition body : Type := list (Sh → Sh).

(** Where a thread is: outside; at the test of [lock->locked] in
    [_try_acquire_spinlock]; past it, at [__atomic_test_and_set]; inside with
    the accesses that are left, the last of them followed by
    [_release_spinlock]. *)
Inductive pc : Type := Out | Test (b : body) | Swap (b : body) | In (b todo : body).
Record thread : Type := mkThread { at_ : pc; jobs : list body }.

(** [locked] is the field of [SpinLock]; [hist] records which thread took the
    lock for which section. *)
Record st : Type := mkState { locked : bool; shared : Sh; threads : list thread; hist : list (nat * body) }.

(** ** Code *)

Definition init_spinlock (x : Sh) (ts : list (list body)) : st := mkState false x (mkThread Out <$> ts) [].

Definition set_thread (n : nat) (p : pc) (js : list body) (s : st) : st :=
  mkState s.(locked) s.(shared) (<[n := mkThread p js]> s.(threads)) s.(hist).
Definition set_locked (b : bool) (s : st) : st := mkState b s.(shared) s.(threads) s.(hist).

(** [!lock->locked] of [_try_acquire_spinlock]; a thread that finds the lock
    taken comes back here after [arch_yield], the loop of [_acquire_spinlock]. *)
Definition test_locked (n : nat) (b : body) (js : list body) (s : st) : st :=
  if s.(locked) then s else set_thread n (Swap b) js s.
(** [!__atomic_test_and_set(&lock->locked)] *)
Definition test_and_set (n : nat) (b : body) (js : list body) (s : st) : st :=
  if s.(locked) then set_thread n (Test b) js s
  else let s := set_thread n (In b b) js (set_locked true s) in mkState s.(locked) s.(shared) s.(threads) (s.(hist) ++ [(n, b)]).
(** [__atomic_clear(&lock->locked)] *)
Definition _release_spinlock (n : nat) (js : list body) (s : st) : st := set_thread n Out js (set_locked false s).

(** The next access of thread [n], if it has one. *)
Definition step (n : nat) (s : st) : option st :=
  t ← s.(threads) !! n;
  match t.(at_), t.(jobs) with
  | Out, [] => None
  | Out, b :: js => Some (set_thread n (Test b) js s)
  | Test b, js => Some (test_locked n b js s)
  | Swap b, js => Some (test_and_set n b js s)
  | In b (f :: todo), js => Some (set_thread n (In b todo) js (mkState s.(locked) (f s.(shared)) s.(threads) s.(hist)))
  | In b [], js => Some (_release_spinlock n js s)
  end.

(** Steps of the threads in the order of a schedule; a thread that is done takes none. *)
Definition run (sched : list nat) (s : st) : st := foldl (λ s n, default s (step n s)) s sched.

(** ** What it promises *)

Definition run_body (b : body) (x : Sh) : Sh := foldl (λ x f, f x) x b.
Definition run_bodies (bs : list body) (x : Sh) : Sh := foldl (λ x b, run_body b x) x bs.

Definition inside (s : st) (n : nat) (b todo : body) : Prop := ∃ js, s.(threads) !! n = Some (mkThread (In b todo) js).
(** What thread [n] has still to take the lock for. *)
Definition pending (t : thread) : list body :=
  match t.(at_) with Test b | Swap b => b :: t.(jobs) | _ => t.(jobs) end.
Definition taken_by (n : nat) (h : list (nat * body)) : list body := (filter (λ x, x.1 = n) h).*2.

(** The state when no one is inside, and when one thread is. *)
Definition serial (x0 : Sh) (s : st) : Prop :=
  if s.(locked) then ∃ n b todo pre h, inside s n b todo ∧ b = pre ++ todo ∧ s.(hist) = h ++ [(n, b)] ∧
                       s.(shared) = run_body pre (run_bodies h.*2 x0) ∧ ∀ m b' todo', inside s m b' todo' → m = n
  else s.(shared) = run_bodies (s.(hist)).*2 x0 ∧ ∀ m b todo, ¬ inside s m b todo.
Definition in_order (ts : list (list body)) (s : st) : Prop :=
  ∀ n js, ts !! n = Some js → ∃ t, s.(threads) !! n = Some t ∧ js = taken_by n s.(hist) ++ pending t.

(** ** Lemmas *)

Lemma thread_set n p js s m : (n < length s.(threads))%nat →
  (set_thread n p js s).(threads) !! m = if decide (m = n) then Some (mkThread p js) else s.(threads) !! m.
Proof. intros Hn. cbn. case_decide as E; [subst; by apply list_lookup_insert_eq|by apply list_lookup_insert_ne]. Qed.

Lemma inside_set n p js s m b todo : (n < length s.(threads))%nat →
  inside (set_thread n p js s) m b todo ↔ (m = n ∧ p = In b todo) ∨ (m ≠ n ∧ inside s m b todo).
Proof.
  intros Hn. unfold inside. setoid_rewrite (thread_set n p js s m Hn). case_decide as E; split.
  - intros (js' & [= -> ->]). by left.
  - intros [[_ ->]|[? _]]; [by exists js|done].
  - intros H. right. by split.
  - intros [[? _]|[_ H]]; done.
Qed.

Lemma run_bodies_app bs b x : run_bodies (bs ++ [b]) x = run_body b (run_bodies bs x).
Proof. unfold run_bodies. by rewrite foldl_app. Qed.
Lemma run_body_app b f x : run_body (b ++ [f]) x = f (run_body b x).
Proof. unfold run_body. by rewrite foldl_app. Qed.

(** A thread outside or inside that moves to a place that is not inside. *)
Lemma serial_move x0 s n t p js : serial x0 s → s.(threads) !! n = Some t → (∀ b todo, t.(at_) ≠ In b todo) → (∀ b todo, p ≠ In b todo) →
  serial x0 (set_thread n p js s).
Proof.
  intros Hs Ht Hout Hp. pose proof (lookup_lt_Some _ _ _ Ht) as Hn.
  assert (Hi : ∀ m b todo, inside (set_thread n p js s) m b todo ↔ inside s m b todo).
  { intros m b todo. rewrite inside_set by done. split.
    - intros [[_ E]|[_ H]]; [by destruct (Hp b todo)|done].
    - intros H. right. split; [|done]. intros ->. destruct H as [js' E]. rewrite Ht in E. injection E as ->. by eapply Hout. }
  unfold serial in *. cbn [locked set_thread shared hist]. destruct s.(locked).
  - destruct Hs as (m & b & todo & pre & h & H1 & H2 & H3 & H4 & H5). exists m, b, todo, pre, h. split_and!; [by apply Hi|done|done|done|].
    intros m' b' todo' H. apply Hi in H. by eapply H5.
  - destruct Hs as [H1 H2]. split; [done|]. intros m b todo H. apply Hi in H. by eapply H2.
Qed.

Lemma serial_step x0 s n s' : serial x0 s → step n s = Some s' → serial x0 s'.
Proof.
  intros Hs. unfold step. destruct (s.(threads) !! n) as [[p js]|] eqn:Ht; [|done]. pose proof (lookup_lt_Some _ _ _ Ht) as Hn. cbn.
  destruct p as [|b|b|b [|f todo]].
  - destruct js as [|b js]; [done|]. intros [= <-]. by eapply serial_move.
  - intros [= <-]. unfold test_locked. destruct s.(locked); [done|]. by eapply serial_move.
  - intros [= <-]. unfold test_and_set. destruct (s.(locked)) eqn:El; [by eapply serial_move|]. unfold serial in *. rewrite El in Hs. destruct Hs as [Hsh Hno].
    cbn [locked set_thread set_locked shared hist threads]. exists n, b, b, [], s.(hist). split_and!; [|done|done|done|].
    + exists js. by apply list_lookup_insert_eq.
    + intros m b' todo' H. change (inside (set_thread n (In b b) js s) m b' todo') in H. rewrite inside_set in H by done.
      destruct H as [[-> _]|[_ H]]; [done|by destruct (Hno m b' todo')].
  - intros [= <-]. unfold serial in *. destruct s.(locked).
    + destruct Hs as (m & b' & todo' & pre & h & H1 & H2 & H3 & H4 & H5). cbn. assert (Hin : inside s n b []) by (by exists js).
      pose proof (H5 _ _ _ Hin) as ->. destruct H1 as [js' H1]. rewrite Ht in H1. injection H1 as <- <- <-. rewrite app_nil_r in H2. subst pre.
      split; [rewrite H4, H3, fmap_app; exact (eq_sym (run_bodies_app _ _ _))|]. intros m' b' todo' H. change (inside (set_thread m Out js s) m' b' todo') in H.
      rewrite inside_set in H by done. destruct H as [[_ H]|[Hne H]]; [done|]. by destruct (Hne (H5 _ _ _ H)).
    + destruct Hs as [_ Hno]. destruct (Hno n b []). by exists js.
  - intros [= <-]. unfold serial in *. cbn [locked set_thread]. destruct s.(locked).
    + destruct Hs as (m & b' & todo' & pre & h & H1 & H2 & H3 & H4 & H5). assert (Hin : inside s n b (f :: todo)) by (by exists js).
      pose proof (H5 _ _ _ Hin) as ->. destruct H1 as [js' H1]. rewrite Ht in H1. injection H1 as <- <- <-.
      exists m, b, todo, (pre ++ [f]), h. cbn [shared hist]. split_and!; [|by rewrite <-app_assoc|done|by rewrite run_body_app, <-H4|].
      * exists js. by apply list_lookup_insert_eq.
      * intros m' b' todo' H. change (inside (set_thread m (In b todo) js s) m' b' todo') in H. rewrite inside_set in H by done.
        destruct H as [[-> _]|[_ H]]; [done|by eapply H5].
    + destruct Hs as [_ Hno]. destruct (Hno n b (f :: todo)). by exists js.
Qed.

Lemma taken_by_app n h m b : taken_by n (h ++ [(m, b)]) = taken_by n h ++ (if decide (m = n) then [b] else []).
Proof. unfold taken_by. rewrite filter_app, fmap_app. f_equal. rewrite filter_cons. cbn [fst]. by case_decide. Qed.

(** A step keeps the sections of every thread in the order in which it has them. *)
Lemma in_order_step ts s n s' : in_order ts s → step n s = Some s' → in_order ts s'.
Proof.
  intros Ho. unfold step. destruct (s.(threads) !! n) as [[p js]|] eqn:Ht; [|done]. pose proof (lookup_lt_Some _ _ _ Ht) as Hn. cbn.
  assert (Hmove : ∀ p' js' sh lk h' add, (∀ m, taken_by m h' = taken_by m s.(hist) ++ if decide (n = m) then add else []) →
    pending (mkThread p js) = add ++ pending (mkThread p' js') → in_order ts (mkState lk sh (<[n := mkThread p' js']> s.(threads)) h')).
  { intros p' js' sh lk h' add Hh Hp m l Hl. destruct (Ho m l Hl) as (t & Hm & ->). cbn [threads hist]. rewrite Hh. destruct (decide (n = m)) as [<-|Hne].
    - exists (mkThread p' js'). split; [by apply list_lookup_insert_eq|]. rewrite Ht in Hm. injection Hm as <-. by rewrite Hp, <-app_assoc.
    - exists t. split; [by rewrite list_lookup_insert_ne|]. by rewrite app_nil_r. }
  assert (Hkeep : ∀ p' js' sh lk, pending (mkThread p js) = pending (mkThread p' js') →
    in_order ts (mkState lk sh (<[n := mkThread p' js']> s.(threads)) s.(hist))).
  { intros p' js' sh lk Hp. apply (Hmove p' js' sh lk s.(hist) []); [|done]. intros m. case_decide; by rewrite app_nil_r. }
  destruct p as [|b|b|b [|f todo]]; [destruct js as [|b js]; [done|]|..]; intros [= <-]; try by apply Hkeep.
  - unfold test_locked. destruct s.(locked); [done|by apply Hkeep].
  - unfold test_and_set. destruct s.(locked) eqn:El; [by apply Hkeep|]. apply (Hmove _ _ _ _ _ [b]); [|done]. intros m. apply taken_by_app.
Qed.

Lemma run_invariant (P : st → Prop) sched s : (∀ n s s', P s → step n s = Some s' → P s') → P s → P (run sched s).
Proof.
  intros Hstep. revert s. induction sched as [|n sched IH]; intros s Hs; [done|]. apply IH. cbn. destruct (step n s) as [s'|] eqn:E; [|done]. by eapply Hstep.
Qed.
Lemma start_ok x0 ts : serial x0 (init_spinlock x0 ts) ∧ in_order ts (init_spinlock x0 ts).
Proof.
  split.
  - split; [done|]. intros m b todo [js H]. cbn in H. rewrite list_lookup_fmap in H. by destruct (ts !! m).
  - intros n js Hn. exists (mkThread Out js). cbn. rewrite list_lookup_fmap, Hn. done.
Qed.

(** C15: threads that take a spin lock around their critical sections, one memory
    access at a time and in any interleaving.  When the lock is free nobody is
    inside, and what it protects is what the sections entered so far make of the
    initial state when they run one after the other, in the order in which the
    lock was taken; when it is taken exactly one thread is inside, and the state
    is that of the sections before, with the first steps of its own.  Each
    thread's sections are taken in its own order and none is lost. *)
Theorem spin_lock_serial x0 ts sched :
  let s := run sched (init_spinlock x0 ts) in serial x0 s ∧ in_order ts s.
Proof.
  destruct (start_ok x0 ts) as [H1 H2]. split.
  - apply (run_invariant (serial x0)); [|done]. intros n s s' Hs. by apply serial_step.
  - apply (run_invariant (in_order ts)); [|done]. intros n s s' Hs. by apply in_order_step.
Qed.

(** When every thread is done, the lock is free and all sections have run. *)
Lemma spin_lock_done x0 ts s : serial x0 s → in_order ts s → (∀ t, t ∈ s.(threads) → t = mkThread Out []) →
  s.(shared) = run_bodies (s.(hist)).*2 x0 ∧ ∀ n js, ts !! n = Some js → taken_by n s.(hist) = js.
Proof.
  intros H1 H2 Hd. split.
  - unfold serial in H1. destruct s.(locked); [|apply H1]. destruct H1 as (n & b & todo & _ & _ & [js Hn] & _).
    apply list_elem_of_lookup_2, Hd in Hn. done.
  - intros n js Hn. destruct (H2 n js Hn) as (t & Ht & ->). rewrite (Hd t) by (by eapply list_elem_of_lookup_2). cbn. by rewrite app_nil_r.
Qed.

(** A thread that runs alone while the lock is free is inside after at most three steps. *)
Lemma spin_lock_progress s n t : s.(locked) = false → s.(threads) !! n = Some t → (t.(at_) = Out → t.(jobs) ≠ []) → (∀ b todo, t.(at_) ≠ In b todo) →
  ∃ k b, (k ≤ 3)%nat ∧ inside (run (replicate k n) s) n b b.
Proof.
  intros Hl Ht Hj Hout. pose proof (lookup_lt_Some _ _ _ Ht) as Hn.
  assert (Hsw : ∀ b js s1, s1.(locked) = false → s1.(threads) !! n = Some (mkThread (Swap b) js) → inside (run [n] s1) n b b).
  { intros b js s1 Hl1 Ht1. pose proof (lookup_lt_Some _ _ _ Ht1). cbn. unfold step. rewrite Ht1. cbn. unfold test_and_set. rewrite Hl1. exists js. cbn. by apply list_lookup_insert_eq. }
  assert (Hte : ∀ b js s1, s1.(locked) = false → s1.(threads) !! n = Some (mkThread (Test b) js) → inside (run [n; n] s1) n b b).
  { intros b js s1 Hl1 Ht1. pose proof (lookup_lt_Some _ _ _ Ht1). change (run [n; n] s1) with (run [n] (default s1 (step n s1))). unfold step. rewrite Ht1. cbn [mbind option_bind at_ default].
    unfold test_locked. rewrite Hl1. eapply Hsw; [done|]. cbn. by apply list_lookup_insert_eq. }
  destruct t as [[|b|b|b todo] js]; cbn in *.
  - destruct js as [|b js]; [by destruct Hj|]. exists 3%nat, b. split; [lia|]. change (run (replicate 3 n) s) with (run [n; n] (default s (step n s))).
    unfold step. rewrite Ht. cbn [mbind option_bind at_ jobs default]. eapply Hte; [done|]. cbn. by apply list_lookup_insert_eq.
  - exists 2%nat, b. split; [lia|]. by eapply Hte.
  - exists 1%nat, b. split; [lia|]. by eapply Hsw.
  - by destruct (Hout b todo).
Qed.
End lock.
Arguments st _ : clear implicits.
Arguments thread _ : clear implicits.
Arguments body _ : clear implicits.

(** *** Examples *)

(** A counter and a variable of each of two threads, which add one in two accesses. *)
Abbreviation counter := (Z * (Z * Z))%type.
Definition add_one (i : bool) : body counter :=
  [λ x, if i then (x.1, (x.1, x.2.2)) else (x.1, (x.2.1, x.1)); λ x, ((if i then x.2.1 else x.2.2) + 1, x.2)].
Definition two : st counter := init_spinlock (0, (0, 0)) [[add_one true]; [add_one false]].
Definition insiders {Sh} (s : st Sh) : nat := length (filter (λ t : thread Sh, match t.(at_) with In _ _ => true | _ => false end = true) s.(threads)).

(** The other thread sees the lock free before it is taken, and waits none the less. *)
Example contended : let s := run [0; 1; 0; 1; 0; 1; 0; 1; 0; 0; 1; 1; 1; 1; 1; 1]%nat two in (s.(shared).1, insiders s, s.(locked)) = (2, 0%nat, false).
Proof. by vm_compute. Qed.

(** One release by a thread that does not hold the lock, as in [attach_pgdir]
    of [kernel/pt.c], and both are inside. *)
Example foreign_release : let s := run [1; 1; 1]%nat (set_locked false (run [0; 0; 0; 0]%nat two)) in insiders s = 2%nat.
Proof. by vm_compute. Qed.
End SpinLock.

(** ** Bitmaps *)

Module Bitmap.

Definition BITMAP_BITS_PER_CELL : Z := 64.
Definition BITMAP_TO_NUM_CELLS (size : Z) : Z := (size + BITMAP_BITS_PER_CELL - 1) / BITMAP_BITS_PER_CELL.
Definition BIT (i : Z) : Z := u64 (Z.shiftl 1 i).

(** An array of cells; an index beyond it is an access out of bounds. *)
Definition bitmap_get (bitmap : list Z) (index : Z) : option bool :=
  c ← bitmap !! Z.to_nat (index / BITMAP_BITS_PER_CELL);
  Some (negb (Z.land (Z.shiftr c (index mod BITMAP_BITS_PER_CELL)) 1 =? 0)).
Definition bitmap_set (bitmap : list Z) (index : Z) : option (list Z) :=
  c ← bitmap !! Z.to_nat (index / BITMAP_BITS_PER_CELL);
  Some (<[Z.to_nat (index / BITMAP_BITS_PER_CELL) := Z.lor c (BIT (index mod BITMAP_BITS_PER_CELL))]> bitmap).
Definition bitmap_clear (bitmap : list Z) (index : Z) : option (list Z) :=
  c ← bitmap !! Z.to_nat (index / BITMAP_BITS_PER_CELL);
  Some (<[Z.to_nat (index / BITMAP_BITS_PER_CELL) := Z.land c (u64 (Z.lnot (BIT (index mod BITMAP_BITS_PER_CELL))))]> bitmap).

Lemma bit_of c o : negb (Z.land (Z.shiftr c o) 1 =? 0) = Z.testbit c o.
Proof.
  change 1 with (Z.ones 1). rewrite Z.land_ones by done. change (2 ^ 1) with 2. rewrite <-Z.bit0_mod. 
  destruct (decide (0 ≤ o)).
  - rewrite Z.shiftr_spec by done. rewrite Z.add_0_l. by destruct (Z.testbit c o).
  - rewrite Z.shiftr_spec by done. rewrite Z.add_0_l. by destruct (Z.testbit c o).
Qed.
Lemma BIT_eq o : 0 ≤ o < 64 → BIT o = 2 ^ o.
Proof.
  intros Ho. unfold BIT. rewrite Z.shiftl_mul_pow2 by lia. rewrite Z.mul_1_l. apply u64_small. split; [by apply Z.pow_nonneg|]. apply (Z.pow_lt_mono_r 2 o 64); lia.
Qed.
Lemma offset_range i : 0 ≤ i mod BITMAP_BITS_PER_CELL < 64.
Proof. by apply Z.mod_pos_bound. Qed.
Lemma index_eq i j : i / BITMAP_BITS_PER_CELL = j / BITMAP_BITS_PER_CELL → i mod BITMAP_BITS_PER_CELL = j mod BITMAP_BITS_PER_CELL → i = j.
Proof.
  intros H1 H2. pose proof (Z.div_mod i BITMAP_BITS_PER_CELL ltac:(done)). pose proof (Z.div_mod j BITMAP_BITS_PER_CELL ltac:(done)). lia.
Qed.

(** Writing bit [i] of an array, by what is done to its cell. *)
Lemma get_insert bm i j c c' x : 0 ≤ i → 0 ≤ j → bm !! Z.to_nat (i / BITMAP_BITS_PER_CELL) = Some c →
  (∀ o, 0 ≤ o < 64 → Z.testbit c' o = if decide (o = i mod BITMAP_BITS_PER_CELL) then x else Z.testbit c o) →
  bitmap_get (<[Z.to_nat (i / BITMAP_BITS_PER_CELL) := c']> bm) j = if decide (j = i) then Some x else bitmap_get bm j.
Proof.
  intros Hi Hj Hc Ht. unfold bitmap_get. pose proof (lookup_lt_Some _ _ _ Hc).
  pose proof (Z.div_pos i BITMAP_BITS_PER_CELL). pose proof (Z.div_pos j BITMAP_BITS_PER_CELL). unfold BITMAP_BITS_PER_CELL in *.
  destruct (decide (j / 64 = i / 64)) as [E|E].
  - rewrite E, list_lookup_insert_eq, Hc by done. cbn. rewrite !bit_of, Ht by apply (offset_range j).
    destruct (decide (j = i)) as [->|Hne]; [by rewrite decide_True by done|]. rewrite decide_False; [done|]. intros Eo. exact (Hne (index_eq j i E Eo)).
  - rewrite list_lookup_insert_ne by lia. rewrite decide_False; [done|]. by intros ->.
Qed.

(** Setting and clearing a bit changes that bit and no other. *)
Lemma bitmap_set_get bm bm' i j : 0 ≤ i → 0 ≤ j → bitmap_set bm i = Some bm' → bitmap_get bm' j = if decide (j = i) then Some true else bitmap_get bm j.
Proof.
  intros Hi Hj. unfold bitmap_set. destruct (bm !! _) as [c|] eqn:E; [|done]. intros [= <-]. apply (get_insert bm i j c); [done..|].
  intros o Ho. rewrite BIT_eq by apply offset_range. rewrite Z.lor_spec, Z.pow2_bits_eqb by apply offset_range. case_decide as D.
  - subst. by rewrite Z.eqb_refl, orb_true_r.
  - rewrite (proj2 (Z.eqb_neq _ _)) by done. by rewrite orb_false_r.
Qed.
Lemma bitmap_clear_get bm bm' i j : 0 ≤ i → 0 ≤ j → bitmap_clear bm i = Some bm' → bitmap_get bm' j = if decide (j = i) then Some false else bitmap_get bm j.
Proof.
  intros Hi Hj. unfold bitmap_clear. destruct (bm !! _) as [c|] eqn:E; [|done]. intros [= <-]. apply (get_insert bm i j c); [done..|].
  intros o Ho. rewrite BIT_eq by apply offset_range. rewrite Z.land_spec. unfold u64, wrap. rewrite Z.mod_pow2_bits_low by lia.
  rewrite Z.lnot_spec, Z.pow2_bits_eqb by (try apply offset_range; lia). case_decide as D.
  - subst. by rewrite Z.eqb_refl, andb_false_r.
  - rewrite (proj2 (Z.eqb_neq _ _)) by done. by rewrite andb_true_r.
Qed.
End Bitmap.
