(* ===== verification/FsLayout.v ===== *)
(** * On-disk layout

    [src/fs/defines.h]: the constants, the super block, the log header, inode
    entries, indirect blocks and directory entries, with their byte layouts
    (little endian, as the AArch64 structs are laid out) and the proofs that
    each layout fits its block and is decoded to what was encoded. *)

From S2P Require Import Prelude.

Definition BLOCK_SIZE : Z := 512.
Definition LOG_MAX_SIZE : Z := (BLOCK_SIZE - 8) / 8.
Definition INODE_NUM_DIRECT : Z := 12.
Definition INODE_NUM_INDIRECT : Z := BLOCK_SIZE / 4.
Definition sizeof_InodeEntry : Z := 64.
Definition INODE_PER_BLOCK : Z := BLOCK_SIZE / sizeof_InodeEntry.
Definition INODE_MAX_BLOCKS : Z := INODE_NUM_DIRECT + INODE_NUM_INDIRECT.
Definition INODE_MAX_BYTES : Z := INODE_MAX_BLOCKS * BLOCK_SIZE.
Definition FILE_NAME_MAX_LENGTH : Z := 14.
Definition sizeof_DirEntry : Z := 16.
Definition INODE_INVALID : Z := 0.
Definition INODE_DIRECTORY : Z := 1.
Definition INODE_REGULAR : Z := 2.
Definition INODE_DEVICE : Z := 3.
Definition ROOT_INODE_NO : Z := 1.
Definition BIT_PER_BLOCK : Z := BLOCK_SIZE * 8.
Definition SWAP_START : Z := 800.
Definition SWAP_END : Z := 1000.

(** The constants stay folded in proofs; [lconst] exposes them to [lia]. *)
#[global] Arguments BLOCK_SIZE : simpl never.
#[global] Arguments LOG_MAX_SIZE : simpl never.
#[global] Arguments INODE_NUM_DIRECT : simpl never.
#[global] Arguments INODE_NUM_INDIRECT : simpl never.
#[global] Arguments sizeof_InodeEntry : simpl never.
#[global] Arguments INODE_PER_BLOCK : simpl never.
#[global] Arguments INODE_MAX_BLOCKS : simpl never.
#[global] Arguments INODE_MAX_BYTES : simpl never.
#[global] Arguments FILE_NAME_MAX_LENGTH : simpl never.
#[global] Arguments sizeof_DirEntry : simpl never.
#[global] Arguments BIT_PER_BLOCK : simpl never.

Lemma BLOCK_SIZE_eq : BLOCK_SIZE = 512. Proof. reflexivity. Qed.
Lemma LOG_MAX_SIZE_eq : LOG_MAX_SIZE = 63. Proof. reflexivity. Qed.
Lemma INODE_NUM_DIRECT_eq : INODE_NUM_DIRECT = 12. Proof. reflexivity. Qed.
Lemma INODE_NUM_INDIRECT_eq : INODE_NUM_INDIRECT = 128. Proof. reflexivity. Qed.
Lemma INODE_PER_BLOCK_eq : INODE_PER_BLOCK = 8. Proof. reflexivity. Qed.
Lemma INODE_MAX_BYTES_eq : INODE_MAX_BYTES = 71680. Proof. reflexivity. Qed.
Lemma INODE_MAX_BLOCKS_eq : INODE_MAX_BLOCKS = 140. Proof. reflexivity. Qed.
Lemma sizeof_InodeEntry_eq : sizeof_InodeEntry = 64. Proof. reflexivity. Qed.
Lemma sizeof_DirEntry_eq : sizeof_DirEntry = 16. Proof. reflexivity. Qed.
Lemma FILE_NAME_MAX_LENGTH_eq : FILE_NAME_MAX_LENGTH = 14. Proof. reflexivity. Qed.
Lemma BIT_PER_BLOCK_eq : BIT_PER_BLOCK = 4096. Proof. reflexivity. Qed.

Ltac lconst :=
  rewrite ?BLOCK_SIZE_eq, ?LOG_MAX_SIZE_eq, ?INODE_NUM_DIRECT_eq, ?INODE_NUM_INDIRECT_eq,
    ?INODE_PER_BLOCK_eq, ?INODE_MAX_BYTES_eq, ?INODE_MAX_BLOCKS_eq, ?sizeof_InodeEntry_eq,
    ?sizeof_DirEntry_eq, ?FILE_NAME_MAX_LENGTH_eq, ?BIT_PER_BLOCK_eq in *.

Record SuperBlock := mkSuperBlock {
  num_blocks : Z;
  num_data_blocks : Z;
  num_inodes : Z;
  num_log_blocks : Z;
  log_start : Z;
  inode_start : Z;
  bitmap_start : Z;
}.

(** [hnum], [hblk]: the C fields [num_blocks], [block_no] of [LogHeader]. *)
Record LogHeader := mkLogHeader { hnum : Z; hblk : list Z }.

Record InodeEntry := mkInodeEntry {
  itype : Z;
  major : Z;
  minor : Z;
  num_links : Z;
  num_bytes : Z;
  addrs : list Z;
  indirect : Z;
}.

Record DirEntry := mkDirEntry { de_inode_no : Z; de_name : list Z }.

(** ** Byte layouts *)

(** An array of [n]-byte integers. *)
Definition le_array (n : nat) (xs : list Z) : list Z := concat (le_bytes n <$> xs).

Fixpoint le_unarray (n k : nat) (bs : list Z) : list Z :=
  match k with
  | O => []
  | S k' => le_value (take n bs) :: le_unarray n k' (drop n bs)
  end.

Definition encode_header (h : LogHeader) : list Z := le_bytes 8 (hnum h) ++ le_array 8 (hblk h).
Definition decode_header (bs : list Z) : LogHeader :=
  mkLogHeader (le_value (take 8 bs)) (le_unarray 8 (Z.to_nat LOG_MAX_SIZE) (drop 8 bs)).

Definition encode_inode (e : InodeEntry) : list Z :=
  le_array 2 [itype e; major e; minor e; num_links e] ++
  le_bytes 4 (num_bytes e) ++ le_array 4 (addrs e) ++ le_bytes 4 (indirect e).
Definition decode_inode (bs : list Z) : InodeEntry :=
  mkInodeEntry
    (le_value (slice bs 0 2)) (le_value (slice bs 2 2))
    (le_value (slice bs 4 2)) (le_value (slice bs 6 2))
    (le_value (slice bs 8 4))
    (le_unarray 4 (Z.to_nat INODE_NUM_DIRECT) (slice bs 12 48))
    (le_value (slice bs 60 4)).

Definition encode_addrs (a : list Z) : list Z := le_array 4 a.
Definition decode_addrs (bs : list Z) : list Z := le_unarray 4 (Z.to_nat INODE_NUM_INDIRECT) bs.

Definition encode_dirent (d : DirEntry) : list Z := le_bytes 2 (de_inode_no d) ++ de_name d.
Definition decode_dirent (bs : list Z) : DirEntry :=
  mkDirEntry (le_value (take 2 bs)) (slice bs 2 (Z.to_nat FILE_NAME_MAX_LENGTH)).

#[global] Arguments encode_header : simpl never.
#[global] Arguments decode_header : simpl never.
#[global] Arguments encode_inode : simpl never.
#[global] Arguments decode_inode : simpl never.
#[global] Arguments encode_addrs : simpl never.
#[global] Arguments decode_addrs : simpl never.
#[global] Arguments encode_dirent : simpl never.
#[global] Arguments decode_dirent : simpl never.

(** ** Well-formed values *)

Definition uint (n : nat) (x : Z) : Prop := 0 ≤ x < 2 ^ (8 * Z.of_nat n).

Definition header_ok (h : LogHeader) : Prop :=
  uint 8 (hnum h) ∧ Forall (uint 8) (hblk h) ∧ length (hblk h) = Z.to_nat LOG_MAX_SIZE.

Definition inode_ok (e : InodeEntry) : Prop :=
  uint 2 (itype e) ∧ uint 2 (major e) ∧ uint 2 (minor e) ∧ uint 2 (num_links e) ∧
  uint 4 (num_bytes e) ∧ Forall (uint 4) (addrs e) ∧
  length (addrs e) = Z.to_nat INODE_NUM_DIRECT ∧ uint 4 (indirect e).

Definition dirent_ok (d : DirEntry) : Prop :=
  uint 2 (de_inode_no d) ∧ Forall byte_ok (de_name d) ∧
  length (de_name d) = Z.to_nat FILE_NAME_MAX_LENGTH.

Definition block_ok (bs : list Z) : Prop :=
  length bs = Z.to_nat BLOCK_SIZE ∧ Forall byte_ok bs.

Definition zero_block : list Z := replicate (Z.to_nat BLOCK_SIZE) 0.

(** ** Lemmas *)

Lemma length_le_array n xs : length (le_array n xs) = (n * length xs)%nat.
Proof.
  induction xs as [|x xs IH]; cbn [le_array concat fmap list_fmap length]; [lia|].
  fold (le_array n xs). rewrite length_app, length_le_bytes, IH. lia.
Qed.

Lemma le_array_cons n x xs : le_array n (x :: xs) = le_bytes n x ++ le_array n xs.
Proof. reflexivity. Qed.

Lemma le_array_ok n xs : Forall byte_ok (le_array n xs).
Proof.
  induction xs as [|x xs IH]; [constructor|]. rewrite le_array_cons.
  apply Forall_app_2; [apply le_bytes_ok | done].
Qed.

Lemma length_le_unarray n k bs : length (le_unarray n k bs) = k.
Proof. revert bs. induction k; intros; simpl; auto. Qed.

Lemma le_unarray_array n xs rest :
  Forall (uint n) xs → le_unarray n (length xs) (le_array n xs ++ rest) = xs.
Proof.
  induction 1 as [|x xs Hx Hxs IH]; simpl; [done|]. rewrite le_array_cons, <-(assoc_L (++)).
  rewrite take_app_length', drop_app_length' by (by rewrite length_le_bytes).
  by rewrite le_value_bytes, IH.
Qed.

Lemma le_array_unarray n k bs :
  Forall byte_ok bs → length bs = (n * k)%nat → le_array n (le_unarray n k bs) = bs.
Proof.
  revert bs. induction k as [|k IH]; intros bs Hb Hl; cbn [le_unarray].
  - destruct bs; [done|simpl in Hl; lia].
  - rewrite le_array_cons. rewrite IH; [|by apply Forall_drop|rewrite length_drop; lia].
    replace n with (length (take n bs)) at 1 by (rewrite length_take; lia).
    rewrite le_bytes_value by (by apply Forall_take). apply take_drop.
Qed.

Lemma le_unarray_uint n k bs : Forall byte_ok bs → length bs = (n * k)%nat → Forall (uint n) (le_unarray n k bs).
Proof.
  revert bs. induction k as [|k IH]; intros bs Hb Hl; cbn [le_unarray]; constructor.
  - pose proof (le_value_range (take n bs) (Forall_take _ _ _ Hb)) as H.
    rewrite length_take, Nat.min_l in H by lia. done.
  - apply IH; [by apply Forall_drop|rewrite length_drop; lia].
Qed.

Lemma length_encode_header h : header_ok h → length (encode_header h) = Z.to_nat BLOCK_SIZE.
Proof.
  intros (_ & _ & Hl). unfold encode_header.
  rewrite length_app, length_le_bytes, length_le_array, Hl. reflexivity.
Qed.

Lemma encode_header_ok h : header_ok h → block_ok (encode_header h).
Proof.
  intros H. split; [by apply length_encode_header|]. apply Forall_app_2; auto using le_bytes_ok, le_array_ok.
Qed.

(** The log header survives its round trip through the disk. *)
Theorem decode_encode_header h : header_ok h → decode_header (encode_header h) = h.
Proof.
  intros (Hn & Hb & Hl). destruct h as [n b]; simpl in *. unfold decode_header, encode_header. simpl hnum; simpl hblk.
  rewrite take_app_length', drop_app_length' by (by rewrite length_le_bytes).
  rewrite le_value_bytes by done. rewrite <-Hl, <-(app_nil_r (le_array 8 b)).
  by rewrite le_unarray_array.
Qed.

Lemma decode_header_ok bs : block_ok bs → header_ok (decode_header bs).
Proof.
  intros [Hl Hb]. unfold decode_header, header_ok. cbn [hnum hblk]. split_and!.
  - pose proof (le_value_range (take 8 bs) (Forall_take _ _ _ Hb)) as H.
    rewrite length_take, Nat.min_l in H by (rewrite Hl; vm_compute; lia). done.
  - apply le_unarray_uint; [by apply Forall_drop|]. rewrite length_drop, Hl. reflexivity.
  - apply length_le_unarray.
Qed.

Lemma length_encode_inode e : inode_ok e → length (encode_inode e) = Z.to_nat sizeof_InodeEntry.
Proof.
  intros (_&_&_&_&_&_&Hl&_). unfold encode_inode.
  rewrite !length_app, !length_le_array, !length_le_bytes, Hl. reflexivity.
Qed.

Lemma slice_app_here {A} (a b c : list A) off n :
  length a = off → length b = n → slice (a ++ b ++ c) off n = b.
Proof. intros <- <-. unfold slice. by rewrite drop_app_length, take_app_length. Qed.

Lemma decode_encode_inode_eq e : inode_ok e → decode_inode (encode_inode e) = e.
Proof.
  destruct e as [ty ma mi nl nb ad ind]. unfold inode_ok.
  cbn [itype major minor num_links num_bytes addrs indirect].
  intros (H1&H2&H3&H4&H5&H6&Hl&H7). unfold decode_inode, encode_inode.
  cbn [itype major minor num_links num_bytes addrs indirect].
  rewrite !le_array_cons. change (le_array 2 []) with (@nil Z).
  rewrite app_nil_r, <-!(assoc_L (++)).
  set (b1 := le_bytes 2 ty); set (b2 := le_bytes 2 ma); set (b3 := le_bytes 2 mi);
    set (b4 := le_bytes 2 nl); set (b5 := le_bytes 4 nb); set (b6 := le_array 4 ad);
    set (b7 := le_bytes 4 ind).
  assert (L1 : length b1 = 2%nat) by apply length_le_bytes.
  assert (L2 : length b2 = 2%nat) by apply length_le_bytes.
  assert (L3 : length b3 = 2%nat) by apply length_le_bytes.
  assert (L4 : length b4 = 2%nat) by apply length_le_bytes.
  assert (L5 : length b5 = 4%nat) by apply length_le_bytes.
  assert (L6 : length b6 = 48%nat) by (unfold b6; rewrite length_le_array, Hl; reflexivity).
  assert (L7 : length b7 = 4%nat) by apply length_le_bytes.
  f_equal.
  - rewrite (slice_app_here [] b1 _ 0 2 eq_refl L1 : slice (b1 ++ _) 0 2 = b1). by apply le_value_bytes.
  - rewrite (slice_app_here b1) by done. by apply le_value_bytes.
  - rewrite (assoc_L (++)), (slice_app_here (b1 ++ b2)) by len. by apply le_value_bytes.
  - rewrite 2!(assoc_L (++)), (slice_app_here ((b1 ++ b2) ++ b3)) by len. by apply le_value_bytes.
  - rewrite 3!(assoc_L (++)), (slice_app_here (((b1 ++ b2) ++ b3) ++ b4)) by len. by apply le_value_bytes.
  - rewrite 4!(assoc_L (++)), (slice_app_here ((((b1 ++ b2) ++ b3) ++ b4) ++ b5)) by len.
    rewrite <-Hl. rewrite <-(app_nil_r b6). by apply le_unarray_array.
  - rewrite 5!(assoc_L (++)), <-(app_nil_r b7) at 1.
    rewrite (slice_app_here (((((b1 ++ b2) ++ b3) ++ b4) ++ b5) ++ b6)) by len. by apply le_value_bytes.
Qed.

Theorem decode_encode_addrs a :
  Forall (uint 4) a → length a = Z.to_nat INODE_NUM_INDIRECT →
  length (encode_addrs a) = Z.to_nat BLOCK_SIZE ∧ decode_addrs (encode_addrs a) = a.
Proof.
  intros Ha Hl. unfold encode_addrs, decode_addrs. split.
  - rewrite length_le_array, Hl. reflexivity.
  - rewrite <-Hl, <-(app_nil_r (le_array 4 a)). by apply le_unarray_array.
Qed.

Theorem decode_encode_dirent d :
  dirent_ok d →
  length (encode_dirent d) = Z.to_nat sizeof_DirEntry ∧ decode_dirent (encode_dirent d) = d.
Proof.
  destruct d as [i nm]. intros (Hi & Hn & Hl). unfold encode_dirent, decode_dirent.
  cbn [de_inode_no de_name] in *.
  rewrite length_app, length_le_bytes, Hl. split; [reflexivity|]. f_equal.
  - rewrite take_app_length' by (by rewrite length_le_bytes). by apply le_value_bytes.
  - unfold slice. rewrite drop_app_length' by (by rewrite length_le_bytes).
    by rewrite take_ge by (rewrite Hl; lia).
Qed.

Lemma zero_block_ok : block_ok zero_block.
Proof.
  split; [apply length_replicate|]. apply Forall_replicate. unfold byte_ok. lia.
Qed.

(** Inode entries survive the round trip through the 64 bytes they take on
    disk, and so do log headers, indirect blocks and directory entries. *)
Theorem decode_encode_inode e :
  inode_ok e → length (encode_inode e) = 64%nat ∧ decode_inode (encode_inode e) = e.
Proof. intros He. split; [by apply length_encode_inode|by apply decode_encode_inode_eq]. Qed.

Lemma decode_encode_inode_witness :
  let e := mkInodeEntry 2 0 0 1 1000 (seqZ 100 12) 0 in
  length (encode_inode e) = 64%nat ∧ decode_inode (encode_inode e) = e.
Proof.
  apply (decode_encode_inode (mkInodeEntry 2 0 0 1 1000 (seqZ 100 12) 0)).
  unfold inode_ok, uint; cbn. split_and!; try lia; [|done]. repeat (constructor; [lia|]). constructor.
Defined.
