(* ===== verification/BlockCache.v ===== *)
(** * The block cache

    [src/fs/cache.c] and [src/fs/cache.h], without the log and the bitmap
    allocator, which are in [FsLog.v] and [BlockAlloc.v].  The state holds the
    [Block] objects (a pointer is an index: blocks are [kalloc]ed and never
    freed), the ring [head] as the sequence of its members from [head.next] on,
    the log header and bookkeeping, and the disk behind [BlockDevice], with the
    sequence of device writes, so that a crash is a prefix of it.

    [repr s v H P] is the contract of the cache: block [n] reads as [v n],
    [H] are the block numbers locked by callers and [P] those pinned until the
    log is checkpointed; every other block is on disk as it reads. *)

From S2P Require Import Prelude FsLayout.

Definition OP_MAX_NUM_BLOCKS : Z := 10.
Definition EVICTION_THRESHOLD : Z := 20.

(** [lockval]: the counter of the block's [SleepLock], 1 when free. *)
Record Block := mkBlock {
  block_no : Z;
  acquired : bool;
  pinned : bool;
  valid : bool;
  lockval : Z;
  data : list Z;
}.

(** [struct LOG], without its spinlock. *)
Record LOG := mkLOG { committing : bool; outstanding : Z; op_reserved : Z }.
Record OpContext := mkOpContext { rm : Z }.

Abbreviation disk_t := (gmap Z (list Z)).

Record St := mkSt {
  pool : list Block;
  head : list nat;
  header : LogHeader;
  log : LOG;
  swap_valid : list bool;
  ctxs : list OpContext;
  disk : disk_t;
  writes : list (Z * list Z);
}.

Definition set_pool (f : list Block → list Block) (s : St) : St :=
  mkSt (f (pool s)) (head s) (header s) (log s) (swap_valid s) (ctxs s) (disk s) (writes s).
Definition set_head (f : list nat → list nat) (s : St) : St :=
  mkSt (pool s) (f (head s)) (header s) (log s) (swap_valid s) (ctxs s) (disk s) (writes s).
Definition set_header (f : LogHeader → LogHeader) (s : St) : St :=
  mkSt (pool s) (head s) (f (header s)) (log s) (swap_valid s) (ctxs s) (disk s) (writes s).
Definition set_log (f : LOG → LOG) (s : St) : St :=
  mkSt (pool s) (head s) (header s) (f (log s)) (swap_valid s) (ctxs s) (disk s) (writes s).
Definition set_swap (f : list bool → list bool) (s : St) : St :=
  mkSt (pool s) (head s) (header s) (log s) (f (swap_valid s)) (ctxs s) (disk s) (writes s).
Definition set_ctxs (f : list OpContext → list OpContext) (s : St) : St :=
  mkSt (pool s) (head s) (header s) (log s) (swap_valid s) (f (ctxs s)) (disk s) (writes s).
Definition set_disk (f : disk_t → disk_t) (w : list (Z * list Z)) (s : St) : St :=
  mkSt (pool s) (head s) (header s) (log s) (swap_valid s) (ctxs s) (f (disk s)) (writes s ++ w).

(** ** Fields of a block *)

Definition with_acquired (x : bool) (b : Block) : Block :=
  mkBlock (block_no b) x (pinned b) (valid b) (lockval b) (data b).
Definition with_pinned (x : bool) (b : Block) : Block :=
  mkBlock (block_no b) (acquired b) x (valid b) (lockval b) (data b).
Definition with_valid (x : bool) (b : Block) : Block :=
  mkBlock (block_no b) (acquired b) (pinned b) x (lockval b) (data b).
Definition with_lockval (x : Z) (b : Block) : Block :=
  mkBlock (block_no b) (acquired b) (pinned b) (valid b) x (data b).
Definition with_block_no (x : Z) (b : Block) : Block :=
  mkBlock x (acquired b) (pinned b) (valid b) (lockval b) (data b).
Definition with_data (x : list Z) (b : Block) : Block :=
  mkBlock (block_no b) (acquired b) (pinned b) (valid b) (lockval b) x.

Definition block (p : nat) : M St Block := ps ← gets pool; deref (ps !! p).
Definition upd (p : nat) (f : Block → Block) : M St unit :=
  block p ;; modify (set_pool (alter f p)).

(** ** The device *)

(** A block that was never written reads as zeroes. *)
Definition disk_get (d : disk_t) (n : Z) : list Z := default zero_block (d !! n).

Definition device_read (p : nat) : M St unit :=
  b ← block p;
  d ← gets disk;
  upd p (with_data (disk_get d (block_no b))).
Definition device_write_at (n : Z) (bs : list Z) : M St unit :=
  modify (set_disk (insert n bs) [(n, bs)]).
Definition device_write (p : nat) : M St unit :=
  b ← block p; device_write_at (block_no b) (data b).

(** ** Locks *)

(** [unalertable_wait_sem(&bp->lock)]: the counter goes down and the caller
    sleeps when it becomes negative. *)
Definition wait_lock (p : nat) : M St unit :=
  b ← block p;
  let x := i32 (lockval b - 1) in
  if x <? 0 then fail Asleep else upd p (with_lockval x).
Definition post_lock (p : nat) : M St unit :=
  b ← block p; upd p (with_lockval (i32 (lockval b + 1))).

(** ** Operations *)

Definition init_block : Block := mkBlock 0 false false false 1 zero_block.

Definition get_num_cached_blocks : M St Z := l ← gets head; mret (Z.of_nat (length l)).

(** The scan for a cached copy, and the reverse scan for a victim. *)
Definition find_cached (ps : list Block) (n : Z) (l : list nat) : option nat :=
  snd <$> list_find (λ p, block_no <$> ps !! p = Some n) l.
Definition evictable (ps : list Block) (p : nat) : Prop :=
  match ps !! p with Some b => pinned b = false ∧ acquired b = false | None => False end.
#[export] Instance evictable_dec ps p : Decision (evictable ps p).
Proof. unfold evictable. destruct (ps !! p); apply _. Defined.
Definition find_victim (ps : list Block) (l : list nat) : option nat :=
  snd <$> list_find (evictable ps) (reverse l).

Definition evict (p : nat) (n : Z) : M St nat :=
  upd p (with_block_no n) ;;
  upd p (with_acquired true) ;;
  wait_lock p ;;
  device_read p ;;
  mret p.

Definition alloc_block (n : Z) : M St nat :=
  p ← gets (λ s, length (pool s));
  modify (set_pool (λ ps, ps ++ [init_block])) ;;
  upd p (with_block_no n) ;;
  modify (set_head (cons p)) ;;
  upd p (with_acquired true) ;;
  wait_lock p ;;
  device_read p ;;
  upd p (with_valid true) ;;
  mret p.

Definition cache_acquire (n : Z) : M St nat :=
  ps ← gets pool;
  l ← gets head;
  match find_cached ps n l with
  | Some p =>
      upd p (with_acquired true) ;; wait_lock p ;; mret p
  | None =>
      cnt ← get_num_cached_blocks;
      match (if EVICTION_THRESHOLD <=? cnt then find_victim ps l else None) with
      | Some p => evict p n
      | None => alloc_block n
      end
  end.

Definition cache_release (p : nat) : M St unit :=
  upd p (with_acquired false) ;;
  modify (set_head (λ l, p :: filter (λ q, q ≠ p) l)) ;;
  post_lock p.

(** The members of the header in use. *)
Definition logged (h : LogHeader) : list Z := take (Z.to_nat (hnum h)) (hblk h).

(** [header.block_no[header.num_blocks++] = n]. *)
Definition push_header (n : Z) : M St unit :=
  h ← gets header;
  if hnum h <? LOG_MAX_SIZE then
    modify (set_header (λ h, mkLogHeader (u64 (hnum h + 1)) (<[Z.to_nat (hnum h) := n]> (hblk h))))
  else fault.

Definition cache_sync (ctx : option nat) (p : nat) : M St unit :=
  match ctx with
  | Some c =>
      b ← block p;
      h ← gets header;
      if decide (block_no b ∈ logged h) then mret tt
      else
        push_header (block_no b) ;;
        upd p (with_pinned true) ;;
        cs ← gets ctxs;
        x ← deref (cs !! c);
        if 0 <? rm x then
          modify (set_ctxs (alter (λ x, mkOpContext (u64 (rm x - 1))) c)) ;;
          modify (set_log (λ g, mkLOG (committing g) (outstanding g) (i32 (op_reserved g - 1))))
        else panic
  | None => device_write p
  end.

(** [memmove(to->data, from->data, BLOCK_SIZE)]. *)
Definition copy_data (to from : nat) : M St unit :=
  b ← block from; upd to (with_data (data b)).

Definition memset_zero (p : nat) : M St unit := upd p (with_data zero_block).

(** [p] is the locked handle of block [n]. *)
Definition ptr (s : St) (p : nat) (n : Z) : Prop :=
  ∃ b, pool s !! p = Some b ∧ block_no b = n ∧ acquired b = true.

(** Nothing but the cached blocks and their order changed. *)
Definition same_rest (s s' : St) : Prop :=
  header s' = header s ∧ log s' = log s ∧ swap_valid s' = swap_valid s ∧ ctxs s' = ctxs s ∧
  disk s' = disk s ∧ writes s' = writes s.

Definition fupd (v : Z → list Z) (n : Z) (d : list Z) : Z → list Z :=
  λ m, if decide (m = n) then d else v m.

Lemma same_rest_refl s : same_rest s s.
Proof. by split_and!. Qed.
Lemma same_rest_trans s1 s2 s3 : same_rest s1 s2 → same_rest s2 s3 → same_rest s1 s3.
Proof. intros (?&?&?&?&?&?) (?&?&?&?&?&?). split_and!; congruence. Qed.
#[export] Hint Resolve same_rest_refl : kernel.
#[export] Hint Resolve same_rest_trans : kernel.

Lemma fupd_eq v n d : fupd v n d n = d.
Proof. unfold fupd. by rewrite decide_True. Qed.
Lemma fupd_ne v n d m : m ≠ n → fupd v n d m = v m.
Proof. intros H. unfold fupd. by rewrite decide_False. Qed.
Lemma fupd_id v n d m : d = v n → fupd v n d m = v m.
Proof. intros ->. unfold fupd. by case_decide; subst. Qed.

Lemma same_rest_pool f s : same_rest s (set_pool f s).
Proof. by split_and!. Qed.
#[export] Hint Resolve same_rest_pool : kernel.

(** ** The contract

    [L] is the block of the log header, which is read and written around the
    cache: no cached block has its number, and [v L] means nothing. *)

Section contract.
Context (L : Z).

Record wf (s : St) : Prop := {
  wf_head : NoDup (head s);
  wf_pool : ∀ p, p ∈ head s ↔ (p < length (pool s))%nat;
  wf_nos : ∀ p q b c, pool s !! p = Some b → pool s !! q = Some c → block_no b = block_no c → p = q;
  wf_lock : ∀ p b, pool s !! p = Some b → lockval b = if acquired b then 0 else 1;
  wf_len : ∀ p b, pool s !! p = Some b → block_ok (data b);
  wf_disk : ∀ n bs, disk s !! n = Some bs → block_ok bs;
  wf_hdr : ∀ p b, pool s !! p = Some b → block_no b ≠ L;
}.

Record repr (s : St) (v : Z → list Z) (H P : gset Z) : Prop := {
  repr_wf : wf s;
  repr_block : ∀ p b, pool s !! p = Some b →
    data b = v (block_no b) ∧ (acquired b = true ↔ block_no b ∈ H) ∧
    (pinned b = true ↔ block_no b ∈ P);
  repr_cached : ∀ n, n ∈ H ∪ P → ∃ p b, pool s !! p = Some b ∧ block_no b = n;
  repr_disk : ∀ n, n ∉ H → n ∉ P → n ≠ L → v n = disk_get (disk s) n;
}.

(** ** Lemmas *)

#[export] Instance repr_proper :
  Proper (eq ==> pointwise_relation Z eq ==> eq ==> eq ==> iff) repr.
Proof.
  assert (Hx : ∀ s v v' H P, pointwise_relation Z eq v v' → repr s v H P → repr s v' H P).
  { intros s v v' H P E [W B C D]. split; [done| |done|].
    - intros p b Hp. rewrite <-(E (block_no b)). exact (B p b Hp).
    - intros n Hn Hn' HL. rewrite <-(E n). by apply D. }
  intros s s' <- v v' E H H' <- P P' <-. split; apply Hx; [done|by symmetry].
Qed.

Lemma repr_ext s v v' H P : (∀ n, v n = v' n) → repr s v H P → repr s v' H P.
Proof. intros E HR. by rewrite <-(E : pointwise_relation Z eq v v'). Qed.

Lemma disk_get_ok s n : wf s → block_ok (disk_get (disk s) n).
Proof.
  intros W. unfold disk_get. destruct (disk s !! n) eqn:E; simpl; [by eapply (wf_disk s W)|].
  apply zero_block_ok.
Qed.

Lemma repr_view_ok s v H P n : repr s v H P → n ≠ L → block_ok (v n).
Proof.
  intros R HL. destruct (decide (n ∈ H ∪ P)) as [Hn|Hn].
  - destruct (repr_cached s v H P R n Hn) as (p & b & Hp & <-).
    destruct (repr_block _ _ _ _ R p b Hp) as [<- _]. by eapply (wf_len s (repr_wf _ _ _ _ R)).
  - rewrite (repr_disk _ _ _ _ R) by set_solver. apply disk_get_ok. apply R.
Qed.

Lemma find_cached_Some ps n l p :
  find_cached ps n l = Some p → p ∈ l ∧ ∃ b, ps !! p = Some b ∧ block_no b = n.
Proof.
  unfold find_cached. destruct (list_find _ l) as [[i q]|] eqn:E; simpl; [|done].
  intros [= ->]. apply list_find_Some in E as (Hi & Hp & _). split; [by eapply list_elem_of_lookup_2|].
  destruct (ps !! p) as [b|]; simpl in Hp; [|done]. exists b. split; [done|congruence].
Qed.

Lemma find_cached_None ps n l p b :
  find_cached ps n l = None → p ∈ l → ps !! p = Some b → block_no b ≠ n.
Proof.
  unfold find_cached. destruct (list_find _ l) as [|] eqn:E; simpl; [done|]. intros _ Hp Hb Hn.
  apply list_find_None in E. rewrite Forall_forall in E. apply (E p Hp). by rewrite Hb, <-Hn.
Qed.

Lemma find_victim_Some ps l p :
  find_victim ps l = Some p → p ∈ l ∧ ∃ b, ps !! p = Some b ∧ pinned b = false ∧ acquired b = false.
Proof.
  unfold find_victim. destruct (list_find _ _) as [[i q]|] eqn:E; simpl; [|done].
  intros [= ->]. apply list_find_Some in E as (Hi & Hp & _). apply list_elem_of_lookup_2 in Hi.
  rewrite elem_of_reverse in Hi. split; [done|]. unfold evictable in Hp.
  destruct (ps !! p) as [b|]; [eauto|done].
Qed.

Lemma wp_block s p b (Q : Block → St → Prop) : pool s !! p = Some b → Q b s → wp (block p) Q s.
Proof. intros Hb HQ. apply wp_bind, wp_gets. by eapply wp_deref. Qed.

Lemma wp_upd s p b f (Q : unit → St → Prop) :
  pool s !! p = Some b → Q tt (set_pool (alter f p) s) → wp (upd p f) Q s.
Proof. intros Hb HQ. apply wp_bind. eapply wp_block; [done|]. by apply wp_modify. Qed.

Lemma lookup_alter_pool (ps : list Block) p b f :
  ps !! p = Some b → alter f p ps !! p = Some (f b).
Proof. intros Hb. by rewrite list_lookup_alter_eq, Hb. Qed.

Lemma wp_wait_lock s p b (Q : unit → St → Prop) :
  pool s !! p = Some b → lockval b = 1 →
  Q tt (set_pool (alter (with_lockval 0) p) s) → wp (wait_lock p) Q s.
Proof.
  intros Hb Hl HQ. apply wp_bind. eapply wp_block; [done|]. rewrite Hl.
  change (i32 (1 - 1)) with 0. cbn [Z.ltb]. by eapply wp_upd.
Qed.

(** A block that is locked already makes its second acquirer sleep. *)
Lemma wait_lock_asleep s p b :
  pool s !! p = Some b → lockval b = 0 → wait_lock p s = Fail Asleep.
Proof.
  intros Hb Hl. unfold wait_lock, block. rewrite !bind_run. cbn. rewrite Hb. cbn. by rewrite Hl.
Qed.

Lemma set_pool_pool f s : pool (set_pool f s) = f (pool s).
Proof. reflexivity. Qed.

(** Several field updates of one block are one update. *)
Lemma set_pool_alter f g p s :
  set_pool (alter g p) (set_pool (alter f p) s) = set_pool (alter (g ∘ f) p) s.
Proof. unfold set_pool. cbn. by rewrite list_alter_alter. Qed.

(** Replacing one unlocked block by a block [b'] of number [n]. *)
Lemma repr_replace s v H P p b b' n f :
  repr s v H P → pool s !! p = Some b → f b = b' → block_no b' = n →
  block_no b ∉ H → (block_no b = n ∨ block_no b ∉ P) →
  (∀ q c, pool s !! q = Some c → block_no c = n → q = p) → n ∉ H → n ≠ L →
  data b' = v n → acquired b' = true → lockval b' = 0 → (pinned b' = true ↔ n ∈ P) →
  repr (set_pool (alter f p) s) v ({[n]} ∪ H) P ∧
  ptr (set_pool (alter f p) s) p n ∧
  (∀ q m, ptr s q m → ptr (set_pool (alter f p) s) q m).
Proof.
  intros R Hp Hf Hno HbH HbP Huniq HnH HL Hdata Hacq Hlock Hpin.
  pose proof (repr_wf _ _ _ _ R) as W.
  assert (Hlk : ∀ q, alter f p (pool s) !! q = if decide (q = p) then Some b' else pool s !! q).
  { intros q. case_decide; subst; [by apply lookup_alter_pool|]. by rewrite list_lookup_alter_ne. }
  assert (Hwf : wf (set_pool (alter f p) s)).
  { split; cbn; try apply W.
    - intros q. rewrite length_alter. apply W.
    - intros q r c d. rewrite !Hlk. repeat case_decide; subst; [done|..].
      + intros [= <-] Hd E. symmetry. by eapply Huniq.
      + intros Hc [= <-] E. by eapply Huniq.
      + apply (wf_nos s W).
    - intros q c. rewrite Hlk. case_decide; [|apply (wf_lock s W)].
      intros [= <-]. by rewrite Hacq.
    - intros q c. rewrite Hlk. case_decide; [|apply (wf_len s W)].
      intros [= <-]. rewrite Hdata. by eapply repr_view_ok.
    - intros q c. rewrite Hlk. case_decide; [|apply (wf_hdr s W)]. intros [= <-]. congruence. }
  assert (Hne : ∀ q c, q ≠ p → pool s !! q = Some c → block_no c ≠ n) by eauto.
  split; [split|split].
  - done.
  - intros q c. cbn. rewrite Hlk. case_decide as D.
    + intros [= <-]. rewrite Hno, Hacq. split_and!; [done|set_solver|done].
    + intros Hq. destruct (repr_block _ _ _ _ R q c Hq) as (?&?&?).
      specialize (Hne q c D Hq). split_and!; [done|set_solver|done].
  - intros m Hm. destruct (decide (m = n)) as [->|Hmn].
    { exists p, b'. cbn. by rewrite Hlk, decide_True. }
    destruct (repr_cached _ _ _ _ R m) as (q & c & Hq & <-); [set_solver|].
    exists q, c. cbn. rewrite Hlk, decide_False; [done|]. intros ->. simplify_eq. set_solver.
  - intros m Hm Hm' HmL. cbn. apply (repr_disk _ _ _ _ R); set_solver.
  - exists b'. cbn. by rewrite Hlk, decide_True.
  - intros q m (c & Hq & Hc & Ha). exists c. cbn. rewrite Hlk, decide_False; [done|].
    intros ->. simplify_eq. destruct (repr_block _ _ _ _ R _ _ Hp) as (_ & [Hh _] & _). set_solver.
Qed.

(** A new unlocked block of an uncached number, reading as the disk does. *)
Lemma repr_append s v H P n b :
  repr s v H P → (∀ q c, pool s !! q = Some c → block_no c ≠ n) → n ∉ H → n ≠ L →
  block_no b = n → acquired b = false → pinned b = false → lockval b = 1 → data b = v n →
  repr (set_head (cons (length (pool s))) (set_pool (λ ps, ps ++ [b]) s)) v H P ∧
  (∀ q m, ptr s q m → ptr (set_head (cons (length (pool s))) (set_pool (λ ps, ps ++ [b]) s)) q m).
Proof.
  intros R Hnew HnH HL Hno Hacq Hpin Hlock Hdata. pose proof (repr_wf _ _ _ _ R) as W.
  set (s' := set_head _ _).
  assert (Hlk : ∀ q c, pool s' !! q = Some c → pool s !! q = Some c ∨ (q = length (pool s) ∧ c = b)).
  { intros q c Hq. cbn in Hq. apply lookup_snoc_Some in Hq. naive_solver. }
  assert (HnP : n ∉ P).
  { intros Hn. destruct (repr_cached _ _ _ _ R n) as (q & c & Hq & Hc); [set_solver|]. by eapply Hnew. }
  assert (Hold : ∀ q c, pool s !! q = Some c → pool s' !! q = Some c) by
    (intros; by apply lookup_app_l_Some).
  split; [split|].
  - split; cbn; try apply W.
    + apply NoDup_cons. split; [|apply W]. rewrite (wf_pool s W). lia.
    + intros q. rewrite elem_of_cons, (wf_pool s W), length_app. simpl. lia.
    + intros q r c d [Hq|[-> ->]]%Hlk [Hr|[-> ->]]%Hlk E.
      * by eapply (wf_nos s W).
      * exfalso. eapply Hnew; [exact Hq|congruence].
      * exfalso. eapply Hnew; [exact Hr|congruence].
      * done.
    + intros q c [Hq|[-> ->]]%Hlk; [by eapply (wf_lock s W)|]. by rewrite Hacq.
    + intros q c [Hq|[-> ->]]%Hlk; [by eapply (wf_len s W)|]. rewrite Hdata. by eapply repr_view_ok.
    + intros q c [Hq|[-> ->]]%Hlk; [by eapply (wf_hdr s W)|]. congruence.
  - intros q c [Hq|[-> ->]]%Hlk; [by eapply (repr_block _ _ _ _ R)|].
    rewrite Hno, Hacq, Hpin. split_and!; [done|naive_solver..].
  - intros m Hm. destruct (repr_cached _ _ _ _ R m Hm) as (q & c & Hq & Hc). eauto.
  - apply R.
  - intros q m (c & Hq & Hc). exists c. auto.
Qed.

Lemma alter_snoc (ps : list Block) b f : alter f (length ps) (ps ++ [b]) = ps ++ [f b].
Proof. induction ps as [|c ps IH]; simpl; [done|]. f_equal. exact IH. Qed.

Lemma lookup_snoc_here (ps : list Block) b : (ps ++ [b]) !! length ps = Some b.
Proof. by apply list_lookup_middle. Qed.

Definition disk_block (n : Z) (s : St) : Block := mkBlock n false false false 1 (disk_get (disk s) n).

Lemma wp_device_read s p b (Q : unit → St → Prop) :
  pool s !! p = Some b →
  Q tt (set_pool (alter (with_data (disk_get (disk s) (block_no b))) p) s) →
  wp (device_read p) Q s.
Proof.
  intros Hb HQ. apply wp_bind. eapply wp_block; [done|]. apply wp_bind, wp_gets. by eapply wp_upd.
Qed.

Lemma wp_alloc_block n s (Q : nat → St → Prop) :
  Q (length (pool s))
    (set_pool (alter (with_valid true ∘ with_lockval 0 ∘ with_acquired true) (length (pool s)))
       (set_head (cons (length (pool s))) (set_pool (λ ps, ps ++ [disk_block n s]) s))) →
  wp (alloc_block n) Q s.
Proof.
  intros HQ. unfold alloc_block. set (N := length (pool s)) in *.
  apply wp_bind, wp_gets, wp_bind, wp_modify. fold N.
  set (s1 := set_pool _ s). assert (H1 : pool s1 !! N = Some init_block) by apply lookup_snoc_here.
  apply wp_bind. eapply wp_upd; [exact H1|]. apply wp_bind, wp_modify.
  set (s2 := set_head _ _).
  assert (H2 : pool s2 !! N = Some (with_block_no n init_block)) by by apply lookup_alter_pool.
  apply wp_bind. eapply wp_upd; [exact H2|]. apply lookup_alter_pool with (f := with_acquired true) in H2.
  apply wp_bind. eapply wp_wait_lock; [exact H2|done|].
  apply lookup_alter_pool with (f := with_lockval 0) in H2.
  apply wp_bind. eapply wp_device_read; [exact H2|].
  apply lookup_alter_pool with (f := with_data (disk_get (disk s) n)) in H2.
  apply wp_bind. eapply wp_upd; [exact H2|]. apply wp_ret.
  match goal with |- Q _ ?x => match type of HQ with Q _ ?y => replace x with y; [exact HQ|] end end.
  unfold s2, s1, set_pool, set_head. cbn. f_equal. unfold N. by rewrite !alter_snoc.
Qed.

(** What acquiring guarantees: [n] is locked, its handle reads [v n], every
    other handle is undisturbed, and nothing else moved. *)
Definition acquired_post (s : St) (v : Z → list Z) (H P : gset Z) (n : Z) (p : nat) (s' : St) : Prop :=
  repr s' v ({[n]} ∪ H) P ∧ ptr s' p n ∧ (∀ q m, ptr s q m → ptr s' q m) ∧ same_rest s s'.

Lemma uncached_clean s v H P n :
  repr s v H P → n ∉ H → n ≠ L → (∀ q c, pool s !! q = Some c → block_no c ≠ n) →
  n ∉ P ∧ v n = disk_get (disk s) n.
Proof.
  intros R HnH HL Hnew. assert (n ∉ P).
  { intros Hn. destruct (repr_cached _ _ _ _ R n) as (q & c & Hq & Hc); [set_solver|]. by eapply Hnew. }
  split; [done|]. by apply (repr_disk _ _ _ _ R).
Qed.

Lemma acquire_hit s v H P n p b :
  repr s v H P → n ∉ H → n ≠ L → pool s !! p = Some b → block_no b = n →
  wp (upd p (with_acquired true) ;; wait_lock p ;; mret p) (acquired_post s v H P n) s.
Proof.
  intros R HnH HL Hp Hn. pose proof (repr_wf _ _ _ _ R) as W.
  destruct (repr_block _ _ _ _ R p b Hp) as (Hd & Ha & Hpin).
  assert (Hacq : acquired b = false) by (destruct (acquired b); [naive_solver|done]).
  pose proof (wf_lock s W p b Hp) as Hl. rewrite Hacq in Hl.
  apply wp_bind. eapply wp_upd; [done|].
  apply wp_bind. eapply wp_wait_lock; [by apply lookup_alter_pool|done|]. rewrite set_pool_alter.
  apply wp_ret. unfold acquired_post.
  destruct (repr_replace s v H P p b (with_lockval 0 (with_acquired true b)) n
              (with_lockval 0 ∘ with_acquired true) R Hp eq_refl Hn) as (? & ? & ?);
    cbn; try done; try congruence.
  - by left.
  - intros q c Hq Hc. eapply (wf_nos s W); [exact Hq|exact Hp|congruence].
Qed.

Lemma acquire_evict s v H P n p b :
  repr s v H P → n ∉ H → n ≠ L → (∀ q c, pool s !! q = Some c → block_no c ≠ n) →
  pool s !! p = Some b → pinned b = false → acquired b = false →
  wp (evict p n) (acquired_post s v H P n) s.
Proof.
  intros R HnH HL Hnew Hp Hpin Hacq. pose proof (repr_wf _ _ _ _ R) as W.
  destruct (repr_block _ _ _ _ R p b Hp) as (Hd & Ha & Hpn).
  destruct (uncached_clean _ _ _ _ _ R HnH HL Hnew) as [HnP Hv].
  pose proof (wf_lock s W p b Hp) as Hl. rewrite Hacq in Hl.
  apply wp_bind. eapply wp_upd; [done|].
  apply wp_bind. eapply wp_upd; [by apply lookup_alter_pool|]. rewrite set_pool_alter.
  apply wp_bind. eapply wp_wait_lock; [by apply lookup_alter_pool|done|]. rewrite set_pool_alter.
  apply wp_bind. eapply wp_device_read; [by apply lookup_alter_pool|]. rewrite set_pool_alter.
  apply wp_ret. unfold acquired_post. cbn [block_no with_lockval with_acquired with_block_no compose].
  destruct (repr_replace s v H P p b
              (mkBlock n true (pinned b) (valid b) 0 (disk_get (disk s) n)) n
              (with_data (disk_get (disk s) n) ∘ (with_lockval 0 ∘ (with_acquired true ∘ with_block_no n)))
              R Hp eq_refl eq_refl) as (? & ? & ?);
    cbn; try done; try congruence.
  - rewrite <-Ha. congruence.
  - right. rewrite <-Hpn. congruence.
  - intros q c Hq Hc. destruct (Hnew q c Hq Hc).
  - rewrite Hpin. naive_solver.
Qed.

Lemma acquire_new s v H P n :
  repr s v H P → n ∉ H → n ≠ L → (∀ q c, pool s !! q = Some c → block_no c ≠ n) →
  wp (alloc_block n) (acquired_post s v H P n) s.
Proof.
  intros R HnH HL Hnew. destruct (uncached_clean _ _ _ _ _ R HnH HL Hnew) as [HnP Hv].
  apply wp_alloc_block.
  destruct (repr_append s v H P n (disk_block n s) R Hnew HnH HL) as [R' Hptr]; try done.
  set (s' := set_head _ _) in *.
  assert (Hp : pool s' !! length (pool s) = Some (disk_block n s)) by apply lookup_snoc_here.
  pose proof (repr_wf _ _ _ _ R') as W'.
  destruct (repr_replace s' v H P _ _ _ n
              (with_valid true ∘ with_lockval 0 ∘ with_acquired true) R' Hp eq_refl eq_refl)
    as (R1 & P1 & F1); cbn; try done.
  - by left.
  - intros q c Hq Hc. by eapply (wf_nos s' W').
  - unfold acquired_post. split_and!; auto. by split_and!.
Qed.

(** [cache_acquire] of a block nobody holds returns its locked handle,
    reading what the cache promised for it, whether it was cached, took over an
    evicted block or was allocated. *)
Lemma cache_acquire_spec s v H P n :
  repr s v H P → n ∉ H → n ≠ L → wp (cache_acquire n) (acquired_post s v H P n) s.
Proof.
  intros R HnH HL. pose proof (repr_wf _ _ _ _ R) as W. unfold cache_acquire.
  apply wp_bind, wp_gets, wp_bind, wp_gets.
  destruct (find_cached (pool s) n (head s)) as [p|] eqn:E.
  - apply find_cached_Some in E as (_ & b & Hp & Hn). by eapply acquire_hit.
  - assert (Hnew : ∀ q c, pool s !! q = Some c → block_no c ≠ n).
    { intros q c Hq. eapply find_cached_None; [exact E| |exact Hq].
      apply (wf_pool s W). by eapply lookup_lt_Some. }
    apply wp_bind, wp_bind, wp_gets, wp_ret.
    destruct (_ <=? _); [|by apply acquire_new].
    destruct (find_victim (pool s) (head s)) as [p|] eqn:Ev; [|by apply acquire_new].
    apply find_victim_Some in Ev as (_ & b & Hp & Hpin & Hacq). by eapply acquire_evict.
Qed.

(** Updating the block behind a locked handle, number and lock unchanged. *)
Lemma ptr_lookup s p n q c m :
  wf s → ptr s p n → pool s !! q = Some c → block_no c = m → q ≠ p → m ≠ n.
Proof.
  intros W (b & Hb & Hn & _) Hq Hm Hqp ->. apply Hqp. eapply (wf_nos s W); [exact Hq|exact Hb|congruence].
Qed.

(** One update of a cached block, its number unchanged: what the new block
    must satisfy for the new view, locked set and pinned set. *)
Lemma repr_alter s v H P p b n f v' H' P' :
  repr s v H P → pool s !! p = Some b → block_no b = n → block_no (f b) = n →
  lockval (f b) = (if acquired (f b) then 0 else 1) → block_ok (data (f b)) →
  data (f b) = v' n → (acquired (f b) = true ↔ n ∈ H') → (pinned (f b) = true ↔ n ∈ P') →
  (∀ m, m ≠ n → v' m = v m ∧ (m ∈ H' ↔ m ∈ H) ∧ (m ∈ P' ↔ m ∈ P)) →
  n ∈ H' ∨ n ∈ P' ∨ v' n = disk_get (disk s) n →
  repr (set_pool (alter f p) s) v' H' P'.
Proof.
  intros R Hp Hn Hfn Hfl Hfok Hfd Hfa Hfp Hother Hclean. pose proof (repr_wf _ _ _ _ R) as W.
  assert (Hlk : ∀ q, alter f p (pool s) !! q = if decide (q = p) then Some (f b) else pool s !! q).
  { intros q. case_decide; subst; [by apply lookup_alter_pool|]. by rewrite list_lookup_alter_ne. }
  assert (Hne : ∀ q c, q ≠ p → pool s !! q = Some c → block_no c ≠ n).
  { intros q c Hqp Hq Hc. apply Hqp. eapply (wf_nos s W); [exact Hq|exact Hp|congruence]. }
  split; [split; cbn; try apply W| | |].
  - intros q. rewrite length_alter. apply W.
  - intros q r c e. rewrite !Hlk. repeat case_decide; subst; [done|..].
    + intros [= <-] He E. symmetry. eapply (wf_nos s W); [exact He|exact Hp|congruence].
    + intros Hc [= <-] E. eapply (wf_nos s W); [exact Hc|exact Hp|congruence].
    + apply (wf_nos s W).
  - intros q c. rewrite Hlk. case_decide; [by intros [= <-]|apply (wf_lock s W)].
  - intros q c. rewrite Hlk. case_decide; [by intros [= <-]|apply (wf_len s W)].
  - intros q c. rewrite Hlk. case_decide; [|apply (wf_hdr s W)].
    intros [= <-]. rewrite Hfn, <-Hn. exact (wf_hdr s W p b Hp).
  - intros q c. cbn. rewrite Hlk. case_decide as D.
    + intros [= <-]. rewrite Hfn. by split_and!.
    + intros Hq. destruct (repr_block _ _ _ _ R q c Hq) as (?&?&?).
      destruct (Hother (block_no c)) as (->&->&->); [by eapply Hne|]. done.
  - intros m Hm. destruct (decide (m = n)) as [->|Hmn].
    { exists p, (f b). cbn. by rewrite Hlk, decide_True. }
    destruct (repr_cached _ _ _ _ R m) as (q & c & Hq & Hc).
    { destruct (Hother m Hmn) as (_ & ? & ?). set_solver. }
    exists q, c. cbn. rewrite Hlk, decide_False; [done|]. naive_solver.
  - intros m HmH HmP HmL. cbn. destruct (decide (m = n)) as [->|Hmn]; [naive_solver|].
    destruct (Hother m Hmn) as (-> & HH & HP). apply (repr_disk _ _ _ _ R); tauto.
Qed.

Lemma repr_head s v H P l :
  repr s v H P → NoDup l → (∀ p, p ∈ l ↔ p ∈ head s) → repr (set_head (λ _, l) s) v H P.
Proof.
  intros R Hnd Hl. pose proof (repr_wf _ _ _ _ R) as W. split; try apply R.
  split; cbn; try apply W; [done|]. intros p. rewrite Hl. apply W.
Qed.

(** Other handles are not affected, nor is this one while it stays locked. *)
Lemma ptr_alter s p b f q m :
  pool s !! p = Some b → block_no (f b) = block_no b → q ≠ p ∨ acquired (f b) = true →
  ptr s q m → ptr (set_pool (alter f p) s) q m.
Proof.
  intros Hp Hfn Hf (c & Hq & Hc & Ha). destruct (decide (q = p)) as [->|D].
  - exists (f b). cbn. rewrite (lookup_alter_pool _ _ b) by done. naive_solver.
  - exists c. cbn. by rewrite list_lookup_alter_ne.
Qed.

(** [cache_release] of a handle whose content is on disk, or pinned, gives the
    block back: it is unlocked and still reads the same. *)
Lemma cache_release_spec s v H P p n :
  repr s v H P → ptr s p n → n ∈ P ∨ v n = disk_get (disk s) n →
  wp (cache_release p)
     (λ _ s', repr s' v (H ∖ {[n]}) P ∧ (∀ q m, m ≠ n → ptr s q m → ptr s' q m) ∧
              same_rest s s') s.
Proof.
  intros R Hptr Hclean. pose proof (repr_wf _ _ _ _ R) as W.
  pose proof Hptr as (b & Hp & Hn & Ha).
  destruct (repr_block _ _ _ _ R p b Hp) as (Hd & HaH & Hpin).
  pose proof (wf_lock s W p b Hp) as Hl. rewrite Ha in Hl.
  unfold cache_release. apply wp_bind. eapply wp_upd; [done|]. apply wp_bind, wp_modify.
  apply wp_bind. eapply wp_block; [by apply lookup_alter_pool|]. cbn [lockval with_acquired].
  rewrite Hl. change (i32 (0 + 1)) with 1. eapply wp_upd; [by apply lookup_alter_pool|].
  set (l := p :: filter (λ q, q ≠ p) (head s)).
  change (set_pool (alter _ p) _)
    with (set_head (λ _, l) (set_pool (alter (with_lockval 1) p) (set_pool (alter (with_acquired false) p) s))).
  rewrite set_pool_alter. split; [|split].
  - apply repr_head.
    + eapply (repr_alter s v H P p b n); cbn; try done.
      * by eapply (wf_len s W).
      * by rewrite <-Hn.
      * set_solver.
      * by rewrite <-Hn.
      * set_solver.
      * naive_solver.
    + apply NoDup_cons. split; [|by apply NoDup_filter, W]. rewrite list_elem_of_filter. tauto.
    + intros q. cbn. unfold l. rewrite elem_of_cons, list_elem_of_filter, !(wf_pool s W).
      pose proof (lookup_lt_Some _ _ _ Hp). destruct (decide (q = p)); naive_solver.
  - intros q m Hm Hq. eapply (ptr_alter s p b (with_lockval 1 ∘ with_acquired false)); [done..| |done].
    left. intros ->. destruct Hq as (c & Hc & ? & _). naive_solver.
  - by split_and!.
Qed.

(** Writing through a handle. *)
Lemma write_spec s v H P p n d :
  repr s v H P → ptr s p n → block_ok d →
  wp (upd p (with_data d))
     (λ _ s', repr s' (fupd v n d) H P ∧ (∀ q m, ptr s q m → ptr s' q m) ∧ same_rest s s') s.
Proof.
  intros R Hptr Hok. pose proof (repr_wf _ _ _ _ R) as W. pose proof Hptr as (b & Hp & Hn & Ha).
  destruct (repr_block _ _ _ _ R p b Hp) as (Hd & HaH & Hpin). rewrite Hn in HaH, Hpin.
  eapply wp_upd; [done|]. split; [|split; [|by split_and!]].
  - eapply (repr_alter s v H P p b n); cbn; try done.
    + exact (wf_lock s W p b Hp).
    + by rewrite fupd_eq.
    + intros m Hm. by rewrite fupd_ne.
    + left. tauto.
  - intros q m. eapply ptr_alter; [done..|]. by right.
Qed.

(** Reading through a handle. *)
Lemma block_spec s v H P p n (Q : Block → St → Prop) :
  repr s v H P → ptr s p n →
  (∀ b, block_no b = n → data b = v n → Q b s) → wp (block p) Q s.
Proof.
  intros R (b & Hp & Hn & Ha) HQ. eapply wp_block; [done|]. apply HQ; [done|].
  destruct (repr_block _ _ _ _ R p b Hp) as (-> & _). by rewrite Hn.
Qed.

(** [device_write] of a locked block puts what it reads on disk, and logs it. *)
Definition written (s s' : St) (n : Z) (d : list Z) : Prop :=
  header s' = header s ∧ log s' = log s ∧ swap_valid s' = swap_valid s ∧ ctxs s' = ctxs s ∧
  disk s' = <[n := d]> (disk s) ∧ writes s' = writes s ++ [(n, d)].

Lemma disk_get_insert d n bs m :
  disk_get (<[n:=bs]> d) m = if decide (m = n) then bs else disk_get d m.
Proof.
  unfold disk_get. case_decide; subst; [by rewrite lookup_insert_eq|by rewrite lookup_insert_ne].
Qed.

(** A write to the disk of a block some caller holds, or to a block number that
    stays consistent with it. *)
Lemma repr_disk_insert s v H P n d :
  repr s v H P → block_ok d → (n ∈ H ∨ n ∈ P ∨ n = L ∨ d = v n) →
  repr (set_disk (insert n d) [(n, d)] s) v H P.
Proof.
  intros R Hd Hn. pose proof (repr_wf _ _ _ _ R) as W. split; try apply R.
  - split; cbn; try apply W. intros m bs. destruct (decide (m = n)) as [->|].
    + rewrite lookup_insert_eq. by intros [= <-].
    + rewrite lookup_insert_ne by done. apply (wf_disk s W).
  - intros m HmH HmP HmL. cbn. rewrite disk_get_insert. case_decide as D.
    + subst. naive_solver.
    + by apply (repr_disk _ _ _ _ R).
Qed.

Lemma device_write_spec s v H P p n :
  repr s v H P → ptr s p n →
  wp (device_write p)
     (λ _ s', repr s' v H P ∧ (∀ q m, ptr s q m → ptr s' q m) ∧ written s s' n (v n)) s.
Proof.
  intros R Hptr. apply wp_bind. eapply block_spec; [done..|]. intros b Hn Hd.
  rewrite Hn, Hd. apply wp_modify. split; [|split].
  - apply repr_disk_insert; [done| |auto]. eapply repr_view_ok; [done|].
    destruct Hptr as (c & Hp & <- & _). by eapply (wf_hdr s (repr_wf _ _ _ _ R)).
  - intros q m Hq. exact Hq.
  - by split_and!.
Qed.

(** Pinning and unpinning through a handle. *)
Definition pin_set (x : bool) (n : Z) (P : gset Z) : gset Z :=
  if x then {[n]} ∪ P else P ∖ {[n]}.

Lemma elem_of_pin_set x n P m : m ∈ pin_set x n P ↔ (if decide (m = n) then x = true else m ∈ P).
Proof. unfold pin_set. destruct x; case_decide; set_solver. Qed.

Lemma pin_spec s v H P p n x :
  repr s v H P → ptr s p n →
  wp (upd p (with_pinned x))
     (λ _ s', repr s' v H (pin_set x n P) ∧ (∀ q m, ptr s q m → ptr s' q m) ∧ same_rest s s') s.
Proof.
  intros R Hptr. pose proof (repr_wf _ _ _ _ R) as W. pose proof Hptr as (b & Hp & Hn & Ha).
  destruct (repr_block _ _ _ _ R p b Hp) as (Hd & HaH & Hpin). rewrite Hn in HaH, Hd.
  eapply wp_upd; [done|]. split; [|split; [|by split_and!]].
  - eapply (repr_alter s v H P p b n); cbn; try done.
    + exact (wf_lock s W p b Hp).
    + by eapply (wf_len s W).
    + by rewrite elem_of_pin_set, decide_True.
    + intros m Hm. by rewrite elem_of_pin_set, decide_False.
    + left. tauto.
  - intros q m. eapply ptr_alter; [done..|]. by right.
Qed.

(** A thread that acquires a block it already holds sleeps for ever. *)
Theorem cache_acquire_twice_sleeps s v H P n :
  repr s v H P → n ∈ H → cache_acquire n s = Fail Asleep.
Proof.
  intros R HnH. pose proof (repr_wf _ _ _ _ R) as W.
  destruct (repr_cached _ _ _ _ R n) as (p & b & Hp & Hn); [set_solver|].
  destruct (repr_block _ _ _ _ R p b Hp) as (_ & Ha & _).
  pose proof (wf_lock s W p b Hp) as Hl. rewrite (proj2 Ha) in Hl by congruence.
  unfold cache_acquire. rewrite !bind_run. cbn [gets]. rewrite bind_run. cbn [gets].
  destruct (find_cached (pool s) n (head s)) as [q|] eqn:E.
  - apply find_cached_Some in E as (_ & c & Hq & Hc).
    assert (q = p) as -> by (eapply (wf_nos s W); [exact Hq|exact Hp|congruence]).
    simplify_eq. unfold upd, block. rewrite !bind_run. cbn [gets]. rewrite Hp. cbn -[wait_lock].
    rewrite bind_run, (wait_lock_asleep _ p (with_acquired true b)); [done| |done].
    by apply lookup_alter_pool.
  - exfalso. eapply find_cached_None; [exact E| |exact Hp|exact Hn].
    apply (wf_pool s W). by eapply lookup_lt_Some.
Qed.

(** A cache of one block over an empty disk, for the examples. *)
Definition single (b : Block) (h : LogHeader) (g : LOG) (sw : list bool) (cs : list OpContext) : St :=
  mkSt [b] [0%nat] h g sw cs ∅ [].
Definition only (x : bool) (n : Z) : gset Z := if x then {[n]} else ∅.

Lemma repr_single b h g sw cs :
  lockval b = (if acquired b then 0 else 1) → block_ok (data b) → block_no b ≠ L →
  (acquired b || pinned b = true ∨ data b = zero_block) →
  repr (single b h g sw cs) (fupd (disk_get ∅) (block_no b) (data b))
    (only (acquired b) (block_no b)) (only (pinned b) (block_no b)).
Proof.
  intros Hl Hd HL Hz.
  assert (Hlk : ∀ p c, [b] !! p = Some c → p = 0%nat ∧ c = b).
  { intros [|p] c; cbn; [by intros [= <-]|done]. }
  unfold only. split; [split|..]; cbn.
  - apply NoDup_singleton.
  - intros p. rewrite list_elem_of_singleton. lia.
  - intros p q c d [-> ->]%Hlk [-> ->]%Hlk. done.
  - by intros p c [-> ->]%Hlk.
  - by intros p c [-> ->]%Hlk.
  - done.
  - by intros p c [-> ->]%Hlk.
  - intros p c [-> ->]%Hlk. rewrite fupd_eq. destruct (acquired b), (pinned b); set_solver.
  - intros n Hn. exists 0%nat, b. split; [done|]. destruct (acquired b), (pinned b); set_solver.
  - intros n HnH HnP _. destruct (decide (n = block_no b)) as [->|]; [|by apply fupd_ne].
    rewrite fupd_eq. destruct Hz as [Hz| ->]; [|done]. exfalso.
    destruct (acquired b), (pinned b); set_solver.
Qed.

(** ** The size of the cache *)

Lemma length_head s : wf s → length (head s) = length (pool s).
Proof.
  intros W. transitivity (length (seq 0 (length (pool s)))); [|apply length_seq].
  apply Permutation_length, NoDup_Permutation; [apply W|apply NoDup_seq|].
  intros p. rewrite (wf_pool s W), elem_of_seq. lia.
Qed.

Lemma find_victim_None s v H P :
  repr s v H P → find_victim (pool s) (head s) = None →
  (length (pool s) ≤ size (H ∪ P))%nat.
Proof.
  intros R E. pose proof (repr_wf _ _ _ _ R) as W. unfold find_victim in E.
  destruct (list_find _ _) as [|] eqn:E' in E; [done|]. clear E. apply list_find_None in E'.
  rewrite Forall_forall in E'.
  assert (Hbusy : ∀ p b, pool s !! p = Some b → block_no b ∈ H ∪ P).
  { intros p b Hp. destruct (repr_block _ _ _ _ R p b Hp) as (_ & Ha & Hpn).
    specialize (E' p). rewrite elem_of_reverse, (wf_pool s W) in E'.
    specialize (E' (lookup_lt_Some _ _ _ Hp)). unfold evictable in E'. rewrite Hp in E'.
    destruct (pinned b), (acquired b); set_solver. }
  rewrite <-(length_fmap block_no (pool s)), <-(size_list_to_set (C:=gset Z)).
  - apply subseteq_size. intros n. rewrite elem_of_list_to_set, list_elem_of_fmap.
    intros (b & -> & [p Hp]%list_elem_of_lookup). by eapply Hbusy.
  - apply NoDup_alt. intros i j n. rewrite !list_lookup_fmap.
    destruct (pool s !! i) as [b|] eqn:Ei, (pool s !! j) as [c|] eqn:Ej; try done.
    cbn. intros [= <-] [= Ec]. eapply (wf_nos s W); [exact Ei|exact Ej|done].
Qed.

(** [upd] and what is built from it keep the number of blocks. *)
Definition keeps_len {A} (m : M St A) : Prop :=
  ∀ s a s', m s = Ok (a, s') → length (pool s') = length (pool s).

Lemma keeps_len_bind {A B} (m : M St A) (f : A → M St B) :
  keeps_len m → (∀ a, keeps_len (f a)) → keeps_len (m ≫= f).
Proof.
  intros Hm Hf s b s' (a & s1 & E1 & E2)%bind_inv. etrans; [by eapply Hf|by eapply Hm].
Qed.
Lemma keeps_len_gets {A} (f : St → A) : keeps_len (gets f).
Proof. by intros s a s' [= _ <-]. Qed.
Lemma keeps_len_ret {A} (a : A) : keeps_len (mret a).
Proof. by intros s a' s' [= _ <-]. Qed.
Lemma keeps_len_deref {A} (o : option A) : keeps_len (deref o).
Proof. destruct o; [apply keeps_len_ret|by intros s a s'; cbn]. Qed.
Lemma keeps_len_block p : keeps_len (block p).
Proof. apply keeps_len_bind; [apply keeps_len_gets|]. intros. apply keeps_len_deref. Qed.
Lemma keeps_len_upd p f : keeps_len (upd p f).
Proof.
  apply keeps_len_bind; [apply keeps_len_block|]. intros _ s [] s' [= <-]. cbn. apply length_alter.
Qed.
Lemma keeps_len_wait p : keeps_len (wait_lock p).
Proof.
  apply keeps_len_bind; [apply keeps_len_block|]. intros b. cbv zeta.
  destruct (_ <? 0); [by intros s [] s'; cbn|apply keeps_len_upd].
Qed.
Lemma keeps_len_read p : keeps_len (device_read p).
Proof.
  apply keeps_len_bind; [apply keeps_len_block|]. intros b.
  apply keeps_len_bind; [apply keeps_len_gets|]. intros d. apply keeps_len_upd.
Qed.
#[local] Hint Resolve keeps_len_bind keeps_len_ret keeps_len_upd keeps_len_wait keeps_len_read : kernel.

(** The cache holds more than [EVICTION_THRESHOLD] blocks only as far as
    locked and pinned blocks force it to. *)
Theorem cache_acquire_size s v H P n :
  repr s v H P → n ∉ H → n ≠ L →
  wp (cache_acquire n)
     (λ _ s', Z.of_nat (length (head s')) ≤
              Z.max (Z.of_nat (length (head s)))
                    (Z.max EVICTION_THRESHOLD (Z.of_nat (size (H ∪ P)) + 1))) s.
Proof.
  intros R HnH HL. pose proof (repr_wf _ _ _ _ R) as W.
  destruct (cache_acquire_spec s v H P n R HnH HL) as (p & s' & E & R' & _).
  exists p, s'. split; [done|]. rewrite !length_head by (done || apply R'). revert E. unfold cache_acquire.
  rewrite !bind_run. cbn [gets]. rewrite bind_run. cbn [gets].
  destruct (find_cached _ _ _) as [q|]; [intros E|].
  - assert (length (pool s') = length (pool s)); [|lia].
    revert E. apply keeps_len_bind; auto with kernel.
  - unfold get_num_cached_blocks. rewrite !bind_run. cbn [gets mret M_ret].
    rewrite length_head by done.
    assert (Hnew : alloc_block n s = Ok (p, s') → length (pool s') = S (length (pool s))).
    { intros E. eapply (wp_Ok _ (λ _ s', length (pool s') = _)); [exact E|].
      apply wp_alloc_block. cbn. by rewrite length_alter, length_app, Nat.add_1_r. }
    destruct (EVICTION_THRESHOLD <=? _) eqn:Et; [|intros E; apply Z.leb_gt in Et; specialize (Hnew E); lia].
    destruct (find_victim _ _) as [q|] eqn:Ev; intros E.
    + assert (length (pool s') = length (pool s)); [|lia]. revert E. unfold evict.
      do 4 (apply keeps_len_bind; [auto with kernel|intros]); auto with kernel.
    + apply (find_victim_None _ _ _ _ R) in Ev. specialize (Hnew E). lia.
Qed.

(** [cache_acquire] of a block nobody holds succeeds, whether the block was
    cached, takes over the least recently used evictable buffer, or is
    allocated: the handle holds the content the contract promises for it, the
    block is locked, and every other block, handle and the disk are as before. *)
Theorem cache_acquire_correct s v H P n :
  repr s v H P → n ∉ H → n ≠ L →
  ∃ p s' b, cache_acquire n s = Ok (p, s') ∧ repr s' v ({[n]} ∪ H) P ∧
    pool s' !! p = Some b ∧ block_no b = n ∧ data b = v n ∧
    (∀ q m, ptr s q m → ptr s' q m) ∧ same_rest s s'.
Proof.
  intros R HnH HL. destruct (cache_acquire_spec s v H P n R HnH HL) as (p & s' & E & R' & (b & Hp & Hn & _) & Ht & Er).
  exists p, s', b. split_and!; try done. destruct (repr_block _ _ _ _ R' p b Hp) as [-> _]. by rewrite Hn.
Qed.

(** A block written outside a transaction: acquire, write, [cache_sync(NULL)],
    release. *)
Definition write_through (n : Z) (d : list Z) : M St unit :=
  p ← cache_acquire n;
  upd p (with_data d) ;;
  cache_sync None p ;;
  cache_release p.

(** It reaches the disk at once and is the only change the cache's clients
    and the disk see; the block is free again. *)
Theorem write_through_correct s v H P n d :
  repr s v H P → n ∉ H → n ≠ L → block_ok d →
  ∃ s', write_through n d s = Ok (tt, s') ∧ repr s' (fupd v n d) H P ∧
    disk s' = <[n := d]> (disk s) ∧ writes s' = writes s ++ [(n, d)] ∧ header s' = header s.
Proof.
  intros R HnH HL Hd. apply wp_unit. unfold write_through. apply wp_bind.
  eapply wp_mono; [by apply cache_acquire_spec|]. intros p s1 (R1 & Hp & _ & E1).
  apply wp_bind. eapply wp_mono; [by eapply write_spec|]. intros [] s2 (R2 & Ht & E2).
  apply wp_bind. eapply wp_mono; [eapply (device_write_spec s2); [done|by apply Ht]|].
  intros [] s3 (R3 & Ht3 & W). rewrite fupd_eq in W. destruct W as (Eh&_&_&_&Ed&Ew).
  eapply wp_mono; [eapply cache_release_spec; [exact R3|by apply Ht3, Ht|]|].
  - right. by rewrite Ed, disk_get_insert, decide_True, fupd_eq.
  - intros [] s4 (R4 & _ & E4). pose proof (same_rest_trans _ _ _ E1 E2) as (Eh'&_&_&_&Ed'&Ew').
    destruct E4 as (Eh4&_&_&_&Ed4&Ew4). split_and!; [|congruence..].
    replace H with (({[n]} ∪ H) ∖ {[n]}); [done|]. apply set_eq. set_solver.
Qed.

End contract.

(** ** Examples *)

Module CacheExamples.

Definition sixes : list Z := replicate (Z.to_nat BLOCK_SIZE) 6.
Lemma sixes_ok : block_ok sixes.
Proof. split; [apply length_replicate|]. apply Forall_replicate. unfold byte_ok. lia. Qed.

(** One cached block, number 100, free or locked; the log header is block 2. *)
Definition one (acq : bool) : St :=
  single (mkBlock 100 acq false true (if acq then 0 else 1) zero_block) (mkLogHeader 0 (replicate 63 0))
    (mkLOG false 0 0) (replicate 200 false) [].
Definition view : Z → list Z := fupd (disk_get ∅) 100 zero_block.

Lemma one_repr acq : repr 2 (one acq) view (only acq 100) ∅.
Proof.
  apply (repr_single 2 (mkBlock 100 acq false true (if acq then 0 else 1) zero_block));
    cbn; auto using zero_block_ok.
Qed.

Lemma cache_acquire_correct_witness :
  ∃ p s' b, cache_acquire 7 (one true) = Ok (p, s') ∧ repr 2 s' view ({[7]} ∪ {[100]}) ∅ ∧
    pool s' !! p = Some b ∧ block_no b = 7 ∧ data b = zero_block ∧
    (∀ q m, ptr (one true) q m → ptr s' q m) ∧ same_rest (one true) s'.
Proof. apply (cache_acquire_correct 2 (one true) view {[100]} ∅ 7 (one_repr true)); [|done]. by intros ?%elem_of_singleton. Defined.

Lemma write_through_correct_witness :
  ∃ s', write_through 7 sixes (one false) = Ok (tt, s') ∧ repr 2 s' (fupd view 7 sixes) ∅ ∅ ∧
    disk s' = <[7 := sixes]> ∅ ∧ writes s' = [(7, sixes)] ∧ header s' = header (one false).
Proof.
  apply (write_through_correct 2 (one false) view ∅ ∅ 7 sixes (one_repr false)); [apply not_elem_of_empty|done|].
  exact sixes_ok.
Defined.

Lemma cache_acquire_twice_sleeps_witness : cache_acquire 100 (one true) = Fail Asleep.
Proof. apply (cache_acquire_twice_sleeps 2 (one true) view {[100]} ∅ 100 (one_repr true)). by apply elem_of_singleton. Defined.

Lemma cache_acquire_size_witness :
  wp (cache_acquire 7) (λ _ s', Z.of_nat (length (head s')) ≤ 20) (one false).
Proof.
  destruct (cache_acquire_size 2 (one false) view ∅ ∅ 7 (one_repr false)) as (p & s' & E & Hle); [apply not_elem_of_empty|done|].
  exists p, s'. split; [exact E|]. revert Hle. unfold EVICTION_THRESHOLD.
  replace (size (∅ ∪ ∅ : gset Z)) with 0%nat by (by vm_compute). cbn. lia.
Defined.

End CacheExamples.
