(* ===== verification/FsLog.v ===== *)
(** * The write-ahead log

    The transaction half of [src/fs/cache.c]: opening, filling and closing an
    atomic operation, committing, and recovering after a crash.  The model is
    one thread; where C would sleep on [s1], [s2] or [s3] the attempt reports
    which.

    The theorems: an open operation never overruns the header
    ([cache_sync_spec]), a commit writes exactly the trace of a write-ahead log
    ([commit_spec]), and a crash anywhere in that trace, followed by
    [recover_from_log], leaves all the blocks of the operation old or all of
    them new ([commit_crash_atomic]). *)

From S2P Require Import Prelude FsLayout BlockCache.

Section log.
Context (sblock : SuperBlock).

(** ** Operations *)

Inductive begin_result := Entered | WaitCommit | WaitSpace.
Inductive end_result := Persisted | WaitPersist.

(** One turn of the loop of [cache_begin_op], a critical section of [log.lock]:
    the caller then sleeps on [s3] ([WaitCommit]) or [s1] ([WaitSpace]) and
    tries again, or is in ([Entered]). *)
Definition begin_attempt (c : nat) : M St begin_result :=
  g ← gets log;
  h ← gets header;
  if committing g then mret WaitCommit
  else if LOG_MAX_SIZE <? u64 (hnum h + op_reserved g + OP_MAX_NUM_BLOCKS) then mret WaitSpace
  else
    modify (set_log (λ g, mkLOG (committing g) (u32 (outstanding g + 1)) (op_reserved g))) ;;
    cs ← gets ctxs;
    deref (cs !! c) ;;
    modify (set_ctxs (alter (λ _, mkOpContext OP_MAX_NUM_BLOCKS) c)) ;;
    modify (set_log (λ g, mkLOG (committing g) (outstanding g) (i32 (op_reserved g + OP_MAX_NUM_BLOCKS)))) ;;
    mret Entered.

Definition cache_begin_op (c : nat) : M St unit :=
  r ← begin_attempt c;
  match r with Entered => mret tt | _ => fail Asleep end.

Definition write_header : M St unit :=
  h ← gets header; device_write_at (log_start sblock) (encode_header h).
Definition read_header : M St unit :=
  d ← gets disk; modify (set_header (λ _, decode_header (disk_get d (log_start sblock)))).

(** [sblock->log_start + tail + 1]. *)
Definition log_block (tail : Z) : Z := u64 (log_start sblock + tail + 1).

Definition header_block (tail : Z) : M St Z :=
  h ← gets header; deref (hblk h !! Z.to_nat tail).

Definition install_one (tail : Z) : M St unit :=
  from ← cache_acquire (log_block tail);
  n ← header_block tail;
  to ← cache_acquire n;
  copy_data to from ;;
  device_write to ;;
  upd to (with_pinned false) ;;
  cache_release from ;;
  cache_release to.

Definition install_trans : M St unit :=
  n ← gets (λ s, hnum (header s));
  for_each (zseq 0 n) install_one.

Definition write_log_one (tail : Z) : M St unit :=
  to ← cache_acquire (log_block tail);
  n ← header_block tail;
  from ← cache_acquire n;
  copy_data to from ;;
  device_write to ;;
  cache_release from ;;
  cache_release to.

Definition write_log : M St unit :=
  n ← gets (λ s, hnum (header s));
  for_each (zseq 0 n) write_log_one.

Definition clear_header : M St unit :=
  modify (set_header (λ h, mkLogHeader 0 (hblk h))).

Definition commit : M St unit :=
  n ← gets (λ s, hnum (header s));
  if 0 <? n then
    write_log ;; write_header ;; install_trans ;; clear_header ;; write_header
  else mret tt.

Definition recover_from_log : M St unit :=
  read_header ;; install_trans ;; clear_header ;; write_header.

(** [for (auto i = SWAP_START; i < SWAP_END; i++) swap_valid[i] = false;] *)
Definition clear_swap (i : Z) : M St unit :=
  l ← gets swap_valid;
  if i <? Z.of_nat (length l) then modify (set_swap (<[Z.to_nat i := false]>)) else fault.

Definition init_bcache : M St unit :=
  modify (set_head (λ _, [])) ;;
  modify (set_log (λ g, mkLOG false 0 (op_reserved g))) ;;
  recover_from_log ;;
  for_each (zseq SWAP_START SWAP_END) clear_swap.

(** [cache_end_op]: [WaitPersist] when other operations are open, in which case
    the caller sleeps on [s2] until the last of them has committed. *)
Definition cache_end_op (c : nat) : M St end_result :=
  cs ← gets ctxs;
  x ← deref (cs !! c);
  modify (set_log (λ g, mkLOG (committing g) (u32 (outstanding g - 1)) (i32 (op_reserved g - rm x)))) ;;
  g ← gets log;
  if outstanding g =? 0 then
    modify (set_log (λ g, mkLOG true (outstanding g) (op_reserved g))) ;;
    commit ;;
    modify (set_log (λ g, mkLOG false (outstanding g) (op_reserved g))) ;;
    mret Persisted
  else mret WaitPersist.

(** ** The reservation invariant *)

Abbreviation L := (log_start sblock).

Definition rm_of (cs : list OpContext) (c : nat) : Z :=
  match cs !! c with Some x => rm x | None => 0 end.
Definition reserved (cs : list OpContext) (O : list nat) : Z :=
  foldr (λ c z, rm_of cs c + z) 0 O.

(** [O] are the open operations, [P] the pinned blocks. *)
Record logok (s : St) (P : gset Z) (O : list nat) : Prop := {
  lo_len : length (hblk (header s)) = Z.to_nat LOG_MAX_SIZE;
  lo_num : 0 ≤ hnum (header s) ≤ LOG_MAX_SIZE;
  lo_uint : Forall (uint 8) (hblk (header s));
  lo_nodup : NoDup (logged (header s));
  lo_pin : ∀ n, n ∈ P ↔ n ∈ logged (header s);
  lo_open : NoDup O;
  lo_out : outstanding (log s) = Z.of_nat (length O);
  lo_ctxs : Z.of_nat (length (ctxs s)) < 2 ^ 31;
  lo_rm : ∀ c, c ∈ O → (c < length (ctxs s))%nat ∧ 0 ≤ rm_of (ctxs s) c ≤ OP_MAX_NUM_BLOCKS;
  lo_res : op_reserved (log s) = reserved (ctxs s) O;
  lo_space : hnum (header s) + op_reserved (log s) ≤ LOG_MAX_SIZE;
}.

(** ** Lemmas on the invariant *)

Lemma repr_same s s' v H P :
  pool s' = pool s → head s' = head s → disk s' = disk s →
  repr L s v H P → repr L s' v H P.
Proof.
  intros Ep Eh Ed R. destruct R as [W B C D]. split; rewrite ?Ep, ?Ed; [|done..].
  destruct W. split; rewrite ?Ep, ?Eh, ?Ed; done.
Qed.

Lemma ptr_same s s' p n : pool s' = pool s → ptr s p n → ptr s' p n.
Proof. unfold ptr. by intros ->. Qed.

Lemma reserved_nonneg cs O : (∀ c, c ∈ O → 0 ≤ rm_of cs c) → 0 ≤ reserved cs O.
Proof.
  induction O as [|c O IH]; intros Hc; simpl; [lia|].
  assert (0 ≤ rm_of cs c) by (apply Hc; set_solver).
  assert (0 ≤ reserved cs O) by (apply IH; intros; apply Hc; set_solver). lia.
Qed.

Lemma reserved_ext cs cs' O : (∀ c, c ∈ O → rm_of cs' c = rm_of cs c) → reserved cs' O = reserved cs O.
Proof.
  induction O as [|c O IH]; intros Hc; simpl; [done|].
  rewrite (Hc c) by set_solver. rewrite IH; [done|]. intros; apply Hc; set_solver.
Qed.

Lemma rm_of_alter cs c x c' :
  (c < length cs)%nat →
  rm_of (alter (λ _, x) c cs) c' = if decide (c' = c) then rm x else rm_of cs c'.
Proof.
  intros Hc. unfold rm_of. case_decide as D; subst.
  - rewrite list_lookup_alter_eq. apply lookup_lt_is_Some in Hc as [y ->]. done.
  - by rewrite list_lookup_alter_ne.
Qed.

Lemma reserved_alter cs c x O :
  NoDup O → c ∈ O → (c < length cs)%nat →
  reserved (alter (λ _, x) c cs) O = reserved cs O - rm_of cs c + rm x.
Proof.
  induction O as [|c' O IH]; intros Hnd Hc Hl; [set_solver|]. apply NoDup_cons in Hnd as [Hn Hnd]. simpl.
  rewrite rm_of_alter by done. case_decide as D.
  - subst. rewrite (reserved_ext cs); [lia|]. intros c' Hc'. rewrite rm_of_alter by done.
    case_decide; [by subst|done].
  - rewrite IH by (try done; set_solver). lia.
Qed.

Lemma filter_all (Q : nat → Prop) `{!∀ x, Decision (Q x)} (l : list nat) :
  (∀ x, x ∈ l → Q x) → filter Q l = l.
Proof.
  induction l as [|x l IH]; intros Hl; [done|]. rewrite filter_cons, decide_True by (apply Hl; set_solver).
  f_equal. apply IH. intros; apply Hl; set_solver.
Qed.

Lemma reserved_remove cs c O :
  NoDup O → c ∈ O → reserved cs (filter (λ d, d ≠ c) O) = reserved cs O - rm_of cs c.
Proof.
  induction O as [|d O IH]; intros Hnd Hc; [set_solver|]. apply NoDup_cons in Hnd as [Hn Hnd].
  rewrite filter_cons. case_decide as D; simpl.
  - rewrite IH by (try done; set_solver). lia.
  - assert (d = c) as -> by tauto. rewrite filter_all; [lia|]. intros e He ->. done.
Qed.

Lemma reserved_le cs O c : (∀ c, c ∈ O → 0 ≤ rm_of cs c) → c ∈ O → rm_of cs c ≤ reserved cs O.
Proof.
  induction O as [|d O IH]; intros Hp Hc; [set_solver|]. simpl.
  assert (0 ≤ reserved cs O) by (apply reserved_nonneg; intros; apply Hp; set_solver).
  assert (0 ≤ rm_of cs d) by (apply Hp; set_solver).
  apply elem_of_cons in Hc as [->|Hc]; [lia|].
  assert (rm_of cs c ≤ reserved cs O) by (apply IH; [intros; apply Hp|]; set_solver). lia.
Qed.

Lemma logok_res_bounds s P O c :
  logok s P O → c ∈ O → 0 ≤ rm_of (ctxs s) c ≤ op_reserved (log s) ∧ op_reserved (log s) ≤ 63.
Proof.
  intros K Hc. pose proof (lo_space _ _ _ K). pose proof (lo_num _ _ _ K).
  destruct (lo_rm _ _ _ K c Hc) as [_ ?]. lconst. rewrite (lo_res _ _ _ K) in *.
  pose proof (reserved_le (ctxs s) O c). specialize (H2 (λ d Hd, proj1 (proj2 (lo_rm _ _ _ K d Hd))) Hc). lia.
Qed.

Lemma logok_length_open s P O : logok s P O → (length O ≤ length (ctxs s))%nat.
Proof.
  intros K. rewrite <-(length_seq (length (ctxs s)) 0). apply submseteq_length, NoDup_submseteq.
  - apply K.
  - intros c Hc. apply elem_of_seq. destruct (lo_rm _ _ _ K c Hc). lia.
Qed.

Lemma reserved_cons cs c O : reserved cs (c :: O) = rm_of cs c + reserved cs O.
Proof. reflexivity. Qed.
#[local] Arguments reserved : simpl never.
#[local] Arguments rm_of : simpl never.

(** ** Traces of device writes *)

Definition fapply (v : Z → list Z) (ws : list (Z * list Z)) : Z → list Z :=
  foldl (λ v w, fupd v w.1 w.2) v ws.
Definition dapply (d : disk_t) (ws : list (Z * list Z)) : disk_t :=
  foldl (λ d w, <[w.1 := w.2]> d) d ws.

(** [s'] differs from [s] in the cached blocks and by the device writes [ws]. *)
Definition wrote (s s' : St) (ws : list (Z * list Z)) : Prop :=
  header s' = header s ∧ log s' = log s ∧ swap_valid s' = swap_valid s ∧ ctxs s' = ctxs s ∧
  disk s' = dapply (disk s) ws ∧ writes s' = writes s ++ ws.

Lemma wrote_nil s s' : same_rest s s' → wrote s s' [].
Proof. intros (?&?&?&?&?&?). unfold wrote; rewrite app_nil_r. by split_and!. Qed.
Lemma wrote_one s s' n d : written s s' n d → wrote s s' [(n, d)].
Proof. intros (?&?&?&?&?&?). unfold wrote; by split_and!. Qed.
Lemma wrote_app s1 s2 s3 a b : wrote s1 s2 a → wrote s2 s3 b → wrote s1 s3 (a ++ b).
Proof.
  intros (?&?&?&?&E1&F1) (?&?&?&?&E2&F2). unfold wrote, dapply in *.
  rewrite foldl_app, (assoc_L (++)). split_and!; congruence.
Qed.
Lemma same_wrote s1 s2 s3 a : same_rest s1 s2 → wrote s2 s3 a → wrote s1 s3 a.
Proof. intros H1%wrote_nil H2. exact (wrote_app _ _ _ _ _ H1 H2). Qed.
Lemma wrote_same s1 s2 s3 a : wrote s1 s2 a → same_rest s2 s3 → wrote s1 s3 a.
Proof. intros H1 H2%wrote_nil. rewrite <-(app_nil_r a). exact (wrote_app _ _ _ _ _ H1 H2). Qed.

Lemma fapply_notin v ws n : n ∉ ws.*1 → fapply v ws n = v n.
Proof.
  revert v. induction ws as [|[m d] ws IH]; intros v Hn; [done|]. cbn in *.
  destruct (proj1 (not_elem_of_cons _ _ _) Hn) as [Hm Hn']. unfold fapply in *. cbn.
  rewrite IH by done. by apply fupd_ne.
Qed.
Lemma fapply_in v ws n d : NoDup ws.*1 → (n, d) ∈ ws → fapply v ws n = d.
Proof.
  revert v. induction ws as [|[m e] ws IH]; intros v Hnd Hn; [set_solver|].
  cbn in Hnd. apply NoDup_cons in Hnd as [Hm Hnd]. unfold fapply in *. cbn.
  apply elem_of_cons in Hn as [[= -> ->]|Hn]; [|by apply IH].
  etrans; [by apply (fapply_notin _ ws)|]. apply fupd_eq.
Qed.
Lemma disk_get_dapply d ws n : disk_get (dapply d ws) n = fapply (disk_get d) ws n.
Proof.
  revert d. induction ws as [|[m e] ws IH] using rev_ind; intros d; [done|].
  unfold dapply, fapply in *. rewrite !foldl_app. cbn. rewrite disk_get_insert. unfold fupd.
  by rewrite IH.
Qed.
Lemma fapply_app v a b n : fapply v (a ++ b) n = fapply (fapply v a) b n.
Proof. unfold fapply. by rewrite foldl_app. Qed.
Lemma fapply_cons v w ws n : fapply v (w :: ws) n = fapply (fupd v w.1 w.2) ws n.
Proof. reflexivity. Qed.
Lemma fapply_ext v v' ws n : (∀ m, v m = v' m) → fapply v ws n = fapply v' ws n.
Proof.
  revert v v'. induction ws as [|w ws IH]; intros v v' E; [apply E|]. apply IH.
  intros m. unfold fupd. by case_decide.
Qed.

(** A written block reads as written, whatever was there. *)
Lemma fapply_agree v v' ws n : n ∈ ws.*1 → fapply v ws n = fapply v' ws n.
Proof.
  induction ws as [|[m d] ws IH] using rev_ind; intros Hn; [set_solver|].
  rewrite !fapply_app. cbn. unfold fupd. case_decide; [done|]. apply IH.
  rewrite fmap_app in Hn. set_solver.
Qed.

(** What [write_log] and [install_trans] write for the blocks [bl]. *)
Definition log_writes (v : Z → list Z) (bl : list Z) : list (Z * list Z) :=
  imap (λ i b, (L + Z.of_nat i + 1, v b)) bl.
Definition install_writes (v : Z → list Z) (bl : list Z) : list (Z * list Z) :=
  imap (λ i b, (b, v (L + Z.of_nat i + 1))) bl.


(** ** Copying between the log and the blocks

    [bl] are the members of the header; neither they nor the blocks [H] held by
    others are in the log region they need. *)

Definition in_log (k : Z) (n : Z) : Prop := L ≤ n ≤ L + k.

Record log_region (bl : list Z) (H : gset Z) : Prop := {
  lr_range : 0 ≤ L ∧ L + 64 < 2 ^ 64 ∧ (length bl ≤ Z.to_nat LOG_MAX_SIZE)%nat;
  lr_nodup : NoDup bl;
  lr_out : ∀ b, b ∈ bl → ¬ in_log (Z.of_nat (length bl)) b ∧ b ∉ H;
  lr_held : ∀ n, n ∈ H → ¬ in_log (Z.of_nat (length bl)) n;
}.

Lemma log_block_eq bl H k :
  log_region bl H → 0 ≤ k < Z.of_nat (length bl) → log_block k = L + k + 1.
Proof. intros [? _ _ _] Hk. lconst. unfold log_block. apply u64_small. lia. Qed.

(** Acquire two different blocks. *)
Lemma acquire2 s v H P m n (k : nat → nat → M St unit) (Q : unit → St → Prop) :
  repr L s v H P → m ∉ H → m ≠ L → n ∉ H → n ≠ L → m ≠ n →
  (∀ p q s', repr L s' v ({[n]} ∪ ({[m]} ∪ H)) P → ptr s' p m → ptr s' q n → same_rest s s' →
     wp (k p q) Q s') →
  ∀ x, header_block x s = Ok (n, s) →
  wp (p ← cache_acquire m; n ← header_block x; q ← cache_acquire n; k p q) Q s.
Proof.
  intros R Hm HmL Hn HnL Hmn Hk x Hx. apply wp_bind.
  eapply wp_mono; [by apply cache_acquire_spec|]. intros p s1 (R1 & Hp & _ & E1).
  apply wp_bind. exists n, s1. split.
  { revert Hx. unfold header_block. rewrite !bind_run. cbn. destruct E1 as (-> & _).
    destruct (hblk (header s) !! _); cbn; [|done]. by intros [= ->]. }
  apply wp_bind. eapply wp_mono; [apply cache_acquire_spec; [done| |done]; set_solver|].
  intros q s2 (R2 & Hq & Ht & E2). apply Hk; eauto with kernel.
Qed.

(** Release two blocks whose content is on disk or pinned. *)
Lemma release2 s v H P p q m n :
  repr L s v ({[n]} ∪ ({[m]} ∪ H)) P → ptr s p m → ptr s q n → m ≠ n → m ∉ H → n ∉ H →
  m ∈ P ∨ v m = disk_get (disk s) m → n ∈ P ∨ v n = disk_get (disk s) n →
  wp (cache_release p ;; cache_release q) (λ _ s', repr L s' v H P ∧ same_rest s s') s ∧
  wp (cache_release q ;; cache_release p) (λ _ s', repr L s' v H P ∧ same_rest s s') s.
Proof.
  intros R Hp Hq Hmn Hm Hn Cm Cn. split.
  - apply wp_bind. eapply wp_mono; [by eapply cache_release_spec|].
    intros [] s1 (R1 & Ht & E1). eapply wp_mono; [eapply cache_release_spec; [done|by apply Ht|]|].
    { destruct E1 as (_&_&_&_&->&_). done. }
    intros [] s2 (R2 & _ & E2). split; [|by eauto with kernel].
    replace H with (({[n]} ∪ ({[m]} ∪ H)) ∖ {[m]} ∖ {[n]}); [done|]. apply set_eq. set_solver.
  - apply wp_bind. eapply wp_mono; [by eapply (cache_release_spec L s v _ P q n)|].
    intros [] s1 (R1 & Ht & E1). eapply wp_mono; [eapply cache_release_spec; [done|by apply Ht|]|].
    { destruct E1 as (_&_&_&_&->&_). done. }
    intros [] s2 (R2 & _ & E2). split; [|by eauto with kernel].
    replace H with (({[n]} ∪ ({[m]} ∪ H)) ∖ {[n]} ∖ {[m]}); [done|]. apply set_eq. set_solver.
Qed.

(** [memmove] and [device_write] between two locked blocks. *)
Lemma copy_write s v H P p q m n :
  repr L s v H P → ptr s p m → ptr s q n → m ≠ n → n ≠ L →
  wp (copy_data p q ;; device_write p)
     (λ _ s', repr L s' (fupd v m (v n)) H P ∧ (∀ r k, ptr s r k → ptr s' r k) ∧
              wrote s s' [(m, v n)]) s.
Proof.
  intros R Hp Hq Hmn HnL. apply wp_bind. unfold copy_data. apply wp_bind.
  eapply block_spec; [exact R|exact Hq|]. intros b _ ->.
  eapply wp_mono; [eapply write_spec; [done..|by eapply repr_view_ok]|]. intros [] s1 (R1 & Ht & E1).
  eapply wp_mono; [eapply device_write_spec; [done|by apply Ht]|]. intros [] s2 (R2 & Ht2 & W2).
  rewrite fupd_eq in W2. split_and!; [done|eauto|].
  eapply same_wrote; [done|]. by apply wrote_one.
Qed.

Lemma header_block_run s bl k n :
  logged (header s) = bl → (length bl ≤ length (hblk (header s)))%nat →
  bl !! k = Some n → header_block (Z.of_nat k) s = Ok (n, s).
Proof.
  intros <- Hl Hk. unfold header_block. rewrite bind_run. cbn. rewrite Nat2Z.id.
  unfold logged in Hk. rewrite lookup_take in Hk. case_decide; [|done]. by rewrite Hk.
Qed.

Section loops.
Context (bl : list Z) (H : gset Z).
Hypothesis (Hreg : log_region bl H).

Lemma log_at k n : bl !! k = Some n →
  log_block (Z.of_nat k) = L + Z.of_nat k + 1 ∧ L + Z.of_nat k + 1 ≠ L ∧ n ≠ L ∧
  L + Z.of_nat k + 1 ∉ H ∧ n ∉ H ∧ L + Z.of_nat k + 1 ≠ n.
Proof.
  intros Hk. pose proof (lookup_lt_Some _ _ _ Hk). pose proof Hreg as [Hr Hnd Ho Hh].
  destruct (Ho n) as [Hin HnH]; [by eapply list_elem_of_lookup_2|]. unfold in_log in *.
  split_and!; [eapply log_block_eq; [exact Hreg|lia]|lia|lia| |done|lia].
  intros Hm. apply (Hh _ Hm). lia.
Qed.

Lemma write_log_one_spec s v P k n :
  repr L s v H P → logged (header s) = bl → (length bl ≤ length (hblk (header s)))%nat →
  (∀ b, b ∈ bl → b ∈ P) → bl !! k = Some n →
  wp (write_log_one (Z.of_nat k))
     (λ _ s', repr L s' (fupd v (L + Z.of_nat k + 1) (v n)) H P ∧
              wrote s s' [(L + Z.of_nat k + 1, v n)]) s.
Proof.
  intros R Hh Hl HP Hk.
  destruct (log_at k n Hk) as (Em & HmL & HnL & HmH & HnH & Hmn).
  unfold write_log_one. rewrite Em. eapply acquire2; [done..| |by eapply header_block_run].
  intros p q s1 R1 Hp Hq E1. apply wp_seq2. eapply wp_mono; [by eapply copy_write|].
  intros [] s2 (R2 & Ht & W2). eapply wp_mono.
  - eapply (release2 _ _ H P p q); [done|by apply Ht..|done|done|done| |].
    + right. destruct W2 as (_&_&_&_&->&_). cbn. by rewrite disk_get_insert, decide_True, fupd_eq.
    + left. apply HP. by eapply list_elem_of_lookup_2.
  - intros [] s3 [R3 E3]. split; [done|]. eapply same_wrote; [done|]. by eapply wrote_same.
Qed.

Lemma install_one_spec s v P k n :
  repr L s v H P → logged (header s) = bl → (length bl ≤ length (hblk (header s)))%nat →
  (∀ i, (i < length bl)%nat → L + Z.of_nat i + 1 ∉ P) → bl !! k = Some n →
  wp (install_one (Z.of_nat k))
     (λ _ s', repr L s' (fupd v n (v (L + Z.of_nat k + 1))) H (P ∖ {[n]}) ∧
              wrote s s' [(n, v (L + Z.of_nat k + 1))]) s.
Proof.
  intros R Hh Hl HP Hk. destruct (log_at k n Hk) as (Em & HmL & HnL & HmH & HnH & Hmn).
  assert (Cm : v (L + Z.of_nat k + 1) = disk_get (disk s) (L + Z.of_nat k + 1)).
  { apply (repr_disk _ _ _ _ _ R); [done| |done]. apply HP. by eapply lookup_lt_Some. }
  unfold install_one. rewrite Em. eapply acquire2; [done..| |by eapply header_block_run].
  intros p q s1 R1 Hp Hq E1. apply wp_seq2. eapply wp_mono; [by eapply copy_write|].
  intros [] s2 (R2 & Ht & W2). apply wp_bind.
  eapply wp_mono; [eapply pin_spec; [done|by apply Ht]|]. intros [] s3 (R3 & Ht3 & E3).
  assert (Ed : disk s3 = <[n := v (L + Z.of_nat k + 1)]> (disk s)).
  { destruct E3 as (_&_&_&_&->&_), W2 as (_&_&_&_&->&_), E1 as (_&_&_&_&->&_). done. }
  eapply wp_mono.
  - eapply (release2 _ _ H (P ∖ {[n]}) p q); [done|by apply Ht3, Ht..|done|done|done| |]; right.
    + rewrite Ed, disk_get_insert, decide_False, fupd_ne by done. done.
    + by rewrite Ed, disk_get_insert, decide_True, fupd_eq.
  - intros [] s4 [R4 E4]. split; [done|]. eapply same_wrote; [done|].
    eapply wrote_same; [done|]. by eauto with kernel.
Qed.

Lemma log_writes_fst v k : (log_writes v bl).*1 !! k = (λ _, L + Z.of_nat k + 1) <$> bl !! k.
Proof. unfold log_writes. rewrite list_lookup_fmap, list_lookup_imap. by destruct (bl !! k). Qed.

Lemma install_writes_fst v : (install_writes v bl).*1 = bl.
Proof.
  apply list_eq. intros k. unfold install_writes. rewrite list_lookup_fmap, list_lookup_imap.
  by destruct (bl !! k).
Qed.

Lemma log_writes_out v n : n ∈ (log_writes v bl).*1 → in_log (Z.of_nat (length bl)) n ∧ n ≠ L.
Proof.
  intros [k Hk]%list_elem_of_lookup. rewrite log_writes_fst in Hk.
  destruct (bl !! k) eqn:E; [|done]. injection Hk as <-. apply lookup_lt_Some in E. unfold in_log. lia.
Qed.

Lemma take_fst {A B} (ws : list (A * B)) k n : n ∈ (take k ws).*1 → n ∈ ws.*1.
Proof. rewrite fmap_take. intros [i Hi]%list_elem_of_lookup. apply lookup_take_Some in Hi as [Hi _].
  by eapply list_elem_of_lookup_2. Qed.

Lemma fapply_log w v k n : ¬ in_log (Z.of_nat (length bl)) n →
  fapply w (take k (log_writes v bl)) n = w n.
Proof. intros Hn. apply fapply_notin. intros [? _]%take_fst%log_writes_out. done. Qed.

Lemma write_log_spec s v P :
  repr L s v H P → logged (header s) = bl → hnum (header s) = Z.of_nat (length bl) →
  (length bl ≤ length (hblk (header s)))%nat → (∀ b, b ∈ bl → b ∈ P) →
  wp write_log
     (λ _ s', repr L s' (fapply v (log_writes v bl)) H P ∧ wrote s s' (log_writes v bl)) s.
Proof.
  intros R Hh Hn Hl HP. set (ws := log_writes v bl). unfold write_log. apply wp_bind, wp_gets. rewrite Hn.
  eapply wp_mono; [eapply (wp_for_zseq _ (λ k s', let w := take (Z.to_nat k) ws in
    repr L s' (fapply v w) H P ∧ wrote s s' w)); [lia| |]|].
  - split; [done|]. apply wrote_nil. eauto with kernel.
  - intros k s1 [Hk1 Hk2] [R1 W1]. destruct (Z_of_nat_complete k Hk1) as [i ->]. rewrite Nat2Z.id in *.
    destruct (lookup_lt_is_Some_2 bl i) as [n Hi]; [lia|].
    assert (Hw : ws !! i = Some (L + Z.of_nat i + 1, v n)).
    { unfold ws, log_writes. by rewrite list_lookup_imap, Hi. }
    pose proof (lr_out _ _ Hreg n) as [Ho _]; [by eapply list_elem_of_lookup_2|].
    eapply wp_mono; [eapply write_log_one_spec; [done| | |done|done]|].
    + by destruct W1 as (->&_).
    + by destruct W1 as (->&_).
    + intros [] s2 [R2 W2]. rewrite (fapply_log v v) in R2, W2 by done.
      replace (Z.to_nat (Z.of_nat i + 1)) with (S i) by lia. rewrite (take_S_r _ _ _ Hw).
      split; [|by eapply wrote_app].
      eapply repr_ext; [|exact R2]. intros m. by rewrite fapply_app.
  - intros [] s1. rewrite Nat2Z.id, take_ge; [done|]. unfold ws, log_writes. by rewrite length_imap.
Qed.

Lemma install_trans_spec s v P :
  repr L s v H P → logged (header s) = bl → hnum (header s) = Z.of_nat (length bl) →
  (length bl ≤ length (hblk (header s)))%nat →
  (∀ i, (i < length bl)%nat → L + Z.of_nat i + 1 ∉ P) →
  wp install_trans
     (λ _ s', repr L s' (fapply v (install_writes v bl)) H (P ∖ list_to_set bl) ∧
              wrote s s' (install_writes v bl)) s.
Proof.
  intros R Hh Hn Hl HP. set (ws := install_writes v bl). unfold install_trans. apply wp_bind, wp_gets. rewrite Hn.
  eapply wp_mono; [eapply (wp_for_zseq _ (λ k s', let w := take (Z.to_nat k) ws in
    repr L s' (fapply v w) H (P ∖ list_to_set (take (Z.to_nat k) bl)) ∧ wrote s s' w)); [lia| |]|].
  - split; [|apply wrote_nil; eauto with kernel]. cbn zeta. change (Z.to_nat 0) with 0%nat. rewrite !take_0.
    replace (P ∖ _) with P by set_solver. done.
  - intros k s1 [Hk1 Hk2] [R1 W1]. destruct (Z_of_nat_complete k Hk1) as [i ->]. rewrite Nat2Z.id in *.
    destruct (lookup_lt_is_Some_2 bl i) as [n Hi]; [lia|].
    assert (Hw : ws !! i = Some (n, v (L + Z.of_nat i + 1))).
    { unfold ws, install_writes. by rewrite list_lookup_imap, Hi. }
    eapply wp_mono; [eapply install_one_spec; [done| | | |done]|].
    + by destruct W1 as (->&_).
    + by destruct W1 as (->&_).
    + intros j Hj. specialize (HP j Hj). set_solver.
    + intros [] s2 [R2 W2].
      assert (Hm : fapply v (take i ws) (L + Z.of_nat i + 1) = v (L + Z.of_nat i + 1)).
      { apply fapply_notin. intros Hx%take_fst. unfold ws in Hx. rewrite install_writes_fst in Hx.
        apply (lr_out _ _ Hreg) in Hx as [Hx _]. apply Hx. unfold in_log. lia. }
      rewrite Hm in R2, W2.
      replace (Z.to_nat (Z.of_nat i + 1)) with (S i) by lia.
      rewrite (take_S_r _ _ _ Hw), (take_S_r _ _ _ Hi). split; [|by eapply wrote_app].
      rewrite list_to_set_app_L, <-difference_difference_l_L. cbn. rewrite union_empty_r_L.
      eapply repr_ext; [|exact R2]. intros m. by rewrite fapply_app.
  - intros [] s1. rewrite Nat2Z.id, !take_ge; [done|lia|]. unfold ws, install_writes. by rewrite length_imap.
Qed.
End loops.

(** ** Commit and recovery *)

Definition header_inv (s : St) (P : gset Z) : Prop :=
  length (hblk (header s)) = Z.to_nat LOG_MAX_SIZE ∧ 0 ≤ hnum (header s) ≤ LOG_MAX_SIZE ∧
  Forall (uint 8) (hblk (header s)) ∧ (∀ n, n ∈ P ↔ n ∈ logged (header s)).

Lemma logok_header s P O : logok s P O → header_inv s P.
Proof. intros K. split_and!; apply K. Qed.

Lemma length_logged s P : header_inv s P → Z.of_nat (length (logged (header s))) = hnum (header s).
Proof. intros (Hl & Hn & _). unfold logged. rewrite length_take, Hl. lia. Qed.

Lemma header_inv_ok s P : header_inv s P → header_ok (header s).
Proof. intros (Hl & Hn & Hu & _). split_and!; [|done..]. unfold uint. lconst. lia. Qed.

Lemma write_header_spec s v H P :
  repr L s v H P → header_ok (header s) →
  wp write_header
     (λ _ s', repr L s' v H P ∧ wrote s s' [(L, encode_header (header s))]) s.
Proof.
  intros R Hok. unfold write_header. apply wp_bind, wp_gets, wp_modify. split.
  - apply repr_disk_insert; [done|by apply encode_header_ok|auto].
  - unfold wrote. by split_and!.
Qed.

(** The device writes of a commit: the log, the header that makes it count,
    the blocks in place, the empty header. *)
Definition cleared (h : LogHeader) : LogHeader := mkLogHeader 0 (hblk h).
Definition install_list (v : Z → list Z) (bl : list Z) : list (Z * list Z) := (λ b, (b, v b)) <$> bl.
Definition commit_trace (v : Z → list Z) (h : LogHeader) : list (Z * list Z) :=
  if 0 <? hnum h then
    log_writes v (logged h) ++ (L, encode_header h) ::
    install_list v (logged h) ++ [(L, encode_header (cleared h))]
  else [].

Lemma install_after_log v bl H :
  log_region bl H → install_writes (fapply v (log_writes v bl)) bl = install_list v bl.
Proof.
  intros Hreg. apply list_eq. intros k. unfold install_writes, install_list.
  rewrite list_lookup_imap, list_lookup_fmap. destruct (bl !! k) as [b|] eqn:E; [|done]. cbn.
  do 2 f_equal. apply fapply_in.
  - apply NoDup_alt. intros i j n. rewrite !log_writes_fst.
    destruct (bl !! i), (bl !! j); try done. cbn. intros [= <-] [= ?]. lia.
  - apply list_elem_of_lookup. exists k. unfold log_writes. by rewrite list_lookup_imap, E.
Qed.

(** Everything but the cached blocks, the header and the disk is the same. *)
Definition committed (s s' : St) (ws : list (Z * list Z)) : Prop :=
  header s' = cleared (header s) ∧ log s' = log s ∧ swap_valid s' = swap_valid s ∧
  ctxs s' = ctxs s ∧ disk s' = dapply (disk s) ws ∧ writes s' = writes s ++ ws.

Lemma repr_ext_L s v v' H P : (∀ n, n ≠ L → v n = v' n) → repr L s v H P → repr L s v' H P.
Proof.
  intros E R. destruct R as [W B C D]. split; [done| |done|].
  - intros p b Hp. rewrite <-E by by eapply (wf_hdr L s W). exact (B p b Hp).
  - intros n Hn Hn' HL. rewrite <-E by done. by apply D.
Qed.

Lemma clear_and_write s0 s v H P ws :
  repr L s v H P → header_ok (header s0) → wrote s0 s ws →
  wp (clear_header ;; write_header)
     (λ _ s', repr L s' v H P ∧ committed s0 s' (ws ++ [(L, encode_header (cleared (header s0)))])) s.
Proof.
  intros R HI W. apply wp_bind, wp_modify. eapply wp_mono.
  - eapply write_header_spec; [by eapply repr_same; [..|exact R]|].
    destruct W as (Eh & _). cbn. rewrite Eh. destruct HI as (_ & ? & ?).
    split_and!; [vm_compute; by split|done..].
  - intros [] s' [R' W']. split; [done|]. destruct W as (Eh&El&Es&Ec&Ed&Ew), W' as (Eh'&El'&Es'&Ec'&Ed'&Ew').
    cbn in *. unfold committed, cleared, dapply in *. rewrite foldl_app, (assoc_L (++)).
    rewrite Eh in *. rewrite <-Ed, <-Ew. cbn. split_and!; congruence.
Qed.

Lemma in_set_log s v H P b : log_region (logged (header s)) H → header_inv s P → repr L s v H P →
  b ∈ P → ¬ in_log (Z.of_nat (length (logged (header s)))) b.
Proof. intros Hr (_&_&_&HP) R Hb. apply (lr_out _ _ Hr). by apply HP. Qed.

Lemma commit_spec s v H P :
  repr L s v H P → header_inv s P → log_region (logged (header s)) H →
  wp commit
     (λ _ s', repr L s' (fapply v (commit_trace v (header s))) H ∅ ∧
              committed s s' (commit_trace v (header s))) s.
Proof.
  intros R HI Hreg. pose proof (length_logged _ _ HI) as Hlen. pose proof HI as (Hl & Hn & _ & HP).
  unfold commit, commit_trace. apply wp_bind, wp_gets. destruct (0 <? hnum (header s)) eqn:Ez.
  2: { apply Z.ltb_ge in Ez. apply wp_ret. assert (hnum (header s) = 0) as E0 by lia. split.
    - replace ∅ with P; [done|]. apply set_eq. intros b. rewrite HP. unfold logged. rewrite E0. cbn. set_solver.
    - unfold committed, cleared. rewrite app_nil_r. split_and!; try done.
      destruct (header s); cbn in *. by subst. }
  set (bl := logged (header s)) in *.
  assert (Hle : (length bl ≤ length (hblk (header s)))%nat) by (rewrite Hl; lconst; lia).
  apply wp_bind. eapply wp_mono; [apply (write_log_spec bl H Hreg s v P); try done; naive_solver|].
  intros [] s1 [R1 W1]. pose proof W1 as (Eh1 & _).
  apply wp_bind. eapply wp_mono; [eapply write_header_spec; [done|rewrite Eh1; by eapply header_inv_ok]|].
  intros [] s2 [R2 W2]. rewrite Eh1 in W2. pose proof W2 as (Eh2 & _). rewrite Eh1 in Eh2.
  apply wp_bind. eapply wp_mono; [eapply (install_trans_spec bl H Hreg); [done|rewrite Eh2; done..|]|].
  { intros i Hi Hin. apply (in_set_log _ _ _ _ _ Hreg HI R) in Hin. apply Hin. unfold in_log. fold bl. lia. }
  intros [] s3 [R3 W3]. rewrite (install_after_log _ _ _ Hreg) in R3, W3.
  pose proof (wrote_app _ _ _ _ _ W1 (wrote_app _ _ _ _ _ W2 W3)) as W.
  eapply wp_mono; [eapply clear_and_write; [exact R3|by eapply header_inv_ok|exact W]|].
  intros [] s4 [R4 W4]. rewrite <-(assoc_L (++)) in W4. split; [|exact W4].
  replace (P ∖ list_to_set bl) with (∅ : gset Z) in R4.
  - eapply repr_ext_L; [|exact R4]. intros n HnL. rewrite fapply_app. cbn [fapply foldl app].
    change (foldl _ _ _) with (fapply (fupd (fapply v (log_writes v bl)) L (encode_header (header s)))
      (install_list v bl ++ [(L, encode_header (cleared (header s)))])).
    rewrite fapply_app. cbn. rewrite fupd_ne by done.
    destruct (decide (n ∈ (install_list v bl).*1)) as [Hin|Hin].
    + by apply fapply_agree.
    + rewrite !(fapply_notin _ (install_list v bl)) by done. by rewrite fupd_ne.
  - symmetry. apply set_eq. intros b. rewrite elem_of_difference, elem_of_list_to_set, HP. set_solver.
Qed.

(** What a reboot reads once [recover_from_log] has run: the disk, with the
    logged blocks taken from the log. *)
Definition disk_header (d : disk_t) : LogHeader := decode_header (disk_get d L).
Definition recovered (d : disk_t) : Z → list Z :=
  fapply (disk_get d) (install_writes (disk_get d) (logged (disk_header d))).

(** A machine that just booted: nothing is cached. *)
Definition booted (s : St) : Prop :=
  pool s = [] ∧ head s = [] ∧ ∀ n bs, disk s !! n = Some bs → block_ok bs.

Lemma booted_repr s : booted s → repr L s (disk_get (disk s)) ∅ ∅.
Proof.
  intros (Ep & Eh & Hd). split; [split| | |]; rewrite ?Ep, ?Eh; try done; try set_solver.
  - constructor.
  - intros p. split; [set_solver|]. cbn. lia.
Qed.

Lemma disk_header_ok s : booted s → header_ok (disk_header (disk s)).
Proof.
  intros B. apply decode_header_ok, (disk_get_ok L), (repr_wf _ _ _ _ _ (booted_repr s B)).
Qed.

Lemma recover_spec s :
  booted s → hnum (disk_header (disk s)) ≤ LOG_MAX_SIZE →
  log_region (logged (disk_header (disk s))) ∅ →
  wp recover_from_log
     (λ _ s', repr L s' (recovered (disk s)) ∅ ∅ ∧
              header s' = cleared (disk_header (disk s)) ∧ log s' = log s ∧
              disk_header (disk s') = cleared (disk_header (disk s)) ∧
              swap_valid s' = swap_valid s) s.
Proof.
  intros B Hn Hreg. pose proof (disk_header_ok s B) as Hok. pose proof Hok as (Hu & Hub & Hl).
  set (h := disk_header (disk s)) in *. unfold uint in Hu.
  unfold recover_from_log. apply wp_bind. unfold read_header. apply wp_bind, wp_gets, wp_modify.
  change (decode_header _) with h. set (s1 := set_header _ s).
  assert (R1 : repr L s1 (disk_get (disk s)) ∅ ∅) by (by eapply repr_same; [..|apply booted_repr]).
  assert (Hlen : Z.of_nat (length (logged h)) = hnum h).
  { unfold logged. rewrite length_take, Hl. lia. }
  apply wp_bind. eapply wp_mono.
  { eapply (install_trans_spec (logged h) ∅ Hreg s1); [exact R1|done|done| |set_solver].
    cbn. rewrite Hl. unfold logged. rewrite length_take. lia. }
  intros [] s2 [R2 W2]. eapply wp_mono; [eapply (clear_and_write s1); [exact R2|exact Hok|exact W2]|].
  intros [] s3 [R3 (E1&E2&E3&E4&E5&E6)]. split_and!; [|done..| |done].
  - assert (E : ∅ ∖ list_to_set (logged h) = (∅ : gset Z)) by set_solver. rewrite E in R3. exact R3.
  - unfold disk_header. rewrite E5, disk_get_dapply, fapply_app. cbn. rewrite fupd_eq.
    apply decode_encode_header. split_and!; [vm_compute; by split|done..].
Qed.

Lemma fst_install_list v bl : (install_list v bl).*1 = bl.
Proof. unfold install_list. rewrite <-list_fmap_compose. cbn. apply list_fmap_id. Qed.

Lemma fapply_install_list v w bl n : n ∈ bl → NoDup bl → fapply w (install_list v bl) n = v n.
Proof.
  intros Hn Hnd. apply fapply_in; [by rewrite fst_install_list|]. apply list_elem_of_fmap. by exists n.
Qed.

(** What is read after a crash, by the part of the trace that reached the disk. *)
Section crash.
Context (d0 : disk_t) (v : Z → list Z) (h : LogHeader) (H : gset Z).
Let bl := logged h.
Hypothesis (Hreg : log_region bl H).
Hypothesis (Hok : header_ok h).
Hypothesis (Hlen : Z.of_nat (length bl) = hnum h).
Hypothesis (Hempty : hnum (disk_header d0) = 0).
Hypothesis (Hold : ∀ n, n ∉ bl → n ≠ L → v n = disk_get d0 n).

Lemma recovered_empty d n : hnum (disk_header d) = 0 → recovered d n = disk_get d n.
Proof. intros E. unfold recovered, logged. by rewrite E. Qed.

Lemma L_not_in : L ∉ bl.
Proof. intros Hin. apply (lr_out _ _ Hreg) in Hin as [Hin _]. apply Hin. unfold in_log. lia. Qed.

Lemma install_notin k m : m ∉ bl → m ∉ (take k (install_list v bl)).*1.
Proof. intros Hm Hin%take_fst. by rewrite fst_install_list in Hin. Qed.

(** The header on disk, by how far the commit came. *)
Definition mid (k : nat) : list (Z * list Z) :=
  log_writes v bl ++ (L, encode_header h) :: take k (install_list v bl).

Lemma header_before k : disk_header (dapply d0 (take k (log_writes v bl))) = disk_header d0.
Proof.
  unfold disk_header. rewrite disk_get_dapply, fapply_notin; [done|]. intros Hin%take_fst%log_writes_out. tauto.
Qed.

Lemma mid_get k m : disk_get (dapply d0 (mid k)) m =
  fapply (fupd (fapply (disk_get d0) (log_writes v bl)) L (encode_header h)) (take k (install_list v bl)) m.
Proof. unfold mid. by rewrite disk_get_dapply, fapply_app. Qed.

Lemma header_during k : disk_header (dapply d0 (mid k)) = h.
Proof.
  unfold disk_header. rewrite mid_get, fapply_notin by apply install_notin, L_not_in.
  rewrite fupd_eq. by apply decode_encode_header.
Qed.

Definition finished : list (Z * list Z) :=
  log_writes v bl ++ (L, encode_header h) :: install_list v bl ++ [(L, encode_header (cleared h))].

Lemma finished_get m : disk_get (dapply d0 finished) m =
  fupd (fapply (fupd (fapply (disk_get d0) (log_writes v bl)) L (encode_header h)) (install_list v bl))
    L (encode_header (cleared h)) m.
Proof. unfold finished. by rewrite disk_get_dapply, fapply_app, fapply_cons, fapply_app. Qed.

Lemma header_after : disk_header (dapply d0 finished) = cleared h.
Proof.
  unfold disk_header. rewrite finished_get, fupd_eq. apply decode_encode_header.
  destruct Hok as (_ & ? & ?). split_and!; [vm_compute; by split|done..].
Qed.

Lemma trace_prefix k : 0 < hnum h →
  take k (commit_trace v h) =
    if decide (k ≤ length bl)%nat then take k (log_writes v bl)
    else if decide (k ≤ S (length bl + length bl))%nat then mid (k - S (length bl)) else finished.
Proof.
  intros Hpos. unfold commit_trace. rewrite (proj2 (Z.ltb_lt _ _) Hpos). fold bl.
  assert (Hll : length (log_writes v bl) = length bl) by apply length_imap.
  assert (Hil : length (install_list v bl) = length bl) by apply length_fmap. case_decide as Dk.
  - by rewrite take_app_le by lia.
  - rewrite take_app_ge by lia. rewrite Hll. unfold mid, finished.
    destruct (k - length bl)%nat as [|j] eqn:Ej; [lia|].
    replace (k - S (length bl))%nat with j by lia. cbn [take]. do 2 f_equal. case_decide.
    + by rewrite take_app_le by lia.
    + by rewrite (take_ge _ j) by (rewrite length_app; cbn; lia).
Qed.

Lemma trace_all : 0 < hnum h → commit_trace v h = finished.
Proof. intros Hpos. unfold commit_trace. by rewrite (proj2 (Z.ltb_lt _ _) Hpos). Qed.

Lemma crash_header k : 0 < hnum h →
  hnum (disk_header (dapply d0 (take k (commit_trace v h)))) = 0 ∨
  disk_header (dapply d0 (take k (commit_trace v h))) = h.
Proof.
  intros Hpos. rewrite trace_prefix by done. repeat case_decide.
  - left. by rewrite header_before.
  - right. apply header_during.
  - left. by rewrite header_after.
Qed.

Lemma crash_before k n : ¬ in_log (Z.of_nat (length bl)) n →
  recovered (dapply d0 (take k (log_writes v bl))) n = disk_get d0 n.
Proof.
  intros Hn. rewrite recovered_empty by by rewrite header_before.
  rewrite disk_get_dapply. by eapply (fapply_log bl).
Qed.

Lemma crash_during k n : ¬ in_log (Z.of_nat (length bl)) n → recovered (dapply d0 (mid k)) n = v n.
Proof.
  intros Hn. unfold recovered. rewrite header_during. fold bl. destruct (decide (n ∈ bl)) as [Hin|Hin].
  - rewrite <-(fapply_install_list v v bl n Hin (lr_nodup _ _ Hreg)).
    rewrite <-(install_after_log v bl H Hreg). rewrite (fapply_agree _ v) by (by rewrite install_writes_fst).
    f_equal. unfold install_writes. apply imap_ext. intros i b Hi. f_equal.
    rewrite mid_get, fapply_notin.
    + rewrite fupd_ne by lia. apply fapply_agree, list_elem_of_lookup. exists i.
      by rewrite log_writes_fst, Hi.
    + apply install_notin. intros Hx. apply (lr_out _ _ Hreg) in Hx as [Hx _]. apply Hx. unfold in_log.
      apply lookup_lt_Some in Hi. lia.
  - rewrite fapply_notin by (by rewrite install_writes_fst). rewrite mid_get, fapply_notin by by apply install_notin.
    assert (n ≠ L) by (intros ->; apply Hn; unfold in_log; lia).
    rewrite fupd_ne by done. rewrite fapply_notin; [by rewrite Hold|].
    intros [? _]%log_writes_out. done.
Qed.

Lemma crash_after n : ¬ in_log (Z.of_nat (length bl)) n → recovered (dapply d0 finished) n = v n.
Proof.
  intros Hn. assert (n ≠ L) by (intros ->; apply Hn; unfold in_log; lia).
  rewrite recovered_empty by by rewrite header_after. rewrite finished_get, fupd_ne by done.
  destruct (decide (n ∈ bl)) as [Hin|Hin].
  - by apply fapply_install_list, Hreg.
  - rewrite fapply_notin by (by rewrite fst_install_list). rewrite fupd_ne by done.
    rewrite fapply_notin; [by rewrite Hold|]. intros [? _]%log_writes_out. done.
Qed.

(** Old before the header is written, new from then on. *)
Lemma crash_prefix k n : 0 < hnum h → ¬ in_log (Z.of_nat (length bl)) n →
  recovered (dapply d0 (take k (commit_trace v h))) n =
  if decide (k ≤ length bl)%nat then disk_get d0 n else v n.
Proof.
  intros Hpos Hn. rewrite trace_prefix by done. repeat case_decide;
    auto using crash_before, crash_during, crash_after.
Qed.
End crash.

Lemma log_region_nil bl H : log_region bl H → log_region [] ∅.
Proof. intros [? _ _ _]. split; [cbn; lia|constructor|set_solver|set_solver]. Qed.

(** C1: A commit interrupted by a crash after any number of its device writes
    is, once the machine has rebooted and [recover_from_log] has run, a commit
    that never started (up to the write of the header) or one that ended: every
    block outside the log reads as before the transaction, or every one reads
    as the transaction left it. *)
Theorem commit_crash_atomic s v P :
  repr L s v ∅ P → header_inv s P → log_region (logged (header s)) ∅ →
  hnum (disk_header (disk s)) = 0 → 0 < hnum (header s) →
  ∃ s' trace, commit s = Ok (tt, s') ∧ writes s' = writes s ++ trace ∧
    disk s' = dapply (disk s) trace ∧ hnum (disk_header (disk s')) = 0 ∧
    ∀ k sb, booted sb → disk sb = dapply (disk s) (take k trace) →
      ∃ sr, recover_from_log sb = Ok (tt, sr) ∧
        ∀ n, ¬ in_log (hnum (header s)) n →
          disk_get (disk sr) n =
            if decide (k ≤ Z.to_nat (hnum (header s)))%nat then disk_get (disk s) n else v n.
Proof.
  intros R HI Hreg Hempty Hpos. pose proof (length_logged _ _ HI) as Hlen.
  pose proof (header_inv_ok _ _ HI) as Hok. set (t := commit_trace v (header s)).
  assert (Hold : ∀ n, n ∉ logged (header s) → n ≠ L → v n = disk_get (disk s) n).
  { destruct HI as (_&_&_&HP). intros n Hn HL. apply (repr_disk _ _ _ _ _ R); [set_solver|by rewrite HP|done]. }
  destruct (commit_spec s v ∅ P R HI Hreg) as ([] & s' & E & _ & (_&_&_&_&Ed&Ew)).
  exists s', t. split_and!; [done..| |].
  { rewrite Ed, (trace_all v (header s)) by done. by rewrite header_after. }
  intros k sb B Eb. pose proof (crash_header (disk s) v (header s) ∅ Hreg Hok Hempty k Hpos) as Hh.
  fold t in Hh. rewrite <-Eb in Hh.
  destruct (recover_spec sb B) as ([] & sr & Er & Rr & _).
  - destruct HI as (_ & ? & _). destruct Hh as [-> | ->]; [vm_compute; done|lia].
  - destruct Hh as [Hz | ->]; [|done]. unfold logged. rewrite Hz. by eapply log_region_nil.
  - exists sr. split; [done|]. intros n Hn. rewrite <-(repr_disk _ _ _ _ _ Rr n); [|set_solver..|].
    + rewrite <-Hlen in Hn. rewrite Eb, <-Hlen, Nat2Z.id. by eapply (crash_prefix _ _ _ ∅).
    + intros ->. apply Hn. unfold in_log. lia.
Qed.

(** ** The three calls of a transaction *)

Lemma logged_push h n :
  0 ≤ hnum h < LOG_MAX_SIZE → length (hblk h) = Z.to_nat LOG_MAX_SIZE →
  logged (mkLogHeader (u64 (hnum h + 1)) (<[Z.to_nat (hnum h) := n]> (hblk h))) = logged h ++ [n].
Proof.
  intros Hn Hl. lconst. unfold logged. cbn [hnum hblk]. rewrite u64_small by lia.
  replace (Z.to_nat (hnum h + 1)) with (S (Z.to_nat (hnum h))) by lia.
  rewrite (take_S_r _ _ n) by (apply list_lookup_insert_eq; lia).
  by rewrite take_insert_ge by lia.
Qed.

Lemma rm_lookup cs c : (c < length cs)%nat → cs !! c = Some (mkOpContext (rm_of cs c)).
Proof. intros [x Hx]%lookup_lt_is_Some. unfold rm_of. rewrite Hx. by destruct x. Qed.

(** The units of [c] that logging block [n] uses up. *)
Definition sync_cost (P : gset Z) (n : Z) (c c' : nat) : Z :=
  if decide (c' = c ∧ n ∉ P) then 1 else 0.

Definition synced (s s' : St) (P : gset Z) (n : Z) (c : nat) : Prop :=
  disk s' = disk s ∧ writes s' = writes s ∧ swap_valid s' = swap_valid s ∧
  committing (log s') = committing (log s) ∧ length (ctxs s') = length (ctxs s) ∧
  ∀ c', rm_of (ctxs s') c' = rm_of (ctxs s) c' - sync_cost P n c c'.

Lemma cache_sync_hit s v H P O p n c :
  repr L s v H P → logok s P O → ptr s p n → n ∈ P → cache_sync (Some c) p s = Ok (tt, s).
Proof.
  intros R K (b & Hp & Hn & _) HnP. unfold cache_sync, block. rewrite !bind_run. cbn [gets].
  rewrite Hp. cbn [deref mret M_ret]. rewrite bind_run. cbn [gets].
  rewrite decide_True; [done|]. rewrite Hn. by apply (lo_pin _ _ _ K).
Qed.

(** The state [cache_sync] leaves when it logs a new block. *)
Definition push_state (s : St) (p : nat) (n : Z) (c : nat) : St :=
  set_log (λ g, mkLOG (committing g) (outstanding g) (i32 (op_reserved g - 1)))
    (set_ctxs (alter (λ x, mkOpContext (u64 (rm x - 1))) c)
      (set_pool (alter (with_pinned true) p)
        (set_header (λ h, mkLogHeader (u64 (hnum h + 1)) (<[Z.to_nat (hnum h) := n]> (hblk h))) s))).

Lemma cache_sync_push s P O p b c :
  logok s P O → pool s !! p = Some b → block_no b ∉ P → c ∈ O → 0 < rm_of (ctxs s) c →
  cache_sync (Some c) p s = Ok (tt, push_state s p (block_no b) c).
Proof.
  intros K Hp HnP Hc Hrm. destruct (lo_rm _ _ _ K c Hc) as [Hlt _].
  pose proof (lo_space _ _ _ K). pose proof (logok_res_bounds _ _ _ _ K Hc).
  unfold cache_sync, push_header, upd, block. rewrite !bind_run. cbn [gets]. rewrite Hp.
  cbn [deref mret M_ret]. rewrite !bind_run. cbn [gets].
  rewrite decide_False by (by rewrite <-(lo_pin _ _ _ K)). rewrite !bind_run. cbn [gets].
  rewrite (proj2 (Z.ltb_lt _ _)) by lia. cbn [modify]. rewrite !bind_run. cbn [gets pool set_header].
  rewrite Hp. cbn [deref mret M_ret modify]. rewrite !bind_run. cbn [gets ctxs set_header set_pool].
  rewrite (rm_lookup _ _ Hlt). rewrite bind_run. cbn [deref mret M_ret rm].
  by rewrite (proj2 (Z.ltb_lt _ _)) by done.
Qed.

Lemma push_logok s P O p n c :
  logok s P O → uint 8 n → n ∉ P → c ∈ O → 0 < rm_of (ctxs s) c →
  logok (push_state s p n c) ({[n]} ∪ P) O.
Proof.
  intros K Hu HnP Hc Hrm. destruct (lo_rm _ _ _ K c Hc) as [Hlt Hr].
  pose proof (lo_space _ _ _ K) as Hs. pose proof (logok_res_bounds _ _ _ _ K Hc) as Hb.
  pose proof (lo_num _ _ _ K) as Hn. pose proof (lo_len _ _ _ K) as Hl.
  assert (Hpush := logged_push (header s) n ltac:(lia) Hl).
  assert (Hrm' : ∀ c', rm_of (alter (λ x, mkOpContext (u64 (rm x - 1))) c (ctxs s)) c' =
                       if decide (c' = c) then rm_of (ctxs s) c - 1 else rm_of (ctxs s) c').
  { intros c'. unfold rm_of at 1. case_decide; subst; [|by rewrite list_lookup_alter_ne].
    rewrite list_lookup_alter_eq, (rm_lookup _ _ Hlt). cbn. apply u64_small. lconst. lia. }
  assert (Hal : alter (λ x, mkOpContext (u64 (rm x - 1))) c (ctxs s) =
                alter (λ _, mkOpContext (rm_of (ctxs s) c - 1)) c (ctxs s)).
  { apply list_alter_ext; [|done]. intros x Hx. rewrite (rm_lookup _ _ Hlt) in Hx.
    injection Hx as <-. cbn. f_equal. apply u64_small. lconst. unfold OP_MAX_NUM_BLOCKS in *. lia. }
  unfold push_state. split; cbn [header set_header set_pool set_ctxs set_log hnum hblk ctxs log
    outstanding op_reserved committing]; try apply K.
  - by rewrite length_insert.
  - rewrite u64_small by (lconst; lia). lia.
  - apply Forall_insert; [apply K|done].
  - rewrite Hpush. apply NoDup_app. split_and!; [apply K| |by apply NoDup_singleton].
    intros m Hm. rewrite <-(lo_pin _ _ _ K) in Hm. set_solver.
  - intros m. rewrite Hpush, elem_of_app, <-(lo_pin _ _ _ K). set_solver.
  - rewrite length_alter. apply K.
  - intros c' Hc'. rewrite length_alter, Hrm'. destruct (lo_rm _ _ _ K c' Hc'). case_decide; lia.
  - rewrite Hal, reserved_alter by (done || apply K). cbn. rewrite <-(lo_res _ _ _ K).
    rewrite i32_small by lia. lia.
  - rewrite u64_small by (lconst; lia). rewrite i32_small by lia. lia.
Qed.

Lemma cache_sync_spec s v H P O p n c :
  repr L s v H P → logok s P O → ptr s p n → uint 8 n → c ∈ O → n ∈ P ∨ 0 < rm_of (ctxs s) c →
  wp (cache_sync (Some c) p)
     (λ _ s', repr L s' v H ({[n]} ∪ P) ∧ logok s' ({[n]} ∪ P) O ∧
              (∀ q m, ptr s q m → ptr s' q m) ∧ synced s s' P n c) s.
Proof.
  intros R K Hptr Hu Hc Hroom. unfold sync_cost. destruct (decide (n ∈ P)) as [HnP|HnP].
  - exists tt, s. split; [by eapply cache_sync_hit|]. replace ({[n]} ∪ P) with P by set_solver.
    split_and!; [done..|]. unfold synced, sync_cost. split_and!; try done.
    intros c'. rewrite decide_False by tauto. lia.
  - destruct Hroom as [|Hrm]; [done|]. pose proof Hptr as (b & Hp & Hn & Ha).
    pose proof (cache_sync_push s P O p b c K Hp) as E. rewrite Hn in E.
    exists tt, (push_state s p n c). split; [by apply E|].
    pose proof (pin_spec L s v H P p n true R Hptr) as Hpin.
    destruct Hpin as ([] & s1 & E1 & R1 & Ht & _). revert E1. unfold upd, block.
    rewrite !bind_run. cbn [gets]. rewrite Hp. cbn. intros [= <-]. split_and!.
    + by eapply repr_same; [..|exact R1].
    + by apply push_logok.
    + intros q m Hq. exact (Ht q m Hq).
    + destruct (lo_rm _ _ _ K c Hc) as [Hlt Hr]. unfold synced, push_state. cbn.
      split_and!; [done..|apply length_alter|]. intros c'. unfold sync_cost, rm_of at 1.
      destruct (decide (c' = c)) as [->|]; [|rewrite decide_False by tauto].
      * rewrite list_lookup_alter_eq, (rm_lookup _ _ Hlt), decide_True by done. cbn.
        rewrite u64_small; [lia|]. unfold OP_MAX_NUM_BLOCKS in *. lia.
      * rewrite list_lookup_alter_ne by done. fold (rm_of (ctxs s) c'). lia.
Qed.

(** [cache_begin_op], one turn: it waits while a commit runs or while its ten
    blocks might not fit, and otherwise is in, with its ten blocks reserved. *)
Definition begun (s : St) (P : gset Z) (O : list nat) (c : nat) (r : begin_result) (s' : St) : Prop :=
  match r with
  | WaitCommit => s' = s ∧ committing (log s) = true
  | WaitSpace => s' = s ∧ committing (log s) = false ∧
      LOG_MAX_SIZE < hnum (header s) + op_reserved (log s) + OP_MAX_NUM_BLOCKS
  | Entered => committing (log s) = false ∧ logok s' P (c :: O) ∧
      rm_of (ctxs s') c = OP_MAX_NUM_BLOCKS ∧ (∀ c', c' ≠ c → rm_of (ctxs s') c' = rm_of (ctxs s) c') ∧
      pool s' = pool s ∧ head s' = head s ∧ disk s' = disk s ∧ header s' = header s ∧
      committing (log s') = false ∧ writes s' = writes s
  end.

Lemma begin_attempt_spec s P O c :
  logok s P O → c ∉ O → (c < length (ctxs s))%nat → wp (begin_attempt c) (begun s P O c) s.
Proof.
  intros K Hc Hlt. pose proof (lo_space _ _ _ K) as Hsp. pose proof (lo_num _ _ _ K) as Hn.
  assert (Hr0 : 0 ≤ op_reserved (log s)).
  { rewrite (lo_res _ _ _ K). apply reserved_nonneg. intros d Hd. apply (lo_rm _ _ _ K d Hd). }
  unfold begin_attempt. apply wp_bind, wp_gets, wp_bind, wp_gets.
  destruct (committing (log s)) eqn:Ec; [by apply wp_ret|].
  rewrite u64_small by (lconst; unfold OP_MAX_NUM_BLOCKS; lia).
  destruct (LOG_MAX_SIZE <? _) eqn:El; [apply Z.ltb_lt in El; by apply wp_ret|apply Z.ltb_ge in El].
  apply wp_bind, wp_modify, wp_bind, wp_gets, wp_bind. eapply wp_deref; [by apply rm_lookup|].
  apply wp_bind, wp_modify, wp_bind, wp_modify, wp_ret. unfold begun. cbn.
  assert (Hrm : ∀ c', rm_of (alter (λ _, mkOpContext OP_MAX_NUM_BLOCKS) c (ctxs s)) c' =
                      if decide (c' = c) then OP_MAX_NUM_BLOCKS else rm_of (ctxs s) c')
    by (intros; by apply rm_of_alter).
  pose proof (logok_length_open _ _ _ K) as HO. pose proof (lo_ctxs _ _ _ K) as Hcx.
  lconst. unfold OP_MAX_NUM_BLOCKS in *. split_and!; try done; [|by rewrite Hrm, decide_True|].
  - split; cbn; try apply K; unfold OP_MAX_NUM_BLOCKS.
    + by constructor; [|apply K].
    + rewrite (lo_out _ _ _ K), u32_small by lia. lia.
    + rewrite length_alter. apply K.
    + intros c' Hc'. rewrite length_alter, Hrm. case_decide; [subst; lia|].
      apply elem_of_cons in Hc' as [->|Hc']; [done|]. by apply (lo_rm _ _ _ K).
    + rewrite reserved_cons, Hrm, decide_True by done. rewrite (reserved_ext (ctxs s)).
      * rewrite i32_small by lia. rewrite <-(lo_res _ _ _ K). lia.
      * intros c' Hc'. rewrite Hrm, decide_False; [done|]. by intros ->.
    + rewrite i32_small by lia. lconst. lia.
  - intros c' Hc'. by rewrite Hrm, decide_False.
Qed.

Lemma logok_leave s P O c g :
  logok s P O → c ∈ O → outstanding g = u32 (outstanding (log s) - 1) →
  op_reserved g = i32 (op_reserved (log s) - rm_of (ctxs s) c) →
  logok (set_log (λ _, g) s) P (filter (λ d, d ≠ c) O).
Proof.
  intros K Hc Ho Hg. pose proof (logok_res_bounds _ _ _ _ K Hc) as Hb.
  pose proof (logok_length_open _ _ _ K). pose proof (lo_ctxs _ _ _ K).
  pose proof (lo_space _ _ _ K). rewrite i32_small in Hg by lia.
  assert (Hf : (length (filter (λ d, d ≠ c) O) + 1 = length O)%nat).
  { destruct (proj1 (elem_of_Permutation _ _) Hc) as [O' HO]. rewrite HO, filter_cons, decide_False by tauto.
    rewrite filter_all; [cbn; lia|]. pose proof (lo_open _ _ _ K) as Hnd. rewrite HO in Hnd.
    apply NoDup_cons in Hnd as [Hn _]. by intros x Hx ->. }
  split; cbn; try apply K.
  - by apply NoDup_filter, K.
  - rewrite Ho, (lo_out _ _ _ K), u32_small by lia. lia.
  - intros d [_ Hd]%list_elem_of_filter. by apply (lo_rm _ _ _ K).
  - rewrite reserved_remove by (done || apply K). by rewrite Hg, (lo_res _ _ _ K).
  - lia.
Qed.

(** [cache_end_op]: with other operations open, the budget is returned and the
    caller waits; the last one commits, and what the transaction left is on
    disk when it returns. *)
Definition ended (s : St) (v : Z → list Z) (H P : gset Z) (O : list nat) (c : nat)
    (r : end_result) (s' : St) : Prop :=
  match r with
  | WaitPersist => filter (λ d, d ≠ c) O ≠ [] ∧ repr L s' v H P ∧
      logok s' P (filter (λ d, d ≠ c) O) ∧ disk s' = disk s
  | Persisted => filter (λ d, d ≠ c) O = [] ∧ logok s' ∅ [] ∧ committing (log s') = false ∧
      hnum (header s') = 0 ∧
      ∃ v', repr L s' v' H ∅ ∧ (∀ n, ¬ in_log (hnum (header s)) n → v' n = v n)
  end.

Lemma fapply_trace_out v h H n :
  log_region (logged h) H → Z.of_nat (length (logged h)) = hnum h → ¬ in_log (hnum h) n →
  fapply v (commit_trace v h) n = v n.
Proof.
  intros Hreg Hlen Hn. assert (n ≠ L) by (intros ->; apply Hn; unfold in_log; destruct Hreg; lia).
  unfold commit_trace. destruct (0 <? hnum h); [|done].
  rewrite fapply_app, fapply_cons, fapply_app. cbn. rewrite fupd_ne by done.
  destruct (decide (n ∈ logged h)) as [Hin|Hin].
  - apply fapply_install_list; [done|]. by destruct Hreg.
  - rewrite fapply_notin by (by rewrite fst_install_list). rewrite fupd_ne by done.
    apply fapply_notin. intros [Hx _]%log_writes_out. by rewrite Hlen in Hx.
Qed.

Lemma cache_end_op_spec s v H P O c :
  repr L s v H P → logok s P O → c ∈ O → log_region (logged (header s)) H →
  wp (cache_end_op c) (ended s v H P O c) s.
Proof.
  intros R K Hc Hreg. destruct (lo_rm _ _ _ K c Hc) as [Hlt _].
  unfold cache_end_op. apply wp_bind, wp_gets, wp_bind. eapply wp_deref; [by apply rm_lookup|].
  apply wp_bind, wp_modify, wp_bind, wp_gets. cbn [rm].
  set (g := mkLOG (committing (log s)) (u32 (outstanding (log s) - 1))
                  (i32 (op_reserved (log s) - rm_of (ctxs s) c))).
  change (set_log _ s) with (set_log (λ _, g) s). set (s1 := set_log (λ _, g) s).
  assert (K1 : logok s1 P (filter (λ d, d ≠ c) O)) by by eapply logok_leave.
  change (log s1) with g. pose proof (lo_out _ _ _ K1) as Ho. change (log s1) with g in Ho. rewrite Ho.
  assert (R1 : repr L s1 v H P) by (by eapply repr_same; [..|exact R]).
  destruct (_ =? 0) eqn:E.
  - apply Z.eqb_eq in E. destruct (filter _ O) as [|? ?] eqn:EO; [|done]. clear E.
    apply wp_bind, wp_modify, wp_bind. set (s2 := set_log _ s1).
    assert (K2 : logok s2 P []) by (destruct K1; split; done).
    assert (R2 : repr L s2 v H P) by (by eapply repr_same; [..|exact R1]).
    pose proof (logok_header _ _ _ K2) as HI.
    eapply wp_mono; [by apply (commit_spec s2 v H P)|]. intros [] s3 [R3 (E1&E2&E3&E4&_)].
    apply wp_bind, wp_modify, wp_ret. unfold ended. rewrite EO. split_and!; try done.
    + destruct K2. split; cbn in *; rewrite ?E1, ?E2, ?E4; cbn; try done.
      * constructor.
      * set_solver.
      * rewrite lo_res0. by vm_compute.
    + cbn. by rewrite E1.
    + eexists. split; [eapply repr_same; [..|exact R3]; done|]. intros n Hn.
      eapply (fapply_trace_out v (header s2)); [exact Hreg|by eapply length_logged|done].
  - apply wp_ret. unfold ended. split_and!; try done. intros EO. by rewrite EO in E.
Qed.

(** ** Properties *)

Lemma cache_sync_over_budget_fails s P O p b c :
  logok s P O → pool s !! p = Some b → block_no b ∉ P → c ∈ O → rm_of (ctxs s) c = 0 →
  hnum (header s) < LOG_MAX_SIZE → cache_sync (Some c) p s = Fail Panicked.
Proof.
  intros K Hp HnP Hc Hrm Hn. destruct (lo_rm _ _ _ K c Hc) as [Hlt _].
  unfold cache_sync, push_header, upd, block. rewrite !bind_run. cbn [gets]. rewrite Hp.
  cbn [deref mret M_ret]. rewrite !bind_run. cbn [gets].
  rewrite decide_False by (by rewrite <-(lo_pin _ _ _ K)). rewrite !bind_run. cbn [gets].
  rewrite (proj2 (Z.ltb_lt _ _)) by lia. cbn [modify]. rewrite !bind_run. cbn [gets pool set_header].
  rewrite Hp. cbn [deref mret M_ret modify]. rewrite !bind_run. cbn [gets ctxs set_header set_pool].
  rewrite (rm_lookup _ _ Hlt). rewrite bind_run. cbn [deref mret M_ret rm]. by rewrite Hrm.
Qed.

Lemma cache_sync_full_faults s P O p b c :
  logok s P O → pool s !! p = Some b → block_no b ∉ P → hnum (header s) = LOG_MAX_SIZE →
  cache_sync (Some c) p s = Fail Faulted.
Proof.
  intros K Hp HnP Hn.
  unfold cache_sync, push_header, upd, block. rewrite !bind_run. cbn [gets]. rewrite Hp.
  cbn [deref mret M_ret]. rewrite !bind_run. cbn [gets].
  rewrite decide_False by (by rewrite <-(lo_pin _ _ _ K)). rewrite !bind_run. cbn [gets]. by rewrite Hn.
Qed.

(** C3: Logging inside a transaction: a block already in the
    header is absorbed, a new one takes a unit of the transaction's budget of
    ten and is pinned, and the eleventh stops the kernel (in [PANIC()], or in
    a write past [header.block_no] when the header is full). *)
Theorem cache_sync_outcome s v H P O p n c :
  repr L s v H P → logok s P O → ptr s p n → uint 8 n → c ∈ O →
  if decide (n ∈ P ∨ 0 < rm_of (ctxs s) c) then
    ∃ s', cache_sync (Some c) p s = Ok (tt, s') ∧ repr L s' v H ({[n]} ∪ P) ∧
      logok s' ({[n]} ∪ P) O ∧ synced s s' P n c
  else
    cache_sync (Some c) p s =
      Fail (if decide (hnum (header s) = LOG_MAX_SIZE) then Faulted else Panicked).
Proof.
  intros R K Hptr Hu Hc. case_decide as D.
  - destruct (cache_sync_spec _ _ _ _ _ _ _ _ R K Hptr Hu Hc D) as ([] & s' & ? & ? & ? & _ & ?).
    by exists s'.
  - destruct (lo_rm _ _ _ K c Hc). destruct Hptr as (b & Hp & <- & _). case_decide.
    + eapply cache_sync_full_faults; [done..|tauto|done].
    + pose proof (lo_num _ _ _ K).
      eapply cache_sync_over_budget_fails; [done..|tauto|done|lia|lia].
Qed.

(** One block written in a transaction of its own. *)
Definition write_transaction (c : nat) (n : Z) (d : list Z) : M St end_result :=
  cache_begin_op c ;;
  p ← cache_acquire n;
  upd p (with_data d) ;;
  cache_sync (Some c) p ;;
  cache_release p ;;
  cache_end_op c.

Lemma logok_same s s' P O :
  header s' = header s → log s' = log s → ctxs s' = ctxs s → logok s P O → logok s' P O.
Proof. intros Eh El Ec K. destruct K. split; rewrite ?Eh, ?El, ?Ec; done. Qed.

Lemma logok_same_rest s s' P O : same_rest s s' → logok s P O → logok s' P O.
Proof. intros (?&?&_&?&_). by apply logok_same. Qed.

Lemma logged_singleton s n O : logok s {[n]} O → logged (header s) = [n].
Proof.
  intros K. apply Permutation_singleton_r, NoDup_Permutation; [apply K|apply NoDup_singleton|].
  intros m. rewrite <-(lo_pin _ _ _ K). set_solver.
Qed.

(** The transaction up to its end, on an idle cache. *)
Lemma write_body_spec s v c n d :
  repr L s v ∅ ∅ → logok s ∅ [c] → 0 < rm_of (ctxs s) c → uint 8 n → block_ok d → n ≠ L →
  wp (p ← cache_acquire n; upd p (with_data d) ;; cache_sync (Some c) p ;; cache_release p)
     (λ _ s', repr L s' (fupd v n d) ∅ {[n]} ∧ logok s' {[n]} [c] ∧ disk s' = disk s) s.
Proof.
  intros R K Hrm Hu Hd HnL. apply wp_bind.
  eapply wp_mono; [by apply cache_acquire_spec|]. intros p s2 (R2 & Hp & _ & E2).
  apply wp_bind. eapply wp_mono; [by eapply write_spec|]. intros [] s3 (R3 & Ht3 & E3).
  assert (K3 : logok s3 ∅ [c]) by (eapply logok_same_rest; [|exact K]; eauto with kernel).
  pose proof (same_rest_trans _ _ _ E2 E3) as (_&_&_&Ec&Ed&_).
  apply wp_bind. eapply wp_mono.
  { eapply (cache_sync_spec s3 _ _ _ _ p n c); [done|done|by apply Ht3|done|set_solver|]. right. by rewrite Ec. }
  intros [] s4 (R4 & K4 & Ht4 & (Ed4&_)).
  eapply wp_mono; [eapply cache_release_spec; [done|by apply Ht4, Ht3|left; set_solver]|].
  intros [] s5 (R5 & _ & E5).
  assert (({[n]} ∪ ∅) ∖ {[n]} = (∅ : gset Z)) as EH by set_solver.
  assert ({[n]} ∪ ∅ = ({[n]} : gset Z)) as EP by set_solver. rewrite EH, EP in R5. rewrite EP in K4.
  split_and!; [done|by eapply logok_same_rest|]. destruct E5 as (_&_&_&_&->&_). by rewrite Ed4.
Qed.

Definition write_transaction_post (s : St) (n : Z) (d : list Z) (r : end_result) (s' : St) : Prop :=
  r = Persisted ∧ logok s' ∅ [] ∧ hnum (header s') = 0 ∧
  ∀ m, ¬ in_log 1 m → disk_get (disk s') m = if decide (m = n) then d else disk_get (disk s) m.

Lemma write_transaction_spec s v c n d :
  repr L s v ∅ ∅ → logok s ∅ [] → committing (log s) = false → (c < length (ctxs s))%nat →
  uint 8 n → block_ok d → 0 ≤ L ∧ L + 64 < 2 ^ 64 → ¬ in_log 1 n →
  wp (write_transaction c n d) (write_transaction_post s n d) s.
Proof.
  intros R K Hcm Hc Hu Hd HL Hn. assert (n ≠ L) by (intros ->; apply Hn; unfold in_log; lia).
  assert (E0 : op_reserved (log s) = 0) by (by rewrite (lo_res _ _ _ K)).
  assert (Eh : hnum (header s) = 0).
  { rewrite <-(length_logged s ∅ (logok_header _ _ _ K)). destruct (logged (header s)) as [|x l] eqn:E; [done|].
    assert (x ∈ (∅ : gset Z)) by (apply (lo_pin _ _ _ K); rewrite E; set_solver). set_solver. }
  unfold write_transaction, cache_begin_op. apply wp_bind, wp_bind.
  eapply wp_mono; [apply (begin_attempt_spec s ∅ []); [done|set_solver|done]|].
  intros [] s1; cbn [begun]; intros B; [apply wp_ret| |].
  2: { destruct B as [_ B]. congruence. }
  2: { destruct B as (_ & _ & B). rewrite Eh, E0 in B. by vm_compute in B. }
  destruct B as (_&K1&Erm&_&Ep&Ehd&Ed&_).
  assert (R1 : repr L s1 v ∅ ∅) by (by eapply repr_same; [..|exact R]).
  pose proof (write_body_spec s1 v c n d R1 K1 ltac:(rewrite Erm; done) Hu Hd ltac:(done)) as W.
  destruct W as ([] & s5 & E5 & R5 & K5 & Ed5).
  exists Persisted. revert E5. rewrite !bind_run. destruct (cache_acquire n s1) as [[p sa]|]; [|done].
  rewrite !bind_run. destruct (upd p _ sa) as [[[] sb]|]; [|done].
  rewrite !bind_run. destruct (cache_sync _ p sb) as [[[] sc]|]; [|done].
  intros E5. rewrite bind_run, E5. pose proof (logged_singleton _ _ _ K5) as El.
  assert (Hreg : log_region (logged (header s5)) ∅).
  { rewrite El. split; [cbn; lconst; lia|apply NoDup_singleton| |set_solver].
    intros b ->%list_elem_of_singleton. split; [exact Hn|set_solver]. }
  destruct (cache_end_op_spec s5 _ ∅ {[n]} [c] c R5 K5 ltac:(set_solver) Hreg) as (r & s6 & E6 & P6).
  assert (Ef : filter (λ d, d ≠ c) [c] = []) by (rewrite filter_cons, decide_False by tauto; done).
  destruct r; cbn [ended] in P6; [|by destruct P6]. exists s6. split; [done|].
  destruct P6 as (_ & K6 & _ & Eh6 & v' & R6 & Hv'). split_and!; [done..|]. intros m Hm.
  assert (m ≠ L) by (intros ->; apply Hm; unfold in_log; lia).
  rewrite <-(repr_disk _ _ _ _ _ R6 m) by (done || set_solver).
  rewrite Hv' by (rewrite <-(length_logged _ _ (logok_header _ _ _ K5)), El; exact Hm).
  unfold fupd. case_decide; [done|]. by apply (repr_disk _ _ _ _ _ R); set_solver.
Qed.

(** C2: A transaction run on an idle cache: begin, acquire, write, sync,
    release, end.  It returns [Persisted]; then the block is on disk, every
    other block outside the log is unchanged on disk, nothing stays pinned and
    the log is empty. *)
Theorem write_transaction_durable s v c n d :
  repr L s v ∅ ∅ → logok s ∅ [] → committing (log s) = false → (c < length (ctxs s))%nat →
  uint 8 n → block_ok d → 0 ≤ L ∧ L + 64 < 2 ^ 64 → ¬ in_log 1 n →
  ∃ s', write_transaction c n d s = Ok (Persisted, s') ∧ logok s' ∅ [] ∧ hnum (header s') = 0 ∧
    ∀ m, ¬ in_log 1 m → disk_get (disk s') m = if decide (m = n) then d else disk_get (disk s) m.
Proof.
  intros. destruct (write_transaction_spec s v c n d) as (r & s' & E & -> & ?); [done..|]. by exists s'.
Qed.

Lemma for_each_app {St A} (l1 l2 : list A) (f : A → M St unit) s :
  for_each (l1 ++ l2) f s = (for_each l1 f ;; for_each l2 f) s.
Proof.
  revert s. induction l1 as [|x l IH]; intros s; [done|]. cbn [app for_each]. rewrite !bind_run.
  destruct (f x s) as [[[] s1]|]; [|done]. rewrite IH. by rewrite bind_run.
Qed.

(** [init_bcache] recovers the log, and then runs its last
    loop over block numbers ([SWAP_START], 800, on) where the array it clears,
    [swap_valid], has [SWAP_END - SWAP_START] entries: whatever the disk holds,
    it writes out of bounds. *)
Theorem init_bcache_faults s :
  pool s = [] → (∀ n bs, disk s !! n = Some bs → block_ok bs) →
  length (swap_valid s) = Z.to_nat (SWAP_END - SWAP_START) →
  hnum (disk_header (disk s)) ≤ LOG_MAX_SIZE → log_region (logged (disk_header (disk s))) ∅ →
  init_bcache s = Fail Faulted ∧
  ∃ s1 s2, recover_from_log s1 = Ok (tt, s2) ∧ disk s1 = disk s ∧ booted s1 ∧
    repr L s2 (recovered (disk s)) ∅ ∅ ∧ hnum (header s2) = 0.
Proof.
  intros Hp Hd Hsw Hn Hreg.
  set (s1 := set_log (λ g, mkLOG false 0 (op_reserved g)) (set_head (λ _, []) s)).
  assert (B : booted s1) by done.
  destruct (recover_spec s1 B Hn Hreg) as ([] & s2 & E & R & Eh & _ & _ & Es). split.
  - unfold init_bcache. rewrite bind_run. cbn [modify]. rewrite bind_run. cbn [modify]. fold s1.
    rewrite bind_run, E. rewrite zseq_cons by done. cbn [for_each]. rewrite bind_run.
    assert (clear_swap SWAP_START s2 = Fail Faulted) as ->; [|done]. unfold clear_swap. rewrite bind_run.
    cbn [gets]. by rewrite Es, (Hsw : length (swap_valid s1) = _).
  - exists s1, s2. split_and!; try done. by rewrite Eh.
Qed.

End log.

(** ** Examples *)

Module Examples.

Definition sb : SuperBlock := mkSuperBlock 1000 800 200 63 2 65 90.
Definition sevens : list Z := replicate (Z.to_nat BLOCK_SIZE) 7.
Definition hdr (l : list Z) : LogHeader :=
  mkLogHeader (Z.of_nat (length l)) (l ++ replicate (63 - length l) 0).
Definition ctxs2 : list OpContext := [mkOpContext 9; mkOpContext 0].
Definition swap0 : list bool := replicate 200 false.

(** A transaction has written block 100 and ended its updates. *)
Definition logged100 : St :=
  single (mkBlock 100 false true true 1 sevens) (hdr [100]) (mkLOG false 1 9) swap0 ctxs2.
(** A transaction with [r] units left holds block 100 and has not logged it. *)
Definition holding (r : Z) : St :=
  single (mkBlock 100 true false true 0 sevens) (hdr []) (mkLOG false 1 r) swap0
    [mkOpContext r; mkOpContext 0].
Definition idle : St :=
  single (mkBlock 100 false false true 1 zero_block) (hdr []) (mkLOG false 0 0) swap0 ctxs2.

Lemma sevens_ok : block_ok sevens.
Proof. split; [apply length_replicate|]. apply Forall_replicate. unfold byte_ok. lia. Qed.

Lemma region100 : log_region sb [100] ∅.
Proof.
  split; [cbn; lconst; lia|apply NoDup_singleton| |set_solver].
  intros b ->%list_elem_of_singleton. split; [unfold in_log; cbn; lia|set_solver].
Qed.

Lemma region_empty : log_region sb [] ∅.
Proof. by eapply log_region_nil, region100. Qed.

Lemma hdr_uint l : Forall (uint 8) l → Forall (uint 8) (hblk (hdr l)).
Proof. intros Hl. apply Forall_app. split; [done|]. apply Forall_replicate. unfold uint. lia. Qed.

Lemma uint100 : Forall (uint 8) [100].
Proof. constructor; [unfold uint; lia|constructor]. Qed.

Lemma logok_holding r : 0 ≤ r ≤ 10 → logok (holding r) ∅ [0%nat].
Proof.
  intros Hr. split.
  - reflexivity.
  - cbn. lconst. lia.
  - apply (hdr_uint []). constructor.
  - constructor.
  - intros n. unfold logged; cbn. set_solver.
  - apply NoDup_singleton.
  - reflexivity.
  - cbn. lia.
  - intros c ->%list_elem_of_singleton. unfold rm_of, OP_MAX_NUM_BLOCKS; cbn; lia.
  - unfold reserved, rm_of; cbn; lia.
  - cbn. lconst. lia.
Qed.

Lemma repr_idle : repr (log_start sb) idle (fupd (disk_get ∅) 100 zero_block) ∅ ∅.
Proof. apply (repr_single _ (mkBlock 100 false false true 1 zero_block)); cbn; auto using zero_block_ok. Qed.

Lemma logok_idle : logok idle ∅ [].
Proof.
  split.
  - reflexivity.
  - cbn. lconst. lia.
  - apply (hdr_uint []). constructor.
  - constructor.
  - intros n. unfold logged; cbn. set_solver.
  - constructor.
  - reflexivity.
  - cbn. lia.
  - set_solver.
  - reflexivity.
  - cbn. lconst. lia.
Qed.

Lemma commit_crash_atomic_witness :
  let sr := λ k, disk_get (disk (default logged100 (snd <$>
    match recover_from_log sb (mkSt [] [] (hdr []) (mkLOG false 0 0) swap0 ctxs2
      (dapply ∅ (take k (commit_trace sb (fupd (disk_get ∅) 100 sevens) (hdr [100])))) [])
    with Ok r => Some r | Fail _ => None end))) 100 in
  (sr 1%nat = zero_block ∧ sr 2%nat = sevens) ∧
  ∃ s' trace, commit sb logged100 = Ok (tt, s') ∧ writes s' = writes logged100 ++ trace ∧
    disk s' = dapply (disk logged100) trace ∧ hnum (disk_header sb (disk s')) = 0 ∧
    ∀ k sb', booted sb' → disk sb' = dapply (disk logged100) (take k trace) →
      ∃ sr, recover_from_log sb sb' = Ok (tt, sr) ∧
        ∀ n, ¬ in_log sb (hnum (header logged100)) n →
          disk_get (disk sr) n =
            if decide (k ≤ Z.to_nat (hnum (header logged100)))%nat
            then disk_get (disk logged100) n else fupd (disk_get ∅) 100 sevens n.
Proof.
  split; [split; vm_compute; reflexivity|].
  apply (commit_crash_atomic sb logged100 (fupd (disk_get ∅) 100 sevens) {[100]}).
  - apply (repr_single _ (mkBlock 100 false true true 1 sevens)); cbn; auto using sevens_ok.
  - split_and!; [reflexivity|cbn; lia|cbn; lconst; lia|apply hdr_uint, uint100|].
    intros n. unfold logged. cbn. set_solver.
  - exact region100.
  - vm_compute. reflexivity.
  - cbn. lia.
Defined.

Lemma cache_sync_outcome_witness :
  (∃ s', cache_sync (Some 0%nat) 0 (holding 10) = Ok (tt, s') ∧ 
    synced (holding 10) s' ∅ 100 0) ∧
  cache_sync (Some 0%nat) 0 (holding 0) = Fail Panicked.
Proof.
  assert (R : ∀ r, repr (log_start sb) (holding r) (fupd (disk_get ∅) 100 sevens) {[100]} ∅).
  { intros r. apply (repr_single _ (mkBlock 100 true false true 0 sevens)); cbn; auto using sevens_ok. }
  assert (Hp : ∀ r, ptr (holding r) 0 100) by (intros; by eexists).
  assert (Hu : uint 8 100) by (unfold uint; lia).
  split.
  - pose proof (cache_sync_outcome sb (holding 10) _ _ _ [0%nat] 0 100 0 (R 10)
      (logok_holding 10 ltac:(lia)) (Hp 10) Hu ltac:(set_solver)) as T.
    rewrite decide_True in T by (right; vm_compute; reflexivity).
    destruct T as (s' & E & _ & _ & Hs). by exists s'.
  - pose proof (cache_sync_outcome sb (holding 0) _ _ _ [0%nat] 0 100 0 (R 0)
      (logok_holding 0 ltac:(lia)) (Hp 0) Hu ltac:(set_solver)) as T.
    rewrite decide_False in T by (intros [?|Hx]; [set_solver|vm_compute in Hx; congruence]).
    exact T.
Defined.

Lemma write_transaction_durable_witness :
  ∃ s', write_transaction sb 1 300 sevens idle = Ok (Persisted, s') ∧ logok s' ∅ [] ∧
    hnum (header s') = 0 ∧
    ∀ m, ¬ in_log sb 1 m → disk_get (disk s') m = if decide (m = 300) then sevens else zero_block.
Proof.
  apply (write_transaction_durable sb idle (fupd (disk_get ∅) 100 zero_block) 1 300 sevens).
  - exact repr_idle.
  - exact logok_idle.
  - reflexivity.
  - cbn. lia.
  - unfold uint. lia.
  - exact sevens_ok.
  - cbn. lia.
  - unfold in_log. cbn. lia.
Defined.

(** A machine that boots with block 100 in the log. *)
Definition booting : St :=
  mkSt [] [] (hdr []) (mkLOG false 0 0) swap0 ctxs2
    (dapply ∅ [(3, sevens); (2, encode_header (hdr [100]))]) [].

Lemma init_bcache_faults_witness :
  init_bcache sb booting = Fail Faulted ∧
  ∃ s1 s2, recover_from_log sb s1 = Ok (tt, s2) ∧ disk s1 = disk booting ∧ booted s1 ∧
    repr (log_start sb) s2 (recovered sb (disk booting)) ∅ ∅ ∧ hnum (header s2) = 0.
Proof.
  assert (Hd : ∀ n bs, disk booting !! n = Some bs → block_ok bs).
  { intros n bs. unfold booting, dapply. cbn [disk foldl fst snd]. rewrite lookup_insert_Some.
    intros [[_ <-]|[_ Hx]].
    - apply encode_header_ok. split_and!; [unfold uint; cbn; lia|apply hdr_uint, uint100|reflexivity].
    - apply lookup_insert_Some in Hx as [[_ <-]|[_ Hx]]; [exact sevens_ok|done]. }
  assert (Hh : disk_header sb (disk booting) = hdr [100]) by (vm_compute; reflexivity).
  apply (init_bcache_faults sb booting); rewrite ?Hh; [reflexivity|exact Hd|reflexivity|cbn; lconst; lia|].
  exact region100.
Defined.

End Examples.
