(* ===== verification/BlockAlloc.v ===== *)
(** * The block bitmap and the swap area

    The allocator half of [src/fs/cache.c]: [BBLOCK], [bzero], [cache_alloc],
    [cache_free] on the on-disk bitmap, and [find_and_set_8_blocks],
    [release_8_blocks] on the in-memory array of swap blocks.

    [cache_alloc] takes the lowest clear bit and returns the block zeroed
    ([cache_alloc_spec]); [cache_free] clears a set bit and stops the kernel on
    a clear one ([cache_free_spec]); the swap search finds eight free blocks
    exactly when there are some ([find_and_set_correct]). *)

From S2P Require Import Prelude FsLayout BlockCache FsLog.

(** ** Bits of a block *)

(** [data[bi / 8] & (u8)(1 << (bi % 8))], and the updates [|=] and [&= ~]. *)
Definition bit_mask (bi : Z) : Z := u8 (Z.shiftl 1 (bi mod 8)).
Definition byte_at (d : list Z) (i : Z) : Z := nth (Z.to_nat i) d 0.
Definition bit_clear (d : list Z) (bi : Z) : bool := Z.land (byte_at d (bi / 8)) (bit_mask bi) =? 0.
Definition set_bit (d : list Z) (bi : Z) : list Z :=
  alter (λ b, u8 (Z.lor b (bit_mask bi))) (Z.to_nat (bi / 8)) d.
Definition clear_bit (d : list Z) (bi : Z) : list Z :=
  alter (λ b, u8 (Z.land b (Z.lnot (Z.shiftl 1 (bi mod 8))))) (Z.to_nat (bi / 8)) d.

(** The bit of a block, as a boolean. *)
Definition bit (d : list Z) (bi : Z) : bool := Z.testbit (byte_at d (bi / 8)) (bi mod 8).

Lemma bit_mask_eq bi : bit_mask bi = 2 ^ (bi mod 8).
Proof.
  unfold bit_mask. pose proof (Z.mod_pos_bound bi 8 ltac:(lia)) as H.
  rewrite Z.shiftl_mul_pow2, Z.mul_1_l by lia. apply u8_small. split; [lia|].
  apply Z.pow_lt_mono_r; lia.
Qed.

Lemma land_pow2 x k : 0 ≤ k → Z.land x (2 ^ k) = if Z.testbit x k then 2 ^ k else 0.
Proof.
  intros Hk. apply Z.bits_inj_iff'. intros n Hn. rewrite Z.land_spec.
  destruct (decide (n = k)) as [->|D].
  - destruct (Z.testbit x k); rewrite ?Z.pow2_bits_true, ?Z.bits_0 by lia; done.
  - rewrite (Z.pow2_bits_false k n) by lia. rewrite andb_false_r. destruct (Z.testbit x k).
    + by rewrite Z.pow2_bits_false by lia.
    + by rewrite Z.bits_0.
Qed.

Lemma bit_clear_bit d bi : bit_clear d bi = negb (bit d bi).
Proof.
  unfold bit_clear, bit. pose proof (Z.mod_pos_bound bi 8 ltac:(lia)) as H.
  rewrite bit_mask_eq, land_pow2 by lia.
  pose proof (Z.pow_pos_nonneg 2 (bi mod 8) ltac:(lia) ltac:(lia)).
  destruct (Z.testbit _ _); cbn [negb]; [apply Z.eqb_neq; lia|done].
Qed.

Lemma byte_bits_high b n : byte_ok b → 8 ≤ n → Z.testbit b n = false.
Proof.
  intros Hb Hn. destruct (decide (b = 0)) as [->|]; [apply Z.bits_0|].
  apply Z.bits_above_log2; [unfold byte_ok in Hb; lia|].
  apply (Z.lt_le_trans _ 8); [|done]. apply Z.log2_lt_pow2; unfold byte_ok in Hb; [lia|].
  change (2 ^ 8) with 256. lia.
Qed.

Lemma u8_testbit x n : 0 ≤ n < 8 → Z.testbit (u8 x) n = Z.testbit x n.
Proof. intros Hn. unfold u8, wrap. by rewrite Z.mod_pow2_bits_low by lia. Qed.

Lemma byte_at_alter d f i j :
  0 ≤ i → 0 ≤ j → (Z.to_nat i < length d)%nat →
  byte_at (alter f (Z.to_nat i) d) j = if decide (j = i) then f (byte_at d i) else byte_at d j.
Proof.
  intros Hi Hj Hl. unfold byte_at. rewrite !nth_lookup. case_decide as D.
  - subst. rewrite list_lookup_alter_eq. by destruct (lookup_lt_is_Some_2 d _ Hl) as [x ->].
  - rewrite list_lookup_alter_ne by lia. done.
Qed.

(** Setting or clearing a bit changes that bit only. *)
Lemma bit_alter d f bi bj x :
  block_ok d → 0 ≤ bi < BIT_PER_BLOCK → 0 ≤ bj < BIT_PER_BLOCK →
  (∀ b n, 0 ≤ n < 8 → Z.testbit (f b) n = if decide (n = bi mod 8) then x else Z.testbit b n) →
  bit (alter f (Z.to_nat (bi / 8)) d) bj = if decide (bj = bi) then x else bit d bj.
Proof.
  intros [Hl Hb] Hi Hj Hf. lconst. unfold bit.
  pose proof (Z.mod_pos_bound bi 8 ltac:(lia)). pose proof (Z.mod_pos_bound bj 8 ltac:(lia)).
  pose proof (Z.div_mod bi 8 ltac:(lia)). pose proof (Z.div_mod bj 8 ltac:(lia)).
  rewrite byte_at_alter by (rewrite ?Hl; try apply Z.div_pos; lia).
  destruct (decide (bj / 8 = bi / 8)) as [E|E].
  - rewrite Hf by lia. destruct (decide (bj = bi)) as [->|]; [by rewrite decide_True|].
    rewrite decide_False by lia. by rewrite E.
  - rewrite decide_False; [done|]. intros ->. done.
Qed.

Lemma bit_set_bit d bi bj :
  block_ok d → 0 ≤ bi < BIT_PER_BLOCK → 0 ≤ bj < BIT_PER_BLOCK →
  bit (set_bit d bi) bj = if decide (bj = bi) then true else bit d bj.
Proof.
  intros Hd Hi Hj. apply bit_alter; [done..|]. intros b n Hn. rewrite u8_testbit by done.
  rewrite Z.lor_spec, bit_mask_eq. pose proof (Z.mod_pos_bound bi 8 ltac:(lia)). case_decide.
  - subst. rewrite Z.pow2_bits_true by lia. by rewrite orb_true_r.
  - rewrite Z.pow2_bits_false by lia. by rewrite orb_false_r.
Qed.

Lemma bit_clear_bit_eq d bi bj :
  block_ok d → 0 ≤ bi < BIT_PER_BLOCK → 0 ≤ bj < BIT_PER_BLOCK →
  bit (clear_bit d bi) bj = if decide (bj = bi) then false else bit d bj.
Proof.
  intros Hd Hi Hj. apply bit_alter; [done..|]. intros b n Hn. rewrite u8_testbit by done.
  pose proof (Z.mod_pos_bound bi 8 ltac:(lia)).
  rewrite Z.land_spec, Z.lnot_spec, Z.shiftl_mul_pow2, Z.mul_1_l by lia. case_decide.
  - subst. rewrite Z.pow2_bits_true by lia. by rewrite andb_false_r.
  - rewrite Z.pow2_bits_false by lia. by rewrite andb_true_r.
Qed.

Lemma alter_block_ok d f i : (∀ b, byte_ok (f b)) → block_ok d → block_ok (alter f i d).
Proof.
  intros Hf [Hl Hb]. split; [by rewrite length_alter|]. apply Forall_lookup. intros j b Hj.
  destruct (decide (j = i)) as [->|D].
  - rewrite list_lookup_alter_eq in Hj. destruct (d !! i); [|done]. by injection Hj as <-.
  - rewrite list_lookup_alter_ne in Hj by done. rewrite Forall_lookup in Hb. eauto.
Qed.

Lemma set_bit_ok d bi : block_ok d → block_ok (set_bit d bi).
Proof. apply alter_block_ok. intros. apply u8_byte. Qed.
Lemma clear_bit_ok d bi : block_ok d → block_ok (clear_bit d bi).
Proof. apply alter_block_ok. intros. apply u8_byte. Qed.

Section alloc.
Context (sblock : SuperBlock).

(** ** Operations *)

Definition BBLOCK (b : Z) : Z := b / BIT_PER_BLOCK + bitmap_start sblock.

Definition bzero (ctx : option nat) (n : Z) : M St unit :=
  bp ← cache_acquire n;
  memset_zero bp ;;
  cache_sync ctx bp ;;
  cache_release bp.

(** The inner loop: [bi] with [bi < BIT_PER_BLOCK && b + bi < num_blocks]. *)
Definition find_bit (d : list Z) (b : Z) : option Z :=
  snd <$> list_find (λ bi, bit_clear d bi = true)
                    (zseq 0 (Z.min BIT_PER_BLOCK (num_blocks sblock - b))).

(** The outer loop from [b]; [b] is a [u32]. *)
Fixpoint alloc_from (fuel : nat) (ctx : option nat) (b : Z) : M St Z :=
  match fuel with
  | O => fail OutOfFuel
  | S fuel' =>
      if b <? num_blocks sblock then
        bp ← cache_acquire (BBLOCK b);
        x ← block bp;
        match find_bit (data x) b with
        | Some bi =>
            upd bp (with_data (set_bit (data x) bi)) ;;
            cache_sync ctx bp ;;
            cache_release bp ;;
            bzero ctx (u32 (b + bi)) ;;
            mret (u32 (b + bi))
        | None =>
            cache_release bp ;;
            alloc_from fuel' ctx (u32 (b + BIT_PER_BLOCK))
        end
      else panic
  end.

(** One turn per bitmap block. *)
Definition alloc_fuel : nat := Z.to_nat (num_blocks sblock / BIT_PER_BLOCK + 2).
Definition cache_alloc (ctx : option nat) : M St Z := alloc_from alloc_fuel ctx 0.

Definition cache_free (ctx : option nat) (n : Z) : M St unit :=
  bp ← cache_acquire (BBLOCK n);
  x ← block bp;
  let bi := n mod BIT_PER_BLOCK in
  if bit_clear (data x) bi then panic
  else
    upd bp (with_data (clear_bit (data x) bi)) ;;
    cache_sync ctx bp ;;
    cache_release bp.

(** ** Contract

    [used v n]: the bit of block [n] in the bitmap that [v] shows. *)
Definition used (v : Z → list Z) (n : Z) : bool := bit (v (BBLOCK n)) (n mod BIT_PER_BLOCK).
Definition is_bitmap (m : Z) : Prop :=
  bitmap_start sblock ≤ m ≤ bitmap_start sblock + (num_blocks sblock - 1) / BIT_PER_BLOCK.

Record layout_ok : Prop := {
  ly_blocks : 0 < num_blocks sblock ≤ 2 ^ 32 - 2 * BIT_PER_BLOCK;
  ly_bitmap : 0 ≤ bitmap_start sblock < 2 ^ 32;
  ly_header : ¬ is_bitmap (log_start sblock);
}.

Abbreviation L := (log_start sblock).


(** [synced] with unchanged steps around it. *)
Lemma synced_around s1 s2 s3 s4 P n c :
  same_rest s1 s2 → synced s2 s3 P n c → same_rest s3 s4 → synced s1 s4 P n c.
Proof.
  intros (?&E1&?&E2&?&?) (?&?&?&?&?&Hc) (?&E3&?&E4&?&?). unfold synced.
  split_and!; congruence.
Qed.

(** Writing a locked block inside a transaction, and giving it back. *)
Lemma store_sync_release s v H P O p n c d :
  repr L s v ({[n]} ∪ H) P → n ∉ H → ptr s p n → logok s P O → c ∈ O → uint 8 n → n ≠ L →
  block_ok d → n ∈ P ∨ 0 < rm_of (ctxs s) c →
  wp (upd p (with_data d) ;; cache_sync (Some c) p ;; cache_release p)
     (λ _ s', repr L s' (fupd v n d) H ({[n]} ∪ P) ∧ logok s' ({[n]} ∪ P) O ∧ synced s s' P n c ∧
              (∀ q m, m ≠ n → ptr s q m → ptr s' q m)) s.
Proof.
  intros R HnH Hp K Hc Hu HnL Hd Hroom.
  apply wp_bind. eapply wp_mono; [by eapply write_spec|]. intros [] s1 (R1 & Ht1 & E1).
  assert (K1 : logok s1 P O) by (eapply logok_same_rest; eauto).
  assert (Ec : ctxs s1 = ctxs s) by (destruct E1 as (_&_&_&?&_); done).
  apply wp_bind. eapply wp_mono.
  { eapply (cache_sync_spec _ s1 _ _ P O p n c); [done|done|by apply Ht1|done|done|by rewrite Ec]. }
  intros [] s2 (R2 & K2 & Ht2 & Y).
  eapply wp_mono; [eapply cache_release_spec; [done|by apply Ht2, Ht1|left; set_solver]|].
  intros [] s3 (R3 & Ht3 & E3). split_and!.
  - replace H with (({[n]} ∪ H) ∖ {[n]}); [done|]. apply set_eq. set_solver.
  - by eapply logok_same_rest.
  - by eapply synced_around.
  - intros q m Hm Hq. apply Ht3; [done|]. by apply Ht2, Ht1.
Qed.

(** Acquiring a block with its content. *)
Lemma acquire_spec s v H P n (Q : nat → St → Prop) :
  repr L s v H P → n ∉ H → n ≠ L →
  (∀ p s', repr L s' v ({[n]} ∪ H) P → ptr s' p n → (∀ q m, ptr s q m → ptr s' q m) →
     same_rest s s' → Q p s') →
  wp (cache_acquire n) Q s.
Proof.
  intros R HnH HL HQ. eapply wp_mono; [by apply cache_acquire_spec|]. intros p s' (?&?&?&?). auto.
Qed.

Lemma release_unchanged s0 s v H P p n :
  repr L s0 v H P → n ∉ H → n ≠ L → same_rest s0 s →
  repr L s v ({[n]} ∪ H) P → ptr s p n →
  wp (cache_release p) (λ _ s', repr L s' v H P ∧ (∀ q m, m ≠ n → ptr s q m → ptr s' q m) ∧
                                same_rest s0 s') s.
Proof.
  intros R0 HnH HnL E0 R Hp.
  eapply wp_mono; [eapply cache_release_spec; [done..|]|].
  - destruct (decide (n ∈ P)); [by left|right]. destruct E0 as (_&_&_&_&->&_).
    by apply (repr_disk _ _ _ _ _ R0).
  - intros [] s1 (R1 & Ht & E1). split_and!; [|done|by eauto with kernel].
    replace H with (({[n]} ∪ H) ∖ {[n]}); [done|]. apply set_eq. set_solver.
Qed.

Lemma bzero_spec s v H P O n c :
  repr L s v H P → n ∉ H → n ≠ L → logok s P O → c ∈ O → uint 8 n →
  n ∈ P ∨ 0 < rm_of (ctxs s) c →
  wp (bzero (Some c) n)
     (λ _ s', repr L s' (fupd v n zero_block) H ({[n]} ∪ P) ∧ logok s' ({[n]} ∪ P) O ∧
              synced s s' P n c ∧ (∀ q m, m ≠ n → ptr s q m → ptr s' q m)) s.
Proof.
  intros R HnH HnL K Hc Hu Hroom. unfold bzero, memset_zero. apply wp_bind.
  eapply acquire_spec; [done..|]. intros p s1 R1 Hp Ht1 E1.
  assert (Ec : ctxs s1 = ctxs s) by (destruct E1 as (_&_&_&?&_); done).
  eapply wp_mono; [eapply store_sync_release; try done|].
  - by eapply logok_same_rest.
  - apply zero_block_ok.
  - by rewrite Ec.
  - intros [] s2 (R2 & K2 & Y & Ht2). split_and!; [done..| |].
    + eapply synced_around; [exact E1|exact Y|apply same_rest_refl].
    + intros q m Hm Hq. by apply Ht2, Ht1.
Qed.

(** ** The bitmap as a set of block numbers *)

Hypothesis Hly : layout_ok.

Lemma BBLOCK_bitmap n : 0 ≤ n < num_blocks sblock → is_bitmap (BBLOCK n).
Proof.
  intros Hn. unfold is_bitmap, BBLOCK.
  assert (0 ≤ n / BIT_PER_BLOCK ≤ (num_blocks sblock - 1) / BIT_PER_BLOCK); [|lia].
  lconst. split; [apply Z.div_pos; lia|apply Z.div_le_mono; lia].
Qed.

Lemma BBLOCK_ne_L n : 0 ≤ n < num_blocks sblock → BBLOCK n ≠ L.
Proof. intros Hn E. apply (ly_header Hly). rewrite <-E. by apply BBLOCK_bitmap. Qed.

Lemma BBLOCK_uint n : 0 ≤ n < num_blocks sblock → uint 8 (BBLOCK n).
Proof.
  intros Hn. pose proof (BBLOCK_bitmap n Hn) as [? Hb]. pose proof (ly_bitmap Hly).
  pose proof (ly_blocks Hly) as Hnb.
  assert ((num_blocks sblock - 1) / BIT_PER_BLOCK ≤ num_blocks sblock).
  { lconst. apply Z.div_le_upper_bound; lia. }
  unfold uint. lconst. lia.
Qed.

Lemma BBLOCK_split b bi : b mod BIT_PER_BLOCK = 0 → 0 ≤ bi < BIT_PER_BLOCK →
  BBLOCK (b + bi) = BBLOCK b ∧ (b + bi) mod BIT_PER_BLOCK = bi.
Proof.
  intros Hb Hbi. lconst. pose proof (Z.div_mod b 4096 ltac:(lia)) as E. rewrite Hb, Z.add_0_r in E.
  unfold BBLOCK. lconst. rewrite E. split.
  - rewrite (Z.mul_comm 4096), Z.div_add_l, Z.div_mul, (Z.div_small bi) by lia. lia.
  - rewrite (Z.add_comm _ bi), (Z.mul_comm 4096), Z.mod_add by lia. by apply Z.mod_small.
Qed.

Lemma same_bit n m : BBLOCK n = BBLOCK m → n mod BIT_PER_BLOCK = m mod BIT_PER_BLOCK → n = m.
Proof.
  unfold BBLOCK. lconst. intros H1 H2. pose proof (Z.div_mod n 4096 ltac:(lia)).
  pose proof (Z.div_mod m 4096 ltac:(lia)). lia.
Qed.

Lemma used_fupd v n m f x :
  block_ok (v (BBLOCK n)) →
  (∀ bj, 0 ≤ bj < BIT_PER_BLOCK →
     bit (f (v (BBLOCK n))) bj = if decide (bj = n mod BIT_PER_BLOCK) then x else bit (v (BBLOCK n)) bj) →
  used (fupd v (BBLOCK n) (f (v (BBLOCK n)))) m = if decide (m = n) then x else used v m.
Proof.
  intros Hok Hf. unfold used.
  assert (0 ≤ m mod BIT_PER_BLOCK < BIT_PER_BLOCK) by (lconst; apply Z.mod_pos_bound; lia).
  unfold fupd. destruct (decide (BBLOCK m = BBLOCK n)) as [E|E].
  - rewrite Hf by done. destruct (decide (m = n)) as [->|D]; [by rewrite decide_True|].
    rewrite decide_False; [by rewrite E|]. intros Em. apply D. by apply same_bit.
  - rewrite decide_False; [done|]. by intros ->.
Qed.

Lemma find_bit_Some d b bi :
  find_bit d b = Some bi →
  0 ≤ bi < BIT_PER_BLOCK ∧ b + bi < num_blocks sblock ∧ bit d bi = false ∧
  ∀ bj, 0 ≤ bj < bi → bit d bj = true.
Proof.
  unfold find_bit. destruct (list_find _ _) as [[i x]|] eqn:E; cbn; [|done]. intros [= ->].
  apply list_find_Some in E as (Hi & Hc & Hall). pose proof (lookup_lt_Some _ _ _ Hi) as Hlt.
  rewrite length_zseq in Hlt. rewrite lookup_zseq in Hi by done. injection Hi as <-.
  rewrite bit_clear_bit in Hc. split_and!; [lia|lia|lia|by destruct (bit _ _)|].
  intros bj Hbj. specialize (Hall (Z.to_nat bj) bj). rewrite bit_clear_bit in Hall.
  destruct (bit d bj); [done|]. exfalso. apply Hall; [|lia|done].
  rewrite lookup_zseq by lia. f_equal. lia.
Qed.

Lemma find_bit_None d b bj :
  find_bit d b = None → 0 ≤ bj < BIT_PER_BLOCK → b + bj < num_blocks sblock → bit d bj = true.
Proof.
  unfold find_bit. destruct (list_find _ _) as [|] eqn:E; cbn; [done|]. intros _ Hj Hb.
  apply list_find_None in E. rewrite Forall_forall in E. specialize (E bj).
  rewrite bit_clear_bit in E. destruct (bit d bj); [done|]. exfalso. apply E; [|done].
  apply elem_of_zseq. lia.
Qed.

(** ** [cache_alloc] *)

(** What [cache_alloc] does to the view: the bit of [n] is set, [n] is zeroed. *)
Definition alloc_view (v : Z → list Z) (n : Z) : Z → list Z :=
  fupd (fupd v (BBLOCK n) (set_bit (v (BBLOCK n)) (n mod BIT_PER_BLOCK))) n zero_block.

(** No bitmap block is locked, and no free bit stands for a locked block, the
    log header or a bitmap block. *)
Definition reserved_used (v : Z → list Z) (H : gset Z) : Prop :=
  (∀ m, is_bitmap m → m ∉ H) ∧
  ∀ n, 0 ≤ n < num_blocks sblock → used v n = false → n ∉ H ∧ n ≠ L ∧ ¬ is_bitmap n.

Record allocated (s : St) (v : Z → list Z) (H P : gset Z) (O : list nat) (c : nat) (n : Z) (s' : St) : Prop := {
  al_repr : repr L s' (alloc_view v n) H ({[n]} ∪ ({[BBLOCK n]} ∪ P));
  al_log : logok s' ({[n]} ∪ ({[BBLOCK n]} ∪ P)) O;
  al_units : rm_of (ctxs s) c - 2 ≤ rm_of (ctxs s') c;
  al_upper : rm_of (ctxs s') c ≤ rm_of (ctxs s) c;
  al_others : ∀ c', c' ≠ c → rm_of (ctxs s') c' = rm_of (ctxs s) c';
  al_disk : disk s' = disk s;
  al_ptr : ∀ q m, m ∈ H → ptr s q m → ptr s' q m;
}.

Lemma bitmap_ok s v H P n : repr L s v H P → 0 ≤ n < num_blocks sblock → block_ok (v (BBLOCK n)).
Proof. intros R Hn. eapply repr_view_ok; [exact R|]. by apply BBLOCK_ne_L. Qed.

Lemma sync_cost_le P n c : 0 ≤ sync_cost P n c c ≤ 1.
Proof. unfold sync_cost. case_decide; lia. Qed.
Lemma sync_cost_ne P n c c' : c' ≠ c → sync_cost P n c c' = 0.
Proof. intros H. unfold sync_cost. rewrite decide_False by tauto. done. Qed.

(** The turn of the loop that finds a clear bit. *)
Lemma alloc_take s0 s v H P O c b bi p :
  repr L s0 v H P → same_rest s0 s → (∀ q m, ptr s0 q m → ptr s q m) →
  repr L s v ({[BBLOCK b]} ∪ H) P → ptr s p (BBLOCK b) → logok s P O → c ∈ O →
  2 ≤ rm_of (ctxs s) c → reserved_used v H → 0 ≤ b → b mod BIT_PER_BLOCK = 0 →
  find_bit (v (BBLOCK b)) b = Some bi →
  wp (upd p (with_data (set_bit (v (BBLOCK b)) bi)) ;; cache_sync (Some c) p ;; cache_release p ;;
      bzero (Some c) (u32 (b + bi)) ;; mret (u32 (b + bi)))
     (λ r s', r = b + bi ∧ allocated s0 v H P O c (b + bi) s') s.
Proof.
  intros R0 E0 Ht0 R Hp K Hc Hrm [Hbm Hres] Hb Hmod Hbi.
  apply find_bit_Some in Hbi as (Hbi & Hlt & Hclear & _).
  destruct (BBLOCK_split b bi Hmod Hbi) as [EB Em]. set (n := b + bi) in *.
  assert (Hn : 0 ≤ n < num_blocks sblock) by lia.
  assert (Hbn : 0 ≤ b < num_blocks sblock) by lia.
  pose proof (BBLOCK_bitmap b Hbn) as HB. pose proof (BBLOCK_ne_L b Hbn) as HBL.
  destruct (Hres n Hn) as (HnH & HnL & Hnb); [unfold used; by rewrite EB, Em|].
  assert (HBn : BBLOCK b ≠ n) by (intros E; apply Hnb; by rewrite <-E).
  rewrite (u32_small n) by (pose proof (ly_blocks Hly); lconst; lia).
  assert (Hok : block_ok (v (BBLOCK b))) by by eapply bitmap_ok.
  assert (Hun : uint 8 n) by (pose proof (ly_blocks Hly); unfold uint; lconst; lia).
  apply wp_seq3. eapply wp_mono.
  { eapply (store_sync_release s v H P O p (BBLOCK b) c); try done; [by apply Hbm|by apply BBLOCK_uint| |right; lia].
    by apply set_bit_ok. }
  intros [] s1 (R1 & K1 & (Ed1 & _ & _ & _ & _ & Y1) & Ht1). apply wp_bind.
  pose proof (Y1 c) as Yc. pose proof (sync_cost_le P (BBLOCK b) c) as C1.
  eapply wp_mono; [eapply (bzero_spec s1); try done; right; lia|].
  intros [] s2 (R2 & K2 & (Ed2 & _ & _ & _ & _ & Y2) & Ht2). apply wp_ret. split; [done|].
  pose proof (Y2 c) as Yc2. pose proof (sync_cost_le ({[BBLOCK b]} ∪ P) n c) as C2.
  destruct E0 as (_&_&_&Ec&Ed&_). split; unfold alloc_view; rewrite ?EB, ?Em; try done.
  - rewrite Ec in *. lia.
  - rewrite Ec in *. lia.
  - intros c' Hc'. rewrite Y2, Y1, !sync_cost_ne by done. rewrite Ec. lia.
  - congruence.
  - intros q m Hm Hq. apply Ht2; [by intros ->|]. apply Ht1; [|by apply Ht0].
    intros ->. by apply (Hbm (BBLOCK b)).
Qed.

Lemma alloc_from_spec fuel s v H P O c b n :
  repr L s v H P → logok s P O → c ∈ O → 2 ≤ rm_of (ctxs s) c → reserved_used v H →
  0 ≤ b → b mod BIT_PER_BLOCK = 0 → b ≤ n < num_blocks sblock → used v n = false →
  (∀ m, b ≤ m < n → used v m = true) →
  num_blocks sblock - b < Z.of_nat fuel * BIT_PER_BLOCK →
  wp (alloc_from fuel (Some c) b) (λ r s', r = n ∧ allocated s v H P O c n s') s.
Proof.
  revert s b. induction fuel as [|fuel IH]; intros s b R K Hc Hrm Hres Hb Hmod Hn Hfree Hmin Hf; [lia|].
  cbn [alloc_from]. rewrite (proj2 (Z.ltb_lt _ _)) by lia.
  assert (Hbn : 0 ≤ b < num_blocks sblock) by lia.
  pose proof (BBLOCK_bitmap b Hbn) as HB. pose proof (BBLOCK_ne_L b Hbn) as HBL.
  apply wp_bind. eapply acquire_spec; [exact R|by apply (proj1 Hres)|done|]. intros p s1 R1 Hp Ht1 E1.
  apply wp_bind. eapply block_spec; [exact R1|exact Hp|]. intros x _ ->.
  destruct (find_bit (v (BBLOCK b)) b) as [bi|] eqn:Ef.
  - pose proof Ef as Ef'. apply find_bit_Some in Ef' as (Hbi & Hlt & Hclear & Hall).
    assert (n = b + bi) as ->.
    { destruct (BBLOCK_split b bi Hmod Hbi) as [EB Em].
      destruct (Z.lt_trichotomy n (b + bi)) as [D|[D|D]]; [exfalso|done|exfalso].
      - destruct (BBLOCK_split b (n - b) Hmod) as [EB' Em']; [lconst; lia|].
        replace (b + (n - b)) with n in * by lia. unfold used in Hfree. rewrite EB', Em' in Hfree.
        rewrite Hall in Hfree by lia. done.
      - specialize (Hmin (b + bi)). unfold used in Hmin. rewrite EB, Em, Hclear in Hmin.
        discriminate Hmin. lia. }
    eapply alloc_take; try done; [by eapply logok_same_rest|].
    destruct E1 as (_&_&_&->&_). done.
  - apply wp_bind. eapply wp_mono; [eapply release_unchanged; [exact R|by apply (proj1 Hres)|done..]|].
    intros [] s2 (R2 & Ht2 & E2).
    assert (b + BIT_PER_BLOCK ≤ n).
    { destruct (decide (b + BIT_PER_BLOCK ≤ n)) as [|D]; [done|exfalso].
      destruct (BBLOCK_split b (n - b) Hmod) as [EB' Em']; [lia|].
      replace (b + (n - b)) with n in * by lia. unfold used in Hfree. rewrite EB', Em' in Hfree.
      rewrite (find_bit_None _ _ (n - b) Ef) in Hfree by lia. done. }
    pose proof (ly_blocks Hly) as Hnb. rewrite u32_small by (lconst; lia).
    destruct E2 as (Eh2&El2&Es2&Ec2&Ed2&Ew2).
    eapply wp_mono; [apply (IH s2 (b + BIT_PER_BLOCK)); try done|].
    + by eapply logok_same.
    + by rewrite Ec2.
    + lconst; lia.
    + lconst. rewrite <-Hmod. rewrite <-(Z.mul_1_l 4096) at 1. by apply Z_mod_plus_full.
    + lia.
    + intros m Hm. apply Hmin. lconst. lia.
    + lia.
    + intros r s3 (-> & [A1 A2 A3 A3' A4 A5 A6]). split; [done|]. rewrite Ec2 in A3, A3', A4. rewrite Ed2 in A5.
      split; try done. intros q m Hm Hq. apply A6; [done|]. apply Ht2; [|by apply Ht1].
      intros ->. by apply (proj1 Hres (BBLOCK b)).
Qed.

Lemma cache_alloc_spec s v H P O c n :
  repr L s v H P → logok s P O → c ∈ O → 2 ≤ rm_of (ctxs s) c → reserved_used v H →
  0 ≤ n < num_blocks sblock → used v n = false → (∀ m, 0 ≤ m < n → used v m = true) →
  wp (cache_alloc (Some c)) (λ r s', r = n ∧ allocated s v H P O c n s') s.
Proof.
  intros R K Hc Hrm Hres Hn Hfree Hmin. apply alloc_from_spec; try done. unfold alloc_fuel.
  lconst. pose proof (Z.div_mod (num_blocks sblock) 4096 ltac:(lia)).
  pose proof (Z.mod_pos_bound (num_blocks sblock) 4096 ltac:(lia)).
  assert (0 ≤ num_blocks sblock / 4096) by (apply Z.div_pos; lia). lia.
Qed.

(** The bitmap after an allocation. *)
Lemma used_alloc_view s v H P n m :
  repr L s v H P → 0 ≤ n < num_blocks sblock → 0 ≤ m < num_blocks sblock → ¬ is_bitmap n →
  used (alloc_view v n) m = (bool_decide (m = n) || used v m).
Proof.
  intros R Hn Hm Hnb. unfold alloc_view.
  transitivity (used (fupd v (BBLOCK n) (set_bit (v (BBLOCK n)) (n mod BIT_PER_BLOCK))) m).
  - unfold used at 1. rewrite fupd_ne; [done|]. intros E. apply Hnb. rewrite <-E. by apply BBLOCK_bitmap.
  - rewrite (used_fupd v n m (λ d, set_bit d (n mod BIT_PER_BLOCK)) true).
    + case_bool_decide; case_decide; done.
    + by eapply bitmap_ok.
    + intros bj Hbj. apply bit_set_bit; [by eapply bitmap_ok| |done]. lconst. by apply Z.mod_pos_bound.
Qed.

(** ** [cache_free] *)

Definition free_view (v : Z → list Z) (n : Z) : Z → list Z :=
  fupd v (BBLOCK n) (clear_bit (v (BBLOCK n)) (n mod BIT_PER_BLOCK)).

Record freed (s : St) (v : Z → list Z) (H P : gset Z) (O : list nat) (c : nat) (n : Z) (s' : St) : Prop := {
  fr_repr : repr L s' (free_view v n) H ({[BBLOCK n]} ∪ P);
  fr_log : logok s' ({[BBLOCK n]} ∪ P) O;
  fr_units : rm_of (ctxs s') c = rm_of (ctxs s) c - sync_cost P (BBLOCK n) c c;
  fr_others : ∀ c', c' ≠ c → rm_of (ctxs s') c' = rm_of (ctxs s) c';
  fr_disk : disk s' = disk s;
  fr_ptr : ∀ q m, m ∈ H → ptr s q m → ptr s' q m;
}.

Lemma cache_free_spec s v H P O c n :
  repr L s v H P → logok s P O → c ∈ O → 0 ≤ n < num_blocks sblock → BBLOCK n ∉ H →
  BBLOCK n ∈ P ∨ 0 < rm_of (ctxs s) c → used v n = true →
  wp (cache_free (Some c) n) (λ _ s', freed s v H P O c n s') s.
Proof.
  intros R K Hc Hn HBH Hroom Hused. unfold cache_free. pose proof (BBLOCK_ne_L n Hn) as HBL.
  apply wp_bind. eapply acquire_spec; [done..|]. intros p s1 R1 Hp Ht1 E1.
  apply wp_bind. eapply block_spec; [exact R1|exact Hp|]. intros x _ ->.
  rewrite bit_clear_bit. unfold used in Hused. rewrite Hused. cbn [negb].
  assert (Ec : ctxs s1 = ctxs s) by (destruct E1 as (_&_&_&?&_); done).
  eapply wp_mono; [eapply store_sync_release; try done|].
  - by eapply logok_same_rest.
  - by apply BBLOCK_uint.
  - by eapply clear_bit_ok, bitmap_ok.
  - by rewrite Ec.
  - intros [] s2 (R2 & K2 & (Ed&_&_&_&_&Y) & Ht2). split; try done.
    + by rewrite Y, Ec.
    + intros c' Hc'. rewrite Y, Ec, sync_cost_ne by done. lia.
    + rewrite Ed. destruct E1 as (_&_&_&_&?&_). done.
    + intros q m Hm Hq. apply Ht2; [by intros ->|by apply Ht1].
Qed.

Lemma used_free_view s v H P n m :
  repr L s v H P → 0 ≤ n < num_blocks sblock →
  used (free_view v n) m = (negb (bool_decide (m = n)) && used v m).
Proof.
  intros R Hn. unfold free_view. rewrite (used_fupd v n m (λ d, clear_bit d (n mod BIT_PER_BLOCK)) false).
  - case_bool_decide; case_decide; done.
  - by eapply bitmap_ok.
  - intros bj Hbj. apply bit_clear_bit_eq; [by eapply bitmap_ok| |done]. lconst. by apply Z.mod_pos_bound.
Qed.

(** ** Failures *)

Lemma cache_free_clear_fails s v H P ctx n :
  repr L s v H P → 0 ≤ n < num_blocks sblock → BBLOCK n ∉ H → used v n = false →
  cache_free ctx n s = Fail Panicked.
Proof.
  intros R Hn HBH Hused. pose proof (BBLOCK_ne_L n Hn) as HBL. unfold cache_free.
  destruct (cache_acquire_spec L s v H P (BBLOCK n) R HBH HBL) as (p & s1 & E & R1 & Hp & _).
  rewrite bind_run, E. destruct (block_spec L s1 v _ P p (BBLOCK n)
    (λ x s', data x = v (BBLOCK n) ∧ s' = s1) R1 Hp) as (x & s2 & Ex & Hd & ->).
  { intros x _ Hx. done. }
  rewrite bind_run, Ex. cbv zeta. rewrite Hd, bit_clear_bit. unfold used in Hused. by rewrite Hused.
Qed.

Lemma alloc_from_full fuel s v H P ctx b :
  repr L s v H P → (∀ m, is_bitmap m → m ∉ H) → 0 ≤ b → b mod BIT_PER_BLOCK = 0 →
  (∀ m, 0 ≤ m < num_blocks sblock → used v m = true) →
  num_blocks sblock - b < (Z.of_nat fuel - 1) * BIT_PER_BLOCK → b < num_blocks sblock + BIT_PER_BLOCK →
  alloc_from fuel ctx b s = Fail Panicked.
Proof.
  revert s b. induction fuel as [|fuel IH]; intros s b R Hbm Hb Hmod Hfull Hf Hlt; [|cbn [alloc_from]].
  { pose proof (ly_blocks Hly). lconst. lia. }
  destruct (b <? num_blocks sblock) eqn:Elt; [apply Z.ltb_lt in Elt|done].
  assert (Hbn : 0 ≤ b < num_blocks sblock) by lia. pose proof (BBLOCK_ne_L b Hbn) as HBL.
  pose proof (Hbm _ (BBLOCK_bitmap b Hbn)) as HBH.
  destruct (cache_acquire_spec L s v H P (BBLOCK b) R HBH HBL) as (p & s1 & E & R1 & Hp & _ & E1).
  rewrite bind_run, E. destruct (block_spec L s1 v _ P p (BBLOCK b)
    (λ x s', data x = v (BBLOCK b) ∧ s' = s1) R1 Hp) as (x & s2 & Ex & Hd & ->).
  { intros x _ Hx. done. }
  rewrite bind_run, Ex, Hd. destruct (find_bit (v (BBLOCK b)) b) as [bi|] eqn:Ef.
  - exfalso. apply find_bit_Some in Ef as (Hbi & Hlt' & Hclear & _).
    destruct (BBLOCK_split b bi Hmod Hbi) as [EB Em]. specialize (Hfull (b + bi)).
    unfold used in Hfull. rewrite EB, Em, Hclear in Hfull. discriminate Hfull. lia.
  - destruct (release_unchanged s s1 v H P p (BBLOCK b) R HBH HBL E1 R1 Hp) as ([] & s3 & E3 & R3 & _).
    rewrite bind_run, E3. pose proof (ly_blocks Hly). rewrite u32_small by (lconst; lia).
    apply IH; try done.
    + lconst; lia.
    + lconst. rewrite <-Hmod. rewrite <-(Z.mul_1_l 4096) at 1. by apply Z_mod_plus_full.
    + lconst; lia.
    + lia.
Qed.

Lemma cache_alloc_full s v H P ctx :
  repr L s v H P → (∀ m, is_bitmap m → m ∉ H) → (∀ m, 0 ≤ m < num_blocks sblock → used v m = true) →
  cache_alloc ctx s = Fail Panicked.
Proof.
  intros R Hbm Hfull. pose proof (ly_blocks Hly). eapply alloc_from_full; try done; [|lconst; lia]. unfold alloc_fuel. lconst.
  pose proof (Z.div_mod (num_blocks sblock) 4096 ltac:(lia)).
  pose proof (Z.mod_pos_bound (num_blocks sblock) 4096 ltac:(lia)).
  assert (0 ≤ num_blocks sblock / 4096) by (apply Z.div_pos; pose proof (ly_blocks Hly); lia). lia.
Qed.

(** ** Properties *)

(** The lowest free block. *)
Definition first_free (v : Z → list Z) (n : Z) : Prop :=
  0 ≤ n < num_blocks sblock ∧ used v n = false ∧ ∀ m, 0 ≤ m < n → used v m = true.

(** C18: [cache_alloc] in a transaction with two units left returns the lowest
    free block, zeroed, marks exactly it as used, and leaves every other block
    as it was; when no block is free it stops the kernel. *)
Theorem cache_alloc_correct s v H P O c :
  repr L s v H P → logok s P O → c ∈ O → 2 ≤ rm_of (ctxs s) c → reserved_used v H →
  (∀ n, first_free v n →
     ∃ s' v', cache_alloc (Some c) s = Ok (n, s') ∧
       repr L s' v' H ({[n]} ∪ ({[BBLOCK n]} ∪ P)) ∧ logok s' ({[n]} ∪ ({[BBLOCK n]} ∪ P)) O ∧
       v' n = zero_block ∧ (∀ m, m ≠ n → ¬ is_bitmap m → v' m = v m) ∧
       (∀ m, 0 ≤ m < num_blocks sblock → used v' m = (bool_decide (m = n) || used v m)) ∧
       rm_of (ctxs s) c - 2 ≤ rm_of (ctxs s') c) ∧
  ((∀ m, 0 ≤ m < num_blocks sblock → used v m = true) → cache_alloc (Some c) s = Fail Panicked).
Proof.
  intros R K Hc Hrm Hres. split.
  - intros n (Hn & Hfree & Hmin).
    destruct (cache_alloc_spec s v H P O c n R K Hc Hrm Hres Hn Hfree Hmin) as (r & s' & E & -> & A).
    destruct (proj2 Hres n Hn Hfree) as (_ & _ & Hnb).
    exists s', (alloc_view v n). split_and!; try apply A; try done.
    + apply fupd_eq.
    + intros m Hm Hmb. unfold alloc_view. rewrite !fupd_ne; [done| |done].
      intros ->. by apply Hmb, BBLOCK_bitmap.
    + intros m Hm. by eapply used_alloc_view.
  - intros Hfull. eapply cache_alloc_full; [done|apply Hres|done].
Qed.

(** [cache_free] clears exactly the bit of a used block, and stops the
    kernel on a block that is free already. *)
Theorem cache_free_correct s v H P O c n :
  repr L s v H P → logok s P O → c ∈ O → 0 < rm_of (ctxs s) c →
  0 ≤ n < num_blocks sblock → BBLOCK n ∉ H →
  if used v n then
    ∃ s' v', cache_free (Some c) n s = Ok (tt, s') ∧ repr L s' v' H ({[BBLOCK n]} ∪ P) ∧
      logok s' ({[BBLOCK n]} ∪ P) O ∧ (∀ m, m ≠ BBLOCK n → v' m = v m) ∧
      ∀ m, used v' m = (negb (bool_decide (m = n)) && used v m)
  else cache_free (Some c) n s = Fail Panicked.
Proof.
  intros R K Hc Hrm Hn HBH. destruct (used v n) eqn:Eu.
  - destruct (cache_free_spec s v H P O c n R K Hc Hn HBH (or_intror Hrm) Eu) as ([] & s' & E & F).
    exists s', (free_view v n). split_and!; try apply F; try done.
    + intros m Hm. by apply fupd_ne.
    + intros m. by eapply used_free_view.
  - by eapply cache_free_clear_fails.
Qed.

End alloc.

(** ** The swap area *)

(** [release_8_blocks]: the loop from [bno - SWAP_START] ([u32] arithmetic),
    eight entries long and cut at the end of the array. *)
Definition swap_step (i : Z) : M St unit :=
  l ← gets swap_valid; deref (l !! Z.to_nat i) ;; modify (set_swap (<[Z.to_nat i := false]>)).
Definition release_8_blocks (bno : Z) : M St unit :=
  for_each (zseq (u32 (bno - SWAP_START)) (Z.min (u32 (bno - SWAP_START + 8)) (SWAP_END - SWAP_START)))
    swap_step.

(** The search: a window [lo, hi) of free entries grows to eight, or
    restarts after an entry in use. *)
Fixpoint window (fuel : nat) (l : list bool) (lo hi : nat) : option nat :=
  match fuel with
  | O => None
  | S fuel' =>
      match l !! hi with
      | None => None
      | Some false => if (S hi - lo =? 8)%nat then Some lo else window fuel' l lo (S hi)
      | Some true => window fuel' l (S hi) (S hi)
      end
  end.

Definition fill (lo : nat) (l : list bool) : list bool := splice l lo (replicate 8 true).

Definition find_and_set_8_blocks : M St Z :=
  l ← gets swap_valid;
  match window (S (length l)) l 0 0 with
  | Some lo => modify (set_swap (fill lo)) ;; mret (SWAP_START + Z.of_nat lo)
  | None => panic
  end.

(** Eight free entries from [lo] on. *)
Definition free8 (l : list bool) (lo : nat) : Prop := ∀ i, (i < 8)%nat → l !! (lo + i)%nat = Some false.

Lemma window_spec fuel l lo hi :
  (lo ≤ hi)%nat → (hi - lo < 8)%nat → (length l - hi < fuel)%nat →
  (∀ i, (lo ≤ i < hi)%nat → l !! i = Some false) → (∀ w, (w < lo)%nat → ¬ free8 l w) →
  match window fuel l lo hi with
  | Some w => free8 l w ∧ ∀ w', (w' < w)%nat → ¬ free8 l w'
  | None => ∀ w, ¬ free8 l w
  end.
Proof.
  revert lo hi. induction fuel as [|fuel IH]; intros lo hi Hle Hlt Hf Hw Hno; [lia|].
  cbn [window]. destruct (l !! hi) as [[]|] eqn:E.
  - apply IH; [lia|lia| | |].
    + pose proof (lookup_lt_Some _ _ _ E). lia.
    + intros i Hi. lia.
    + intros w Hwr Hf8. destruct (decide (w < lo)%nat); [by eapply Hno|].
      specialize (Hf8 (hi - w)%nat ltac:(lia)). replace (w + (hi - w))%nat with hi in Hf8 by lia. congruence.
  - assert (Hw' : ∀ i, (lo ≤ i < S hi)%nat → l !! i = Some false).
    { intros i Hi. destruct (decide (i = hi)) as [->|]; [done|]. apply Hw. lia. }
    destruct (S hi - lo =? 8)%nat eqn:E8.
    + apply Nat.eqb_eq in E8. split; [|done]. intros i Hi. apply Hw'. lia.
    + apply Nat.eqb_neq in E8. apply IH; [lia|lia| |done|done].
      pose proof (lookup_lt_Some _ _ _ E). lia.
  - intros w Hf8. apply lookup_ge_None in E. destruct (decide (w < lo)%nat); [by eapply Hno|].
    pose proof (Hf8 7%nat ltac:(lia)) as H7. apply lookup_lt_Some in H7. lia.
Qed.

Lemma release_spec s a :
  (a + 8 ≤ 200)%nat → length (swap_valid s) = 200%nat →
  wp (release_8_blocks (SWAP_START + Z.of_nat a))
     (λ _ s', ∃ l', s' = set_swap (λ _, l') s ∧ length l' = 200%nat ∧
        ∀ i, (i < 200)%nat → l' !! i = if decide (a ≤ i < a + 8)%nat then Some false else swap_valid s !! i) s.
Proof.
  intros Ha Hl. unfold release_8_blocks, SWAP_START, SWAP_END.
  replace (800 + Z.of_nat a - 800) with (Z.of_nat a) by lia.
  replace (Z.of_nat a + 8) with (Z.of_nat a + 8) by lia.
  rewrite !u32_small by lia. rewrite Z.min_l by lia.
  eapply wp_mono; [eapply (wp_for_zseq _ (λ k s', ∃ l', s' = set_swap (λ _, l') s ∧ length l' = 200%nat ∧
        ∀ i, (i < 200)%nat → l' !! i = if decide (Z.of_nat a ≤ Z.of_nat i < k) then Some false else swap_valid s !! i));
      [lia| |]|].
  - exists (swap_valid s). split_and!; [by destruct s|done|]. intros i Hi. rewrite decide_False by lia. done.
  - intros k s' Hk (l' & -> & Hl' & Hi). unfold swap_step. apply wp_bind, wp_gets. cbn [swap_valid set_swap].
    destruct (lookup_lt_is_Some_2 l' (Z.to_nat k)) as [x Hx]; [lia|].
    apply wp_bind. eapply wp_deref; [exact Hx|]. apply wp_modify.
    exists (<[Z.to_nat k := false]> l'). split_and!; [done|by rewrite length_insert|].
    intros i Hi200. destruct (decide (i = Z.to_nat k)) as [->|D].
    + rewrite list_lookup_insert_eq, decide_True by lia. done.
    + rewrite list_lookup_insert_ne, Hi by lia. case_decide; case_decide; try done; lia.
  - intros [] s' (l' & -> & Hl' & Hi). exists l'. split_and!; [done|done|].
    intros i Hi'. rewrite Hi by done. case_decide; case_decide; try done; lia.
Qed.

Lemma fill_lookup lo l i :
  (lo + 8 ≤ length l)%nat → fill lo l !! i = if decide (lo ≤ i < lo + 8)%nat then Some true else l !! i.
Proof.
  intros Hl. unfold fill. case_decide.
  - rewrite lookup_splice_in by (rewrite length_replicate; lia). apply lookup_replicate. split; [done|lia].
  - rewrite lookup_splice_out; [done|rewrite length_replicate; lia|rewrite length_replicate; lia].
Qed.

(** The swap search returns the lowest run of eight free swap blocks and
    marks exactly those as used; it stops the kernel exactly when there is
    none.  [release_8_blocks] of the result undoes it. *)
Theorem find_and_set_correct s :
  length (swap_valid s) = Z.to_nat (SWAP_END - SWAP_START) →
  match find_and_set_8_blocks s with
  | Ok (bno, s') =>
      ∃ lo, bno = SWAP_START + Z.of_nat lo ∧ bno + 8 ≤ SWAP_END ∧ free8 (swap_valid s) lo ∧
        (∀ w, (w < lo)%nat → ¬ free8 (swap_valid s) w) ∧ s' = set_swap (fill lo) s ∧
        ∃ s'', release_8_blocks bno s' = Ok (tt, s'') ∧ swap_valid s'' = swap_valid s
  | Fail e => e = Panicked ∧ ∀ w, ¬ free8 (swap_valid s) w
  end.
Proof.
  intros Hl. change (Z.to_nat _) with 200%nat in Hl.
  pose proof (window_spec (S (length (swap_valid s))) (swap_valid s) 0 0) as W.
  unfold find_and_set_8_blocks. rewrite bind_run. cbn [gets].
  destruct (window _ _ 0 0) as [lo|].
  2: { split; [done|]. apply W; lia. }
  destruct W as [Hf Hmin]; [lia..|]. cbn [mbind M_bind modify mret M_ret].
  pose proof (Hf 7%nat ltac:(lia)) as H7. apply lookup_lt_Some in H7.
  exists lo. split_and!; try done; [unfold SWAP_START, SWAP_END; lia|].
  destruct (release_spec (set_swap (fill lo) s) lo) as ([] & s2 & E & l' & -> & Hl' & Hi); [lia| |].
  { cbn. unfold fill. rewrite length_splice; [done|rewrite length_replicate; lia]. }
  exists (set_swap (λ _, l') (set_swap (fill lo) s)). split; [exact E|]. cbn. apply list_eq_same_length with 200%nat; [done|done|].
  intros i x y Hi' Hx Hy. cbn in Hi. rewrite Hi in Hx by done. rewrite fill_lookup in Hx by lia.
  case_decide as D; [|congruence]. specialize (Hf (i - lo)%nat ltac:(lia)).
  replace (lo + (i - lo))%nat with i in Hf by lia. congruence.
Qed.

(** ** Examples *)

Module AllocExamples.

(** A disk of 100 blocks, blocks 0 to 9 in use; the bitmap is block 5. *)
Definition sb : SuperBlock := mkSuperBlock 100 90 8 2 2 4 5.
Definition bitmap0 : list Z := [255; 3] ++ replicate 510 0.
Definition fresh : St :=
  mkSt [] [] (mkLogHeader 0 (replicate 63 0)) (mkLOG false 1 10)
    (replicate 200 false) [mkOpContext 10] (<[5 := bitmap0]> ∅) [].
Definition view : Z → list Z := disk_get (disk fresh).

Lemma bitmap0_ok : block_ok bitmap0.
Proof.
  split; [reflexivity|]. apply Forall_app. split; [repeat constructor; unfold byte_ok; lia|].
  apply Forall_replicate. unfold byte_ok. lia.
Qed.

Lemma fresh_repr : repr (log_start sb) fresh view ∅ ∅.
Proof.
  apply booted_repr. split_and!; [done|done|]. intros n bs. cbn. rewrite lookup_insert_Some.
  intros [[_ <-]|[_ Hx]]; [exact bitmap0_ok|done].
Qed.

Lemma fresh_logok : logok fresh ∅ [0%nat].
Proof.
  split.
  - reflexivity.
  - cbn. lconst. lia.
  - apply Forall_replicate. unfold uint. lia.
  - constructor.
  - intros n. unfold logged; cbn. set_solver.
  - apply NoDup_singleton.
  - reflexivity.
  - cbn. lia.
  - intros c ->%list_elem_of_singleton. unfold rm_of, OP_MAX_NUM_BLOCKS; cbn; lia.
  - reflexivity.
  - cbn. lconst. lia.
Qed.

Lemma bitmap_is5 n : is_bitmap sb n → n = 5.
Proof. intros [H1 H2]. change ((num_blocks sb - 1) / BIT_PER_BLOCK) with 0 in H2. cbn in *. lia. Qed.

Lemma layout : layout_ok sb.
Proof. split; [cbn; lconst; lia|cbn; lia|]. intros Hb%bitmap_is5. done. Qed.

(** What holds of each block number by computation. *)
Lemma below (n m : Z) (Q : Z → bool) :
  forallb Q (zseq n m) = true → ∀ x, n ≤ x < m → Q x = true.
Proof. rewrite forallb_forall. intros H x Hx. apply H, list_elem_of_In, elem_of_zseq. lia. Qed.

Lemma used_below x : 0 ≤ x < 10 → used sb view x = true.
Proof. apply (below 0 10 (used sb view)). vm_compute. reflexivity. Qed.

Lemma fresh_reserved : reserved_used sb view ∅.
Proof.
  split; [intros; apply not_elem_of_empty|]. intros n Hn Hu.
  split_and!; [apply not_elem_of_empty| |].
  - intros ->. by rewrite used_below in Hu.
  - intros ->%bitmap_is5. by rewrite used_below in Hu.
Qed.

Lemma cache_alloc_correct_witness :
  ∃ s' v', cache_alloc sb (Some 0%nat) fresh = Ok (10, s') ∧
    repr (log_start sb) s' v' ∅ ({[10]} ∪ ({[BBLOCK sb 10]} ∪ ∅)) ∧
    logok s' ({[10]} ∪ ({[BBLOCK sb 10]} ∪ ∅)) [0%nat] ∧
    v' 10 = zero_block ∧ (∀ m, m ≠ 10 → ¬ is_bitmap sb m → v' m = view m) ∧
    (∀ m, 0 ≤ m < num_blocks sb → used sb v' m = (bool_decide (m = 10) || used sb view m)) ∧
    rm_of (ctxs fresh) 0 - 2 ≤ rm_of (ctxs s') 0.
Proof.
  apply (cache_alloc_correct sb layout fresh view ∅ ∅ [0%nat] 0 fresh_repr fresh_logok).
  - set_solver.
  - vm_compute. discriminate.
  - exact fresh_reserved.
  - split_and!; [cbn; lia|cbn; lia|vm_compute; reflexivity|exact used_below].
Defined.

Lemma cache_free_correct_witness :
  (∃ s' v', cache_free sb (Some 0%nat) 7 fresh = Ok (tt, s') ∧
     repr (log_start sb) s' v' ∅ ({[BBLOCK sb 7]} ∪ ∅) ∧ logok s' ({[BBLOCK sb 7]} ∪ ∅) [0%nat] ∧
     (∀ m, m ≠ BBLOCK sb 7 → v' m = view m) ∧
     ∀ m, used sb v' m = (negb (bool_decide (m = 7)) && used sb view m)) ∧
  cache_free sb (Some 0%nat) 10 fresh = Fail Panicked.
Proof.
  assert (E7 : used sb view 7 = true) by (vm_compute; reflexivity).
  assert (E10 : used sb view 10 = false) by (vm_compute; reflexivity).
  assert (Hrm : 0 < rm_of (ctxs fresh) 0) by (vm_compute; reflexivity).
  pose proof (cache_free_correct sb layout fresh view ∅ ∅ [0%nat] 0 7 fresh_repr fresh_logok
    ltac:(set_solver) Hrm ltac:(cbn; lia) (not_elem_of_empty _)) as T7.
  pose proof (cache_free_correct sb layout fresh view ∅ ∅ [0%nat] 0 10 fresh_repr fresh_logok
    ltac:(set_solver) Hrm ltac:(cbn; lia) (not_elem_of_empty _)) as T10.
  rewrite E7 in T7. rewrite E10 in T10. split; [exact T7|exact T10].
Defined.

Lemma find_and_set_correct_witness :
  let s := set_swap (λ _, [false; true] ++ replicate 198 false) fresh in
  ∃ s', find_and_set_8_blocks s = Ok (802, s') ∧
    ∃ s'', release_8_blocks 802 s' = Ok (tt, s'') ∧ swap_valid s'' = swap_valid s.
Proof.
  set (s := set_swap _ fresh). pose proof (find_and_set_correct s eq_refl) as T.
  assert (E : find_and_set_8_blocks s = Ok (802, set_swap (fill 2) s)) by (vm_compute; reflexivity).
  rewrite E in T. destruct T as (lo & Hlo & _ & _ & _ & Es & T).
  exists (set_swap (fill 2) s). split; [exact E|exact T].
Defined.

End AllocExamples.
