(* ===== verification/BlockStore.v ===== *)
(** * What the inode layer asks of the block layer

    [BlockOps] are the members of [BlockCache] (the table of function pointers
    of [src/fs/cache.h]) that [src/fs/inode.c] calls, with the accesses to
    [block->data].  [BlockLaws] states what they promise inside a transaction
    [c], over a ghost state: how blocks read, which are locked and which of
    those have been written and not yet logged, which are in use in the bitmap,
    which are in the log, and the units the transaction has left.

    [cache_store] and [cache_laws] show that the cache, log and bitmap of
    [BlockCache.v], [FsLog.v] and [BlockAlloc.v] keep that promise. *)

From S2P Require Import Prelude FsLayout BlockCache FsLog BlockAlloc.

Class BlockOps (St : Type) := {
  bs_acquire : Z → M St nat;
  bs_release : nat → M St unit;
  bs_sync : option nat → nat → M St unit;
  bs_alloc : option nat → M St Z;
  bs_free : option nat → Z → M St unit;
  bs_load : nat → M St (list Z);
  bs_store : nat → list Z → M St unit;
}.

Record ghost := mkGhost {
  gview : Z → list Z;
  gheld : gset Z;
  gdirty : gset Z;
  gused : gset Z;
  glog : gset Z;
  gunits : Z;
}.

(** Ghost updates, one per operation. *)
Definition g_acquire (n : Z) (g : ghost) : ghost :=
  mkGhost (gview g) ({[n]} ∪ gheld g) (gdirty g ∖ {[n]}) (gused g) (glog g) (gunits g).
Definition g_release (n : Z) (g : ghost) : ghost :=
  mkGhost (gview g) (gheld g ∖ {[n]}) (gdirty g) (gused g) (glog g) (gunits g).
Definition g_store (n : Z) (d : list Z) (g : ghost) : ghost :=
  mkGhost (fupd (gview g) n d) (gheld g) ({[n]} ∪ gdirty g) (gused g) (glog g) (gunits g).
Definition unit_for (g : ghost) (n : Z) : Z := if decide (n ∈ glog g) then 0 else 1.
Definition g_sync (n : Z) (g : ghost) : ghost :=
  mkGhost (gview g) (gheld g) (gdirty g) (gused g) ({[n]} ∪ glog g) (gunits g - unit_for g n).
Definition g_free (map_of : Z → Z) (n : Z) (g : ghost) : ghost :=
  mkGhost (gview g) (gheld g) (gdirty g) (gused g ∖ {[n]}) ({[map_of n]} ∪ glog g)
    (gunits g - unit_for g (map_of n)).

(** [n] was allocated, zeroed. *)
Record g_alloc (n : Z) (g g' : ghost) : Prop := {
  ga_view : ∀ m, gview g' m = fupd (gview g) n zero_block m;
  ga_held : gheld g' = gheld g;
  ga_dirty : gdirty g' = gdirty g;
  ga_used : gused g' = {[n]} ∪ gused g;
  ga_log : {[n]} ∪ glog g ⊆ glog g';
  ga_units : gunits g - 2 ≤ gunits g' ≤ gunits g;
}.

Class BlockLaws (St : Type) `{BlockOps St} := {
  file_block : Z → Prop;
  map_of : Z → Z;
  hdl : St → nat → Z → Prop;
  tx : nat → St → ghost → Prop;
  law_view_ok c s g n : tx c s g → file_block n → block_ok (gview g n);
  law_file_block n : file_block n → 0 < n < 2 ^ 32;
  law_acquire c s g n : tx c s g → file_block n → n ∉ gheld g →
    wp (bs_acquire n) (λ p s', tx c s' (g_acquire n g) ∧ hdl s' p n ∧ ∀ q m, hdl s q m → hdl s' q m) s;
  law_release c s g p n : tx c s g → hdl s p n → n ∈ glog g ∨ n ∉ gdirty g →
    wp (bs_release p) (λ _ s', tx c s' (g_release n g) ∧ ∀ q m, m ≠ n → hdl s q m → hdl s' q m) s;
  law_load c s g p n : tx c s g → hdl s p n → file_block n → bs_load p s = Ok (gview g n, s);
  law_store c s g p n d : tx c s g → hdl s p n → file_block n → block_ok d →
    wp (bs_store p d) (λ _ s', tx c s' (g_store n d g) ∧ ∀ q m, hdl s q m → hdl s' q m) s;
  law_sync c s g p n : tx c s g → hdl s p n → file_block n → n ∈ glog g ∨ 0 < gunits g →
    wp (bs_sync (Some c) p) (λ _ s', tx c s' (g_sync n g) ∧ ∀ q m, hdl s q m → hdl s' q m) s;
  law_alloc c s g : tx c s g → gheld g ⊆ gused g → 2 ≤ gunits g →
    (∃ n, file_block n ∧ n ∉ gused g) →
    wp (bs_alloc (Some c)) (λ n s', file_block n ∧ n ∉ gused g ∧ (∃ g', tx c s' g' ∧ g_alloc n g g') ∧
                              ∀ q m, m ∈ gheld g → hdl s q m → hdl s' q m) s;
  law_free c s g n : tx c s g → file_block n → n ∈ gused g → map_of n ∈ glog g ∨ 0 < gunits g →
    wp (bs_free (Some c) n) (λ _ s', tx c s' (g_free map_of n g) ∧
                               ∀ q m, m ∈ gheld g → hdl s q m → hdl s' q m) s;
}.

(** ** The cache is a block store *)

Section cache.
Context (sblock : SuperBlock).
Hypothesis Hly : layout_ok sblock.
Abbreviation L := (log_start sblock).

#[export] Instance cache_store : BlockOps St := {|
  bs_acquire := cache_acquire;
  bs_release := cache_release;
  bs_sync := cache_sync;
  bs_alloc := cache_alloc sblock;
  bs_free := cache_free sblock;
  bs_load := λ p, b ← block p; mret (data b);
  bs_store := λ p d, upd p (with_data d);
|}.

Definition cache_file_block (n : Z) : Prop := 0 < n < num_blocks sblock ∧ n ≠ L ∧ ¬ is_bitmap sblock n.

Record cache_tx_at (c : nat) (s : St) (g : ghost) (v : Z → list Z) (O : list nat) : Prop := {
  tx_repr : repr L s v (gheld g) (glog g);
  tx_log : logok s (glog g) O;
  tx_open : c ∈ O;
  tx_units : rm_of (ctxs s) c = gunits g;
  tx_view : ∀ n, cache_file_block n → gview g n = v n;
  tx_held : ∀ n, n ∈ gheld g → cache_file_block n;
  tx_used : ∀ n, n ∈ gused g ↔ 0 ≤ n < num_blocks sblock ∧ used sblock v n = true;
  tx_reserved : ∀ n, 0 ≤ n < num_blocks sblock → ¬ cache_file_block n → used sblock v n = true;
  tx_clean : ∀ n, n ∈ gheld g → n ∉ glog g → n ∉ gdirty g → v n = disk_get (disk s) n;
}.
Definition cache_tx (c : nat) (s : St) (g : ghost) : Prop := ∃ v O, cache_tx_at c s g v O.

Lemma file_block_uint n : cache_file_block n → uint 8 n.
Proof. intros [Hn _]. pose proof (ly_blocks _ Hly). unfold uint. lconst. lia. Qed.

(** The used bits only depend on the bitmap blocks. *)
Lemma used_bitmap_ext v v' n :
  0 ≤ n < num_blocks sblock → (∀ m, is_bitmap sblock m → v' m = v m) → used sblock v' n = used sblock v n.
Proof. intros Hn E. unfold used. rewrite E; [done|]. by apply BBLOCK_bitmap. Qed.

Lemma held_not_bitmap c s g v O m : cache_tx_at c s g v O → is_bitmap sblock m → m ∉ gheld g.
Proof. intros T Hm Hin. by apply (tx_held _ _ _ _ _ T) in Hin as (_ & _ & ?). Qed.

Lemma cache_law_acquire c s g n : cache_tx c s g → cache_file_block n → n ∉ gheld g →
  wp (cache_acquire n) (λ p s', cache_tx c s' (g_acquire n g) ∧ ptr s' p n ∧ ∀ q m, ptr s q m → ptr s' q m) s.
Proof.
  intros (v & O & T) Hf Hn. eapply acquire_spec; [apply T|done|apply Hf|].
  intros p s' R Hp Ht E. split_and!; [|done|done]. exists v, O. pose proof E as (_&_&_&Ec&Ed&_). split; cbn; try apply T.
  - exact R.
  - by eapply logok_same_rest, T.
  - rewrite Ec. apply T.
  - intros m [->%elem_of_singleton|Hm]%elem_of_union; [done|]. by apply T.
  - intros m Hm Hlog Hd. rewrite Ed. destruct (decide (m = n)) as [->|D].
    + apply (repr_disk _ _ _ _ _ (tx_repr _ _ _ _ _ T)); [done|done|apply Hf].
    + apply (tx_clean _ _ _ _ _ T); clear -D Hm Hlog Hd; set_solver.
Qed.

Lemma cache_law_release c s g p n : cache_tx c s g → ptr s p n → n ∈ glog g ∨ n ∉ gdirty g →
  wp (cache_release p) (λ _ s', cache_tx c s' (g_release n g) ∧ ∀ q m, m ≠ n → ptr s q m → ptr s' q m) s.
Proof.
  intros (v & O & T) Hp Hd. pose proof Hp as (b & Hb & Hbn & Ha).
  assert (Hin : n ∈ gheld g).
  { rewrite <-Hbn. by apply (repr_block _ _ _ _ _ (tx_repr _ _ _ _ _ T) p b Hb). }
  eapply wp_mono; [eapply cache_release_spec; [apply T|done|]|].
  - destruct (decide (n ∈ glog g)); [by left|right]. apply (tx_clean _ _ _ _ _ T); [done|done|tauto].
  - intros [] s' (R & Ht & E). split; [|done]. exists v, O. pose proof E as (_&_&_&Ec&Ed&_). split; cbn; try apply T.
    + exact R.
    + by eapply logok_same_rest, T.
    + rewrite Ec. apply T.
    + intros m [Hm _]%elem_of_difference. by apply T.
    + intros m [Hm _]%elem_of_difference. rewrite Ed. by apply T.
Qed.

Lemma cache_law_load c s g p n : cache_tx c s g → ptr s p n → cache_file_block n →
  (b ← block p; mret (data b)) s = Ok (gview g n, s).
Proof.
  intros (v & O & T) (b & Hb & <- & Ha) Hf. unfold block. rewrite !bind_run. cbn [gets]. rewrite Hb. cbn.
  destruct (repr_block _ _ _ _ _ (tx_repr _ _ _ _ _ T) p b Hb) as [-> _].
  by rewrite (tx_view _ _ _ _ _ T).
Qed.

Lemma cache_law_store c s g p n d : cache_tx c s g → ptr s p n → cache_file_block n → block_ok d →
  wp (upd p (with_data d)) (λ _ s', cache_tx c s' (g_store n d g) ∧ ∀ q m, ptr s q m → ptr s' q m) s.
Proof.
  intros (v & O & T) Hp Hf Hd. eapply wp_mono; [eapply write_spec; [apply T|done|done]|].
  intros [] s' (R & Ht & E). split; [|done]. exists (fupd v n d), O. pose proof E as (_&_&_&Ec&Ed&_).
  assert (Hu : ∀ m, 0 ≤ m < num_blocks sblock → used sblock (fupd v n d) m = used sblock v m).
  { intros m Hm. apply used_bitmap_ext; [done|]. intros k Hk. apply fupd_ne. intros ->. by apply Hf. }
  split; cbn; try apply T.
  - exact R.
  - by eapply logok_same_rest, T.
  - rewrite Ec. apply T.
  - intros m Hm. unfold fupd. case_decide; [done|]. by apply T.
  - intros m. rewrite (tx_used _ _ _ _ _ T). split; intros [H1 H2]; split; try done; [by rewrite Hu|by rewrite <-Hu].
  - intros m Hm Hnf. rewrite Hu by done. by apply (tx_reserved _ _ _ _ _ T).
  - intros m Hm Hlog [Hmn Hmd]%not_elem_of_union. rewrite not_elem_of_singleton in Hmn.
    rewrite fupd_ne, Ed by done. by apply (tx_clean _ _ _ _ _ T).
Qed.

Lemma cache_law_sync c s g p n : cache_tx c s g → ptr s p n → cache_file_block n →
  n ∈ glog g ∨ 0 < gunits g →
  wp (cache_sync (Some c) p) (λ _ s', cache_tx c s' (g_sync n g) ∧ ∀ q m, ptr s q m → ptr s' q m) s.
Proof.
  intros (v & O & T) Hp Hf Hroom.
  eapply wp_mono; [eapply cache_sync_spec; [apply T|apply T|done|by apply file_block_uint|apply T|]|].
  { by rewrite (tx_units _ _ _ _ _ T). }
  intros [] s' (R & K & Ht & (Ed&_&_&_&_&Y)). split; [|done]. exists v, O. split; cbn; try apply T; try done.
  - rewrite Y, (tx_units _ _ _ _ _ T). unfold unit_for, sync_cost. case_decide; case_decide; try done; tauto.
  - intros m Hm [_ Hlog]%not_elem_of_union Hd. rewrite Ed. by apply (tx_clean _ _ _ _ _ T).
Qed.

(** Some block is free, so there is a lowest one. *)
Lemma first_free_exists v n :
  0 ≤ n < num_blocks sblock → used sblock v n = false → ∃ m, first_free sblock v m.
Proof.
  intros Hn Hu. destruct (list_find (λ m, used sblock v m = false) (zseq 0 (num_blocks sblock))) as [[i m]|] eqn:E.
  - apply list_find_Some in E as (Hi & Hm & Hall). pose proof (lookup_lt_Some _ _ _ Hi) as Hlt.
    rewrite length_zseq in Hlt. rewrite lookup_zseq in Hi by done. injection Hi as <-.
    exists (0 + Z.of_nat i). split_and!; [lia|lia|done|]. intros k Hk.
    specialize (Hall (Z.to_nat k) k). destruct (used sblock v k); [done|]. exfalso. apply Hall; [|lia|done].
    rewrite lookup_zseq by lia. f_equal. lia.
  - apply list_find_None in E. rewrite Forall_forall in E. exfalso. apply (E n); [|done].
    apply elem_of_zseq. lia.
Qed.

Lemma cache_law_alloc c s g : cache_tx c s g → gheld g ⊆ gused g → 2 ≤ gunits g →
  (∃ n, cache_file_block n ∧ n ∉ gused g) →
  wp (cache_alloc sblock (Some c))
     (λ n s', cache_file_block n ∧ n ∉ gused g ∧ (∃ g', cache_tx c s' g' ∧ g_alloc n g g') ∧
        ∀ q m, m ∈ gheld g → ptr s q m → ptr s' q m) s.
Proof.
  intros (v & O & T) Hheld Hunits (n0 & Hf0 & Hn0).
  assert (Hu0 : ∀ n, 0 ≤ n < num_blocks sblock → n ∉ gused g → used sblock v n = false).
  { intros n Hn Hng. rewrite (tx_used _ _ _ _ _ T) in Hng. destruct (used sblock v n); tauto. }
  destruct (first_free_exists v n0) as (n & Hn & Hfree & Hmin); [destruct Hf0; lia|apply Hu0; [destruct Hf0; lia|done]|].
  assert (Hng : n ∉ gused g) by (rewrite (tx_used _ _ _ _ _ T), Hfree; by intros [_ ?]).
  assert (Hfb : ∀ m, 0 ≤ m < num_blocks sblock → used sblock v m = false → cache_file_block m).
  { intros m Hm Hu. destruct (decide (0 < m < num_blocks sblock ∧ m ≠ L)) as [[Hlt HL]|D].
    - split_and!; [lia..|done|]. intros Hb. rewrite (tx_reserved _ _ _ _ _ T m) in Hu; [done|done|]. by intros (_&_&?).
    - rewrite (tx_reserved _ _ _ _ _ T m) in Hu; [done|done|]. intros (?&?&_). by apply D. }
  assert (Hres : reserved_used sblock v (gheld g)).
  { split; [intros m Hm; by eapply held_not_bitmap|]. intros m Hm Hu. destruct (Hfb m Hm Hu) as (_&?&?).
    split_and!; [|done|done]. intros Hin%Hheld. rewrite (tx_used _ _ _ _ _ T), Hu in Hin. by destruct Hin. }
  eapply wp_mono.
  { apply (cache_alloc_spec sblock Hly s v (gheld g) (glog g) O c n); try done.
    - exact (tx_repr _ _ _ _ _ T).
    - exact (tx_log _ _ _ _ _ T).
    - exact (tx_open _ _ _ _ _ T).
    - by rewrite (tx_units _ _ _ _ _ T). }
  intros r s' (-> & A). split_and!; [by apply Hfb|done| |apply A].
  destruct (Hfb n Hn Hfree) as (_ & HnL & Hnb).
  set (g' := mkGhost (fupd (gview g) n zero_block) (gheld g) (gdirty g) ({[n]} ∪ gused g)
    ({[n]} ∪ ({[BBLOCK sblock n]} ∪ glog g)) (rm_of (ctxs s') c)).
  assert (Hu' : ∀ m, 0 ≤ m < num_blocks sblock →
    used sblock (alloc_view sblock v n) m = (bool_decide (m = n) || used sblock v m)).
  { intros m Hm. by apply (used_alloc_view sblock Hly s v _ _ n m (tx_repr _ _ _ _ _ T)). }
  assert (Hlogs : {[n]} ∪ glog g ⊆ {[n]} ∪ ({[BBLOCK sblock n]} ∪ glog g)) by (clear; set_solver).
  exists g'. split.
  - exists (alloc_view sblock v n), O. split; unfold g'; cbn.
    + exact (al_repr _ _ _ _ _ _ _ _ _ A).
    + exact (al_log _ _ _ _ _ _ _ _ _ A).
    + exact (tx_open _ _ _ _ _ T).
    + done.
    + intros m Hm. unfold alloc_view, fupd. case_decide; [done|]. case_decide; [|by apply (tx_view _ _ _ _ _ T)].
      exfalso. subst. apply Hm. by apply BBLOCK_bitmap.
    + exact (tx_held _ _ _ _ _ T).
    + intros m. rewrite elem_of_union, elem_of_singleton, (tx_used _ _ _ _ _ T).
      destruct (decide (0 ≤ m < num_blocks sblock)) as [Hm|D].
      * rewrite Hu' by done. case_bool_decide; cbn; tauto.
      * split; [|tauto]. intros [->|[? _]]; tauto.
    + intros m Hm Hnf. rewrite Hu' by done. rewrite (tx_reserved _ _ _ _ _ T) by done. apply orb_true_r.
    + intros m Hm Hlog Hd. rewrite (al_disk _ _ _ _ _ _ _ _ _ A). unfold alloc_view.
      pose proof (tx_held _ _ _ _ _ T m Hm) as Hmf.
      rewrite !fupd_ne; [apply (tx_clean _ _ _ _ _ T); [done| |done]| |].
      * intros Hin. apply Hlog. apply Hlogs, elem_of_union. by right.
      * intros ->. apply Hmf. by apply BBLOCK_bitmap.
      * intros ->. apply Hlog. by apply elem_of_union_l, elem_of_singleton.
  - pose proof (al_units _ _ _ _ _ _ _ _ _ A) as Hl. rewrite (tx_units _ _ _ _ _ T) in Hl.
    split; try done. unfold g'; cbn. split; [exact Hl|].
    pose proof (al_upper _ _ _ _ _ _ _ _ _ A) as Hu2. by rewrite (tx_units _ _ _ _ _ T) in Hu2.
Qed.

Lemma cache_law_free c s g n : cache_tx c s g → cache_file_block n → n ∈ gused g →
  BBLOCK sblock n ∈ glog g ∨ 0 < gunits g →
  wp (cache_free sblock (Some c) n)
     (λ _ s', cache_tx c s' (g_free (BBLOCK sblock) n g) ∧ ∀ q m, m ∈ gheld g → ptr s q m → ptr s' q m) s.
Proof.
  intros (v & O & T) Hf Hused Hroom. assert (Hn : 0 ≤ n < num_blocks sblock) by (destruct Hf; lia).
  apply (tx_used _ _ _ _ _ T) in Hused as [_ Hu].
  eapply wp_mono.
  { apply (cache_free_spec sblock Hly s v (gheld g) (glog g) O c n); try done.
    - exact (tx_repr _ _ _ _ _ T).
    - exact (tx_log _ _ _ _ _ T).
    - exact (tx_open _ _ _ _ _ T).
    - eapply held_not_bitmap; [exact T|]. by apply BBLOCK_bitmap.
    - by rewrite (tx_units _ _ _ _ _ T). }
  intros [] s' F. split; [|apply F]. exists (free_view sblock v n), O.
  assert (Hu' : ∀ m, used sblock (free_view sblock v n) m = (negb (bool_decide (m = n)) && used sblock v m)).
  { intros m. by apply (used_free_view sblock Hly s v _ _ n m (tx_repr _ _ _ _ _ T)). }
  split; cbn.
  - exact (fr_repr _ _ _ _ _ _ _ _ _ F).
  - exact (fr_log _ _ _ _ _ _ _ _ _ F).
  - exact (tx_open _ _ _ _ _ T).
  - rewrite (fr_units _ _ _ _ _ _ _ _ _ F), (tx_units _ _ _ _ _ T). unfold unit_for, sync_cost.
    case_decide; case_decide; try done; tauto.
  - intros m Hm. unfold free_view. rewrite fupd_ne; [by apply (tx_view _ _ _ _ _ T)|].
    intros ->. apply Hm. by apply BBLOCK_bitmap.
  - exact (tx_held _ _ _ _ _ T).
  - intros m. rewrite elem_of_difference, elem_of_singleton, (tx_used _ _ _ _ _ T), Hu'.
    case_bool_decide; cbn; intuition congruence.
  - intros m Hm Hnf. rewrite Hu'. rewrite bool_decide_false by by intros ->. by apply (tx_reserved _ _ _ _ _ T).
  - intros m Hm [_ Hlog]%not_elem_of_union Hd. rewrite (fr_disk _ _ _ _ _ _ _ _ _ F). unfold free_view.
    rewrite fupd_ne; [by apply (tx_clean _ _ _ _ _ T)|]. intros ->.
    apply (tx_held _ _ _ _ _ T) in Hm. apply Hm. by apply BBLOCK_bitmap.
Qed.

#[export, program] Instance cache_laws : BlockLaws St := {|
  file_block := cache_file_block;
  map_of := BBLOCK sblock;
  hdl := ptr;
  tx := cache_tx;
  law_acquire := cache_law_acquire;
  law_release := cache_law_release;
  law_load := cache_law_load;
  law_store := cache_law_store;
  law_sync := cache_law_sync;
  law_alloc := cache_law_alloc;
  law_free := cache_law_free;
|}.
Next Obligation.
  intros c s g n (v & O & T) Hf. rewrite (tx_view _ _ _ _ _ T) by done.
  eapply repr_view_ok; [apply T|apply Hf].
Qed.
Next Obligation.
  intros n [Hn _]. pose proof (ly_blocks _ Hly). lconst. lia.
Qed.
End cache.
