(* ===== verification/SwapDev.v ===== *)
(** * The swap device

    What [src/kernel/mem.c] and [src/kernel/paging.c] need of the disk: slots of
    eight blocks that are taken and given back, and their blocks in the block
    cache, written outside of transactions.  [SwapOps] and [SwapLaws] say it for
    the paging code; the swap area of [src/fs/cache.c], with its bitmap of
    [BlockAlloc.v] and the cache of [BlockCache.v], keeps the laws, whatever
    other blocks are held or wait in the log, as long as these are not blocks
    of the swap area. *)

From iris.prelude Require Import prelude.
From S2P Require Import Prelude FsLayout BlockCache FsLog BlockAlloc.
#[local] Open Scope Z_scope.

(** What [mem.c] and [paging.c] call of [fs/cache.c]: the two functions on swap
    slots, and the block cache outside of transactions. *)
Class SwapOps (S : Type) := {
  find_and_set_8_blocks : M S Z;
  release_8_blocks : Z → M S unit;
  sw_acquire : Z → M S nat;
  sw_load : nat → M S (list Z);
  sw_store : nat → list Z → M S unit;
  sw_sync : nat → M S unit;
  sw_release : nat → M S unit;
}.

(** ** The swap device, abstractly *)

(** Slot [m] of the swap area, eight blocks. *)
Definition slot_block (m : nat) : Z := SWAP_START + 8 * Z.of_nat m.
Definition SLOTS : nat := 25.
Definition swap_block (n : Z) : Prop := SWAP_START ≤ n < SWAP_END.

(** [swap_at s U V held]: the slots [U] are taken, the blocks of the swap area
    read [V], and [held] is the block that is acquired: its handle, its number,
    whether the device has its contents. *)
Class SwapLaws (S : Type) `{SwapOps S} := {
  swap_at : S → gset nat → (Z → list Z) → option (nat * Z * bool) → Prop;
  sw_view_ok s U V held n : swap_at s U V held → swap_block n → block_ok (V n);
  law_find s U V : swap_at s U V None →
    match find_and_set_8_blocks s with
    | Ok (b, s') => ∃ m, (m < SLOTS)%nat ∧ b = slot_block m ∧ m ∉ U ∧ swap_at s' ({[m]} ∪ U) V None
    | Fail e => e = Panicked ∧ ∀ m, (m < SLOTS)%nat → m ∈ U
    end;
  law_release8 s U V m : swap_at s U V None → (m < SLOTS)%nat → m ∈ U →
    ∃ s', release_8_blocks (slot_block m) s = Ok (tt, s') ∧ swap_at s' (U ∖ {[m]}) V None;
  law_sw_acquire s U V n : swap_at s U V None → swap_block n →
    ∃ p s', sw_acquire n s = Ok (p, s') ∧ swap_at s' U V (Some (p, n, true));
  law_sw_load s U V p n c : swap_at s U V (Some (p, n, c)) → sw_load p s = Ok (V n, s);
  law_sw_store s U V p n c d : swap_at s U V (Some (p, n, c)) → block_ok d →
    ∃ s', sw_store p d s = Ok (tt, s') ∧ swap_at s' U (fupd V n d) (Some (p, n, false));
  law_sw_sync s U V p n c : swap_at s U V (Some (p, n, c)) →
    ∃ s', sw_sync p s = Ok (tt, s') ∧ swap_at s' U V (Some (p, n, true));
  law_sw_release s U V p n : swap_at s U V (Some (p, n, true)) →
    ∃ s', sw_release p s = Ok (tt, s') ∧ swap_at s' U V None;
}.

(** ** On the disk *)

#[export] Instance disk_swap : SwapOps St := {|
  SwapDev.find_and_set_8_blocks := BlockAlloc.find_and_set_8_blocks;
  SwapDev.release_8_blocks := BlockAlloc.release_8_blocks;
  sw_acquire := cache_acquire;
  sw_load := λ p, b ← block p; mret (data b);
  sw_store := λ p d, upd p (with_data d);
  sw_sync := cache_sync None;
  sw_release := cache_release;
|}.

Section device.
(** The block of the log header is not one of the swap area. *)
Context (L : Z) (HL : ¬ swap_block L).

(** The entries of [swap_valid]: slot [m] has eight, all set when it is taken. *)
Definition marks (l : list bool) (U : gset nat) : Prop :=
  length l = 200%nat ∧ ∀ i, (i < 200)%nat → l !! i = Some (bool_decide ((i / 8)%nat ∈ U)).

Definition held_block (held : option (nat * Z * bool)) : gset Z := match held with Some (_, n, _) => {[n]} | None => ∅ end.
Definition handle_ok (s : St) (v : Z → list Z) (held : option (nat * Z * bool)) : Prop :=
  match held with
  | Some (p, n, c) => swap_block n ∧ ptr s p n ∧ (c = true → v n = disk_get (disk s) n)
  | None => True
  end.

Record on_disk_at (s : St) (U : gset nat) (V : Z → list Z) (held : option (nat * Z * bool)) (v : Z → list Z) (H P : gset Z) : Prop := {
  od_repr : repr L s v (held_block held ∪ H) P;
  od_view : ∀ n, swap_block n → V n = v n;
  od_others : ∀ n, n ∈ H ∪ P → ¬ swap_block n;
  od_marks : marks (swap_valid s) U;
  od_handle : handle_ok s v held;
}.
Definition on_disk (s : St) (U : gset nat) (V : Z → list Z) (held : option (nat * Z * bool)) : Prop := ∃ v H P, on_disk_at s U V held v H P.

Lemma swap_ne_L n : swap_block n → n ≠ L.
Proof. by intros Hn ->. Qed.

Lemma repr_set_swap f s v H P : repr L s v H P → repr L (set_swap f s) v H P.
Proof. intros [W HB HC HD]. split; try done. destruct W. by split. Qed.

(** *** Slots *)

Lemma marks_free8 l U m : marks l U → (m < SLOTS)%nat → m ∉ U → free8 l (8 * m).
Proof.
  intros [_ Hm] Hlt HU i Hi. unfold SLOTS in Hlt. rewrite Hm; [|lia]. replace ((8 * m + i) / 8)%nat with m; [by rewrite bool_decide_false|].
  apply Nat.div_unique with i; lia.
Qed.

(** The lowest run of eight free entries is a slot. *)
Lemma lowest_slot l U lo : marks l U → free8 l lo → (∀ w, (w < lo)%nat → ¬ free8 l w) → ∃ m, lo = (8 * m)%nat ∧ (m < SLOTS)%nat ∧ m ∉ U.
Proof.
  intros [Hl Hm] Hf Hmin. pose proof (Hf 0%nat ltac:(lia)) as H1. pose proof (Hf 7%nat ltac:(lia)) as H2. pose proof (lookup_lt_Some _ _ _ H2) as Hlt.
  rewrite Nat.add_0_r Hm in H1; [|lia]. injection H1 as H1. apply bool_decide_eq_false in H1. exists (lo / 8)%nat.
  pose proof (Nat.div_mod_eq lo 8) as Hd. pose proof (Nat.mod_upper_bound lo 8 ltac:(done)) as Hb.
  split; [|split; [unfold SLOTS; lia|done]]. destruct (decide (lo mod 8 = 0)%nat) as [|Hne]; [lia|].
  exfalso. apply (Hmin (8 * (lo / 8))%nat); [lia|]. by apply (marks_free8 l U); [|unfold SLOTS; lia|].
Qed.

Lemma marks_fill l U m : marks l U → (m < SLOTS)%nat → marks (fill (8 * m) l) ({[m]} ∪ U).
Proof.
  intros [Hl Hm] Hlt. unfold SLOTS in Hlt. split; [unfold fill; rewrite length_splice; [done|rewrite length_replicate; lia]|]. intros i Hi.
  rewrite fill_lookup; [|lia]. pose proof (Nat.div_mod_eq i 8). pose proof (Nat.mod_upper_bound i 8 ltac:(done)). case_decide as D.
  - f_equal. symmetry. apply bool_decide_eq_true. assert ((i / 8)%nat = m) as -> by lia. set_solver.
  - rewrite Hm //. f_equal. apply bool_decide_ext. assert ((i / 8)%nat ≠ m) by lia. set_solver.
Qed.

Lemma disk_find s U V : on_disk s U V None →
  match BlockAlloc.find_and_set_8_blocks s with
  | Ok (b, s') => ∃ m, (m < SLOTS)%nat ∧ b = slot_block m ∧ m ∉ U ∧ on_disk s' ({[m]} ∪ U) V None
  | Fail e => e = Panicked ∧ ∀ m, (m < SLOTS)%nat → m ∈ U
  end.
Proof.
  intros (v & H & P & [Hr Hv Ho Hm Hh]). pose proof Hm as [Hl _]. pose proof (window_spec (S (length (swap_valid s))) (swap_valid s) 0 0) as W.
  unfold BlockAlloc.find_and_set_8_blocks. rewrite bind_run. cbn [gets]. destruct (window _ _ 0 0) as [lo|].
  - destruct W as [Hf Hmin]; [lia..|]. cbn [mbind M_bind modify mret M_ret]. destruct (lowest_slot _ _ _ Hm Hf Hmin) as (m & -> & Hlt & HmU).
    exists m. split; [done|]. split; [unfold slot_block; lia|]. split; [done|]. exists v, H, P. split; try done; [by apply repr_set_swap|]. by apply (marks_fill _ U m).
  - split; [done|]. intros m Hlt. destruct (decide (m ∈ U)) as [|HU]; [done|]. exfalso. apply (W ltac:(lia) ltac:(lia) ltac:(lia) ltac:(lia) ltac:(lia) (8 * m)%nat).
    by apply (marks_free8 _ U).
Qed.

Lemma disk_release8 s U V m : on_disk s U V None → (m < SLOTS)%nat → m ∈ U →
  ∃ s', BlockAlloc.release_8_blocks (slot_block m) s = Ok (tt, s') ∧ on_disk s' (U ∖ {[m]}) V None.
Proof.
  intros (v & H & P & [Hr Hv Ho [Hl Hm] Hh]) Hlt HmU. unfold SLOTS in Hlt. unfold slot_block. replace (8 * Z.of_nat m) with (Z.of_nat (8 * m)) by lia.
  destruct (release_spec s (8 * m)) as ([] & s' & E & l' & -> & Hl' & Hi); [lia|done|]. exists (set_swap (λ _, l') s). split; [exact E|].
  exists v, H, P. split; try done; [by apply repr_set_swap|]. split; [done|]. intros i Hlt2. cbn [swap_valid set_swap]. pose proof (Nat.div_mod_eq i 8). pose proof (Nat.mod_upper_bound i 8 ltac:(done)).
  rewrite Hi //. case_decide as D.
  - f_equal. symmetry. apply bool_decide_eq_false. assert ((i / 8)%nat = m) as -> by lia. set_solver.
  - rewrite Hm //. f_equal. apply bool_decide_ext. assert ((i / 8)%nat ≠ m) by lia. set_solver.
Qed.

(** *** Blocks *)

Lemma disk_acquire s U V n : on_disk s U V None → swap_block n →
  ∃ p s', cache_acquire n s = Ok (p, s') ∧ on_disk s' U V (Some (p, n, true)).
Proof.
  intros (v & H & P & [Hr Hv Ho Hm _]) Hn. cbn [held_block] in Hr. rewrite union_empty_l_L in Hr.
  destruct (cache_acquire_spec L s v H P n Hr) as (p & s' & E & Hr' & Hp & _ & (_ & _ & Hsw & _ & Hd & _)); [set_solver|by apply swap_ne_L|].
  exists p, s'. split; [exact E|]. exists v, H, P. split; [done|done|done|by rewrite Hsw|]. split; [done|]. split; [done|]. intros _. rewrite Hd.
  apply (repr_disk _ _ _ _ _ Hr); [set_solver|set_solver|by apply swap_ne_L].
Qed.

Lemma disk_load s U V p n c : on_disk s U V (Some (p, n, c)) → (b ← block p; mret (data b)) s = Ok (V n, s).
Proof.
  intros (v & H & P & [Hr Hv _ _ (Hn & Hp & _)]). destruct Hp as (b & Hb & <- & _). unfold block. rewrite !bind_run. cbn [gets]. rewrite Hb. cbn.
  destruct (repr_block _ _ _ _ _ Hr p b Hb) as [-> _]. by rewrite Hv.
Qed.

Lemma disk_store s U V p n c d : on_disk s U V (Some (p, n, c)) → block_ok d →
  ∃ s', upd p (with_data d) s = Ok (tt, s') ∧ on_disk s' U (fupd V n d) (Some (p, n, false)).
Proof.
  intros (v & H & P & [Hr Hv Ho Hm (Hn & Hp & _)]) Hd.
  destruct (write_spec L s v _ P p n d Hr Hp Hd) as ([] & s' & E & Hr' & Hp' & (_ & _ & Hsw & _)). exists s'. split; [exact E|].
  exists (fupd v n d), H, P. split; [done| |done|by rewrite Hsw|split; [done|split; [by apply Hp'|done]]].
  intros m Hmb. unfold fupd. case_decide; [done|by apply Hv].
Qed.

Lemma disk_sync s U V p n c : on_disk s U V (Some (p, n, c)) →
  ∃ s', cache_sync None p s = Ok (tt, s') ∧ on_disk s' U V (Some (p, n, true)).
Proof.
  intros (v & H & P & [Hr Hv Ho Hm (Hn & Hp & _)]). destruct (device_write_spec L s v _ P p n Hr Hp) as ([] & s' & E & Hr' & Hp' & (_ & _ & Hsw & _ & Hd & _)).
  exists s'. split; [exact E|]. exists v, H, P. split; [done|done|done|by rewrite Hsw|split; [done|split; [by apply Hp'|]]].
  intros _. rewrite Hd disk_get_insert decide_True //.
Qed.

Lemma disk_release s U V p n : on_disk s U V (Some (p, n, true)) → ∃ s', cache_release p s = Ok (tt, s') ∧ on_disk s' U V None.
Proof.
  intros (v & H & P & [Hr Hv Ho Hm (Hn & Hp & Hc)]). destruct (cache_release_spec L s v _ P p n Hr Hp) as ([] & s' & E & Hr' & _ & (_ & _ & Hsw & _)); [by right; apply Hc|].
  exists s'. split; [exact E|]. exists v, H, P. split; [|done|done|by rewrite Hsw|done]. cbn [held_block] in Hr' |- *. rewrite union_empty_l_L.
  by replace H with (({[n]} ∪ H) ∖ {[n]}) by set_solver.
Qed.

Lemma disk_view_ok s U V held n : on_disk s U V held → swap_block n → block_ok (V n).
Proof. intros (v & H & P & [Hr Hv _ _ _]) Hn. rewrite Hv //. apply (repr_view_ok L s v _ P n Hr). by apply swap_ne_L. Qed.

Definition disk_swap_laws : SwapLaws St := {|
  swap_at := on_disk;
  sw_view_ok := disk_view_ok;
  law_find := disk_find;
  law_release8 := disk_release8;
  law_sw_acquire := disk_acquire;
  law_sw_load := disk_load;
  law_sw_store := disk_store;
  law_sw_sync := disk_sync;
  law_sw_release := disk_release;
|}.
End device.

(** ** Examples *)

Module SwapExamples.

(** Nothing in the cache, no slot taken; the header of the log is block 2. *)
Definition empty_disk : St := mkSt [] [] (mkLogHeader 0 (replicate 63 0)) (mkLOG false 0 0) (replicate 200 false) [] ∅ [].
Lemma header_outside : ¬ swap_block 2.
Proof. unfold swap_block, SWAP_START. lia. Qed.
Lemma empty_on_disk : on_disk 2 empty_disk ∅ (λ _, zero_block) None.
Proof.
  exists (disk_get ∅), ∅, ∅. split.
  - rewrite union_empty_l_L. apply (booted_repr AllocExamples.sb empty_disk). by split_and!.
  - done.
  - set_solver.
  - split; [done|]. intros i Hi. rewrite bool_decide_false; [|set_solver]. by apply lookup_replicate.
  - done.
Qed.
#[export] Instance empty_laws : SwapLaws St := disk_swap_laws 2 header_outside.
End SwapExamples.
