(* ===== verification/Inode.v ===== *)
(** * The inode layer

    [src/fs/inode.c] over the block interface of [BlockStore.v].  In-memory
    [Inode] objects live in a table, a pointer being an index; [ilist] is the
    ring [head] from [head.next] on.  [block->data] is read and written as the
    bytes of [InodeEntry], [IndirectBlock] and [DirEntry].

    The theorems are proved against [BlockLaws], for the blocks of one
    transaction: [inode_sync] is the round trip between memory and disk, a read
    returns the bytes of the file, a write replaces them and the blocks it
    needs are allocated by [inode_map]; directories map names to inode
    numbers.  The examples run on the cache instance. *)

From S2P Require Import Prelude FsLayout CString BlockCache FsLog BlockAlloc BlockStore.

Record Inode := mkInode {
  ilock : Z;
  rc : Z;
  inode_no : Z;
  ivalid : bool;
  entry : InodeEntry;
}.

Definition with_ilock (x : Z) (i : Inode) : Inode := mkInode x (rc i) (inode_no i) (ivalid i) (entry i).
Definition with_rc (x : Z) (i : Inode) : Inode := mkInode (ilock i) x (inode_no i) (ivalid i) (entry i).
Definition with_inode_no (x : Z) (i : Inode) : Inode := mkInode (ilock i) (rc i) x (ivalid i) (entry i).
Definition with_ivalid (x : bool) (i : Inode) : Inode := mkInode (ilock i) (rc i) (inode_no i) x (entry i).
Definition with_entry (x : InodeEntry) (i : Inode) : Inode :=
  mkInode (ilock i) (rc i) (inode_no i) (ivalid i) x.

Definition zero_entry : InodeEntry := mkInodeEntry 0 0 0 0 0 (replicate (Z.to_nat INODE_NUM_DIRECT) 0) 0.
Definition with_itype (x : Z) (e : InodeEntry) : InodeEntry :=
  mkInodeEntry x (major e) (minor e) (num_links e) (num_bytes e) (addrs e) (indirect e).
Definition with_num_bytes (x : Z) (e : InodeEntry) : InodeEntry :=
  mkInodeEntry (itype e) (major e) (minor e) (num_links e) x (addrs e) (indirect e).
Definition with_addr (i : nat) (x : Z) (e : InodeEntry) : InodeEntry :=
  mkInodeEntry (itype e) (major e) (minor e) (num_links e) (num_bytes e) (<[i := x]> (addrs e)) (indirect e).
Definition with_indirect (x : Z) (e : InodeEntry) : InodeEntry :=
  mkInodeEntry (itype e) (major e) (minor e) (num_links e) (num_bytes e) (addrs e) x.

(** The block store and the inodes in memory. *)
Record IState (S : Type) := mkIState { bstore : S; nodes : list Inode; ilist : list nat }.
Arguments mkIState {S} bstore nodes ilist.
Arguments bstore {S} i.
Arguments nodes {S} i.
Arguments ilist {S} i.

Section inode.
Context {S : Type} `{BO : BlockOps S} (sblock : SuperBlock).

Definition lift {A} (m : M S A) : M (IState S) A :=
  zoom bstore (λ s i, mkIState s (nodes i) (ilist i)) m.
Definition set_nodes (f : list Inode → list Inode) (i : IState S) : IState S :=
  mkIState (bstore i) (f (nodes i)) (ilist i).
Definition set_ilist (f : list nat → list nat) (i : IState S) : IState S :=
  mkIState (bstore i) (nodes i) (f (ilist i)).

Definition inode (p : nat) : M (IState S) Inode := ns ← gets nodes; deref (ns !! p).
Definition updi (p : nat) (f : Inode → Inode) : M (IState S) unit :=
  inode p ;; modify (set_nodes (alter f p)).
Definition upde (p : nat) (f : InodeEntry → InodeEntry) : M (IState S) unit :=
  updi p (λ i, with_entry (f (entry i)) i).

(** ** Inodes on disk and in memory *)

Definition to_block_no (no : Z) : Z := u64 (inode_start sblock + no / INODE_PER_BLOCK).
(** Byte offset of the entry of [no] in its block. *)
Definition entry_off (no : Z) : nat := Z.to_nat (no mod INODE_PER_BLOCK * sizeof_InodeEntry).
Definition get_entry (d : list Z) (no : Z) : InodeEntry :=
  decode_inode (slice d (entry_off no) (Z.to_nat sizeof_InodeEntry)).
Definition put_entry (d : list Z) (no : Z) (e : InodeEntry) : list Z :=
  splice d (entry_off no) (encode_inode e).

Definition init_inode : Inode := mkInode 1 0 0 false zero_entry.

Definition try_alloc (ctx : option nat) (type : Z) (no : Z) : M (IState S) (option Z) :=
  bp ← lift (bs_acquire (to_block_no no));
  d ← lift (bs_load bp);
  if itype (get_entry d no) =? INODE_INVALID then
    lift (bs_store bp (put_entry d no (with_itype type zero_entry))) ;;
    lift (bs_sync ctx bp) ;;
    lift (bs_release bp) ;;
    mret (Some no)
  else lift (bs_release bp) ;; mret None.

Definition inode_alloc (ctx : option nat) (type : Z) : M (IState S) Z :=
  assert_ (negb (type =? INODE_INVALID)) ;;
  r ← for_until (zseq 1 (num_inodes sblock + 1)) (try_alloc ctx type);
  match r with Some no => mret no | None => panic end.

Definition inode_lock (p : nat) : M (IState S) unit :=
  i ← inode p;
  assert_ (0 <? rc i) ;;
  let x := i32 (ilock i - 1) in
  if x <? 0 then fail Asleep else updi p (with_ilock x).
Definition inode_unlock (p : nat) : M (IState S) unit :=
  i ← inode p;
  assert_ (0 <? rc i) ;;
  updi p (with_ilock (i32 (ilock i + 1))).

Definition inode_sync (ctx : option nat) (p : nat) (do_write : bool) : M (IState S) unit :=
  i ← inode p;
  bp ← lift (bs_acquire (to_block_no (inode_no i)));
  d ← lift (bs_load bp);
  (if ivalid i && do_write then
     lift (bs_store bp (put_entry d (inode_no i) (entry i))) ;;
     lift (bs_sync ctx bp)
   else if negb (ivalid i) then
     updi p (with_entry (get_entry d (inode_no i))) ;;
     updi p (with_ivalid true)
   else mret tt) ;;
  lift (bs_release bp).

Definition increment_rc (p : nat) : M (IState S) unit := updi p (λ i, with_rc (i64 (rc i + 1)) i).
Definition decrement_rc (p : nat) : M (IState S) unit := updi p (λ i, with_rc (i64 (rc i - 1)) i).

(** The scan of [inode_get]: a live inode of that number, or else the first
    one nobody refers to. *)
Definition is_live (ns : list Inode) (no : Z) (p : nat) : bool :=
  match ns !! p with Some i => (inode_no i =? no) && (0 <? rc i) | None => false end.
Definition find_live (ns : list Inode) (no : Z) (l : list nat) : option nat :=
  snd <$> list_find (λ p, is_live ns no p = true) l.
Definition find_empty (ns : list Inode) (l : list nat) : option nat :=
  snd <$> list_find (λ p, rc <$> ns !! p = Some 0) l.

Definition new_inode : M (IState S) nat :=
  p ← gets (λ s, length (nodes s));
  modify (set_nodes (λ ns, ns ++ [init_inode])) ;;
  modify (set_ilist (cons p)) ;;
  mret p.

Definition inode_get (no : Z) : M (IState S) nat :=
  assert_ (0 <? no) ;;
  assert_ (no <? num_inodes sblock) ;;
  ns ← gets nodes;
  l ← gets ilist;
  match find_live ns no l with
  | Some p => increment_rc p ;; mret p
  | None =>
      p ← match find_empty ns l with Some p => mret p | None => new_inode end;
      updi p (with_inode_no no) ;;
      increment_rc p ;;
      updi p (with_ivalid false) ;;
      inode_lock p ;;
      inode_sync None p false ;;
      inode_unlock p ;;
      mret p
  end.

Definition init_inodes : M (IState S) (option nat) :=
  modify (set_ilist (λ _, [])) ;;
  if ROOT_INODE_NO <? num_inodes sblock then p ← inode_get ROOT_INODE_NO; mret (Some p)
  else mret None.

(** ** Contents *)

(** [((u32 * )data)[k]] and its update. *)
Definition get_addr (d : list Z) (k : Z) : Z := le_value (slice d (Z.to_nat (4 * k)) 4).
Definition put_addr (d : list Z) (k : Z) (a : Z) : list Z := splice d (Z.to_nat (4 * k)) (le_bytes 4 a).

Definition free_if (ctx : option nat) (a : Z) : M (IState S) unit :=
  if negb (a =? 0) then lift (bs_free ctx a) else mret tt.

Definition clear_direct (ctx : option nat) (p : nat) (k : Z) : M (IState S) unit :=
  i ← inode p;
  a ← deref (addrs (entry i) !! Z.to_nat k);
  if negb (a =? 0) then
    lift (bs_free ctx a) ;;
    upde p (with_addr (Z.to_nat k) 0)
  else mret tt.

Definition clear_indirect (ctx : option nat) (p : nat) : M (IState S) unit :=
  i ← inode p;
  let ind := indirect (entry i) in
  if negb (ind =? 0) then
    bp ← lift (bs_acquire ind);
    for_each (zseq 0 INODE_NUM_INDIRECT) (λ k, d ← lift (bs_load bp); free_if ctx (get_addr d k)) ;;
    lift (bs_release bp) ;;
    lift (bs_free ctx ind) ;;
    upde p (with_indirect 0)
  else mret tt.

Definition inode_clear (ctx : option nat) (p : nat) : M (IState S) unit :=
  for_each (zseq 0 INODE_NUM_DIRECT) (clear_direct ctx p) ;;
  clear_indirect ctx p ;;
  upde p (with_num_bytes 0) ;;
  inode_sync ctx p true.

Definition inode_share (p : nat) : M (IState S) nat := increment_rc p ;; mret p.

(** Freeing leaves the index out of [ilist]; nothing refers to it again. *)
Definition inode_put (ctx : option nat) (p : nat) : M (IState S) unit :=
  i ← inode p;
  assert_ (ivalid i) ;;
  if (rc i =? 1) && (num_links (entry i) =? 0) then
    inode_lock p ;;
    inode_clear ctx p ;;
    upde p (with_itype INODE_INVALID) ;;
    inode_sync ctx p true ;;
    updi p (with_ivalid false) ;;
    inode_unlock p ;;
    modify (set_ilist (filter (λ q, q ≠ p))) ;;
    decrement_rc p
  else decrement_rc p.

(** The block of [offset] (a block index), and whether it is new. *)
Definition inode_map (ctx : option nat) (p : nat) (offset : Z) : M (IState S) (Z * bool) :=
  i ← inode p;
  if offset <? INODE_NUM_DIRECT then
    addr ← deref (addrs (entry i) !! Z.to_nat offset);
    if addr =? 0 then
      addr ← lift (bs_alloc ctx);
      upde p (with_addr (Z.to_nat offset) (u32 addr)) ;;
      mret (addr, true)
    else mret (addr, false)
  else
    let offset := offset - INODE_NUM_DIRECT in
    if offset <? INODE_NUM_INDIRECT then
      addr ← (if indirect (entry i) =? 0 then
                addr ← lift (bs_alloc ctx);
                upde p (with_indirect (u32 addr)) ;;
                mret addr
              else mret (indirect (entry i)));
      bp ← lift (bs_acquire addr);
      d ← lift (bs_load bp);
      if get_addr d offset =? 0 then
        addr ← lift (bs_alloc ctx);
        d ← lift (bs_load bp);
        lift (bs_store bp (put_addr d offset (u32 addr))) ;;
        lift (bs_sync ctx bp) ;;
        lift (bs_release bp) ;;
        mret (addr, true)
      else
        lift (bs_release bp) ;;
        mret (get_addr d offset, false)
    else panic.

(** The loop of [inode_read], from [tot] on: the bytes it puts at [dest]. *)
Fixpoint read_loop (fuel : nat) (p : nat) (tot offset count : Z) : M (IState S) (list Z) :=
  match fuel with
  | O => fail OutOfFuel
  | Datatypes.S fuel' =>
      if tot <? count then
        r ← inode_map None p (offset / BLOCK_SIZE);
        bp ← lift (bs_acquire r.1);
        let m := Z.min (u64 (count - tot)) (BLOCK_SIZE - offset mod BLOCK_SIZE) in
        d ← lift (bs_load bp);
        lift (bs_release bp) ;;
        rest ← read_loop fuel' p (u64 (tot + m)) (u64 (offset + m)) count;
        mret (slice d (Z.to_nat (offset mod BLOCK_SIZE)) (Z.to_nat m) ++ rest)
      else mret []
  end.

(** Enough turns: each but the first and the last moves a whole block. *)
Definition io_fuel (count : Z) : nat := Z.to_nat (count / BLOCK_SIZE + 3).

(** What is put at [dest], and the value returned. *)
Definition inode_read (p : nat) (offset count : Z) : M (IState S) (list Z * Z) :=
  i ← inode p;
  let count := if num_bytes (entry i) <? u64 (count + offset)
               then u64 (num_bytes (entry i) - offset) else count in
  let stop := u64 (offset + count) in
  assert_ (offset <=? num_bytes (entry i)) ;;
  assert_ (stop <=? num_bytes (entry i)) ;;
  assert_ (offset <=? stop) ;;
  bs ← read_loop (io_fuel count) p 0 offset count;
  mret (bs, 0).

(** The loop of [inode_write]; it returns the final value of [offset]. *)
Fixpoint write_loop (fuel : nat) (ctx : option nat) (p : nat) (src : list Z) (tot offset count : Z)
    : M (IState S) Z :=
  match fuel with
  | O => fail OutOfFuel
  | Datatypes.S fuel' =>
      if tot <? count then
        r ← inode_map ctx p (offset / BLOCK_SIZE);
        bp ← lift (bs_acquire r.1);
        let m := Z.min (u64 (count - tot)) (BLOCK_SIZE - offset mod BLOCK_SIZE) in
        d ← lift (bs_load bp);
        lift (bs_store bp (splice d (Z.to_nat (offset mod BLOCK_SIZE)) (take (Z.to_nat m) src))) ;;
        lift (bs_sync ctx bp) ;;
        lift (bs_release bp) ;;
        write_loop fuel' ctx p (drop (Z.to_nat m) src) (u64 (tot + m)) (u64 (offset + m)) count
      else mret offset
  end.

Definition inode_write (ctx : option nat) (p : nat) (src : list Z) (offset count : Z) : M (IState S) Z :=
  i ← inode p;
  let stop := u64 (offset + count) in
  assert_ (offset <=? num_bytes (entry i)) ;;
  assert_ (stop <=? INODE_MAX_BYTES) ;;
  assert_ (offset <=? stop) ;;
  offset ← write_loop (io_fuel count) ctx p src 0 offset count;
  i ← inode p;
  (if (0 <? count) && (num_bytes (entry i) <? offset) then
     upde p (with_num_bytes (u32 offset)) ;;
     inode_sync ctx p true
   else mret tt) ;;
  mret count.

(** ** Directories *)

(** The offsets of the entries of a directory of [n] bytes. *)
Definition dir_offsets (n : Z) : list Z :=
  (λ k, sizeof_DirEntry * k) <$> zseq 0 ((n + sizeof_DirEntry - 1) / sizeof_DirEntry).

Definition read_dirent (p : nat) (off : Z) : M (IState S) DirEntry :=
  r ← inode_read p off sizeof_DirEntry;
  if negb (r.2 =? 0) then panic else mret (decode_dirent r.1).

Definition lookup_at (p : nat) (name : list Z) (off : Z) : M (IState S) (option (Z * Z)) :=
  de ← read_dirent p off;
  if de_inode_no de =? 0 then mret None
  else
    r ← deref (strncmp (de_name de) name (Z.to_nat FILE_NAME_MAX_LENGTH));
    if r =? 0 then mret (Some (de_inode_no de, off)) else mret None.

(** The inode number and what is stored in [*index], or [None] for zero. *)
Definition inode_lookup (p : nat) (name : list Z) : M (IState S) (option (Z * Z)) :=
  i ← inode p;
  assert_ (itype (entry i) =? INODE_DIRECTORY) ;;
  for_until (dir_offsets (num_bytes (entry i))) (lookup_at p name).

Definition free_at (p : nat) (off : Z) : M (IState S) (option Z) :=
  de ← read_dirent p off;
  mret (if de_inode_no de =? 0 then Some off else None).

Definition inode_insert (ctx : option nat) (p : nat) (name : list Z) (no : Z) : M (IState S) Z :=
  i ← inode p;
  assert_ (itype (entry i) =? INODE_DIRECTORY) ;;
  r ← inode_lookup p name;
  match r with
  | Some _ => mret (u64 (-1))
  | None =>
      i ← inode p;
      o ← for_until (dir_offsets (num_bytes (entry i))) (free_at p);
      let off := default (sizeof_DirEntry * Z.of_nat (length (dir_offsets (num_bytes (entry i))))) o in
      let de := mkDirEntry (u16 no) (cpad (Z.to_nat FILE_NAME_MAX_LENGTH) name) in
      inode_write ctx p (encode_dirent de) off sizeof_DirEntry ;;
      mret off
  end.

Definition inode_remove (ctx : option nat) (p : nat) (index : Z) : M (IState S) unit :=
  i ← inode p;
  assert_ (itype (entry i) =? INODE_DIRECTORY) ;;
  inode_write ctx p (replicate (Z.to_nat sizeof_DirEntry) 0) index sizeof_DirEntry ;;
  mret tt.

End inode.

(** ** The abstract file

    [block_of g e k] is the number of the [k]-th block of a file with entry
    [e], zero when it has none; [file_byte g e x] its [x]-th byte. *)

Definition ind_addr (g : ghost) (e : InodeEntry) (k : Z) : Z :=
  if indirect e =? 0 then 0 else get_addr (gview g (indirect e)) k.
Definition block_of (g : ghost) (e : InodeEntry) (k : Z) : Z :=
  if k <? INODE_NUM_DIRECT then default 0 (addrs e !! Z.to_nat k)
  else ind_addr g e (k - INODE_NUM_DIRECT).
Definition file_byte (g : ghost) (e : InodeEntry) (x : Z) : Z :=
  byte_at (gview g (block_of g e (x / BLOCK_SIZE))) (x mod BLOCK_SIZE).

(** Two ghost states that differ at most in forgotten writes. *)
Record g_same (g g' : ghost) : Prop := {
  gs_view : ∀ n, gview g' n = gview g n;
  gs_held : gheld g' = gheld g;
  gs_used : gused g' = gused g;
  gs_log : glog g' = glog g;
  gs_units : gunits g' = gunits g;
  gs_dirty : gdirty g' ⊆ gdirty g;
}.

Lemma g_same_refl g : g_same g g.
Proof. by split. Qed.
Lemma g_same_trans g1 g2 g3 : g_same g1 g2 → g_same g2 g3 → g_same g1 g3.
Proof.
  intros [A1 A2 A3 A4 A5 A6] [B1 B2 B3 B4 B5 B6]. split; try congruence. set_solver.
Qed.

(** Acquired and released: nothing happened. *)
Lemma g_same_visit n g : n ∉ gheld g → g_same g (g_release n (g_acquire n g)).
Proof. intros Hn. split; cbn; try done; [apply set_eq|]; set_solver. Qed.

Section laws.
Context {S : Type} {BO : BlockOps S} {BL : BlockLaws S} (sblock : SuperBlock).
Abbreviation I := (IState S).

Definition in_range (k : Z) : Prop := 0 ≤ k < INODE_MAX_BLOCKS.
(** A block the file may use: allocated and not locked. *)
Definition good (g : ghost) (n : Z) : Prop := file_block n ∧ n ∈ gused g ∧ n ∉ gheld g.

Record file_inv (g : ghost) (e : InodeEntry) : Prop := {
  fi_entry : inode_ok e;
  fi_size : num_bytes e ≤ INODE_MAX_BYTES;
  fi_good : ∀ k, in_range k → block_of g e k ≠ 0 → good g (block_of g e k);
  fi_ind : indirect e ≠ 0 → good g (indirect e);
  fi_inj : ∀ j k, in_range j → in_range k → block_of g e j ≠ 0 →
           block_of g e j = block_of g e k → j = k;
  fi_ind_ne : indirect e ≠ 0 → ∀ k, in_range k → block_of g e k ≠ indirect e;
  fi_mapped : ∀ x, 0 ≤ x < num_bytes e → block_of g e (x / BLOCK_SIZE) ≠ 0;
}.

(** ** Lifting *)

Lemma wp_lift {A} (m : M S A) (Q : A → I → Prop) (s : I) :
  wp m (λ a st, Q a (mkIState st (nodes s) (ilist s))) (bstore s) → wp (lift m) Q s.
Proof. intros (a & st & E & HQ). exists a, (mkIState st (nodes s) (ilist s)). unfold lift, zoom. by rewrite E. Qed.

Lemma wp_inode (s : I) p i (Q : Inode → I → Prop) : nodes s !! p = Some i → Q i s → wp (inode p) Q s.
Proof. intros Hp HQ. apply wp_bind, wp_gets. by eapply wp_deref. Qed.

Lemma wp_updi (s : I) p i f (Q : unit → I → Prop) :
  nodes s !! p = Some i → Q tt (set_nodes (alter f p) s) → wp (updi p f) Q s.
Proof. intros Hp HQ. apply wp_bind. eapply wp_inode; [done|]. by apply wp_modify. Qed.

Lemma lookup_alter_node (ns : list Inode) p i f : ns !! p = Some i → alter f p ns !! p = Some (f i).
Proof. intros H. by rewrite list_lookup_alter_eq, H. Qed.

Lemma mkIState_eta (s : I) : mkIState (bstore s) (nodes s) (ilist s) = s.
Proof. by destruct s. Qed.

(** ** Mapping a block that exists *)

Lemma good_acquire g n c s : tx c s g → good g n →
  wp (bs_acquire n) (λ p s', tx c s' (g_acquire n g) ∧ hdl s' p n ∧ ∀ q m, hdl s q m → hdl s' q m) s.
Proof. intros T (Hf & _ & Hn). by apply law_acquire. Qed.

(** Acquire, look, release. *)
Lemma visit_block c s g n (Q : list Z → S → Prop) :
  tx c s g → good g n →
  (∀ s' g', tx c s' g' → g_same g g' → Q (gview g n) s') →
  wp (bp ← bs_acquire n; d ← bs_load bp; bs_release bp ;; mret d) Q s.
Proof.
  intros T G HQ. apply wp_bind. eapply wp_mono; [by eapply good_acquire|]. intros p s1 (T1 & Hp & _).
  apply wp_bind. eexists _, s1. split; [eapply law_load; [exact T1|exact Hp|apply G]|].
  apply wp_bind. eapply wp_mono; [eapply law_release; [exact T1|exact Hp|right; cbn; set_solver]|].
  intros [] s2 [T2 _]. apply wp_ret. eapply HQ; [exact T2|]. apply g_same_visit, G.
Qed.

Lemma block_of_direct g e k : in_range k → k < INODE_NUM_DIRECT → inode_ok e →
  addrs e !! Z.to_nat k = Some (block_of g e k).
Proof.
  intros Hk Hd (_&_&_&_&_&_&Hl&_). unfold block_of. rewrite (proj2 (Z.ltb_lt _ _)) by done.
  destruct (lookup_lt_is_Some_2 (addrs e) (Z.to_nat k)) as [a Ha].
  - rewrite Hl. unfold in_range in Hk. lconst. lia.
  - by rewrite Ha.
Qed.

Lemma block_of_indirect g e k : INODE_NUM_DIRECT ≤ k → block_of g e k = ind_addr g e (k - INODE_NUM_DIRECT).
Proof. intros Hk. unfold block_of. by rewrite (proj2 (Z.ltb_ge _ _)). Qed.

Lemma inode_map_mapped c (s : I) g p i ctx k :
  tx c (bstore s) g → nodes s !! p = Some i → file_inv g (entry i) → in_range k →
  block_of g (entry i) k ≠ 0 →
  wp (inode_map ctx p k)
     (λ r s', r = (block_of g (entry i) k, false) ∧ nodes s' = nodes s ∧ ilist s' = ilist s ∧
              ∃ g', tx c (bstore s') g' ∧ g_same g g') s.
Proof.
  intros T Hp F Hk Hne. unfold inode_map. apply wp_bind. eapply wp_inode; [done|].
  destruct (k <? INODE_NUM_DIRECT) eqn:Ed; [apply Z.ltb_lt in Ed|apply Z.ltb_ge in Ed].
  - apply wp_bind. eapply wp_deref; [by apply block_of_direct; [..|apply F]|].
    rewrite (proj2 (Z.eqb_neq _ _)) by done. apply wp_ret. split_and!; [done..|]. by eexists; split; [|apply g_same_refl].
  - pose proof (block_of_indirect g (entry i) k Ed) as Eb. rewrite Eb in *. unfold ind_addr in *.
    destruct (indirect (entry i) =? 0) eqn:Ei; [done|]. apply Z.eqb_neq in Ei.
    rewrite (proj2 (Z.ltb_lt _ _)) by (unfold in_range in Hk; lconst; lia).
    apply wp_bind, wp_ret. pose proof (fi_ind _ _ F Ei) as G.
    apply wp_bind, wp_lift. eapply wp_mono; [by eapply good_acquire|]. intros bp s1 (T1 & Hb & _).
    apply wp_bind, wp_lift. eexists _, s1. split; [eapply law_load; [exact T1|exact Hb|apply G]|].
    cbn [gview g_acquire]. rewrite (proj2 (Z.eqb_neq _ _)) by done.
    apply wp_bind, wp_lift. eapply wp_mono; [eapply law_release; [exact T1|exact Hb|right; cbn; set_solver]|].
    intros [] s2 [T2 _]. apply wp_ret. split_and!; [done..|].
    eexists. split; [exact T2|]. apply g_same_visit, G.
Qed.

(** ** Reading *)

Lemma block_of_same g g' e k : g_same g g' → block_of g' e k = block_of g e k.
Proof. intros E. unfold block_of, ind_addr. by rewrite (gs_view _ _ E). Qed.

Lemma file_byte_same g g' e x : g_same g g' → file_byte g' e x = file_byte g e x.
Proof. intros E. unfold file_byte. by rewrite (block_of_same _ _ _ _ E), (gs_view _ _ E). Qed.

Lemma good_same g g' n : g_same g g' → good g n → good g' n.
Proof. intros E (Hf & Hu & Hh). unfold good. by rewrite (gs_used _ _ E), (gs_held _ _ E). Qed.

Lemma file_inv_same g g' e : g_same g g' → file_inv g e → file_inv g' e.
Proof.
  intros E F. pose proof (block_of_same g g' e) as B. split; try apply F.
  - intros k Hk. rewrite B by done. intros Hne. eapply good_same; [done|]. by apply (fi_good _ _ F).
  - intros Hi. eapply good_same; [done|]. by apply (fi_ind _ _ F).
  - intros j k Hj Hk. rewrite !B by done. by apply (fi_inj _ _ F).
  - intros Hi k Hk. rewrite B by done. by apply (fi_ind_ne _ _ F).
  - intros x Hx. rewrite B by done. by apply (fi_mapped _ _ F).
Qed.

(** [bs] are the bytes of the file from [offset] on. *)
Definition reads (g : ghost) (e : InodeEntry) (offset : Z) (bs : list Z) : Prop :=
  ∀ k b, bs !! k = Some b → b = file_byte g e (offset + Z.of_nat k).

Lemma block_length c s g n : tx c s g → file_block n → length (gview g n) = Z.to_nat BLOCK_SIZE.
Proof. intros T Hf. by apply (law_view_ok c s g n T Hf). Qed.

Lemma slice_reads g e offset m :
  length (gview g (block_of g e (offset / BLOCK_SIZE))) = Z.to_nat BLOCK_SIZE →
  0 ≤ offset → 0 ≤ m → offset mod BLOCK_SIZE + m ≤ BLOCK_SIZE →
  reads g e offset (slice (gview g (block_of g e (offset / BLOCK_SIZE)))
                          (Z.to_nat (offset mod BLOCK_SIZE)) (Z.to_nat m)).
Proof.
  intros Hl Ho Hm Hle k b Hk. lconst. pose proof (Z.mod_pos_bound offset 512 ltac:(lia)) as Hmod.
  assert (Hkm : (k < Z.to_nat m)%nat).
  { apply lookup_lt_Some in Hk. rewrite length_slice in Hk by lia. done. }
  rewrite lookup_slice in Hk by done. unfold file_byte, byte_at. lconst.
  pose proof (Z.div_mod offset 512 ltac:(lia)) as Hdm.
  assert ((offset + Z.of_nat k) / 512 = offset / 512) as ->.
  { symmetry. apply (Z.div_unique _ _ _ (offset mod 512 + Z.of_nat k)); lia. }
  assert ((offset + Z.of_nat k) mod 512 = offset mod 512 + Z.of_nat k) as ->.
  { symmetry. apply (Z.mod_unique _ _ (offset / 512)); lia. }
  replace (Z.to_nat (offset mod 512 + Z.of_nat k)) with (Z.to_nat (offset mod 512) + k)%nat by lia.
  symmetry. by apply nth_lookup_Some.
Qed.

(** One turn moves [m] bytes; the rest needs one turn less. *)
Lemma io_step offset rem m fuel :
  0 ≤ offset → 0 < rem → m = Z.min rem (BLOCK_SIZE - offset mod BLOCK_SIZE) →
  offset mod BLOCK_SIZE + rem ≤ BLOCK_SIZE * Z.of_nat fuel →
  0 < m ≤ rem ∧ 0 ≤ offset mod BLOCK_SIZE ∧ offset mod BLOCK_SIZE + m ≤ BLOCK_SIZE ∧
  (rem - m = 0 ∨ (offset + m) mod BLOCK_SIZE + (rem - m) ≤ BLOCK_SIZE * (Z.of_nat fuel - 1)).
Proof.
  intros Ho Hr -> Hf. lconst. pose proof (Z.mod_pos_bound offset 512 ltac:(lia)).
  split_and!; [lia..|]. destruct (decide (rem ≤ 512 - offset mod 512)); [left; lia|right].
  rewrite Z.min_r by lia. pose proof (Z.div_mod offset 512 ltac:(lia)).
  replace (offset + (512 - offset mod 512)) with ((offset / 512 + 1) * 512) by lia.
  rewrite Z.mod_mul by lia. lia.
Qed.

Lemma read_loop_S fuel p tot offset count :
  read_loop (Datatypes.S fuel) p tot offset count =
    if tot <? count then
      r ← inode_map None p (offset / BLOCK_SIZE);
      bp ← lift (bs_acquire r.1);
      let m := Z.min (u64 (count - tot)) (BLOCK_SIZE - offset mod BLOCK_SIZE) in
      d ← lift (bs_load bp);
      lift (bs_release bp) ;;
      rest ← read_loop fuel p (u64 (tot + m)) (u64 (offset + m)) count;
      mret (slice d (Z.to_nat (offset mod BLOCK_SIZE)) (Z.to_nat m) ++ rest)
    else mret [].
Proof. reflexivity. Qed.

Lemma read_loop_spec c p i fuel (s : I) g tot offset count :
  tx c (bstore s) g → nodes s !! p = Some i → file_inv g (entry i) →
  0 ≤ tot ≤ count → 0 ≤ offset → offset + (count - tot) ≤ num_bytes (entry i) → count < 2 ^ 63 →
  (tot = count ∨ offset mod BLOCK_SIZE + (count - tot) ≤ BLOCK_SIZE * Z.of_nat fuel) →
  wp (read_loop (Datatypes.S fuel) p tot offset count)
     (λ bs s', length bs = Z.to_nat (count - tot) ∧ reads g (entry i) offset bs ∧
               nodes s' = nodes s ∧ ilist s' = ilist s ∧ ∃ g', tx c (bstore s') g' ∧ g_same g g') s.
Proof.
  revert s g tot offset. induction fuel as [|fuel IH]; intros s g tot offset T Hp F Ht Ho Hle Hc Hf;
    rewrite read_loop_S; (destruct (tot <? count) eqn:E; [apply Z.ltb_lt in E|apply Z.ltb_ge in E];
    [|apply wp_ret; split_and!; [cbn; lia|by intros ? ? ?|done|done|by eexists; split; [|apply g_same_refl]]]).
  { pose proof (Z.mod_pos_bound offset BLOCK_SIZE ltac:(lconst; lia)). lia. }
  destruct Hf as [Hf|Hf]; [lia|]. pose proof (fi_size _ _ F) as Hsize.
  assert (Hk : in_range (offset / BLOCK_SIZE)).
  { unfold in_range. lconst. split; [apply Z.div_pos; lia|apply Z.div_lt_upper_bound; lia]. }
  pose proof (fi_mapped _ _ F offset ltac:(lia)) as Hne. pose proof (fi_good _ _ F _ Hk Hne) as G.
  apply wp_bind. eapply wp_mono; [eapply inode_map_mapped; [exact T|exact Hp|exact F|exact Hk|exact Hne]|].
  intros r s1 (-> & En1 & El1 & g1 & T1 & E1). cbn [fst].
  apply wp_bind, wp_lift. eapply wp_mono; [eapply good_acquire; [exact T1|by eapply good_same]|].
  intros bp s2 (T2 & Hb & _). cbv zeta. rewrite (u64_small (count - tot)) by lia.
  set (m := Z.min (count - tot) (BLOCK_SIZE - offset mod BLOCK_SIZE)).
  destruct (io_step offset (count - tot) m (Datatypes.S fuel)) as (Hm & Hm0 & Hmb & Hnext); [lia|lia|done|done|].
  apply wp_bind, wp_lift. eexists _, s2. split; [eapply law_load; [exact T2|exact Hb|apply G]|].
  cbn [gview g_acquire]. rewrite (gs_view _ _ E1).
  apply wp_bind, wp_lift. eapply wp_mono; [eapply law_release; [exact T2|exact Hb|right; cbn; set_solver]|].
  intros [] s3 [T3 _]. apply wp_bind. lconst. rewrite !u64_small by lia.
  assert (E3 : g_same g (g_release (block_of g (entry i) (offset / 512)) (g_acquire (block_of g (entry i) (offset / 512)) g1))).
  { eapply g_same_trans; [exact E1|]. apply g_same_visit. rewrite (gs_held _ _ E1). apply G. }
  eapply wp_mono; [eapply IH; [exact T3|cbn; by rewrite En1|by eapply file_inv_same|lia|lia|lia|done|]|].
  { destruct Hnext; [left; lia|right; lia]. }
  cbn. intros rest s4 (Hl & Hr & En4 & El4 & g4 & T4 & E4). apply wp_ret. split_and!.
  - rewrite length_app, Hl, length_slice; [lia|].
    rewrite (block_length c (bstore s) g) by (done || apply G). lconst. lia.
  - intros k b. rewrite lookup_app_Some. rewrite length_slice.
    2: { rewrite (block_length c (bstore s) g) by (done || apply G). lconst. lia. }
    intros [Hk1|[Hk1 Hk2]].
    + pose proof (slice_reads g (entry i) offset m) as Sr. lconst. eapply Sr; [|lia|lia|lia|exact Hk1].
      rewrite (block_length c (bstore s) g) by (done || apply G). by lconst.
    + apply Hr in Hk2. rewrite Hk2. rewrite (file_byte_same _ _ _ _ E3). f_equal. lia.
  - congruence.
  - congruence.
  - exists g4. split; [done|]. by eapply g_same_trans.
Qed.

Lemma inode_read_spec c (s : I) g p i offset count :
  tx c (bstore s) g → nodes s !! p = Some i → file_inv g (entry i) →
  0 ≤ offset ≤ num_bytes (entry i) → 0 ≤ count < 2 ^ 63 →
  let n := Z.min count (num_bytes (entry i) - offset) in
  wp (inode_read p offset count)
     (λ r s', r.2 = 0 ∧ length r.1 = Z.to_nat n ∧ reads g (entry i) offset r.1 ∧
              nodes s' = nodes s ∧ ilist s' = ilist s ∧ ∃ g', tx c (bstore s') g' ∧ g_same g g') s.
Proof.
  intros T Hp F Ho Hc n. pose proof (fi_size _ _ F) as Hsize. unfold inode_read.
  apply wp_bind. eapply wp_inode; [done|]. cbv zeta. lconst.
  assert (En : (if num_bytes (entry i) <? u64 (count + offset) then u64 (num_bytes (entry i) - offset) else count) = n).
  { rewrite u64_small by lia. destruct (_ <? _) eqn:E; [apply Z.ltb_lt in E|apply Z.ltb_ge in E].
    - rewrite u64_small by lia. unfold n. lia.
    - unfold n. lia. }
  rewrite En. assert (0 ≤ n ∧ offset + n ≤ num_bytes (entry i)) by (unfold n; lia).
  rewrite !u64_small by lia.
  apply wp_bind, wp_assert; [lia|]. apply wp_bind, wp_assert; [lia|]. apply wp_bind, wp_assert; [lia|].
  apply wp_bind. unfold io_fuel. lconst.
  assert (Hd : 0 ≤ n / 512) by (apply Z.div_pos; lia). pose proof (Z.div_mod n 512 ltac:(lia)).
  pose proof (Z.mod_pos_bound n 512 ltac:(lia)). pose proof (Z.mod_pos_bound offset 512 ltac:(lia)).
  replace (Z.to_nat (n / 512 + 3)) with (Datatypes.S (Z.to_nat (n / 512 + 2))) by lia.
  eapply wp_mono; [eapply read_loop_spec; [exact T|exact Hp|exact F|lia|lia|lia|lia|right; lconst; lia]|].
  intros bs s' (Hl & Hr & En' & El' & Hg). apply wp_ret. cbn. rewrite Z.sub_0_r in Hl. by split_and!.
Qed.

(** ** Mapping a block that does not exist yet *)

(** [q] blocks can still be allocated. *)
Definition free_blocks (g : ghost) (q : nat) : Prop :=
  ∃ F : gset Z, (∀ n, n ∈ F → file_block n ∧ n ∉ gused g) ∧ (q ≤ size F)%nat.

Lemma free_blocks_one g q : free_blocks g (Datatypes.S q) → ∃ n, file_block n ∧ n ∉ gused g.
Proof.
  intros (F & HF & Hq). destruct (set_choose_L F) as [n Hn]; [|eauto].
  intros ->. rewrite size_empty in Hq. lia.
Qed.

Lemma free_blocks_alloc g g' n q : free_blocks g (Datatypes.S q) → gused g' = {[n]} ∪ gused g → free_blocks g' q.
Proof.
  intros (F & HF & Hq) E. exists (F ∖ {[n]}). split.
  - intros m [Hm Hmn]%elem_of_difference. destruct (HF m Hm). rewrite E. set_solver.
  - rewrite size_difference_alt. assert (size (F ∩ {[n]}) ≤ 1)%nat; [|lia].
    rewrite <-(size_singleton (C:=gset Z) n). apply subseteq_size. set_solver.
Qed.

Lemma free_blocks_used g g' q : gused g' = gused g → free_blocks g q → free_blocks g' q.
Proof. intros E (F & HF & Hq). exists F. by rewrite E. Qed.

(** *** The bytes of an indirect block *)

Lemma le_value_zero l : Forall (λ b, b = 0) l → le_value l = 0.
Proof. induction 1 as [|b l -> Hl IH]; cbn; [done|]. by rewrite IH. Qed.

Lemma get_addr_zero k : get_addr zero_block k = 0.
Proof. apply le_value_zero, Forall_slice, Forall_replicate. done. Qed.

Lemma put_addr_ok d k a : block_ok d → 0 ≤ k < INODE_NUM_INDIRECT → block_ok (put_addr d k a).
Proof.
  intros [Hl Hb] Hk. lconst. unfold put_addr. split.
  - rewrite length_splice; [done|]. rewrite length_le_bytes, Hl. lia.
  - apply Forall_splice; [done|apply le_bytes_ok].
Qed.

Lemma get_put_addr d k j a :
  block_ok d → 0 ≤ k < INODE_NUM_INDIRECT → 0 ≤ j < INODE_NUM_INDIRECT → uint 4 a →
  get_addr (put_addr d k a) j = if decide (j = k) then a else get_addr d j.
Proof.
  intros [Hl _] Hk Hj Ha. lconst. unfold get_addr, put_addr. case_decide.
  - subst. pose proof (slice_splice_eq d (Z.to_nat (4 * k)) (le_bytes 4 a)) as E.
    rewrite length_le_bytes in E. rewrite E by lia. by apply le_value_bytes.
  - rewrite slice_splice_ne; [done|rewrite length_le_bytes; lia|rewrite length_le_bytes; lia].
Qed.

(** *** Preservation of the file invariant *)

Definition same_meta (e e' : InodeEntry) : Prop :=
  num_bytes e' = num_bytes e ∧ itype e' = itype e ∧ major e' = major e ∧ minor e' = minor e ∧
  num_links e' = num_links e.

(** The ghost state grew: [W] are the allocated blocks whose content may differ. *)
Record g_grow (W : Z → Prop) (a u : nat) (g g' : ghost) : Prop := {
  gg_view : ∀ m, m ∈ gused g → ¬ W m → gview g' m = gview g m;
  gg_used : gused g ⊆ gused g';
  gg_held : gheld g' = gheld g;
  gg_log : glog g ⊆ glog g';
  gg_units : gunits g - Z.of_nat u ≤ gunits g' ≤ gunits g;
  gg_free : ∀ q, free_blocks g (q + a) → free_blocks g' q;
}.

Lemma good_grow W a u g g' n : g_grow W a u g g' → good g n → good g' n.
Proof. intros G (Hf & Hu & Hh). split_and!; [done|by apply (gg_used _ _ _ _ _ G)|by rewrite (gg_held _ _ _ _ _ G)]. Qed.

Lemma g_grow_refl W a u g : g_grow W a u g g.
Proof.
  split; try done; [lia|]. intros q (F & HF & Hq). exists F. split; [done|lia].
Qed.

Lemma g_grow_trans W a u b w g1 g2 g3 :
  g_grow W a u g1 g2 → g_grow W b w g2 g3 → g_grow W (a + b) (u + w) g1 g3.
Proof.
  intros [A1 A2 A3 A4 A5 A6] [B1 B2 B3 B4 B5 B6]. split.
  - intros m Hm HW. rewrite B1 by auto. by apply A1.
  - by etrans.
  - congruence.
  - by etrans.
  - lia.
  - intros q Hq. apply B6, A6. by replace (q + b + a)%nat with (q + (a + b))%nat by lia.
Qed.

(** A fresh block becomes the [k]-th of the file, or its indirect block. *)
Lemma file_inv_map W a u g g' e e' k n :
  file_inv g e → g_grow W a u g g' → in_range k → inode_ok e' → same_meta e e' →
  indirect e' = indirect e → good g' n → n ∉ gused g → block_of g e k = 0 → n ≠ 0 →
  (∀ j, in_range j → block_of g' e' j = if decide (j = k) then n else block_of g e j) →
  file_inv g' e'.
Proof.
  intros F G Hk Hok (Hsz & _) Hind Hgood Hfresh Hk0 Hn0 HB.
  assert (Hne : ∀ j, in_range j → block_of g e j ≠ 0 → block_of g e j ≠ n).
  { intros j Hj Hj0 E. destruct (fi_good _ _ F j Hj Hj0) as (_ & Hu & _). by rewrite E in Hu. }
  split.
  - done.
  - rewrite Hsz. apply F.
  - intros j Hj. rewrite HB by done. case_decide; [done|]. intros Hj0.
    eapply good_grow; [done|]. by apply (fi_good _ _ F).
  - rewrite Hind. intros Hi. eapply good_grow; [done|]. by apply (fi_ind _ _ F).
  - intros j l Hj Hl. rewrite !HB by done. repeat case_decide; subst; try done.
    + intros _ E. exfalso. eapply (Hne l Hl); [by rewrite <-E|done].
    + intros Hj0 E. exfalso. by eapply (Hne j Hj).
    + by apply (fi_inj _ _ F).
  - rewrite Hind. intros Hi j Hj. rewrite HB by done. case_decide; [|by apply (fi_ind_ne _ _ F)].
    intros ->. by apply Hfresh, (fi_ind _ _ F Hi).
  - rewrite Hsz. intros x Hx. pose proof (fi_mapped _ _ F x Hx) as Hm.
    rewrite HB; [by case_decide|]. pose proof (fi_size _ _ F). unfold in_range. lconst.
    split; [apply Z.div_pos; lia|apply Z.div_lt_upper_bound; lia].
Qed.

Lemma file_inv_indirect W a u g g' e e' n :
  file_inv g e → g_grow W a u g g' → inode_ok e' → same_meta e e' → indirect e = 0 →
  indirect e' = n → good g' n → n ∉ gused g → n ≠ 0 →
  (∀ j, in_range j → block_of g' e' j = block_of g e j) → file_inv g' e'.
Proof.
  intros F G Hok (Hsz & _) Hi0 Hind Hgood Hfresh Hn0 HB. split.
  - done.
  - rewrite Hsz. apply F.
  - intros j Hj. rewrite HB by done. intros Hj0. eapply good_grow; [done|]. by apply (fi_good _ _ F).
  - by rewrite Hind.
  - intros j l Hj Hl. rewrite !HB by done. by apply (fi_inj _ _ F).
  - rewrite Hind. intros _ j Hj. rewrite HB by done. intros E.
    destruct (decide (block_of g e j = 0)) as [E0|E0]; [congruence|].
    destruct (fi_good _ _ F j Hj E0) as (_ & Hu & _). by rewrite E in Hu.
  - rewrite Hsz. intros x Hx. rewrite HB; [by apply (fi_mapped _ _ F)|].
    pose proof (fi_size _ _ F). unfold in_range. lconst.
    split; [apply Z.div_pos; lia|apply Z.div_lt_upper_bound; lia].
Qed.

Lemma grow_alloc W n g g' : g_alloc n g g' → n ∉ gused g → g_grow W 1 2 g g'.
Proof.
  intros A Hn. split.
  - intros m Hm _. rewrite (ga_view _ _ _ A), fupd_ne; [done|]. by intros ->.
  - rewrite (ga_used _ _ _ A). set_solver.
  - apply A.
  - pose proof (ga_log _ _ _ A). set_solver.
  - pose proof (ga_units _ _ _ A). lia.
  - intros q Hq. eapply (free_blocks_alloc g g' n); [by rewrite Nat.add_1_r in Hq|apply A].
Qed.

Lemma good_alloc n g g' : g_alloc n g g' → file_block n → n ∉ gused g → gheld g ⊆ gused g → good g' n.
Proof.
  intros A Hf Hn Hh. split_and!; [done|rewrite (ga_used _ _ _ A); set_solver|].
  rewrite (ga_held _ _ _ A). by intros ?%Hh.
Qed.

Lemma inode_ok_with_addr e k n : inode_ok e → uint 4 n → inode_ok (with_addr k n e).
Proof.
  intros (?&?&?&?&?&Ha&Hl&?) Hn. unfold inode_ok, with_addr. cbn. rewrite length_insert.
  split_and!; try done. by apply Forall_insert.
Qed.
Lemma inode_ok_with_indirect e n : inode_ok e → uint 4 n → inode_ok (with_indirect n e).
Proof. intros (?&?&?&?&?&?&?&?) Hn. by split_and!. Qed.

Lemma file_block_uint4 n : file_block n → uint 4 n ∧ u32 n = n ∧ n ≠ 0.
Proof.
  intros Hf. pose proof (law_file_block n Hf). unfold uint.
  split_and!; [lia|lia|apply u32_small; lia|lia].
Qed.

(** What mapping block [k] leaves: its new number [n], zeroed and logged. *)
Record mapped (g : ghost) (e : InodeEntry) (k n : Z) (g' : ghost) (e' : InodeEntry) : Prop := {
  mp_inv : file_inv g' e';
  mp_meta : same_meta e e';
  mp_blocks : ∀ j, in_range j → block_of g' e' j = if decide (j = k) then n else block_of g e j;
  mp_fresh : n ∉ gused g;
  mp_zero : gview g' n = zero_block;
  mp_grow : g_grow (λ m, m ≠ 0 ∧ m = indirect e) 2 5 g g';
  mp_log : n ∈ glog g';
  mp_nz : n ≠ 0;
  mp_ind : indirect e' = indirect e ∨ indirect e' ∉ gused g;
}.

(** The node table with the entry of [p] replaced. *)
Definition entry_set (p : nat) (e : InodeEntry) (ns : list Inode) : list Inode := alter (with_entry e) p ns.

Lemma wp_upde (s : I) p i f (Q : unit → I → Prop) :
  nodes s !! p = Some i → Q tt (set_nodes (entry_set p (f (entry i))) s) → wp (upde p f) Q s.
Proof.
  intros Hp HQ. unfold upde. eapply wp_updi; [done|].
  assert (alter (λ i, with_entry (f (entry i)) i) p (nodes s) = entry_set p (f (entry i)) (nodes s)) as E.
  { unfold entry_set. apply list_eq. intros q. destruct (decide (q = p)) as [->|].
    - by rewrite !list_lookup_alter_eq, Hp.
    - by rewrite !list_lookup_alter_ne. }
  unfold set_nodes in *. by rewrite E.
Qed.

Lemma entry_set_id p i (ns : list Inode) : ns !! p = Some i → entry_set p (entry i) ns = ns.
Proof.
  intros Hp. unfold entry_set. apply list_eq. intros q. destruct (decide (q = p)) as [->|].
  - rewrite list_lookup_alter_eq, Hp. by destruct i.
  - by rewrite list_lookup_alter_ne.
Qed.

Lemma entry_set_set p e e' (ns : list Inode) : entry_set p e' (entry_set p e ns) = entry_set p e' ns.
Proof.
  unfold entry_set. apply list_eq. intros q. destruct (decide (q = p)) as [->|].
  - rewrite !list_lookup_alter_eq. by destruct (ns !! p).
  - by rewrite !list_lookup_alter_ne.
Qed.

Lemma ind_addr_view g g' e e' k :
  indirect e' = indirect e → (indirect e ≠ 0 → gview g' (indirect e) = gview g (indirect e)) →
  ind_addr g' e' k = ind_addr g e k.
Proof. intros E V. unfold ind_addr. rewrite E. destruct (indirect e =? 0) eqn:Ei; [done|]. apply Z.eqb_neq in Ei. by rewrite V. Qed.

Lemma map_direct c (s : I) g p i k :
  tx c (bstore s) g → nodes s !! p = Some i → file_inv g (entry i) → gheld g ⊆ gused g →
  in_range k → k < INODE_NUM_DIRECT → block_of g (entry i) k = 0 → 5 ≤ gunits g → free_blocks g 1 →
  wp (inode_map (Some c) p k)
     (λ r s', ∃ n g' e', r = (n, true) ∧ nodes s' = entry_set p e' (nodes s) ∧ ilist s' = ilist s ∧
              tx c (bstore s') g' ∧ mapped g (entry i) k n g' e' ∧ gheld g' ⊆ gused g') s.
Proof.
  intros T Hp F Hheld Hk Hd Hk0 Hu Hfree. unfold inode_map. apply wp_bind. eapply wp_inode; [done|].
  rewrite (proj2 (Z.ltb_lt _ _)) by done.
  apply wp_bind. eapply wp_deref; [by apply block_of_direct; [..|apply F]|]. rewrite Hk0. cbn [Z.eqb].
  apply wp_bind, wp_lift. eapply wp_mono.
  { eapply law_alloc; [exact T|done|lia|by eapply free_blocks_one]. }
  intros n s1 (Hf & Hn & (g' & T' & A) & _). destruct (file_block_uint4 n Hf) as (Hu4 & Eu & Hn0).
  apply wp_bind. eapply wp_upde; [done|]. rewrite Eu. apply wp_ret.
  set (e' := with_addr (Z.to_nat k) n (entry i)). exists n, g', e'.
  assert (Hgood : good g' n) by by eapply good_alloc.
  assert (HB : ∀ j, in_range j → block_of g' e' j = if decide (j = k) then n else block_of g (entry i) j).
  { intros j Hj. unfold in_range in *. destruct (j <? INODE_NUM_DIRECT) eqn:Ej.
    - unfold block_of. rewrite Ej. apply Z.ltb_lt in Ej. unfold e'. cbn [addrs with_addr].
      case_decide as D; subst.
      + rewrite list_lookup_insert_eq; [done|]. pose proof (fi_entry _ _ F) as (_&_&_&_&_&_&->&_). lia.
      + by rewrite list_lookup_insert_ne by lia.
    - apply Z.ltb_ge in Ej. rewrite decide_False by lia. rewrite !block_of_indirect by done.
      apply ind_addr_view; [done|]. intros Hi. rewrite (ga_view _ _ _ A), fupd_ne; [done|].
      intros E. apply Hn. rewrite <-E. by apply (fi_ind _ _ F). }
  pose proof (grow_alloc (λ m, m ≠ 0 ∧ m = indirect (entry i)) n g g' A Hn) as G.
  split_and!; try done.
  - split; try done.
    + eapply (file_inv_map (λ m, m ≠ 0 ∧ m = indirect (entry i))); try done. apply inode_ok_with_addr; [apply F|done].
    + by rewrite (ga_view _ _ _ A), fupd_eq.
    + destruct (g_grow_trans _ _ _ 1 3 _ _ _ G (g_grow_refl _ 1 3 g')). by split.
    + apply (ga_log _ _ _ A). set_solver.
    + by left.
  - rewrite (ga_held _ _ _ A), (ga_used _ _ _ A). set_solver.
Qed.

(** The first half of the indirect case: after it there is an indirect block. *)
Definition ensure_indirect (ctx : option nat) (p : nat) (e : InodeEntry) : M I Z :=
  if indirect e =? 0 then
    addr ← lift (bs_alloc ctx);
    upde p (with_indirect (u32 addr)) ;;
    mret addr
  else mret (indirect e).

Lemma ensure_indirect_spec c (s : I) g p i :
  tx c (bstore s) g → nodes s !! p = Some i → file_inv g (entry i) → gheld g ⊆ gused g →
  2 ≤ gunits g → free_blocks g 1 →
  wp (ensure_indirect (Some c) p (entry i))
     (λ a s', ∃ g' e', a = indirect e' ∧ a ≠ 0 ∧ nodes s' = entry_set p e' (nodes s) ∧ ilist s' = ilist s ∧
        tx c (bstore s') g' ∧ file_inv g' e' ∧ same_meta (entry i) e' ∧ gheld g' ⊆ gused g' ∧
        g_grow (λ _, False) 1 2 g g' ∧ (∀ j, in_range j → block_of g' e' j = block_of g (entry i) j) ∧
        (indirect (entry i) ≠ 0 → indirect e' = indirect (entry i)) ∧ addrs e' = addrs (entry i) ∧
        (indirect (entry i) ≠ 0 ∨ indirect e' ∉ gused g)) s.
Proof.
  intros T Hp F Hheld Hu Hfree. unfold ensure_indirect. destruct (indirect (entry i) =? 0) eqn:Ei.
  - apply Z.eqb_eq in Ei. apply wp_bind, wp_lift. eapply wp_mono.
    { eapply law_alloc; [exact T|done|lia|by eapply free_blocks_one]. }
    intros n s1 (Hf & Hn & (g' & T' & A) & _). destruct (file_block_uint4 n Hf) as (Hu4 & Eu & Hn0).
    apply wp_bind. eapply wp_upde; [done|]. rewrite Eu. apply wp_ret.
    set (e' := with_indirect n (entry i)). exists g', e'.
    pose proof (grow_alloc (λ _, False) n g g' A Hn) as G.
    assert (HB : ∀ j, in_range j → block_of g' e' j = block_of g (entry i) j).
    { intros j Hj. unfold block_of. destruct (j <? INODE_NUM_DIRECT) eqn:Ej; [done|].
      unfold ind_addr. rewrite Ei. cbn [indirect e' with_indirect]. rewrite (proj2 (Z.eqb_neq _ _)) by done.
      by rewrite (ga_view _ _ _ A), fupd_eq, get_addr_zero. }
    split_and!; try done; [| |by right].
    + eapply (file_inv_indirect (λ _, False) 1 2 g g' (entry i) e' n); try done;
        [apply inode_ok_with_indirect; [apply F|done]|by eapply good_alloc].
    + rewrite (ga_held _ _ _ A), (ga_used _ _ _ A). set_solver.
  - apply Z.eqb_neq in Ei. apply wp_ret. exists g, (entry i). rewrite entry_set_id by done.
    split_and!; try done; [apply g_grow_refl|by left].
Qed.

Lemma g_grow_weaken (W W' : Z → Prop) a u g g' :
  (∀ m, m ∈ gused g → W m → W' m) → g_grow W a u g g' → g_grow W' a u g g'.
Proof. intros HW [A1 A2 A3 A4 A5 A6]. split; try done. intros m Hm HW'. apply A1; auto. Qed.

(** Two steps of growth, the second touching a block that the first added or
    that [W] allows. *)
Lemma g_grow_then W W1 a u b w g1 g2 g3 :
  g_grow (λ _, False) a u g1 g2 → g_grow W1 b w g2 g3 → (∀ m, m ∈ gused g1 → W1 m → W m) →
  g_grow W (a + b) (u + w) g1 g3.
Proof.
  intros A B HW. destruct A as [A1 A2 A3 A4 A5 A6], B as [B1 B2 B3 B4 B5 B6]. split.
  - intros m Hm Hn. rewrite B1; [apply A1; [done|tauto]|by apply A2|auto].
  - by etrans.
  - congruence.
  - by etrans.
  - lia.
  - intros q Hq. apply B6, A6. by replace (q + b + a)%nat with (q + (a + b))%nat by lia.
Qed.

(** The ghost state after the indirect block [ind] has been acquired, a block
    [n] allocated, its number written in slot [off], logged, released. *)
Definition put_slot (ind off n : Z) (d : list Z) (g3 : ghost) : ghost :=
  g_release ind (g_sync ind (g_store ind (put_addr d off n) g3)).

Lemma put_slot_grow ind off n d g1 g3 :
  g_alloc n (g_acquire ind g1) g3 → n ∉ gused g1 → ind ∉ gheld g1 →
  g_grow (λ m, m = ind) 1 3 g1 (put_slot ind off n d g3).
Proof.
  intros A Hn Hind. pose proof (ga_units _ _ _ A) as U. pose proof (ga_log _ _ _ A) as Lg.
  pose proof (ga_used _ _ _ A) as Us. pose proof (ga_held _ _ _ A) as Hh. cbn in *.
  split; cbn.
  - intros m Hm HW. rewrite fupd_ne by done. rewrite (ga_view _ _ _ A). cbn.
    rewrite fupd_ne; [done|]. by intros ->.
  - rewrite Us. set_solver.
  - rewrite Hh. apply set_eq. set_solver.
  - set_solver.
  - unfold unit_for. case_decide; cbn; lia.
  - intros q Hq. eapply (free_blocks_alloc g1 _ n); [by rewrite Nat.add_1_r in Hq|exact Us].
Qed.

Lemma put_slot_blocks k n g1 g3 e1 :
  g_alloc n (g_acquire (indirect e1) g1) g3 → indirect e1 ≠ 0 → block_ok (gview g1 (indirect e1)) →
  uint 4 n → in_range k → INODE_NUM_DIRECT ≤ k →
  let g6 := put_slot (indirect e1) (k - INODE_NUM_DIRECT) n (gview g1 (indirect e1)) g3 in
  ∀ j, in_range j → block_of g6 e1 j = if decide (j = k) then n else block_of g1 e1 j.
Proof.
  intros A Hi Hok Hn Hk Hd g6 j Hj. unfold in_range in *. unfold block_of. lconst.
  destruct (j <? 12) eqn:Ej; [apply Z.ltb_lt in Ej; by rewrite decide_False by lia|apply Z.ltb_ge in Ej].
  unfold ind_addr. rewrite (proj2 (Z.eqb_neq _ _)) by done. cbn [gview g6 put_slot g_release g_sync g_store].
  unfold g6. cbn. rewrite fupd_eq. rewrite get_put_addr by (done || lconst; lia). lconst.
  case_decide; case_decide; try done; lia.
Qed.

Lemma map_indirect c (s : I) g p i k :
  tx c (bstore s) g → nodes s !! p = Some i → file_inv g (entry i) → gheld g ⊆ gused g →
  in_range k → INODE_NUM_DIRECT ≤ k → block_of g (entry i) k = 0 → 5 ≤ gunits g → free_blocks g 2 →
  wp (inode_map (Some c) p k)
     (λ r s', ∃ n g' e', r = (n, true) ∧ nodes s' = entry_set p e' (nodes s) ∧ ilist s' = ilist s ∧
              tx c (bstore s') g' ∧ mapped g (entry i) k n g' e' ∧ gheld g' ⊆ gused g') s.
Proof.
  intros T Hp F Hheld Hk Hd Hk0 Hu Hfree. unfold inode_map. apply wp_bind. eapply wp_inode; [done|].
  rewrite (proj2 (Z.ltb_ge _ _)) by done. cbv zeta.
  rewrite (proj2 (Z.ltb_lt _ _)) by (unfold in_range in Hk; lconst; lia).
  fold (ensure_indirect (Some c) p (entry i)). apply wp_bind.
  eapply wp_mono; [apply (ensure_indirect_spec c s g p i T Hp F Hheld); [lia|]|].
  { destruct Hfree as (X & HX & Hq). exists X. split; [done|lia]. }
  intros ind s1 (g1 & e1 & -> & Hi & En1 & El1 & T1 & F1 & M1 & Hh1 & G1 & B1 & Hsame & _ & Hnew).
  pose proof (fi_ind _ _ F1 Hi) as Gi. pose proof Gi as (Hif & Hiu & Hih).
  pose proof (law_view_ok c _ _ _ T1 Hif) as Hok. pose proof (gg_units _ _ _ _ _ G1) as Un1.
  apply wp_bind, wp_lift. eapply wp_mono; [by eapply good_acquire|]. intros bp s2 (T2 & Hb2 & _).
  apply wp_bind, wp_lift. eexists _, s2. split; [eapply law_load; [exact T2|exact Hb2|done]|]. cbn [gview g_acquire].
  assert (Hget : get_addr (gview g1 (indirect e1)) (k - INODE_NUM_DIRECT) = 0).
  { pose proof (B1 k Hk) as Eb. rewrite Hk0, block_of_indirect in Eb by done. unfold ind_addr in Eb.
    by rewrite (proj2 (Z.eqb_neq _ _)) in Eb by done. }
  rewrite Hget. cbn [Z.eqb]. apply wp_bind, wp_lift. eapply wp_mono.
  { eapply law_alloc; [exact T2|cbn; set_solver|cbn; lia|]. cbn.
    exact (free_blocks_one _ 0 (gg_free _ _ _ _ _ G1 1%nat Hfree)). }
  intros n s3 (Hf & Hn & (g3 & T3 & A) & Ht3). cbn in Hn. destruct (file_block_uint4 n Hf) as (Hu4 & Eu & Hn0).
  assert (Hni : indirect e1 ≠ n) by (by intros E; apply Hn; rewrite <-E).
  assert (Hb3 : hdl s3 bp (indirect e1)) by (apply Ht3; [cbn; set_solver|done]).
  assert (Ev3 : gview g3 (indirect e1) = gview g1 (indirect e1)) by (rewrite (ga_view _ _ _ A); by apply fupd_ne).
  apply wp_bind, wp_lift. eexists _, s3. split; [eapply law_load; [exact T3|exact Hb3|done]|]. rewrite Ev3, Eu.
  apply wp_bind, wp_lift. eapply wp_mono; [eapply law_store; [exact T3|exact Hb3|done|]|].
  { apply put_addr_ok; [done|]. unfold in_range in Hk. lconst. lia. }
  intros [] s4 [T4 Ht4]. apply wp_bind, wp_lift.
  pose proof (ga_units _ _ _ A) as Ua. cbn in Ua.
  eapply wp_mono; [eapply law_sync; [exact T4|by apply Ht4|done|right; cbn; lia]|]. intros [] s5 [T5 Ht5].
  apply wp_bind, wp_lift. eapply wp_mono; [eapply law_release; [exact T5|by apply Ht5, Ht4|left; cbn; set_solver]|].
  intros [] s6 [T6 _]. apply wp_ret. cbn [nodes ilist bstore].
  set (g6 := put_slot (indirect e1) (k - INODE_NUM_DIRECT) n (gview g1 (indirect e1)) g3).
  change (tx c s6 g6) in T6. exists n, g6, e1.
  pose proof (put_slot_grow (indirect e1) (k - INODE_NUM_DIRECT) n (gview g1 (indirect e1)) g1 g3 A Hn Hih) as G6.
  pose proof (put_slot_blocks k n g1 g3 e1 A Hi Hok Hu4 Hk Hd) as B6. fold g6 in G6, B6. cbv zeta in B6.
  assert (Hheld6 : gheld g6 = gheld g1) by apply G6.
  assert (Hg6n : good g6 n).
  { split_and!; [done| |].
    - unfold g6. cbn. rewrite (ga_used _ _ _ A). set_solver.
    - rewrite Hheld6. by intros ?%Hh1. }
  split_and!; [done..| |].
  - split; try done.
    + eapply (file_inv_map (λ m, m = indirect e1) 1 3 g1 g6 e1 e1 k n); try done; [apply F1|by rewrite B1].
    + intros j Hj. rewrite B6 by done. case_decide; [done|]. by apply B1.
    + intros Hin. apply Hn. by apply (gg_used _ _ _ _ _ G1).
    + unfold g6. cbn. rewrite fupd_ne by done. by rewrite (ga_view _ _ _ A), fupd_eq.
    + eapply (g_grow_then _ _ 1 2 1 3); [exact G1|exact G6|]. intros m Hm ->.
      destruct Hnew as [Hz|Hz]; [split; [done|by apply Hsame]|done].
    + pose proof (ga_log _ _ _ A). unfold g6. cbn. set_solver.
    + destruct (decide (indirect (entry i) = 0)) as [Ez|Ez]; [right|left; by apply Hsame].
      intros Hin. destruct Hnew as [|Hnew]; done.
  - rewrite Hheld6. etrans; [exact Hh1|apply G6].
Qed.

(** Any block in range: mapped already, or mapped now. *)
Lemma inode_map_spec c (s : I) g p i k :
  tx c (bstore s) g → nodes s !! p = Some i → file_inv g (entry i) → gheld g ⊆ gused g →
  in_range k → block_of g (entry i) k ≠ 0 ∨ 5 ≤ gunits g ∧ free_blocks g 2 →
  wp (inode_map (Some c) p k)
     (λ r s', ∃ n fresh g' e', r = (n, fresh) ∧ nodes s' = entry_set p e' (nodes s) ∧ ilist s' = ilist s ∧
        tx c (bstore s') g' ∧ gheld g' ⊆ gused g' ∧
        if fresh : bool then block_of g (entry i) k = 0 ∧ mapped g (entry i) k n g' e'
        else n ≠ 0 ∧ n = block_of g (entry i) k ∧ e' = entry i ∧ g_same g g') s.
Proof.
  intros T Hp F Hheld Hk Hroom. destruct (decide (block_of g (entry i) k = 0)) as [E0|E0].
  - destruct Hroom as [|[Hu Hfree]]; [done|].
    assert (Hf1 : free_blocks g 1) by (destruct Hfree as (X & HX & Hq); exists X; split; [done|lia]).
    destruct (decide (k < INODE_NUM_DIRECT)) as [Hd|Hd].
    + eapply wp_mono; [by apply (map_direct c s g p i k)|].
      intros r s' (n & g' & e' & -> & En & El & T' & Mp & Hh). by exists n, true, g', e'.
    + eapply wp_mono; [apply (map_indirect c s g p i k); try done; lia|].
      intros r s' (n & g' & e' & -> & En & El & T' & Mp & Hh). by exists n, true, g', e'.
  - eapply wp_mono; [by eapply inode_map_mapped|].
    intros r s' (-> & En & El & g' & T' & E). exists (block_of g (entry i) k), false, g', (entry i).
    rewrite entry_set_id by done. split_and!; try done.
    by rewrite (gs_held _ _ E), (gs_used _ _ E).
Qed.

(** ** Writing *)

(** The blocks a file owns: its data blocks and its indirect block. *)
Definition owned (g : ghost) (e : InodeEntry) (m : Z) : Prop :=
  m ≠ 0 ∧ (m = indirect e ∨ ∃ k, in_range k ∧ m = block_of g e k).

(** [bs] was written at [off]: those bytes are in the file, its other bytes and
    all blocks it does not own are as before; at most [a] blocks were
    allocated and [u] units of the transaction used. *)
Record wrote_at (g : ghost) (e : InodeEntry) (off : Z) (bs : list Z) (a u : nat)
    (g' : ghost) (e' : InodeEntry) : Prop := {
  wa_inv : file_inv g' e';
  wa_meta : same_meta e e';
  wa_held : gheld g' ⊆ gused g';
  wa_grow : g_grow (owned g e) a u g g';
  wa_owned : ∀ m, m ∈ gused g → owned g' e' m → owned g e m;
  wa_bytes : ∀ k b, bs !! k = Some b →
    block_of g' e' ((off + Z.of_nat k) / BLOCK_SIZE) ≠ 0 ∧ file_byte g' e' (off + Z.of_nat k) = b;
  wa_rest : ∀ x, 0 ≤ x < INODE_MAX_BYTES → block_of g e (x / BLOCK_SIZE) ≠ 0 →
    x < off ∨ off + Z.of_nat (length bs) ≤ x →
    block_of g' e' (x / BLOCK_SIZE) ≠ 0 ∧ file_byte g' e' x = file_byte g e x;
}.

Lemma in_range_byte x : 0 ≤ x < INODE_MAX_BYTES → in_range (x / BLOCK_SIZE).
Proof. unfold in_range. lconst. intros Hx. split; [apply Z.div_pos; lia|apply Z.div_lt_upper_bound; lia]. Qed.

Lemma wrote_at_nil g e off : file_inv g e → gheld g ⊆ gused g → wrote_at g e off [] 0 0 g e.
Proof. intros F Hh. split; try done; apply g_grow_refl. Qed.

Lemma wrote_at_app g e off b1 b2 a1 a2 u1 u2 g1 e1 g2 e2 :
  0 ≤ off → off + Z.of_nat (length b1 + length b2) ≤ INODE_MAX_BYTES →
  wrote_at g e off b1 a1 u1 g1 e1 → wrote_at g1 e1 (off + Z.of_nat (length b1)) b2 a2 u2 g2 e2 →
  wrote_at g e off (b1 ++ b2) (a1 + a2) (u1 + u2) g2 e2.
Proof.
  intros Ho Hmax [A1 A2 A3 A4 A5 A6 A7] [B1 B2 B3 B4 B5 B6 B7]. split.
  - done.
  - destruct A2 as (?&?&?&?&?), B2 as (?&?&?&?&?). unfold same_meta. split_and!; congruence.
  - done.
  - destruct A4 as [C1 C2 C3 C4 C5 C6], B4 as [D1 D2 D3 D4 D5 D6]. split.
    + intros m Hm HW. rewrite D1; [by apply C1|by apply C2|]. intros Hw. apply HW. by apply A5.
    + by etrans.
    + congruence.
    + by etrans.
    + lia.
    + intros q Hq. apply D6, C6. by replace (q + a2 + a1)%nat with (q + (a1 + a2))%nat by lia.
  - intros m Hm Hw. apply A5; [done|]. apply B5; [|done]. by apply (gg_used _ _ _ _ _ A4).
  - intros k b. rewrite lookup_app_Some. intros [Hk|[Hle Hk]].
    + pose proof (lookup_lt_Some _ _ _ Hk). destruct (A6 k b Hk) as [Hne E].
      destruct (B7 (off + Z.of_nat k)) as [Hne' E']; [lia|done|lia|]. by rewrite E'.
    + destruct (B6 _ _ Hk) as [Hne E].
      replace (off + Z.of_nat (length b1) + Z.of_nat (k - length b1)) with (off + Z.of_nat k) in * by lia. done.
  - intros x Hx Hne Hout. rewrite length_app in Hout.
    destruct (A7 x Hx Hne) as [Hne1 E1]; [lia|]. destruct (B7 x Hx Hne1) as [Hne2 E2]; [lia|].
    by rewrite E2.
Qed.

(** One block acquired, overwritten, logged and released. *)
Definition store_block (n : Z) (d : list Z) (g : ghost) : ghost :=
  g_release n (g_sync n (g_store n d (g_acquire n g))).

Lemma store_block_grow n d g : n ∉ gheld g → g_grow (λ m, m = n) 0 1 g (store_block n d g).
Proof.
  intros Hn. split; cbn.
  - intros m Hm HW. by apply fupd_ne.
  - done.
  - apply set_eq. set_solver.
  - set_solver.
  - unfold unit_for. case_decide; cbn; lia.
  - intros q Hq. rewrite Nat.add_0_r in Hq. by eapply free_blocks_used.
Qed.

Lemma store_block_units n d g : gunits (store_block n d g) = gunits g - unit_for g n ∧ 0 ≤ unit_for g n.
Proof. split; [done|]. unfold unit_for. case_decide; lia. Qed.

Lemma store_block_blocks n d g e j :
  file_inv g e → in_range j → n ≠ indirect e ∨ indirect e = 0 → block_of (store_block n d g) e j = block_of g e j.
Proof.
  intros F Hj Hn. unfold block_of, ind_addr. destruct (j <? _); [done|].
  destruct (indirect e =? 0) eqn:Ei; [done|]. apply Z.eqb_neq in Ei. cbn. rewrite fupd_ne; [done|].
  destruct Hn; [congruence|done].
Qed.

Lemma store_block_inv n d g e k :
  file_inv g e → in_range k → n = block_of g e k → n ≠ 0 → file_inv (store_block n d g) e.
Proof.
  intros F Hk En Hn0. assert (Hni : n ≠ indirect e ∨ indirect e = 0).
  { destruct (decide (indirect e = 0)); [by right|left]. rewrite En. by apply (fi_ind_ne _ _ F). }
  assert (B : ∀ j, in_range j → block_of (store_block n d g) e j = block_of g e j)
    by (intros; by apply store_block_blocks).
  assert (Hg : ∀ m, good g m → good (store_block n d g) m).
  { intros m (?&?&?). split_and!; [done|done|]. cbn. set_solver. }
  split; try apply F.
  - intros j Hj. rewrite B by done. intros Hj0. by apply Hg, (fi_good _ _ F).
  - intros Hi. by apply Hg, (fi_ind _ _ F).
  - intros j l Hj Hl. rewrite !B by done. by apply (fi_inj _ _ F).
  - intros Hi j Hj. rewrite B by done. by apply (fi_ind_ne _ _ F).
  - intros x Hx. rewrite B; [by apply (fi_mapped _ _ F)|]. pose proof (fi_size _ _ F).
    apply in_range_byte. lia.
Qed.

Lemma splice_byte d r w x :
  (r + length w ≤ length d)%nat → byte_at (splice d r w) x =
    if decide (r ≤ Z.to_nat x < r + length w)%nat then nth (Z.to_nat x - r) w 0 else byte_at d x.
Proof.
  intros Hl. unfold byte_at. rewrite !nth_lookup. case_decide; [by rewrite lookup_splice_in|].
  by rewrite lookup_splice_out by lia.
Qed.

(** Writing [w] inside one block of the file. *)
Lemma store_block_wrote g e k n off w :
  file_inv g e → gheld g ⊆ gused g → in_range k → n = block_of g e k → n ≠ 0 →
  length (gview g n) = Z.to_nat BLOCK_SIZE → 0 ≤ off → k = off / BLOCK_SIZE →
  off mod BLOCK_SIZE + Z.of_nat (length w) ≤ BLOCK_SIZE →
  wrote_at g e off w 0 1 (store_block n (splice (gview g n) (Z.to_nat (off mod BLOCK_SIZE)) w) g) e.
Proof.
  intros F Hh Hk En Hn0 Hl Ho Eko Hw. set (d := splice _ _ w). set (g' := store_block n d g). lconst.
  pose proof (Z.mod_pos_bound off 512 ltac:(lia)) as Hmod. pose proof (Z.div_mod off 512 ltac:(lia)) as Hdm.
  assert (Hni : n ≠ indirect e ∨ indirect e = 0).
  { destruct (decide (indirect e = 0)); [by right|left]. rewrite En. by apply (fi_ind_ne _ _ F). }
  assert (B : ∀ j, in_range j → block_of g' e j = block_of g e j) by (intros; by apply store_block_blocks).
  assert (Hnh : n ∉ gheld g) by (rewrite En; apply (fi_good _ _ F); congruence).
  assert (V : ∀ m, gview g' m = fupd (gview g) n d m) by done.
  assert (Hbyte : ∀ x, 0 ≤ x < INODE_MAX_BYTES → block_of g e (x / 512) ≠ 0 → file_byte g' e x =
     if decide (off ≤ x < off + Z.of_nat (length w)) then nth (Z.to_nat (x - off)) w 0 else file_byte g e x).
  { intros x Hx Hx0. pose proof (in_range_byte x Hx) as Hr. unfold file_byte. lconst. rewrite B by done.
    pose proof (Z.mod_pos_bound x 512 ltac:(lia)). pose proof (Z.div_mod x 512 ltac:(lia)).
    destruct (decide (x / 512 = k)) as [E|E].
    - rewrite E, <-En, V, fupd_eq. unfold d. lconst. rewrite splice_byte by lia.
      case_decide; case_decide; try lia. f_equal. lia.
    - rewrite decide_False by (intros Hin; apply E; subst k; apply (Z.div_unique _ _ _ (x - 512 * (off / 512))); lia).
      rewrite V, fupd_ne; [done|]. intros E2. apply E. apply (fi_inj _ _ F); [done|done|done|congruence]. }
  split.
  - by eapply store_block_inv.
  - done.
  - cbn. intros m [[Hm|Hm]%elem_of_union Hmn]%elem_of_difference; [done|by apply Hh].
  - eapply g_grow_weaken; [|by apply store_block_grow]. intros m _ ->. split; [done|]. right. by exists k.
  - intros m _ [Hm0 [->|(j & Hj & Ej)]]; [by split; [|left]|]. split; [done|]. right. exists j. by rewrite <-B.
  - intros j b Hj. pose proof (lookup_lt_Some _ _ _ Hj). 
    assert (Ej : (off + Z.of_nat j) / 512 = k) by (subst k; symmetry; apply (Z.div_unique _ _ _ (off mod 512 + Z.of_nat j)); lia).
    lconst. rewrite Ej, B by done. split; [congruence|]. rewrite Hbyte.
    + rewrite decide_True by lia. replace (Z.to_nat (off + Z.of_nat j - off)) with j by lia. by apply nth_lookup_Some.
    + unfold in_range in Hk. lconst. subst k. lia.
    + rewrite Ej. congruence.
  - intros x Hx Hx0 Hout. rewrite B by by apply in_range_byte. split; [done|]. rewrite Hbyte by done.
    by rewrite decide_False by lia.
Qed.

Lemma mapped_wrote g e k n g1 e1 off :
  file_inv g e → mapped g e k n g1 e1 → block_of g e k = 0 → gheld g1 ⊆ gused g1 →
  wrote_at g e off [] 2 5 g1 e1.
Proof.
  intros F M Hk0 Hh. split; try apply M; try done.
  - eapply g_grow_weaken; [|apply M]. intros m _ [Hm0 ->]. split; [done|by left].
  - intros m Hm [Hm0 [->|(j & Hj & ->)]].
    + destruct (mp_ind _ _ _ _ _ _ M) as [E|Hni]; [split; [done|left; by rewrite E]|done].
    + rewrite (mp_blocks _ _ _ _ _ _ M) in * by done. case_decide.
      * by apply (mp_fresh _ _ _ _ _ _ M) in Hm.
      * split; [done|right; by exists j].
  - intros x Hx Hx0 _. pose proof (in_range_byte x Hx) as Hr.
    rewrite (mp_blocks _ _ _ _ _ _ M) by done. rewrite decide_False by congruence. split; [done|].
    unfold file_byte. rewrite (mp_blocks _ _ _ _ _ _ M) by done. rewrite decide_False by congruence.
    destruct (fi_good _ _ F _ Hr Hx0) as (_ & Hu & _).
    rewrite (gg_view _ _ _ _ _ (mp_grow _ _ _ _ _ _ M)); [done|done|].
    intros [Hi0 E]. rewrite E in Hi0. by apply (fi_ind_ne _ _ F Hi0 _ Hr).
Qed.

Lemma g_same_grow W g g' : g_same g g' → g_grow W 0 0 g g'.
Proof.
  intros E. split.
  - intros m _ _. apply E.
  - by rewrite (gs_used _ _ E).
  - apply E.
  - by rewrite (gs_log _ _ E).
  - rewrite (gs_units _ _ E). lia.
  - intros q Hq. rewrite Nat.add_0_r in Hq. eapply free_blocks_used; [apply E|done].
Qed.

Lemma same_wrote_at g e g1 off : file_inv g e → gheld g ⊆ gused g → g_same g g1 → wrote_at g e off [] 0 0 g1 e.
Proof.
  intros F Hh E. pose proof (block_of_same g g1 e) as B. split; try done.
  - by eapply file_inv_same.
  - by rewrite (gs_held _ _ E), (gs_used _ _ E).
  - by apply g_same_grow.
  - intros m _ [Hm0 [->|(j & Hj & ->)]]; (split; [done|]); [by left|right].
    exists j. by rewrite B.
  - intros x Hx Hx0 _. rewrite B by done. split; [done|]. by apply file_byte_same.
Qed.

Lemma wrote_at_weaken g e off bs a u a' u' g' e' :
  wrote_at g e off bs a u g' e' → (a ≤ a')%nat → (u ≤ u')%nat → wrote_at g e off bs a' u' g' e'.
Proof.
  intros [A1 A2 A3 [B1 B2 B3 B4 B5 B6] A5 A6 A7] Ha Hu. split; try done. split; try done.
  - lia.
  - intros q (X & HX & Hq). apply B6. exists X. split; [done|lia].
Qed.

(** The body of the loop of [inode_write]. *)
Definition write_step (ctx : option nat) (p : nat) (w : list Z) (offset : Z) : M I unit :=
  r ← inode_map ctx p (offset / BLOCK_SIZE);
  bp ← lift (bs_acquire r.1);
  d ← lift (bs_load bp);
  lift (bs_store bp (splice d (Z.to_nat (offset mod BLOCK_SIZE)) w)) ;;
  lift (bs_sync ctx bp) ;;
  lift (bs_release bp).

Lemma splice_block_ok d r w :
  block_ok d → Forall byte_ok w → (r + length w ≤ Z.to_nat BLOCK_SIZE)%nat → block_ok (splice d r w).
Proof.
  intros [Hl Hb] Hw Hr. split; [rewrite length_splice; [done|by rewrite Hl]|by apply Forall_splice].
Qed.

Lemma write_step_spec c (s : I) g p i w offset :
  tx c (bstore s) g → nodes s !! p = Some i → file_inv g (entry i) → gheld g ⊆ gused g →
  5 ≤ gunits g → free_blocks g 2 → 0 ≤ offset → offset < INODE_MAX_BYTES →
  offset mod BLOCK_SIZE + Z.of_nat (length w) ≤ BLOCK_SIZE → Forall byte_ok w →
  wp (write_step (Some c) p w offset)
     (λ _ s', ∃ g' e', nodes s' = entry_set p e' (nodes s) ∧ ilist s' = ilist s ∧
        tx c (bstore s') g' ∧ wrote_at g (entry i) offset w 2 5 g' e') s.
Proof.
  intros T Hp F Hheld Hu Hfree Ho Hmax Hw Hwb. pose proof (in_range_byte offset ltac:(lia)) as Hk.
  set (k := offset / BLOCK_SIZE) in *. unfold write_step. fold k. apply wp_bind. eapply wp_mono.
  { eapply inode_map_spec; [exact T|exact Hp|exact F|exact Hheld|exact Hk|by right]. }
  intros r s1 (n & fresh & g1 & e1 & -> & En1 & El1 & T1 & Hh1 & Hm). cbn [fst].
  assert (X : n ≠ 0 ∧ n = block_of g1 e1 k ∧ (n ∈ glog g1 ∨ 0 < gunits g1) ∧
    ∃ u, wrote_at g (entry i) offset [] 2 u g1 e1 ∧ Z.of_nat u + unit_for g1 n ≤ 5).
  { destruct fresh.
    - destruct Hm as [Hk0 M]. split_and!; [apply (mp_nz _ _ _ _ _ _ M)| |left; apply (mp_log _ _ _ _ _ _ M)|].
      + rewrite (mp_blocks _ _ _ _ _ _ M) by done. by rewrite decide_True.
      + exists 5%nat. split; [by eapply mapped_wrote|]. unfold unit_for. rewrite decide_True; [done|apply (mp_log _ _ _ _ _ _ M)].
    - destruct Hm as (Hn0 & -> & -> & E). split_and!; [done|by rewrite (block_of_same _ _ _ _ E)| |].
      + right. rewrite (gs_units _ _ E). lia.
      + exists 4%nat. split; [eapply wrote_at_weaken; [by apply same_wrote_at|lia|lia]|].
        unfold unit_for. case_decide; lia. }
  destruct X as (Hn0 & En & Hroom & u & W1 & Hcost). pose proof (wa_inv _ _ _ _ _ _ _ _ W1) as F1.
  assert (G : good g1 n) by (rewrite En; apply (fi_good _ _ F1); congruence).
  apply wp_bind, wp_lift. eapply wp_mono; [by eapply good_acquire|]. intros bp s2 (T2 & Hb & _).
  pose proof (law_view_ok c _ _ _ T1 (proj1 G)) as Hok.
  apply wp_bind, wp_lift. eexists _, s2. split; [eapply law_load; [exact T2|exact Hb|apply G]|]. cbn [gview g_acquire].
  pose proof (Z.mod_pos_bound offset BLOCK_SIZE ltac:(lconst; lia)).
  apply wp_bind, wp_lift. eapply wp_mono; [eapply law_store; [exact T2|exact Hb|apply G|]|].
  { apply splice_block_ok; [done|done|]. lia. }
  intros [] s3 [T3 Ht3]. apply wp_bind, wp_lift.
  eapply wp_mono; [eapply law_sync; [exact T3|by apply Ht3|apply G|exact Hroom]|]. intros [] s4 [T4 Ht4].
  apply wp_lift. eapply wp_mono; [eapply law_release; [exact T4|by apply Ht4, Ht3|left; cbn; set_solver]|].
  intros [] s5 [T5 _]. eexists _, e1. split_and!; [exact En1|exact El1|exact T5|].
  set (d := splice _ _ _). change (g_release n _) with (store_block n d g1).
  assert (W2 : wrote_at g1 e1 offset w 0 1 (store_block n d g1) e1).
  { apply (store_block_wrote g1 e1 k n offset w); try done. apply Hok. }
  pose proof (store_block_units n d g1) as Un.
  assert (W2' : wrote_at g1 e1 (offset + Z.of_nat (length (@nil Z))) w 0 (Z.to_nat (unit_for g1 n)) (store_block n d g1) e1).
  { cbn. rewrite Z.add_0_r. destruct W2 as [A1 A2 A3 [B1 B2 B3 B4 B5 B6] A5 A6 A7]. split; try done. split; try done. lia. }
  eapply wrote_at_weaken; [eapply (wrote_at_app _ _ _ []); [lia| |exact W1|exact W2']|lia|lia].
  cbn. pose proof (Z.div_mod offset BLOCK_SIZE). unfold in_range in Hk. fold k in H0. lconst. lia.
Qed.

(** *** The loop *)

Lemma write_loop_S fuel ctx p src tot offset count (s : I) :
  write_loop (Datatypes.S fuel) ctx p src tot offset count s =
    if tot <? count then
      let m := Z.min (u64 (count - tot)) (BLOCK_SIZE - offset mod BLOCK_SIZE) in
      (write_step ctx p (take (Z.to_nat m) src) offset ;;
       write_loop fuel ctx p (drop (Z.to_nat m) src) (u64 (tot + m)) (u64 (offset + m)) count) s
    else Ok (offset, s).
Proof.
  cbn [write_loop]. destruct (tot <? count); [|done]. cbv zeta. unfold write_step. rewrite !bind_run.
  destruct (inode_map ctx p _ s) as [[r s1]|]; [|done]. rewrite !bind_run.
  destruct (lift (bs_acquire r.1) s1) as [[bp s2]|]; [|done]. rewrite !bind_run.
  destruct (lift (bs_load bp) s2) as [[d s3]|]; [|done]. rewrite !bind_run.
  destruct (lift (bs_store _ _) s3) as [[[] s4]|]; [|done]. rewrite !bind_run.
  destruct (lift (bs_sync _ _) s4) as [[[] s5]|]; [|done]. by rewrite !bind_run.
Qed.

Lemma lookup_entry_set p e (ns : list Inode) i : ns !! p = Some i → entry_set p e ns !! p = Some (with_entry e i).
Proof. intros H. unfold entry_set. by rewrite list_lookup_alter_eq, H. Qed.

Lemma write_loop_spec c p q : ∀ fuel (s : I) g i src tot offset count,
  tx c (bstore s) g → nodes s !! p = Some i → file_inv g (entry i) → gheld g ⊆ gused g →
  0 ≤ tot ≤ count → 0 ≤ offset → offset + (count - tot) ≤ INODE_MAX_BYTES → count < 2 ^ 63 →
  length src = Z.to_nat (count - tot) → Forall byte_ok src →
  (q < fuel)%nat → (tot = count ∨ offset mod BLOCK_SIZE + (count - tot) ≤ BLOCK_SIZE * Z.of_nat q) →
  5 * Z.of_nat q ≤ gunits g → free_blocks g (2 * q) →
  wp (write_loop fuel (Some c) p src tot offset count)
     (λ r s', r = offset + (count - tot) ∧ ∃ g' e', nodes s' = entry_set p e' (nodes s) ∧ ilist s' = ilist s ∧
        tx c (bstore s') g' ∧ wrote_at g (entry i) offset src (2 * q) (5 * q) g' e') s.
Proof.
  induction q as [|q IH]; intros fuel s g i src tot offset count T Hp F Hh Ht Ho Hle Hc Hl Hb Hfuel Hq Hu Hfree;
    (destruct fuel as [|fuel]; [lia|]); (unfold wp; setoid_rewrite write_loop_S).
  - destruct Hq as [->|Hq].
    2: { pose proof (Z.mod_pos_bound offset BLOCK_SIZE ltac:(lconst; lia)). assert (tot = count) as -> by lia. 
         rewrite Z.ltb_irrefl. exists offset, s. split; [done|]. split; [lia|]. exists g, (entry i).
         rewrite entry_set_id by done. split_and!; try done. destruct src; [|cbn in Hl; lia]. by apply wrote_at_nil. }
    rewrite Z.ltb_irrefl. exists offset, s. split; [done|]. split; [lia|]. exists g, (entry i).
    rewrite entry_set_id by done. split_and!; try done. destruct src; [|cbn in Hl; lia]. by apply wrote_at_nil.
  - destruct (tot <? count) eqn:E; [apply Z.ltb_lt in E|apply Z.ltb_ge in E].
    2: { exists offset, s. split; [done|]. split; [lia|]. exists g, (entry i).
         rewrite entry_set_id by done. split_and!; try done. destruct src; [|cbn in Hl; lia].
         eapply wrote_at_weaken; [by apply wrote_at_nil|lia|lia]. }
    destruct Hq as [Hq|Hq]; [lia|]. cbv zeta. rewrite (u64_small (count - tot)) by lia.
    set (m := Z.min (count - tot) (BLOCK_SIZE - offset mod BLOCK_SIZE)).
    destruct (io_step offset (count - tot) m (Datatypes.S q)) as (Hm & Hm0 & Hmb & Hnext); [lia|lia|done|done|].
    change (wp (write_step (Some c) p (take (Z.to_nat m) src) offset ;;
        write_loop fuel (Some c) p (drop (Z.to_nat m) src) (u64 (tot + m)) (u64 (offset + m)) count)
      (λ r s', r = offset + (count - tot) ∧ ∃ g' e', nodes s' = entry_set p e' (nodes s) ∧ ilist s' = ilist s ∧
        tx c (bstore s') g' ∧ wrote_at g (entry i) offset src (2 * Datatypes.S q) (5 * Datatypes.S q) g' e') s).
    assert (Hlt : length (take (Z.to_nat m) src) = Z.to_nat m) by (rewrite length_take; lia).
    apply wp_bind. eapply wp_mono.
    { eapply (write_step_spec c s g p i); try done; [lia| |lia|rewrite Hlt; lia|by apply Forall_take].
      destruct Hfree as (X & HX & HXq). exists X. split; [done|lia]. }
    intros [] s1 (g1 & e1 & En1 & El1 & T1 & W1). lconst. rewrite !u64_small by lia.
    pose proof (wa_grow _ _ _ _ _ _ _ _ W1) as G1. pose proof (gg_units _ _ _ _ _ G1) as U1.
    eapply wp_mono.
    { eapply (IH fuel s1 g1 (with_entry e1 i)); cbn [entry with_entry]; try done.
      - rewrite En1. by apply lookup_entry_set.
      - apply W1.
      - apply (wa_held _ _ _ _ _ _ _ _ W1).
      - lia.
      - lia.
      - lconst. lia.
      - rewrite length_drop. lia.
      - by apply Forall_drop.
      - lia.
      - lconst. destruct Hnext; [left; lia|right; lia].
      - lia.
      - apply (gg_free _ _ _ _ _ G1). by replace (2 * q + 2)%nat with (2 * Datatypes.S q)%nat by lia. }
    intros r s2 (-> & g2 & e2 & En2 & El2 & T2 & W2). cbn [entry with_entry] in W2. split; [lia|].
    exists g2, e2. split_and!; [by rewrite En2, En1, entry_set_set|congruence|done|].
    rewrite <-(take_drop (Z.to_nat m) src). eapply wrote_at_weaken; [eapply (wrote_at_app _ _ _ _ _ 2 (2 * q) 5 (5 * q)); [lia| |exact W1|]|lia|lia].
    + rewrite length_take, length_drop. lconst. lia.
    + rewrite Hlt. by rewrite Z2Nat.id by lia.
Qed.

(** ** [inode_sync] *)

Lemma encode_inode_bytes e : Forall byte_ok (encode_inode e).
Proof. unfold encode_inode. repeat (apply Forall_app_2); auto using le_array_ok, le_bytes_ok. Qed.

Lemma entry_off_bound no : (entry_off no + 64 ≤ Z.to_nat BLOCK_SIZE)%nat.
Proof.
  unfold entry_off. lconst. pose proof (Z.mod_pos_bound no 8 ltac:(lia)). lia.
Qed.

Lemma put_entry_ok d no e : block_ok d → inode_ok e → block_ok (put_entry d no e).
Proof.
  intros Hd He. apply splice_block_ok; [done|apply encode_inode_bytes|].
  rewrite length_encode_inode by done. apply entry_off_bound.
Qed.

Lemma get_put_entry d no e : block_ok d → inode_ok e → get_entry (put_entry d no e) no = e.
Proof.
  intros [Hl _] He. unfold get_entry, put_entry. pose proof (entry_off_bound no) as Hb. rewrite <-Hl in Hb.
  pose proof (length_encode_inode e He) as Le. change (Z.to_nat sizeof_InodeEntry) with 64%nat in *.
  rewrite <-Le in Hb |- *. rewrite slice_splice_eq by done. by apply decode_encode_inode_eq.
Qed.

(** Writing an entry leaves the other entries of its block. *)
Lemma get_put_entry_other d no no' e :
  block_ok d → inode_ok e → 0 ≤ no → 0 ≤ no' → no mod INODE_PER_BLOCK ≠ no' mod INODE_PER_BLOCK →
  get_entry (put_entry d no e) no' = get_entry d no'.
Proof.
  intros [Hl _] He Hn Hn' Hne. unfold get_entry, put_entry. pose proof (length_encode_inode e He) as Le.
  pose proof (entry_off_bound no) as Hb. rewrite <-Hl in Hb.
  change (Z.to_nat sizeof_InodeEntry) with 64%nat in *. f_equal. apply slice_splice_ne.
  - by rewrite Le.
  - rewrite Le. unfold entry_off. lconst. pose proof (Z.mod_pos_bound no 8 ltac:(lia)).
    pose proof (Z.mod_pos_bound no' 8 ltac:(lia)). lia.
Qed.

Definition inode_block (i : Inode) : Z := to_block_no sblock (inode_no i).

Lemma inode_sync_write c (s : I) g p i :
  tx c (bstore s) g → nodes s !! p = Some i → ivalid i = true → inode_ok (entry i) →
  good g (inode_block i) → inode_block i ∈ glog g ∨ 0 < gunits g →
  wp (inode_sync sblock (Some c) p true)
     (λ _ s', nodes s' = nodes s ∧ ilist s' = ilist s ∧
        tx c (bstore s') (store_block (inode_block i)
          (put_entry (gview g (inode_block i)) (inode_no i) (entry i)) g)) s.
Proof.
  intros T Hp Hv Hok G Hroom. unfold inode_sync. apply wp_bind. eapply wp_inode; [done|].
  fold (inode_block i). pose proof (law_view_ok c _ _ _ T (proj1 G)) as Hbl.
  apply wp_bind, wp_lift. eapply wp_mono; [by eapply good_acquire|]. intros bp s2 (T2 & Hb & _).
  apply wp_bind, wp_lift. eexists _, s2. split; [eapply law_load; [exact T2|exact Hb|apply G]|]. cbn [gview g_acquire].
  rewrite Hv. cbn [andb negb]. apply wp_bind, wp_bind, wp_lift.
  eapply wp_mono; [eapply law_store; [exact T2|exact Hb|apply G|by apply put_entry_ok]|]. intros [] s3 [T3 Ht3].
  apply wp_lift. eapply wp_mono; [eapply law_sync; [exact T3|by apply Ht3|apply G|exact Hroom]|].
  intros [] s4 [T4 Ht4]. apply wp_lift.
  eapply wp_mono; [eapply law_release; [exact T4|by apply Ht4, Ht3|left; cbn; set_solver]|].
  intros [] s5 [T5 _]. split_and!; [done|done|exact T5].
Qed.

Lemma inode_sync_read c (s : I) g p i ctx w :
  tx c (bstore s) g → nodes s !! p = Some i → ivalid i = false → good g (inode_block i) →
  wp (inode_sync sblock ctx p w)
     (λ _ s', nodes s' = alter (with_ivalid true ∘ with_entry (get_entry (gview g (inode_block i)) (inode_no i))) p (nodes s) ∧
        ilist s' = ilist s ∧ ∃ g', tx c (bstore s') g' ∧ g_same g g') s.
Proof.
  intros T Hp Hv G. unfold inode_sync. apply wp_bind. eapply wp_inode; [done|].
  fold (inode_block i). apply wp_bind, wp_lift. eapply wp_mono; [by eapply good_acquire|]. intros bp s2 (T2 & Hb & _).
  apply wp_bind, wp_lift. eexists _, s2. split; [eapply law_load; [exact T2|exact Hb|apply G]|]. cbn [gview g_acquire].
  rewrite Hv. cbn [andb negb]. apply wp_bind, wp_bind. eapply wp_updi; [exact Hp|].
  eapply wp_updi; [by apply lookup_alter_node|]. apply wp_lift.
  eapply wp_mono; [eapply law_release; [exact T2|exact Hb|right; cbn; set_solver]|].
  intros [] s5 [T5 _]. cbn. split_and!; [by rewrite list_alter_alter|done|].
  eexists. split; [exact T5|]. apply g_same_visit, G.
Qed.

(** Logging a block the file does not own. *)
Lemma store_other_file n d g e :
  file_inv g e → n ∉ gheld g → n ∈ gused g → ¬ owned g e n → n ≠ 0 →
  file_inv (store_block n d g) e ∧
  (∀ x, 0 ≤ x < INODE_MAX_BYTES → block_of (store_block n d g) e (x / BLOCK_SIZE) = block_of g e (x / BLOCK_SIZE) ∧
        (block_of g e (x / BLOCK_SIZE) ≠ 0 → file_byte (store_block n d g) e x = file_byte g e x)).
Proof.
  intros F Hnh Hnu Hno Hn0. assert (Hni : n ≠ indirect e ∨ indirect e = 0).
  { destruct (decide (indirect e = 0)); [by right|left]. intros ->. apply Hno. split; [done|by left]. }
  assert (B : ∀ j, in_range j → block_of (store_block n d g) e j = block_of g e j)
    by (intros; by apply store_block_blocks).
  assert (Hg : ∀ m, good g m → good (store_block n d g) m).
  { intros m (?&?&?). split_and!; [done|done|]. cbn. set_solver. }
  split; [split; try apply F|].
  - intros j Hj. rewrite B by done. intros Hj0. by apply Hg, (fi_good _ _ F).
  - intros Hi. by apply Hg, (fi_ind _ _ F).
  - intros j l Hj Hl. rewrite !B by done. by apply (fi_inj _ _ F).
  - intros Hi j Hj. rewrite B by done. by apply (fi_ind_ne _ _ F).
  - intros x Hx. rewrite B; [by apply (fi_mapped _ _ F)|]. pose proof (fi_size _ _ F).
    apply in_range_byte. lia.
  - intros x Hx. pose proof (in_range_byte x Hx) as Hr. rewrite B by done. split; [done|]. intros Hx0.
    unfold file_byte. rewrite B by done. cbn [gview store_block g_release g_sync g_store g_acquire].
    rewrite fupd_ne; [done|]. intros E. apply Hno. split; [done|]. right. exists (x / BLOCK_SIZE). done.
Qed.

(** The file grows to what has been written. *)
Lemma file_inv_resize g e n :
  file_inv g e → num_bytes e ≤ n ≤ INODE_MAX_BYTES →
  (∀ x, num_bytes e ≤ x < n → block_of g e (x / BLOCK_SIZE) ≠ 0) → file_inv g (with_num_bytes n e).
Proof.
  intros F Hn Hm. destruct F as [A1 A2 A3 A4 A5 A6 A7]. split; try done.
  - destruct A1 as (?&?&?&?&?&?&?&?). unfold inode_ok, with_num_bytes. cbn. split_and!; try done.
    unfold uint in *. lconst. lia.
  - cbn. lia.
  - cbn. intros x Hx. destruct (decide (x < num_bytes e)); [by apply A7; lia|apply Hm; lia].
Qed.

(** ** [inode_write] *)

(** What a write of [src] at [offset] leaves. *)
Record write_result (g : ghost) (i : Inode) (src : list Z) (offset : Z) (g' : ghost) (e' : InodeEntry) : Prop := {
  wr_inv : file_inv g' e';
  wr_size : num_bytes e' = Z.max (num_bytes (entry i)) (offset + Z.of_nat (length src));
  wr_bytes : ∀ x, 0 ≤ x < num_bytes e' → file_byte g' e' x =
    if decide (offset ≤ x < offset + Z.of_nat (length src)) then nth (Z.to_nat (x - offset)) src 0
    else file_byte g (entry i) x;
  wr_type : itype e' = itype (entry i);
  wr_disk : num_bytes (entry i) < num_bytes e' → get_entry (gview g' (inode_block i)) (inode_no i) = e';
  wr_frame : ∀ m, m ∈ gused g → ¬ owned g (entry i) m → m ≠ inode_block i → gview g' m = gview g m;
  wr_held : gheld g' = gheld g ∧ gused g ⊆ gused g';
}.

(** The bytes after the loop, below the end of what was written. *)
Lemma wrote_at_byte g e off src a u g' e' x :
  wrote_at g e off src a u g' e' → file_inv g e → 0 ≤ off ≤ num_bytes e →
  off + Z.of_nat (length src) ≤ INODE_MAX_BYTES →
  0 ≤ x < Z.max (num_bytes e) (off + Z.of_nat (length src)) →
  block_of g' e' (x / BLOCK_SIZE) ≠ 0 ∧
  file_byte g' e' x = if decide (off ≤ x < off + Z.of_nat (length src)) then nth (Z.to_nat (x - off)) src 0
                      else file_byte g e x.
Proof.
  intros W F Ho Hmax Hx. pose proof (fi_size _ _ F). case_decide as D.
  - destruct (lookup_lt_is_Some_2 src (Z.to_nat (x - off))) as [b Hb]; [lia|].
    destruct (wa_bytes _ _ _ _ _ _ _ _ W _ _ Hb) as [Hne E].
    replace (off + Z.of_nat (Z.to_nat (x - off))) with x in * by lia. split; [done|]. rewrite E.
    symmetry. by apply nth_lookup_Some.
  - apply (wa_rest _ _ _ _ _ _ _ _ W); [lia|apply (fi_mapped _ _ F); lia|lia].
Qed.

Lemma write_result_same g i src offset a u g' e' :
  file_inv g (entry i) → 0 ≤ offset ≤ num_bytes (entry i) → offset + Z.of_nat (length src) ≤ INODE_MAX_BYTES →
  wrote_at g (entry i) offset src a u g' e' → offset + Z.of_nat (length src) ≤ num_bytes (entry i) →
  write_result g i src offset g' e'.
Proof.
  intros F Ho Hmax W Hle. pose proof (wa_meta _ _ _ _ _ _ _ _ W) as (En & Et & _). split.
  - apply W.
  - rewrite En. lia.
  - rewrite En. intros x Hx. apply (wrote_at_byte _ _ _ _ _ _ _ _ x W F Ho Hmax). lia.
  - done.
  - lia.
  - intros m Hm Hno _. by apply (gg_view _ _ _ _ _ (wa_grow _ _ _ _ _ _ _ _ W)).
  - split; apply (wa_grow _ _ _ _ _ _ _ _ W).
Qed.

Lemma write_result_grow g i src offset a u g1 e1 :
  file_inv g (entry i) → 0 ≤ offset ≤ num_bytes (entry i) → offset + Z.of_nat (length src) ≤ INODE_MAX_BYTES →
  wrote_at g (entry i) offset src a u g1 e1 → num_bytes (entry i) < offset + Z.of_nat (length src) →
  good g (inode_block i) → ¬ owned g (entry i) (inode_block i) → inode_block i ≠ 0 →
  block_ok (gview g1 (inode_block i)) →
  let e2 := with_num_bytes (offset + Z.of_nat (length src)) e1 in
  write_result g i src offset
    (store_block (inode_block i) (put_entry (gview g1 (inode_block i)) (inode_no i) e2) g1) e2.
Proof.
  intros F Ho Hmax W Hlt Gi Hno Hib0 Hok e2. pose proof (wa_meta _ _ _ _ _ _ _ _ W) as (En & Et & _).
  pose proof (wa_grow _ _ _ _ _ _ _ _ W) as G. pose proof (good_grow _ _ _ _ _ _ G Gi) as (_ & Gu1 & Gh1).
  assert (Hb : ∀ x, 0 ≤ x < offset + Z.of_nat (length src) → _ ∧ _) by
    (intros x Hx; exact (wrote_at_byte _ _ _ _ _ _ _ _ x W F Ho Hmax ltac:(lia))).
  assert (F2 : file_inv g1 e2).
  { apply file_inv_resize; [apply W|lia|]. intros x Hx. apply (Hb x). pose proof (fi_entry _ _ F) as (_&_&_&_&[? _]&_). lia. }
  assert (Hno2 : ¬ owned g1 e2 (inode_block i)).
  { intros Hw. apply Hno, (wa_owned _ _ _ _ _ _ _ _ W); [apply Gi|exact Hw]. }
  set (d := put_entry _ _ _).
  destruct (store_other_file (inode_block i) d g1 e2 F2 Gh1 Gu1 Hno2 Hib0) as [F3 B3]. split.
  - done.
  - cbn. lia.
  - cbn [num_bytes e2 with_num_bytes]. intros x Hx. destruct (B3 x ltac:(lia)) as [_ B]. destruct (Hb x Hx) as [Hne E].
    rewrite B by exact Hne. exact E.
  - done.
  - intros _. cbn [gview store_block g_release g_sync g_store g_acquire]. rewrite fupd_eq. unfold d.
    apply get_put_entry; [done|apply F2].
  - intros m Hm Hnom Hmib. cbn [gview store_block g_release g_sync g_store g_acquire]. rewrite fupd_ne by done.
    by apply (gg_view _ _ _ _ _ G).
  - cbn. split; [|apply G]. rewrite (gg_held _ _ _ _ _ G). apply set_eq.
    rewrite (gg_held _ _ _ _ _ G) in Gh1. set_solver.
Qed.

Lemma inode_write_spec c (s : I) g p i src offset q :
  tx c (bstore s) g → nodes s !! p = Some i → ivalid i = true → file_inv g (entry i) → gheld g ⊆ gused g →
  good g (inode_block i) → ¬ owned g (entry i) (inode_block i) →
  0 ≤ offset ≤ num_bytes (entry i) → offset + Z.of_nat (length src) ≤ INODE_MAX_BYTES → Forall byte_ok src →
  offset mod BLOCK_SIZE + Z.of_nat (length src) ≤ BLOCK_SIZE * Z.of_nat q →
  Z.of_nat q ≤ Z.of_nat (length src) / BLOCK_SIZE + 2 →
  5 * Z.of_nat q + 1 ≤ gunits g → free_blocks g (2 * q) →
  wp (inode_write sblock (Some c) p src offset (Z.of_nat (length src)))
     (λ r s', r = Z.of_nat (length src) ∧ ∃ g' e', nodes s' = entry_set p e' (nodes s) ∧ ilist s' = ilist s ∧
        tx c (bstore s') g' ∧ write_result g i src offset g' e') s.
Proof.
  intros T Hp Hv F Hh Gi Hno Ho Hmax Hb Hq Hq2 Hu Hfree. pose proof (fi_size _ _ F) as Hsize.
  set (count := Z.of_nat (length src)) in *. pose proof (file_block_uint4 _ (proj1 Gi)) as (_ & _ & Hib0).
  unfold inode_write. apply wp_bind. eapply wp_inode; [done|]. cbv zeta. lconst. rewrite u64_small by lia.
  apply wp_bind, wp_assert; [lia|]. apply wp_bind, wp_assert; [lia|]. apply wp_bind, wp_assert; [lia|].
  apply wp_bind. eapply wp_mono.
  { eapply (write_loop_spec c p q (io_fuel count) s g i src 0 offset count); try done; rewrite ?Z.sub_0_r; try lia.
    - lconst. lia.
    - unfold io_fuel. lconst. fold count in Hq2. assert (0 ≤ count / 512) by (apply Z.div_pos; lia). lia.
    - right. lconst. lia. }
  intros r s1 (-> & g1 & e1 & En1 & El1 & T1 & W). rewrite Z.sub_0_r.
  pose proof (wa_meta _ _ _ _ _ _ _ _ W) as (Esz & _).
  assert (Hp1 : nodes s1 !! p = Some (with_entry e1 i)) by (rewrite En1; by apply lookup_entry_set).
  apply wp_bind. eapply wp_inode; [exact Hp1|]. cbn [entry with_entry]. rewrite Esz.
  destruct ((0 <? count) && (num_bytes (entry i) <? offset + count)) eqn:E.
  - apply andb_prop in E as [E1 E2]. apply Z.ltb_lt in E1, E2.
    pose proof (wa_grow _ _ _ _ _ _ _ _ W) as G. pose proof (gg_units _ _ _ _ _ G) as U1.
    pose proof (good_grow _ _ _ _ _ _ G Gi) as Gi1. pose proof (law_view_ok c _ _ _ T1 (proj1 Gi1)) as Hok1.
    pose proof (write_result_grow g i src offset _ _ g1 e1 F Ho ltac:(lconst; lia) W E2 Gi Hno Hib0 Hok1) as WR.
    set (e2 := with_num_bytes (offset + Z.of_nat (length src)) e1) in *. cbv zeta in WR.
    apply wp_bind, wp_bind. eapply wp_upde; [exact Hp1|]. cbn [entry with_entry].
    rewrite u32_small by lia. fold count in e2. fold e2.
    set (s2 := set_nodes (entry_set p e2) s1). set (i2 := with_entry e2 i).
    assert (Hp2 : nodes s2 !! p = Some i2) by (unfold s2; cbn; by rewrite (lookup_entry_set _ _ _ _ Hp1)).
    assert (Hok2 : inode_ok e2) by (pose proof (wr_inv _ _ _ _ _ _ WR) as FF; apply FF).
    eapply wp_mono; [eapply (inode_sync_write c s2 g1 p i2); try done; right; lia|].
    intros [] s3 (En3 & El3 & T3). apply wp_ret. split; [done|].
    eexists _, e2. split_and!; [|by rewrite El3|exact T3|exact WR].
    rewrite En3. unfold s2. cbn. rewrite En1. apply entry_set_set.
  - apply wp_bind, wp_ret, wp_ret. split; [done|]. exists g1, e1. split_and!; [done|done|done|].
    eapply write_result_same; [exact F|exact Ho|lconst; exact Hmax|exact W|].
    apply andb_false_iff in E as [E|E]; apply Z.ltb_ge in E; unfold count in *; lia.
Qed.

(** ** Directories *)

Definition dirent_at (g : ghost) (e : InodeEntry) (off : Z) : DirEntry :=
  decode_dirent (file_byte g e <$> zseq off (off + sizeof_DirEntry)).

(** The entry at [off] is in use and has the name. *)
Definition matches (g : ghost) (e : InodeEntry) (name : list Z) (off : Z) : bool :=
  negb (de_inode_no (dirent_at g e off) =? 0) &&
  bool_decide (cstr (Z.to_nat FILE_NAME_MAX_LENGTH) (de_name (dirent_at g e off)) =
               cstr (Z.to_nat FILE_NAME_MAX_LENGTH) name).

(** The first entry of that name: its inode number and its offset. *)
Definition lookup_spec (g : ghost) (e : InodeEntry) (name : list Z) : option (Z * Z) :=
  (λ r, (de_inode_no (dirent_at g e r.2), r.2)) <$>
    list_find (λ off, matches g e name off = true) (dir_offsets (num_bytes e)).

(** A loop that leaves with a value computed by [f], the state invariant [J]. *)
Lemma wp_for_until {St A R} (l : list A) (body : A → M St (option R)) (f : A → option R) (J : St → Prop) s :
  J s → (∀ x s', x ∈ l → J s' → wp (body x) (λ r s'', r = f x ∧ J s'') s') →
  wp (for_until l body) (λ r s', r = omap f l !! 0%nat ∧ J s') s.
Proof.
  revert s. induction l as [|x l IH]; intros s HJ Hb; cbn [for_until]; [by apply wp_ret|].
  apply wp_bind. eapply wp_mono; [apply Hb; [set_solver|done]|]. intros r s1 [-> HJ1]. cbn.
  destruct (f x) as [v|]; [by apply wp_ret|]. apply IH; [done|]. intros y s' Hy. apply Hb. set_solver.
Qed.

(** What every read of a directory keeps. *)
Definition unchanged (c : nat) (s : I) (g : ghost) (s' : I) : Prop :=
  nodes s' = nodes s ∧ ilist s' = ilist s ∧ ∃ g', tx c (bstore s') g' ∧ g_same g g'.

Lemma reads_fmap g e off bs n :
  0 ≤ n → length bs = Z.to_nat n → reads g e off bs → bs = file_byte g e <$> zseq off (off + n).
Proof.
  intros Hn Hl Hr. apply list_eq_same_length with (Z.to_nat n); [by rewrite length_fmap, length_zseq; f_equal; lia|done|].
  intros k x y Hk Hx Hy. rewrite list_lookup_fmap, lookup_zseq in Hy by lia. injection Hy as <-. by apply Hr.
Qed.

Lemma read_dirent_spec c (s0 s : I) g p i off :
  unchanged c s0 g s → nodes s0 !! p = Some i → file_inv g (entry i) →
  0 ≤ off → off + sizeof_DirEntry ≤ num_bytes (entry i) →
  wp (read_dirent p off) (λ r s', r = dirent_at g (entry i) off ∧ unchanged c s0 g s') s.
Proof.
  intros (En & El & g1 & T1 & E1) Hp F Ho Hle. unfold read_dirent. lconst. apply wp_bind.
  eapply wp_mono; [eapply (inode_read_spec c s g1 p i off 16); [done|by rewrite En|by eapply file_inv_same|lia|lia]|].
  intros [bs z] s1 (Hz & Hl & Hr & En1 & El1 & g2 & T2 & E2). cbn in Hz, Hl, Hr. subst z. cbn [snd fst Z.eqb negb].
  apply wp_ret. split.
  - unfold dirent_at. lconst. f_equal. rewrite Z.min_l in Hl by lia.
    rewrite (reads_fmap g1 (entry i) off bs 16) by done. apply list_fmap_ext. intros _ x _. by apply file_byte_same.
  - split_and!; [congruence|congruence|]. exists g2. split; [done|]. by eapply g_same_trans.
Qed.

Lemma length_de_name g e off : length (de_name (dirent_at g e off)) = Z.to_nat FILE_NAME_MAX_LENGTH.
Proof.
  unfold dirent_at, decode_dirent. cbn [de_name]. apply length_slice. rewrite length_fmap, length_zseq. lconst. lia.
Qed.

Lemma dir_offset_bound n off : 0 ≤ n → n mod sizeof_DirEntry = 0 → off ∈ dir_offsets n →
  0 ≤ off ∧ off + sizeof_DirEntry ≤ n ∧ off mod sizeof_DirEntry = 0.
Proof.
  intros Hn Hm. unfold dir_offsets. rewrite list_elem_of_fmap. lconst. intros (k & -> & Hk%elem_of_zseq).
  pose proof (Z.div_mod n 16 ltac:(lia)). assert ((n + 16 - 1) / 16 = n / 16) as E.
  { symmetry. apply (Z.div_unique _ _ _ 15); lia. }
  rewrite E in Hk. split_and!; [lia|lia|]. rewrite Z.mul_comm. by apply Z.mod_mul.
Qed.

Lemma lookup_at_spec c (s0 s : I) g p i name off :
  unchanged c s0 g s → nodes s0 !! p = Some i → file_inv g (entry i) → readable (Z.to_nat FILE_NAME_MAX_LENGTH) name →
  0 ≤ off → off + sizeof_DirEntry ≤ num_bytes (entry i) →
  wp (lookup_at p name off)
     (λ r s', r = (if matches g (entry i) name off then Some (de_inode_no (dirent_at g (entry i) off), off) else None) ∧
              unchanged c s0 g s') s.
Proof.
  intros U Hp F Hn Ho Hle. unfold lookup_at. apply wp_bind. eapply wp_mono; [by eapply read_dirent_spec|].
  intros de s1 [-> U1]. unfold matches. destruct (de_inode_no _ =? 0); cbn [negb andb]; [by apply wp_ret|].
  destruct (strncmp_spec (Z.to_nat FILE_NAME_MAX_LENGTH) (de_name (dirent_at g (entry i) off)) name) as (r & Er & Hr);
    [left; by rewrite length_de_name|done|].
  apply wp_bind. eapply wp_deref; [exact Er|]. destruct (r =? 0) eqn:E0.
  - apply Z.eqb_eq in E0. rewrite bool_decide_true by tauto. by apply wp_ret.
  - apply Z.eqb_neq in E0. rewrite bool_decide_false by tauto. by apply wp_ret.
Qed.

Lemma head_omap_find {A R} (P : A → bool) (v : A → R) (l : list A) :
  omap (λ x, if P x then Some (v x) else None) l !! 0%nat = (λ r, v r.2) <$> list_find (λ x, P x = true) l.
Proof.
  induction l as [|x l IH]; [done|]. cbn. destruct (decide (P x = true)) as [E|E].
  - by rewrite E.
  - destruct (P x); [done|]. rewrite IH. by destruct (list_find _ l) as [[]|].
Qed.

(** A directory in memory: a file of whole entries. *)
Record is_dir (g : ghost) (i : Inode) : Prop := {
  dir_file : file_inv g (entry i);
  dir_type : itype (entry i) = INODE_DIRECTORY;
  dir_size : num_bytes (entry i) mod sizeof_DirEntry = 0;
}.

Lemma num_bytes_nonneg g e : file_inv g e → 0 ≤ num_bytes e.
Proof. intros F. pose proof (fi_entry _ _ F) as (_&_&_&_&[? _]&_). done. Qed.

Lemma inode_lookup_spec c (s0 s : I) g p i name :
  unchanged c s0 g s → nodes s0 !! p = Some i → is_dir g i → readable (Z.to_nat FILE_NAME_MAX_LENGTH) name →
  wp (inode_lookup p name) (λ r s', r = lookup_spec g (entry i) name ∧ unchanged c s0 g s') s.
Proof.
  intros U Hp D Hn. pose proof U as (En & _). pose proof (dir_file _ _ D) as F. unfold inode_lookup.
  apply wp_bind. eapply wp_inode; [by rewrite En|]. apply wp_bind, wp_assert; [by rewrite (dir_type _ _ D)|].
  eapply wp_mono.
  { apply (wp_for_until _ _ (λ off, if matches g (entry i) name off
      then Some (de_inode_no (dirent_at g (entry i) off), off) else None) (unchanged c s0 g) s U).
    intros off s' Hoff U'. destruct (dir_offset_bound (num_bytes (entry i)) off) as (H1 & H2 & _);
      [by eapply num_bytes_nonneg|exact (dir_size _ _ D)|done|]. by apply lookup_at_spec. }
  intros r s' [-> U']. split; [|done].
  apply (head_omap_find (matches g (entry i) name) (λ off, (de_inode_no (dirent_at g (entry i) off), off))).
Qed.

(** *** Inserting a name *)

Lemma dir_offsets_eq n : 0 ≤ n → n mod sizeof_DirEntry = 0 →
  dir_offsets n = (λ k, sizeof_DirEntry * k) <$> zseq 0 (n / sizeof_DirEntry).
Proof.
  intros Hn Hm. unfold dir_offsets. do 2 f_equal. lconst. pose proof (Z.div_mod n 16 ltac:(lia)).
  symmetry. apply (Z.div_unique _ _ _ 15); lia.
Qed.

Lemma zseq_snoc lo hi : lo ≤ hi → zseq lo (hi + 1) = zseq lo hi ++ [hi].
Proof.
  intros H. unfold zseq. replace (Z.to_nat (hi + 1 - lo)) with (Z.to_nat (hi - lo) + 1)%nat by lia.
  rewrite seq_app, fmap_app. cbn. do 2 f_equal. lia.
Qed.

Lemma dir_offsets_snoc n : 0 ≤ n → n mod sizeof_DirEntry = 0 →
  dir_offsets (n + sizeof_DirEntry) = dir_offsets n ++ [n].
Proof.
  intros Hn Hm. pose proof (Z.div_mod n sizeof_DirEntry ltac:(lconst; lia)) as Hd.
  assert (Hm' : (n + sizeof_DirEntry) mod sizeof_DirEntry = 0).
  { rewrite <-Hm. rewrite <-(Z.mul_1_l sizeof_DirEntry) at 1. apply Z_mod_plus_full. }
  rewrite !dir_offsets_eq by (try done; lconst; lia). lconst.
  replace ((n + 16) / 16) with (n / 16 + 1) by (rewrite <-(Z.div_add n 1 16) by lia; f_equal; lia).
  rewrite zseq_snoc by (apply Z.div_pos; lia). rewrite fmap_app. cbn. do 2 f_equal. lia.
Qed.

Lemma elem_of_dir_offsets n x : 0 ≤ n → n mod sizeof_DirEntry = 0 → 0 ≤ x < n → x mod sizeof_DirEntry = 0 →
  x ∈ dir_offsets n.
Proof.
  intros Hn Hm Hx Hxm. rewrite dir_offsets_eq, list_elem_of_fmap by done. exists (x / sizeof_DirEntry).
  lconst. pose proof (Z.div_mod x 16 ltac:(lia)). pose proof (Z.div_mod n 16 ltac:(lia)).
  split; [lia|]. apply elem_of_zseq. lia.
Qed.

Lemma list_find_ext_in {A} (P Q : A → bool) (l : list A) :
  (∀ x, x ∈ l → P x = Q x) → list_find (λ x, P x = true) l = list_find (λ x, Q x = true) l.
Proof.
  induction l as [|x l IH]; intros H; [done|]. cbn. rewrite IH by (intros; apply H; set_solver).
  rewrite (H x) by set_solver. done.
Qed.

Lemma list_find_snoc_false {A} (P : A → bool) (l : list A) x :
  P x = false → list_find (λ x, P x = true) (l ++ [x]) = list_find (λ x, P x = true) l.
Proof.
  intros Hx. induction l as [|y l IH]; cbn; [by rewrite Hx|]. by rewrite IH.
Qed.

Lemma cstr_cpad n s : readable n s → cstr n (cpad n s) = cstr n s.
Proof.
  revert s. induction n as [|n IH]; intros s Hs; [done|].
  destruct s as [|c s]; [destruct Hs as [Hs|Hs]; [cbn in Hs; lia|by apply not_elem_of_nil in Hs]|].
  unfold cpad. cbn [cstr]. destruct (c =? 0) eqn:E; [done|]. cbn [app]. rewrite E. f_equal.
  apply Z.eqb_neq in E. apply IH. by eapply readable_cons.
Qed.

Lemma Forall_cstr n s : Forall byte_ok s → Forall byte_ok (cstr n s).
Proof.
  intros H. revert n. induction H as [|c s Hc Hs IH]; intros [|n]; cbn; try constructor.
  destruct (c =? 0); by constructor.
Qed.

Lemma Forall_cpad n s : Forall byte_ok s → Forall byte_ok (cpad n s).
Proof.
  intros H. apply Forall_app_2; [by apply Forall_cstr|]. apply Forall_replicate. unfold byte_ok. lia.
Qed.

(** The directory after the sixteen bytes of [de] went to [off], a slot of it or
    its end. *)
Section inserted.
Context (g : ghost) (i : Inode) (off : Z) (de : DirEntry) (g' : ghost) (e' : InodeEntry).
Hypothesis D : is_dir g i.
Hypothesis Hde : dirent_ok de.
Hypothesis W : write_result g i (encode_dirent de) off g' e'.
Hypothesis Hoff : off ∈ dir_offsets (num_bytes (entry i)) ∨ off = num_bytes (entry i).

Lemma off_aligned : 0 ≤ off ≤ num_bytes (entry i) ∧ off mod sizeof_DirEntry = 0.
Proof.
  clear W Hde. pose proof (num_bytes_nonneg _ _ (dir_file _ _ D)).
  destruct Hoff as [Hin| ->]; [|split; [lia|exact (dir_size _ _ D)]].
  destruct (dir_offset_bound _ _ H (dir_size _ _ D) Hin) as (?&?&?). lconst. lia.
Qed.

Lemma length_de : Z.of_nat (length (encode_dirent de)) = sizeof_DirEntry.
Proof. destruct (decode_encode_dirent de Hde) as [-> _]. reflexivity. Qed.

Lemma inserted_at : dirent_at g' e' off = de.
Proof.
  unfold dirent_at. rewrite <-(proj2 (decode_encode_dirent de Hde)) at 1. f_equal.
  pose proof off_aligned as [Ho _]. pose proof length_de as Hl.
  apply list_eq_same_length with 16%nat; [lconst; lia|rewrite length_fmap, length_zseq; lconst; lia|].
  intros k x y Hk Hx Hy. rewrite list_lookup_fmap, lookup_zseq in Hx by (lconst; lia). injection Hx as <-.
  rewrite (wr_bytes _ _ _ _ _ _ W) by (rewrite (wr_size _ _ _ _ _ _ W); lconst; lia).
  rewrite decide_True by (lconst; lia). replace (Z.to_nat (off + Z.of_nat k - off)) with k by lia.
  by apply nth_lookup_Some.
Qed.

Lemma kept_at x : 0 ≤ x → x + sizeof_DirEntry ≤ num_bytes (entry i) → x mod sizeof_DirEntry = 0 → x ≠ off →
  dirent_at g' e' x = dirent_at g (entry i) x.
Proof.
  intros Hx Hle Hxm Hne. unfold dirent_at. f_equal. apply list_fmap_ext. intros k y Hy.
  assert (Hiny : y ∈ zseq x (x + sizeof_DirEntry)) by by eapply list_elem_of_lookup_2.
  apply elem_of_zseq in Hiny. pose proof off_aligned as [Ho Hom]. pose proof length_de as Hl.
  rewrite (wr_bytes _ _ _ _ _ _ W) by (rewrite (wr_size _ _ _ _ _ _ W); lconst; lia).
  rewrite decide_False; [done|]. lconst. pose proof (Z.div_mod x 16 ltac:(lia)).
  pose proof (Z.div_mod off 16 ltac:(lia)). lia.
Qed.

Lemma new_size : num_bytes e' = num_bytes (entry i) ∧ off ∈ dir_offsets (num_bytes (entry i)) ∨
                 off = num_bytes (entry i) ∧ num_bytes e' = num_bytes (entry i) + sizeof_DirEntry.
Proof.
  pose proof (num_bytes_nonneg _ _ (dir_file _ _ D)) as Hn. rewrite (wr_size _ _ _ _ _ _ W), length_de.
  destruct Hoff as [Hin| ->]; [left|right; lconst; lia].
  destruct (dir_offset_bound _ _ Hn (dir_size _ _ D) Hin) as (?&?&?). split; [lia|done].
Qed.

Lemma find_inserted name x : x ∈ dir_offsets (num_bytes (entry i)) → x ≠ off →
  matches g' e' name x = matches g (entry i) name x.
Proof.
  intros Hin Hne. pose proof (num_bytes_nonneg _ _ (dir_file _ _ D)) as Hn.
  destruct (dir_offset_bound _ _ Hn (dir_size _ _ D) Hin) as (?&?&?). unfold matches. by rewrite kept_at.
Qed.

Lemma inserted_is_dir : is_dir g' (with_entry e' i).
Proof.
  pose proof (num_bytes_nonneg _ _ (dir_file _ _ D)) as Hn. split; cbn.
  - apply W.
  - rewrite (wr_type _ _ _ _ _ _ W). exact (dir_type _ _ D).
  - destruct new_size as [[-> _]|[_ ->]]; [exact (dir_size _ _ D)|]. rewrite <-(dir_size _ _ D).
    rewrite <-(Z.mul_1_l sizeof_DirEntry) at 1. apply Z_mod_plus_full.
Qed.

Lemma past_the_end : off = num_bytes (entry i) → off ∈ dir_offsets (num_bytes (entry i)) → False.
Proof.
  intros E Hin. destruct (dir_offset_bound _ _ (num_bytes_nonneg _ _ (dir_file _ _ D)) (dir_size _ _ D) Hin) as (?&?&?).
  lconst. lia.
Qed.

(** Names that were not at [off] and are not there now are found where they
    were. *)
Lemma inserted_other name :
  de_inode_no de = 0 ∨ cstr (Z.to_nat FILE_NAME_MAX_LENGTH) (de_name de) ≠ cstr (Z.to_nat FILE_NAME_MAX_LENGTH) name →
  (off ∈ dir_offsets (num_bytes (entry i)) → matches g (entry i) name off = false) →
  lookup_spec g' e' name = lookup_spec g (entry i) name.
Proof.
  intros Hname Hold. pose proof (num_bytes_nonneg _ _ (dir_file _ _ D)) as Hn.
  assert (Hnew : matches g' e' name off = false).
  { unfold matches. rewrite inserted_at. destruct Hname as [->|Hne]; [done|].
    rewrite bool_decide_false by done. apply andb_false_r. }
  assert (Hext : ∀ x, x ∈ dir_offsets (num_bytes (entry i)) → matches g' e' name x = matches g (entry i) name x).
  { intros x Hin. destruct (decide (x = off)) as [->|]; [by rewrite Hnew, Hold|]. by apply find_inserted. }
  unfold lookup_spec.
  assert (Hfind : list_find (λ x, matches g' e' name x = true) (dir_offsets (num_bytes e')) =
                  list_find (λ x, matches g (entry i) name x = true) (dir_offsets (num_bytes (entry i)))).
  { destruct new_size as [[-> _]|[E ->]]; [by apply list_find_ext_in|].
    rewrite dir_offsets_snoc by (done || exact (dir_size _ _ D)). rewrite list_find_snoc_false by by rewrite <-E.
    by apply list_find_ext_in. }
  rewrite Hfind. destruct (list_find _ (dir_offsets (num_bytes (entry i)))) as [[k x]|] eqn:E; [|done].
  apply list_find_Some in E as (Hk & Hm & _). cbn. do 2 f_equal.
  assert (Hin : x ∈ dir_offsets (num_bytes (entry i))) by by eapply list_elem_of_lookup_2.
  destruct (dir_offset_bound _ _ Hn (dir_size _ _ D) Hin) as (?&?&?).
  rewrite kept_at; [done..|]. intros ->. by rewrite Hold in Hm.
Qed.

(** The new name is found at its slot. *)
Lemma inserted_found name : de_inode_no de ≠ 0 →
  cstr (Z.to_nat FILE_NAME_MAX_LENGTH) (de_name de) = cstr (Z.to_nat FILE_NAME_MAX_LENGTH) name →
  lookup_spec g (entry i) name = None → lookup_spec g' e' name = Some (de_inode_no de, off).
Proof.
  intros Hno Hname Hnone. pose proof (num_bytes_nonneg _ _ (dir_file _ _ D)) as Hn.
  assert (Hnew : matches g' e' name off = true).
  { unfold matches. rewrite inserted_at, (proj2 (Z.eqb_neq _ _)) by done. by rewrite bool_decide_true. }
  unfold lookup_spec in Hnone. destruct (list_find _ (dir_offsets (num_bytes (entry i)))) eqn:E in Hnone; [done|].
  apply list_find_None in E. rewrite Forall_forall in E.
  assert (Hothers : ∀ x, x ∈ dir_offsets (num_bytes (entry i)) → x ≠ off → matches g' e' name x = false).
  { intros x Hin Hne. rewrite find_inserted by done. specialize (E x Hin). by destruct (matches _ _ _ _). }
  assert (Hin' : ∀ x, x ∈ dir_offsets (num_bytes e') → x = off ∨ x ∈ dir_offsets (num_bytes (entry i))).
  { intros x. destruct new_size as [[-> _]|[Eo ->]]; [by right|].
    rewrite dir_offsets_snoc, elem_of_app, list_elem_of_singleton by (done || exact (dir_size _ _ D)). rewrite Eo. tauto. }
  assert (Hoff' : off ∈ dir_offsets (num_bytes e')).
  { destruct new_size as [[-> ?]|[Eo ->]]; [done|].
    rewrite dir_offsets_snoc, elem_of_app, list_elem_of_singleton by (done || exact (dir_size _ _ D)). by right. }
  unfold lookup_spec. destruct (list_find _ (dir_offsets (num_bytes e'))) as [[k x]|] eqn:Ef.
  - apply list_find_Some in Ef as (Hk & Hm & _). assert (x = off) as ->.
    { destruct (Hin' x) as [|Hi]; [by eapply list_elem_of_lookup_2|done|].
      destruct (decide (x = off)); [done|]. by rewrite Hothers in Hm. }
    cbn. by rewrite inserted_at.
  - apply list_find_None in Ef. rewrite Forall_forall in Ef. by apply Ef in Hoff'.
Qed.
End inserted.

Lemma free_at_spec c (s0 s : I) g p i off :
  unchanged c s0 g s → nodes s0 !! p = Some i → file_inv g (entry i) →
  0 ≤ off → off + sizeof_DirEntry ≤ num_bytes (entry i) →
  wp (free_at p off)
     (λ r s', r = (if de_inode_no (dirent_at g (entry i) off) =? 0 then Some off else None) ∧ unchanged c s0 g s') s.
Proof.
  intros U Hp F Ho Hle. unfold free_at. apply wp_bind. eapply wp_mono; [by eapply read_dirent_spec|].
  intros de s1 [-> U1]. by apply wp_ret.
Qed.

Lemma encode_dirent_bytes d : Forall byte_ok (de_name d) → Forall byte_ok (encode_dirent d).
Proof. intros H. apply Forall_app_2; [apply le_bytes_ok|done]. Qed.

Lemma length_dir_offsets n : 0 ≤ n → n mod sizeof_DirEntry = 0 →
  sizeof_DirEntry * Z.of_nat (length (dir_offsets n)) = n.
Proof.
  intros Hn Hm. rewrite dir_offsets_eq, length_fmap, length_zseq by done. lconst.
  pose proof (Z.div_mod n 16 ltac:(lia)). assert (0 ≤ n / 16) by (apply Z.div_pos; lia). lia.
Qed.

(** A slot lies inside one block. *)
Lemma slot_in_block off : 0 ≤ off → off mod sizeof_DirEntry = 0 →
  off mod BLOCK_SIZE + sizeof_DirEntry ≤ BLOCK_SIZE.
Proof.
  intros Ho Hm. lconst. pose proof (Z.mod_pos_bound off 512 ltac:(lia)).
  pose proof (Z.div_mod off 512 ltac:(lia)). pose proof (Z.div_mod off 16 ltac:(lia)). lia.
Qed.

Lemma dirent_at_same g g2 e x : g_same g g2 → dirent_at g2 e x = dirent_at g e x.
Proof. intros E. unfold dirent_at. f_equal. apply list_fmap_ext. intros _ y _. by apply file_byte_same. Qed.

Lemma lookup_spec_same g g2 e name : g_same g g2 → lookup_spec g2 e name = lookup_spec g e name.
Proof.
  intros E. unfold lookup_spec.
  rewrite (list_find_ext_in (matches g2 e name) (matches g e name)).
  - destruct (list_find _ _) as [[k x]|]; [|done]. cbn. by rewrite (dirent_at_same g g2).
  - intros x _. unfold matches. by rewrite (dirent_at_same g g2).
Qed.

(** The directory can take one more entry. *)
Record can_insert (g : ghost) (i : Inode) (name : list Z) (no : Z) : Prop := {
  ci_dir : is_dir g i;
  ci_valid : ivalid i = true;
  ci_held : gheld g ⊆ gused g;
  ci_block : good g (inode_block i);
  ci_own : ¬ owned g (entry i) (inode_block i);
  ci_size : num_bytes (entry i) + sizeof_DirEntry ≤ INODE_MAX_BYTES;
  ci_name : readable (Z.to_nat FILE_NAME_MAX_LENGTH) name ∧ Forall byte_ok name;
  ci_no : 0 < no < 2 ^ 16;
  ci_units : 6 ≤ gunits g;
  ci_free : free_blocks g 2;
}.

Lemma inode_insert_spec c (s : I) g p i name no :
  tx c (bstore s) g → nodes s !! p = Some i → can_insert g i name no → lookup_spec g (entry i) name = None →
  wp (inode_insert sblock (Some c) p name no)
     (λ off s', ∃ g' e', nodes s' = entry_set p e' (nodes s) ∧ ilist s' = ilist s ∧ tx c (bstore s') g' ∧
        is_dir g' (with_entry e' i) ∧ lookup_spec g' e' name = Some (no, off) ∧
        ∀ name', cstr (Z.to_nat FILE_NAME_MAX_LENGTH) name' ≠ cstr (Z.to_nat FILE_NAME_MAX_LENGTH) name →
          lookup_spec g' e' name' = lookup_spec g (entry i) name') s.
Proof.
  intros T Hp CI Hnone. destruct CI as [D Hv Hh Gi Hno Hmax [Hnm Hnb] Hnum Hu Hfree].
  pose proof (dir_file _ _ D) as F. pose proof (num_bytes_nonneg _ _ F) as Hn.
  assert (U0 : unchanged c s g s) by (split_and!; [done|done|eexists; split; [done|apply g_same_refl]]).
  unfold inode_insert. apply wp_bind. eapply wp_inode; [done|]. apply wp_bind, wp_assert; [by rewrite (dir_type _ _ D)|].
  apply wp_bind. eapply wp_mono; [by eapply inode_lookup_spec|]. intros r s1 [-> U1]. rewrite Hnone.
  apply wp_bind. eapply wp_inode; [by rewrite (proj1 U1)|].
  apply wp_bind. eapply wp_mono.
  { apply (wp_for_until _ _ (λ off, if de_inode_no (dirent_at g (entry i) off) =? 0 then Some off else None)
      (unchanged c s g) s1 U1).
    intros off s' Hoff U'. destruct (dir_offset_bound _ _ Hn (dir_size _ _ D) Hoff) as (H1 & H2 & _).
    by apply free_at_spec. }
  intros o s2 [-> U2]. cbv zeta.
  rewrite (head_omap_find (λ off, de_inode_no (dirent_at g (entry i) off) =? 0) (λ off, off)).
  set (off := default _ _).
  assert (Hoff : off ∈ dir_offsets (num_bytes (entry i)) ∧ de_inode_no (dirent_at g (entry i) off) = 0 ∨
                 off = num_bytes (entry i)).
  { unfold off. destruct (list_find _ _) as [[k x]|] eqn:E; cbn.
    - left. apply list_find_Some in E as (Hk & Hz & _). split; [by eapply list_elem_of_lookup_2|by apply Z.eqb_eq].
    - right. by apply length_dir_offsets; [|exact (dir_size _ _ D)]. }
  rewrite (u16_small no) by lia. set (de := mkDirEntry no _).
  assert (Hde : dirent_ok de).
  { unfold dirent_ok, de. cbn. split_and!; [unfold uint; lia|by apply Forall_cpad|apply length_cpad]. }
  destruct U2 as (En2 & El2 & g2 & T2 & E2).
  pose proof (off_aligned g i off D ltac:(tauto)) as [Ho Hom]. pose proof (length_de de Hde) as Hlde.
  apply wp_bind. rewrite <-Hlde. eapply wp_mono.
  { eapply (inode_write_spec c s2 g2 p i (encode_dirent de) off 1); rewrite ?Hlde; try done.
    - by rewrite En2.
    - by eapply file_inv_same.
    - by rewrite (gs_held _ _ E2), (gs_used _ _ E2).
    - by eapply good_same.
    - intros (Hz & Hw). apply Hno. split; [done|]. destruct Hw as [|(k & Hk & Ek)]; [by left|right; exists k].
      by rewrite <-(block_of_same _ _ _ _ E2).
    - lconst. lia.
    - by apply encode_dirent_bytes, Forall_cpad.
    - pose proof (slot_in_block off (proj1 Ho) Hom). lconst. lia.
    - rewrite (gs_units _ _ E2). lia.
    - eapply free_blocks_used; [apply E2|done]. }
  intros r s3 (-> & g3 & e3 & En3 & El3 & T3 & W). apply wp_ret.
  assert (D2 : is_dir g2 i) by (split; [by eapply file_inv_same|exact (dir_type _ _ D)|exact (dir_size _ _ D)]).
  assert (Ed := λ x, dirent_at_same g g2 (entry i) x E2).
  assert (El := λ nm, lookup_spec_same g g2 (entry i) nm E2).
  assert (Hslot : off ∈ dir_offsets (num_bytes (entry i)) ∨ off = num_bytes (entry i)) by tauto.
  assert (Hnmde : cstr (Z.to_nat FILE_NAME_MAX_LENGTH) (de_name de) = cstr (Z.to_nat FILE_NAME_MAX_LENGTH) name)
    by by apply cstr_cpad.
  exists g3, e3. split_and!; [congruence|congruence|done| | |].
  - by eapply inserted_is_dir.
  - rewrite (inserted_found g2 i off de g3 e3 D2 Hde W Hslot name); [done|cbn; lia|done|by rewrite El].
  - intros nm Hne. rewrite (inserted_other g2 i off de g3 e3 D2 Hde W Hslot nm); [apply El|right; by rewrite Hnmde|].
    intros Hin. destruct Hoff as [[_ Ez]|E]; [unfold matches; by rewrite Ed, Ez|]. by destruct (past_the_end g2 i off D2 E).
Qed.

(** ** Allocating an inode *)

(** The entry of inode [no] on disk. *)
Definition disk_entry (g : ghost) (no : Z) : InodeEntry := get_entry (gview g (to_block_no sblock no)) no.

(** The blocks of the inodes [1 .. num_inodes] are in use and can be locked. *)
Record inodes_ok (g : ghost) : Prop := {
  io_good : ∀ no, 1 ≤ no ≤ num_inodes sblock → good g (to_block_no sblock no);
  io_start : uint 4 (inode_start sblock);
  io_num : uint 4 (num_inodes sblock);
}.

Lemma inodes_ok_same g g' : g_same g g' → inodes_ok g → inodes_ok g'.
Proof. intros E H. split; try apply H. intros no Hno. eapply good_same; [done|]. by apply H. Qed.

Lemma disk_entry_same g g' no : g_same g g' → disk_entry g' no = disk_entry g no.
Proof. intros E. unfold disk_entry. by rewrite (gs_view _ _ E). Qed.

Lemma to_block_no_eq g no : inodes_ok g → 0 ≤ no ≤ num_inodes sblock →
  to_block_no sblock no = inode_start sblock + no / INODE_PER_BLOCK.
Proof.
  intros [_ Hs Hn] Hno. unfold to_block_no. apply u64_small. unfold uint in Hs, Hn.
  change (2 ^ (8 * 4)) with (2 ^ 32) in *. lconst.
  assert (0 ≤ no / 8 ≤ no) by (split; [apply Z.div_pos; lia|apply Z.div_le_upper_bound; lia]). lia.
Qed.

(** Logging entry [e] for [no] changes no other entry. *)
Lemma disk_entry_store g no e m :
  block_ok (gview g (to_block_no sblock no)) → inodes_ok g → inode_ok e → 1 ≤ no ≤ num_inodes sblock → 0 ≤ m ≤ num_inodes sblock →
  disk_entry (store_block (to_block_no sblock no) (put_entry (gview g (to_block_no sblock no)) no e) g) m =
  if decide (m = no) then e else disk_entry g m.
Proof.
  intros Hb G He Hno Hm. set (n := to_block_no sblock no) in *. unfold disk_entry. cbn.
  case_decide as D; [subst m; fold n; rewrite fupd_eq; by apply get_put_entry|].
  destruct (decide (to_block_no sblock m = n)) as [E|E]; [rewrite E, fupd_eq|by rewrite fupd_ne].
  apply get_put_entry_other; [done|done|lia|lia|]. intros Em. apply D.
  unfold n in E. rewrite !(to_block_no_eq g) in E by (done || lia). lconst.
  pose proof (Z.div_mod no 8 ltac:(lia)). pose proof (Z.div_mod m 8 ltac:(lia)). lia.
Qed.

(** No inode of a smaller number was free. *)
Definition first_free_inode (g : ghost) (no : Z) : Prop :=
  1 ≤ no ≤ num_inodes sblock ∧ itype (disk_entry g no) = INODE_INVALID ∧
  ∀ m, 1 ≤ m < no → itype (disk_entry g m) ≠ INODE_INVALID.

Lemma zero_entry_ok ty : uint 2 ty → inode_ok (with_itype ty zero_entry).
Proof. intros H. unfold inode_ok, uint in *. cbn. split_and!; try lia; try done. by apply Forall_replicate. Qed.

Lemma try_alloc_taken c (s : I) g no ty :
  tx c (bstore s) g → inodes_ok g → 1 ≤ no ≤ num_inodes sblock → itype (disk_entry g no) ≠ INODE_INVALID →
  wp (try_alloc sblock (Some c) ty no) (λ r s', r = None ∧ unchanged c s g s') s.
Proof.
  intros T G Hno Hty. pose proof (io_good _ G no Hno) as Gn. unfold try_alloc.
  apply wp_bind, wp_lift. eapply wp_mono; [by eapply good_acquire|]. intros bp s2 (T2 & Hb & _).
  apply wp_bind, wp_lift. eexists _, s2. split; [eapply law_load; [exact T2|exact Hb|apply Gn]|]. cbn [gview g_acquire].
  fold (disk_entry g no). rewrite (proj2 (Z.eqb_neq _ _)) by done.
  apply wp_bind, wp_lift. eapply wp_mono; [eapply law_release; [exact T2|exact Hb|right; cbn; clear; set_solver]|].
  intros [] s5 [T5 _]. apply wp_ret. split; [done|]. split_and!; [done|done|].
  eexists. split; [exact T5|]. apply g_same_visit, Gn.
Qed.

Lemma try_alloc_free c (s : I) g no ty :
  tx c (bstore s) g → inodes_ok g → 1 ≤ no ≤ num_inodes sblock → itype (disk_entry g no) = INODE_INVALID →
  uint 2 ty → 0 < gunits g →
  wp (try_alloc sblock (Some c) ty no)
     (λ r s', r = Some no ∧ nodes s' = nodes s ∧ ilist s' = ilist s ∧
        tx c (bstore s') (store_block (to_block_no sblock no)
          (put_entry (gview g (to_block_no sblock no)) no (with_itype ty zero_entry)) g)) s.
Proof.
  intros T G Hno Hty Ht Hu. pose proof (io_good _ G no Hno) as Gn. unfold try_alloc.
  pose proof (law_view_ok c _ _ _ T (proj1 Gn)) as Hbl.
  apply wp_bind, wp_lift. eapply wp_mono; [by eapply good_acquire|]. intros bp s2 (T2 & Hb & _).
  apply wp_bind, wp_lift. eexists _, s2. split; [eapply law_load; [exact T2|exact Hb|apply Gn]|]. cbn [gview g_acquire].
  fold (disk_entry g no). rewrite (proj2 (Z.eqb_eq _ _)) by done. apply wp_bind, wp_lift.
  eapply wp_mono; [eapply law_store; [exact T2|exact Hb|apply Gn|by apply put_entry_ok, zero_entry_ok]|]. intros [] s3 [T3 Ht3].
  apply wp_bind, wp_lift. eapply wp_mono; [eapply law_sync; [exact T3|by apply Ht3|apply Gn|by right]|].
  intros [] s4 [T4 Ht4]. apply wp_bind, wp_lift.
  eapply wp_mono; [eapply law_release; [exact T4|by apply Ht4, Ht3|left; cbn; clear; set_solver]|].
  intros [] s5 [T5 _]. apply wp_ret. split_and!; [done|done|done|exact T5].
Qed.

(** The scan from [k] on, nothing before [no] being free. *)
Lemma alloc_scan c no ty g0 : ∀ fuel (s : I) g k,
  (fuel = Z.to_nat (num_inodes sblock + 1 - k))%nat → tx c (bstore s) g → g_same g0 g → inodes_ok g →
  first_free_inode g0 no → 1 ≤ k ≤ no → uint 2 ty → 0 < gunits g →
  wp (for_until (zseq k (num_inodes sblock + 1)) (try_alloc sblock (Some c) ty))
     (λ r s', r = Some no ∧ nodes s' = nodes s ∧ ilist s' = ilist s ∧ ∃ g', g_same g0 g' ∧
        tx c (bstore s') (store_block (to_block_no sblock no)
          (put_entry (gview g' (to_block_no sblock no)) no (with_itype ty zero_entry)) g')) s.
Proof.
  induction fuel as [|fuel IH]; intros s g k Ef T E G (Hno & Hf & Hmin) Hk Hty Hu; [lia|].
  rewrite zseq_cons by lia. cbn [for_until]. apply wp_bind. destruct (decide (k = no)) as [->|D].
  - eapply wp_mono; [apply (try_alloc_free c s g no ty); try done|].
    { by rewrite (disk_entry_same g0 g). }
    intros r s1 (-> & En & El & T1). apply wp_ret. split_and!; [done..|]. by exists g.
  - eapply wp_mono; [apply (try_alloc_taken c s g k ty); try done; [lia|]|].
    { rewrite (disk_entry_same g0 g) by done. apply Hmin. lia. }
    intros r s1 (-> & En & El & g1 & T1 & E1). assert (E01 : g_same g0 g1) by by eapply g_same_trans.
    eapply wp_mono; [apply (IH s1 g1 (k + 1)); try done; try lia|].
    + exact (inodes_ok_same _ _ E1 G).
    + by rewrite (gs_units _ _ E1).
    + intros r s2 (-> & En2 & El2 & R). rewrite En2, El2. done.
Qed.

(** [inode_alloc] gives the lowest free number and writes a zeroed entry of
    the type asked; no other inode changes. *)
Theorem inode_alloc_correct c (s : I) g no ty :
  tx c (bstore s) g → inodes_ok g → first_free_inode g no → ty ≠ INODE_INVALID → uint 2 ty → 0 < gunits g →
  wp (inode_alloc sblock (Some c) ty)
     (λ r s', r = no ∧ nodes s' = nodes s ∧ ilist s' = ilist s ∧ ∃ g', tx c (bstore s') g' ∧ inodes_ok g' ∧
        gunits g - 1 ≤ gunits g' ∧ gused g' = gused g ∧
        ∀ m, 0 ≤ m ≤ num_inodes sblock →
          disk_entry g' m = if decide (m = no) then with_itype ty zero_entry else disk_entry g m) s.
Proof.
  intros T G Hf Hty Ht Hu. pose proof Hf as [Hno _]. unfold inode_alloc.
  apply wp_bind, wp_assert; [by rewrite (proj2 (Z.eqb_neq _ _))|]. apply wp_bind.
  eapply wp_mono; [apply (alloc_scan c no ty g (Z.to_nat (num_inodes sblock + 1 - 1)) s g 1); try done; lia|].
  intros r s1 (-> & En & El & g1 & E1 & T1). apply wp_ret. split_and!; [done..|].
  pose proof (inodes_ok_same _ _ E1 G) as G1. eexists. split_and!; [exact T1| | | |].
  - split; try apply G. intros m Hm. destruct (io_good _ G1 m Hm) as (?&?&?). split_and!; [done|done|].
    cbn. clear -H1. set_solver.
  - pose proof (store_block_units (to_block_no sblock no) (put_entry (gview g1 (to_block_no sblock no)) no
      (with_itype ty zero_entry)) g1) as [-> _]. rewrite (gs_units _ _ E1). unfold unit_for. case_decide; lia.
  - apply (gs_used _ _ E1).
  - intros m Hm. rewrite <-(disk_entry_same g g1 m E1).
    apply disk_entry_store; [|done|by apply zero_entry_ok|done|done].
    rewrite (gs_view _ _ E1). eapply law_view_ok; [exact T|]. by apply (io_good _ G).
Qed.

(** ** The inodes in memory *)

(** The ring holds live inodes, no two of the same number, and unlocked ones
    that nobody refers to. *)
Record table_ok (s : I) : Prop := {
  tb_node : ∀ p, p ∈ ilist s → ∃ i, nodes s !! p = Some i ∧ 0 ≤ rc i ∧ (rc i = 0 → ilock i = 1);
  tb_unique : ∀ p q i j, p ∈ ilist s → q ∈ ilist s → nodes s !! p = Some i → nodes s !! q = Some j →
    0 < rc i → 0 < rc j → inode_no i = inode_no j → p = q;
}.

Lemma find_live_Some ns no l p :
  find_live ns no l = Some p → p ∈ l ∧ ∃ i, ns !! p = Some i ∧ inode_no i = no ∧ 0 < rc i.
Proof.
  unfold find_live. destruct (list_find _ _) as [[k q]|] eqn:E; [|done]. intros [= <-].
  apply list_find_Some in E as (Hk & Hq & _). split; [by eapply list_elem_of_lookup_2|].
  cbn in *. unfold is_live in Hq. destruct (ns !! q) as [i|]; [|done]. apply andb_true_iff in Hq as [H1 H2].
  exists i. apply Z.eqb_eq in H1. apply Z.ltb_lt in H2. done.
Qed.

Lemma find_live_None ns no l p i :
  find_live ns no l = None → p ∈ l → ns !! p = Some i → inode_no i = no → 0 < rc i → False.
Proof.
  unfold find_live. destruct (list_find _ _) as [[k q]|] eqn:E; [done|]. intros _ Hp Hi Hno Hrc.
  apply list_find_None in E. rewrite Forall_forall in E. apply (E p Hp). unfold is_live. rewrite Hi.
  by rewrite (proj2 (Z.eqb_eq _ _)), (proj2 (Z.ltb_lt _ _)).
Qed.

Lemma find_empty_Some ns l p : find_empty ns l = Some p → p ∈ l ∧ ∃ i, ns !! p = Some i ∧ rc i = 0.
Proof.
  unfold find_empty. destruct (list_find _ _) as [[k q]|] eqn:E; [|done]. intros [= <-].
  apply list_find_Some in E as (Hk & Hq & _). split; [by eapply list_elem_of_lookup_2|].
  cbn in *. destruct (ns !! q) as [i|]; [|done]. injection Hq as Hq. by exists i.
Qed.

(** The end of [inode_get]: a node nobody refers to becomes inode [no]. *)
Definition load_node (no : Z) (p : nat) : M I nat :=
  updi p (with_inode_no no) ;;
  increment_rc p ;;
  updi p (with_ivalid false) ;;
  inode_lock p ;;
  inode_sync sblock None p false ;;
  inode_unlock p ;;
  mret p.

Lemma load_node_spec c (s : I) g no p i :
  tx c (bstore s) g → good g (to_block_no sblock no) → nodes s !! p = Some i → rc i = 0 → ilock i = 1 →
  wp (load_node no p)
     (λ r s', r = p ∧ nodes s' = alter (λ _, mkInode 1 1 no true (disk_entry g no)) p (nodes s) ∧
              ilist s' = ilist s ∧ ∃ g', tx c (bstore s') g' ∧ g_same g g') s.
Proof.
  intros T G Hp Hrc Hlk. unfold load_node, increment_rc.
  apply wp_bind. eapply wp_updi; [exact Hp|].
  apply wp_bind. eapply wp_updi; [by apply lookup_alter_node|].
  apply wp_bind. eapply wp_updi; [by do 2 apply lookup_alter_node|].
  unfold inode_lock. apply wp_bind, wp_bind. eapply wp_inode; [by do 3 apply lookup_alter_node|].
  cbn [rc ilock with_ivalid with_rc with_inode_no]. rewrite Hrc, Hlk. apply wp_bind, wp_assert; [done|].
  cbn. eapply wp_updi; [by do 3 apply lookup_alter_node|].
  apply wp_bind. eapply wp_mono.
  { eapply (inode_sync_read c _ g p); cbn; [done|by do 4 apply lookup_alter_node|done|exact G]. }
  intros [] s1 (En & El & g1 & T1 & E1). cbn in En, El.
  unfold inode_unlock. apply wp_bind, wp_bind. eapply wp_inode; [rewrite En; by do 5 apply lookup_alter_node|].
  cbn. rewrite Hrc. apply wp_bind, wp_assert; [done|].
  eapply wp_updi; [rewrite En; by do 5 apply lookup_alter_node|]. apply wp_ret.
  split; [done|]. split; [|split; [done|by exists g1]]. cbn. rewrite En, !list_alter_alter.
  apply list_eq. intros q. destruct (decide (q = p)) as [->|D]; [|by rewrite !list_lookup_alter_ne].
  rewrite !list_lookup_alter_eq, Hp. cbn. by rewrite Hrc.
Qed.

(** The table after that. *)
Lemma table_ok_load (s : I) p i e no st :
  table_ok s → find_live (nodes s) no (ilist s) = None → p ∈ ilist s → nodes s !! p = Some i → rc i = 0 →
  table_ok (mkIState st (alter (λ _, mkInode 1 1 no true e) p (nodes s)) (ilist s)).
Proof.
  intros [Hn Hu] Hnone Hin Hp Hrc. split; cbn.
  - intros q Hq. destruct (decide (q = p)) as [->|D]; [|rewrite list_lookup_alter_ne by done; by apply Hn].
    rewrite list_lookup_alter_eq, Hp. by eexists.
  - intros q r iq ir Hq Hr Eq Er H1 H2 En. destruct (decide (q = p)) as [->|D], (decide (r = p)) as [->|D']; try done.
    + rewrite list_lookup_alter_eq, Hp in Eq. injection Eq as <-. rewrite list_lookup_alter_ne in Er by done.
      exfalso. by eapply (find_live_None _ _ _ r).
    + rewrite list_lookup_alter_eq, Hp in Er. injection Er as <-. rewrite list_lookup_alter_ne in Eq by done.
      exfalso. by eapply (find_live_None _ _ _ q).
    + rewrite list_lookup_alter_ne in Eq, Er by done. by eapply Hu.
Qed.

Lemma table_ok_new (s : I) st :
  table_ok s → table_ok (mkIState st (nodes s ++ [init_inode]) (length (nodes s) :: ilist s)).
Proof.
  intros [Hn Hu]. assert (Hold : ∀ q, q ∈ ilist s → (nodes s ++ [init_inode]) !! q = nodes s !! q).
  { intros q Hq. destruct (Hn q Hq) as (i & Hi & _). apply lookup_app_l. by eapply lookup_lt_Some. }
  assert (Hnew : (nodes s ++ [init_inode]) !! length (nodes s) = Some init_inode).
  { by rewrite lookup_app_r, Nat.sub_diag by lia. }
  split; cbn.
  - intros q [->|Hq]%elem_of_cons; [by exists init_inode|]. rewrite Hold by done. by apply Hn.
  - intros q r iq ir Hq Hr Eq Er H1 H2 En.
    apply elem_of_cons in Hq as [->|Hq]; [rewrite Hnew in Eq; injection Eq as <-; cbn in H1; lia|].
    apply elem_of_cons in Hr as [->|Hr]; [rewrite Hnew in Er; injection Er as <-; cbn in H2; lia|].
    rewrite Hold in Eq, Er by done. by eapply Hu.
Qed.

Lemma find_live_new ns no l :
  (∀ p, p ∈ l → (p < length ns)%nat) → find_live ns no l = None → 
  find_live (ns ++ [init_inode]) no (length ns :: l) = None.
Proof.
  intros Hl Hnone. unfold find_live in *. destruct (list_find _ (_ :: _)) as [[k q]|] eqn:E; [|done].
  apply list_find_Some in E as (Hk & Hq & _). unfold is_live in Hq.
  apply list_elem_of_lookup_2, elem_of_cons in Hk as [->|Hk].
  - rewrite lookup_app_r, Nat.sub_diag in Hq by lia. cbn in Hq. by rewrite andb_false_r in Hq.
  - rewrite lookup_app_l in Hq by by apply Hl. destruct (list_find _ _) as [|] eqn:E2; [done|].
    apply list_find_None in E2. rewrite Forall_forall in E2. by destruct (E2 q Hk).
Qed.

(** The object of a live inode is found, with one more reference. *)
Definition got_live (s : I) (no : Z) (p : nat) (s' : I) : Prop :=
  ∃ i, nodes s !! p = Some i ∧ inode_no i = no ∧ 0 < rc i ∧ nodes s' = alter (with_rc (rc i + 1)) p (nodes s) ∧
       ilist s' = ilist s.
(** Or else a node nobody refers to holds it, as it is on disk. *)
Definition got_fresh (s : I) (g : ghost) (no : Z) (p : nat) (s' : I) : Prop :=
  nodes s' !! p = Some (mkInode 1 1 no true (disk_entry g no)) ∧
  (∀ q i, nodes s !! q = Some i → 0 < rc i ∨ q ∉ ilist s → nodes s' !! q = Some i).

Lemma alter_ext_at (f h : Inode → Inode) p (ns : list Inode) i :
  ns !! p = Some i → f i = h i → alter f p ns = alter h p ns.
Proof.
  intros Hp E. apply list_eq. intros q. destruct (decide (q = p)) as [->|D]; [|by rewrite !list_lookup_alter_ne].
  by rewrite !list_lookup_alter_eq, Hp; cbn; rewrite E.
Qed.

Lemma table_ok_rc (s : I) p i x :
  table_ok s → nodes s !! p = Some i → 0 < rc i → 0 < x →
  table_ok (mkIState (bstore s) (alter (with_rc x) p (nodes s)) (ilist s)).
Proof.
  intros [Hn Hu] Hp Hrc Hx.
  assert (Hl : ∀ q j, alter (with_rc x) p (nodes s) !! q = Some j → ∃ j', nodes s !! q = Some j' ∧
             inode_no j = inode_no j' ∧ ilock j = ilock j' ∧ (q = p ∧ rc j = x ∨ rc j = rc j')).
  { intros q j. destruct (decide (q = p)) as [->|D].
    - rewrite list_lookup_alter_eq, Hp. intros [= <-]. exists i. split_and!; auto.
    - rewrite list_lookup_alter_ne by done. intros E. exists j. split_and!; auto. }
  split; cbn.
  - intros q Hq. destruct (Hn q Hq) as (j & Hj & H0 & Hlk). destruct (decide (q = p)) as [->|D].
    + rewrite list_lookup_alter_eq, Hj. eexists. split_and!; [done|cbn; lia|cbn; lia].
    + exists j. by rewrite list_lookup_alter_ne by done.
  - intros q r iq ir Hq Hr (iq' & Eq & Nq & _ & Rq)%Hl (ir' & Er & Nr & _ & Rr)%Hl H1 H2 En.
    apply (Hu q r iq' ir'); try done; [| |congruence].
    + destruct Rq as [[-> _]|<-]; [congruence|done].
    + destruct Rr as [[-> _]|<-]; [congruence|done].
Qed.

Lemma get_load c (s : I) g no p i :
  tx c (bstore s) g → table_ok s → good g (to_block_no sblock no) → find_live (nodes s) no (ilist s) = None →
  p ∈ ilist s → nodes s !! p = Some i → rc i = 0 →
  wp (load_node no p)
     (λ r s', table_ok s' ∧ r ∈ ilist s' ∧ (∃ g', tx c (bstore s') g' ∧ g_same g g') ∧
        nodes s' !! r = Some (mkInode 1 1 no true (disk_entry g no)) ∧
        (∀ q, q ≠ p → nodes s' !! q = nodes s !! q)) s.
Proof.
  intros T Tb G Hnone Hin Hp Hrc. destruct (tb_node _ Tb p Hin) as (i' & Hp' & _ & Hlk). simplify_eq.
  eapply wp_mono; [eapply load_node_spec; try done; by apply Hlk|].
  intros r s' (-> & En & El & Hg). pose proof (table_ok_load s p i (disk_entry g no) no (bstore s') Tb Hnone Hin Hp Hrc) as Tb'.
  rewrite <-En, <-El, mkIState_eta in Tb'. rewrite El. split_and!; [done|done|done| |].
  - by rewrite En, list_lookup_alter_eq, Hp.
  - intros q D. by rewrite En, list_lookup_alter_ne.
Qed.

(** [inode_get] gives the one object of a live inode, with one more
    reference; when there is none, a node nobody refers to holds the inode as
    it is on disk. *)
Theorem inode_get_correct c (s : I) g no :
  tx c (bstore s) g → table_ok s → good g (to_block_no sblock no) → 0 < no < num_inodes sblock →
  (∀ p i, nodes s !! p = Some i → rc i < 2 ^ 63 - 1) →
  wp (inode_get sblock no)
     (λ p s', table_ok s' ∧ p ∈ ilist s' ∧ (∃ g', tx c (bstore s') g' ∧ g_same g g') ∧
        if find_live (nodes s) no (ilist s) is Some _ then got_live s no p s' else got_fresh s g no p s') s.
Proof.
  intros T Tb G Hno Hrc. unfold inode_get.
  apply wp_bind, wp_assert; [by apply Z.ltb_lt, Hno|]. apply wp_bind, wp_assert; [by apply Z.ltb_lt, Hno|].
  apply wp_bind, wp_gets, wp_bind, wp_gets.
  destruct (find_live (nodes s) no (ilist s)) as [p|] eqn:Ef.
  - apply find_live_Some in Ef as (Hin & i & Hp & Hn & Hpos). unfold increment_rc. specialize (Hrc p i Hp).
    apply wp_bind. eapply wp_updi; [exact Hp|]. apply wp_ret. unfold set_nodes. cbn.
    rewrite (alter_ext_at _ (with_rc (rc i + 1)) p _ i Hp) by by rewrite i64_small by lia.
    split_and!; [by apply (table_ok_rc s p i (rc i + 1)); [..|lia]|done|exists g; split; [done|apply g_same_refl]|].
    by exists i.
  - apply wp_bind. destruct (find_empty (nodes s) (ilist s)) as [p|] eqn:Ee.
    + apply find_empty_Some in Ee as (Hin & i & Hp & Hz). apply wp_ret.
      eapply wp_mono; [by eapply (get_load c s g no p i)|]. intros r s' (Tb' & Hr & Hg & Hnode & Hoth).
      split_and!; [done|done|done|]. split; [done|]. intros q j Hj Hq. rewrite Hoth; [done|].
      intros ->. simplify_eq. destruct Hq; [lia|done].
    + unfold new_inode. apply wp_bind, wp_gets, wp_bind, wp_modify, wp_bind, wp_modify, wp_ret. cbn.
      pose proof (table_ok_new s (bstore s) Tb) as Tb1.
      assert (Hlt : ∀ p, p ∈ ilist s → (p < length (nodes s))%nat).
      { intros p Hp. destruct (tb_node _ Tb p Hp) as (i & Hi & _). by eapply lookup_lt_Some. }
      eapply wp_mono.
      { eapply (get_load c _ g no (length (nodes s)) init_inode); cbn; [exact T|exact Tb1|exact G| | | |done].
        - by apply find_live_new.
        - apply elem_of_cons. by left.
        - by rewrite lookup_app_r, Nat.sub_diag by lia. }
      cbn. intros r s' (Tb' & Hr & Hg & Hnode & Hoth).
      split_and!; [done|done|done|]. split; [done|]. intros q j Hj Hq. apply lookup_lt_Some in Hj as Hq'.
      rewrite Hoth by lia. by rewrite lookup_app_l.
Qed.

(** ** The theorems of the layer *)

Lemma lookup_spec_cstr g e name name' :
  cstr (Z.to_nat FILE_NAME_MAX_LENGTH) name' = cstr (Z.to_nat FILE_NAME_MAX_LENGTH) name →
  lookup_spec g e name' = lookup_spec g e name.
Proof.
  intros E. unfold lookup_spec. rewrite (list_find_ext_in (matches g e name') (matches g e name)); [done|].
  intros x _. unfold matches. by rewrite E.
Qed.

(** [inode_read] puts at [dest] the bytes of the file from [offset] on, at
    most up to its end, and changes nothing. *)
Theorem inode_read_correct c (s : I) g p i offset count :
  tx c (bstore s) g → nodes s !! p = Some i → file_inv g (entry i) →
  0 ≤ offset ≤ num_bytes (entry i) → 0 ≤ count < 2 ^ 63 →
  wp (inode_read p offset count)
     (λ r s', r = (file_byte g (entry i) <$> zseq offset (Z.min (offset + count) (num_bytes (entry i))), 0) ∧
              unchanged c s g s') s.
Proof.
  intros T Hp F Ho Hc. eapply wp_mono; [by eapply inode_read_spec|].
  intros [bs r] s' (Hr & Hl & Hbs & En & El & Hg). cbn in *. split; [|done]. subst r. f_equal.
  rewrite (reads_fmap g (entry i) offset bs (Z.min count (num_bytes (entry i) - offset))) by (done || lia).
  do 2 f_equal. lia.
Qed.

(** C20: [inode_write] makes the file read [src] from [offset] on, the rest
    staying as it was; blocks it does not own stay, it grows to the end of what
    is written, and its new size is logged. *)
Theorem inode_write_correct c (s : I) g p i src offset q :
  tx c (bstore s) g → nodes s !! p = Some i → ivalid i = true → file_inv g (entry i) → gheld g ⊆ gused g →
  good g (inode_block i) → ¬ owned g (entry i) (inode_block i) →
  0 ≤ offset ≤ num_bytes (entry i) → offset + Z.of_nat (length src) ≤ INODE_MAX_BYTES → Forall byte_ok src →
  offset mod BLOCK_SIZE + Z.of_nat (length src) ≤ BLOCK_SIZE * Z.of_nat q →
  Z.of_nat q ≤ Z.of_nat (length src) / BLOCK_SIZE + 2 →
  5 * Z.of_nat q + 1 ≤ gunits g → free_blocks g (2 * q) →
  wp (inode_write sblock (Some c) p src offset (Z.of_nat (length src)))
     (λ r s', r = Z.of_nat (length src) ∧ ∃ g' e', nodes s' = entry_set p e' (nodes s) ∧ ilist s' = ilist s ∧
        tx c (bstore s') g' ∧ write_result g i src offset g' e') s.
Proof. apply inode_write_spec. Qed.

(** C19: What is written is what is read. *)
Theorem inode_write_read c (s : I) g p i src offset q :
  tx c (bstore s) g → nodes s !! p = Some i → ivalid i = true → file_inv g (entry i) → gheld g ⊆ gused g →
  good g (inode_block i) → ¬ owned g (entry i) (inode_block i) →
  0 ≤ offset ≤ num_bytes (entry i) → offset + Z.of_nat (length src) ≤ INODE_MAX_BYTES → Forall byte_ok src →
  offset mod BLOCK_SIZE + Z.of_nat (length src) ≤ BLOCK_SIZE * Z.of_nat q →
  Z.of_nat q ≤ Z.of_nat (length src) / BLOCK_SIZE + 2 →
  5 * Z.of_nat q + 1 ≤ gunits g → free_blocks g (2 * q) →
  wp (inode_write sblock (Some c) p src offset (Z.of_nat (length src)) ;;
      inode_read p offset (Z.of_nat (length src))) (λ r _, r = (src, 0)) s.
Proof.
  intros T Hp Hv F Hh Gi Hno Ho Hmax Hb Hq Hq2 Hu Hfree.
  apply wp_bind. eapply wp_mono; [by eapply inode_write_spec|].
  intros r s1 (_ & g1 & e1 & En & _ & T1 & W).
  assert (Hp1 : nodes s1 !! p = Some (with_entry e1 i)) by (rewrite En; by apply lookup_entry_set).
  pose proof (wr_size _ _ _ _ _ _ W) as Hsz. lconst.
  eapply wp_mono; [eapply (inode_read_spec c s1 g1 p); [exact T1|exact Hp1|apply W|cbn; lia|lia]|].
  intros [bs x] s2 (Hx & Hl & Hbs & _). cbn in *. subst x. f_equal.
  rewrite Hsz, Z.min_l in Hl by lia. rewrite Nat2Z.id in Hl.
  apply list_eq_same_length with (length src); [done|done|]. intros k x y Hk Hx Hy.
  rewrite (Hbs k x Hx), (wr_bytes _ _ _ _ _ _ W) by lia. rewrite decide_True by lia.
  replace (Z.to_nat _) with k by lia. by apply nth_lookup_Some.
Qed.

(** C21: A name inserted in a directory is found afterwards, at the place
    returned, and the other names are where they were. *)
Theorem inode_insert_lookup c (s : I) g p i name no name' :
  tx c (bstore s) g → nodes s !! p = Some i → can_insert g i name no → lookup_spec g (entry i) name = None →
  readable (Z.to_nat FILE_NAME_MAX_LENGTH) name' →
  wp (off ← inode_insert sblock (Some c) p name no; r ← inode_lookup p name'; mret (off, r))
     (λ x _, x.2 = if decide (cstr (Z.to_nat FILE_NAME_MAX_LENGTH) name' = cstr (Z.to_nat FILE_NAME_MAX_LENGTH) name)
                   then Some (no, x.1) else lookup_spec g (entry i) name') s.
Proof.
  intros T Hp CI Hnone Hr. apply wp_bind. eapply wp_mono; [by eapply inode_insert_spec|].
  intros off s1 (g1 & e1 & En & _ & T1 & D1 & Hl & Ho).
  assert (Hp1 : nodes s1 !! p = Some (with_entry e1 i)) by (rewrite En; by apply lookup_entry_set).
  apply wp_bind. eapply wp_mono; [eapply (inode_lookup_spec c s1 s1 g1); [|exact Hp1|exact D1|exact Hr]|].
  { split_and!; [done|done|]. exists g1. split; [done|apply g_same_refl]. }
  intros r s2 [-> _]. apply wp_ret. cbn. case_decide as E; [|by apply Ho].
  by rewrite (lookup_spec_cstr _ _ _ _ E).
Qed.

(** What [inode_sync] writes is what it reads back into an object that is
    not valid. *)
Theorem inode_sync_roundtrip c (s : I) g p i :
  tx c (bstore s) g → nodes s !! p = Some i → ivalid i = true → inode_ok (entry i) → good g (inode_block i) →
  inode_block i ∈ glog g ∨ 0 < gunits g →
  wp (inode_sync sblock (Some c) p true ;;
      updi p (with_ivalid false) ;; upde p (λ _, zero_entry) ;;
      inode_sync sblock (Some c) p false)
     (λ _ s', nodes s' = nodes s) s.
Proof.
  intros T Hp Hv Hok G Hroom. apply wp_bind. eapply wp_mono; [by eapply inode_sync_write|].
  intros [] s1 (En & _ & T1). apply wp_bind. eapply wp_updi; [by rewrite En|].
  apply wp_bind. eapply wp_updi; [cbn; rewrite En; by apply lookup_alter_node|].
  eapply wp_mono.
  { eapply (inode_sync_read c _ _ p); cbn; [exact T1|rewrite En; by do 2 apply lookup_alter_node|done|].
    destruct G as (?&?&?). split_and!; [done|done|]. cbn. clear -H1. set_solver. }
  intros [] s2 (En2 & _). rewrite En2. cbn. rewrite En, !list_alter_alter.
  apply list_eq. intros q. destruct (decide (q = p)) as [->|D]; [|by rewrite !list_lookup_alter_ne].
  rewrite list_lookup_alter_eq, Hp. cbn. f_equal. unfold inode_block. cbn. rewrite fupd_eq, get_put_entry; [|by eapply law_view_ok, G|done].
  destruct i. cbn in *. by subst.
Qed.

(** ** Discarding the contents *)

(** The blocks [X] were freed, and nothing else. *)
Record g_freed (X : Z → Prop) (g g' : ghost) : Prop := {
  gf_view : ∀ n, gview g' n = gview g n;
  gf_held : gheld g' = gheld g;
  gf_used : ∀ n, n ∈ gused g' ↔ n ∈ gused g ∧ ¬ X n;
  gf_dirty : gdirty g' ⊆ gdirty g;
}.

Lemma g_freed_trans X Y Z g1 g2 g3 :
  g_freed X g1 g2 → g_freed Y g2 g3 → (∀ n, Z n ↔ X n ∨ Y n) → g_freed Z g1 g3.
Proof.
  intros F1 F2 HZ. split.
  - intros n. by rewrite (gf_view _ _ _ F2), (gf_view _ _ _ F1).
  - by rewrite (gf_held _ _ _ F2), (gf_held _ _ _ F1).
  - intros n. rewrite (gf_used _ _ _ F2), (gf_used _ _ _ F1), HZ. tauto.
  - etrans; [apply F2|apply F1].
Qed.

Lemma g_freed_ext X Y g g' : g_freed X g g' → (∀ n, Y n ↔ X n) → g_freed Y g g'.
Proof. intros [V H U D] E. split; [done|done| |done]. intros n. by rewrite U, E. Qed.

Lemma g_freed_same g g' : g_same g g' → g_freed (λ _, False) g g'.
Proof.
  intros E. split; [apply E|apply E| |apply E]. intros n. rewrite (gs_used _ _ E). tauto.
Qed.

(** The log has room for the bitmap blocks [B], and [k] units remain. *)
Definition room (B : gset Z) (k : Z) (g : ghost) : Prop := Z.of_nat (size (B ∖ glog g)) + k ≤ gunits g.

Lemma room_same B k g g' : g_same g g' → room B k g → room B k g'.
Proof. unfold room. intros E. by rewrite (gs_log _ _ E), (gs_units _ _ E). Qed.

Lemma free_spec c s g a B k :
  tx c s g → file_block a → a ∈ gused g → map_of a ∈ B → 0 ≤ k → room B k g →
  wp (bs_free (Some c) a)
     (λ _ s', (∃ g', tx c s' g' ∧ g_freed (λ n, n = a) g g' ∧ room B k g') ∧
        ∀ q m, m ∈ gheld g → hdl s q m → hdl s' q m) s.
Proof.
  intros T Hf Hu HB Hk R. unfold room in R. eapply wp_mono; [apply (law_free c s g a T Hf Hu)|].
  - destruct (decide (map_of a ∈ glog g)); [by left|right].
    assert (size (B ∖ glog g) ≠ 0%nat); [|lia]. intros E%size_empty_iff. apply (n). clear -HB E. set_solver.
  - intros [] s' [T' Ht]. split; [|done]. exists (g_free map_of a g). split_and!; [done| |].
    + split; cbn; [done|done| |reflexivity]. intros n. by rewrite elem_of_difference, elem_of_singleton.
    + unfold room, unit_for. cbn [glog gunits g_free]. unfold unit_for. destruct (decide (map_of a ∈ glog g)) as [D|D].
      * rewrite (difference_known (map_of a) B (glog g) D). lia.
      * pose proof (size_difference_one (map_of a) B (glog g) HB D). lia.
Qed.

(** The entry with its first [k] addresses zeroed. *)
Definition cleared_to (k : nat) (e : InodeEntry) : InodeEntry :=
  mkInodeEntry (itype e) (major e) (minor e) (num_links e) (num_bytes e)
    (replicate k 0 ++ drop k (addrs e)) (indirect e).

Lemma cleared_to_0 e : cleared_to 0 e = e.
Proof. by destruct e. Qed.

Lemma cleared_to_S k e : (k < length (addrs e))%nat →
  with_addr k 0 (cleared_to k e) = cleared_to (Datatypes.S k) e.
Proof.
  intros Hk. unfold with_addr, cleared_to. cbn [itype major minor num_links num_bytes addrs indirect]. f_equal.
  destruct (lookup_lt_is_Some_2 _ _ Hk) as [a Ha]. rewrite (drop_S _ _ _ Ha).
  rewrite insert_app_r_alt by by rewrite length_replicate. rewrite length_replicate, Nat.sub_diag. cbn [insert].
  by rewrite replicate_S_end, <-(assoc_L (++)).
Qed.

Lemma cleared_to_skip k e : addrs e !! k = Some 0 → cleared_to (Datatypes.S k) e = cleared_to k e.
Proof.
  intros Ha. unfold cleared_to. f_equal. by rewrite (drop_S _ _ _ Ha), replicate_S_end, <-(assoc_L (++)).
Qed.

Lemma cleared_to_lookup k e : (k ≤ length (addrs e))%nat → addrs (cleared_to k e) !! k = addrs e !! k.
Proof.
  intros Hk. cbn. rewrite lookup_app_r by by rewrite length_replicate. rewrite length_replicate, lookup_drop.
  f_equal. lia.
Qed.

Section clear.
Context (c p : nat) (s0 : I) (i : Inode) (g0 : ghost) (B : gset Z) (m : Z).
Hypothesis Hp : nodes s0 !! p = Some i.
Hypothesis F : file_inv g0 (entry i).
Hypothesis HB : ∀ n, owned g0 (entry i) n → map_of n ∈ B.
Hypothesis Hm : 0 ≤ m.
Abbreviation e0 := (entry i).

(** The blocks of index [lo] up to [hi]. *)
Definition blocks_in (lo hi n : Z) : Prop := n ≠ 0 ∧ ∃ j, lo ≤ j < hi ∧ n = block_of g0 e0 j.

(** After some of the frees: the entry is [e], the blocks [X] are gone. *)
Definition clearing (e : InodeEntry) (X : Z → Prop) (s : I) : Prop :=
  nodes s = entry_set p e (nodes s0) ∧ ilist s = ilist s0 ∧
  ∃ g, tx c (bstore s) g ∧ g_freed X g0 g ∧ room B m g.

Lemma blocks_in_snoc lo k n : lo ≤ k → blocks_in lo (k + 1) n ↔ blocks_in lo k n ∨ n ≠ 0 ∧ n = block_of g0 e0 k.
Proof.
  intros Hk. unfold blocks_in. split.
  - intros (H0 & j & Hj & E). destruct (decide (j = k)) as [->|]; [by right|left]. split; [done|]. exists j. split; [lia|done].
  - intros [(H0 & j & Hj & E)|[H0 E]]; (split; [done|]); [exists j|exists k]; (split; [lia|done]).
Qed.

Lemma block_owned k : in_range k → block_of g0 e0 k ≠ 0 → owned g0 e0 (block_of g0 e0 k).
Proof. intros Hk H0. split; [done|]. right. by exists k. Qed.

Lemma not_in_blocks lo k : 0 ≤ lo → in_range k → block_of g0 e0 k ≠ 0 → ¬ blocks_in lo k (block_of g0 e0 k).
Proof.
  intros Hlo Hk H0 (_ & j & Hj & E). assert (k = j); [|lia]. apply (fi_inj _ _ F); [done| |done|done].
  unfold in_range in *. lia.
Qed.

Lemma clear_direct_spec k s :
  0 ≤ k < INODE_NUM_DIRECT → clearing (cleared_to (Z.to_nat k) e0) (blocks_in 0 k) s →
  wp (clear_direct (Some c) p k) (λ _, clearing (cleared_to (Z.to_nat (k + 1)) e0) (blocks_in 0 (k + 1))) s.
Proof.
  intros Hk (En & El & g & T & Fr & R). unfold clear_direct.
  assert (Hr : in_range k) by (unfold in_range; lconst; lia).
  assert (Hlen : length (addrs e0) = Z.to_nat INODE_NUM_DIRECT) by apply (fi_entry _ _ F).
  pose proof (block_of_direct g0 e0 k Hr (proj2 Hk) (fi_entry _ _ F)) as Ha.
  assert (Hps : nodes s !! p = Some (with_entry (cleared_to (Z.to_nat k) e0) i)) by (rewrite En; by apply lookup_entry_set).
  replace (Z.to_nat (k + 1)) with (Datatypes.S (Z.to_nat k)) by lia.
  apply wp_bind. eapply wp_inode; [done|]. apply wp_bind. cbn [entry with_entry].
  rewrite cleared_to_lookup, Ha by (rewrite Hlen; lia). eapply wp_deref; [done|].
  destruct (block_of g0 e0 k =? 0) eqn:E; cbn [negb]; [apply Z.eqb_eq in E|apply Z.eqb_neq in E].
  - apply wp_ret. rewrite E in Ha. rewrite cleared_to_skip by done. split_and!; [done|done|]. exists g. split_and!; [done| |done].
    eapply g_freed_ext; [done|]. intros n. rewrite blocks_in_snoc by lia. rewrite E. tauto.
  - pose proof (fi_good _ _ F k Hr E) as (Hf & Hu & _). apply wp_bind, wp_lift.
    eapply wp_mono; [eapply (free_spec c (bstore s) g (block_of g0 e0 k) B m)|]; try done.
    + apply (gf_used _ _ _ Fr). split; [done|]. by apply not_in_blocks.
    + by apply HB, block_owned.
    + intros [] st [(g' & T' & Fr' & R') _]. eapply wp_upde; [exact Hps|]. split_and!; [|done|].
      * cbn. rewrite En, entry_set_set. by rewrite cleared_to_S by (rewrite Hlen; lia).
      * exists g'. split_and!; [done| |done]. eapply g_freed_trans; [done..|]. intros n. rewrite blocks_in_snoc by lia.
        split; [tauto|]. intros [?| ->]; [by left|by right].
Qed.

(** The loop over the indirect block, locked. *)
Definition clearing_ind (bp : nat) (X : Z → Prop) (s : I) : Prop :=
  nodes s = entry_set p (cleared_to (Z.to_nat INODE_NUM_DIRECT) e0) (nodes s0) ∧ ilist s = ilist s0 ∧
  hdl (bstore s) bp (indirect e0) ∧
  ∃ g, tx c (bstore s) g ∧ g_freed X (g_acquire (indirect e0) g0) g ∧ room B m g.

Lemma clear_indirect_step bp k s :
  indirect e0 ≠ 0 → 0 ≤ k < INODE_NUM_INDIRECT → clearing_ind bp (blocks_in 0 (INODE_NUM_DIRECT + k)) s →
  wp (d ← lift (bs_load bp); free_if (Some c) (get_addr d k))
     (λ _, clearing_ind bp (blocks_in 0 (INODE_NUM_DIRECT + (k + 1)))) s.
Proof.
  intros Hi Hk (En & El & Hh & g & T & Fr & R). pose proof (fi_ind _ _ F Hi) as (Hif & _ & _).
  apply wp_bind, wp_lift. eexists _, _. split; [by eapply law_load|]. rewrite (gf_view _ _ _ Fr). cbn [gview g_acquire].
  set (j := INODE_NUM_DIRECT + k). replace (INODE_NUM_DIRECT + (k + 1)) with (j + 1) by (unfold j; lia).
  assert (Hr : in_range j) by (unfold in_range, j; lconst; lia).
  assert (Eb : get_addr (gview g0 (indirect e0)) k = block_of g0 e0 j).
  { rewrite block_of_indirect by (unfold j; lia). unfold ind_addr. rewrite (proj2 (Z.eqb_neq _ _)) by done.
    f_equal. unfold j. lia. }
  rewrite Eb. unfold free_if. assert (Hj : 0 ≤ j) by (unfold j; lconst; lia).
  destruct (block_of g0 e0 j =? 0) eqn:E; cbn [negb]; [apply Z.eqb_eq in E|apply Z.eqb_neq in E].
  - apply wp_ret. rewrite mkIState_eta. split_and!; [done..|]. exists g. split_and!; [done| |done].
    eapply g_freed_ext; [done|]. intros n. rewrite blocks_in_snoc by done. rewrite E. tauto.
  - pose proof (fi_good _ _ F j Hr E) as (Hf & Hu & _). apply wp_lift.
    eapply wp_mono; [eapply (free_spec c (bstore s) g (block_of g0 e0 j) B m)|]; try done.
    + apply (gf_used _ _ _ Fr). split; [done|]. by apply not_in_blocks.
    + by apply HB, block_owned.
    + intros [] st [(g' & T' & Fr' & R') Ht]. split_and!; [done|done| |].
      * apply Ht; [|done]. rewrite (gf_held _ _ _ Fr). cbn. by apply elem_of_union_l, elem_of_singleton.
      * exists g'. split_and!; [done| |done]. eapply g_freed_trans; [done..|]. intros n. rewrite blocks_in_snoc by done.
        split; [tauto|]. intros [?| ->]; [by left|by right].
Qed.

(** The entry without contents. *)
Definition cleared (e : InodeEntry) : InodeEntry :=
  mkInodeEntry (itype e) (major e) (minor e) (num_links e) 0 (replicate (Z.to_nat INODE_NUM_DIRECT) 0) 0.

Lemma owned_blocks n : owned g0 e0 n ↔ blocks_in 0 INODE_MAX_BLOCKS n ∨ n ≠ 0 ∧ n = indirect e0.
Proof.
  unfold owned, blocks_in. split.
  - intros [H0 [->|(k & Hk & ->)]]; [by right|left]. split; [done|]. by exists k.
  - intros [(H0 & k & Hk & ->)|[H0 ->]]; (split; [done|]); [right|by left]. by exists k.
Qed.

Lemma no_indirect_blocks n : indirect e0 = 0 → blocks_in 0 INODE_NUM_DIRECT n ↔ owned g0 e0 n.
Proof.
  intros Hi. rewrite owned_blocks, Hi. unfold blocks_in. split.
  - intros (H0 & j & Hj & E). left. split; [done|]. exists j. split; [lconst; lia|done].
  - intros [(H0 & j & Hj & ->)|[? ?]]; [|done]. split; [done|]. exists j. split; [|done].
    destruct (decide (j < INODE_NUM_DIRECT)); [lia|]. exfalso. apply H0. rewrite block_of_indirect by lia.
    unfold ind_addr. by rewrite Hi.
Qed.

Lemma clear_indirect_spec s :
  clearing (cleared_to (Z.to_nat INODE_NUM_DIRECT) e0) (blocks_in 0 INODE_NUM_DIRECT) s →
  wp (clear_indirect (Some c) p)
     (λ _, clearing (with_indirect 0 (cleared_to (Z.to_nat INODE_NUM_DIRECT) e0)) (owned g0 e0)) s.
Proof.
  intros (En & El & g & T & Fr & R). unfold clear_indirect.
  set (e1 := cleared_to (Z.to_nat INODE_NUM_DIRECT) e0) in *.
  assert (Hps : nodes s !! p = Some (with_entry e1 i)) by (rewrite En; by apply lookup_entry_set).
  apply wp_bind. eapply wp_inode; [done|]. cbn [entry with_entry]. cbv zeta. change (indirect e1) with (indirect e0).
  destruct (indirect e0 =? 0) eqn:E; cbn [negb]; [apply Z.eqb_eq in E|apply Z.eqb_neq in E].
  - apply wp_ret. assert (with_indirect 0 e1 = e1) as -> by (unfold with_indirect, e1, cleared_to; cbn; by rewrite E).
    split_and!; [done|done|]. exists g. split_and!; [done| |done].
    eapply g_freed_ext; [done|]. intros n. symmetry. by apply no_indirect_blocks.
  - pose proof (fi_ind _ _ F E) as (Hif & Hiu & Hih).
    assert (Hgood : good g (indirect e0)).
    { split_and!; [done| |by rewrite (gf_held _ _ _ Fr)]. apply (gf_used _ _ _ Fr). split; [done|].
      intros (_ & j & Hj & Ej). apply (fi_ind_ne _ _ F E j); [unfold in_range; lconst; lia|done]. }
    apply wp_bind, wp_lift. eapply wp_mono; [by eapply good_acquire|]. intros bp s2 (T2 & Hb & _).
    apply wp_bind. eapply wp_mono.
    { eapply (wp_for_zseq _ (λ k, clearing_ind bp (blocks_in 0 (INODE_NUM_DIRECT + k)))); [done| |].
      - split_and!; [exact En|exact El|exact Hb|]. eexists. split_and!; [exact T2| |exact R].
        rewrite Z.add_0_r. destruct Fr as [V H U D]. split; cbn; [done|by rewrite H|done|].
        clear -D. set_solver.
      - intros k s' Hk Hs'. by apply clear_indirect_step. }
    intros [] s3 (En3 & El3 & Hh3 & g3 & T3 & Fr3 & R3). change (INODE_NUM_DIRECT + INODE_NUM_INDIRECT) with INODE_MAX_BLOCKS in *.
    apply wp_bind, wp_lift. eapply wp_mono; [eapply law_release; [exact T3|exact Hh3|right]|].
    { intros Hd%(gf_dirty _ _ _ Fr3). cbn in Hd. clear -Hd. set_solver. }
    intros [] s4 [T4 _]. apply wp_bind, wp_lift.
    eapply wp_mono; [eapply (free_spec c s4 _ (indirect e0) B m T4)|]; try done.
    + apply (gf_used _ _ _ Fr3). split; [done|]. intros (_ & j & Hj & Ej). by apply (fi_ind_ne _ _ F E j).
    + apply HB. split; [done|by left].
    + intros [] s5 [(g5 & T5 & Fr5 & R5) _]. eapply wp_upde; [cbn; rewrite En3; by apply lookup_entry_set|].
      split_and!; [cbn; by rewrite En3, entry_set_set|done|]. exists g5. split_and!; [done| |done].
      split.
      * intros n. rewrite (gf_view _ _ _ Fr5). cbn. by rewrite (gf_view _ _ _ Fr3).
      * rewrite (gf_held _ _ _ Fr5). cbn. rewrite (gf_held _ _ _ Fr3). cbn. clear -Hih. set_solver.
      * intros n. rewrite (gf_used _ _ _ Fr5). cbn. rewrite (gf_used _ _ _ Fr3), owned_blocks. cbn. naive_solver.
      * etrans; [apply Fr5|]. cbn. etrans; [apply Fr3|]. cbn. clear. set_solver.
Qed.

(** The contents are gone: the entry is empty, the blocks are free again. *)
Definition emptied (e : InodeEntry) (s : I) : Prop := clearing e (owned g0 e0) s.

Lemma clear_blocks_spec s :
  clearing e0 (λ _, False) s →
  wp (for_each (zseq 0 INODE_NUM_DIRECT) (clear_direct (Some c) p) ;;
      clear_indirect (Some c) p ;;
      upde p (with_num_bytes 0)) (λ _, emptied (cleared e0)) s.
Proof.
  intros C. apply wp_bind. eapply wp_mono.
  { eapply (wp_for_zseq _ (λ k, clearing (cleared_to (Z.to_nat k) e0) (blocks_in 0 k))); [done| |].
    - rewrite cleared_to_0. destruct C as (En & El & g & T & Fr & R). split_and!; [done|done|]. exists g.
      split_and!; [done| |done]. eapply g_freed_ext; [done|]. intros n. split; [|done]. intros (_ & j & Hj & _). lia.
    - intros k s' Hk. by apply clear_direct_spec. }
  intros [] s1 C1. apply wp_bind. eapply wp_mono; [by apply clear_indirect_spec|].
  intros [] s2 (En & El & g & T & Fr & R). eapply wp_upde; [rewrite En; by apply lookup_entry_set|].
  split_and!; [|done|by exists g]. cbn. rewrite En, entry_set_set. f_equal.
  unfold with_num_bytes, with_indirect, cleared_to, cleared. cbn. f_equal.
  rewrite drop_ge by (rewrite (proj1 (proj2 (proj2 (proj2 (proj2 (proj2 (proj2 (fi_entry _ _ F)))))))); done).
  apply app_nil_r.
Qed.

(** The entry [e] is the one of the inode in memory and on disk. *)
Record synced (e : InodeEntry) (k : Z) (s : I) (g : ghost) : Prop := {
  sy_nodes : nodes s = entry_set p e (nodes s0);
  sy_list : ilist s = ilist s0;
  sy_tx : tx c (bstore s) g;
  sy_disk : get_entry (gview g (inode_block i)) (inode_no i) = e;
  sy_view : ∀ n, n ≠ inode_block i → gview g n = gview g0 n;
  sy_used : ∀ n, n ∈ gused g ↔ n ∈ gused g0 ∧ ¬ owned g0 e0 n;
  sy_held : gheld g = gheld g0;
  sy_units : inode_block i ∈ glog g ∧ k ≤ gunits g;
}.

Hypothesis Hvalid : ivalid i = true.
Hypothesis Gi : good g0 (inode_block i).
Hypothesis Hno : ¬ owned g0 e0 (inode_block i).

Lemma sync_entry e s g k :
  nodes s = entry_set p e (nodes s0) → ilist s = ilist s0 → tx c (bstore s) g → inode_ok e → 0 ≤ k →
  (∀ n, n ≠ inode_block i → gview g n = gview g0 n) → (∀ n, n ∈ gused g ↔ n ∈ gused g0 ∧ ¬ owned g0 e0 n) →
  gheld g = gheld g0 → k + unit_for g (inode_block i) ≤ gunits g →
  wp (inode_sync sblock (Some c) p true) (λ _ s', ∃ g', synced e k s' g') s.
Proof.
  intros En El T Hok Hk V U H Hu. destruct Gi as (Gf & Gu & Gh).
  eapply wp_mono.
  { eapply (inode_sync_write c s g p (with_entry e i)); try done.
    - rewrite En. by apply lookup_entry_set.
    - split_and!; [done|by apply U|by rewrite H].
    - unfold unit_for in Hu. change (inode_block (with_entry e i)) with (inode_block i).
      destruct (decide (inode_block i ∈ glog g)); [by left|right; lia]. }
  intros [] s1 (En1 & El1 & T1). change (inode_block (with_entry e i)) with (inode_block i) in T1. eexists. split.
  - congruence.
  - congruence.
  - exact T1.
  - cbn. rewrite fupd_eq. apply get_put_entry; [by eapply law_view_ok|done].
  - intros n Hn. cbn. rewrite fupd_ne by done. by apply V.
  - done.
  - cbn. rewrite H. clear -Gh. apply set_eq. intros x. rewrite elem_of_difference, elem_of_union, elem_of_singleton. naive_solver.
  - split; [cbn; by apply elem_of_union_l, elem_of_singleton|]. cbn. unfold unit_for in *. cbn. lia.
Qed.

Lemma cleared_ok : inode_ok (cleared e0).
Proof.
  destruct (fi_entry _ _ F) as (H1&H2&H3&H4&_). unfold inode_ok, cleared. cbn.
  split_and!; try done. by apply Forall_replicate.
Qed.

Lemma inode_clear_spec s :
  clearing e0 (λ _, False) s → 1 ≤ m →
  wp (inode_clear sblock (Some c) p) (λ _ s', ∃ g', synced (cleared e0) (m - 1) s' g') s.
Proof.
  intros C H1.
  assert (wp ((for_each (zseq 0 INODE_NUM_DIRECT) (clear_direct (Some c) p) ;; clear_indirect (Some c) p ;;
                upde p (with_num_bytes 0)) ;; inode_sync sblock (Some c) p true)
            (λ _ s', ∃ g', synced (cleared e0) (m - 1) s' g') s) as W.
  { apply wp_bind. eapply wp_mono; [by apply clear_blocks_spec|].
    intros [] s1 (En & El & g & T & Fr & R). eapply (sync_entry _ _ g); try done.
    - apply cleared_ok.
    - lia.
    - intros n _. apply (gf_view _ _ _ Fr).
    - exact (gf_used _ _ _ Fr).
    - apply (gf_held _ _ _ Fr).
    - unfold room in R. unfold unit_for. case_decide; lia. }
  revert W. unfold inode_clear. clear. intros (a & s' & E & Q). exists a, s'. split; [|done].
  revert E. rewrite !bind_run. destruct (for_each _ _ s) as [[[] t]|]; [|done]. rewrite !bind_run.
  destruct (clear_indirect _ _ _) as [[[] t1]|]; [|done]. by rewrite bind_run.
Qed.
End clear.

Lemma clearing_start c p (s : I) i g B m :
  tx c (bstore s) g → nodes s !! p = Some i → room B m g → clearing c p s g B m (entry i) (λ _, False) s.
Proof.
  intros T Hp R. split_and!; [by rewrite (entry_set_id p i)|done|]. exists g. split_and!; [done| |done].
  apply g_freed_same, g_same_refl.
Qed.

(** ** Dropping references *)

Lemma synced_node c p (s0 : I) i g0 e k s g :
  nodes s0 !! p = Some i → synced c p s0 i g0 e k s g → nodes s !! p = Some (with_entry e i).
Proof. intros Hp Sy. rewrite (sy_nodes _ _ _ _ _ _ _ _ _ Sy). by apply lookup_entry_set. Qed.

(** A second entry after the first costs no unit: its block is in the log. *)
Lemma synced_again c p (s0 : I) i g0 e e' k s g :
  nodes s0 !! p = Some i → ivalid i = true → good g0 (inode_block i) → ¬ owned g0 (entry i) (inode_block i) →
  synced c p s0 i g0 e k s g → inode_ok e' → 0 ≤ k →
  wp (inode_sync sblock (Some c) p true) (λ _ s', ∃ g', synced c p s0 i g0 e' k s' g')
     (set_nodes (entry_set p e') s).
Proof.
  intros Hp Hv Gi Hno Sy Hok Hk. pose proof Sy as [En El T Hd V U H [Hlog Hu]].
  eapply wp_mono.
  { eapply (inode_sync_write c _ g p (with_entry e' i)); cbn; try done.
    - rewrite En, entry_set_set. by apply lookup_entry_set.
    - destruct Gi as (?&?&?). split_and!; [done|by apply U|by rewrite H].
    - by left. }
  change (inode_block (with_entry e' i)) with (inode_block i).
  intros [] s1 (En1 & El1 & T1). eexists. split.
  - rewrite En1. cbn. by rewrite En, entry_set_set.
  - rewrite El1. exact El.
  - exact T1.
  - cbn. rewrite fupd_eq. apply get_put_entry; [|done]. eapply law_view_ok; [exact T|apply Gi].
  - intros n Hn. cbn. rewrite fupd_ne by done. by apply V.
  - exact U.
  - cbn. rewrite H. destruct Gi as (_ & _ & Gh). apply set_eq. intros x.
    rewrite elem_of_difference, elem_of_union, elem_of_singleton. naive_solver.
  - cbn. split; [by apply elem_of_union_l, elem_of_singleton|]. unfold unit_for. cbn. rewrite decide_True by done. lia.
Qed.

(** What [inode_put] needs to discard the inode. *)
Record can_discard (g : ghost) (i : Inode) (B : gset Z) : Prop := {
  cd_inv : file_inv g (entry i);
  cd_lock : ilock i = 1;
  cd_block : good g (inode_block i);
  cd_own : ¬ owned g (entry i) (inode_block i);
  cd_maps : ∀ n, owned g (entry i) n → map_of n ∈ B;
  cd_room : room B 1 g;
}.

Definition discarded (e : InodeEntry) : InodeEntry := with_itype INODE_INVALID (cleared e).

Lemma discarded_ok e : inode_ok e → inode_ok (discarded e).
Proof.
  intros (H1&H2&H3&H4&_). unfold inode_ok, discarded, cleared. cbn.
  split_and!; try done; by apply Forall_replicate.
Qed.

(** The node, its blocks and the disk after the last reference is gone. *)
Definition was_discarded (c p : nat) (s : I) (g : ghost) (i : Inode) (s' : I) : Prop :=
  nodes s' = alter (λ _, mkInode 1 0 (inode_no i) false (discarded (entry i))) p (nodes s) ∧
  ilist s' = filter (λ q, q ≠ p) (ilist s) ∧
  ∃ g', tx c (bstore s') g' ∧ disk_entry g' (inode_no i) = discarded (entry i) ∧
    (∀ n, n ∈ gused g' ↔ n ∈ gused g ∧ ¬ owned g (entry i) n) ∧
    (∀ n, n ≠ inode_block i → gview g' n = gview g n) ∧ gheld g' = gheld g.

Lemma discard_spec c (s : I) g p i B :
  tx c (bstore s) g → nodes s !! p = Some i → ivalid i = true → rc i = 1 → can_discard g i B →
  wp (inode_lock p ;;
      inode_clear sblock (Some c) p ;;
      upde p (with_itype INODE_INVALID) ;;
      inode_sync sblock (Some c) p true ;;
      updi p (with_ivalid false) ;;
      inode_unlock p ;;
      modify (set_ilist (filter (λ q, q ≠ p))) ;;
      decrement_rc p) (λ _, was_discarded c p s g i) s.
Proof.
  intros T Hp Hv Hrc [F Hlk Gi Hno HB Hroom].
  unfold inode_lock. apply wp_bind, wp_bind. eapply wp_inode; [exact Hp|]. rewrite Hrc, Hlk.
  apply wp_bind, wp_assert; [done|]. cbn. eapply wp_updi; [exact Hp|].
  set (i1 := with_ilock 0 i). set (s1 := set_nodes _ s).
  assert (Hp1 : nodes s1 !! p = Some i1) by by apply lookup_alter_node.
  apply wp_bind. eapply wp_mono.
  { eapply (inode_clear_spec c p s1 i1 g B 1); try done. by apply clearing_start. }
  intros [] s2 (g2 & Sy2). cbn in Sy2.
  assert (Hp2 : nodes s2 !! p = Some (with_entry (cleared (entry i)) i1)) by by eapply (synced_node c p s1).
  apply wp_bind. eapply wp_upde; [exact Hp2|]. cbn [entry with_entry].
  apply wp_bind. eapply wp_mono.
  { eapply (synced_again c p s1 i1 g (cleared (entry i)) (discarded (entry i)) 0); try done. apply discarded_ok, F. }
  intros [] s3 (g3 & Sy3).
  assert (Hp3 : nodes s3 !! p = Some (with_entry (discarded (entry i)) i1)) by by eapply (synced_node c p s1).
  apply wp_bind. eapply wp_updi; [exact Hp3|].
  unfold inode_unlock. apply wp_bind, wp_bind. eapply wp_inode; [by apply lookup_alter_node|].
  cbn. rewrite Hrc. apply wp_bind, wp_assert; [done|]. eapply wp_updi; [by apply lookup_alter_node|].
  apply wp_bind, wp_modify. eapply wp_updi; [by do 2 apply lookup_alter_node|]. cbn.
  pose proof Sy3 as [En El T3 Hd V U H _]. split_and!.
  - cbn. rewrite En. cbn. unfold entry_set. rewrite !list_alter_alter. apply list_eq. intros q.
    destruct (decide (q = p)) as [->|D]; [|by rewrite !list_lookup_alter_ne].
    rewrite !list_lookup_alter_eq, Hp. cbn. by rewrite Hrc.
  - cbn. by rewrite El.
  - exists g3. by split_and!.
Qed.

(** C22: [inode_put] of the last reference to an unlinked inode gives its blocks
    back, marks it free on disk and takes the object out of the table; any
    other call only drops the count. *)
Theorem inode_put_correct c (s : I) g p i B :
  tx c (bstore s) g → nodes s !! p = Some i → ivalid i = true → 0 < rc i < 2 ^ 63 →
  (rc i = 1 → num_links (entry i) = 0 → can_discard g i B) →
  wp (inode_put sblock (Some c) p)
     (λ _ s', if decide (rc i = 1 ∧ num_links (entry i) = 0) then was_discarded c p s g i s'
              else s' = set_nodes (alter (with_rc (rc i - 1)) p) s) s.
Proof.
  intros T Hp Hv Hrc Hd. unfold inode_put. apply wp_bind. eapply wp_inode; [exact Hp|].
  apply wp_bind, wp_assert; [done|].
  destruct (decide (rc i = 1 ∧ num_links (entry i) = 0)) as [[H1 H2]|D].
  - rewrite (proj2 (Z.eqb_eq _ _) H1), (proj2 (Z.eqb_eq _ _) H2). cbn [andb].
    apply (discard_spec c s g p i B); auto.
  - assert ((rc i =? 1) && (num_links (entry i) =? 0) = false) as ->.
    { apply andb_false_iff. rewrite !Z.eqb_neq. destruct (decide (rc i = 1)); [right|left]; tauto. }
    eapply wp_updi; [exact Hp|]. unfold set_nodes. f_equal.
    apply (alter_ext_at _ _ p _ i Hp). by rewrite i64_small by lia.
Qed.

(** ** Removing a name *)

Definition free_dirent : DirEntry := mkDirEntry 0 (replicate (Z.to_nat FILE_NAME_MAX_LENGTH) 0).

Lemma free_dirent_ok : dirent_ok free_dirent.
Proof. unfold dirent_ok, free_dirent, uint. cbn. split_and!; [lia|lia| |done]. by apply Forall_replicate. Qed.

Record can_remove (g : ghost) (i : Inode) (off : Z) : Prop := {
  cr_dir : is_dir g i;
  cr_valid : ivalid i = true;
  cr_held : gheld g ⊆ gused g;
  cr_block : good g (inode_block i);
  cr_own : ¬ owned g (entry i) (inode_block i);
  cr_off : off ∈ dir_offsets (num_bytes (entry i));
  cr_units : 6 ≤ gunits g;
  cr_free : free_blocks g 2;
}.

Lemma inode_remove_spec c (s : I) g p i off :
  tx c (bstore s) g → nodes s !! p = Some i → can_remove g i off →
  wp (inode_remove sblock (Some c) p off)
     (λ _ s', ∃ g' e', nodes s' = entry_set p e' (nodes s) ∧ ilist s' = ilist s ∧ tx c (bstore s') g' ∧
        write_result g i (encode_dirent free_dirent) off g' e') s.
Proof.
  intros T Hp [D Hv Hh Gi Hno Hoff Hu Hfree]. pose proof (dir_file _ _ D) as F.
  pose proof (num_bytes_nonneg _ _ F) as Hn. destruct (dir_offset_bound _ _ Hn (dir_size _ _ D) Hoff) as (Ho & Hle & Hom).
  pose proof (slot_in_block off Ho Hom) as Hsl. pose proof (fi_size _ _ F) as Hmax.
  unfold inode_remove. apply wp_bind. eapply wp_inode; [done|].
  apply wp_bind, wp_assert; [by rewrite (dir_type _ _ D)|]. apply wp_bind.
  change (replicate (Z.to_nat sizeof_DirEntry) 0) with (encode_dirent free_dirent).
  change sizeof_DirEntry with (Z.of_nat (length (encode_dirent free_dirent))) at 1.
  eapply wp_mono.
  { eapply (inode_write_spec c s g p i (encode_dirent free_dirent) off 1); try done.
    - lconst. lia.
    - change (Z.of_nat (length (encode_dirent free_dirent))) with sizeof_DirEntry. lconst. lia.
    - apply (encode_dirent_bytes free_dirent). by apply Forall_replicate. }
  intros r s1 (_ & g1 & e1 & En & El & T1 & W). apply wp_ret. by exists g1, e1.
Qed.

(** A name removed is no longer found, if it had one entry; the others are
    found where they were. *)
Theorem inode_remove_lookup c (s : I) g p i off name :
  tx c (bstore s) g → nodes s !! p = Some i → can_remove g i off →
  readable (Z.to_nat FILE_NAME_MAX_LENGTH) name →
  wp (inode_remove sblock (Some c) p off ;; inode_lookup p name)
     (λ r _, (matches g (entry i) name off = false → r = lookup_spec g (entry i) name) ∧
             ((∀ x, x ∈ dir_offsets (num_bytes (entry i)) → matches g (entry i) name x = true → x = off) → r = None)) s.
Proof.
  intros T Hp CR Hr. apply wp_bind. eapply wp_mono; [by eapply inode_remove_spec|].
  intros [] s1 (g1 & e1 & En & _ & T1 & W). pose proof (cr_dir _ _ _ CR) as D. pose proof (cr_off _ _ _ CR) as Hoff.
  assert (Hs : off ∈ dir_offsets (num_bytes (entry i)) ∨ off = num_bytes (entry i)) by by left.
  assert (D1 := inserted_is_dir g i off free_dirent g1 e1 D free_dirent_ok W Hs).
  assert (Hp1 : nodes s1 !! p = Some (with_entry e1 i)) by (rewrite En; by apply lookup_entry_set).
  eapply wp_mono; [eapply (inode_lookup_spec c s1 s1 g1); [|exact Hp1|exact D1|exact Hr]|].
  { split_and!; [done|done|]. exists g1. split; [done|apply g_same_refl]. }
  intros r s2 [-> _]. cbn [entry with_entry]. split.
  - intros Hm. apply (inserted_other g i off free_dirent g1 e1 D free_dirent_ok W Hs); [by left|done].
  - intros Huniq. unfold lookup_spec. destruct (list_find _ _) as [[k x]|] eqn:E; [|done]. exfalso.
    apply list_find_Some in E as (Hk & Hx & _). apply list_elem_of_lookup_2 in Hk.
    destruct (new_size g i off free_dirent g1 e1 D free_dirent_ok W Hs) as [[Esz _]|[E _]];
      [|by eapply (past_the_end g i off)].
    rewrite Esz in Hk. destruct (decide (x = off)) as [->|Hne].
    + unfold matches in Hx. by rewrite (inserted_at g i off free_dirent g1 e1 D free_dirent_ok W Hs) in Hx.
    + rewrite (find_inserted g i off free_dirent g1 e1 D free_dirent_ok W Hs) in Hx by done. apply Hne. by apply Huniq.
Qed.

End laws.

Module InodeExamples.

(** A disk of 100 blocks with seven inodes in block 4, the bitmap in block 5,
    blocks 0 to 9 in use; inode 1 has its data in block 7. *)
Definition sb : SuperBlock := mkSuperBlock 100 90 7 2 2 4 5.
Abbreviation bitmap0 := AllocExamples.bitmap0.
Definition addrs7 : list Z := 7 :: replicate 11 0.
Definition file1 : InodeEntry := mkInodeEntry INODE_REGULAR 0 0 1 100 addrs7 0.
Definition dir1 : InodeEntry := mkInodeEntry INODE_DIRECTORY 0 0 1 32 addrs7 0.
Definition orphan : InodeEntry := mkInodeEntry INODE_REGULAR 0 0 0 100 addrs7 0.
(** "." and "b". *)
Definition dir_data : list Z :=
  encode_dirent (mkDirEntry 1 (46 :: replicate 13 0)) ++
  encode_dirent (mkDirEntry 2 (98 :: replicate 13 0)) ++ replicate 480 0.
Definition file_data : list Z := zseq 0 100 ++ replicate 412 0.

Definition disk1 (e : InodeEntry) (d : list Z) : gmap Z (list Z) :=
  <[4 := put_entry zero_block 1 e]> (<[5 := bitmap0]> (<[7 := d]> ∅)).
Definition cache1 (e : InodeEntry) (d : list Z) : St :=
  mkSt [] [] (mkLogHeader 0 (replicate 63 0)) (mkLOG false 1 10)
    (replicate 200 false) [mkOpContext 10] (disk1 e d) [].
Definition node1 (e : InodeEntry) : Inode := mkInode 1 1 1 true e.
Definition start (e : InodeEntry) (d : list Z) : IState St := mkIState (cache1 e d) [node1 e] [0%nat].
Definition used0 : gset Z := list_to_set (zseq 0 10).
Definition ghost1 (e : InodeEntry) (d : list Z) : ghost :=
  mkGhost (disk_get (disk1 e d)) ∅ ∅ used0 ∅ 10.

Lemma bitmap_block n : is_bitmap sb n → n = 5.
Proof. intros [H1 H2]. change ((num_blocks sb - 1) / BIT_PER_BLOCK) with 0 in H2. cbn in *. lia. Qed.

Lemma layout7 : layout_ok sb.
Proof. split; [cbn; lconst; lia|cbn; lia|]. intros Hb%bitmap_block. done. Qed.

#[local] Existing Instance cache_store.
#[local] Instance store1 : BlockOps St := cache_store sb.
#[local] Instance laws1 : BlockLaws St := cache_laws sb layout7.

Section start.
Context (e : InodeEntry) (d : list Z).

Lemma start_logok : logok (cache1 e d) ∅ [0%nat].
Proof.
  split.
  - reflexivity.
  - cbn. lconst. lia.
  - apply Forall_replicate. unfold uint. lia.
  - constructor.
  - intros n. unfold logged; cbn. set_solver.
  - apply NoDup_singleton.
  - reflexivity.
  - cbn. lia.
  - intros c ->%list_elem_of_singleton. unfold rm_of, OP_MAX_NUM_BLOCKS; cbn; lia.
  - reflexivity.
  - cbn. lconst. lia.
Qed.

Lemma in_used0 n : n ∈ used0 ↔ 0 ≤ n < 10.
Proof. unfold used0. by rewrite elem_of_list_to_set, elem_of_zseq. Qed.

Lemma start_used n : 0 ≤ n < 100 → used sb (disk_get (disk1 e d)) n = (n <? 10).
Proof.
  intros Hn. assert (E : used sb (disk_get (disk1 e d)) n = used sb (λ _, bitmap0) n).
  { unfold used, BBLOCK. change (bitmap_start sb) with 5. unfold BIT_PER_BLOCK.
    assert (n / (BLOCK_SIZE * 8) = 0) as -> by (apply Z.div_small; lconst; lia). reflexivity. }
  rewrite E. apply eqb_prop. revert n Hn E. intros n Hn _.
  apply (AllocExamples.below 0 100 (λ x, eqb (used sb (λ _, bitmap0) x) (x <? 10))); [|done].
  vm_compute. reflexivity.
Qed.

Lemma good_low n : n ∈ [1; 3; 4; 6; 7; 8; 9] → good (ghost1 e d) n.
Proof.
  intros Hn. split_and!; [|by apply in_used0; set_unfold in Hn; lia|apply not_elem_of_empty].
  split_and!; [set_unfold in Hn; cbn; lia|set_unfold in Hn; cbn; lia|set_unfold in Hn; cbn; lia|].
  intros ->%bitmap_block. set_unfold in Hn. lia.
Qed.

Lemma start_free : free_blocks (ghost1 e d) 2.
Proof.
  exists {[20; 21]}. split; [|done]. intros n Hn. split.
  - split_and!; [set_unfold in Hn; cbn; lia..|]. intros ->%bitmap_block. set_unfold in Hn. lia.
  - cbn. rewrite in_used0. set_unfold in Hn. lia.
Qed.
Hypothesis He : inode_ok e.
Hypothesis Hd : block_ok d.

Lemma start_repr : repr (log_start sb) (cache1 e d) (disk_get (disk1 e d)) ∅ ∅.
Proof.
  apply booted_repr. split_and!; [done|done|]. intros n bs. cbn [disk cache1]. unfold disk1.
  rewrite !lookup_insert_Some. intros [[_ <-]|[_ [[_ <-]|[_ [[_ <-]|[_ Hx]]]]]].
  - apply put_entry_ok; [|done]. split; [reflexivity|]. apply Forall_replicate. unfold byte_ok. lia.
  - exact AllocExamples.bitmap0_ok.
  - exact Hd.
  - done.
Qed.

Lemma start_tx : tx 0 (cache1 e d) (ghost1 e d).
Proof.
  exists (disk_get (disk1 e d)), [0%nat]. split; cbn; try done.
  - exact start_repr.
  - exact start_logok.
  - by apply list_elem_of_here.
  - intros n. rewrite in_used0. split.
    + intros Hn. split; [lia|]. rewrite start_used by lia. apply Z.ltb_lt. lia.
    + intros [Hn Hu]. rewrite start_used in Hu by lia. apply Z.ltb_lt in Hu. lia.
  - intros n Hn Hf. rewrite start_used by done. apply Z.ltb_lt. destruct (decide (n < 10)); [done|].
    exfalso. apply Hf. split_and!; [lia|cbn; lia|cbn; lia|]. intros ->%bitmap_block. lia.
Qed.
End start.

(** Both files have their one block, 7. *)
Lemma block_of_start e d k : addrs e = addrs7 → indirect e = 0 → in_range k →
  block_of (ghost1 e d) e k = if decide (k = 0) then 7 else 0.
Proof.
  intros Ha Hi Hk. unfold block_of, ind_addr. rewrite Ha, Hi. case_decide as D; [by subst|].
  destruct (k <? INODE_NUM_DIRECT) eqn:E; [|done]. apply Z.ltb_lt in E. unfold in_range in Hk. lconst.
  unfold addrs7. rewrite lookup_cons_ne_0 by lia. rewrite lookup_replicate_2 by lia. done.
Qed.

Lemma start_file e d : inode_ok e → addrs e = addrs7 → indirect e = 0 → 0 < num_bytes e ≤ BLOCK_SIZE →
  file_inv (ghost1 e d) e.
Proof.
  intros He Ha Hi Hn. pose proof (λ k, block_of_start e d k Ha Hi) as E. split; try done.
  - lconst. lia.
  - intros k Hk. rewrite E by done. case_decide; [|done]. intros _. apply good_low. set_solver.
  - intros j k Hj Hk. rewrite !E by done. repeat case_decide; by subst.
  - intros x Hx. rewrite E by (unfold in_range; lconst; split; [apply Z.div_pos; lia|apply Z.div_lt_upper_bound; lia]).
    rewrite decide_True; [done|]. apply Z.div_small. lia.
Qed.

Lemma start_not_owned e d : addrs e = addrs7 → indirect e = 0 → ¬ owned (ghost1 e d) e 4.
Proof.
  intros Ha Hi [_ [H|(k & Hk & H)]]; [congruence|]. rewrite block_of_start in H by done. by case_decide.
Qed.

Lemma addrs7_ok : Forall (uint 4) addrs7 ∧ length addrs7 = Z.to_nat INODE_NUM_DIRECT.
Proof. split; [|reflexivity]. repeat constructor; unfold uint; lia. Qed.

Lemma file1_ok : inode_ok file1.
Proof. unfold inode_ok. cbn. split_and!; first [apply addrs7_ok|unfold uint; lconst; lia|by vm_compute]. Qed.
Lemma dir1_ok : inode_ok dir1.
Proof. unfold inode_ok. cbn. split_and!; first [apply addrs7_ok|unfold uint; lconst; lia|by vm_compute]. Qed.
Lemma orphan_ok : inode_ok orphan.
Proof. unfold inode_ok. cbn. split_and!; first [apply addrs7_ok|unfold uint; lconst; lia|by vm_compute]. Qed.

Lemma bytes_by_compute l : forallb (λ x, (0 <=? x) && (x <? 256)) l = true → Forall byte_ok l.
Proof. rewrite forallb_forall, Forall_forall. intros H x Hx%list_elem_of_In%H. unfold byte_ok. lia. Qed.

Lemma file_data_ok : block_ok file_data.
Proof. split; [vm_compute; reflexivity|]. apply bytes_by_compute. vm_compute. reflexivity. Qed.
Lemma dir_data_ok : block_ok dir_data.
Proof. split; [vm_compute; reflexivity|]. apply bytes_by_compute. vm_compute. reflexivity. Qed.

Lemma inode_read_correct_witness :
  wp (inode_read 0 90 50)
     (λ r s', r = (zseq 90 100, 0) ∧
        unchanged 0 (start file1 file_data) (ghost1 file1 file_data) s') (start file1 file_data).
Proof.
  pose proof (inode_read_correct 0 (start file1 file_data) (ghost1 file1 file_data) 0 (node1 file1) 90 50
    (start_tx file1 file_data file1_ok file_data_ok) eq_refl
    (start_file file1 file_data file1_ok eq_refl eq_refl ltac:(cbn; lconst; lia)) ltac:(cbn; lia) ltac:(lia)) as T.
  assert (E : file_byte (ghost1 file1 file_data) (entry (node1 file1)) <$>
              zseq 90 (Z.min (90 + 50) (num_bytes (entry (node1 file1)))) = zseq 90 100) by (vm_compute; reflexivity).
  rewrite E in T. exact T.
Defined.

Abbreviation fstart := (start file1 file_data).
Abbreviation fghost := (ghost1 file1 file_data).
Abbreviation dstart := (start dir1 dir_data).
Abbreviation dghost := (ghost1 dir1 dir_data).

Lemma fstart_tx : tx 0 (bstore fstart) fghost.
Proof. exact (start_tx file1 file_data file1_ok file_data_ok). Qed.
Lemma dstart_tx : tx 0 (bstore dstart) dghost.
Proof. exact (start_tx dir1 dir_data dir1_ok dir_data_ok). Qed.
Lemma fstart_file : file_inv fghost file1.
Proof. apply start_file; [exact file1_ok|done|done|cbn; lconst; lia]. Qed.
Lemma inode_block_good e d : good (ghost1 e d) (inode_block sb (node1 e)).
Proof. apply (good_low e d 4). set_solver. Qed.
Lemma dir1_is_dir : is_dir dghost (node1 dir1).
Proof.
  split; [|reflexivity|reflexivity]. apply start_file; [exact dir1_ok|done|done|cbn; lconst; lia].
Qed.

Lemma inode_write_correct_witness :
  wp (inode_write sb (Some 0%nat) 0 [1; 2; 3] 100 3)
     (λ r s', r = 3 ∧ ∃ g' e', nodes s' = entry_set 0 e' (nodes fstart) ∧ ilist s' = ilist fstart ∧
        tx 0 (bstore s') g' ∧ write_result sb fghost (node1 file1) [1; 2; 3] 100 g' e') fstart.
Proof.
  apply (inode_write_correct sb 0 fstart fghost 0 (node1 file1) [1; 2; 3] 100 1 fstart_tx eq_refl eq_refl
    fstart_file (empty_subseteq _) (inode_block_good _ _) (start_not_owned file1 file_data eq_refl eq_refl)).
  - cbn. lia.
  - by vm_compute.
  - repeat constructor; unfold byte_ok; lia.
  - by vm_compute.
  - by vm_compute.
  - by vm_compute.
  - apply start_free.
Defined.

Lemma inode_write_read_witness :
  wp (inode_write sb (Some 0%nat) 0 [1; 2; 3] 100 3 ;; inode_read 0 100 3) (λ r _, r = ([1; 2; 3], 0)) fstart.
Proof.
  apply (inode_write_read sb 0 fstart fghost 0 (node1 file1) [1; 2; 3] 100 1 fstart_tx eq_refl eq_refl
    fstart_file (empty_subseteq _) (inode_block_good _ _) (start_not_owned file1 file_data eq_refl eq_refl)).
  - cbn. lia.
  - by vm_compute.
  - repeat constructor; unfold byte_ok; lia.
  - by vm_compute.
  - by vm_compute.
  - by vm_compute.
  - apply start_free.
Defined.

(** The name "ab" as number 3, then looking up "ab". *)
Definition name_ab : list Z := [97; 98; 0].

Lemma inode_insert_lookup_witness :
  wp (off ← inode_insert sb (Some 0%nat) 0 name_ab 3; r ← inode_lookup 0 name_ab; mret (off, r))
     (λ x _, x.2 = Some (3, x.1)) dstart.
Proof.
  eapply wp_mono; [apply (inode_insert_lookup sb 0 dstart dghost 0 (node1 dir1) name_ab 3 name_ab dstart_tx eq_refl)|].
  - split; cbn; try done; try lia.
    + exact dir1_is_dir.
    + apply inode_block_good.
    + by apply start_not_owned.
    + split; [right; set_solver|repeat constructor; unfold byte_ok; lia].
    + apply start_free.
  - vm_compute. reflexivity.
  - right. set_solver.
  - intros x s' Hx. cbv beta in Hx. rewrite decide_True in Hx by done. exact Hx.
Defined.

Lemma inode_remove_lookup_witness :
  wp (inode_remove sb (Some 0%nat) 0 16 ;; inode_lookup 0 [98; 0])
     (λ r _, (matches dghost dir1 [98; 0] 16 = false → r = lookup_spec dghost dir1 [98; 0]) ∧
             ((∀ x, x ∈ dir_offsets 32 → matches dghost dir1 [98; 0] x = true → x = 16) → r = None)) dstart.
Proof.
  apply (inode_remove_lookup sb 0 dstart dghost 0 (node1 dir1) 16 [98; 0] dstart_tx eq_refl).
  - split; cbn; try done; try lia.
    + exact dir1_is_dir.
    + apply inode_block_good.
    + by apply start_not_owned.
    + apply list_elem_of_In. vm_compute. auto.
    + apply start_free.
  - right. set_solver.
Defined.

Lemma inode_sync_roundtrip_witness :
  wp (inode_sync sb (Some 0%nat) 0 true ;;
      updi 0 (with_ivalid false) ;; upde 0 (λ _, zero_entry) ;;
      inode_sync sb (Some 0%nat) 0 false) (λ _ s', nodes s' = nodes fstart) fstart.
Proof.
  apply (inode_sync_roundtrip sb 0 fstart fghost 0 (node1 file1) fstart_tx eq_refl eq_refl file1_ok
    (inode_block_good _ _)).
  right. cbn. lia.
Defined.

Lemma start_inodes e d : inodes_ok sb (ghost1 e d).
Proof.
  split; [|unfold uint; cbn; lia..]. intros no Hno. cbn in Hno.
  assert (to_block_no sb no = 4) as ->; [|apply good_low; set_solver].
  unfold to_block_no, INODE_PER_BLOCK. cbn [inode_start sb]. lconst. change (512 / 64) with 8.
  by rewrite Z.div_small by lia.
Qed.

Lemma inode_alloc_correct_witness :
  wp (inode_alloc sb (Some 0%nat) INODE_REGULAR)
     (λ r s', r = 2 ∧ nodes s' = nodes fstart ∧ ilist s' = ilist fstart ∧ ∃ g', tx 0 (bstore s') g' ∧
        inodes_ok sb g' ∧ gunits fghost - 1 ≤ gunits g' ∧ gused g' = gused fghost ∧
        ∀ m, 0 ≤ m ≤ 7 →
          disk_entry sb g' m = if decide (m = 2) then with_itype INODE_REGULAR zero_entry else disk_entry sb fghost m)
     fstart.
Proof.
  apply (inode_alloc_correct sb 0 fstart fghost 2 INODE_REGULAR fstart_tx (start_inodes _ _)).
  - split_and!; [cbn; lia|cbn; lia|vm_compute; reflexivity|]. intros m Hm. assert (m = 1) as -> by lia.
    vm_compute. discriminate.
  - done.
  - unfold uint, INODE_REGULAR. cbn. lia.
  - cbn. lia.
Defined.

Lemma start_table e d : table_ok (start e d).
Proof.
  split; cbn.
  - intros p ->%list_elem_of_singleton. exists (node1 e). cbn. split_and!; [done|lia|lia].
  - intros p q i j ->%list_elem_of_singleton ->%list_elem_of_singleton. done.
Qed.

(** Inode 1 is live; inode 3 is not. *)
Lemma inode_get_correct_witness :
  wp (inode_get sb 1) (λ p s', table_ok s' ∧ p ∈ ilist s' ∧ (∃ g', tx 0 (bstore s') g' ∧ g_same fghost g') ∧
        got_live fstart 1 p s') fstart ∧
  wp (inode_get sb 3) (λ p s', table_ok s' ∧ p ∈ ilist s' ∧ (∃ g', tx 0 (bstore s') g' ∧ g_same fghost g') ∧
        got_fresh sb fstart fghost 3 p s') fstart.
Proof.
  assert (Hrc : ∀ p i, nodes fstart !! p = Some i → rc i < 2 ^ 63 - 1).
  { intros [|p] i; cbn; [|done]. intros [= <-]. cbn. lia. }
  split.
  - apply (inode_get_correct sb 0 fstart fghost 1 fstart_tx (start_table _ _)); [|cbn; lia|exact Hrc].
    apply (io_good sb _ (start_inodes _ _) 1). cbn. lia.
  - apply (inode_get_correct sb 0 fstart fghost 3 fstart_tx (start_table _ _)); [|cbn; lia|exact Hrc].
    apply (io_good sb _ (start_inodes _ _) 3). cbn. lia.
Defined.

Abbreviation ostart := (start orphan file_data).
Abbreviation oghost := (ghost1 orphan file_data).

Lemma inode_put_correct_witness :
  wp (inode_put sb (Some 0%nat) 0)
     (λ _, was_discarded sb 0 0 ostart oghost (node1 orphan)) ostart ∧
  wp (inode_put sb (Some 0%nat) 0) (λ _ s', s' = set_nodes (alter (with_rc 0) 0%nat) fstart) fstart.
Proof.
  split.
  - apply (inode_put_correct sb 0 ostart oghost 0 (node1 orphan) {[5]}); [|done|done|cbn; lia|].
    + exact (start_tx orphan file_data orphan_ok file_data_ok).
    + intros _ _. split.
      * apply start_file; [exact orphan_ok|done|done|cbn; lconst; lia].
      * done.
      * apply inode_block_good.
      * by apply start_not_owned.
      * intros n [_ [->|(k & Hk & ->)]]; [by vm_compute|]. rewrite block_of_start by done.
        case_decide; by vm_compute.
      * by vm_compute.
  - apply (inode_put_correct sb 0 fstart fghost 0 (node1 file1) ∅ fstart_tx); [done|done|cbn; lia|].
    intros _ [=].
Defined.

End InodeExamples.
