(* ===== verification/Mkfs.v ===== *)
(** * The file system image builder

    [src/user/mkfs/main.c], the host program that writes the first disk image.
    The image file is the list of its sectors: every access is one whole
    sector.  The host's calls succeed, except that a read past the end of the
    image and an input file that cannot be opened stop the program ([exit(1)],
    the outcome [Panicked], as a failed [assert] is); an input file is its path
    and the results of the calls of [read].  The host is little endian, as the
    image is; what is printed is left out.

    The theorems say what the image holds, in the terms of the kernel's inode
    layer: [mkfs_correct] is about the image, [image_mounts] about the cache
    and the inodes on it. *)

From S2P Require Import Prelude FsLayout CString BlockCache FsLog BlockAlloc BlockStore Inode.

Definition FSSIZE : Z := 1000.
Definition NINODES : Z := 200.
Definition nbitmap : Z := FSSIZE / (BLOCK_SIZE * 8) + 1.
Definition ninodeblocks : Z := NINODES / INODE_PER_BLOCK + 1.
Definition num_log_blocks : Z := LOG_MAX_SIZE.
Definition nmeta : Z := 2 + num_log_blocks + ninodeblocks + nbitmap.
Definition num_data_blocks : Z := FSSIZE - nmeta.

Record mkfs : Type := mkMkfs { img : list (list Z); sb : SuperBlock; freeinode : Z; freeblock : Z }.
Record host_file : Type := mkHost { h_path : list Z; h_reads : option (list (list Z)) }.

Definition set_img (x : list (list Z)) (s : mkfs) : mkfs := mkMkfs x s.(sb) s.(freeinode) s.(freeblock).
Definition set_sb (x : SuperBlock) (s : mkfs) : mkfs := mkMkfs s.(img) x s.(freeinode) s.(freeblock).
Definition set_freeinode (x : Z) (s : mkfs) : mkfs := mkMkfs s.(img) s.(sb) x s.(freeblock).
Definition set_freeblock (x : Z) (s : mkfs) : mkfs := mkMkfs s.(img) s.(sb) s.(freeinode) x.

Abbreviation MK := (M mkfs).

(** Little-endian bytes, read again on a little-endian host. *)
Definition xshort (x : Z) : Z := le_value (le_bytes 2 x).
Definition xint (x : Z) : Z := le_value (le_bytes 4 x).

(** [lseek] to [sec * BSIZE], an unsigned product; a write past the end leaves a hole of zeroes. *)
Definition sector_of (sec : Z) : nat := Z.to_nat (u32 (sec * BLOCK_SIZE) / BLOCK_SIZE).
Definition put_sector (i : nat) (buf : list Z) (l : list (list Z)) : list (list Z) :=
  if decide (i < length l)%nat then <[i := buf]> l else l ++ replicate (i - length l) zero_block ++ [buf].
Definition wsect (sec : Z) (buf : list Z) : MK unit := modify (λ s, set_img (put_sector (sector_of sec) buf s.(img)) s).
Definition rsect (sec : Z) : MK (list Z) :=
  l ← gets img;
  match l !! sector_of sec with Some buf => mret buf | None => panic end.

Definition IBLOCK (i : Z) (x : SuperBlock) : Z := u32 (i / INODE_PER_BLOCK + x.(inode_start)).
Definition winode (inum : Z) (e : InodeEntry) : MK unit :=
  x ← gets sb;
  buf ← rsect (IBLOCK inum x);
  wsect (IBLOCK inum x) (put_entry buf inum e).
Definition rinode (inum : Z) : MK InodeEntry :=
  x ← gets sb;
  buf ← rsect (IBLOCK inum x);
  mret (get_entry buf inum).

Definition ialloc (type : Z) : MK Z :=
  inum ← gets freeinode;
  modify (set_freeinode (u32 (inum + 1))) ;;
  winode inum (mkInodeEntry (xshort type) 0 0 (xshort 1) (xint 0) (replicate (Z.to_nat INODE_NUM_DIRECT) 0) 0) ;;
  mret inum.

Definition balloc (used : Z) : MK unit :=
  assert_ (used <? BLOCK_SIZE * 8) ;;
  x ← gets sb;
  wsect x.(bitmap_start) (foldl set_bit zero_block (zseq 0 used)).

(** [freeblock++] *)
Definition take_block : MK Z := b ← gets freeblock; modify (set_freeblock (u32 (b + 1))) ;; mret b.

(** The block [fbn] of the file with entry [e], allocated if there is none. *)
Definition iappend_block (e : InodeEntry) (fbn : Z) : MK (Z * InodeEntry) :=
  if fbn <? INODE_NUM_DIRECT then
    a ← deref (e.(addrs) !! Z.to_nat fbn);
    e ← (if xint a =? 0 then b ← take_block; mret (with_addr (Z.to_nat fbn) (xint b) e) else mret e);
    a ← deref (e.(addrs) !! Z.to_nat fbn);
    mret (xint a, e)
  else
    let k := fbn - INODE_NUM_DIRECT in
    e ← (if xint e.(indirect) =? 0 then b ← take_block; mret (with_indirect (xint b) e) else mret e);
    ind ← rsect (xint e.(indirect));
    ind ← (if get_addr ind k =? 0
           then b ← take_block; wsect (xint e.(indirect)) (put_addr ind k (xint b)) ;; mret (put_addr ind k (xint b))
           else mret ind);
    mret (xint (get_addr ind k), e).

Fixpoint iappend_loop (fuel : nat) (e : InodeEntry) (off : Z) (p : list Z) : MK (InodeEntry * Z) :=
  match fuel with
  | O => fail OutOfFuel
  | S fuel =>
      if bool_decide (p = []) then mret (e, off)
      else
        let fbn := off / BLOCK_SIZE in
        assert_ (fbn <? INODE_MAX_BLOCKS) ;;
        '(x, e) ← iappend_block e fbn;
        let n1 := Z.min (Z.of_nat (length p)) (u32 ((fbn + 1) * BLOCK_SIZE - off)) in
        buf ← rsect x;
        wsect x (splice buf (Z.to_nat (off - fbn * BLOCK_SIZE)) (take (Z.to_nat n1) p)) ;;
        iappend_loop fuel e (u32 (off + n1)) (drop (Z.to_nat n1) p)
  end.
(** Each turn of the loop copies a byte at least. *)
Definition iappend (inum : Z) (p : list Z) : MK unit :=
  din ← rinode inum;
  '(din, off) ← iappend_loop (S (length p)) din (xint din.(num_bytes)) p;
  winode inum (with_num_bytes (xint off) din).

(** The part of a path after its last slash, counted by the loop of [main]. *)
Definition name_tail (path : list Z) : list Z :=
  let j := foldl (λ j c, (if c =? 47 then -1 else j) + 1) 0 path in
  drop (Z.to_nat (Z.of_nat (length path) - j)) path.
Definition skip_underscore (name : list Z) : list Z :=
  match name with c :: name' => if c =? 95 then name' else name | [] => [] end.
Definition dirent_bytes (inum : Z) (name : list Z) : list Z :=
  encode_dirent (mkDirEntry (xshort inum) (cpad (Z.to_nat FILE_NAME_MAX_LENGTH) name)).

Definition add_file (root : Z) (f : host_file) : MK unit :=
  let name := name_tail f.(h_path) in
  assert_ (negb (bool_decide (47 ∈ name))) ;;
  match f.(h_reads) with
  | None => panic
  | Some chunks =>
      inum ← ialloc INODE_REGULAR;
      iappend root (dirent_bytes inum (skip_underscore name)) ;;
      for_each chunks (iappend inum)
  end.

(** The size of the root directory is moved up to a whole block. *)
Definition fix_root (root : Z) : MK unit :=
  din ← rinode root;
  winode root (with_num_bytes (xint (u32 ((xint din.(num_bytes) / BLOCK_SIZE + 1) * BLOCK_SIZE))) din).

Definition super : SuperBlock :=
  mkSuperBlock (xint FSSIZE) (xint num_data_blocks) (xint NINODES) (xint num_log_blocks) (xint 2) (xint (2 + num_log_blocks))
    (xint (2 + num_log_blocks + ninodeblocks)).
Definition encode_super (x : SuperBlock) : list Z :=
  le_array 4 [x.(num_blocks); x.(FsLayout.num_data_blocks); x.(num_inodes); x.(FsLayout.num_log_blocks); x.(log_start);
    x.(inode_start); x.(bitmap_start)].
(** [get_super_block] of [fs/block_device.c], on the sector read from the card. *)
Definition get_super_block (d : list Z) : SuperBlock :=
  match le_unarray 4 7 d with
  | [a; b; c; d; e; f; g] => mkSuperBlock a b c d e f g
  | _ => mkSuperBlock 0 0 0 0 0 0 0
  end.

Definition main (files : list host_file) : MK unit :=
  modify (set_sb super) ;;
  modify (set_freeblock (u32 nmeta)) ;;
  for_each (zseq 0 FSSIZE) (λ i, wsect i zero_block) ;;
  wsect 1 (splice zero_block 0 (encode_super super)) ;;
  rootino ← ialloc INODE_DIRECTORY;
  assert_ (rootino =? ROOT_INODE_NO) ;;
  iappend rootino (dirent_bytes rootino [46]) ;;
  iappend rootino (dirent_bytes rootino [46; 46]) ;;
  for_each files (add_file rootino) ;;
  fix_root rootino ;;
  b ← gets freeblock;
  balloc (i32 b).

(** The program starts with an empty image. *)
Definition fresh : mkfs := mkMkfs [] (mkSuperBlock 0 0 0 0 0 0 0) 1 0.

#[global] Arguments FSSIZE : simpl never.
#[global] Arguments nmeta : simpl never.
Lemma FSSIZE_eq : FSSIZE = 1000. Proof. reflexivity. Qed.
Lemma nmeta_eq : nmeta = 92. Proof. reflexivity. Qed.
Ltac mkconst := rewrite ?FSSIZE_eq, ?nmeta_eq in *; lconst.

(** ** The image as a map of sectors *)

Definition view (l : list (list Z)) (n : Z) : list Z := default zero_block (l !! Z.to_nat n).

Lemma xint_small x : uint 4 x → xint x = x.
Proof. apply le_value_bytes. Qed.
Lemma xshort_small x : uint 2 x → xshort x = x.
Proof. apply le_value_bytes. Qed.

Lemma sector_of_small n : 0 ≤ n < FSSIZE → sector_of n = Z.to_nat n.
Proof. intros Hn. mkconst. unfold sector_of. lconst. rewrite u32_small by lia. by rewrite Z.div_mul by lia. Qed.

Lemma view_insert l n d m : 0 ≤ n < FSSIZE → 0 ≤ m → length l = Z.to_nat FSSIZE →
  view (<[Z.to_nat n := d]> l) m = if decide (m = n) then d else view l m.
Proof.
  intros Hn Hm Hl. mkconst. unfold view. case_decide; [subst; by rewrite list_lookup_insert_eq by lia|].
  by rewrite list_lookup_insert_ne by lia.
Qed.

Lemma rsect_run s n : 0 ≤ n < FSSIZE → length s.(img) = Z.to_nat FSSIZE → rsect n s = Ok (view s.(img) n, s).
Proof.
  intros Hn Hl. mkconst. unfold rsect, view. rewrite (bind_Ok (gets img) _ s s.(img) s eq_refl). rewrite sector_of_small by (mkconst; lia).
  by destruct (lookup_lt_is_Some_2 s.(img) (Z.to_nat n) ltac:(lia)) as [b ->].
Qed.

Lemma wsect_run s n d : 0 ≤ n < FSSIZE → length s.(img) = Z.to_nat FSSIZE →
  wsect n d s = Ok (tt, set_img (<[Z.to_nat n := d]> s.(img)) s).
Proof.
  intros Hn Hl. mkconst. unfold wsect, modify, put_sector. rewrite sector_of_small by (mkconst; lia).
  by rewrite decide_True by lia.
Qed.

(** Blocks of a file, in terms of the sectors only. *)
Definition ghost_of (v : Z → list Z) : ghost := mkGhost v ∅ ∅ ∅ ∅ 0.
Definition blk (l : list (list Z)) (e : InodeEntry) (k : Z) : Z := block_of (ghost_of (view l)) e k.
Definition slot (l : list (list Z)) (e : InodeEntry) (k : Z) : Z := if k =? -1 then indirect e else blk l e k.

Lemma blk_direct l e k : k < INODE_NUM_DIRECT → blk l e k = default 0 (addrs e !! Z.to_nat k).
Proof. intros Hk. unfold blk, block_of. by rewrite (proj2 (Z.ltb_lt _ _)). Qed.
Lemma blk_indirect l e k : INODE_NUM_DIRECT ≤ k →
  blk l e k = if indirect e =? 0 then 0 else get_addr (view l (indirect e)) (k - INODE_NUM_DIRECT).
Proof. intros Hk. unfold blk. by rewrite block_of_indirect. Qed.

(** Only the sector of the indirect block matters. *)
Lemma blk_ext l l' e k : (indirect e ≠ 0 → view l' (indirect e) = view l (indirect e)) → blk l' e k = blk l e k.
Proof.
  intros H. destruct (decide (k < INODE_NUM_DIRECT)); [by rewrite !blk_direct|]. rewrite !blk_indirect by lia.
  destruct (Z.eqb_spec (indirect e) 0); [done|]. by rewrite H.
Qed.
Lemma blk_entry l e e' k : addrs e' = addrs e → indirect e' = indirect e → blk l e' k = blk l e k.
Proof. intros E1 E2. unfold blk, block_of, ind_addr. by rewrite E1, E2. Qed.

(** ** Files *)

(** A file of the image: its entry, type and bytes, and how many blocks it has. *)
Record afile : Type := mkAfile { a_entry : InodeEntry; a_type : Z; a_data : list Z; a_nb : Z }.

Record file_at (l : list (list Z)) (f : afile) : Prop := {
  fa_ok : inode_ok f.(a_entry);
  fa_type : itype f.(a_entry) = f.(a_type) ∧ num_links f.(a_entry) = 1;
  fa_nb : 0 ≤ f.(a_nb) ≤ INODE_MAX_BLOCKS;
  fa_len : Z.of_nat (length f.(a_data)) ≤ f.(a_nb) * BLOCK_SIZE;
  fa_map : ∀ k, in_range k → blk l f.(a_entry) k ≠ 0 ↔ k < f.(a_nb);
  fa_ind : indirect f.(a_entry) ≠ 0 ↔ INODE_NUM_DIRECT < f.(a_nb);
  fa_bytes : ∀ x, 0 ≤ x < f.(a_nb) * BLOCK_SIZE →
    byte_at (view l (blk l f.(a_entry) (x / BLOCK_SIZE))) (x mod BLOCK_SIZE) = nth (Z.to_nat x) f.(a_data) 0;
}.

(** The blocks a file of [nb] blocks takes, that of its indirect block included. *)
Definition need (nb : Z) : Z := nb + if INODE_NUM_DIRECT <? nb then 1 else 0.
Definition total (fs : list afile) : Z := foldr (λ f n, need f.(a_nb) + n) 0 fs.

Definition slot_range (k : Z) : Prop := -1 ≤ k < INODE_MAX_BLOCKS.
Record disk_ok (l : list (list Z)) (fb : Z) (fs : list afile) : Prop := {
  d_len : length l = Z.to_nat FSSIZE;
  d_bytes : Forall block_ok l;
  d_fb : nmeta ≤ fb ≤ FSSIZE;
  d_file : ∀ i f, fs !! i = Some f → file_at l f;
  d_slot : ∀ i f k, fs !! i = Some f → slot_range k → slot l f.(a_entry) k ≠ 0 → nmeta ≤ slot l f.(a_entry) k < fb;
  d_inj : ∀ i j f f' k k', fs !! i = Some f → fs !! j = Some f' → slot_range k → slot_range k' →
    slot l f.(a_entry) k ≠ 0 → slot l f.(a_entry) k = slot l f'.(a_entry) k' → i = j ∧ k = k';
  d_zero : ∀ n, fb ≤ n < FSSIZE → view l n = zero_block;
  d_count : fb = nmeta + total fs;
}.

Lemma view_ok l n : Forall block_ok l → block_ok (view l n).
Proof.
  intros H. unfold view. destruct (l !! Z.to_nat n) as [b|] eqn:E; [|apply zero_block_ok]. by eapply Forall_lookup_1 in E.
Qed.

Lemma total_cons f fs : total (f :: fs) = need f.(a_nb) + total fs.
Proof. done. Qed.
Lemma total_insert fs i f f' : fs !! i = Some f → total (<[i := f']> fs) = total fs - need f.(a_nb) + need f'.(a_nb).
Proof.
  revert i. induction fs as [|g fs IH]; intros [|i] H; try done.
  - injection H as ->. change (<[0%nat := f']> (f :: fs)) with (f' :: fs). rewrite !total_cons. lia.
  - change (<[S i := f']> (g :: fs)) with (g :: <[i := f']> fs). rewrite !total_cons, (IH i) by done. lia.
Qed.
Lemma total_app fs gs : total (fs ++ gs) = total fs + total gs.
Proof. induction fs as [|g fs IH]; [done|]. rewrite <-app_comm_cons, !total_cons, IH. lia. Qed.

Lemma slot_direct l e k : in_range k → slot l e k = blk l e k.
Proof. intros [Hk _]. unfold slot. by rewrite (proj2 (Z.eqb_neq _ _)) by lia. Qed.
Lemma slot_ind l e : slot l e (-1) = indirect e.
Proof. done. Qed.
Lemma in_slot k : in_range k → slot_range k.
Proof. intros [? ?]. split; lia. Qed.

Lemma byte_at_zero i : byte_at zero_block i = 0.
Proof. unfold byte_at, zero_block. rewrite nth_lookup. destruct (_ !! _) eqn:E; [by apply lookup_replicate in E as [-> _]|done]. Qed.
Lemma nth_beyond (d : list Z) x : Z.of_nat (length d) ≤ x → nth (Z.to_nat x) d 0 = 0.
Proof. intros H. apply nth_overflow. lia. Qed.
Lemma byte_block x : 0 ≤ x → x / BLOCK_SIZE * BLOCK_SIZE ≤ x < (x / BLOCK_SIZE + 1) * BLOCK_SIZE.
Proof. intros Hx. lconst. pose proof (Z.div_mod x 512 ltac:(lia)). pose proof (Z.mod_pos_bound x 512 ltac:(lia)). lia. Qed.

(** *** One more block for a file *)

Section growing.
Context (l l' : list (list Z)) (fb fb' nf : Z) (fs : list afile) (i : nat) (f : afile) (e' : InodeEntry).
Hypothesis D : disk_ok l fb fs.
Hypothesis Hi : fs !! i = Some f.
Hypothesis Hk : f.(a_nb) < INODE_MAX_BLOCKS.
Hypothesis Hl : length l' = Z.to_nat FSSIZE.
Hypothesis Hb : Forall block_ok l'.
Hypothesis He : inode_ok e'.
Hypothesis Ht : itype e' = itype f.(a_entry) ∧ num_links e' = num_links f.(a_entry).
Hypothesis B : ∀ j, in_range j → blk l' e' j = if decide (j = f.(a_nb)) then nf else blk l f.(a_entry) j.
Hypothesis V : ∀ n, 0 ≤ n → f.(a_nb) < INODE_NUM_DIRECT ∨ n ≠ indirect e' → view l' n = view l n.
Hypothesis N1 : f.(a_nb) = INODE_NUM_DIRECT → indirect e' = fb ∧ nf = fb + 1 ∧ fb' = fb + 2.
Hypothesis N2 : f.(a_nb) ≠ INODE_NUM_DIRECT → indirect e' = indirect f.(a_entry) ∧ nf = fb ∧ fb' = fb + 1.
Hypothesis Hroom : fb' ≤ FSSIZE.

Definition grown : afile := mkAfile e' f.(a_type) f.(a_data) (f.(a_nb) + 1).
Abbreviation F := (d_file _ _ _ D i f Hi).
Abbreviation k := (f.(a_nb)).
Ltac cases_N := destruct (decide (k = INODE_NUM_DIRECT)) as [E|E]; [destruct (N1 E) as (E1 & E2 & E3)|destruct (N2 E) as (E1 & E2 & E3)].

Lemma grow_new : nmeta ≤ fb ∧ fb ≤ nf < fb' ∧ (indirect e' = nf → False) ∧ nmeta ≤ nf.
Proof.
  pose proof (d_fb _ _ _ D). cases_N; [lia|].
  split_and!; [lia..| |lia]. intros Ei. assert (Hnz : slot l f.(a_entry) (-1) ≠ 0) by (rewrite slot_ind; mkconst; lia).
  pose proof (d_slot _ _ _ D i f (-1) Hi ltac:(split; mkconst; lia) Hnz) as Hs. rewrite slot_ind in Hs. lia.
Qed.

(** Blocks other than the indirect block of the file keep their contents. *)
Lemma grow_view j g q : fs !! j = Some g → slot_range q → slot l g.(a_entry) q ≠ 0 → j ≠ i ∨ q ≠ -1 →
  view l' (slot l g.(a_entry) q) = view l (slot l g.(a_entry) q).
Proof.
  intros Hj Hq Hs Hne. pose proof (d_slot _ _ _ D j g q Hj Hq Hs) as Hr. apply V; [mkconst; lia|].
  destruct (decide (k < INODE_NUM_DIRECT)) as [|Hd]; [by left|right]. intros Eq.
  cases_N; [lia|].
  assert (Hn : slot l f.(a_entry) (-1) ≠ 0) by (rewrite slot_ind; apply F; lia).
  destruct (d_inj _ _ _ D i j f g (-1) q Hi Hj ltac:(split; mkconst; lia) Hq Hn) as [-> <-]; [rewrite slot_ind; congruence|].
  by destruct Hne.
Qed.

Lemma grow_blk j g q : j ≠ i → fs !! j = Some g → blk l' g.(a_entry) q = blk l g.(a_entry) q.
Proof.
  intros Hj Hg. apply blk_ext. intros Hn. rewrite <-(slot_ind l). apply (grow_view j); [done|split; mkconst; lia|by rewrite slot_ind|by left].
Qed.

Lemma grow_slot q : slot_range q → slot l' e' q =
  if decide (q = k) then nf else if decide (q = -1 ∧ k = INODE_NUM_DIRECT) then fb else slot l f.(a_entry) q.
Proof.
  intros Hq. pose proof (fa_nb _ _ F) as Hnb. destruct (decide (q = -1)) as [->|Hne].
  - rewrite decide_False by lia. rewrite !slot_ind. cases_N.
    + by rewrite decide_True.
    + by rewrite decide_False by tauto.
  - assert (Hr : in_range q) by (split; destruct Hq; lia). rewrite (decide_False (P := _ ∧ _)) by tauto.
    rewrite !slot_direct by done. by apply B.
Qed.

Lemma grow_file : file_at l' grown.
Proof.
  pose proof F as X. pose proof (fa_nb _ _ X) as Hnb. pose proof (fa_len _ _ X) as Hlen. pose proof grow_new as (Hn0 & Hn1 & Hn2 & Hn3).
  split; cbn; [done|destruct Ht as [-> ->]; apply X|lia|lconst; lia| | |].
  - intros j Hj. rewrite B by done. destruct (decide (j = k)) as [E|E]; [split; [lia|intros _; mkconst; lia]|]. rewrite (fa_map _ _ X j Hj). lia.
  - cases_N; rewrite E1; [mkconst; lia|].
    rewrite (fa_ind _ _ X). lconst. lia.
  - intros x Hx. pose proof (byte_block x ltac:(lia)) as Hbx. assert (Hr : in_range (x / BLOCK_SIZE)) by (split; lconst; lia).
    rewrite B by done. destruct (decide (x / BLOCK_SIZE = k)) as [E|E].
    + rewrite V; [|mkconst; lia|right; congruence]. rewrite (d_zero _ _ _ D) by lia. rewrite byte_at_zero, nth_beyond; [done|lia].
    + rewrite <-(fa_bytes _ _ X) by (lconst; lia). f_equal. rewrite <-slot_direct by done.
      apply (grow_view i f); [done|by apply in_slot| |right; destruct Hr; lia]. rewrite slot_direct by done. apply (fa_map _ _ X); [done|lconst; lia].
Qed.

Lemma grow_inserted j g : <[i := grown]> fs !! j = Some g → (j = i ∧ g = grown) ∨ (j ≠ i ∧ fs !! j = Some g).
Proof.
  destruct (decide (j = i)) as [->|]; [|rewrite list_lookup_insert_ne by done; by right].
  rewrite list_lookup_insert_eq by by eapply lookup_lt_Some. intros [= <-]. by left.
Qed.

Lemma grow_other j g q : j ≠ i → fs !! j = Some g → slot l' g.(a_entry) q = slot l g.(a_entry) q.
Proof. intros Hj Hg. unfold slot. destruct (q =? -1); [done|]. by apply (grow_blk j). Qed.
Lemma grow_other_file j g : j ≠ i → fs !! j = Some g → file_at l' g.
Proof.
  intros Hj Hg. pose proof (d_file _ _ _ D j g Hg) as X. pose proof (grow_blk j g) as Bg.
  split; try apply X.
  - intros q Hq. rewrite Bg by done. by apply X.
  - intros x Hx. rewrite Bg by done. rewrite <-(fa_bytes _ _ X) by done. pose proof (byte_block x ltac:(lia)) as Hbx.
    pose proof (fa_nb _ _ X) as Hnb. assert (Hr : in_range (x / BLOCK_SIZE)) by (split; lconst; lia). f_equal.
    rewrite <-slot_direct by done. apply (grow_view j g); [done|by apply in_slot| |by left].
    rewrite slot_direct by done. apply (fa_map _ _ X); [done|lconst; lia].
Qed.

Lemma grow : disk_ok l' fb' (<[i := grown]> fs).
Proof.
  pose proof grow_new as (Hn0 & Hn1 & Hn2 & Hn3). pose proof (d_fb _ _ _ D) as Hfb. pose proof (fa_nb _ _ F) as Hnb.
  assert (Hold : ∀ q, slot_range q → slot l f.(a_entry) q ≠ 0 → slot l f.(a_entry) q < fb) by (intros; by eapply d_slot).
  split; [done|done|lia| | | | |].
  - intros j g [[-> ->]|[Hj Hg]]%grow_inserted; [apply grow_file|by apply (grow_other_file j)].
  - intros j g q [[-> ->]|[Hj Hg]]%grow_inserted Hq.
    + cbn. rewrite grow_slot by done. intros Hne. repeat case_decide; [lia|lia|]. pose proof (d_slot _ _ _ D i f q Hi Hq Hne). lia.
    + rewrite (grow_other j) by done. intros Hne. pose proof (d_slot _ _ _ D j g q Hg Hq Hne). lia.
  - intros a b g g' q q' [[-> ->]|[Ha Hg]]%grow_inserted [[-> ->]|[Hc Hg']]%grow_inserted Hq Hq'; cbn;
      rewrite ?grow_slot, ?(grow_other a g), ?(grow_other b g') by done; intros Hne.
    + split; [done|]. pose proof (Hold q Hq). pose proof (Hold q' Hq'). pose proof (d_inj _ _ _ D i i f f q q' Hi Hi Hq Hq') as J.
      cases_N; repeat case_decide; try lia; apply J; lia.
    + intros E. assert (Hne' : slot l g'.(a_entry) q' ≠ 0) by congruence. pose proof (d_slot _ _ _ D b g' q' Hg' Hq' Hne').
      repeat case_decide; [lia|lia|]. by destruct (d_inj _ _ _ D i b f g' q q' Hi Hg' Hq Hq').
    + pose proof (d_slot _ _ _ D a g q Hg Hq Hne). repeat case_decide; [lia|lia|]. intros E. by destruct (d_inj _ _ _ D a i g f q q' Hg Hi Hq Hq').
    + intros E. by apply (d_inj _ _ _ D a b g g').
  - intros n Hn. rewrite V; [apply D; lia|mkconst; lia|]. right.
    cases_N; [lia|].
    intros ->. rewrite E1 in Hn. pose proof (Hold (-1) ltac:(split; mkconst; lia)) as H1. rewrite slot_ind in H1. mkconst. lia.
  - rewrite (total_insert _ i f) by done. cbn. pose proof (d_count _ _ _ D). unfold need in *. cases_N; lconst;
      
    destruct (Z.ltb_spec 12 k), (Z.ltb_spec 12 (k + 1)); try lia.
Qed.
End growing.

(** *** Steps that allocate nothing *)

Lemma disk_ok_step l l' fb fs fs' : disk_ok l fb fs → length l' = Z.to_nat FSSIZE → Forall block_ok l' →
  (∀ n, fb ≤ n < FSSIZE → view l' n = view l n) → total fs' = total fs →
  (∀ j g', fs' !! j = Some g' → file_at l' g' ∧
     ∃ g, fs !! j = Some g ∧ ∀ q, slot_range q → slot l' g'.(a_entry) q = slot l g.(a_entry) q) →
  disk_ok l' fb fs'.
Proof.
  intros D Hl Hb Hz Ht H. split; [done|done|apply D| | | | |].
  - intros j g' Hg. by apply H in Hg as [? _].
  - intros j g' q Hg Hq. destruct (H j g' Hg) as (_ & g & Hg0 & E). rewrite E by done. by apply (d_slot _ _ _ D j).
  - intros a b g g' q q' Hg Hg' Hq Hq'. destruct (H a g Hg) as (_ & h & Hh & E). destruct (H b g' Hg') as (_ & h' & Hh' & E').
    rewrite E, E' by done. by apply (d_inj _ _ _ D a b).
  - intros n Hn. rewrite Hz by done. by apply D.
  - rewrite Ht. apply D.
Qed.

Lemma file_at_ext l l' f : file_at l f → (∀ k, in_range k → blk l' f.(a_entry) k = blk l f.(a_entry) k) →
  (∀ k, in_range k → blk l f.(a_entry) k ≠ 0 → view l' (blk l f.(a_entry) k) = view l (blk l f.(a_entry) k)) → file_at l' f.
Proof.
  intros X Hb Hv. pose proof (fa_nb _ _ X) as Hnb. split; try apply X.
  - intros k Hk. rewrite Hb by done. by apply X.
  - intros x Hx. pose proof (byte_block x ltac:(lia)) as Hbx. assert (Hr : in_range (x / BLOCK_SIZE)) by (split; lconst; lia).
    rewrite Hb, Hv by (try apply (fa_map _ _ X); try done; lconst; lia). by apply X.
Qed.

Lemma slot_blk l l' e e' : indirect e' = indirect e → (∀ k, in_range k → blk l' e' k = blk l e k) →
  ∀ q, slot_range q → slot l' e' q = slot l e q.
Proof.
  intros Hi Hb q [Hq1 Hq2]. unfold slot. destruct (Z.eqb_spec q (-1)); [done|]. apply Hb. split; lia.
Qed.

(** Sectors no file uses may change. *)
Lemma disk_ok_low l l' fb fs : disk_ok l fb fs → length l' = Z.to_nat FSSIZE → Forall block_ok l' →
  (∀ n, nmeta ≤ n < FSSIZE → view l' n = view l n) → disk_ok l' fb fs.
Proof.
  intros D Hl Hb Hv. pose proof (d_fb _ _ _ D) as Hfb. apply (disk_ok_step l l' fb fs); [done..|intros; apply Hv; lia|done|].
  intros j g Hg. pose proof (d_slot _ _ _ D j g) as S.
  assert (E : ∀ k, in_range k → blk l' g.(a_entry) k = blk l g.(a_entry) k).
  { intros k Hk. apply blk_ext. intros Hn. apply Hv. specialize (S (-1) Hg ltac:(split; mkconst; lia)). rewrite slot_ind in S. lia. }
  split; [|exists g; split; [done|by apply slot_blk]].
  apply (file_at_ext l); [by eapply d_file|done|]. intros k Hk Hn. apply Hv. rewrite <-slot_direct in * by done.
  specialize (S k Hg (in_slot k Hk) Hn). lia.
Qed.

Lemma same_blocks l e e' : addrs e' = addrs e → indirect e' = indirect e → ∀ q, slot l e' q = slot l e q.
Proof. intros E1 E2 q. unfold slot. by rewrite E2, (blk_entry l e). Qed.

(** The fields of an entry other than its blocks may change. *)
Lemma disk_ok_entry l fb fs i f e' : disk_ok l fb fs → fs !! i = Some f → inode_ok e' → addrs e' = addrs f.(a_entry) →
  indirect e' = indirect f.(a_entry) → itype e' = itype f.(a_entry) → num_links e' = num_links f.(a_entry) →
  disk_ok l fb (<[i := mkAfile e' f.(a_type) f.(a_data) f.(a_nb)]> fs).
Proof.
  intros D Hi He E1 E2 E3 E4. apply (disk_ok_step l l fb fs); [done|apply D|apply D|done|by rewrite (total_insert _ i f) by done; cbn; lia|].
  intros j g' [(<- & <- & _)|[Hj Hg]]%list_lookup_insert_Some.
  - pose proof (d_file _ _ _ D i f Hi) as X. split; [|exists f; split; [done|intros; by apply same_blocks]].
    pose proof (blk_entry l f.(a_entry) e') as Bk. split; cbn; [done|rewrite E3, E4; apply X|apply X|apply X| |rewrite E2; apply X|].
    + intros k Hk. rewrite Bk by done. by apply X.
    + intros x Hx. rewrite Bk by done. by apply X.
  - split; [by eapply d_file|]. by exists g'.
Qed.

(** A new file has no blocks. *)
Definition new_entry (ty : Z) : InodeEntry := mkInodeEntry ty 0 0 1 0 (replicate (Z.to_nat INODE_NUM_DIRECT) 0) 0.
Lemma new_slot l ty q : slot l (new_entry ty) q = 0.
Proof.
  unfold slot. destruct (q =? -1); [done|]. destruct (decide (q < INODE_NUM_DIRECT)); [|by rewrite blk_indirect by lia].
  rewrite blk_direct by done. cbn. by destruct (_ !! _) eqn:E; [apply lookup_replicate in E as [-> _]|].
Qed.
Lemma new_entry_ok ty : uint 2 ty → inode_ok (new_entry ty).
Proof.
  intros Hty. unfold inode_ok, uint in *. cbn -[replicate Z.to_nat]. split_and!; try lia; [|apply length_replicate]. apply Forall_replicate. lia.
Qed.

Lemma disk_ok_new l fb fs ty : disk_ok l fb fs → uint 2 ty → disk_ok l fb (fs ++ [mkAfile (new_entry ty) ty [] 0]).
Proof.
  intros D Hty. assert (Hcases : ∀ j g, (fs ++ [mkAfile (new_entry ty) ty [] 0]) !! j = Some g → fs !! j = Some g ∨ g = mkAfile (new_entry ty) ty [] 0).
  { intros j g [H|[_ H]]%lookup_app_Some; [by left|right]. by apply list_lookup_singleton_Some in H as [_ <-]. }
  split; [apply D|apply D|apply D| | | |apply D|].
  - intros j g [Hg| ->]%Hcases; [by eapply d_file|]. split; cbn; [by apply new_entry_ok|done|lconst; lia|lconst; lia| | |lia].
    + intros k Hk. rewrite <-slot_direct, new_slot by done. destruct Hk. lia.
    + lconst. lia.
  - intros j g q [Hg| ->]%Hcases Hq; [by eapply d_slot|]. cbn. by rewrite new_slot.
  - intros a b g g' q q' Hg Hg' Hq Hq' Hn E. pose proof Hn as Hn'. rewrite E in Hn'.
    apply Hcases in Hg as [Hg| ->]; [|by (cbn in Hn; rewrite new_slot in Hn)]. apply Hcases in Hg' as [Hg'| ->]; [|by (cbn in Hn'; rewrite new_slot in Hn')].
    by eapply (d_inj _ _ _ D a b).
  - pose proof (d_count _ _ _ D). rewrite total_app. change (total [_]) with 0. lia.
Qed.

(** *** Bytes at the end of a file *)

Section storing.
Context (l : list (list Z)) (fb : Z) (fs : list afile) (i : nat) (f : afile) (k r : Z) (w : list Z).
Hypothesis D : disk_ok l fb fs.
Hypothesis Hi : fs !! i = Some f.
Hypothesis Hk : in_range k ∧ k < f.(a_nb).
Hypothesis Hr : 0 ≤ r ∧ Z.of_nat (length f.(a_data)) = k * BLOCK_SIZE + r ∧ r + Z.of_nat (length w) ≤ BLOCK_SIZE.
Hypothesis Hw : Forall byte_ok w.
Abbreviation x := (blk l f.(a_entry) k).
Definition stored : list (list Z) := <[Z.to_nat x := splice (view l x) (Z.to_nat r) w]> l.
Definition longer : afile := mkAfile f.(a_entry) f.(a_type) (f.(a_data) ++ w) f.(a_nb).

Lemma store_at : slot l f.(a_entry) k = x ∧ x ≠ 0 ∧ nmeta ≤ x < fb ∧ fb ≤ FSSIZE.
Proof.
  destruct Hk as [Hk1 Hk2]. assert (Hn : x ≠ 0) by by apply (fa_map _ _ (d_file _ _ _ D i f Hi)).
  split; [by apply slot_direct|]. split; [done|]. rewrite <-slot_direct in * by done.
  split; [by apply (d_slot _ _ _ D i f k Hi (in_slot k Hk1))|apply D].
Qed.

Lemma store_view m : 0 ≤ m → view stored m = if decide (m = x) then splice (view l x) (Z.to_nat r) w else view l m.
Proof. intros Hm. pose proof store_at as (_ & _ & ? & ?). apply view_insert; [mkconst; lia|done|apply D]. Qed.

Lemma store_hit j g q : fs !! j = Some g → slot_range q → slot l g.(a_entry) q ≠ 0 → slot l g.(a_entry) q = x → j = i ∧ q = k.
Proof.
  intros Hg Hq Hn E. pose proof store_at as (Ex & Hx & _). rewrite <-Ex in E.
  by destruct (d_inj _ _ _ D j i g f q k Hg Hi Hq (in_slot k (proj1 Hk)) Hn E) as [-> ->].
Qed.

Lemma store_keep j g q : fs !! j = Some g → slot_range q → slot l g.(a_entry) q ≠ 0 → j ≠ i ∨ q ≠ k →
  view stored (slot l g.(a_entry) q) = view l (slot l g.(a_entry) q).
Proof.
  intros Hg Hq Hn Hne. pose proof (d_slot _ _ _ D j g q Hg Hq Hn). rewrite store_view by (mkconst; lia). rewrite decide_False; [done|].
  intros E. destruct (store_hit j g q Hg Hq Hn E) as [-> ->]. by destruct Hne.
Qed.

Lemma store_blk j g q : fs !! j = Some g → blk stored g.(a_entry) q = blk l g.(a_entry) q.
Proof.
  intros Hg. apply blk_ext. intros Hn. rewrite <-(slot_ind l). apply (store_keep j); [done|split; mkconst; lia|by rewrite slot_ind|].
  right. destruct Hk as [[? _] _]. lia.
Qed.

Lemma store_byte y : 0 ≤ y < f.(a_nb) * BLOCK_SIZE → blk l f.(a_entry) (y / BLOCK_SIZE) ≠ 0 →
  byte_at (view stored (blk l f.(a_entry) (y / BLOCK_SIZE))) (y mod BLOCK_SIZE) = nth (Z.to_nat y) (f.(a_data) ++ w) 0.
Proof.
  intros Hy Hn. pose proof (fa_nb _ _ (d_file _ _ _ D i f Hi)) as Hnb. pose proof (byte_block y ltac:(lia)) as Hb.
  pose proof (fa_bytes _ _ (d_file _ _ _ D i f Hi) y Hy) as E. assert (Hq : in_range (y / BLOCK_SIZE)) by (split; lconst; lia).
  assert (Em : y = y / BLOCK_SIZE * BLOCK_SIZE + y mod BLOCK_SIZE) by (lconst; pose proof (Z.div_mod y 512 ltac:(lia)); lia).
  assert (Hm : 0 ≤ y mod BLOCK_SIZE < BLOCK_SIZE) by (apply Z.mod_pos_bound; lconst; lia).
  assert (Hlv : length (view l x) = Z.to_nat BLOCK_SIZE) by apply view_ok, D.
  destruct (decide (y / BLOCK_SIZE = k)) as [Ek|Ek].
  - rewrite Ek in *. rewrite store_view, decide_True by (done || pose proof store_at; mkconst; lia).
    rewrite splice_byte by (rewrite Hlv; lia). rewrite E. case_decide as Hc.
    + rewrite app_nth2 by lia. f_equal. lia.
    + destruct (decide (y < Z.of_nat (length f.(a_data)))); [by rewrite app_nth1 by lia|].
      rewrite nth_beyond, nth_beyond; [done|rewrite length_app; lia|lia].
  - rewrite <-slot_direct in * by done. rewrite (store_keep i f) by (done || (by apply in_slot) || by right). rewrite E.
    destruct (decide (y < Z.of_nat (length f.(a_data)))); [by rewrite app_nth1 by lia|].
    rewrite nth_beyond, nth_beyond; [done|rewrite length_app; lconst; lia|lia].
Qed.

Lemma store_disk : disk_ok stored fb (<[i := longer]> fs).
Proof.
  pose proof store_at as (_ & _ & Hx & Hfb). destruct Hk as [Hk1 Hk2].
  apply (disk_ok_step l stored fb fs); [done| | | |by rewrite (total_insert _ i f) by done; cbn; lia|].
  - unfold stored. rewrite length_insert. apply D.
  - apply Forall_insert; [apply D|]. apply splice_block_ok; [apply view_ok, D|done|lia].
  - intros n Hn. rewrite store_view by (mkconst; lia). rewrite decide_False by lia. done.
  - intros j g' [(<- & <- & _)|[Hj Hg]]%list_lookup_insert_Some.
    + pose proof (d_file _ _ _ D i f Hi) as X. pose proof (store_blk i f) as Bk. split.
      * split; cbn; try apply X; [rewrite length_app; lconst; lia| |].
        { intros q Hq. rewrite Bk by done. by apply X. }
        { intros y Hy. rewrite Bk by done. apply store_byte; [done|]. pose proof (byte_block y ltac:(lia)).
          pose proof (fa_nb _ _ X). apply (fa_map _ _ X); [split; lconst; lia|lconst; lia]. }
      * exists f. split; [done|]. apply slot_blk; [done|]. intros; by apply Bk.
    + pose proof (store_blk j g') as Bk. split.
      * apply (file_at_ext l); [by eapply d_file|intros; by apply Bk|]. intros q Hq Hn. rewrite <-slot_direct in * by done.
        apply (store_keep j); [done|by apply in_slot|done|by left].
      * exists g'. split; [done|]. apply slot_blk; [done|]. intros; by apply Bk.
Qed.
End storing.

(** ** The routines *)

(** What a routine that works on files leaves alone. *)
Record kept (s s' : mkfs) : Prop := {
  k_sb : s'.(sb) = s.(sb);
  k_next : s'.(freeinode) = s.(freeinode);
  k_low : ∀ n, 0 ≤ n < nmeta → view s'.(img) n = view s.(img) n;
}.
Lemma kept_refl s : kept s s.
Proof. done. Qed.
Lemma kept_trans s1 s2 s3 : kept s1 s2 → kept s2 s3 → kept s1 s3.
Proof. intros [A1 A2 A3] [B1 B2 B3]. split; [congruence..|]. intros n Hn. by rewrite B3, A3. Qed.

Lemma take_block_run s : 0 ≤ s.(freeblock) ≤ FSSIZE → take_block s = Ok (s.(freeblock), set_freeblock (s.(freeblock) + 1) s).
Proof. intros H. unfold take_block. rewrite bind_run. cbn. mkconst. by rewrite u32_small by lia. Qed.

Lemma small_uint n : 0 ≤ n ≤ FSSIZE + 1 → uint 4 n.
Proof. mkconst. unfold uint. lia. Qed.

Lemma direct_addr l f k : file_at l f → in_range k → k < INODE_NUM_DIRECT → addrs f.(a_entry) !! Z.to_nat k = Some (blk l f.(a_entry) k).
Proof. intros X Hk Hd. apply block_of_direct; [done|done|apply X]. Qed.
Lemma blk_uint l fb fs i f k : disk_ok l fb fs → fs !! i = Some f → in_range k → uint 4 (blk l f.(a_entry) k).
Proof.
  intros D Hi Hk. pose proof (d_fb _ _ _ D). pose proof (d_slot _ _ _ D i f k Hi (in_slot k Hk)) as S. rewrite slot_direct in S by done.
  apply small_uint. mkconst. destruct (decide (blk l f.(a_entry) k = 0)) as [->|Hn]; [|specialize (S Hn)]; lia.
Qed.
Lemma ind_range l fb fs i f : disk_ok l fb fs → fs !! i = Some f → indirect f.(a_entry) ≠ 0 → nmeta ≤ indirect f.(a_entry) < fb.
Proof. intros D Hi Hn. apply (d_slot _ _ _ D i f (-1)); [done|split; mkconst; lia|done]. Qed.

Lemma room_need nb : 0 ≤ nb < INODE_MAX_BLOCKS → need (nb + 1) = need nb + if decide (nb = INODE_NUM_DIRECT) then 2 else 1.
Proof.
  intros Hn. unfold need. lconst. destruct (Z.ltb_spec 12 nb), (Z.ltb_spec 12 (nb + 1)), (decide (nb = 12)); lia.
Qed.

Section block.
Context (s : mkfs) (fs : list afile) (i : nat) (f : afile).
Hypothesis D : disk_ok s.(img) s.(freeblock) fs.
Hypothesis Hi : fs !! i = Some f.
Abbreviation l := (s.(img)).
Abbreviation nb := (f.(a_nb)).
Abbreviation e := (f.(a_entry)).
Abbreviation F := (d_file _ _ _ D i f Hi).

(** The block is there. *)
Lemma iappend_block_old k : in_range k → k < nb → iappend_block e k s = Ok ((blk l e k, e), s).
Proof.
  intros Hk Hn. pose proof (proj2 (fa_map _ _ F k Hk) Hn) as Hne. pose proof (blk_uint l _ fs i f k D Hi Hk) as Hu.
  unfold iappend_block. destruct (Z.ltb_spec k INODE_NUM_DIRECT) as [Hd|Hd].
  - rewrite (direct_addr l f k F Hk Hd). rewrite (bind_Ok (deref (Some _)) _ s (blk l e k) s eq_refl). rewrite xint_small by done.
    rewrite (proj2 (Z.eqb_neq _ _)) by done. rewrite (bind_Ok (mret e) _ s e s eq_refl). rewrite (direct_addr l f k F Hk Hd).
    rewrite (bind_Ok (deref (Some _)) _ s (blk l e k) s eq_refl). by rewrite xint_small.
  - assert (Hin : indirect e ≠ 0) by (apply (fa_ind _ _ F); lia). pose proof (ind_range l _ fs i f D Hi Hin) as Hr.
    pose proof (d_fb _ _ _ D) as Hfb. rewrite (xint_small (indirect e)) by (apply small_uint; mkconst; lia).
    rewrite (proj2 (Z.eqb_neq _ _)) by done. rewrite (bind_Ok (mret e) _ s e s eq_refl).
    rewrite (xint_small (indirect e)) by (apply small_uint; mkconst; lia).
    rewrite (bind_Ok _ _ s _ s (rsect_run s (indirect e) ltac:(mkconst; lia) (d_len _ _ _ D))).
    pose proof (blk_indirect l e k Hd) as Eb. rewrite (proj2 (Z.eqb_neq _ _)) in Eb by done. rewrite <-Eb.
    rewrite (proj2 (Z.eqb_neq _ _)) by done. rewrite (bind_Ok (mret (view l (indirect e))) _ s (view l (indirect e)) s eq_refl). rewrite <-Eb. by rewrite xint_small.
Qed.

(** A new direct block. *)
Lemma iappend_block_direct : nb < INODE_NUM_DIRECT → s.(freeblock) + 1 ≤ FSSIZE →
  let e' := with_addr (Z.to_nat nb) s.(freeblock) e in
  iappend_block e nb s = Ok ((s.(freeblock), e'), set_freeblock (s.(freeblock) + 1) s) ∧
  blk l e' nb = s.(freeblock) ∧
  disk_ok l (s.(freeblock) + 1) (<[i := grown f e']> fs).
Proof.
  intros Hd Hroom e'. pose proof F as X. pose proof (fa_nb _ _ X) as Hnb. pose proof (d_fb _ _ _ D) as Hfb.
  assert (Hk : in_range nb) by (split; mkconst; lia). pose proof (direct_addr l f nb X Hk Hd) as Ha.
  assert (H0 : blk l e nb = 0) by (destruct (decide (blk l e nb = 0)) as [|Hn]; [done|]; apply (fa_map _ _ X) in Hn; [lia|done]).
  rewrite H0 in Ha. pose proof (lookup_lt_Some _ _ _ Ha) as Hlt.
  assert (B : ∀ j, in_range j → blk l e' j = if decide (j = nb) then s.(freeblock) else blk l e j).
  { intros j [Hj0 Hj]. case_decide as E; [subst j|].
    - rewrite blk_direct by done. cbn. by rewrite list_lookup_insert_eq.
    - destruct (decide (j < INODE_NUM_DIRECT)); [|by rewrite !blk_indirect by lia].
      rewrite !blk_direct by done. cbn. by rewrite list_lookup_insert_ne by lia. }
  split; [|split].
  - unfold iappend_block. rewrite (proj2 (Z.ltb_lt _ _)) by done. rewrite Ha. rewrite (bind_Ok (deref (Some _)) _ s 0 s eq_refl).
    rewrite xint_small, Z.eqb_refl by (apply small_uint; mkconst; lia). rewrite bind_run, (bind_Ok _ _ s _ _ (take_block_run s ltac:(mkconst; lia))).
    cbn -[xint]. rewrite list_lookup_insert_eq by done. cbn -[xint]. rewrite (xint_small s.(freeblock)) by (apply small_uint; mkconst; lia).
    rewrite (bind_Ok (mret s.(freeblock)) _ _ s.(freeblock) _ eq_refl). by rewrite xint_small by (apply small_uint; mkconst; lia).
  - rewrite B by done. by rewrite decide_True.
  - apply (grow l l s.(freeblock) _ s.(freeblock) fs i f e'); try done; try apply D; [mkconst; lia| |mkconst; lia].
    apply inode_ok_with_addr; [apply X|apply small_uint; mkconst; lia].
Qed.

(** A new block behind the indirect block at [ia], whose addresses are read from there. *)
Section indirect.
Context (ia nf : Z) (e' : InodeEntry).
Hypothesis Hd : INODE_NUM_DIRECT ≤ nb < INODE_MAX_BLOCKS.
Hypothesis Hia : nmeta ≤ ia < FSSIZE.
Hypothesis Hnf : nmeta ≤ nf < FSSIZE.
Hypothesis He : e' = with_indirect ia e.
Hypothesis Ha : ∀ j, INODE_NUM_DIRECT ≤ j < INODE_MAX_BLOCKS → get_addr (view l ia) (j - INODE_NUM_DIRECT) = blk l e j.
Hypothesis N1 : nb = INODE_NUM_DIRECT → ia = s.(freeblock) ∧ nf = s.(freeblock) + 1.
Hypothesis N2 : nb ≠ INODE_NUM_DIRECT → ia = indirect e ∧ nf = s.(freeblock).
Definition with_slot : list (list Z) := <[Z.to_nat ia := put_addr (view l ia) (nb - INODE_NUM_DIRECT) nf]> l.

Lemma with_slot_view m : 0 ≤ m → view with_slot m = if decide (m = ia) then put_addr (view l ia) (nb - INODE_NUM_DIRECT) nf else view l m.
Proof. intros Hm. apply view_insert; [mkconst; lia|done|apply D]. Qed.

Lemma with_slot_blk j : in_range j → blk with_slot e' j = if decide (j = nb) then nf else blk l e j.
Proof.
  intros [Hj0 Hj]. subst e'. destruct (decide (j < INODE_NUM_DIRECT)) as [Hlt|Hge].
  - rewrite !blk_direct by done. by rewrite decide_False by lia.
  - rewrite blk_indirect by lia. cbn [indirect with_indirect]. rewrite (proj2 (Z.eqb_neq _ _)) by (mkconst; lia).
    rewrite with_slot_view, decide_True by (mkconst; lia || done). rewrite get_put_addr; [| |mkconst; lia|mkconst; lia|apply small_uint; mkconst; lia].
    + destruct (decide (j = nb)) as [->|Hne]; [by rewrite decide_True|]. rewrite decide_False by lia. by rewrite Ha by lia.
    + apply view_ok, D.
Qed.

Lemma with_slot_disk : disk_ok with_slot (nf + 1) (<[i := grown f e']> fs).
Proof.
  pose proof F as X. pose proof (d_fb _ _ _ D) as Hfb.
  apply (grow l with_slot s.(freeblock) _ nf fs i f e'); try done.
  - lia.
  - unfold with_slot. rewrite length_insert. apply D.
  - apply Forall_insert; [apply D|]. apply put_addr_ok; [apply view_ok, D|mkconst; lia].
  - subst e'. apply inode_ok_with_indirect; [apply X|apply small_uint; mkconst; lia].
  - by subst e'.
  - apply with_slot_blk.
  - intros n Hn [?|Hne]; [lia|]. rewrite with_slot_view by done. rewrite decide_False; [done|]. subst e'. done.
  - intros E. destruct (N1 E) as [E1 E2]. subst e'. cbn. lia.
  - intros E. destruct (N2 E) as [E1 E2]. subst e'. cbn. lia.
  - mkconst; lia.
Qed.
End indirect.
End block.

Lemma with_indirect_same e : with_indirect (indirect e) e = e.
Proof. by destruct e. Qed.

(** The first step of the indirect case: the number of the indirect block. *)
Lemma ensure_indirect_run s fs i f : disk_ok s.(img) s.(freeblock) fs → fs !! i = Some f → INODE_NUM_DIRECT ≤ f.(a_nb) < INODE_MAX_BLOCKS →
  s.(freeblock) + need (f.(a_nb) + 1) - need f.(a_nb) ≤ FSSIZE →
  ∃ ia nf, (if xint (indirect f.(a_entry)) =? 0 then b ← take_block; mret (with_indirect (xint b) f.(a_entry)) else mret f.(a_entry)) s =
      Ok (with_indirect ia f.(a_entry), set_freeblock nf s) ∧ nmeta ≤ ia < FSSIZE ∧ nmeta ≤ nf < FSSIZE ∧
    (∀ j, INODE_NUM_DIRECT ≤ j < INODE_MAX_BLOCKS → get_addr (view s.(img) ia) (j - INODE_NUM_DIRECT) = blk s.(img) f.(a_entry) j) ∧
    (f.(a_nb) = INODE_NUM_DIRECT → ia = s.(freeblock) ∧ nf = s.(freeblock) + 1) ∧
    (f.(a_nb) ≠ INODE_NUM_DIRECT → ia = indirect f.(a_entry) ∧ nf = s.(freeblock)).
Proof.
  intros D Hi Hnb Hroom. pose proof (d_file _ _ _ D i f Hi) as X. pose proof (d_fb _ _ _ D) as Hfb.
  rewrite room_need in Hroom by (lconst; lia). pose proof (fa_ind _ _ X) as Hind. case_decide as E.
  - assert (H0 : indirect f.(a_entry) = 0) by (destruct (decide (indirect f.(a_entry) = 0)); [done|lia]).
    exists s.(freeblock), (s.(freeblock) + 1). rewrite H0. change (xint 0 =? 0) with true. cbv iota.
    rewrite (bind_Ok _ _ s _ _ (take_block_run s ltac:(mkconst; lia))). split_and!; [|mkconst; lia..| |done|done].
    + by rewrite xint_small by (apply small_uint; mkconst; lia).
    + intros j Hj. rewrite (d_zero _ _ _ D) by (mkconst; lia). rewrite get_addr_zero, blk_indirect by lia. by rewrite H0.
  - assert (Hne : indirect f.(a_entry) ≠ 0) by (apply Hind; lia). pose proof (ind_range _ _ fs i f D Hi Hne) as Hr.
    exists (indirect f.(a_entry)), s.(freeblock). rewrite xint_small by (apply small_uint; mkconst; lia).
    rewrite (proj2 (Z.eqb_neq _ _)) by done. rewrite with_indirect_same. split_and!; [by destruct s|mkconst; lia..| |done|done].
    intros j Hj. rewrite blk_indirect by lia. by rewrite (proj2 (Z.eqb_neq _ _)).
Qed.

Lemma iappend_block_indirect s fs i f : disk_ok s.(img) s.(freeblock) fs → fs !! i = Some f →
  INODE_NUM_DIRECT ≤ f.(a_nb) < INODE_MAX_BLOCKS → s.(freeblock) + need (f.(a_nb) + 1) - need f.(a_nb) ≤ FSSIZE →
  ∃ e' s', iappend_block f.(a_entry) f.(a_nb) s = Ok ((blk s'.(img) e' f.(a_nb), e'), s') ∧
    disk_ok s'.(img) s'.(freeblock) (<[i := grown f e']> fs) ∧ kept s s'.
Proof.
  intros D Hi Hnb Hroom. pose proof (d_file _ _ _ D i f Hi) as X. pose proof (d_fb _ _ _ D) as Hfb.
  destruct (ensure_indirect_run s fs i f D Hi Hnb Hroom) as (ia & nf & E & Hia & Hnf & Ha & N1 & N2).
  set (e' := with_indirect ia f.(a_entry)) in *. set (k := f.(a_nb) - INODE_NUM_DIRECT) in *.
  assert (Hr : in_range f.(a_nb)) by (split; mkconst; lia).
  assert (H0 : get_addr (view s.(img) ia) k = 0).
  { unfold k. rewrite Ha by lia. destruct (decide (blk s.(img) f.(a_entry) f.(a_nb) = 0)) as [|Hn]; [done|].
    apply (fa_map _ _ X) in Hn; [lia|done]. }
  assert (Hg : get_addr (put_addr (view s.(img) ia) k nf) k = nf).
  { rewrite get_put_addr; [by rewrite decide_True|apply view_ok, D|unfold k; mkconst; lia..|apply small_uint; mkconst; lia]. }
  exists e', (set_freeblock (nf + 1) (set_img (with_slot s f ia nf) s)). split; [|split].
  - cbn [img set_freeblock set_img]. rewrite (with_slot_blk s fs f D ia nf e' Hnb Hia Hnf eq_refl Ha) by done. rewrite decide_True by done.
    unfold iappend_block. rewrite (proj2 (Z.ltb_ge _ _)) by lia. rewrite (bind_Ok _ _ s _ _ E). fold e' k. cbn [indirect with_indirect].
    change (indirect e') with ia. rewrite xint_small by (apply small_uint; mkconst; lia).
    rewrite (bind_Ok _ _ _ _ _ (rsect_run (set_freeblock nf s) ia ltac:(mkconst; lia) (d_len _ _ _ D))). cbn [img set_freeblock].
    rewrite H0, Z.eqb_refl. rewrite bind_run, (bind_Ok _ _ _ _ _ (take_block_run (set_freeblock nf s) ltac:(cbn; mkconst; lia))).
    cbn [freeblock set_freeblock]. rewrite xint_small by (apply small_uint; mkconst; lia).
    rewrite (bind_Ok _ _ _ _ _ (wsect_run (set_freeblock (nf + 1) (set_freeblock nf s)) ia _ ltac:(mkconst; lia) (d_len _ _ _ D))).
    cbv beta iota delta [mret M_ret]. rewrite Hg.
    by rewrite xint_small by (apply small_uint; mkconst; lia).
  - by apply with_slot_disk.
  - split; [done|done|]. intros n Hn. cbn. rewrite (with_slot_view s fs f D) by (done || lia). by rewrite decide_False by lia.
Qed.

Lemma iappend_block_run s fs i f k : disk_ok s.(img) s.(freeblock) fs → fs !! i = Some f → in_range k → k ≤ f.(a_nb) →
  s.(freeblock) + need (Z.max f.(a_nb) (k + 1)) - need f.(a_nb) ≤ FSSIZE →
  ∃ e' s', iappend_block f.(a_entry) k s = Ok ((blk s'.(img) e' k, e'), s') ∧
    disk_ok s'.(img) s'.(freeblock) (<[i := mkAfile e' f.(a_type) f.(a_data) (Z.max f.(a_nb) (k + 1))]> fs) ∧ kept s s'.
Proof.
  intros D Hi Hk Hn Hroom. destruct (decide (k < f.(a_nb))) as [Hlt|Hge].
  - exists f.(a_entry), s. rewrite (iappend_block_old s fs i f D Hi k Hk Hlt). split_and!; [done| |apply kept_refl].
    rewrite Z.max_l by lia. replace (mkAfile _ _ _ _) with f by by destruct f. by rewrite list_insert_id.
  - assert (k = f.(a_nb)) as -> by lia. rewrite Z.max_r in * by lia. destruct Hk as [Hk1 Hk2].
    destruct (decide (f.(a_nb) < INODE_NUM_DIRECT)) as [Hd|Hd].
    + rewrite room_need in Hroom by lia. rewrite decide_False in Hroom by lia.
      destruct (iappend_block_direct s fs i f D Hi Hd ltac:(lia)) as (E & Eb & D').
      exists (with_addr (Z.to_nat f.(a_nb)) s.(freeblock) f.(a_entry)), (set_freeblock (s.(freeblock) + 1) s).
      split_and!; [|exact D'|done]. rewrite E. cbn [img set_freeblock]. by rewrite Eb.
    + by apply iappend_block_indirect; [..|lia|].
Qed.

(** *** [iappend] *)

Definition nblocks (len : Z) : Z := (len + BLOCK_SIZE - 1) / BLOCK_SIZE.

Lemma nblocks_bound len : 0 ≤ len → (nblocks len - 1) * BLOCK_SIZE < len + (if decide (len = 0) then 1 else 0) ∧ len ≤ nblocks len * BLOCK_SIZE ∧ 0 ≤ nblocks len.
Proof.
  intros H. unfold nblocks. lconst. pose proof (Z.div_mod (len + 512 - 1) 512 ltac:(lia)).
  pose proof (Z.mod_pos_bound (len + 512 - 1) 512 ltac:(lia)). split_and!; [case_decide; lia|lia|apply Z.div_pos; lia].
Qed.
Lemma nblocks_mono a b : a ≤ b → nblocks a ≤ nblocks b.
Proof. intros H. unfold nblocks. apply Z.div_le_mono; lconst; lia. Qed.
Lemma need_mono a b : a ≤ b → need a ≤ need b.
Proof. intros H. unfold need. destruct (Z.ltb_spec INODE_NUM_DIRECT a), (Z.ltb_spec INODE_NUM_DIRECT b); lia. Qed.

Definition appended (e : InodeEntry) (f : afile) (p : list Z) : afile :=
  mkAfile e f.(a_type) (f.(a_data) ++ p) (nblocks (Z.of_nat (length (f.(a_data) ++ p)))).
Definition whole (f : afile) : Prop := f.(a_nb) = nblocks (Z.of_nat (length f.(a_data))).

(** One turn of the loop. *)
Lemma turn_run s fs i f p : disk_ok s.(img) s.(freeblock) fs → fs !! i = Some f → whole f → p ≠ [] → Forall byte_ok p →
  let off := Z.of_nat (length f.(a_data)) in
  let n1 := Z.min (Z.of_nat (length p)) ((off / BLOCK_SIZE + 1) * BLOCK_SIZE - off) in
  let w := take (Z.to_nat n1) p in
  off + n1 ≤ INODE_MAX_BYTES → s.(freeblock) + need (nblocks (off + n1)) - need f.(a_nb) ≤ FSSIZE →
  ∃ e' x s', iappend_block f.(a_entry) (off / BLOCK_SIZE) s = Ok ((x, e'), s') ∧ nmeta ≤ x < FSSIZE ∧ length s'.(img) = Z.to_nat FSSIZE ∧ kept s s' ∧
    let l' := <[Z.to_nat x := splice (view s'.(img) x) (Z.to_nat (off - off / BLOCK_SIZE * BLOCK_SIZE)) w]> s'.(img) in
    disk_ok l' s'.(freeblock) (<[i := appended e' f w]> fs).
Proof.
  intros D Hi Hw Hp Hb off n1 w Hmax Hroom. set (k := off / BLOCK_SIZE) in *. pose proof (byte_block off ltac:(lia)) as Hk. fold k in Hk.
  assert (Hlen : 0 < Z.of_nat (length p)) by (destruct p; [done|cbn; lia]).
  assert (Hw1 : Z.of_nat (length w) = n1) by (unfold w; rewrite length_take; lia).
  assert (Hn1 : 0 < n1 ∧ off + n1 ≤ (k + 1) * BLOCK_SIZE) by (unfold n1; lconst; lia).
  pose proof (nblocks_bound off ltac:(lia)) as Hnb. pose proof (nblocks_bound (off + n1) ltac:(lia)) as Hnb'.
  unfold whole in Hw. fold off in Hw. rewrite decide_False in Hnb' by lia.
  assert (Hr : in_range k) by (split; lconst; lia). assert (Hmx : Z.max f.(a_nb) (k + 1) = nblocks (off + n1)).
  { rewrite Hw. lconst. case_decide; lia. }
  destruct (iappend_block_run s fs i f k D Hi Hr) as (e' & s' & E & D' & K); [rewrite Hw; lconst; case_decide; lia|by rewrite Hmx|].
  exists e', (blk s'.(img) e' k), s'. assert (Hlt : (i < length fs)%nat) by by eapply lookup_lt_Some.
  set (f' := mkAfile e' f.(a_type) f.(a_data) (Z.max f.(a_nb) (k + 1))) in *.
  assert (Hi' : <[i := f']> fs !! i = Some f') by by apply list_lookup_insert_eq.
  assert (Hr2 : 0 ≤ off - k * BLOCK_SIZE ∧ Z.of_nat (length f'.(a_data)) = k * BLOCK_SIZE + (off - k * BLOCK_SIZE) ∧
    off - k * BLOCK_SIZE + Z.of_nat (length w) ≤ BLOCK_SIZE) by (cbn; fold off; lia).
  assert (Hk2 : in_range k ∧ k < f'.(a_nb)) by (cbn; split; [done|lia]).
  pose proof (store_at _ _ _ i f' k D' Hi' Hk2) as (_ & _ & Hx & _).
  change (a_entry f') with e' in Hx. pose proof (d_fb _ _ _ D') as Hfb.
  pose proof (store_disk _ _ _ i f' k _ w D' Hi' Hk2 Hr2 (Forall_take _ _ _ Hb)) as D2.
  rewrite list_insert_insert_eq in D2. split_and!; [done|lia|lia|apply D'|done|].
  unfold appended. replace (Z.of_nat _) with (off + n1) by (rewrite length_app; lia). by rewrite <-Hmx.
Qed.

Lemma loop_run i p fuel : ∀ s fs f, disk_ok s.(img) s.(freeblock) fs → fs !! i = Some f → whole f → (length p < fuel)%nat → Forall byte_ok p →
  let off := Z.of_nat (length f.(a_data)) in
  off + Z.of_nat (length p) ≤ INODE_MAX_BYTES → s.(freeblock) + need (nblocks (off + Z.of_nat (length p))) - need f.(a_nb) ≤ FSSIZE →
  ∃ e' s', iappend_loop fuel f.(a_entry) off p s = Ok ((e', off + Z.of_nat (length p)), s') ∧
    disk_ok s'.(img) s'.(freeblock) (<[i := appended e' f p]> fs) ∧ kept s s'.
Proof.
  revert p. induction fuel as [|fuel IH]; intros p s fs f D Hi Hw Hf Hb off Hmax Hroom; [lia|]. cbn [iappend_loop].
  case_bool_decide as Hp; [subst p|].
  { exists f.(a_entry), s. cbn [length]. rewrite Z.add_0_r. split_and!; [done| |apply kept_refl].
    replace (appended _ f []) with f; [by rewrite list_insert_id|]. unfold appended. rewrite app_nil_r, <-Hw. by destruct f. }
  destruct (turn_run s fs i f p D Hi Hw Hp Hb) as (e' & x & s1 & E & Hx & Hl & K & D'); [fold off; lia| |].
  { fold off. set (n := Z.min _ _). assert (Hle : nblocks (off + n) ≤ nblocks (off + Z.of_nat (length p))) by (apply nblocks_mono; lia).
    apply need_mono in Hle. lia. }
  assert (Hlp : 0 < Z.of_nat (length p)) by (destruct p; [done|cbn [length]; lia]).
  fold off in E, D'. pose proof (byte_block off ltac:(lia)) as Hk. set (k := off / BLOCK_SIZE) in *.
  rewrite (proj2 (Z.ltb_lt k INODE_MAX_BLOCKS)) by (lconst; lia). rewrite (bind_Ok (assert_ true) _ s tt s eq_refl), (bind_Ok _ _ s _ _ E).
  rewrite (u32_small ((k + 1) * BLOCK_SIZE - off)) by (lconst; lia).
  set (n1 := Z.min (Z.of_nat (length p)) ((k + 1) * BLOCK_SIZE - off)) in *. assert (Hn1 : 0 < n1) by (unfold n1; lconst; lia).
  rewrite (bind_Ok _ _ s1 _ _ (rsect_run s1 x ltac:(mkconst; lia) Hl)), (bind_Ok _ _ s1 _ _ (wsect_run s1 x _ ltac:(mkconst; lia) Hl)).
  rewrite u32_small by (lconst; lia). set (w := take (Z.to_nat n1) p) in *. set (s2 := set_img _ s1).
  assert (Hlw : length w = Z.to_nat n1) by (unfold w; rewrite length_take; lia).
  assert (Hoff2 : Z.of_nat (length (a_data (appended e' f w))) = off + n1) by (cbn; rewrite length_app; lia).
  assert (Hrest : off + n1 + Z.of_nat (length (drop (Z.to_nat n1) p)) = off + Z.of_nat (length p)) by (rewrite length_drop; lia).
  assert (Hlt : (i < length fs)%nat) by by eapply lookup_lt_Some.
  pose proof (d_count _ _ _ D) as C1. pose proof (d_count _ _ _ D') as C2. rewrite (total_insert fs i f) in C2 by done.
  destruct (IH (drop (Z.to_nat n1) p) s2 _ (appended e' f w) D') as (e2 & s3 & E2 & D3 & K2).
  - by apply list_lookup_insert_eq.
  - done.
  - rewrite length_drop. lia.
  - by apply Forall_drop.
  - rewrite Hoff2. lia.
  - rewrite Hoff2, Hrest. change (s2.(freeblock)) with s1.(freeblock). change (need (a_nb f)) with (need (a_nb f)) in C2. lia.
  - rewrite Hoff2 in E2. rewrite Hrest in E2. change (a_entry (appended e' f w)) with e' in E2. exists e2, s3. split_and!; [done| |].
    + rewrite list_insert_insert_eq in D3. unfold appended in *. cbn in D3. rewrite <-(assoc_L (++)) in D3.
      by replace (w ++ drop (Z.to_nat n1) p) with p in D3 by (symmetry; apply take_drop).
    + eapply kept_trans; [exact K|]. eapply kept_trans; [|exact K2]. split; [done|done|]. intros n Hn. cbn.
      rewrite view_insert by (mkconst; lia || done). by rewrite decide_False by lia.
Qed.

(** *** The table of inodes *)

Definition iblock (no : Z) : Z := 65 + no / INODE_PER_BLOCK.
Definition entry_at (l : list (list Z)) (no : Z) : InodeEntry := get_entry (view l (iblock no)) no.

Record fs_ok (s : mkfs) (fs : list afile) : Prop := {
  fo_disk : disk_ok s.(img) s.(freeblock) fs;
  fo_sb : s.(sb) = super;
  fo_next : s.(freeinode) = 1 + Z.of_nat (length fs) ∧ Z.of_nat (length fs) ≤ 207;
  fo_entry : ∀ i f, fs !! i = Some f → entry_at s.(img) (1 + Z.of_nat i) = f.(a_entry) ∧
    num_bytes f.(a_entry) = Z.of_nat (length f.(a_data)) ∧ whole f;
  fo_low : ∀ n, 0 ≤ n < nmeta → n < 65 ∨ n = 91 → view s.(img) n = if decide (n = 1) then splice zero_block 0 (encode_super super) else zero_block;
}.

Lemma iblock_range no : 0 ≤ no ≤ 207 → 65 ≤ iblock no < 91.
Proof. intros H. unfold iblock. lconst. pose proof (Z.div_mod no 8 ltac:(lia)). pose proof (Z.mod_pos_bound no 8 ltac:(lia)). lia. Qed.
Lemma IBLOCK_super no : 0 ≤ no ≤ 207 → IBLOCK no super = iblock no.
Proof.
  intros H. pose proof (iblock_range no H). unfold IBLOCK. change (inode_start super) with 65. rewrite (Z.add_comm _ 65).
  apply u32_small. unfold iblock in *. lia.
Qed.

Definition put_inode (no : Z) (e : InodeEntry) (l : list (list Z)) : list (list Z) :=
  <[Z.to_nat (iblock no) := put_entry (view l (iblock no)) no e]> l.

Lemma winode_run s no e : length s.(img) = Z.to_nat FSSIZE → s.(sb) = super → 0 ≤ no ≤ 207 →
  winode no e s = Ok (tt, set_img (put_inode no e s.(img)) s).
Proof.
  intros Hl Hs Hn. pose proof (iblock_range no Hn). unfold winode. rewrite (bind_Ok (gets sb) _ s super s (f_equal (λ x, Ok (x, s)) Hs)).
  rewrite IBLOCK_super by done. rewrite (bind_Ok _ _ s _ _ (rsect_run s (iblock no) ltac:(mkconst; lia) Hl)). by apply wsect_run; [mkconst; lia|].
Qed.
Lemma rinode_run s no : length s.(img) = Z.to_nat FSSIZE → s.(sb) = super → 0 ≤ no ≤ 207 → rinode no s = Ok (entry_at s.(img) no, s).
Proof.
  intros Hl Hs Hn. pose proof (iblock_range no Hn). unfold rinode. rewrite (bind_Ok (gets sb) _ s super s (f_equal (λ x, Ok (x, s)) Hs)).
  rewrite IBLOCK_super by done. by rewrite (bind_Ok _ _ s _ _ (rsect_run s (iblock no) ltac:(mkconst; lia) Hl)).
Qed.

Section put_inode.
Context (l : list (list Z)) (no : Z) (e : InodeEntry).
Hypothesis Hl : length l = Z.to_nat FSSIZE.
Hypothesis Hb : Forall block_ok l.
Hypothesis Hn : 0 ≤ no ≤ 207.
Hypothesis He : inode_ok e.

Lemma put_inode_view m : 0 ≤ m → view (put_inode no e l) m = if decide (m = iblock no) then put_entry (view l (iblock no)) no e else view l m.
Proof. intros Hm. pose proof (iblock_range no Hn). apply view_insert; [mkconst; lia|done|done]. Qed.

Lemma put_inode_shape : length (put_inode no e l) = Z.to_nat FSSIZE ∧ Forall block_ok (put_inode no e l).
Proof.
  unfold put_inode. split; [by rewrite length_insert|]. apply Forall_insert; [done|]. apply put_entry_ok; [by apply view_ok|done].
Qed.

Lemma put_inode_entry m : 0 ≤ m ≤ 207 → entry_at (put_inode no e l) m = if decide (m = no) then e else entry_at l m.
Proof.
  intros Hm. pose proof (iblock_range m Hm). unfold entry_at. rewrite put_inode_view by lia. case_decide as E.
  - case_decide as E2; [subst m; apply get_put_entry; [by apply view_ok|done]|]. rewrite E.
    apply get_put_entry_other; [by apply view_ok|done|lia|lia|]. unfold iblock in E. lconst.
    pose proof (Z.div_mod no 8 ltac:(lia)). pose proof (Z.div_mod m 8 ltac:(lia)). lia.
  - rewrite decide_False; [done|]. congruence.
Qed.

Lemma put_inode_disk fb fs : disk_ok l fb fs → disk_ok (put_inode no e l) fb fs.
Proof.
  intros D. destruct put_inode_shape. apply (disk_ok_low l); [done..|]. intros n Hr. pose proof (iblock_range no Hn).
  rewrite put_inode_view by (mkconst; lia). rewrite decide_False; [done|mkconst; lia].
Qed.
End put_inode.

Lemma put_inode_low no e l n : length l = Z.to_nat FSSIZE → 0 ≤ no ≤ 207 → 0 ≤ n → n < 65 ∨ n = 91 → view (put_inode no e l) n = view l n.
Proof.
  intros Hl Hno Hn0 Hn. pose proof (iblock_range no Hno). unfold put_inode. rewrite view_insert by (mkconst; lia || done).
  by rewrite decide_False by lia.
Qed.
Lemma entry_at_kept s s' no : kept s s' → 0 ≤ no ≤ 207 → entry_at s'.(img) no = entry_at s.(img) no.
Proof. intros K Hn. pose proof (iblock_range no Hn). unfold entry_at. by rewrite (k_low _ _ K) by (mkconst; lia). Qed.

Lemma inode_ok_num_bytes e n : inode_ok e → uint 4 n → inode_ok (with_num_bytes n e).
Proof. intros (?&?&?&?&?&?&?&?) Hn. by split_and!. Qed.

Lemma iappend_run s fs i f p : fs_ok s fs → fs !! i = Some f → Forall byte_ok p →
  Z.of_nat (length f.(a_data)) + Z.of_nat (length p) ≤ INODE_MAX_BYTES →
  s.(freeblock) + need (nblocks (Z.of_nat (length f.(a_data)) + Z.of_nat (length p))) - need f.(a_nb) ≤ FSSIZE →
  ∃ e' s', iappend (1 + Z.of_nat i) p s = Ok (tt, s') ∧ fs_ok s' (<[i := appended e' f p]> fs).
Proof.
  intros G Hi Hb Hmax Hroom. pose proof (fo_disk _ _ G) as D. destruct (fo_entry _ _ G i f Hi) as (Ee & En & Hw).
  pose proof (fo_next _ _ G) as Hn. pose proof (lookup_lt_Some _ _ _ Hi) as Hlt. set (off := Z.of_nat (length f.(a_data))) in *.
  destruct (loop_run i p (S (length p)) s fs f D Hi Hw) as (e1 & s1 & E & D1 & K); [lia|done|done|done|]. fold off in E.
  set (m := off + Z.of_nat (length p)) in *. assert (Hm : uint 4 m) by (unfold uint; lconst; lia).
  set (e2 := with_num_bytes m e1). exists e2, (set_img (put_inode (1 + Z.of_nat i) e2 s1.(img)) s1).
  assert (Hi1 : <[i := appended e1 f p]> fs !! i = Some (appended e1 f p)) by by apply list_lookup_insert_eq.
  pose proof (d_file _ _ _ D1 i _ Hi1) as X1. assert (He2 : inode_ok e2) by (apply inode_ok_num_bytes; [apply X1|done]).
  pose proof (disk_ok_entry _ _ _ i _ e2 D1 Hi1 He2 eq_refl eq_refl eq_refl eq_refl) as D2. rewrite list_insert_insert_eq in D2.
  split.
  - unfold iappend. rewrite (bind_Ok _ _ s _ _ (rinode_run s (1 + Z.of_nat i) (d_len _ _ _ D) (fo_sb _ _ G) ltac:(lia))). rewrite Ee, En.
    rewrite xint_small by (unfold uint; lconst; lia). rewrite (bind_Ok _ _ s _ _ E). rewrite xint_small by done.
    apply winode_run; [apply D1|by rewrite (k_sb _ _ K), (fo_sb _ _ G)|lia].
  - assert (Hnb : num_bytes (with_num_bytes m e1) = m) by done. split; cbn [img set_img sb freeinode].
    + apply (put_inode_disk s1.(img)); [apply D2|apply D2|lia|done|exact D2].
    + by rewrite (k_sb _ _ K), (fo_sb _ _ G).
    + rewrite (k_next _ _ K), length_insert. done.
    + intros j g [(<- & <- & _)|[Hj Hg]]%list_lookup_insert_Some.
      * rewrite put_inode_entry by (apply D1 || done || lia). rewrite decide_True by done. split_and!; [done| |done].
        change (num_bytes (a_entry (appended e2 f p))) with m. cbn. rewrite length_app. lia.
      * pose proof (lookup_lt_Some _ _ _ Hg). rewrite put_inode_entry by (apply D1 || done || lia). rewrite decide_False by lia.
        rewrite (entry_at_kept s) by (done || lia). by apply (fo_entry _ _ G).
    + intros n Hn1 Hn2. rewrite put_inode_low by (apply D1 || lia). rewrite (k_low _ _ K) by done. by apply (fo_low _ _ G).
Qed.

Lemma ialloc_run s fs ty : fs_ok s fs → uint 2 ty → Z.of_nat (length fs) ≤ 206 →
  ∃ s', ialloc ty s = Ok (1 + Z.of_nat (length fs), s') ∧ fs_ok s' (fs ++ [mkAfile (new_entry ty) ty [] 0]).
Proof.
  intros G Hty Hlen. pose proof (fo_disk _ _ G) as D. destruct (fo_next _ _ G) as [Hn _].
  set (no := 1 + Z.of_nat (length fs)) in *. set (s1 := set_freeinode (no + 1) s). pose proof (new_entry_ok ty Hty) as He.
  exists (set_img (put_inode no (new_entry ty) s.(img)) s1). split.
  - unfold ialloc. rewrite (bind_Ok (gets freeinode) _ s no s (f_equal (λ x, Ok (x, s)) Hn)). rewrite u32_small by lia.
    rewrite (bind_Ok (modify (set_freeinode (no + 1))) _ s tt s1 eq_refl). rewrite xshort_small by done. change (xshort 1) with 1. change (xint 0) with 0.
    by rewrite (bind_Ok _ _ s1 _ _ (winode_run s1 no (new_entry ty) (d_len _ _ _ D) (fo_sb _ _ G) ltac:(lia))).
  - split; cbn [img set_img sb freeinode s1 set_freeinode].
    + apply disk_ok_new; [|done]. apply put_inode_disk; [apply D|apply D|lia|done|done].
    + apply (fo_sb _ _ G).
    + rewrite length_app. cbn. lia.
    + intros j g [Hg|[Hge Hg]]%lookup_app_Some.
      * pose proof (lookup_lt_Some _ _ _ Hg). rewrite put_inode_entry by (apply D || done || lia). rewrite decide_False by lia. by apply (fo_entry _ _ G).
      * apply list_lookup_singleton_Some in Hg as [Hj <-]. rewrite put_inode_entry by (apply D || done || lia).
        by rewrite decide_True by lia.
    + intros n Hn1 Hn2. rewrite put_inode_low by (apply D || lia). by apply (fo_low _ _ G).
Qed.

(** *** In terms of the contents alone *)

Abbreviation contents := (list (Z * list Z)).
Definition cont (fs : list afile) : contents := (λ f, (f.(a_type), f.(a_data))) <$> fs.
Definition holds (s : mkfs) (cs : contents) : Prop := ∃ fs, fs_ok s fs ∧ cont fs = cs.
Definition blocks_of (d : list Z) : Z := need (nblocks (Z.of_nat (length d))).
Definition space (cs : contents) : Z := foldr (λ c n, blocks_of c.2 + n) 0 cs.

Lemma space_cons c cs : space (c :: cs) = blocks_of c.2 + space cs.
Proof. done. Qed.
Lemma space_app cs cs' : space (cs ++ cs') = space cs + space cs'.
Proof. induction cs as [|c cs IH]; [done|]. rewrite <-app_comm_cons, !space_cons, IH. lia. Qed.
Lemma space_insert cs i c c' : cs !! i = Some c → space (<[i := c']> cs) = space cs - blocks_of c.2 + blocks_of c'.2.
Proof.
  revert i. induction cs as [|g cs IH]; intros [|i] H; try done.
  - injection H as ->. change (<[0%nat := c']> (c :: cs)) with (c' :: cs). rewrite !space_cons. lia.
  - change (<[S i := c']> (g :: cs)) with (g :: <[i := c']> cs). rewrite !space_cons, (IH i) by done. lia.
Qed.
Lemma blocks_mono d d' : (length d ≤ length d')%nat → blocks_of d ≤ blocks_of d'.
Proof. intros H. apply need_mono, nblocks_mono. lia. Qed.
Lemma blocks_nonneg d : 0 ≤ blocks_of d.
Proof. unfold blocks_of, need. pose proof (nblocks_bound (Z.of_nat (length d)) ltac:(lia)) as (_ & _ & ?). destruct (_ <? _); lia. Qed.

Lemma total_space s fs : fs_ok s fs → total fs = space (cont fs).
Proof.
  intros G. assert (H : ∀ f, f ∈ fs → whole f) by (intros f [i Hi]%list_elem_of_lookup; by apply (fo_entry _ _ G i)).
  clear G. induction fs as [|f fs IH]; [done|]. unfold cont. rewrite fmap_cons, total_cons, space_cons. fold (cont fs).
  rewrite IH by (intros; apply H; by apply list_elem_of_further). rewrite (H f) by apply list_elem_of_here. done.
Qed.

Lemma iappend_holds s cs i ty d p : holds s cs → cs !! i = Some (ty, d) → Forall byte_ok p →
  Z.of_nat (length (d ++ p)) ≤ INODE_MAX_BYTES → nmeta + space (<[i := (ty, d ++ p)]> cs) ≤ FSSIZE →
  wp (iappend (1 + Z.of_nat i) p) (λ _ s', holds s' (<[i := (ty, d ++ p)]> cs)) s.
Proof.
  intros (fs & G & <-) Hi Hb Hmax Hroom. unfold cont in Hi. rewrite list_lookup_fmap in Hi. destruct (fs !! i) as [f|] eqn:Hf; [|done].
  injection Hi as <- <-. rewrite length_app in Hmax. rewrite (space_insert _ i (f.(a_type), f.(a_data))) in Hroom.
  2: { unfold cont. by rewrite list_lookup_fmap, Hf. }
  pose proof (d_count _ _ _ (fo_disk _ _ G)) as C. rewrite (total_space s) in C by done. destruct (fo_entry _ _ G i f Hf) as (_ & _ & Hw).
  unfold blocks_of in Hroom. cbn in Hroom. rewrite <-Hw, length_app, Nat2Z.inj_add in Hroom.
  destruct (iappend_run s fs i f p G Hf Hb) as (e' & s' & E & G'); [lia|lia|]. exists tt, s'. split; [done|].
  eexists. split; [exact G'|]. unfold cont. by rewrite list_fmap_insert.
Qed.

Lemma ialloc_holds s cs ty : holds s cs → uint 2 ty → Z.of_nat (length cs) ≤ 206 →
  wp (ialloc ty) (λ no s', no = 1 + Z.of_nat (length cs) ∧ holds s' (cs ++ [(ty, [])])) s.
Proof.
  intros (fs & G & <-) Hty Hlen. unfold cont in *. rewrite length_fmap in *. destruct (ialloc_run s fs ty G Hty Hlen) as (s' & E & G').
  exists (1 + Z.of_nat (length fs)), s'. split; [exact E|]. split; [done|]. eexists. split; [exact G'|]. unfold cont. by rewrite fmap_app.
Qed.

(** ** The whole program *)

Definition fname (f : host_file) : list Z := skip_underscore (name_tail f.(h_path)).
Definition content (f : host_file) : list Z := concat (default [] f.(h_reads)).
(** The root directory, one entry after the other. *)
Definition root_data (files : list host_file) : list Z :=
  dirent_bytes 1 [46] ++ dirent_bytes 1 [46; 46] ++ concat (imap (λ k f, dirent_bytes (2 + Z.of_nat k) (fname f)) files).
Definition files_of (files : list host_file) : contents :=
  (INODE_DIRECTORY, root_data files) :: ((λ f, (INODE_REGULAR, content f)) <$> files).

(** An input file that can be read, and is not too large. *)
Record input_ok (f : host_file) : Prop := {
  in_path : Forall byte_ok f.(h_path);
  in_reads : ∃ chunks, f.(h_reads) = Some chunks ∧ Forall (Forall byte_ok) chunks;
  in_size : Z.of_nat (length (content f)) ≤ INODE_MAX_BYTES;
}.
Record inputs_ok (files : list host_file) : Prop := {
  ins_each : Forall input_ok files;
  ins_count : Z.of_nat (length files) ≤ 206;
  ins_space : nmeta + space (files_of files) ≤ FSSIZE;
}.

(** *** Names *)

Definition tail_len (path : list Z) : Z := foldl (λ j c, (if c =? 47 then -1 else j) + 1) 0 path.
Lemma tail_len_snoc path c : tail_len (path ++ [c]) = if c =? 47 then 0 else tail_len path + 1.
Proof. unfold tail_len. rewrite foldl_app. cbn. by destruct (c =? 47). Qed.
Lemma tail_len_bound path : 0 ≤ tail_len path ≤ Z.of_nat (length path).
Proof.
  induction path as [|c path IH] using rev_ind; [done|]. rewrite tail_len_snoc, length_app. cbn. destruct (c =? 47); lia.
Qed.

(** The [assert] on the name cannot fail. *)
Lemma name_tail_plain path : 47 ∉ name_tail path.
Proof.
  induction path as [|c path IH] using rev_ind; [apply not_elem_of_nil|]. pose proof (tail_len_bound path) as Hb.
  unfold name_tail in *. fold (tail_len path) in *. fold (tail_len (path ++ [c])). rewrite tail_len_snoc, length_app. cbn [length].
  destruct (Z.eqb_spec c 47) as [->|Hc].
  - rewrite drop_ge; [apply not_elem_of_nil|]. rewrite length_app. cbn. lia.
  - rewrite drop_app_le by lia. intros [H|H]%elem_of_app; [|by apply list_elem_of_singleton in H].
    apply IH. by replace (Z.to_nat (Z.of_nat (length path) - tail_len path)) with
      (Z.to_nat (Z.of_nat (length path + 1) - (tail_len path + 1))) by lia.
Qed.

Lemma fname_ok f : Forall byte_ok f.(h_path) → Forall byte_ok (fname f).
Proof.
  intros H. apply (Forall_drop _ (Z.to_nat (Z.of_nat (length f.(h_path)) - tail_len f.(h_path)))) in H. unfold fname, skip_underscore.
  unfold name_tail. fold (tail_len f.(h_path)). destruct (drop _ _) as [|c l]; [done|]. destruct (c =? 95); [by apply Forall_cons in H as [_ H]|done].
Qed.

Lemma dirent_value no name : uint 2 no → Forall byte_ok name →
  dirent_ok (mkDirEntry no (cpad (Z.to_nat FILE_NAME_MAX_LENGTH) name)).
Proof. intros Hn Hb. split_and!; [done|by apply Forall_cpad|apply length_cpad]. Qed.
Lemma dirent_bytes_eq no name : uint 2 no → dirent_bytes no name = encode_dirent (mkDirEntry no (cpad (Z.to_nat FILE_NAME_MAX_LENGTH) name)).
Proof. intros H. unfold dirent_bytes. by rewrite xshort_small. Qed.
Lemma length_dirent no name : length (dirent_bytes no name) = 16%nat.
Proof. unfold dirent_bytes, encode_dirent. cbn [de_inode_no de_name]. by rewrite length_app, length_le_bytes, length_cpad. Qed.
Lemma dirent_bytes_ok no name : Forall byte_ok name → Forall byte_ok (dirent_bytes no name).
Proof.
  intros H. unfold dirent_bytes, encode_dirent. cbn [de_inode_no de_name]. apply Forall_app_2; [apply le_bytes_ok|by apply Forall_cpad].
Qed.

Lemma root_data_snoc files f : root_data (files ++ [f]) = root_data files ++ dirent_bytes (2 + Z.of_nat (length files)) (fname f).
Proof.
  unfold root_data. rewrite imap_app, concat_app, <-!(assoc_L (++)). cbn. rewrite app_nil_r. do 4 f_equal. lia.
Qed.
Lemma length_root files : length (root_data files) = (16 * (2 + length files))%nat.
Proof.
  induction files as [|f files IH] using rev_ind; [reflexivity|]. rewrite root_data_snoc, !length_app, IH, length_dirent. cbn. lia.
Qed.

(** *** The files of the command line *)

Lemma chunks_holds chunks : ∀ s cs i ty d, holds s cs → cs !! i = Some (ty, d) → Forall (Forall byte_ok) chunks →
  Z.of_nat (length (d ++ concat chunks)) ≤ INODE_MAX_BYTES → nmeta + space (<[i := (ty, d ++ concat chunks)]> cs) ≤ FSSIZE →
  wp (for_each chunks (iappend (1 + Z.of_nat i))) (λ _ s', holds s' (<[i := (ty, d ++ concat chunks)]> cs)) s.
Proof.
  induction chunks as [|p chunks IH]; intros s cs i ty d H Hi Hb Hmax Hroom.
  - cbn. apply wp_ret. rewrite app_nil_r. by rewrite list_insert_id.
  - apply Forall_cons in Hb as [Hp Hb]. cbn [concat] in *. rewrite (assoc_L (++)) in *. rewrite (space_insert _ _ _ _ Hi) in Hroom.
    cbn [snd] in Hroom. rewrite length_app in Hmax. pose proof (blocks_mono (d ++ p) ((d ++ p) ++ concat chunks) ltac:(rewrite (length_app (d ++ p)); lia)).
    cbn [for_each]. apply wp_bind. eapply wp_mono; [apply (iappend_holds s cs i ty d p); [done..|lia|rewrite (space_insert _ _ _ _ Hi); cbn [snd]; lia]|].
    intros [] s1 H1. pose proof (lookup_lt_Some _ _ _ Hi) as Hlt.
    eapply wp_mono; [apply (IH s1 (<[i := (ty, d ++ p)]> cs) i ty (d ++ p) H1)|].
    + by apply list_lookup_insert_eq.
    + done.
    + rewrite length_app. lia.
    + rewrite list_insert_insert_eq, (space_insert _ _ _ _ Hi). cbn [snd]. lia.
    + intros [] s2 H2. by rewrite list_insert_insert_eq in H2.
Qed.

Lemma add_file_holds s pre f : holds s (files_of pre) → input_ok f → Z.of_nat (length pre) ≤ 205 → nmeta + space (files_of (pre ++ [f])) ≤ FSSIZE →
  wp (add_file 1 f) (λ _ s', holds s' (files_of (pre ++ [f]))) s.
Proof.
  intros H [Hpath (chunks & Hr & Hb) Hsize] Hn Hroom. unfold content in Hsize. rewrite Hr in Hsize. cbn in Hsize.
  set (regs := (λ f, (INODE_REGULAR, content f)) <$> pre). set (rd := root_data pre). set (de := dirent_bytes (2 + Z.of_nat (length pre)) (fname f)).
  assert (Efin : files_of (pre ++ [f]) = (INODE_DIRECTORY, rd ++ de) :: regs ++ [(INODE_REGULAR, concat chunks)]).
  { unfold files_of. rewrite root_data_snoc, fmap_app. cbn. unfold content at 2. by rewrite Hr. }
  rewrite Efin in *. rewrite space_cons, space_app, space_cons in Hroom. cbn [snd] in Hroom. change (space []) with 0 in Hroom.
  pose proof (length_root pre) as Hlr. assert (Hld : length de = 16%nat) by apply length_dirent.
  assert (Hlregs : length regs = length pre) by apply length_fmap. pose proof (blocks_nonneg (concat chunks)) as Hnn.
  unfold add_file. rewrite bool_decide_false by apply name_tail_plain. apply wp_bind, wp_assert; [done|]. rewrite Hr. fold (fname f).
  apply wp_bind. eapply wp_mono; [apply (ialloc_holds _ (files_of pre)); [done|unfold uint; by vm_compute|cbn; rewrite length_fmap; lia]|].
  intros no s1 (-> & H1). cbn [length files_of] in H1 |- *. rewrite length_fmap. replace (1 + Z.of_nat (S (length pre))) with (2 + Z.of_nat (length pre)) by lia.
  fold de. apply wp_bind. eapply wp_mono.
  { apply (iappend_holds s1 _ 0 INODE_DIRECTORY rd de H1); [done|by apply dirent_bytes_ok, fname_ok|rewrite length_app; unfold rd; lconst; lia|].
    change (<[0%nat := ?x]> (files_of pre ++ ?y)) with (x :: regs ++ y). rewrite space_cons, space_app, space_cons. cbn [snd].
    change (space []) with 0. change (blocks_of []) with 0. lia. }
  intros [] s2 H2. change (<[0%nat := ?x]> (files_of pre ++ ?y)) with (x :: regs ++ y) in H2.
  replace (2 + Z.of_nat (length pre)) with (1 + Z.of_nat (S (length pre))) by lia.
  assert (Ei : ∀ x, <[S (length pre) := x]> ((INODE_DIRECTORY, rd ++ de) :: regs ++ [(INODE_REGULAR, [])]) = (INODE_DIRECTORY, rd ++ de) :: regs ++ [x]).
  { intros x. change (<[S ?n := ?z]> (?a :: ?b)) with (a :: <[n := z]> b). f_equal. rewrite <-Hlregs. by rewrite insert_app_r_alt, Nat.sub_diag by lia. }
  eapply wp_mono; [apply (chunks_holds chunks s2 _ (S (length pre)) INODE_REGULAR [] H2)|].
  - change ((?a :: ?b) !! S ?n) with (b !! n). rewrite <-Hlregs. by rewrite lookup_app_r, Nat.sub_diag by lia.
  - done.
  - done.
  - rewrite Ei, space_cons, space_app, space_cons. cbn [snd app]. change (space []) with 0. lia.
  - intros [] s3 H3. by rewrite Ei in H3.
Qed.

Lemma space_nonneg cs : 0 ≤ space cs.
Proof. induction cs as [|c cs IH]; [done|]. rewrite space_cons. pose proof (blocks_nonneg c.2). lia. Qed.
Lemma space_prefix pre post : space (files_of pre) ≤ space (files_of (pre ++ post)).
Proof.
  unfold files_of. rewrite fmap_app, !space_cons, space_app. cbn [snd].
  pose proof (blocks_mono (root_data pre) (root_data (pre ++ post)) ltac:(rewrite !length_root, length_app; lia)).
  pose proof (space_nonneg ((λ f, (INODE_REGULAR, content f)) <$> post)). lia.
Qed.

Lemma files_holds post : ∀ s pre, holds s (files_of pre) → inputs_ok (pre ++ post) →
  wp (for_each post (add_file 1)) (λ _ s', holds s' (files_of (pre ++ post))) s.
Proof.
  induction post as [|f post IH]; intros s pre H [Hi Hn Hs]; [by rewrite app_nil_r; apply wp_ret|].
  pose proof (space_prefix (pre ++ [f]) post) as Hp. rewrite <-(assoc_L (++)) in Hp. cbn [app] in Hp. rewrite length_app in Hn. cbn [length] in Hn.
  cbn [for_each]. apply wp_bind. eapply wp_mono; [apply (add_file_holds s pre f H)|]; [|lia|lia|].
  - apply Forall_app in Hi as [_ Hi]. by apply Forall_cons in Hi as [? _].
  - intros [] s1 H1. eapply wp_mono; [apply (IH s1 (pre ++ [f]) H1)|].
    + rewrite <-(assoc_L (++)). split; [done|rewrite length_app; cbn [app length]; lia|done].
    + intros [] s2. by rewrite <-(assoc_L (++)).
Qed.

(** *** The start *)

Definition super_bytes : list Z := splice zero_block 0 (encode_super super).
Definition img0 : list (list Z) := <[1%nat := super_bytes]> (replicate (Z.to_nat FSSIZE) zero_block).

Lemma super_bytes_ok : block_ok super_bytes.
Proof. apply splice_block_ok; [apply zero_block_ok|apply le_array_ok|]. lconst. vm_compute. lia. Qed.

Lemma img0_shape : length img0 = Z.to_nat FSSIZE ∧ Forall block_ok img0.
Proof.
  unfold img0. split; [by rewrite length_insert, length_replicate|]. apply Forall_insert; [|apply super_bytes_ok].
  apply Forall_replicate, zero_block_ok.
Qed.
Lemma img0_view n : 0 ≤ n < FSSIZE → view img0 n = if decide (n = 1) then super_bytes else zero_block.
Proof.
  intros Hn. mkconst. unfold img0, view. mkconst. case_decide as E; [subst n; by rewrite list_lookup_insert_eq by (rewrite length_replicate; lia)|].
  rewrite list_lookup_insert_ne by lia. by rewrite lookup_replicate_2 by lia.
Qed.

Lemma zero_run s : s.(img) = [] → s.(freeblock) = nmeta → s.(sb) = super → s.(freeinode) = 1 →
  wp (for_each (zseq 0 FSSIZE) (λ i, wsect i zero_block) ;; wsect 1 super_bytes) (λ _ s', s' = mkMkfs img0 super 1 nmeta) s.
Proof.
  intros E1 E2 E3 E4. set (I := λ (k : Z) (s : mkfs), s = mkMkfs (replicate (Z.to_nat k) zero_block) super 1 nmeta).
  apply wp_bind. eapply wp_mono; [apply (wp_for_zseq _ I 0 FSSIZE s); [mkconst; lia|by destruct s; cbn in *; subst|]|].
  - intros k s' Hk ->. exists tt, (mkMkfs (replicate (Z.to_nat (k + 1)) zero_block) super 1 nmeta). split; [|done].
    unfold wsect, modify, set_img, put_sector. cbn. rewrite sector_of_small, length_replicate by done. rewrite decide_False by lia.
    rewrite Nat.sub_diag. cbn. by rewrite Z2Nat.inj_add, replicate_add by lia.
  - intros [] s' ->. eexists tt, _. split; [|done]. unfold wsect, modify, set_img, put_sector. cbn. rewrite length_replicate.
    rewrite sector_of_small by (mkconst; lia). by rewrite decide_True by (mkconst; lia).
Qed.

Lemma fresh_holds : holds (mkMkfs img0 super 1 nmeta) [].
Proof.
  destruct img0_shape as [Hl Hb]. exists []. split; [|done]. split; cbn [img sb freeinode freeblock length]; [|done|lia|done|].
  - split; try done. intros n Hn. rewrite img0_view by (mkconst; lia). by rewrite decide_False by (mkconst; lia).
  - intros n Hn _. by rewrite img0_view by (mkconst; lia).
Qed.

(** *** The end *)

Definition root_size (files : list host_file) : Z := (Z.of_nat (length (root_data files)) / BLOCK_SIZE + 1) * BLOCK_SIZE.
Definition bitmap_bytes (fb : Z) : list Z := foldl set_bit zero_block (zseq 0 fb).

(** What the program leaves on the image. *)
Record image (files : list host_file) (s : mkfs) (fs : list afile) : Prop := {
  im_disk : disk_ok s.(img) s.(freeblock) fs;
  im_cont : cont fs = files_of files;
  im_entry : ∀ i f, fs !! i = Some f → whole f ∧ num_bytes f.(a_entry) = Z.of_nat (length f.(a_data)) ∧
    entry_at s.(img) (1 + Z.of_nat i) = if decide (i = 0%nat) then with_num_bytes (root_size files) f.(a_entry) else f.(a_entry);
  im_super : view s.(img) 1 = super_bytes;
  im_log : ∀ n, 2 ≤ n < 65 → view s.(img) n = zero_block;
  im_bitmap : view s.(img) 91 = bitmap_bytes s.(freeblock);
}.

Lemma bitmap_bytes_ok fb : block_ok (bitmap_bytes fb).
Proof.
  unfold bitmap_bytes. generalize zero_block_ok. generalize zero_block. induction (zseq 0 fb) as [|x l IH]; [done|].
  intros d Hd. cbn. apply IH. by apply set_bit_ok.
Qed.

Lemma root_size_uint files : Z.of_nat (length files) ≤ 206 → uint 4 (root_size files).
Proof.
  intros Hn. unfold root_size. rewrite length_root. unfold uint. lconst. pose proof (Z.div_mod (Z.of_nat (16 * (2 + length files))) 512 ltac:(lia)).
  pose proof (Z.mod_pos_bound (Z.of_nat (16 * (2 + length files))) 512 ltac:(lia)). lia.
Qed.

Lemma finish_run files s : holds s (files_of files) → Z.of_nat (length files) ≤ 206 →
  wp (fix_root 1 ;; b ← gets freeblock; balloc (i32 b)) (λ _ s', ∃ fs, image files s' fs) s.
Proof.
  intros (fs & G & Ec) Hn. pose proof (fo_disk _ _ G) as D. pose proof (d_fb _ _ _ D) as Hfb. destruct (fs !! 0%nat) as [f|] eqn:Hf.
  2: { by destruct fs. }
  destruct (fo_entry _ _ G 0 f Hf) as (Ee & En & Hw). cbn [Z.of_nat] in Ee. rewrite Z.add_0_r in Ee.
  assert (Hd : a_data f = root_data files).
  { apply (f_equal (λ l, l !! 0%nat)) in Ec. unfold cont in Ec. rewrite list_lookup_fmap, Hf in Ec. cbn in Ec. congruence. }
  pose proof (root_size_uint files Hn) as Hu1. pose proof (length_root files) as Hlr. rewrite Hd in En.
  assert (Hu2 : uint 4 (num_bytes f.(a_entry))) by (rewrite En; unfold uint; lia). set (e' := with_num_bytes (root_size files) f.(a_entry)).
  assert (He : inode_ok e') by (apply inode_ok_num_bytes; [apply (d_file _ _ _ D 0%nat f Hf)|done]).
  set (s1 := set_img (put_inode 1 e' s.(img)) s). destruct (put_inode_shape s.(img) 1 e') as [Hl1 Hb1]; [apply D|apply D|done|].
  exists tt, (set_img (<[Z.to_nat 91 := bitmap_bytes s.(freeblock)]> s1.(img)) s1). split.
  - unfold fix_root. rewrite (bind_Ok _ _ s tt s1).
    + rewrite (bind_Ok (gets freeblock) _ s1 s.(freeblock) s1 eq_refl). unfold balloc. rewrite i32_small by (mkconst; lia).
      rewrite (proj2 (Z.ltb_lt _ _)) by (mkconst; lia). rewrite (bind_Ok (assert_ true) _ s1 tt s1 eq_refl).
      rewrite (bind_Ok (gets sb) _ s1 super s1 (f_equal (λ x, Ok (x, s1)) (fo_sb _ _ G))).
      change (bitmap_start super) with 91. apply wsect_run; [mkconst; lia|done].
    + rewrite (bind_Ok _ _ s _ _ (rinode_run s 1 (d_len _ _ _ D) (fo_sb _ _ G) ltac:(lia))). rewrite Ee, (xint_small (num_bytes _)), En by done.
      fold (root_size files). rewrite u32_small, xint_small by (unfold uint in *; lia). apply winode_run; [apply D|apply (fo_sb _ _ G)|lia].
  - set (l1 := put_inode 1 e' s.(img)) in *. set (l2 := <[Z.to_nat 91 := bitmap_bytes s.(freeblock)]> l1).
    assert (Hv : ∀ n, 0 ≤ n → view l2 n = if decide (n = 91) then bitmap_bytes s.(freeblock) else view l1 n)
      by (intros; apply view_insert; [mkconst; lia|done|done]).
    assert (Hlow : ∀ n, 0 ≤ n < 65 → view l2 n = view s.(img) n).
    { intros n Hr. rewrite Hv, decide_False by lia. apply put_inode_low; [apply D|lia..]. }
    change (∃ fs, image files (mkMkfs l2 s.(sb) s.(freeinode) s.(freeblock)) fs).
    exists fs. split; cbn [img freeblock]; [|done| | | |by rewrite Hv by lia].
    + apply (disk_ok_low l1); [by apply put_inode_disk; [apply D|apply D|lia|done|]|by unfold l2; rewrite length_insert|by apply Forall_insert, bitmap_bytes_ok|].
      intros n Hr. rewrite Hv by (mkconst; lia). by rewrite decide_False by (mkconst; lia).
    + intros i g Hg. destruct (fo_entry _ _ G i g Hg) as (Eg & Egn & Egw). split_and!; [done|done|].
      pose proof (lookup_lt_Some _ _ _ Hg). pose proof (fo_next _ _ G). pose proof (iblock_range (1 + Z.of_nat i) ltac:(lia)).
      unfold entry_at. rewrite Hv, decide_False by lia. fold (entry_at l1 (1 + Z.of_nat i)).
      unfold l1. rewrite put_inode_entry by (apply D || done || lia).
      destruct (decide (i = 0%nat)) as [->|Hi]; [|by rewrite decide_False by lia]. rewrite decide_True by done. by simplify_eq.
    + rewrite Hlow by lia. by rewrite (fo_low _ _ G) by (mkconst; lia).
    + intros n Hr. rewrite Hlow by lia. rewrite (fo_low _ _ G) by (mkconst; lia). by rewrite decide_False by lia.
Qed.

Lemma main_run files : inputs_ok files → wp (main files) (λ _ s, ∃ fs, image files s fs) fresh.
Proof.
  intros [Hi Hn Hs]. unfold main. apply wp_bind, wp_modify. apply wp_bind, wp_modify.
  apply wp_seq2. eapply wp_mono; [by apply zero_run|]. intros [] s ->.
  pose proof (space_prefix [] files) as Hp. rewrite app_nil_l in Hp. unfold files_of at 1 in Hp. rewrite space_cons in Hp. cbn [snd fmap list_fmap] in Hp.
  change (space []) with 0 in Hp. set (d1 := dirent_bytes 1 [46]) in *. set (d2 := dirent_bytes 1 [46; 46]) in *.
  assert (Er : root_data [] = d1 ++ d2) by (unfold root_data; cbn; by rewrite app_nil_r).
  pose proof (blocks_mono d1 (root_data []) ltac:(rewrite Er, length_app; lia)) as Hm.
  assert (H1 : length d1 = 16%nat ∧ length d2 = 16%nat) by (split; apply length_dirent). destruct H1 as [Hd1 Hd2].
  apply wp_bind. eapply wp_mono; [apply (ialloc_holds _ [] INODE_DIRECTORY fresh_holds); [unfold uint; by vm_compute|cbn; lia]|].
  intros no s1 (-> & H1). cbn [length Z.of_nat app] in H1 |- *. rewrite Z.add_0_r. apply wp_bind, wp_assert; [done|]. fold d1 d2.
  apply wp_bind. eapply wp_mono; [apply (iappend_holds s1 _ 0 INODE_DIRECTORY [] d1 H1 eq_refl)|].
  { apply dirent_bytes_ok. repeat constructor; lia. }
  { cbn [app]. rewrite Hd1. lconst. lia. }
  { change (<[0%nat := ?x]> [?y]) with [x]. rewrite space_cons. cbn [snd app]. change (space []) with 0. lia. }
  intros [] s2 H2. change (<[0%nat := ?x]> [?y]) with [x] in H2. apply wp_bind. eapply wp_mono.
  { apply (iappend_holds s2 _ 0 INODE_DIRECTORY d1 d2 H2 eq_refl).
    - apply dirent_bytes_ok. repeat constructor; lia.
    - rewrite length_app, Hd1, Hd2. lconst. lia.
    - change (<[0%nat := ?x]> [?y]) with [x]. rewrite space_cons, <-Er. cbn [snd]. change (space []) with 0. lia. }
  intros [] s3 H3. change (<[0%nat := ?x]> [?y]) with [x] in H3. rewrite <-Er in H3.
  apply wp_bind. eapply wp_mono; [apply (files_holds files s3 [] H3); by split|]. intros [] s4 H4. by apply finish_run.
Qed.

(** ** What the kernel finds *)

Lemma super_bitmap m : is_bitmap super m ↔ m = 91.
Proof. unfold is_bitmap. change (bitmap_start super) with 91. change ((num_blocks super - 1) / BIT_PER_BLOCK) with 0. lia. Qed.
Lemma super_layout : layout_ok super.
Proof.
  split; [change (num_blocks super) with 1000; lconst; lia|change (bitmap_start super) with 91; lia|].
  rewrite super_bitmap. change (log_start super) with 2. lia.
Qed.
#[local] Instance mk_store : BlockOps St := cache_store super.
#[local] Instance mk_laws : BlockLaws St := cache_laws super super_layout.

(** The ghost state of a transaction of [u] units over the image. *)
Definition image_ghost (s : mkfs) (u : Z) : ghost := mkGhost (view s.(img)) ∅ ∅ (list_to_set (zseq 0 s.(freeblock))) ∅ u.

Lemma bit_zero_block k : bit zero_block k = false.
Proof. unfold bit. by rewrite byte_at_zero, Z.bits_0. Qed.

Lemma bitmap_bit fb n : 0 ≤ fb ≤ FSSIZE → 0 ≤ n < FSSIZE → bit (bitmap_bytes fb) n = (n <? fb).
Proof.
  intros Hfb Hn. assert (H : ∀ l d, block_ok d → (∀ x, x ∈ l → 0 ≤ x < FSSIZE) → bit (foldl set_bit d l) n = bool_decide (n ∈ l) || bit d n).
  { induction l as [|x l IH]; intros d Hd Hl; cbn [foldl].
    - rewrite bool_decide_false by apply not_elem_of_nil. done.
    - assert (0 ≤ x < FSSIZE) by (apply Hl, list_elem_of_here). rewrite IH by (try (by apply set_bit_ok); intros; apply Hl; by apply list_elem_of_further).
      rewrite bit_set_bit by (mkconst; lia || done). destruct (decide (n = x)) as [->|Hne].
      + rewrite (bool_decide_true (x ∈ x :: l)) by apply list_elem_of_here. by rewrite orb_true_r.
      + f_equal. apply bool_decide_ext. rewrite elem_of_cons. tauto. }
  unfold bitmap_bytes. rewrite H; [|apply zero_block_ok|intros x Hx%elem_of_zseq; lia]. rewrite bit_zero_block, orb_false_r.
  destruct (Z.ltb_spec n fb); [apply bool_decide_true, elem_of_zseq; lia|apply bool_decide_false; rewrite elem_of_zseq; lia].
Qed.

Lemma super_file_block n : cache_file_block super n ↔ 0 < n < FSSIZE ∧ n ≠ 2 ∧ n ≠ 91.
Proof. unfold cache_file_block. rewrite super_bitmap. change (log_start super) with 2. change (num_blocks super) with FSSIZE. tauto. Qed.

Lemma used_image files s fs v n : image files s fs → (∀ m, 0 ≤ m < FSSIZE → v m = view s.(img) m) → 0 ≤ n < FSSIZE →
  used super v n = (n <? s.(freeblock)).
Proof.
  intros I Hv Hn. pose proof (d_fb _ _ _ (im_disk _ _ _ I)). unfold used, BBLOCK. change (bitmap_start super) with 91. mkconst.
  rewrite Z.div_small, Z.mod_small by lia. rewrite Hv by lia. change (0 + 91) with 91. rewrite (im_bitmap _ _ _ I).
  apply bitmap_bit; mkconst; lia.
Qed.

Lemma disk_entry_eq s u no : 0 ≤ no ≤ 207 → disk_entry super (image_ghost s u) no = entry_at s.(img) no.
Proof.
  intros Hno. pose proof (iblock_range no Hno) as Hr. unfold disk_entry, entry_at. change (gview (image_ghost s u)) with (view s.(img)).
  assert (E : to_block_no super no = iblock no).
  { unfold to_block_no. change (inode_start super) with 65. apply u64_small. unfold iblock in *. lia. }
  by rewrite E.
Qed.

Section mounted.
Context (files : list host_file) (s : mkfs) (fs : list afile) (u : Z).
Hypothesis I : image files s fs.
Hypothesis Hn : Z.of_nat (length files) ≤ 206.
Abbreviation g := (image_ghost s u).
Abbreviation D := (im_disk _ _ _ I).

Lemma in_used n : n ∈ gused g ↔ 0 ≤ n < s.(freeblock).
Proof. cbn. rewrite elem_of_list_to_set, elem_of_zseq. done. Qed.

Lemma fs_length : length fs = S (length files).
Proof. pose proof (f_equal length (im_cont _ _ _ I)) as H. unfold cont in H. rewrite length_fmap in H. rewrite H. cbn. by rewrite length_fmap. Qed.

Lemma mounted_tx c (s0 : St) O : FsLog.booted s0 → (∀ n, 0 ≤ n < FSSIZE → disk_get (disk s0) n = view s.(img) n) →
  logok s0 ∅ O → c ∈ O → rm_of (ctxs s0) c = u → tx c s0 g.
Proof.
  intros B Hd Hlog Hc Hu. pose proof (d_fb _ _ _ D) as Hfb. exists (disk_get (disk s0)), O.
  assert (U : ∀ n, 0 ≤ n < FSSIZE → used super (disk_get (disk s0)) n = (n <? s.(freeblock))) by (intros; by eapply used_image).
  split; cbn [gheld glog gunits gdirty gview image_ghost]; [by apply booted_repr|done|done|done| | | | |by intros n ?%not_elem_of_empty].
  - intros n [Hr _]%super_file_block. by rewrite Hd by lia.
  - by intros n ?%not_elem_of_empty.
  - intros n. change (num_blocks super) with FSSIZE. rewrite in_used. split.
    + intros Hr. split; [lia|]. rewrite U by lia. apply Z.ltb_lt. lia.
    + intros [Hr Hb]. rewrite U in Hb by done. apply Z.ltb_lt in Hb. lia.
  - change (num_blocks super) with FSSIZE. intros n Hr Hf. rewrite U by done. apply Z.ltb_lt. rewrite super_file_block in Hf. mkconst.
    destruct (decide (n < 92)); [lia|]. exfalso. apply Hf. lia.
Qed.

Lemma mounted_good n : 0 < n < s.(freeblock) → n ≠ 2 → n ≠ 91 → good g n.
Proof.
  intros Hr H2 H91. pose proof (d_fb _ _ _ D). split_and!; [apply super_file_block; lia|apply in_used; lia|apply not_elem_of_empty].
Qed.

Lemma mounted_inodes : inodes_ok super g.
Proof.
  split; [|by vm_compute|by vm_compute]. intros no Hno. change (num_inodes super) with 200 in Hno.
  pose proof (iblock_range no ltac:(lia)) as Hr. assert (E : to_block_no super no = iblock no).
  { unfold to_block_no. change (inode_start super) with 65. apply u64_small. unfold iblock in *. lia. }
  pose proof (d_fb _ _ _ D). rewrite E. apply mounted_good; mkconst; lia.
Qed.

(** The entry of a file, possibly with another size that its blocks can hold. *)
Lemma mounted_file i f e : fs !! i = Some f → inode_ok e → addrs e = addrs f.(a_entry) → indirect e = indirect f.(a_entry) →
  0 ≤ num_bytes e ≤ f.(a_nb) * BLOCK_SIZE →
  file_inv g e ∧ ∀ x, 0 ≤ x < f.(a_nb) * BLOCK_SIZE → file_byte g e x = nth (Z.to_nat x) f.(a_data) 0.
Proof.
  intros Hi He E1 E2 Hs. pose proof (d_file _ _ _ D i f Hi) as X. pose proof (d_fb _ _ _ D) as Hfb. pose proof (fa_nb _ _ X) as Hnb.
  assert (B : ∀ k, block_of g e k = blk s.(img) f.(a_entry) k) by (intros k; unfold blk, block_of, ind_addr; by rewrite E1, E2).
  assert (S : ∀ k, in_range k → block_of g e k = slot s.(img) f.(a_entry) k) by (intros k Hk; by rewrite B, slot_direct).
  assert (G : ∀ k, slot_range k → slot s.(img) f.(a_entry) k ≠ 0 → good g (slot s.(img) f.(a_entry) k)).
  { intros k Hk Hne. pose proof (d_slot _ _ _ D i f k Hi Hk Hne). apply mounted_good; mkconst; lia. }
  assert (R : ∀ x, 0 ≤ x < f.(a_nb) * BLOCK_SIZE → in_range (x / BLOCK_SIZE) ∧ x / BLOCK_SIZE < f.(a_nb)).
  { intros x Hx. pose proof (byte_block x ltac:(lia)). split; [split; lconst; lia|lconst; lia]. }
  split.
  - split; [done|lconst; lia| | | | |].
    + intros k Hk. rewrite S by done. apply G. by apply in_slot.
    + intros Hne. rewrite E2 in *. apply (G (-1)); [split; mkconst; lia|done].
    + intros j k Hj Hk Hne E. rewrite !S in * by done. by apply (d_inj _ _ _ D i i f f j k Hi Hi (in_slot j Hj) (in_slot k Hk)).
    + intros Hne k Hk E. rewrite S, E2 in * by done. rewrite <-(slot_ind s.(img)) in E, Hne. symmetry in E.
      apply (d_inj _ _ _ D i i f f (-1) k Hi Hi) in E as [_ <-]; [destruct Hk; lia|split; mkconst; lia|by apply in_slot|done].
    + intros x Hx. destruct (R x ltac:(lia)). rewrite B. by apply (fa_map _ _ X).
  - intros x Hx. unfold file_byte. rewrite B. by apply X.
Qed.
End mounted.

(** *** Directory entries *)

Definition root_entries (files : list host_file) : list (Z * list Z) :=
  (1, [46]) :: (1, [46; 46]) :: imap (λ k f, (2 + Z.of_nat k, fname f)) files.
Abbreviation NAME := (Z.to_nat FILE_NAME_MAX_LENGTH).
Abbreviation key name := (cstr NAME name).

Lemma root_data_entries files : root_data files = concat ((λ e, dirent_bytes e.1 e.2) <$> root_entries files).
Proof. unfold root_data, root_entries. cbn. rewrite fmap_imap. done. Qed.

Lemma slice_concat {A} (ls : list (list A)) n k l : Forall (λ l, length l = n) ls → ls !! k = Some l → slice (concat ls) (n * k) n = l.
Proof.
  intros H. revert k. induction H as [|x ls Hx Hls IH]; intros [|k] Hk; try done; cbn [concat] in *.
  - injection Hk as ->. unfold slice. rewrite Nat.mul_0_r, drop_0. by rewrite take_app_length'.
  - unfold slice. rewrite drop_app_ge by lia. replace (n * S k - length x)%nat with (n * k)%nat by lia. by apply IH.
Qed.

Lemma cstr_cpad_any n s : cstr n (cpad n s) = cstr n s.
Proof.
  revert s. induction n as [|n IH]; intros s; [done|]. destruct s as [|c s]; [done|]. unfold cpad. cbn [cstr].
  destruct (c =? 0) eqn:E; [done|]. cbn [app]. rewrite E. f_equal. apply IH.
Qed.

Lemma length_root_entries files : length (root_entries files) = (2 + length files)%nat.
Proof. unfold root_entries. cbn. by rewrite length_imap. Qed.

Lemma root_entry_ok files k no name : Forall input_ok files → Z.of_nat (length files) ≤ 206 → root_entries files !! k = Some (no, name) →
  uint 2 no ∧ no ≠ 0 ∧ Forall byte_ok name.
Proof.
  intros Hi Hn. unfold root_entries. destruct k as [|[|k]].
  - intros [= <- <-]. split_and!; [by vm_compute|done|]. repeat constructor; lia.
  - intros [= <- <-]. split_and!; [by vm_compute|done|]. repeat constructor; lia.
  - change ((?a :: ?b :: ?c) !! S (S ?k)) with (c !! k). rewrite list_lookup_imap. destruct (files !! k) as [f|] eqn:E; [|done]. intros [= <- <-]. pose proof (lookup_lt_Some _ _ _ E).
    split_and!; [unfold uint; lia|lia|]. apply fname_ok. rewrite Forall_forall in Hi. apply Hi. by eapply list_elem_of_lookup_2.
Qed.

Lemma root_slice files k no name : root_entries files !! k = Some (no, name) → slice (root_data files) (16 * k) 16 = dirent_bytes no name.
Proof.
  intros Hk. rewrite root_data_entries. apply slice_concat.
  - apply Forall_fmap, Forall_true. intros x. apply length_dirent.
  - by rewrite list_lookup_fmap, Hk.
Qed.

Section lookups.
Context (files : list host_file) (g : ghost) (e : InodeEntry) (N : Z).
Hypothesis Hi : Forall input_ok files.
Hypothesis Hn : Z.of_nat (length files) ≤ 206.
Hypothesis Hsz : num_bytes e = N * sizeof_DirEntry ∧ Z.of_nat (2 + length files) ≤ N.
Hypothesis Hb : ∀ x, 0 ≤ x < N * sizeof_DirEntry → file_byte g e x = nth (Z.to_nat x) (root_data files) 0.
Hypothesis Hnd : NoDup ((λ e, key e.2) <$> root_entries files).

Lemma dirent_raw k : 0 ≤ k < N → dirent_at g e (sizeof_DirEntry * k) =
  decode_dirent ((λ x, nth (Z.to_nat x) (root_data files) 0) <$> zseq (sizeof_DirEntry * k) (sizeof_DirEntry * k + sizeof_DirEntry)).
Proof.
  intros Hk. unfold dirent_at. f_equal. apply list_fmap_ext. intros i x Hx. apply Hb.
  pose proof (lookup_lt_Some _ _ _ Hx) as Hl. rewrite length_zseq in Hl. rewrite lookup_zseq in Hx by done. injection Hx as <-. lconst. lia.
Qed.

Lemma dirent_used k no name : root_entries files !! k = Some (no, name) →
  dirent_at g e (sizeof_DirEntry * Z.of_nat k) = mkDirEntry no (cpad NAME name).
Proof.
  intros Hk. pose proof (lookup_lt_Some _ _ _ Hk) as Hl. rewrite length_root_entries in Hl.
  destruct (root_entry_ok files k no name Hi Hn Hk) as (Hu & _ & Hnm). rewrite dirent_raw by lia.
  replace (_ <$> _) with (dirent_bytes no name).
  - rewrite dirent_bytes_eq by done. apply decode_encode_dirent. by apply dirent_value.
  - rewrite <-(root_slice files k no name Hk). pose proof (length_root files) as Hlr. apply list_eq_same_length with 16%nat.
    + rewrite length_fmap, length_zseq. lconst. lia.
    + apply length_slice. lia.
    + intros i x y Hil Hx Hy. rewrite lookup_slice in Hx by done. rewrite list_lookup_fmap, lookup_zseq in Hy by (lconst; lia).
      change (Some (nth (Z.to_nat (sizeof_DirEntry * Z.of_nat k + Z.of_nat i)) (root_data files) 0) = Some y) in Hy.
      apply (inj Some) in Hy. subst y. symmetry. apply nth_lookup_Some. rewrite <-Hx. f_equal. lconst. lia.
Qed.

Lemma dirent_free k : Z.of_nat (2 + length files) ≤ k < N → de_inode_no (dirent_at g e (sizeof_DirEntry * k)) = 0.
Proof.
  intros Hk. rewrite dirent_raw by lia. pose proof (length_root files) as Hlr. set (l := _ <$> _). cbn [decode_dirent de_inode_no].
  unfold decode_dirent. cbn [de_inode_no]. apply le_value_zero, Forall_take. unfold l. apply Forall_fmap, Forall_forall.
  intros x Hx%elem_of_zseq. cbn. apply nth_overflow. lconst. lia.
Qed.

Lemma root_matches k name : 0 ≤ k < N → matches g e name (sizeof_DirEntry * k) = true ↔
  ∃ no name0, root_entries files !! Z.to_nat k = Some (no, name0) ∧ key name0 = key name.
Proof.
  intros Hk. unfold matches. destruct (root_entries files !! Z.to_nat k) as [[no name0]|] eqn:E.
  - destruct (root_entry_ok files _ no name0 Hi Hn E) as (_ & Hno & _). pose proof (dirent_used _ _ _ E) as Ed. rewrite Z2Nat.id in Ed by lia.
    rewrite Ed. cbn [de_inode_no de_name]. rewrite (proj2 (Z.eqb_neq _ _)) by done. cbn [negb andb]. rewrite bool_decide_eq_true, cstr_cpad_any.
    split; [intros H; by exists no, name0|]. intros (? & ? & ? & ?). by simplify_eq.
  - rewrite dirent_free; [|apply lookup_ge_None in E; rewrite length_root_entries in E; lia]. cbn. split; [done|]. by intros (? & ? & ? & _).
Qed.

(** Every name is found, where the program put it. *)
Lemma root_lookup k no name name' : root_entries files !! k = Some (no, name) → key name' = key name →
  lookup_spec g e name' = Some (no, sizeof_DirEntry * Z.of_nat k).
Proof.
  intros Hk Ekey. destruct Hsz as [Es HN]. pose proof (lookup_lt_Some _ _ _ Hk) as Hl. rewrite length_root_entries in Hl.
  unfold lookup_spec. rewrite Es, dir_offsets_eq by (lconst; try apply Z_mod_mult; lia). rewrite Z.div_mul by (lconst; lia).
  assert (F : list_find (λ off, matches g e name' off = true) ((λ k, sizeof_DirEntry * k) <$> zseq 0 N) = Some (k, sizeof_DirEntry * Z.of_nat k)).
  { apply list_find_Some. split_and!.
    - rewrite list_lookup_fmap, lookup_zseq by lia. done.
    - apply root_matches; [lia|]. rewrite Nat2Z.id. by exists no, name.
    - intros j y Hj Hlt. rewrite list_lookup_fmap, lookup_zseq in Hj by lia. cbn in Hj. injection Hj as <-.
      intros (no2 & name2 & H2 & E2)%root_matches; [|lia]. replace (Z.to_nat (0 + Z.of_nat j)) with j in H2 by lia.
      assert (j = k); [|lia]. eapply (NoDup_lookup _ j k (key name')); [exact Hnd| |].
      + rewrite list_lookup_fmap, H2. cbn. by rewrite E2.
      + rewrite list_lookup_fmap, Hk. cbn. by rewrite Ekey. }
  rewrite F. cbn. by rewrite (dirent_used k no name Hk).
Qed.
End lookups.

(** ** The theorems *)

Section made.
Context (files : list host_file) (s : mkfs) (fs : list afile).
Hypothesis I : image files s fs.
Hypothesis Hn : Z.of_nat (length files) ≤ 206.

Lemma made_file k f : files !! k = Some f → ∃ a, fs !! S k = Some a ∧ a.(a_data) = content f ∧ a.(a_type) = INODE_REGULAR ∧
  entry_at s.(img) (2 + Z.of_nat k) = a.(a_entry) ∧ num_bytes a.(a_entry) = Z.of_nat (length (content f)) ∧ file_at s.(img) a.
Proof.
  intros Hk. assert (Hc : cont fs !! S k = Some (INODE_REGULAR, content f)).
  { rewrite (im_cont _ _ _ I). unfold files_of. change ((?a :: ?b) !! S ?n) with (b !! n). by rewrite list_lookup_fmap, Hk. }
  unfold cont in Hc. rewrite list_lookup_fmap in Hc. destruct (fs !! S k) as [a|] eqn:Ha; [|done]. injection Hc as Ht Hd.
  destruct (im_entry _ _ _ I (S k) a Ha) as (Hw & Hb & He). rewrite decide_False in He by done.
  exists a. split_and!; [done|done|done| |by rewrite Hb, Hd|by apply (d_file _ _ _ (im_disk _ _ _ I) (S k))].
  rewrite <-He. f_equal. lia.
Qed.

Lemma made_root : ∃ a, fs !! 0%nat = Some a ∧ a.(a_data) = root_data files ∧ a.(a_type) = INODE_DIRECTORY ∧
  entry_at s.(img) 1 = with_num_bytes (root_size files) a.(a_entry) ∧ a.(a_nb) = nblocks (Z.of_nat (length (root_data files))) ∧ file_at s.(img) a.
Proof.
  assert (Hc : cont fs !! 0%nat = Some (INODE_DIRECTORY, root_data files)) by by rewrite (im_cont _ _ _ I).
  unfold cont in Hc. rewrite list_lookup_fmap in Hc. destruct (fs !! 0%nat) as [a|] eqn:Ha; [|done]. injection Hc as Ht Hd.
  destruct (im_entry _ _ _ I 0 a Ha) as (Hw & Hb & He). exists a. unfold whole in Hw. rewrite Hd in Hw.
  split_and!; [done|done|done|done|done|]. by apply (d_file _ _ _ (im_disk _ _ _ I) 0%nat).
Qed.

Lemma root_size_blocks : (2 + Z.of_nat (length files)) mod 32 ≠ 0 →
  root_size files = nblocks (Z.of_nat (length (root_data files))) * BLOCK_SIZE.
Proof.
  intros Hm. unfold root_size, nblocks. rewrite length_root. lconst. set (m := 2 + Z.of_nat (length files)) in *.
  replace (Z.of_nat (16 * (2 + length files))) with (16 * m) by lia. pose proof (Z.div_mod m 32 ltac:(lia)). pose proof (Z.mod_pos_bound m 32 ltac:(lia)).
  replace (16 * m / 512) with (m / 32) by (apply (Z.div_unique _ _ _ (16 * (m mod 32))); lia). f_equal.
  apply (Z.div_unique _ _ _ (16 * (m mod 32) - 1)); lia.
Qed.
End made.

Lemma bytes_content (d : list Z) (h : Z → Z) : (∀ x, 0 ≤ x < Z.of_nat (length d) → h x = nth (Z.to_nat x) d 0) →
  h <$> zseq 0 (Z.of_nat (length d)) = d.
Proof.
  intros H. apply list_eq_same_length with (length d); [done|rewrite length_fmap, length_zseq; lia|].
  intros i x y Hi Hx Hy. rewrite list_lookup_fmap, lookup_zseq in Hx by lia. apply (inj Some) in Hx. cbn in Hx. rewrite <-Hx, H by lia.
  replace (Z.to_nat (0 + Z.of_nat i)) with i by lia. by rewrite nth_lookup, Hy.
Qed.

(** C10: The program succeeds when its input fits: the super block is what the
    kernel will read, the log is empty, the bitmap marks just the blocks that
    were handed out, of which there are as many as the files need, the rest of
    the image is clear, and each file has its entry and, through its direct and
    indirect blocks, its bytes. *)
Theorem mkfs_correct files : inputs_ok files →
  ∃ s, main files fresh = Ok (tt, s) ∧ length s.(img) = Z.to_nat FSSIZE ∧ Forall block_ok s.(img) ∧
    get_super_block (view s.(img) 1) = super ∧ (∀ n, 2 ≤ n < 65 → view s.(img) n = zero_block) ∧
    s.(freeblock) = nmeta + space (files_of files) ∧ (∀ n, s.(freeblock) ≤ n < FSSIZE → view s.(img) n = zero_block) ∧
    (∀ n, 0 ≤ n < FSSIZE → bit (view s.(img) 91) n = (n <? s.(freeblock))) ∧
    ∀ k f, files !! k = Some f → let e := entry_at s.(img) (2 + Z.of_nat k) in
      itype e = INODE_REGULAR ∧ num_links e = 1 ∧ num_bytes e = Z.of_nat (length (content f)) ∧
      ((λ x, byte_at (view s.(img) (blk s.(img) e (x / BLOCK_SIZE))) (x mod BLOCK_SIZE)) <$> zseq 0 (num_bytes e)) = content f.
Proof.
  intros H. destruct (main_run files H) as ([] & s & E & fs & I). pose proof (im_disk _ _ _ I) as D. exists s.
  split_and!; [done|apply D|apply D| |apply I| |apply D| |].
  - by rewrite (im_super _ _ _ I).
  - rewrite (d_count _ _ _ D), <-(im_cont _ _ _ I). f_equal. clear E H.
    assert (Hw : ∀ f, f ∈ fs → whole f) by (intros f [i Hi]%list_elem_of_lookup; by apply (im_entry _ _ _ I i)).
    clear -Hw. induction fs as [|f fs IH]; [done|]. unfold cont. rewrite fmap_cons, total_cons, space_cons. fold (cont fs).
    rewrite IH by (intros; apply Hw; by apply list_elem_of_further). by rewrite (Hw f) by apply list_elem_of_here.
  - intros n Hn. rewrite (im_bitmap _ _ _ I). pose proof (d_fb _ _ _ D). apply bitmap_bit; [mkconst; lia|done].
  - intros k f Hk e. destruct (made_file files s fs I k f Hk) as (a & Ha & Hd & Ht & He & Hb & X). unfold e. rewrite He.
    split_and!; [by rewrite (proj1 (fa_type _ _ X))|apply X|done|]. rewrite Hb.
    apply bytes_content. intros x Hx. pose proof (fa_len _ _ X) as Hl. rewrite Hd in Hl. rewrite (fa_bytes _ _ X) by lia. by rewrite Hd.
Qed.


(** ** Examples *)

(** One file, [a/_b], of 812 bytes, read in two pieces. *)
Definition one_file : list host_file := [mkHost [97; 47; 95; 98] (Some [replicate 512 7; replicate 300 8])].

Lemma one_file_ok : inputs_ok one_file.
Proof.
  split; [|by vm_compute|by vm_compute]. apply Forall_singleton. split.
  - repeat constructor; lia.
  - eexists. split; [reflexivity|]. apply Forall_cons_2; [|apply Forall_singleton]; apply Forall_replicate; unfold byte_ok; lia.
  - vm_compute. done.
Qed.

Lemma mkfs_correct_witness : inputs_ok one_file ∧ ∃ s, main one_file fresh = Ok (tt, s) ∧ s.(freeblock) = 95.
Proof.
  split; [exact one_file_ok|]. destruct (mkfs_correct one_file one_file_ok) as (s & E & _ & _ & _ & _ & Hb & _).
  exists s. split; [exact E|]. rewrite Hb. vm_compute. reflexivity.
Defined.

(** A machine that boots from the image and opens a transaction. *)
Definition boot_disk (l : list (list Z)) : gmap Z (list Z) := map_seqZ 0 l.
Definition boot_cache (l : list (list Z)) : St :=
  mkSt [] [] (mkLogHeader 0 (replicate 63 0)) (mkLOG false 1 10) (replicate 200 false) [mkOpContext 10] (boot_disk l) [].

Lemma boot_booted l : Forall block_ok l → FsLog.booted (boot_cache l).
Proof.
  intros H. split_and!; [done|done|]. intros n bs Hn. cbn in Hn. unfold boot_disk in Hn. apply lookup_map_seqZ_Some in Hn as [_ Hn].
  by eapply Forall_lookup_1 in Hn.
Qed.
Lemma boot_get l n : 0 ≤ n → disk_get (disk (boot_cache l)) n = view l n.
Proof. intros Hn. unfold disk_get, view. cbn. unfold boot_disk. rewrite lookup_map_seqZ. case_guard; [|lia]. cbn. by rewrite Z.sub_0_r. Qed.
Lemma boot_logok l : logok (boot_cache l) ∅ [0%nat].
Proof.
  split.
  - reflexivity.
  - cbn. lconst. lia.
  - apply Forall_replicate. unfold uint. lia.
  - constructor.
  - intros n. unfold logged; cbn. set_solver.
  - apply NoDup_singleton.
  - reflexivity.
  - cbn. lia.
  - intros c ->%list_elem_of_singleton. unfold rm_of, OP_MAX_NUM_BLOCKS; cbn; lia.
  - reflexivity.
  - cbn. lconst. lia.
Qed.


(** With thirty files the root directory has whole blocks of entries: its size
    is moved up by a block that it does not have. *)
Example root_block_missing : match main (replicate 30 (mkHost [97] (Some []))) fresh with
  | Ok (_, s) => let e := entry_at s.(img) 1 in num_bytes e = 1024 ∧ blk s.(img) e 0 = 92 ∧ blk s.(img) e 1 = 0
  | Fail _ => False
  end.
Proof. vm_compute. by split_and!. Qed.

(** With 207 files there is an inode 208: its entry goes to the block of the
    bitmap, which is written over it. *)
Example inode_in_bitmap : IBLOCK 208 super = bitmap_start super.
Proof. reflexivity. Qed.
