(* ===== verification/SepLogic.v ===== *)
(** * Assertions on a memory of 64-bit words

    A memory maps word addresses to words.  [hProp] are the assertions on it,
    closed under larger memories; with them comes an instance of Iris's [bi], so
    that its proof mode runs the proofs about the pointer code.  [wpm m Q] is
    the memory in which the code [m] returns with [Q], and leaves all other
    words alone: [wpm_adequate] reads it back as a statement about a run. *)

From S2P Require Import Prelude.
From iris.proofmode Require Import proofmode.

Abbreviation mem := (gmap Z Z).

(** ** Assertions *)

Record hProp := HProp {
  holds : mem → Prop;
  holds_mono h1 h2 : h1 ⊆ h2 → holds h1 → holds h2;
}.
Arguments HProp holds holds_mono : clear implicits.

Section ofe.
Inductive hProp_equiv' (P Q : hProp) : Prop := { equiv_at : ∀ h, holds P h ↔ holds Q h }.
#[export] Instance hProp_equiv : Equiv hProp := hProp_equiv'.
#[export] Instance hProp_equivalence : Equivalence (≡@{hProp}).
Proof.
  split.
  - intros P. by split.
  - intros P Q [H]. by split.
  - intros P Q R [H1] [H2]. split. intros h. by rewrite H1.
Qed.
Canonical Structure hPropO := discreteO hProp.
End ofe.

Section connectives.
Implicit Types P Q : hProp.

Inductive hProp_entails P Q : Prop := { entails_at : ∀ h, holds P h → holds Q h }.

Program Definition hProp_pure (φ : Prop) : hProp := HProp (λ _, φ) _.
Next Obligation. done. Qed.
Definition hProp_emp : hProp := hProp_pure True.
Program Definition hProp_and P Q : hProp := HProp (λ h, holds P h ∧ holds Q h) _.
Next Obligation. intros P Q h1 h2 Hs [??]. eauto using holds_mono. Qed.
Program Definition hProp_or P Q : hProp := HProp (λ h, holds P h ∨ holds Q h) _.
Next Obligation. intros P Q h1 h2 Hs [?|?]; eauto using holds_mono. Qed.
Program Definition hProp_impl P Q : hProp := HProp (λ h, ∀ h', h ⊆ h' → holds P h' → holds Q h') _.
Next Obligation. intros P Q h1 h2 Hs H h' Hs'. apply H. by etrans. Qed.
Program Definition hProp_forall {A} (Φ : A → hProp) : hProp := HProp (λ h, ∀ a, holds (Φ a) h) _.
Next Obligation. intros A Φ h1 h2 Hs H a. by eapply holds_mono. Qed.
Program Definition hProp_exist {A} (Φ : A → hProp) : hProp := HProp (λ h, ∃ a, holds (Φ a) h) _.
Next Obligation. intros A Φ h1 h2 Hs [a H]. exists a. by eapply holds_mono. Qed.
Program Definition hProp_sep P Q : hProp :=
  HProp (λ h, ∃ h1 h2, h1 ∪ h2 ⊆ h ∧ h1 ##ₘ h2 ∧ holds P h1 ∧ holds Q h2) _.
Next Obligation. intros P Q g1 g2 Hs (h1 & h2 & Hu & H). exists h1, h2. split; [by etrans|done]. Qed.
Program Definition hProp_wand P Q : hProp :=
  HProp (λ h, ∀ h', h ##ₘ h' → holds P h' → holds Q (h ∪ h')) _.
Next Obligation.
  intros P Q h1 h2 Hs H h' Hd HP. eapply holds_mono; [|apply (H h'); [|done]].
  - by apply map_union_mono_r.
  - by eapply map_disjoint_weaken_l.
Qed.
Definition hProp_persistently P : hProp := hProp_pure (hProp_entails hProp_emp P).
Definition hProp_later P : hProp := P.
End connectives.

Lemma hProp_bi_mixin :
  BiMixin hProp_entails hProp_emp hProp_pure hProp_and hProp_or hProp_impl
    (@hProp_forall) (@hProp_exist) hProp_sep hProp_wand.
Proof.
  split.
  - split; [by split|]. intros P Q R [H1] [H2]. split. auto.
  - intros P Q. split; [intros [H]; split; split; intros h; apply H|intros [[H1] [H2]]; split; split; auto].
  - intros n φ1 φ2 Hφ. split. intros h. exact Hφ.
  - intros n P P' [HP] Q Q' [HQ]. split. intros h. cbn. by rewrite HP HQ.
  - intros n P P' [HP] Q Q' [HQ]. split. intros h. cbn. by rewrite HP HQ.
  - intros n P P' [HP] Q Q' [HQ]. split. intros h. cbn. split; intros H h' Hs HX; apply HQ, H, HP; done.
  - intros A n Φ Ψ HΦ. split. intros h. cbn. split; intros H a; by apply HΦ.
  - intros A n Φ Ψ HΦ. split. intros h. cbn. split; intros [a H]; exists a; by apply HΦ.
  - intros n P P' [HP] Q Q' [HQ]. split. intros h. cbn.
    split; intros (h1 & h2 & Hu & Hd & H1 & H2); exists h1, h2; (split_and!; [done|done|by apply HP|by apply HQ]).
  - intros n P P' [HP] Q Q' [HQ]. split. intros h. cbn. split; intros H h' Hd HX; apply HQ, H, HP; done.
  - intros φ P Hφ. by split.
  - intros φ P H. split. intros h Hφ. by apply (H Hφ).
  - intros P Q. by split; intros h [??].
  - intros P Q. by split; intros h [??].
  - intros P Q R [H1] [H2]. split. intros h HP. split; auto.
  - intros P Q. split. intros h. by left.
  - intros P Q. split. intros h. by right.
  - intros P Q R [H1] [H2]. split. intros h [?|?]; auto.
  - intros P Q R [H]. split. intros h HP h' Hs HQ. apply H. split; [by eapply holds_mono|done].
  - intros P Q R [H]. split. intros h [HP HQ]. by apply (H h HP).
  - intros A P Ψ H. split. intros h HP a. by apply (H a).
  - intros A Ψ a. split. intros h H. apply H.
  - intros A Ψ a. split. intros h H. by exists a.
  - intros A Φ Q H. split. intros h [a Ha]. by apply (H a).
  - intros P P' Q Q' [H1] [H2]. split. intros h (h1 & h2 & Hu & Hd & HP & HQ). exists h1, h2. auto.
  - intros P. split. intros h HP. exists ∅, h. split_and!; [by rewrite (left_id_L ∅ (∪))|apply map_disjoint_empty_l|done|done].
  - intros P. split. intros h (h1 & h2 & Hu & Hd & _ & HP). eapply holds_mono; [|done].
    etrans; [|done]. by apply map_union_subseteq_r.
  - intros P Q. split. intros h (h1 & h2 & Hu & Hd & HP & HQ). exists h2, h1.
    split_and!; [by rewrite map_union_comm|done|done|done].
  - intros P Q R. split. intros h (g & h3 & Hu & Hd & (h1 & h2 & Hu' & Hd' & HP & HQ) & HR).
    assert (Hd3 : h1 ∪ h2 ##ₘ h3) by by eapply map_disjoint_weaken_l.
    apply map_disjoint_union_l in Hd3 as [Hd1 Hd2].
    exists h1, (h2 ∪ h3). split_and!; [|by apply map_disjoint_union_r|done|exists h2, h3; done].
    rewrite (assoc_L (∪)). etrans; [|done]. by apply map_union_mono_r.
  - intros P Q R [H]. split. intros h HP h' Hd HQ. apply H. exists h, h'. done.
  - intros P Q R [H]. split. intros h (h1 & h2 & Hu & Hd & HP & HQ).
    eapply holds_mono; [done|]. by apply (H h1 HP).
Qed.

Lemma hProp_persistently_mixin :
  BiPersistentlyMixin hProp_entails hProp_emp hProp_and (@hProp_exist) hProp_sep hProp_persistently.
Proof.
  eapply bi_persistently_mixin_discrete, hProp_bi_mixin; [done| |done].
  (* The empty memory chooses the witness. *)
  intros A Φ [H]. destruct (H ∅ I) as [x Hx]. exists x. split. intros h _.
  eapply holds_mono; [apply map_empty_subseteq|exact Hx].
Qed.

Lemma hProp_later_mixin :
  BiLaterMixin hProp_entails hProp_pure hProp_or hProp_impl (@hProp_forall) (@hProp_exist)
    hProp_sep hProp_persistently hProp_later.
Proof. by eapply bi_later_mixin_id, hProp_bi_mixin. Qed.

Canonical Structure hPropI : bi := {|
  bi_ofe_mixin := ofe_mixin_of hProp;
  bi_bi_mixin := hProp_bi_mixin;
  bi_bi_persistently_mixin := hProp_persistently_mixin;
  bi_bi_later_mixin := hProp_later_mixin |}.

#[export] Instance hProp_pure_forall : BiPureForall hPropI.
Proof. intros A φ. split. intros h H a. apply H. Qed.
#[export] Instance hProp_affine : BiAffine hPropI.
Proof. intros P. by split. Qed.

(** ** Words *)

Program Definition pointsto (p v : Z) : hProp := HProp (λ h, h !! p = Some v) _.
Next Obligation. intros p v h1 h2 Hs H. exact (lookup_weaken _ _ _ _ H Hs). Qed.
Notation "p ↦ v" := (pointsto p v) (at level 20) : bi_scope.

Lemma pointsto_ne p q v w : p ↦ v -∗ q ↦ w -∗ ⌜p ≠ q⌝.
Proof.
  apply bi.entails_wand, bi.wand_intro_r. split. intros h (h1 & h2 & Hu & Hd & H1 & H2). change (p ≠ q). intros ->.
  exact (proj1 (map_disjoint_spec h1 h2) Hd q v w H1 H2).
Qed.

(** ** Code *)

Definition load (p : Z) : M mem Z := h ← gets id; deref (h !! p).
Definition store (p v : Z) : M mem unit := load p ;; modify (<[p := v]>).

(** Whatever else the memory holds, [m] returns, leaves it alone, and ends with
    [Q] for the rest. *)
Program Definition wpm {A} (m : M mem A) (Q : A → hProp) : hProp :=
  HProp (λ h, ∀ hf, h ##ₘ hf → ∃ a h', m (h ∪ hf) = Ok (a, h' ∪ hf) ∧ h' ##ₘ hf ∧ holds (Q a) h') _.
Next Obligation.
  intros A m Q h1 h2 Hs H hf Hd. pose proof (map_difference_union h1 h2 Hs) as Eu.
  pose proof (map_disjoint_difference_r1 h2 h1 h1 (reflexivity h1)) as Hd1.
  set (d := h2 ∖ h1) in *. clearbody d. subst h2. clear Hs.
  apply map_disjoint_union_l in Hd as [Hd2 Hd3].
  destruct (H (d ∪ hf)) as (a & h' & E & Hd' & HQ); [by apply map_disjoint_union_r|].
  apply map_disjoint_union_r in Hd' as [Hd4 Hd5].
  exists a, (h' ∪ d). rewrite -!(assoc_L (∪)). split_and!; [done|by apply map_disjoint_union_l|].
  eapply holds_mono; [by apply map_union_subseteq_l|done].
Qed.

Lemma wpm_adequate {A} (m : M mem A) (P : hProp) (Q : A → hProp) h hf :
  (P ⊢ wpm m Q) → holds P h → h ##ₘ hf →
  wp m (λ a s', ∃ h', s' = h' ∪ hf ∧ h' ##ₘ hf ∧ holds (Q a) h') (h ∪ hf).
Proof.
  intros [H] HP Hd. destruct (H h HP hf Hd) as (a & h' & E & Hd' & HQ).
  exists a, (h' ∪ hf). split; [done|]. by exists h'.
Qed.

Lemma wpm_ret {A} (a : A) (Q : A → hProp) : Q a ⊢ wpm (mret a) Q.
Proof. split. intros h HQ hf Hd. by exists a, h. Qed.

Lemma wpm_bind {A B} (m : M mem A) (f : A → M mem B) (Q : B → hProp) :
  wpm m (λ a, wpm (f a) Q) ⊢ wpm (m ≫= f) Q.
Proof.
  split. intros h H hf Hd. destruct (H hf Hd) as (a & h' & E & Hd' & HQ).
  destruct (HQ hf Hd') as (b & h'' & E' & Hd'' & HQ'). exists b, h''. by rewrite (bind_Ok _ _ _ _ _ E).
Qed.

Lemma wpm_mono {A} (m : M mem A) (P Q : A → hProp) : wpm m P -∗ (∀ a, P a -∗ Q a) -∗ wpm m Q.
Proof.
  apply bi.entails_wand, bi.wand_intro_r. split. intros h (h1 & h2 & Hu & Hd & HP & HPQ). eapply holds_mono; [done|].
  intros hf Hdf. apply map_disjoint_union_l in Hdf as [Hd1 Hd2].
  destruct (HP (h2 ∪ hf)) as (a & h' & E & Hd' & H); [by apply map_disjoint_union_r|].
  apply map_disjoint_union_r in Hd' as [Hd3 Hd4]. exists a, (h' ∪ h2). rewrite -!(assoc_L (∪)).
  split_and!; [done|by apply map_disjoint_union_l|]. rewrite map_union_comm; [|done]. by apply HPQ.
Qed.

Lemma wpm_load p v (Q : Z → hProp) : p ↦ v -∗ (p ↦ v -∗ Q v) -∗ wpm (load p) Q.
Proof.
  iIntros "Hp HQ".
  iAssert (wpm (load p) (λ w, ⌜w = v⌝ ∗ p ↦ v))%I with "[Hp]" as "W".
  { iStopProof. split. intros h Hp hf Hd. exists v, h. split_and!; [|done|].
    - unfold load. rewrite bind_run. cbn. by rewrite (lookup_union_Some_l _ _ _ _ Hp).
    - exists ∅, h. split_and!; [by rewrite (left_id_L ∅ (∪))|apply map_disjoint_empty_l|done|done]. }
  iApply (wpm_mono with "W"). iIntros (a) "[-> Hp]". by iApply "HQ".
Qed.

Lemma wpm_store p v w (Q : unit → hProp) : p ↦ v -∗ (p ↦ w -∗ Q tt) -∗ wpm (store p w) Q.
Proof.
  iIntros "Hp HQ".
  iAssert (wpm (store p w) (λ _, p ↦ w))%I with "[Hp]" as "W".
  { iStopProof. split. intros h Hp hf Hd. exists tt, (<[p := w]> h).
    assert (hf !! p = None) by exact (map_disjoint_Some_l _ _ _ _ Hd Hp).
    split_and!; [|by apply map_disjoint_insert_l|apply lookup_insert_eq].
    unfold store, load. rewrite !bind_run. cbn. rewrite (lookup_union_Some_l _ _ _ _ Hp). cbn.
    by rewrite -insert_union_l. }
  iApply (wpm_mono with "W"). iIntros ([]). done.
Qed.

(** ** Reading assertions back *)

Lemma holds_entails (P Q : hProp) h : (P ⊢ Q) → holds P h → holds Q h.
Proof. intros [H]. apply H. Qed.

Lemma holds_pure_sep (φ : Prop) (P : hProp) h : holds (⌜φ⌝ ∗ P)%I h → φ ∧ holds P h.
Proof.
  intros H. assert (E1 : (⌜φ⌝ ∗ P)%I ⊢@{hPropI} ⌜φ⌝) by iIntros "[$ _]".
  assert (E2 : (⌜φ⌝ ∗ P)%I ⊢@{hPropI} P) by iIntros "[_ $]".
  split; [exact (holds_entails _ _ h E1 H)|exact (holds_entails _ _ h E2 H)].
Qed.

Lemma holds_cell_sep p v (P : hProp) h : h !! p = None → holds P h → holds (p ↦ v ∗ P)%I (<[p := v]> h).
Proof.
  intros Hp HP. exists {[p := v]}, h. split_and!; [by rewrite insert_union_singleton_l| |apply lookup_singleton_eq|done].
  by apply map_disjoint_singleton_l.
Qed.

Lemma holds_sep (P Q : hProp) h1 h2 : h1 ##ₘ h2 → holds P h1 → holds Q h2 → holds (P ∗ Q)%I (h1 ∪ h2).
Proof. intros Hd HP HQ. by exists h1, h2. Qed.

(** ** Memory with other state

    Code on a memory and on state of its own, [R]: the assertion is on the
    memory, the state is threaded through. *)

Section rest.
Context {R : Type}.
Implicit Types r : R.

Definition on_mem {A} (m : M mem A) : M (mem * R) A := zoom fst (λ h s, (h, s.2)) m.
Definition on_rest {A} (m : M R A) : M (mem * R) A := zoom snd (λ r s, (s.1, r)) m.

(** A run from [r], as code on the memory that also returns the state. *)
Definition at_rest {A} (m : M (mem * R) A) r : M mem (A * R) :=
  λ h, match m (h, r) with Ok (a, (h', r')) => Ok ((a, r'), h') | Fail e => Fail e end.

Definition wpv {A} (m : M (mem * R) A) (Q : A → R → hProp) r : hProp := wpm (at_rest m r) (λ x, Q x.1 x.2).

Lemma wpm_ext {A} (m m' : M mem A) (Q : A → hProp) : (∀ h, m h = m' h) → wpm m Q ⊢ wpm m' Q.
Proof. intros E. split. intros h H hf Hd. rewrite -E. by apply H. Qed.

Lemma wpv_ret {A} (a : A) (Q : A → R → hProp) r : Q a r ⊢ wpv (mret a) Q r.
Proof. iIntros "H". by iApply (wpm_ret (a, r)). Qed.

Lemma wpv_bind {A B} (m : M (mem * R) A) (f : A → M (mem * R) B) (Q : B → R → hProp) r :
  wpv m (λ a, wpv (f a) Q) r ⊢ wpv (m ≫= f) Q r.
Proof.
  unfold wpv. iIntros "H". iApply (wpm_ext (at_rest m r ≫= λ x, at_rest (f x.1) x.2)).
  - intros h. rewrite bind_run. unfold at_rest. rewrite bind_run. by destruct (m (h, r)) as [[a [h' r']]|].
  - by iApply wpm_bind.
Qed.

Lemma wpv_mono {A} (m : M (mem * R) A) (P Q : A → R → hProp) r : wpv m P r -∗ (∀ a r', P a r' -∗ Q a r') -∗ wpv m Q r.
Proof. iIntros "H HPQ". iApply (wpm_mono with "H"). iIntros ([a r']) "HP". by iApply "HPQ". Qed.

Lemma wpv_mem {A} (m : M mem A) (Q : A → R → hProp) r : wpm m (λ a, Q a r) ⊢ wpv (on_mem m) Q r.
Proof.
  unfold wpv. iIntros "H". iApply (wpm_ext (m ≫= λ a, mret (a, r))).
  - intros h. rewrite bind_run. unfold at_rest, on_mem, zoom. cbn. by destruct (m h) as [[a h']|].
  - iApply wpm_bind. iApply (wpm_mono with "H"). iIntros (a) "H". by iApply wpm_ret.
Qed.

Lemma wpv_rest {A} (m : M R A) (Q : A → R → hProp) r a r' : m r = Ok (a, r') → Q a r' ⊢ wpv (on_rest m) Q r.
Proof.
  intros E. unfold wpv. iIntros "H". iApply (wpm_ext (mret (a, r'))); [|by iApply wpm_ret].
  intros h. unfold at_rest, on_rest, zoom. cbn. by rewrite E.
Qed.

(** Reading back a run from a memory and a state. *)
Lemma wpv_adequate {A} (m : M (mem * R) A) (P : hProp) (Q : A → R → hProp) h hf r :
  (P ⊢ wpv m Q r) → holds P h → h ##ₘ hf →
  wp m (λ a s, ∃ h', s.1 = h' ∪ hf ∧ h' ##ₘ hf ∧ holds (Q a s.2) h') (h ∪ hf, r).
Proof.
  intros HP Hh Hd. destruct (wpm_adequate _ _ _ h hf HP Hh Hd) as ([a r'] & s' & E & h' & -> & Hd' & HQ).
  unfold at_rest in E. destruct (m (h ∪ hf, r)) as [[b [h2 r2]]|] eqn:Em; [|done]. injection E as -> -> ->.
  exists a, (h' ∪ hf, r'). split; [done|]. by exists h'.
Qed.

(** A computation that fails does so whatever the rest of the memory. *)
Lemma on_rest_Fail {A} (m : M R A) h r e : m r = Fail e → on_rest m (h, r) = Fail e.
Proof. intros E. unfold on_rest, zoom. cbn. by rewrite E. Qed.
End rest.
