(* ===== verification/RbTree.v ===== *)
(** * Red-black trees

    [src/common/rbtree.c], pointer by pointer: a node is three words, the
    parent's address with the colour in its lowest bit, the right child and the
    left child; the root is one word.  The two halves of the rebalancing code
    mirror each other and are one definition, by [side].

    [is_tree] ties a memory to a [tree], [is_seg] and [is_ctx] to the path from
    a hole up to the root.  The theorems are about insertion, lookup and first;
    erasing is in [RbErase.v]. *)

From S2P Require Import Prelude SepLogic.
From stdpp Require Import sorting.
From iris.proofmode Require Import proofmode.
#[local] Open Scope Z_scope.

(** ** The code *)

Definition RB_RED : Z := 0.
Definition RB_BLACK : Z := 1.

Inductive side := L | R.
#[export] Instance side_eq : EqDecision side.
Proof. solve_decision. Defined.
Definition opp (s : side) : side := match s with L => R | R => L end.
Definition offset (s : side) : Z := match s with R => 8 | L => 16 end.

Definition __rb_parent (pc : Z) : Z := Z.land pc (u64 (Z.lnot 3)).
Definition __rb_color (pc : Z) : Z := Z.land pc 1.
Definition __rb_is_black (pc : Z) : bool := negb (__rb_color pc =? 0).
Definition __rb_is_red (pc : Z) : bool := __rb_color pc =? 0.

Definition rb_parent (r : Z) : M mem Z := pc ← load r; mret (__rb_parent pc).
Definition rb_is_red (r : Z) : M mem bool := pc ← load r; mret (__rb_is_red pc).
Definition rb_is_black (r : Z) : M mem bool := pc ← load r; mret (__rb_is_black pc).
Definition rb_red_parent (r : Z) : M mem Z := load r.
Definition rb_set_black (r : Z) : M mem unit := pc ← load r; store r (Z.lor pc RB_BLACK).
Definition rb_set_parent (r p : Z) : M mem unit := pc ← load r; store r (Z.lor (__rb_color pc) p).
Definition rb_set_parent_color (r p c : Z) : M mem unit := store r (Z.lor p c).
(** [n->rb_left] and [n->rb_right]. *)
Definition child (s : side) (n : Z) : M mem Z := load (n + offset s).
Definition set_child (s : side) (n v : Z) : M mem unit := store (n + offset s) v.

Definition __rb_change_child (old new parent root : Z) : M mem unit :=
  if negb (parent =? 0) then
    l ← child L parent;
    if l =? old then set_child L parent new else set_child R parent new
  else store root new.

Definition __rb_rotate_set_parents (old new root color : Z) : M mem unit :=
  parent ← rb_parent old;
  pc ← load old;
  store new pc ;;
  rb_set_parent_color old new color ;;
  __rb_change_child old new parent root.

(** [p && rb_is_red(p)], [!p || rb_is_black(p)], [if (p) ...]. *)
Definition live_red (p : Z) : M mem bool := if p =? 0 then mret false else rb_is_red p.
Definition null_or_black (p : Z) : M mem bool := if p =? 0 then mret true else rb_is_black p.
Definition when_live (p : Z) (m : M mem unit) : M mem unit := if p =? 0 then mret tt else m.

(** One turn of the loop of [__rb_insert_fix] with [parent] the child of
    [gparent] at [s] and [tmp] the other child: the node and parent of the next
    turn, or [None] to leave the loop. *)
Definition insert_side (s : side) (node parent gparent tmp root : Z) : M mem (option (Z * Z)) :=
  red ← live_red tmp;
  if red : bool then
    rb_set_parent_color tmp gparent RB_BLACK ;;
    rb_set_parent_color parent gparent RB_BLACK ;;
    up ← rb_parent gparent;
    rb_set_parent_color gparent up RB_RED ;;
    mret (Some (gparent, up))
  else
    tmp ← child (opp s) parent;
    pt ← (if node =? tmp then
            tmp ← child s node;
            set_child (opp s) parent tmp ;;
            when_live tmp (rb_set_parent_color tmp parent RB_BLACK) ;;
            set_child s node parent ;;
            rb_set_parent_color parent node RB_RED ;;
            tmp ← child (opp s) node;
            mret (node, tmp)
          else mret (parent, tmp));
    let '(parent, tmp) := pt in
    set_child s gparent tmp ;;
    when_live tmp (rb_set_parent_color tmp gparent RB_BLACK) ;;
    set_child (opp s) parent gparent ;;
    __rb_rotate_set_parents gparent parent root RB_RED ;;
    mret None.

Definition insert_turn (node parent root : Z) : M mem (option (Z * Z)) :=
  if parent =? 0 then
    rb_set_parent_color node 0 RB_BLACK ;;
    store root node ;;
    mret None
  else
    black ← rb_is_black parent;
    if black : bool then mret None
    else
      gparent ← rb_red_parent parent;
      tmp ← child R gparent;
      if negb (parent =? tmp) then insert_side L node parent gparent tmp root
      else tmp ← child L gparent; insert_side R node parent gparent tmp root.

Fixpoint insert_loop (fuel : nat) (node parent root : Z) : M mem unit :=
  match fuel with
  | O => fail OutOfFuel
  | S fuel' =>
      r ← insert_turn node parent root;
      match r with
      | Some (node, parent) => insert_loop fuel' node parent root
      | None => mret tt
      end
  end.

Definition __rb_insert_fix (fuel : nat) (node root : Z) : M mem unit :=
  parent ← rb_red_parent node;
  insert_loop fuel node parent root.

(** The descent of [_rb_insert] from [nw], [node] linked at its end; whether
    an equal node was met. *)
Fixpoint insert_descend (fuel : nat) (cmp : Z → Z → bool) (node nw : Z) : M mem bool :=
  match fuel with
  | O => fail OutOfFuel
  | S fuel' =>
      if nw =? 0 then mret false
      else
        let step s :=
          nx ← child s nw;
          if nx =? 0 then set_child s nw node ;; store node nw ;; mret false
          else insert_descend fuel' cmp node nx in
        if cmp node nw then step L
        else if cmp nw node then step R
        else mret true
  end.

Definition _rb_insert (fuel : nat) (cmp : Z → Z → bool) (node rt : Z) : M mem Z :=
  nw ← load rt;
  set_child R node 0 ;;
  set_child L node 0 ;;
  store node 0 ;;
  found ← insert_descend fuel cmp node nw;
  if found : bool then mret (-1)
  else __rb_insert_fix fuel node rt ;; mret 0.

Fixpoint lookup_loop (fuel : nat) (cmp : Z → Z → bool) (node nw : Z) : M mem Z :=
  match fuel with
  | O => fail OutOfFuel
  | S fuel' =>
      if nw =? 0 then mret 0
      else if cmp node nw then nx ← child L nw; lookup_loop fuel' cmp node nx
      else if cmp nw node then nx ← child R nw; lookup_loop fuel' cmp node nx
      else mret nw
  end.

Definition _rb_lookup (fuel : nat) (cmp : Z → Z → bool) (node rt : Z) : M mem Z :=
  nw ← load rt; lookup_loop fuel cmp node nw.

Fixpoint first_loop (fuel : nat) (n : Z) : M mem Z :=
  match fuel with
  | O => fail OutOfFuel
  | S fuel' =>
      l ← child L n;
      if l =? 0 then mret n else first_loop fuel' l
  end.

Definition _rb_first (fuel : nat) (root : Z) : M mem Z :=
  n ← load root; if n =? 0 then mret 0 else first_loop fuel n.

(** ** Addresses and colours *)

Inductive color := Red | Black.
Definition bit_of (c : color) : Z := match c with Red => RB_RED | Black => RB_BLACK end.
(** The first word of a node. *)
Definition pack (par : Z) (c : color) : Z := Z.lor par (bit_of c).

(** What [aligned(sizeof(long))] makes of a node's address. *)
Definition ptr_ok (p : Z) : Prop := 0 < p < 2 ^ 64 ∧ p mod 8 = 0.
Definition par_ok (p : Z) : Prop := p = 0 ∨ ptr_ok p.

Lemma par_low p : par_ok p → ∀ n, 0 ≤ n < 3 → Z.testbit p n = false.
Proof.
  intros H n Hn. assert (p mod 2 ^ 3 = 0) as E by (destruct H as [->|[_ H]]; [done|exact H]).
  rewrite -(Z.mod_pow2_bits_low p 3 n); [|lia]. by rewrite E Z.bits_0.
Qed.

Lemma par_high p : par_ok p → ∀ n, 64 ≤ n → Z.testbit p n = false.
Proof.
  intros H n Hn. destruct H as [->|[H _]]; [apply Z.bits_0|].
  rewrite -(Z.mod_small p (2 ^ 64)); [|lia]. apply Z.mod_pow2_bits_high. lia.
Qed.

Lemma bit_of_bits c n : 0 < n → Z.testbit (bit_of c) n = false.
Proof.
  intros Hn. destruct c; cbn; [apply Z.bits_0|]. unfold RB_BLACK. destruct n; try done.
Qed.

Lemma parent_pack p c : par_ok p → __rb_parent (pack p c) = p.
Proof.
  intros Hp. unfold __rb_parent, pack, u64, wrap. apply Z.bits_inj'. intros n Hn.
  rewrite Z.land_spec Z.lor_spec. destruct (decide (n < 64)) as [H|H].
  - rewrite Z.mod_pow2_bits_low; [|lia]. rewrite Z.lnot_spec; [|lia].
    destruct (decide (n < 2)) as [H2|H2].
    + rewrite (par_low p Hp n); [|lia]. assert (n = 0 ∨ n = 1) as [-> | ->] by lia; by destruct c.
    + rewrite bit_of_bits; [|lia]. rewrite orb_false_r.
      assert (Z.testbit 3 n = false) as ->; [|by rewrite andb_true_r].
      rewrite -(Z.mod_small 3 (2 ^ 2)); [|lia]. apply Z.mod_pow2_bits_high. lia.
  - rewrite Z.mod_pow2_bits_high; [|lia]. rewrite (par_high p Hp n); [|lia]. apply andb_false_r.
Qed.

Lemma color_pack p c : par_ok p → __rb_color (pack p c) = bit_of c.
Proof.
  intros Hp. unfold __rb_color, pack. apply Z.bits_inj'. intros n Hn. rewrite Z.land_spec Z.lor_spec.
  destruct (decide (n = 0)) as [->|H].
  - rewrite (par_low p Hp 0); [|lia]. by destruct c.
  - change 1 with (bit_of Black). rewrite !bit_of_bits; [|lia..]. by rewrite andb_false_r.
Qed.

Lemma black_pack p c : par_ok p → __rb_is_black (pack p c) = match c with Black => true | Red => false end.
Proof. intros Hp. unfold __rb_is_black. rewrite color_pack; [|done]. by destruct c. Qed.
Lemma red_pack p c : par_ok p → __rb_is_red (pack p c) = match c with Red => true | Black => false end.
Proof. intros Hp. unfold __rb_is_red. rewrite color_pack; [|done]. by destruct c. Qed.
Lemma pack_red p : pack p Red = p.
Proof. apply Z.lor_0_r. Qed.
Lemma set_parent_pack p q c : par_ok p → Z.lor (__rb_color (pack p c)) q = pack q c.
Proof. intros Hp. rewrite color_pack; [|done]. apply Z.lor_comm. Qed.
Lemma set_black_pack p c : Z.lor (pack p c) RB_BLACK = pack p Black.
Proof. unfold pack. rewrite -Z.lor_assoc. by destruct c. Qed.

(** ** Trees *)

Inductive tree := Leaf | Node (c : color) (l : tree) (p : Z) (r : tree).

Definition addr (t : tree) : Z := match t with Leaf => 0 | Node _ _ p _ => p end.
Fixpoint inorder (t : tree) : list Z :=
  match t with Leaf => [] | Node _ l p r => inorder l ++ p :: inorder r end.
Fixpoint height (t : tree) : nat :=
  match t with Leaf => 0 | Node _ l _ r => S (Nat.max (height l) (height r)) end.
(** The node [p] with [a] at [s] and [b] opposite. *)
Definition mk (s : side) (c : color) (p : Z) (a b : tree) : tree :=
  match s with L => Node c a p b | R => Node c b p a end.
Definition recolor (c : color) (t : tree) : tree :=
  match t with Leaf => Leaf | Node _ l p r => Node c l p r end.

Create HintDb rb.

(** Red nodes have black children, and every path has [n] black nodes. *)
Inductive wf : tree → color → nat → Prop :=
| wf_leaf : wf Leaf Black 0
| wf_red l p r n : wf l Black n → wf r Black n → wf (Node Red l p r) Red n
| wf_black l p r cl cr n : wf l cl n → wf r cr n → wf (Node Black l p r) Black (S n).
#[export] Hint Constructors wf : rb.

Definition rbtree (t : tree) : Prop := ∃ n, wf t Black n.

(** A path from a hole up: each frame is a node whose child at [fs] is below,
    and the other child. *)
Record frame := Frame { fs : side; fc : color; fp : Z; fsib : tree }.
Definition fill (t : tree) (f : frame) : tree := mk (fs f) (fc f) (fp f) t (fsib f).
Fixpoint plug (ctx : list frame) (t : tree) : tree :=
  match ctx with [] => t | f :: ctx' => plug ctx' (fill t f) end.

(** The hole may hold a tree of that colour and black height; the root is
    black. *)
Inductive cwf : list frame → color → nat → Prop :=
| cwf_nil n : cwf [] Black n
| cwf_red s p sib ctx n : wf sib Black n → cwf ctx Red n → cwf (Frame s Red p sib :: ctx) Black n
| cwf_black s p sib cs ctx c n : wf sib cs n → cwf ctx Black (S n) → cwf (Frame s Black p sib :: ctx) c n.
#[export] Hint Constructors cwf : rb.

Lemma wf_mk_red s p a b n : wf a Black n → wf b Black n → wf (mk s Red p a b) Red n.
Proof. destruct s; cbn; eauto with rb. Qed.
Lemma wf_mk_black s p a b ca cb n : wf a ca n → wf b cb n → wf (mk s Black p a b) Black (S n).
Proof. destruct s; cbn; eauto with rb. Qed.
#[export] Hint Resolve wf_mk_red wf_mk_black : rb.

Lemma plug_wf ctx t c n : wf t c n → cwf ctx c n → rbtree (plug ctx t).
Proof.
  intros Ht H. revert t Ht. induction H; intros t Ht; cbn; [by exists n|..]; apply IHcwf; unfold fill; cbn; eauto with rb.
Qed.

Lemma cwf_weaken ctx c n : cwf ctx c n → cwf ctx Black n.
Proof. destruct 1; eauto with rb. Qed.

Lemma cwf_red_inv ctx n : cwf ctx Red n →
  ∃ s p sib cs ctx', ctx = Frame s Black p sib :: ctx' ∧ wf sib cs n ∧ cwf ctx' Black (S n).
Proof. inversion 1; subst. eauto 10. Qed.

Lemma wf_addr t c n : wf t c n → addr t = 0 → t = Leaf ∨ ∃ l r, t = Node c l 0 r.
Proof. destruct 1; cbn; intros; subst; eauto. Qed.

(** The nodes of a path and below it, from the left. *)
Definition side_app (s : side) (a b : list Z) : list Z := match s with L => a ++ b | R => b ++ a end.
Lemma inorder_mk s c p a b : inorder (mk s c p a b) =
  match s with L => inorder a ++ p :: inorder b | R => inorder b ++ p :: inorder a end.
Proof. by destruct s. Qed.

(** Only the nodes in order below the hole count. *)
Lemma inorder_plug ctx t t' : inorder t = inorder t' → inorder (plug ctx t) = inorder (plug ctx t').
Proof.
  revert t t'. induction ctx as [|f ctx IH]; intros t t' E; [done|]. cbn. apply IH. unfold fill.
  rewrite !inorder_mk E. done.
Qed.

Fixpoint before (ctx : list frame) : list Z :=
  match ctx with
  | [] => []
  | Frame L _ _ _ :: ctx' => before ctx'
  | Frame R _ p sib :: ctx' => before ctx' ++ inorder sib ++ [p]
  end.
Fixpoint after (ctx : list frame) : list Z :=
  match ctx with
  | [] => []
  | Frame L _ p sib :: ctx' => p :: inorder sib ++ after ctx'
  | Frame R _ _ _ :: ctx' => after ctx'
  end.

Lemma plug_inorder ctx t : inorder (plug ctx t) = before ctx ++ inorder t ++ after ctx.
Proof.
  revert t. induction ctx as [|[s c p sib] ctx IH]; intros t; cbn; [by rewrite app_nil_r|].
  rewrite IH. unfold fill. cbn. destruct s; cbn; by rewrite -!(assoc_L (++)).
Qed.

Lemma plug_app d ctx t : plug (d ++ ctx) t = plug ctx (plug d t).
Proof. revert t. induction d as [|f d IH]; intros t; [done|]. cbn. apply IH. Qed.

(** ** Trees in memory *)

(** The three words of node [p]: its parent and colour, its child at [s] and
    the other one. *)
Definition cell (par : Z) (c : color) (p : Z) (s : side) (a b : Z) : hProp :=
  (⌜ptr_ok p ∧ par_ok par⌝ ∗ p ↦ pack par c ∗ (p + offset s) ↦ a ∗ (p + offset (opp s)) ↦ b)%I.

Fixpoint is_tree (par : Z) (t : tree) : hProp :=
  match t with
  | Leaf => True%I
  | Node c l p r => (cell par c p L (addr l) (addr r) ∗ is_tree p l ∗ is_tree p r)%I
  end.

(** The frames of a path whose top node has parent [par]; [a] hangs in the
    hole, [top] is the address at the top. *)
Definition up_addr (ctx : list frame) (par : Z) : Z := match ctx with [] => par | f :: _ => fp f end.
Fixpoint is_seg (par : Z) (ctx : list frame) (a top : Z) : hProp :=
  match ctx with
  | [] => ⌜a = top⌝%I
  | f :: ctx' => (cell (up_addr ctx' par) (fc f) (fp f) (fs f) a (addr (fsib f)) ∗
                  is_tree (fp f) (fsib f) ∗ is_seg par ctx' (fp f) top)%I
  end.
Definition is_ctx (root : Z) (ctx : list frame) (a : Z) : hProp := (∃ top, root ↦ top ∗ is_seg 0 ctx a top)%I.
Abbreviation up := (λ ctx, up_addr ctx 0).

(** A root word and the whole tree. *)
Definition is_root (root : Z) (t : tree) : hProp := (root ↦ addr t ∗ is_tree 0 t)%I.

Lemma opp_opp s : opp (opp s) = s.
Proof. by destruct s. Qed.

Lemma cell_swap par c p s a b : cell par c p s a b ⊣⊢ cell par c p (opp s) b a.
Proof. unfold cell. rewrite opp_opp. iSplit; iIntros "($ & $ & $ & $)". Qed.

Lemma is_tree_mk par s c p a b :
  is_tree par (mk s c p a b) ⊣⊢ cell par c p s (addr a) (addr b) ∗ is_tree p a ∗ is_tree p b.
Proof.
  destruct s; cbn; [done|]. rewrite (cell_swap _ _ _ L). iSplit; iIntros "($ & $ & $)".
Qed.

Lemma addr_mk s c p a b : addr (mk s c p a b) = p.
Proof. by destruct s. Qed.

Lemma is_ctx_cons root f ctx a :
  is_ctx root (f :: ctx) a ⊣⊢
    cell (up ctx) (fc f) (fp f) (fs f) a (addr (fsib f)) ∗ is_tree (fp f) (fsib f) ∗ is_ctx root ctx (fp f).
Proof.
  unfold is_ctx. cbn. iSplit.
  - iIntros "(%top & Hr & $ & $ & H)". iExists top. iFrame.
  - iIntros "($ & $ & %top & Hr & H)". iExists top. iFrame.
Qed.

Lemma is_ctx_plug root ctx t : is_ctx root ctx (addr t) ∗ is_tree (up ctx) t ⊣⊢ is_root root (plug ctx t).
Proof.
  revert t. induction ctx as [|[s c p sib] ctx IH]; intros t.
  - cbn. unfold is_ctx, is_root. cbn. iSplit.
    + iIntros "((%top & Hr & %E) & $)". by rewrite E.
    + iIntros "(Hr & $)". iExists _. by iFrame.
  - rewrite is_ctx_cons. cbn [plug]. rewrite -IH. unfold fill. cbn [fs fc fp fsib up_addr].
    rewrite is_tree_mk addr_mk. iSplit; iIntros "H".
    + iDestruct "H" as "(($ & $ & $) & $)".
    + iDestruct "H" as "($ & $ & $ & $)".
Qed.

Lemma cell_ok par c p s a b : cell par c p s a b ⊢ ⌜ptr_ok p ∧ par_ok par⌝.
Proof. by iIntros "($ & _)". Qed.

Lemma up_ok root ctx a : is_ctx root ctx a ⊢ ⌜par_ok (up ctx)⌝.
Proof.
  destruct ctx as [|f ctx]; [iIntros "_"; iPureIntro; by left|]. rewrite is_ctx_cons. iIntros "(H & _)".
  iDestruct (cell_ok with "H") as %[? _]. iPureIntro. by right.
Qed.

Lemma is_tree_ok par t : is_tree par t ⊢ ⌜par_ok (addr t) ∧ (addr t = 0 ↔ t = Leaf)⌝.
Proof.
  destruct t; cbn; [iIntros "_"; iPureIntro; split; [by left|done]|]. iIntros "(H & _)".
  iDestruct (cell_ok with "H") as %[Hp _]. iPureIntro. split; [by right|]. destruct Hp. split; [lia|done].
Qed.

(** A node is not the root of a tree that is elsewhere. *)
Lemma addr_ne par c p s a b q t : cell par c p s a b -∗ is_tree q t -∗ ⌜addr t ≠ p⌝.
Proof.
  iIntros "(%Hp & Hpc & _) Ht". destruct t as [|c' l p' r]; cbn.
  - iPureIntro. destruct Hp as [[? _] _]. lia.
  - iDestruct "Ht" as "((_ & Hpc' & _) & _)". iApply (pointsto_ne with "Hpc' Hpc").
Qed.

(** *** Steps *)

Section steps.
Implicit Types Q : Z → hProp.

Lemma wpm_child par c p s a b Q :
  cell par c p s a b -∗ (cell par c p s a b -∗ Q a) -∗ wpm (child s p) Q.
Proof.
  iIntros "(%Hok & Hp & Ha & Hb) HQ". unfold child. iApply (wpm_load with "Ha"). iIntros "Ha". iApply "HQ". by iFrame.
Qed.

Lemma wpm_child_opp par c p s a b Q :
  cell par c p s a b -∗ (cell par c p s a b -∗ Q b) -∗ wpm (child (opp s) p) Q.
Proof.
  rewrite (cell_swap _ _ _ s). apply wpm_child.
Qed.

Lemma wpm_set_child par c p s a b v (Q : unit → hProp) :
  cell par c p s a b -∗ (cell par c p s v b -∗ Q tt) -∗ wpm (set_child s p v) Q.
Proof.
  iIntros "(%Hok & Hp & Ha & Hb) HQ". unfold set_child. iApply (wpm_store with "Ha"). iIntros "Ha". iApply "HQ". by iFrame.
Qed.

Lemma wpm_set_child_opp par c p s a b v (Q : unit → hProp) :
  cell par c p s a b -∗ (cell par c p s a v -∗ Q tt) -∗ wpm (set_child (opp s) p v) Q.
Proof.
  rewrite !(cell_swap _ _ _ s). apply wpm_set_child.
Qed.

Lemma wpm_set_parent_color par c p s a b par' c' (Q : unit → hProp) :
  par_ok par' →
  cell par c p s a b -∗ (cell par' c' p s a b -∗ Q tt) -∗ wpm (rb_set_parent_color p par' (bit_of c')) Q.
Proof.
  iIntros (Hp') "([%Hp %_] & Hp & Ha & Hb) HQ". iApply (wpm_store with "Hp"). iIntros "Hp". iApply "HQ".
  iFrame. by iPureIntro.
Qed.

Lemma wpm_rb_parent par c p s a b Q :
  cell par c p s a b -∗ (cell par c p s a b -∗ Q par) -∗ wpm (rb_parent p) Q.
Proof.
  iIntros "([%Hp %Hpar] & Hp & Ha & Hb) HQ". unfold rb_parent. iApply wpm_bind. iApply (wpm_load with "Hp").
  iIntros "Hp". iApply wpm_ret. rewrite parent_pack; [|done]. iApply "HQ". by iFrame.
Qed.

Lemma wpm_rb_red_parent par p s a b Q :
  cell par Red p s a b -∗ (cell par Red p s a b -∗ Q par) -∗ wpm (rb_red_parent p) Q.
Proof.
  iIntros "(%Hok & Hp & Ha & Hb) HQ". iApply (wpm_load with "Hp"). iIntros "Hp". rewrite {2}pack_red.
  iApply "HQ". by iFrame.
Qed.

Lemma wpm_rb_is_black par c p s a b (Q : bool → hProp) :
  cell par c p s a b -∗ (cell par c p s a b -∗ Q (match c with Black => true | Red => false end)) -∗
  wpm (rb_is_black p) Q.
Proof.
  iIntros "([%Hp %Hpar] & Hp & Ha & Hb) HQ". unfold rb_is_black. iApply wpm_bind. iApply (wpm_load with "Hp").
  iIntros "Hp". iApply wpm_ret. rewrite black_pack; [|done]. iApply "HQ". by iFrame.
Qed.

Lemma wpm_rb_is_red par c p s a b (Q : bool → hProp) :
  cell par c p s a b -∗ (cell par c p s a b -∗ Q (match c with Red => true | Black => false end)) -∗
  wpm (rb_is_red p) Q.
Proof.
  iIntros "([%Hp %Hpar] & Hp & Ha & Hb) HQ". unfold rb_is_red. iApply wpm_bind. iApply (wpm_load with "Hp").
  iIntros "Hp". iApply wpm_ret. rewrite red_pack; [|done]. iApply "HQ". by iFrame.
Qed.

(** The colour of a tree, a leaf being black. *)
Definition colour (t : tree) : color := match t with Leaf => Black | Node c _ _ _ => c end.
Lemma wf_colour t c n : wf t c n → colour t = c.
Proof. by destruct 1. Qed.

Lemma wpm_live_red par t (Q : bool → hProp) :
  is_tree par t -∗ (is_tree par t -∗ Q (match colour t with Red => true | Black => false end)) -∗
  wpm (live_red (addr t)) Q.
Proof.
  iIntros "Ht HQ". iDestruct (is_tree_ok with "Ht") as %[_ H0]. unfold live_red.
  destruct t as [|c l p r]; cbn [addr colour].
  - iApply wpm_ret. by iApply "HQ".
  - destruct (p =? 0) eqn:E; [apply Z.eqb_eq in E; by apply H0 in E|].
    iDestruct "Ht" as "(Hc & Hl)". iApply (wpm_rb_is_red with "Hc"). iIntros "Hc". iApply "HQ". iFrame.
Qed.

Lemma wpm_null_or_black par t (Q : bool → hProp) :
  is_tree par t -∗ (is_tree par t -∗ Q (match colour t with Black => true | Red => false end)) -∗
  wpm (null_or_black (addr t)) Q.
Proof.
  iIntros "Ht HQ". iDestruct (is_tree_ok with "Ht") as %[_ H0]. unfold null_or_black.
  destruct t as [|c l p r]; cbn [addr colour].
  - iApply wpm_ret. by iApply "HQ".
  - destruct (p =? 0) eqn:E; [apply Z.eqb_eq in E; by apply H0 in E|].
    iDestruct "Ht" as "(Hc & Hl)". iApply (wpm_rb_is_black with "Hc"). iIntros "Hc". iApply "HQ". iFrame.
Qed.

Lemma addr_recolor c t : addr (recolor c t) = addr t.
Proof. by destruct t. Qed.
Lemma inorder_recolor c t : inorder (recolor c t) = inorder t.
Proof. by destruct t. Qed.

(** [if (t) rb_set_parent_color(t, par, c)] *)
Lemma wpm_when_set par t par' c (Q : unit → hProp) :
  par_ok par' →
  is_tree par t -∗ (is_tree par' (recolor c t) -∗ Q tt) -∗
  wpm (when_live (addr t) (rb_set_parent_color (addr t) par' (bit_of c))) Q.
Proof.
  iIntros (Hp) "Ht HQ". iDestruct (is_tree_ok with "Ht") as %[_ H0]. unfold when_live.
  destruct t as [|c' l p r]; cbn [addr recolor].
  - iApply wpm_ret. by iApply "HQ".
  - destruct (p =? 0) eqn:E; [apply Z.eqb_eq in E; by apply H0 in E|].
    iDestruct "Ht" as "(Hc & Hl)". iApply (wpm_set_parent_color with "Hc"); [done|]. iIntros "Hc". iApply "HQ". iFrame.
Qed.

(** [if (t) rb_set_parent(t, par)] *)
Lemma wpm_when_reparent par t par' (Q : unit → hProp) :
  par_ok par' →
  is_tree par t -∗ (is_tree par' t -∗ Q tt) -∗ wpm (when_live (addr t) (rb_set_parent (addr t) par')) Q.
Proof.
  iIntros (Hp) "Ht HQ". iDestruct (is_tree_ok with "Ht") as %[_ H0]. unfold when_live.
  destruct t as [|c' l p r]; cbn [addr].
  - iApply wpm_ret. by iApply "HQ".
  - destruct (p =? 0) eqn:E; [apply Z.eqb_eq in E; by apply H0 in E|].
    iDestruct "Ht" as "(([%Hok %Hpar] & Hpc & Hab) & Hl)". unfold rb_set_parent. iApply wpm_bind.
    iApply (wpm_load with "Hpc"). iIntros "Hpc". iApply (wpm_store with "Hpc"). rewrite set_parent_pack; [|done].
    iIntros "Hpc". iApply "HQ". iFrame. by iPureIntro.
Qed.

(** [__rb_change_child] at the bottom of a path. *)
Lemma wpm_change_child root ctx old new par c s a b (Q : unit → hProp) :
  cell par c old s a b -∗ is_ctx root ctx old -∗
  (cell par c old s a b -∗ is_ctx root ctx new -∗ Q tt) -∗ wpm (__rb_change_child old new (up ctx) root) Q.
Proof.
  iIntros "Hold Hctx HQ". unfold __rb_change_child. destruct ctx as [|[s' c' p sib] ctx]; cbn [up_addr fp].
  - iDestruct "Hctx" as "(%top & Hr & %E)". cbn. iApply (wpm_store with "Hr"). iIntros "Hr".
    iApply ("HQ" with "Hold"). iExists new. by iFrame.
  - rewrite !is_ctx_cons. cbn [fs fc fp fsib]. iDestruct "Hctx" as "(Hc & Hsib & Hctx)".
    iDestruct (cell_ok with "Hc") as %[[Hp _] _]. iDestruct (addr_ne with "Hold Hsib") as %Hne.
    destruct (p =? 0) eqn:E; [apply Z.eqb_eq in E; lia|]. cbn [negb]. iApply wpm_bind.
    destruct s'.
    + iApply (wpm_child with "Hc"). iIntros "Hc". rewrite Z.eqb_refl. iApply (wpm_set_child with "Hc").
      iIntros "Hc". iApply ("HQ" with "Hold"). iFrame.
    + iApply (wpm_child_opp _ _ _ R with "Hc"). iIntros "Hc". rewrite (proj2 (Z.eqb_neq _ _) Hne).
      iApply (wpm_set_child with "Hc"). iIntros "Hc". iApply ("HQ" with "Hold"). iFrame.
Qed.

(** [__rb_rotate_set_parents]: [new] takes the place of [old], which hangs
    below it with colour [c']. *)
Lemma wpm_rotate root ctx old new par c s a b par2 c2 s2 a2 b2 c' (Q : unit → hProp) :
  par = up ctx →
  cell par c old s a b -∗ cell par2 c2 new s2 a2 b2 -∗ is_ctx root ctx old -∗
  (cell new c' old s a b -∗ cell par c new s2 a2 b2 -∗ is_ctx root ctx new -∗ Q tt) -∗
  wpm (__rb_rotate_set_parents old new root (bit_of c')) Q.
Proof.
  iIntros (->) "Hold Hnew Hctx HQ". unfold __rb_rotate_set_parents.
  iDestruct (cell_ok with "Hnew") as %[Hn _]. iApply wpm_bind. iApply (wpm_rb_parent with "Hold"). iIntros "Hold".
  iDestruct "Hold" as "([%Ho %Hup] & Hpc & Ho)". iApply wpm_bind. iApply (wpm_load with "Hpc"). iIntros "Hpc".
  iDestruct "Hnew" as "(_ & Hnpc & Hn)". iApply wpm_bind. iApply (wpm_store with "Hnpc"). iIntros "Hnpc".
  iApply wpm_bind. iApply (wpm_set_parent_color with "[$Hpc $Ho //]"); [by right|]. iIntros "Hold".
  iApply (wpm_change_child with "Hold Hctx"). iIntros "Hold Hctx". iApply ("HQ" with "Hold [$Hnpc $Hn //] Hctx").
Qed.
End steps.

(** ** Insertion *)

(** Both sides to the right-nested form. *)
Ltac app_norm := repeat (cbn [app]; rewrite -?(assoc_L (++))); done.

Lemma color_cases c : c = Red ∨ c = Black.
Proof. destruct c; auto. Qed.
Lemma side_cases s1 s : s1 = s ∨ s1 = opp s.
Proof. destruct s1, s; auto. Qed.

Lemma wf_red_mk s t n : wf t Red n → ∃ p a b, t = mk s Red p a b ∧ wf a Black n ∧ wf b Black n.
Proof. inversion 1; subst. destruct s; cbn; eauto 10. Qed.

Lemma wf_recolor_black t n : wf t Red n → wf (recolor Black t) Black (S n).
Proof. inversion 1; subst. cbn. eauto with rb. Qed.

Lemma recolor_black_id t n : wf t Black n → recolor Black t = t.
Proof. by inversion 1. Qed.

(** Recolouring a node that is there. *)
Lemma wpm_set_tree par t par' c (Q : unit → hProp) :
  par_ok par' → t ≠ Leaf →
  is_tree par t -∗ (is_tree par' (recolor c t) -∗ Q tt) -∗ wpm (rb_set_parent_color (addr t) par' (bit_of c)) Q.
Proof.
  iIntros (Hp Ht) "Ht HQ". destruct t as [|c' l p r]; [done|]. cbn [addr recolor].
  iDestruct "Ht" as "(Hc & Hl)". iApply (wpm_set_parent_color with "Hc"); [done|]. iIntros "Hc". iApply "HQ". iFrame.
Qed.

(** The word that leads to the hole; it may be stale at the root. *)
Definition hole (root : Z) (ctx : list frame) (a : Z) : hProp :=
  match ctx with [] => (∃ v, root ↦ v)%I | _ => is_ctx root ctx a end.

Lemma hole_intro root ctx a : is_ctx root ctx a ⊢ hole root ctx a.
Proof. destruct ctx; [|done]. iIntros "(%top & Hr & _)". by iExists top. Qed.

(** The tree is there and complete, with the nodes [l]. *)
Definition settled (root : Z) (l : list Z) : hProp :=
  (∃ t, ⌜rbtree t ∧ inorder t = l⌝ ∗ is_root root t)%I.
(** The tree [t], its root red, hangs in [ctx]; the loop goes on from there. *)
Definition pending (root : Z) (l : list Z) (k : nat) (r : Z * Z) : hProp :=
  (∃ t ctx n, ⌜r = (addr t, up ctx) ∧ wf t Red n ∧ cwf ctx Black n ∧ inorder (plug ctx t) = l ∧ (length ctx < k)%nat⌝ ∗
     hole root ctx (addr t) ∗ is_tree (up ctx) t)%I.
Definition turned (root : Z) (l : list Z) (k : nat) (r : option (Z * Z)) : hProp :=
  match r with None => settled root l | Some r => pending root l k r end.

Lemma settle root ctx t n l :
  wf t Black n → cwf ctx Black n → inorder (plug ctx t) = l →
  is_ctx root ctx (addr t) -∗ is_tree (up ctx) t -∗ settled root l.
Proof.
  iIntros (Ht Hc Hl) "Hctx Ht". iExists (plug ctx t). iSplitR; [iPureIntro; split; [by eapply plug_wf|done]|].
  iApply is_ctx_plug. iFrame.
Qed.

(** The nodes of [node], its parent, its grandparent and what hangs there. *)
Definition family (s1 s : side) (root : Z) (ctx : list frame) (t sib unc : tree) (p g : Z) : hProp :=
  (is_tree p t ∗ cell g Red p s1 (addr t) (addr sib) ∗ is_tree p sib ∗
   cell (up ctx) Black g s p (addr unc) ∗ is_tree g unc ∗ is_ctx root ctx g)%I.

Section insert_side.
Context (s1 s : side) (root : Z) (ctx : list frame) (t sib unc : tree) (p g : Z) (n : nat) (cu : color).
Hypothesis Ht : wf t Red n.
Hypothesis Hsib : wf sib Black n.
Hypothesis Hunc : wf unc cu n.
Hypothesis Hctx : cwf ctx Black (S n).
Abbreviation l := (inorder (plug ctx (mk s Black g (mk s1 Red p t sib) unc))).

Lemma insert_red_uncle :
  cu = Red →
  family s1 s root ctx t sib unc p g -∗
  wpm (insert_side s (addr t) p g (addr unc) root) (turned root l (S (S (length ctx)))).
Proof.
  iIntros (->) "(Ht & Hp & Hsib & Hg & Hunc & Hctx)". unfold insert_side.
  iDestruct (cell_ok with "Hp") as %[Hpok _]. iDestruct (cell_ok with "Hg") as %[Hgok _].
  iApply wpm_bind. iApply (wpm_live_red with "Hunc"). iIntros "Hunc". rewrite (wf_colour _ _ _ Hunc).
  iApply wpm_bind. iApply (wpm_set_tree _ _ _ Black with "Hunc"); [by right|by inversion Hunc|]. iIntros "Hunc".
  iApply wpm_bind. iApply (wpm_set_parent_color _ _ _ _ _ _ _ Black with "Hp"); [by right|]. iIntros "Hp".
  iDestruct (up_ok with "Hctx") as %Hup.
  iApply wpm_bind. iApply (wpm_rb_parent with "Hg"). iIntros "Hg".
  iApply wpm_bind. iApply (wpm_set_parent_color _ _ _ _ _ _ _ Red with "Hg"); [done|]. iIntros "Hg".
  iApply wpm_ret. iExists (mk s Red g (mk s1 Black p t sib) (recolor Black unc)), ctx, (S n).
  rewrite addr_mk. iSplitR; [iPureIntro|].
  - split_and!; [done| |done| |lia].
    + apply wf_mk_red; [by eapply wf_mk_black|by apply wf_recolor_black].
    + apply inorder_plug. rewrite !inorder_mk inorder_recolor. by destruct s1.
  - iSplitL "Hctx"; [by iApply hole_intro|]. rewrite !is_tree_mk !addr_mk addr_recolor. iFrame.
Qed.

Lemma insert_outer :
  s1 = s → cu = Black →
  family s1 s root ctx t sib unc p g -∗
  wpm (insert_side s (addr t) p g (addr unc) root) (turned root l (S (S (length ctx)))).
Proof.
  iIntros (-> ->) "(Ht & Hp & Hsib & Hg & Hunc & Hctx)". unfold insert_side.
  iDestruct (cell_ok with "Hp") as %[Hpok _]. iDestruct (cell_ok with "Hg") as %[Hgok _].
  iApply wpm_bind. iApply (wpm_live_red with "Hunc"). iIntros "Hunc". rewrite (wf_colour _ _ _ Hunc).
  iApply wpm_bind. iApply (wpm_child_opp with "Hp"). iIntros "Hp".
  destruct (wf_red_mk s t n Ht) as (x & a & b & -> & Ha & Hb). rewrite is_tree_mk addr_mk.
  iDestruct "Ht" as "(Hx & Ha & Hb)". iDestruct (addr_ne with "Hx Hsib") as %Hne.
  iApply wpm_bind. destruct (x =? addr sib) eqn:E; [apply Z.eqb_eq in E; congruence|]. iApply wpm_ret.
  iApply wpm_bind. iApply (wpm_set_child with "Hg"). iIntros "Hg".
  iApply wpm_bind. iApply (wpm_when_set _ _ _ Black with "Hsib"); [by right|]. iIntros "Hsib".
  rewrite (recolor_black_id sib n) //.
  iApply wpm_bind. iApply (wpm_set_child_opp with "Hp"). iIntros "Hp".
  iApply wpm_bind. iApply (wpm_rotate _ _ _ _ _ _ _ _ _ _ _ _ _ _ Red with "Hg Hp Hctx"); [done|]. iIntros "Hg Hp Hctx".
  iApply wpm_ret.
  iApply (settle _ ctx (mk s Black p (mk s Red x a b) (mk s Red g sib unc)) (S n) with "[Hctx]"); [by eauto with rb|done| | |].
  - apply inorder_plug. rewrite !inorder_mk. destruct s; app_norm.
  - by rewrite addr_mk.
  - rewrite !is_tree_mk !addr_mk. iFrame.
Qed.

Lemma insert_inner :
  s1 = opp s → cu = Black →
  family s1 s root ctx t sib unc p g -∗
  wpm (insert_side s (addr t) p g (addr unc) root) (turned root l (S (S (length ctx)))).
Proof.
  iIntros (-> ->) "(Ht & Hp & Hsib & Hg & Hunc & Hctx)". unfold insert_side.
  iDestruct (cell_ok with "Hp") as %[Hpok _]. iDestruct (cell_ok with "Hg") as %[Hgok _].
  iApply wpm_bind. iApply (wpm_live_red with "Hunc"). iIntros "Hunc". rewrite (wf_colour _ _ _ Hunc).
  iApply wpm_bind. iApply (wpm_child with "Hp"). iIntros "Hp". rewrite Z.eqb_refl.
  destruct (wf_red_mk s t n Ht) as (x & a & b & -> & Ha & Hb). rewrite is_tree_mk addr_mk.
  iDestruct "Ht" as "(Hx & Ha & Hb)". iDestruct (cell_ok with "Hx") as %[Hxok _].
  iApply wpm_bind. iApply wpm_bind. iApply (wpm_child with "Hx"). iIntros "Hx".
  iApply wpm_bind. iApply (wpm_set_child with "Hp"). iIntros "Hp".
  iApply wpm_bind. iApply (wpm_when_set _ _ _ Black with "Ha"); [by right|]. iIntros "Ha".
  iApply wpm_bind. iApply (wpm_set_child with "Hx"). iIntros "Hx".
  iApply wpm_bind. iApply (wpm_set_parent_color _ _ _ _ _ _ _ Red with "Hp"); [by right|]. iIntros "Hp".
  iApply wpm_bind. iApply (wpm_child_opp with "Hx"). iIntros "Hx". iApply wpm_ret.
  iApply wpm_bind. iApply (wpm_set_child with "Hg"). iIntros "Hg".
  iApply wpm_bind. iApply (wpm_when_set _ _ _ Black with "Hb"); [by right|]. iIntros "Hb".
  iApply wpm_bind. iApply (wpm_set_child_opp with "Hx"). iIntros "Hx".
  iApply wpm_bind. iApply (wpm_rotate _ _ _ _ _ _ _ _ _ _ _ _ _ _ Red with "Hg Hx Hctx"); [done|]. iIntros "Hg Hx Hctx".
  iApply wpm_ret. rewrite (recolor_black_id a n) // (recolor_black_id b n) //.
  iApply (settle _ ctx (mk s Black x (mk s Red p sib a) (mk s Red g b unc)) (S n) with "[Hctx]"); [by eauto with rb|done| | |].
  - apply inorder_plug. rewrite !inorder_mk. destruct s; cbn [opp]; app_norm.
  - by rewrite addr_mk.
  - rewrite !is_tree_mk !addr_mk (cell_swap _ _ p). rewrite opp_opp. iFrame.
Qed.

Lemma insert_side_spec :
  family s1 s root ctx t sib unc p g -∗
  wpm (insert_side s (addr t) p g (addr unc) root) (turned root l (S (S (length ctx)))).
Proof.
  destruct (color_cases cu) as [E|E]; [by apply insert_red_uncle|].
  destruct (side_cases s1 s) as [D|D]; [by apply insert_outer|by apply insert_inner].
Qed.
End insert_side.

Lemma insert_turn_spec root ctx t n :
  wf t Red n → cwf ctx Black n →
  hole root ctx (addr t) -∗ is_tree (up ctx) t -∗
  wpm (insert_turn (addr t) (up ctx) root) (turned root (inorder (plug ctx t)) (length ctx)).
Proof.
  iIntros (Ht Hc) "Hh Ht". unfold insert_turn. destruct ctx as [|[s1 [] p sib] ctx]; cbn [up_addr fp].
  - cbn [Z.eqb]. iDestruct "Hh" as "(%v & Hr)". iApply wpm_bind.
    iApply (wpm_set_tree _ _ _ Black with "Ht"); [by left|by inversion Ht|]. iIntros "Ht".
    iApply wpm_bind. iApply (wpm_store with "Hr"). iIntros "Hr". iApply wpm_ret.
    iExists (recolor Black t). rewrite /is_root addr_recolor inorder_recolor. iFrame. iPureIntro.
    split; [|done]. exists (S n). by apply wf_recolor_black.
  - assert (Hx : wf sib Black n ∧ cwf ctx Red n) by (by inversion Hc). destruct Hx as [Hsib Hc'].
    destruct (cwf_red_inv _ _ Hc') as (s & g & unc & cu & ctx' & -> & Hunc & Hc2).
    cbn [hole]. rewrite !is_ctx_cons. cbn [fs fc fp fsib up_addr]. iDestruct "Hh" as "(Hp & Hsib & Hg & Hunc & Hctx)".
    iDestruct (cell_ok with "Hp") as %[[? _] [?|_]]; [iDestruct (cell_ok with "Hg") as %[[? _] _]; lia|].
    destruct (p =? 0) eqn:E; [apply Z.eqb_eq in E; lia|].
    iApply wpm_bind. iApply (wpm_rb_is_black with "Hp"). iIntros "Hp".
    iApply wpm_bind. iApply (wpm_rb_red_parent with "Hp"). iIntros "Hp".
    iDestruct (addr_ne with "Hp Hunc") as %Hne. destruct s.
    + iApply wpm_bind. iApply (wpm_child_opp _ _ _ L with "Hg"). iIntros "Hg".
      destruct (p =? addr unc) eqn:E2; [apply Z.eqb_eq in E2; congruence|]. cbn [negb].
      iApply (insert_side_spec s1 L root ctx' t sib unc p g n cu); [done..|]. iFrame.
    + iApply wpm_bind. iApply (wpm_child with "Hg"). iIntros "Hg". rewrite Z.eqb_refl. cbn [negb].
      iApply wpm_bind. iApply (wpm_child_opp _ _ _ R with "Hg"). iIntros "Hg".
      iApply (insert_side_spec s1 R root ctx' t sib unc p g n cu); [done..|]. iFrame.
  - cbn [hole]. iDestruct "Hh" as "Hctx". rewrite is_ctx_cons. cbn [fs fc fp fsib up_addr].
    iDestruct "Hctx" as "(Hp & Hsib & Hctx)". iDestruct (cell_ok with "Hp") as %[[? _] _].
    destruct (p =? 0) eqn:E; [apply Z.eqb_eq in E; lia|].
    iApply wpm_bind. iApply (wpm_rb_is_black with "Hp"). iIntros "Hp". iApply wpm_ret.
    iExists (plug (Frame s1 Black p sib :: ctx) t). iSplitR.
    + iPureIntro. split; [|done]. eapply plug_wf; [done|]. inversion Hc; subst. eauto with rb.
    + iApply is_ctx_plug. rewrite is_ctx_cons. cbn [fs fc fp fsib up_addr]. iFrame.
Qed.

Lemma insert_loop_spec root l : ∀ fuel ctx t n,
  (length ctx < fuel)%nat → wf t Red n → cwf ctx Black n → inorder (plug ctx t) = l →
  hole root ctx (addr t) -∗ is_tree (up ctx) t -∗
  wpm (insert_loop fuel (addr t) (up ctx) root) (λ _, settled root l).
Proof.
  induction fuel as [|fuel IH]; intros ctx t n Hf Ht Hc Hl; [lia|]. iIntros "Hh Ht". cbn [insert_loop].
  iApply wpm_bind. iApply (wpm_mono with "[Hh Ht]"); [by iApply (insert_turn_spec with "Hh Ht")|].
  rewrite Hl. iIntros ([[node parent]|]) "H"; cbn [turned]; [|by iApply wpm_ret].
  iDestruct "H" as "(%t2 & %ctx2 & %n2 & %H & Hh & Ht)". destruct H as (Er & Ht2 & Hc2 & Hl2 & Hlt).
  injection Er as -> ->. iApply (IH with "Hh Ht"); [lia|done..].
Qed.

(** *** The descent *)

Lemma store_red p par : store p par = rb_set_parent_color p par (bit_of Red).
Proof. unfold rb_set_parent_color. by rewrite Z.lor_0_r. Qed.

Section descend.
Context (cmp : Z → Z → bool) (node root : Z).

(** The comparisons made on the way down to the hole. *)
Definition path_ok (ctx : list frame) : Prop :=
  Forall (λ f, match fs f with L => cmp node (fp f) = true | R => cmp (fp f) node = true end) ctx.
Definition equal_to (y : Z) : Prop := cmp node y = false ∧ cmp y node = false.

(** The new node hangs in a hole of the tree [t], or [t] has an equal one. *)
Definition descended (t : tree) (found : bool) : hProp :=
  if found then (⌜∃ y, y ∈ inorder t ∧ equal_to y⌝ ∗ is_root root t ∗ cell 0 Red node L 0 0)%I
  else (∃ ctx, ⌜plug ctx Leaf = t ∧ path_ok ctx⌝ ∗ hole root ctx node ∗ cell (up ctx) Red node L 0 0)%I.

Lemma descend_link ctx s c p sib par :
  path_ok (Frame s c p sib :: ctx) → par = up ctx →
  cell par c p s 0 (addr sib) -∗ is_tree p sib -∗ is_ctx root ctx p -∗ cell 0 Red node L 0 0 -∗
  wpm (set_child s p node ;; store node p ;; mret false)
    (descended (plug (Frame s c p sib :: ctx) Leaf)).
Proof.
  iIntros (Hpath ->) "Hp Hsib Hctx Hn". iDestruct (cell_ok with "Hp") as %[Hpok _].
  iApply wpm_bind. iApply (wpm_set_child with "Hp"). iIntros "Hp".
  rewrite store_red. iApply wpm_bind. iApply (wpm_set_parent_color _ _ _ _ _ _ _ Red with "Hn"); [by right|].
  iIntros "Hn". iApply wpm_ret. iExists (Frame s c p sib :: ctx). iSplitR; [done|]. cbn [up_addr fp hole].
  rewrite is_ctx_cons. iFrame.
Qed.

Lemma insert_descend_spec : ∀ fuel t ctx,
  (height t < fuel)%nat → path_ok ctx → (t = Leaf → ctx = []) →
  is_ctx root ctx (addr t) -∗ is_tree (up ctx) t -∗ cell 0 Red node L 0 0 -∗
  wpm (insert_descend fuel cmp node (addr t)) (descended (plug ctx t)).
Proof.
  induction fuel as [|fuel IH]; intros t ctx Hf Hpath Hleaf; [lia|]. iIntros "Hctx Ht Hn".
  iDestruct (is_tree_ok with "Ht") as %[_ H0]. cbn [insert_descend]. destruct (addr t =? 0) eqn:E.
  { apply Z.eqb_eq, H0 in E as ->. rewrite (Hleaf eq_refl). iApply wpm_ret. iExists []. iFrame.
    iSplitR; [iPureIntro; split; [done|constructor]|]. iDestruct "Hctx" as "(%top & Hr & _)". by iExists top. }
  apply Z.eqb_neq in E. destruct t as [|c l p r]; [done|]. cbn [addr] in *. cbn [height] in Hf.
  assert (Hstep : ∀ s a b, Node c l p r = mk s c p a b → (height a < fuel)%nat → path_ok (Frame s c p b :: ctx) →
    is_ctx root ctx p -∗ is_tree (up ctx) (Node c l p r) -∗ cell 0 Red node L 0 0 -∗
    wpm (nx ← child s p; if nx =? 0 then set_child s p node ;; store node p ;; mret false
                         else insert_descend fuel cmp node nx) (descended (plug ctx (Node c l p r)))).
  { intros s a b -> Ha Hp'. iIntros "Hctx Ht Hn". rewrite is_tree_mk. iDestruct "Ht" as "(Hp & Ha & Hb)".
    iApply wpm_bind. iApply (wpm_child with "Hp"). iIntros "Hp". iDestruct (is_tree_ok with "Ha") as %[_ Ha0].
    change (plug ctx (mk s c p a b)) with (plug (Frame s c p b :: ctx) a).
    destruct (addr a =? 0) eqn:Ea.
    - apply Z.eqb_eq, Ha0 in Ea as ->. iApply (descend_link with "Hp Hb Hctx Hn"); done.
    - iApply (IH a (Frame s c p b :: ctx) with "[Hp Hb Hctx] Ha Hn"); [done|done| |].
      + intros ->. done.
      + rewrite is_ctx_cons. iFrame. }
  destruct (cmp node p) eqn:C1; [|destruct (cmp p node) eqn:C2].
  - iApply (Hstep L l r with "Hctx Ht Hn"); [done|lia|by constructor].
  - iApply (Hstep R r l with "Hctx Ht Hn"); [done|lia|by constructor].
  - iApply wpm_ret. iSplitR; [iPureIntro|].
    + exists p. split; [|done]. rewrite plug_inorder. cbn. rewrite !elem_of_app. right. left. right. by left.
    + iFrame. iApply is_ctx_plug. iFrame.
Qed.
End descend.

(** *** Heights *)

Lemma wf_height t c n : wf t c n → (height t ≤ 2 * n + match c with Red => 1 | Black => 0 end)%nat.
Proof. induction 1; cbn; [lia|lia|]. destruct cl, cr; lia. Qed.

Lemma wf_size t c n : wf t c n → (2 ^ n ≤ S (length (inorder t)))%nat.
Proof.
  induction 1; cbn [inorder length]; rewrite ?length_app ?Nat.pow_succ_r'; cbn [length Nat.pow]; lia.
Qed.

(** A red-black tree of [k] nodes is at most [2 log2 (k + 1)] high. *)
Lemma rbtree_height t : rbtree t → (height t ≤ 2 * Nat.log2 (S (length (inorder t))))%nat.
Proof.
  intros [n H]. pose proof (wf_height _ _ _ H) as H1. pose proof (wf_size _ _ _ H) as H2.
  apply Nat.log2_le_mono in H2. rewrite Nat.log2_pow2 in H2; [|lia]. cbn beta iota in H1. lia.
Qed.

Lemma height_mk s c p a b : height (mk s c p a b) = S (Nat.max (height a) (height b)).
Proof. destruct s; cbn; [done|]. f_equal. lia. Qed.

Lemma height_plug ctx t : (length ctx + height t ≤ height (plug ctx t))%nat.
Proof.
  revert t. induction ctx as [|f ctx IH]; intros t; cbn; [lia|]. specialize (IH (fill t f)).
  unfold fill in *. rewrite height_mk in IH. lia.
Qed.

Lemma wf_mk_inv s c p a b c' n : wf (mk s c p a b) c' n → c' = c ∧
  match c with
  | Red => wf a Black n ∧ wf b Black n
  | Black => ∃ ca cb m, n = S m ∧ wf a ca m ∧ wf b cb m
  end.
Proof. destruct s; cbn; inversion 1; subst; split; eauto 10. Qed.

Lemma plug_split ctx t n : wf (plug ctx t) Black n → ∃ c m, wf t c m ∧ cwf ctx c m.
Proof.
  revert t. induction ctx as [|[s c p sib] ctx IH]; intros t; cbn; [eauto with rb|].
  intros (c1 & m & Hf & Hc)%IH. unfold fill in Hf. cbn in Hf. apply wf_mk_inv in Hf as [-> Hf].
  destruct c; [destruct Hf|destruct Hf as (ca & cb & k & -> & ?& ?)]; eauto with rb.
Qed.

(** *** The theorem *)

Section order.
Context (cmp : Z → Z → bool).
Hypothesis cmp_trans : ∀ x y z, cmp x y = true → cmp y z = true → cmp x z = true.
Abbreviation lt x y := (cmp x y = true).
(** In search order. *)
Abbreviation sorted := (StronglySorted (λ x y, cmp x y = true)).

Lemma path_before node ctx l :
  sorted (before ctx ++ l ++ after ctx) → path_ok cmp node ctx →
  (∀ x, x ∈ before ctx → lt x node) ∧ (∀ x, x ∈ after ctx → lt node x).
Proof.
  revert l. induction ctx as [|[s c p sib] ctx IH]; intros l Hs Hp; [split; intros x; by rewrite elem_of_nil|].
  apply Forall_cons in Hp as [Hp Hps]. destruct s; cbn in *.
  - destruct (IH (l ++ p :: inorder sib)) as [IH1 IH2]; [|done|].
    { revert Hs. rewrite -!(assoc_L (++)). done. }
    split; [done|]. intros x. rewrite elem_of_cons elem_of_app. intros [->|[Hx|Hx]]; [done| |by apply IH2].
    apply (cmp_trans _ p); [done|]. apply StronglySorted_app_1_r, StronglySorted_app_1_r in Hs.
    apply StronglySorted_cons in Hs as [Hs _]. rewrite Forall_forall in Hs. apply Hs, elem_of_app. by left.
  - destruct (IH (inorder sib ++ p :: l)) as [IH1 IH2]; [|done|].
    { revert Hs. rewrite -!(assoc_L (++)). done. }
    split; [|done]. intros x. rewrite !elem_of_app list_elem_of_singleton. intros [Hx|[Hx| ->]]; [by apply IH1| |done].
    apply (cmp_trans _ p); [|done]. apply StronglySorted_app_1_l, StronglySorted_app_1_r in Hs.
    refine (StronglySorted_app_1_elem_of (λ x y, cmp x y = true) _ [p] _ _ Hs Hx _). by apply list_elem_of_singleton.
Qed.
End order.

Section order2.
Context (cmp : Z → Z → bool).
Hypothesis cmp_trans : ∀ x y z, cmp x y = true → cmp y z = true → cmp x z = true.
Abbreviation sorted := (StronglySorted (λ x y, cmp x y = true)).

(** What the caller hands in: the three words of a node. *)
Definition blank (node : Z) : hProp :=
  (⌜ptr_ok node⌝ ∗ ∃ a b c, node ↦ a ∗ (node + 8) ↦ b ∗ (node + 16) ↦ c)%I.

(** The tree after [_rb_insert] returned [r]. *)
Definition inserted (node : Z) (t : tree) (r : Z) (t' : tree) : Prop :=
  rbtree t' ∧
  if r =? 0 then ∃ l1 l2, inorder t = l1 ++ l2 ∧ inorder t' = l1 ++ node :: l2 ∧ sorted (inorder t')
  else r = -1 ∧ t' = t ∧ ∃ y, y ∈ inorder t ∧ equal_to cmp node y.

Lemma sorted_insert l1 l2 node :
  sorted (l1 ++ l2) → (∀ x, x ∈ l1 → cmp x node = true) → (∀ x, x ∈ l2 → cmp node x = true) →
  sorted (l1 ++ node :: l2).
Proof.
  rewrite !StronglySorted_app StronglySorted_cons Forall_forall. intros (H & H1 & H2) Hl Hr. split_and!; try done.
  intros x1 x2 Hx [->|Hx2]%elem_of_cons; [by apply Hl|by apply H].
Qed.

Lemma rb_insert_spec fuel node root t :
  rbtree t → sorted (inorder t) → (height t < fuel)%nat →
  is_root root t -∗ blank node -∗
  wpm (_rb_insert fuel cmp node root) (λ r, ∃ t', ⌜inserted node t r t'⌝ ∗ is_root root t')%I.
Proof.
  iIntros (Ht Hs Hf) "(Hr & Ht) (%Hok & %a & %b & %c & Ha & Hb & Hc)". unfold _rb_insert.
  iApply wpm_bind. iApply (wpm_load with "Hr"). iIntros "Hr".
  iApply wpm_bind. iApply (wpm_store with "Hb"). iIntros "Hb".
  iApply wpm_bind. iApply (wpm_store with "Hc"). iIntros "Hc".
  iApply wpm_bind. iApply (wpm_store with "Ha"). iIntros "Ha".
  iAssert (cell 0 Red node L 0 0) with "[Ha Hb Hc]" as "Hn".
  { iFrame. iPureIntro. split; [done|by left]. }
  iAssert (is_ctx root [] (addr t)) with "[Hr]" as "Hctx"; [iExists _; by iFrame|].
  iApply wpm_bind. iApply (wpm_mono with "[Hctx Ht Hn]").
  { iApply (insert_descend_spec cmp node root fuel t [] with "Hctx Ht Hn"); [done|by constructor|done]. }
  iIntros ([]) "H"; cbn [plug descended].
  - iDestruct "H" as "(%Heq & H & _)". iApply wpm_ret. iExists t. iFrame. by iPureIntro.
  - iDestruct "H" as "(%ctx & [%Hp %Hpath] & Hh & Hn)". subst t. destruct Ht as [m Ht].
    apply plug_split in Ht as (c' & n & Hleaf & Hc'). inversion Hleaf; subst.
    rewrite plug_inorder in Hs. destruct (path_before cmp cmp_trans node ctx [] Hs Hpath) as [Hb Ha].
    iApply wpm_bind. unfold __rb_insert_fix. iApply wpm_bind. iApply (wpm_rb_red_parent with "Hn"). iIntros "Hn".
    pose proof (height_plug ctx Leaf) as Hh. cbn in Hh.
    iApply (wpm_mono with "[Hh Hn]").
    { iApply (insert_loop_spec root _ fuel ctx (Node Red Leaf node Leaf) 0 with "Hh [Hn]"); [lia| |done|done|].
      - eauto with rb.
      - cbn. by iFrame. }
    iIntros (_) "(%t' & [%Hrb %Hl] & Ht)". iApply wpm_ret. iExists t'. iFrame. iPureIntro. split; [done|]. cbn.
    rewrite plug_inorder in Hl. cbn in Hl. exists (before ctx), (after ctx). rewrite plug_inorder Hl. split_and!; [done..|].
    by apply sorted_insert.
Qed.

(** C23: [_rb_insert] keeps a red-black tree in search order: it adds the node
    at its place, or returns -1 when an equal one is there and leaves the tree
    alone.  It needs at most [2 log2 (n + 1)] steps down, and touches no other
    memory. *)
Theorem rb_insert_correct fuel node root t h1 h2 hf :
  rbtree t → sorted (inorder t) → (2 * Nat.log2 (S (length (inorder t))) < fuel)%nat →
  holds (is_root root t) h1 → holds (blank node) h2 → h1 ##ₘ h2 → h1 ∪ h2 ##ₘ hf →
  wp (_rb_insert fuel cmp node root)
     (λ r s', ∃ t' h', s' = h' ∪ hf ∧ h' ##ₘ hf ∧ inserted node t r t' ∧ holds (is_root root t') h')
     (h1 ∪ h2 ∪ hf).
Proof.
  intros Ht Hs Hf H1 H2 Hd Hd'. pose proof (rbtree_height t Ht) as Hh. eapply wp_mono.
  - eapply (wpm_adequate _ (is_root root t ∗ blank node)%I); [|by apply holds_sep|done].
    iIntros "[Ht Hn]". iApply (rb_insert_spec with "Ht Hn"); [done|done|lia].
  - intros r s' (h' & -> & Hd2 & t' & [HQ Ht']%holds_pure_sep). by exists t', h'.
Qed.

(** ** Lookup *)

Definition found (node : Z) (t : tree) (r : Z) : Prop :=
  if r =? 0 then ∀ y, y ∈ inorder t → ¬ equal_to cmp node y
  else r ∈ inorder t ∧ equal_to cmp node r.

Lemma lookup_loop_spec node : ∀ fuel t par,
  (height t < fuel)%nat → sorted (inorder t) →
  is_tree par t -∗ wpm (lookup_loop fuel cmp node (addr t)) (λ r, ⌜found node t r⌝ ∗ is_tree par t)%I.
Proof.
  induction fuel as [|fuel IH]; intros t par Hf Hs; [lia|]. iIntros "Ht". cbn [lookup_loop].
  iDestruct (is_tree_ok with "Ht") as %[_ H0]. destruct (addr t =? 0) eqn:E.
  { apply Z.eqb_eq, H0 in E as ->. iApply wpm_ret. iFrame. iPureIntro. intros y. by rewrite elem_of_nil. }
  apply Z.eqb_neq in E. destruct t as [|c l p r]; [done|]. cbn [addr inorder height] in *.
  iDestruct "Ht" as "(Hp & Hl & Hr)". apply StronglySorted_app in Hs as (Hlr & Hsl & Hs).
  apply StronglySorted_cons in Hs as [Hpr Hsr]. rewrite Forall_forall in Hpr.
  assert (Hlp : ∀ y, y ∈ inorder l → cmp y p = true) by (intros y Hy; apply Hlr; [done|by left]).
  destruct (cmp node p) eqn:C1; [|destruct (cmp p node) eqn:C2].
  - iApply wpm_bind. iApply (wpm_child with "Hp"). iIntros "Hp".
    iApply (wpm_mono with "[Hl]"); [iApply (IH with "Hl"); [lia|done]|]. iIntros (x) "[%Hx Hl]". iFrame. iPureIntro.
    unfold found in *. destruct (x =? 0).
    + intros y. cbn. rewrite elem_of_app elem_of_cons. intros [Hy|[->|Hy]]; [by apply Hx|intros [? ?]; congruence|].
      unfold equal_to. rewrite (cmp_trans node p y); [by intros [? _]|done|by apply Hpr].
    + split; [|apply Hx]. cbn. rewrite elem_of_app. left. apply Hx.
  - iApply wpm_bind. iApply (wpm_child_opp _ _ _ L with "Hp"). iIntros "Hp".
    iApply (wpm_mono with "[Hr]"); [iApply (IH with "Hr"); [lia|done]|]. iIntros (x) "[%Hx Hr]". iFrame. iPureIntro.
    unfold found in *. destruct (x =? 0).
    + intros y. cbn. rewrite elem_of_app elem_of_cons. intros [Hy|[->|Hy]]; [|intros [? ?]; congruence|by apply Hx].
      unfold equal_to. rewrite (cmp_trans y p node); [by intros [_ ?]|by apply Hlp|done].
    + split; [|apply Hx]. cbn. rewrite elem_of_app elem_of_cons. right. right. apply Hx.
  - iApply wpm_ret. iFrame. iPureIntro. unfold found. rewrite (proj2 (Z.eqb_neq _ _) E). split; [|done].
    cbn. rewrite elem_of_app elem_of_cons. auto.
Qed.

(** [_rb_lookup] gives a node equal to its argument, or null when the tree
    has none, and changes nothing. *)
Theorem rb_lookup_correct fuel node root t h hf :
  rbtree t → sorted (inorder t) → (2 * Nat.log2 (S (length (inorder t))) < fuel)%nat →
  holds (is_root root t) h → h ##ₘ hf →
  wp (_rb_lookup fuel cmp node root)
     (λ r s', ∃ h', s' = h' ∪ hf ∧ h' ##ₘ hf ∧ found node t r ∧ holds (is_root root t) h') (h ∪ hf).
Proof.
  intros Ht Hs Hf H1 Hd. pose proof (rbtree_height t Ht) as Hh. eapply wp_mono.
  - eapply (wpm_adequate _ (is_root root t) (λ r, ⌜found node t r⌝ ∗ is_root root t)%I); [|done|done].
    iIntros "[Hr Ht]". unfold _rb_lookup. iApply wpm_bind. iApply (wpm_load with "Hr"). iIntros "Hr".
    iApply (wpm_mono with "[Ht]"); [iApply (lookup_loop_spec with "Ht"); [lia|done]|]. iIntros (r) "[$ $]". iFrame.
  - intros r s' (h' & -> & Hd2 & [HQ Ht']%holds_pure_sep). by exists h'.
Qed.
End order2.

(** ** The first node *)

Lemma first_loop_spec : ∀ fuel t par,
  (height t ≤ fuel)%nat → t ≠ Leaf →
  is_tree par t -∗ wpm (first_loop fuel (addr t)) (λ r, ⌜inorder t !! 0%nat = Some r⌝ ∗ is_tree par t)%I.
Proof.
  induction fuel as [|fuel IH]; intros t par Hf Ht; destruct t as [|c l p r]; [done|cbn in Hf; lia|done|].
  cbn [height] in Hf. iIntros "(Hp & Hl & Hr)". cbn [first_loop addr]. iApply wpm_bind.
  iApply (wpm_child with "Hp"). iIntros "Hp". iDestruct (is_tree_ok with "Hl") as %[_ H0].
  destruct (addr l =? 0) eqn:E.
  - apply Z.eqb_eq, H0 in E as ->. iApply wpm_ret. by iFrame.
  - apply Z.eqb_neq in E. iApply (wpm_mono with "[Hl]"); [iApply (IH with "Hl"); [lia|by intros ->]|].
    iIntros (x) "[%Hx Hl]". iFrame. iPureIntro. cbn. by apply lookup_app_l_Some.
Qed.

Lemma rb_first_spec fuel root t :
  (height t ≤ fuel)%nat →
  is_root root t -∗ wpm (_rb_first fuel root) (λ r, ⌜r = default 0 (inorder t !! 0%nat)⌝ ∗ is_root root t)%I.
Proof.
  iIntros (Hf) "[Hr Ht]". unfold _rb_first. iApply wpm_bind. iApply (wpm_load with "Hr"). iIntros "Hr".
  iDestruct (is_tree_ok with "Ht") as %[_ H0]. destruct (addr t =? 0) eqn:E.
  - apply Z.eqb_eq, H0 in E as ->. iApply wpm_ret. by iFrame.
  - apply Z.eqb_neq in E. iApply (wpm_mono with "[Ht]"); [iApply (first_loop_spec with "Ht"); [done|by intros ->]|].
    iIntros (x) "[%Hx Ht]". iFrame. iPureIntro. by rewrite Hx.
Qed.

Module RbExamples.

(** Nodes 64, 96 and 128, ordered by address; the root word is at 8. *)
Definition cmp (x y : Z) : bool := x <? y.
Lemma cmp_trans x y z : cmp x y = true → cmp y z = true → cmp x z = true.
Proof. unfold cmp. rewrite !Z.ltb_lt. lia. Qed.

Definition one : tree := Node Black Leaf 64 Leaf.
Definition two : tree := Node Black Leaf 64 (Node Red Leaf 128 Leaf).
Definition cell_mem (par : Z) (c : color) (p l r : Z) : mem :=
  <[p := pack par c]> (<[p + 16 := l]> (<[p + 8 := r]> ∅)).
Definition two_mem : mem := <[8 := 64]> (cell_mem 0 Black 64 0 128 ∪ cell_mem 64 Red 128 0 0).
(** A fresh node, and a word of somebody else. *)
Definition node_mem (p : Z) : mem := <[p := 7]> (<[p + 8 := 7]> (<[p + 16 := 7]> ∅)).
Definition other : mem := {[ 1000 := 5 ]}.

Lemma ptr64 p : p ∈ [64; 96; 128] → ptr_ok p.
Proof. intros H. unfold ptr_ok. repeat (apply elem_of_cons in H as [->|H]; [by split; [lia|]|]). by apply elem_of_nil in H. Qed.

Lemma cell_holds par c p l r :
  ptr_ok p → par_ok par → holds (cell par c p L l r) (cell_mem par c p l r).
Proof.
  intros Hp Hpar. apply (holds_entails (p ↦ pack par c ∗ (p + 16) ↦ l ∗ (p + 8) ↦ r ∗ True)%I).
  { iIntros "($ & $ & $ & _)". by iPureIntro. }
  unfold cell_mem. apply holds_cell_sep; [|apply holds_cell_sep; [|by apply holds_cell_sep]];
    rewrite ?lookup_insert_ne //; lia.
Qed.

Lemma two_tree : is_tree 0 two ⊣⊢ cell 0 Black 64 L 0 128 ∗ cell 64 Red 128 L 0 0.
Proof. cbn. iSplit; [iIntros "($ & _ & $ & _)"|iIntros "[$ $]"; done]. Qed.

Lemma two_holds : holds (is_root 8 two) two_mem.
Proof.
  unfold is_root, two_mem. apply holds_cell_sep; [by vm_compute|].
  eapply holds_entails; [rewrite two_tree; reflexivity|].
  apply holds_sep; [by apply (bool_decide_eq_true_1 _); vm_compute| |].
  - apply cell_holds; [apply ptr64; set_solver|by left].
  - apply cell_holds; [apply ptr64; set_solver|right; apply ptr64; set_solver].
Qed.

Lemma two_rb : rbtree two.
Proof. exists 1%nat. unfold two. eauto with rb. Qed.
Lemma two_sorted : StronglySorted (λ x y, cmp x y = true) (inorder two).
Proof. repeat constructor. Qed.

Lemma blank_holds p : ptr_ok p → holds (blank p) (node_mem p).
Proof.
  intros Hp. apply (holds_entails (p ↦ 7 ∗ (p + 8) ↦ 7 ∗ (p + 16) ↦ 7 ∗ True)%I).
  { iIntros "(H1 & H2 & H3 & _)". iSplitR; [done|]. iExists _, _, _. iFrame. }
  unfold node_mem. apply holds_cell_sep; [|apply holds_cell_sep; [|by apply holds_cell_sep]];
    rewrite ?lookup_insert_ne //; lia.
Qed.

Lemma rb_insert_correct_witness :
  wp (_rb_insert 20 cmp 96 8)
     (λ r s', ∃ t' h', s' = h' ∪ other ∧ h' ##ₘ other ∧ inserted cmp 96 two r t' ∧ holds (is_root 8 t') h')
     (two_mem ∪ node_mem 96 ∪ other).
Proof.
  apply (rb_insert_correct cmp cmp_trans 20 96 8 two two_mem (node_mem 96) other two_rb two_sorted).
  - vm_compute. lia.
  - exact two_holds.
  - apply blank_holds, ptr64. set_solver.
  - apply (bool_decide_eq_true_1 _). vm_compute. reflexivity.
  - apply (bool_decide_eq_true_1 _). vm_compute. reflexivity.
Defined.

(** What the code does on that memory: 96 becomes the root. *)
Example insert_96 :
  match _rb_insert 20 cmp 96 8 (two_mem ∪ node_mem 96 ∪ other) with
  | Ok (r, m) => r = 0 ∧ m !! 8 = Some 96 ∧ m !! (96 + 8) = Some 128 ∧ m !! (96 + 16) = Some 64 ∧ m !! 1000 = Some 5
  | Fail _ => False
  end.
Proof. vm_compute. auto 10. Qed.

Lemma rb_lookup_correct_witness :
  wp (_rb_lookup 20 cmp 128 8)
     (λ r s', ∃ h', s' = h' ∪ other ∧ h' ##ₘ other ∧ found cmp 128 two r ∧ holds (is_root 8 two) h') (two_mem ∪ other).
Proof.
  apply (rb_lookup_correct cmp cmp_trans 20 128 8 two two_mem other two_rb two_sorted).
  - vm_compute. lia.
  - exact two_holds.
  - apply (bool_decide_eq_true_1 _). vm_compute. reflexivity.
Defined.

End RbExamples.
