(* ===== verification/RbErase.v ===== *)
(** * Erasing from red-black trees

    [__rb_erase], [__rb_erase_fix] and [_rb_erase] of [src/common/rbtree.c], on
    the tree assertions of [RbTree.v].  [__rb_erase] takes the node out, its
    successor in its place when it has two children, and says where a black
    node is missing; [erase_turn] is one turn of the loop that makes up for
    it. *)

From stdpp Require Import sorting.
From iris.proofmode Require Import proofmode.
From S2P Require Import Prelude SepLogic RbTree.
#[local] Open Scope Z_scope.

(** ** The code *)

(** [do { parent = successor; successor = tmp; tmp = tmp->rb_left; } while (tmp)] *)
Fixpoint successor_loop (fuel : nat) (successor tmp : Z) : M mem (Z * Z) :=
  match fuel with
  | O => fail OutOfFuel
  | S fuel' =>
      next ← child L tmp;
      if next =? 0 then mret (successor, tmp) else successor_loop fuel' tmp next
  end.

(** The successor of [node] below its right child [ch]: its parent once [node]
    is out, itself, and its right child. *)
Definition find_successor (fuel : nat) (ch : Z) : M mem (Z * Z * Z) :=
  tmp ← child L ch;
  if tmp =? 0 then
    child2 ← child R ch;
    mret (ch, ch, child2)
  else
    ps ← successor_loop fuel ch tmp;
    let '(parent, successor) := ps in
    child2 ← child R successor;
    set_child L parent child2 ;;
    set_child R successor ch ;;
    rb_set_parent ch successor ;;
    mret (parent, successor, child2).

Definition __rb_erase (fuel : nat) (node root : Z) : M mem Z :=
  ch ← child R node;
  tmp ← child L node;
  if tmp =? 0 then
    pc ← load node;
    let parent := __rb_parent pc in
    __rb_change_child node ch parent root ;;
    if negb (ch =? 0) then store ch pc ;; mret 0
    else mret (if __rb_is_black pc then parent else 0)
  else if ch =? 0 then
    pc ← load node;
    store tmp pc ;;
    __rb_change_child node tmp (__rb_parent pc) root ;;
    mret 0
  else
    psc ← find_successor fuel ch;
    let '(parent, successor, child2) := psc in
    tmp ← child L node;
    set_child L successor tmp ;;
    rb_set_parent tmp successor ;;
    pc ← load node;
    __rb_change_child node successor (__rb_parent pc) root ;;
    if negb (child2 =? 0) then
      store successor pc ;;
      rb_set_parent_color child2 parent RB_BLACK ;;
      mret 0
    else
      pc2 ← load successor;
      store successor pc ;;
      mret (if __rb_is_black pc2 then parent else 0).

(** One turn of the loop of [__rb_erase_fix] on the child at [s] of [parent],
    in its parts: the last rotation, *)
Definition erase_rotate (s : side) (parent sibling tmp1 root : Z) : M mem (option (Z * Z)) :=
  tmp2 ← child s sibling;
  set_child (opp s) parent tmp2 ;;
  when_live tmp2 (rb_set_parent tmp2 parent) ;;
  set_child s sibling parent ;;
  rb_set_parent_color tmp1 sibling RB_BLACK ;;
  __rb_rotate_set_parents parent sibling root RB_BLACK ;;
  mret None.

(** cases 2 and 3, the sibling being black, *)
Definition erase_black (s : side) (parent sibling root : Z) : M mem (option (Z * Z)) :=
  tmp1 ← child (opp s) sibling;
  b1 ← null_or_black tmp1;
  if b1 : bool then
    tmp2 ← child s sibling;
    b2 ← null_or_black tmp2;
    if b2 : bool then
      rb_set_parent_color sibling parent RB_RED ;;
      red ← rb_is_red parent;
      if red : bool then rb_set_black parent ;; mret None
      else
        up ← rb_parent parent;
        mret (if negb (up =? 0) then Some (parent, up) else None)
    else
      tmp1 ← child (opp s) tmp2;
      set_child s sibling tmp1 ;;
      when_live tmp1 (rb_set_parent_color tmp1 sibling RB_BLACK) ;;
      set_child (opp s) tmp2 sibling ;;
      set_child (opp s) parent tmp2 ;;
      erase_rotate s parent tmp2 sibling root
  else erase_rotate s parent sibling tmp1 root.

(** and case 1, the sibling being red. *)
Definition erase_side (s : side) (parent sibling root : Z) : M mem (option (Z * Z)) :=
  red ← rb_is_red sibling;
  sibling ← (if red : bool then
               tmp1 ← child s sibling;
               set_child (opp s) parent tmp1 ;;
               rb_set_parent_color tmp1 parent RB_BLACK ;;
               set_child s sibling parent ;;
               __rb_rotate_set_parents parent sibling root RB_RED ;;
               mret tmp1
             else mret sibling);
  erase_black s parent sibling root.

Definition erase_turn (node parent root : Z) : M mem (option (Z * Z)) :=
  sibling ← child R parent;
  if negb (node =? sibling) then erase_side L parent sibling root
  else sibling ← child L parent; erase_side R parent sibling root.

Fixpoint erase_loop (fuel : nat) (node parent root : Z) : M mem unit :=
  match fuel with
  | O => fail OutOfFuel
  | S fuel' =>
      r ← erase_turn node parent root;
      match r with
      | Some (node, parent) => erase_loop fuel' node parent root
      | None => mret tt
      end
  end.

Definition __rb_erase_fix (fuel : nat) (parent root : Z) : M mem unit := erase_loop fuel 0 parent root.

Definition _rb_erase (fuel : nat) (node root : Z) : M mem unit :=
  rebalance ← __rb_erase fuel node root;
  if negb (rebalance =? 0) then __rb_erase_fix fuel rebalance root else mret tt.

(** ** Making up for a missing black node *)

Lemma settle_any root ctx t c n l :
  wf t c n → cwf ctx c n → inorder (plug ctx t) = l →
  is_ctx root ctx (addr t) -∗ is_tree (up ctx) t -∗ settled root l.
Proof.
  iIntros (Ht Hc Hl) "Hctx Ht". iExists (plug ctx t). iSplitR; [iPureIntro; split; [by eapply plug_wf|done]|].
  iApply is_ctx_plug. iFrame.
Qed.

(** The tree [t] hangs in [ctx], one black node short. *)
Definition short (root : Z) (l : list Z) (k : nat) (r : Z * Z) : hProp :=
  (∃ t ctx n, ⌜r = (addr t, up ctx) ∧ ctx ≠ [] ∧ wf t Black n ∧ cwf ctx Black (S n) ∧ inorder (plug ctx t) = l ∧
     (length ctx < k)%nat⌝ ∗ is_ctx root ctx (addr t) ∗ is_tree (up ctx) t)%I.
Definition mended (root : Z) (l : list Z) (k : nat) (r : option (Z * Z)) : hProp :=
  match r with None => settled root l | Some r => short root l k r end.

Section erase_black.
Context (s : side) (root : Z) (ctx : list frame) (t near far : tree) (c : color) (p q : Z) (n : nat) (cn cf : color).
Hypothesis Ht : wf t Black n.
Hypothesis Hnear : wf near cn n.
Hypothesis Hfar : wf far cf n.
(** The height at the place of [p]. *)
Context (k : nat).
Hypothesis Hk : k = match c with Red => S n | Black => S (S n) end.
Hypothesis Hctx : cwf ctx c k.
Abbreviation l := (inorder (plug ctx (mk s c p t (mk s Black q near far)))).

(** [p] with [t] at [s] and its sibling [q], black. *)
Definition brothers : hProp :=
  (cell (up ctx) c p s (addr t) q ∗ is_tree p t ∗ cell p Black q s (addr near) (addr far) ∗
   is_tree q near ∗ is_tree q far ∗ is_ctx root ctx p)%I.

Lemma wf_two_black x a b : wf a Black (S n) → wf b Black (S n) → wf (mk s c x a b) c k.
Proof. intros Ha Hb. rewrite Hk. destruct c; eauto with rb. Qed.

Lemma black_ctx : cwf ctx Black (match c with Red => S n | Black => S (S n) end).
Proof. rewrite -Hk. eapply cwf_weaken, Hctx. Qed.

Lemma erase_far_red m :
  cf = Red → brothers -∗ wpm (erase_rotate s p q (addr far) root) (mended root l m).
Proof.
  iIntros (->) "(Hp & Ht & Hq & Hn & Hf & Hctx)". unfold erase_rotate.
  iDestruct (cell_ok with "Hp") as %[Hpok _]. iDestruct (cell_ok with "Hq") as %[Hqok _].
  iApply wpm_bind. iApply (wpm_child with "Hq"). iIntros "Hq".
  iApply wpm_bind. iApply (wpm_set_child_opp with "Hp"). iIntros "Hp".
  iApply wpm_bind. iApply (wpm_when_reparent with "Hn"); [by right|]. iIntros "Hn".
  iApply wpm_bind. iApply (wpm_set_child with "Hq"). iIntros "Hq".
  iApply wpm_bind. iApply (wpm_set_tree _ _ _ Black with "Hf"); [by right|by inversion Hfar|]. iIntros "Hf".
  iApply wpm_bind. iApply (wpm_rotate _ _ _ _ _ _ _ _ _ _ _ _ _ _ Black with "Hp Hq Hctx"); [done|]. iIntros "Hp Hq Hctx".
  iApply wpm_ret.
  iApply (settle_any _ ctx (mk s c q (mk s Black p t near) (recolor Black far)) c k with "[Hctx]"); [|done| | |].
  - apply wf_two_black; [by eauto with rb|by apply wf_recolor_black].
  - apply inorder_plug. rewrite !inorder_mk inorder_recolor. destruct s; app_norm.
  - by rewrite addr_mk.
  - rewrite !is_tree_mk !addr_mk addr_recolor. iFrame.
Qed.

Lemma erase_near_red m :
  cn = Red → cf = Black → brothers -∗ wpm (erase_black s p q root) (mended root l m).
Proof.
  iIntros (-> ->) "(Hp & Ht & Hq & Hn & Hf & Hctx)". unfold erase_black, erase_rotate.
  iDestruct (cell_ok with "Hp") as %[Hpok _]. iDestruct (cell_ok with "Hq") as %[Hqok _].
  iApply wpm_bind. iApply (wpm_child_opp with "Hq"). iIntros "Hq".
  iApply wpm_bind. iApply (wpm_null_or_black with "Hf"). iIntros "Hf". rewrite (wf_colour _ _ _ Hfar).
  iApply wpm_bind. iApply (wpm_child with "Hq"). iIntros "Hq".
  iApply wpm_bind. iApply (wpm_null_or_black with "Hn"). iIntros "Hn". rewrite (wf_colour _ _ _ Hnear).
  destruct (wf_red_mk s near n Hnear) as (x & a & b & -> & Ha & Hb). rewrite is_tree_mk addr_mk.
  iDestruct "Hn" as "(Hx & Ha & Hb)". iDestruct (cell_ok with "Hx") as %[Hxok _].
  iApply wpm_bind. iApply (wpm_child_opp with "Hx"). iIntros "Hx".
  iApply wpm_bind. iApply (wpm_set_child with "Hq"). iIntros "Hq".
  iApply wpm_bind. iApply (wpm_when_set _ _ _ Black with "Hb"); [by right|]. iIntros "Hb".
  iApply wpm_bind. iApply (wpm_set_child_opp with "Hx"). iIntros "Hx".
  iApply wpm_bind. iApply (wpm_set_child_opp with "Hp"). iIntros "Hp".
  iApply wpm_bind. iApply (wpm_child with "Hx"). iIntros "Hx".
  iApply wpm_bind. iApply (wpm_set_child_opp with "Hp"). iIntros "Hp".
  iApply wpm_bind. iApply (wpm_when_reparent with "Ha"); [by right|]. iIntros "Ha".
  iApply wpm_bind. iApply (wpm_set_child with "Hx"). iIntros "Hx".
  iApply wpm_bind. iApply (wpm_set_parent_color _ _ _ _ _ _ _ Black with "Hq"); [by right|]. iIntros "Hq".
  iApply wpm_bind. iApply (wpm_rotate _ _ _ _ _ _ _ _ _ _ _ _ _ _ Black with "Hp Hx Hctx"); [done|]. iIntros "Hp Hx Hctx".
  iApply wpm_ret. rewrite (recolor_black_id b n) //.
  iApply (settle_any _ ctx (mk s c x (mk s Black p t a) (mk s Black q b far)) c k with "[Hctx]"); [|done| | |].
  - apply wf_two_black; eauto with rb.
  - apply inorder_plug. rewrite !inorder_mk. destruct s; app_norm.
  - by rewrite addr_mk.
  - rewrite !is_tree_mk !addr_mk. iFrame.
Qed.

Lemma erase_both_black m :
  cn = Black → cf = Black → (c = Black → (length ctx < m)%nat) →
  brothers -∗ wpm (erase_black s p q root) (mended root l m).
Proof.
  iIntros (-> -> Hm) "(Hp & Ht & Hq & Hn & Hf & Hctx)". unfold erase_black.
  iDestruct (cell_ok with "Hp") as %[Hpok Hup].
  iApply wpm_bind. iApply (wpm_child_opp with "Hq"). iIntros "Hq".
  iApply wpm_bind. iApply (wpm_null_or_black with "Hf"). iIntros "Hf". rewrite (wf_colour _ _ _ Hfar).
  iApply wpm_bind. iApply (wpm_child with "Hq"). iIntros "Hq".
  iApply wpm_bind. iApply (wpm_null_or_black with "Hn"). iIntros "Hn". rewrite (wf_colour _ _ _ Hnear).
  iApply wpm_bind. iApply (wpm_set_parent_color _ _ _ _ _ _ _ Red with "Hq"); [by right|]. iIntros "Hq".
  iApply wpm_bind. iApply (wpm_rb_is_red with "Hp"). iIntros "Hp".
  set (t' := mk s Black p t (mk s Red q near far)).
  assert (Ht' : wf t' Black (S n)) by (unfold t'; eauto with rb).
  assert (El : inorder (plug ctx t') = l).
  { apply inorder_plug. unfold t'. rewrite !inorder_mk. by destruct s. }
  pose proof black_ctx as Hctx'. destruct (color_cases c) as [E|E]; rewrite E in Hctx' El |- *.
  - iApply wpm_bind. unfold rb_set_black. iDestruct "Hp" as "(_ & Hpc & Hp)".
    iApply wpm_bind. iApply (wpm_load with "Hpc"). iIntros "Hpc". iApply (wpm_store with "Hpc"). iIntros "Hpc".
    rewrite set_black_pack. iApply wpm_ret.
    iApply (settle _ ctx t' (S n) with "[Hctx]"); [done|done|done| |].
    + unfold t'. by rewrite addr_mk.
    + unfold t'. rewrite !is_tree_mk !addr_mk. iFrame. by iPureIntro.
  - iApply wpm_bind. iApply (wpm_rb_parent with "Hp"). iIntros "Hp". iApply wpm_ret. destruct (up ctx =? 0) eqn:Eu; cbn [negb mended].
    + apply Z.eqb_eq in Eu. destruct ctx as [|f ctx'].
      * iApply (settle _ [] t' (S n) with "[Hctx]"); [done|by eauto with rb|done| |].
        -- unfold t'. by rewrite addr_mk.
        -- unfold t'. rewrite !is_tree_mk !addr_mk. iFrame.
      * rewrite is_ctx_cons. iDestruct "Hctx" as "(Hc & _)". iDestruct (cell_ok with "Hc") as %[[? _] _].
        cbn in Eu. lia.
    + iExists t', ctx, (S n). unfold t'. rewrite !is_tree_mk !addr_mk. iFrame. iPureIntro.
      split_and!; [done| |done|done|done|by apply Hm]. intros ->. done.
Qed.

(** Only a black [p] makes the loop go on, one level up. *)
Lemma erase_black_spec m :
  (c = Black → (length ctx < m)%nat) → brothers -∗ wpm (erase_black s p q root) (mended root l m).
Proof.
  intros Hm.
  destruct (color_cases cf) as [E|E].
  - iIntros "(Hp & Ht & Hq & Hn & Hf & Hctx)". unfold erase_black.
    iApply wpm_bind. iApply (wpm_child_opp with "Hq"). iIntros "Hq".
    iApply wpm_bind. iApply (wpm_null_or_black with "Hf"). iIntros "Hf". rewrite (wf_colour _ _ _ Hfar) E.
    iApply (erase_far_red with "[$Hp $Ht $Hq $Hn $Hf $Hctx]"). done.
  - destruct (color_cases cn) as [E2|E2]; [by apply erase_near_red|by apply erase_both_black].
Qed.
End erase_black.

Lemma wf_black_mk s t n : wf t Black (S n) → ∃ p a b ca cb, t = mk s Black p a b ∧ wf a ca n ∧ wf b cb n.
Proof. inversion 1; subst. destruct s; cbn; eauto 10. Qed.

Lemma mend_cong root l l' m : l = l' → ∀ r, mended root l m r -∗ mended root l' m r.
Proof. intros ->. auto. Qed.

Section erase_side.
Context (s : side) (root : Z) (ctx : list frame) (t sib : tree) (c : color) (p : Z) (n : nat).
Hypothesis Ht : wf t Black n.
Hypothesis Hctx : cwf (Frame s c p sib :: ctx) Black (S n).
Abbreviation l := (inorder (plug ctx (mk s c p t sib))).

Lemma erase_frame : ∃ cs, wf sib cs (S n) ∧
  match c with Red => cs = Black ∧ cwf ctx Red (S n) | Black => cwf ctx Black (S (S n)) end.
Proof. inversion Hctx; subst; eauto. Qed.

(** The sibling is black. *)
Lemma erase_side_black :
  wf sib Black (S n) →
  cell (up ctx) c p s (addr t) (addr sib) -∗ is_tree p t -∗ is_tree p sib -∗ is_ctx root ctx p -∗
  wpm (erase_black s p (addr sib) root) (mended root l (S (length ctx))).
Proof.
  iIntros (Hs) "Hp Ht Hs Hctx". destruct erase_frame as (cs & _ & Hc).
  destruct (wf_black_mk s sib n Hs) as (q & near & far & cn & cf & -> & Hn & Hf).
  rewrite is_tree_mk addr_mk. iDestruct "Hs" as "(Hq & Hn & Hf)".
  iApply (erase_black_spec s root ctx t near far c p q n cn cf Ht Hn Hf
    (match c with Red => S n | Black => S (S n) end)); [done| |lia|iFrame].
  destruct c; [apply Hc|exact Hc].
Qed.

(** It is red: after a rotation it is not. *)
Lemma erase_side_red :
  wf sib Red (S n) →
  cell (up ctx) c p s (addr t) (addr sib) -∗ is_tree p t -∗ is_tree p sib -∗ is_ctx root ctx p -∗
  wpm (erase_side s p (addr sib) root) (mended root l (S (length ctx))).
Proof.
  iIntros (Hs) "Hp Ht Hs Hctx". destruct erase_frame as (cs & Hcs & Hc).
  destruct (wf_red_mk s sib (S n) Hs) as (q & near & far & -> & Hn & Hf).
  destruct (color_cases c) as [E|E]; rewrite E in Hc |- *.
  { destruct Hc as [-> _]. by inversion Hs; inversion Hcs; destruct s; simplify_eq. }
  rewrite is_tree_mk addr_mk. iDestruct "Hs" as "(Hq & Hn & Hf)". unfold erase_side.
  iDestruct (cell_ok with "Hp") as %[Hpok _].
  iApply wpm_bind. iApply (wpm_rb_is_red with "Hq"). iIntros "Hq".
  iApply wpm_bind. iApply wpm_bind. iApply (wpm_child with "Hq"). iIntros "Hq".
  iApply wpm_bind. iApply (wpm_set_child_opp with "Hp"). iIntros "Hp".
  iApply wpm_bind. iApply (wpm_set_tree _ _ _ Black with "Hn"); [by right|by inversion Hn|]. iIntros "Hn".
  rewrite (recolor_black_id near (S n)) //.
  iApply wpm_bind. iApply (wpm_set_child with "Hq"). iIntros "Hq".
  iApply wpm_bind. iApply (wpm_rotate _ _ _ _ _ _ _ _ _ _ _ _ _ _ Red with "Hp Hq Hctx"); [done|]. iIntros "Hp Hq Hctx".
  iApply wpm_ret.
  destruct (wf_black_mk s near n Hn) as (q2 & near2 & far2 & cn & cf & -> & Hn2 & Hf2).
  rewrite is_tree_mk addr_mk. iDestruct "Hn" as "(Hq2 & Hn2 & Hf2)".
  iApply (wpm_mono with "[-]"); [|iIntros (r) "H"; iApply (mend_cong with "H")].
  - iApply (erase_black_spec s root (Frame s Black q far :: ctx) t near2 far2 Red p q2 n cn cf Ht Hn2 Hf2 (S n)
      with "[-]"); [done|by eauto with rb|done|]. rewrite /brothers is_ctx_cons. cbn [up_addr fp fs fc fsib]. iFrame.
  - cbn [plug]. apply inorder_plug. unfold fill. cbn. rewrite !inorder_mk. destruct s; app_norm.
Qed.

Lemma erase_side_spec :
  cell (up ctx) c p s (addr t) (addr sib) -∗ is_tree p t -∗ is_tree p sib -∗ is_ctx root ctx p -∗
  wpm (erase_side s p (addr sib) root) (mended root l (S (length ctx))).
Proof.
  destruct erase_frame as (cs & Hcs & _). destruct (color_cases cs) as [E|E]; rewrite E in Hcs;
    [by apply erase_side_red|].
  iIntros "Hp Ht Hs Hctx". unfold erase_side. iApply wpm_bind.
  iApply (wpm_mono _ (λ r, ⌜r = false⌝ ∗ is_tree p sib)%I with "[Hs]").
  { destruct sib as [|c' a q b]; [by inversion Hcs|]. inversion Hcs; subst. iDestruct "Hs" as "(Hq & Hab)".
    iApply (wpm_rb_is_red with "Hq"). iIntros "Hq". by iFrame. }
  iIntros (?) "[-> Hs]". iApply wpm_bind. iApply wpm_ret. by iApply (erase_side_black with "Hp Ht Hs Hctx").
Qed.
End erase_side.

Lemma erase_turn_spec root ctx t n :
  ctx ≠ [] → wf t Black n → cwf ctx Black (S n) →
  is_ctx root ctx (addr t) -∗ is_tree (up ctx) t -∗
  wpm (erase_turn (addr t) (up ctx) root) (mended root (inorder (plug ctx t)) (length ctx)).
Proof.
  iIntros (Hne Ht Hc) "Hctx Ht". destruct ctx as [|[s c p sib] ctx]; [done|]. cbn [up_addr fp].
  rewrite is_ctx_cons. cbn [fs fc fp fsib]. iDestruct "Hctx" as "(Hp & Hsib & Hctx)". unfold erase_turn.
  destruct s.
  - iApply wpm_bind. iApply (wpm_child_opp _ _ _ L with "Hp"). iIntros "Hp".
    iAssert ⌜addr t ≠ addr sib⌝%I as %Hd.
    { destruct sib as [|c' a q b]; [by inversion Hc; subst; match goal with H : wf Leaf _ _ |- _ => inversion H end|].
      iDestruct "Hsib" as "(Hq & _)". iApply (addr_ne with "Hq Ht"). }
    rewrite (proj2 (Z.eqb_neq _ _) Hd). cbn [negb]. by iApply (erase_side_spec with "Hp Ht Hsib Hctx").
  - iApply wpm_bind. iApply (wpm_child with "Hp"). iIntros "Hp". rewrite Z.eqb_refl. cbn [negb].
    iApply wpm_bind. iApply (wpm_child_opp _ _ _ R with "Hp"). iIntros "Hp".
    by iApply (erase_side_spec with "Hp Ht Hsib Hctx").
Qed.

Lemma erase_loop_spec root l : ∀ fuel ctx t n,
  (length ctx < fuel)%nat → ctx ≠ [] → wf t Black n → cwf ctx Black (S n) → inorder (plug ctx t) = l →
  is_ctx root ctx (addr t) -∗ is_tree (up ctx) t -∗
  wpm (erase_loop fuel (addr t) (up ctx) root) (λ _, settled root l).
Proof.
  induction fuel as [|fuel IH]; intros ctx t n Hf Hne Ht Hc Hl; [lia|]. iIntros "Hctx Ht". cbn [erase_loop].
  iApply wpm_bind. iApply (wpm_mono with "[Hctx Ht]"); [by iApply (erase_turn_spec with "Hctx Ht")|].
  rewrite Hl. iIntros ([[node parent]|]) "H"; cbn [mended]; [|by iApply wpm_ret].
  iDestruct "H" as "(%t2 & %ctx2 & %n2 & %H & Hctx & Ht)". destruct H as (Er & Hne2 & Ht2 & Hc2 & Hl2 & Hlt).
  injection Er as -> ->. iApply (IH with "Hctx Ht"); [lia|done..].
Qed.

(** ** Taking the node out *)

Lemma wpm_load_pc par c p s a b (Q : Z → hProp) :
  cell par c p s a b -∗ (cell par c p s a b -∗ Q (pack par c)) -∗ wpm (load p) Q.
Proof. iIntros "(% & Hp & Hab) HQ". iApply (wpm_load with "Hp"). iIntros "Hp". iApply "HQ". by iFrame. Qed.

Lemma wpm_store_pc par c p s a b par' c' (Q : unit → hProp) :
  par_ok par' →
  cell par c p s a b -∗ (cell par' c' p s a b -∗ Q tt) -∗ wpm (store p (pack par' c')) Q.
Proof. apply wpm_set_parent_color. Qed.

Lemma wpm_reparent par t par' (Q : unit → hProp) :
  par_ok par' → t ≠ Leaf →
  is_tree par t -∗ (is_tree par' t -∗ Q tt) -∗ wpm (rb_set_parent (addr t) par') Q.
Proof.
  iIntros (Hp Ht) "Ht HQ". iDestruct (is_tree_ok with "Ht") as %[_ H0].
  assert (E : rb_set_parent (addr t) par' = when_live (addr t) (rb_set_parent (addr t) par')).
  { unfold when_live. destruct (addr t =? 0) eqn:E0; [|done]. apply Z.eqb_eq, H0 in E0. done. }
  rewrite E. by iApply (wpm_when_reparent with "Ht").
Qed.

Lemma is_seg_plug par d t top :
  is_seg par d (addr t) top ∗ is_tree (up_addr d par) t ⊣⊢ ⌜top = addr (plug d t)⌝ ∗ is_tree par (plug d t).
Proof.
  revert t. induction d as [|[s c p sib] d IH]; intros t; cbn.
  - iSplit; iIntros "[% $]"; iPureIntro; done.
  - rewrite -IH. unfold fill. cbn. rewrite is_tree_mk addr_mk. iSplit.
    + iIntros "(($ & $ & $) & $)".
    + iIntros "($ & $ & $ & $)".
Qed.

Lemma is_seg_app par d e a top :
  is_seg par (d ++ e) a top ⊣⊢ ∃ m, is_seg (up_addr e par) d a m ∗ is_seg par e m top.
Proof.
  revert a. induction d as [|[s c p sib] d IH]; intros a; cbn.
  - iSplit; [iIntros "H"; iExists a; by iFrame|iIntros "(%m & % & H)"; by subst].
  - rewrite IH. assert (up_addr (d ++ e) par = up_addr d (up_addr e par)) as -> by by destruct d.
    iSplit.
    + iIntros "($ & $ & H)". done.
    + iIntros "(%m & ($ & $ & H) & He)". iExists m. iFrame.
Qed.

Lemma is_ctx_app root d f ctx a :
  is_ctx root (d ++ f :: ctx) a ⊣⊢ ∃ m, is_seg (fp f) d a m ∗ is_ctx root (f :: ctx) m.
Proof.
  unfold is_ctx. iSplit.
  - iIntros "(%top & Hr & H)". rewrite is_seg_app. iDestruct "H" as "(%m & H1 & H2)". iExists m. iFrame "H1".
    iExists top. iFrame.
  - iIntros "(%m & H1 & %top & Hr & H2)". iExists top. iFrame. rewrite is_seg_app. iExists m. iFrame.
Qed.

(** Another parent for the top of a path. *)
Lemma wpm_reparent_seg par d a top par' (Q : unit → hProp) :
  par_ok par' → d ≠ [] →
  is_seg par d a top -∗ (is_seg par' d a top -∗ Q tt) -∗ wpm (rb_set_parent top par') Q.
Proof.
  revert a. induction d as [|[s c p sib] d IH]; intros a Hp Hne; [done|]. iIntros "(Hc & Hs & H) HQ". cbn.
  destruct d as [|f d].
  - cbn. iDestruct "H" as %<-. iDestruct "Hc" as "([%Hok %Hpar] & Hpc & Hab)". unfold rb_set_parent. iApply wpm_bind.
    iApply (wpm_load with "Hpc"). iIntros "Hpc". iApply (wpm_store with "Hpc"). rewrite set_parent_pack; [|done].
    iIntros "Hpc". iApply "HQ". iFrame. by iPureIntro.
  - iApply (IH p Hp with "H"); [done|]. iIntros "H". iApply "HQ". iFrame.
Qed.

Definition left_spine (d : list frame) : Prop := Forall (λ f, fs f = L) d.

Lemma left_spine_before d : left_spine d → before d = [].
Proof. induction 1 as [|[s c p sib] d Hs H IH]; [done|]. cbn in *. by subst. Qed.

Lemma successor_loop_spec par top : ∀ fuel d c l p r,
  (height l ≤ fuel)%nat → l ≠ Leaf → left_spine d →
  is_seg par d p top -∗ is_tree (up_addr d par) (Node c l p r) -∗
  wpm (successor_loop fuel p (addr l)) (λ x, ∃ d' cs s rs,
    ⌜x = (up_addr d' par, s) ∧ plug d' (Node cs Leaf s rs) = plug d (Node c l p r) ∧ d' ≠ [] ∧ left_spine d'⌝ ∗
    is_seg par d' s top ∗ is_tree (up_addr d' par) (Node cs Leaf s rs))%I.
Proof.
  induction fuel as [|fuel IH]; intros d c l p r Hf Hl Hd; destruct l as [|cl ll pl rl]; try done; cbn [height] in Hf; [lia|].
  iIntros "Hd (Hp & (Hpl & Hll & Hrl) & Hr)". cbn [successor_loop addr]. iApply wpm_bind.
  iApply (wpm_child with "Hpl"). iIntros "Hpl". iDestruct (is_tree_ok with "Hll") as %[_ H0].
  assert (Hd' : left_spine (Frame L c p r :: d)) by by constructor.
  destruct (addr ll =? 0) eqn:E.
  - apply Z.eqb_eq, H0 in E as ->. iApply wpm_ret. iExists (Frame L c p r :: d), cl, pl, rl.
    iSplitR; [done|]. cbn. iFrame.
  - apply Z.eqb_neq in E. iApply (wpm_mono with "[-]").
    { iApply (IH (Frame L c p r :: d) cl ll pl rl with "[Hd Hp Hr]"); [lia|by intros ->|done| |]; cbn; iFrame. }
    iIntros (x) "H". iExact "H".
Qed.

Lemma find_successor_spec fuel node r :
  ptr_ok node → (height r ≤ fuel)%nat → r ≠ Leaf →
  is_tree node r -∗
  wpm (find_successor fuel (addr r)) (λ x, ∃ d cs s rs top,
    ⌜x = (up_addr d s, s, addr rs) ∧ r = plug d (Node cs Leaf s rs) ∧ left_spine d⌝ ∗
    is_seg s d (addr rs) top ∗ cell (up_addr d node) cs s L 0 top ∗ is_tree s rs)%I.
Proof.
  iIntros (Hok Hf Hr) "Hr". destruct r as [|c l p r]; [done|]. iDestruct "Hr" as "(Hp & Hl & Hr)".
  cbn [addr height] in *. unfold find_successor. iApply wpm_bind. iApply (wpm_child with "Hp"). iIntros "Hp".
  iDestruct (is_tree_ok with "Hl") as %[_ H0]. destruct (addr l =? 0) eqn:E.
  - apply Z.eqb_eq, H0 in E as ->. iApply wpm_bind. iApply (wpm_child_opp _ _ _ L with "Hp"). iIntros "Hp".
    iApply wpm_ret. iExists [], c, p, r, (addr r). iSplitR; [iPureIntro; split_and!; [done|done|constructor]|]. by iFrame.
  - apply Z.eqb_neq in E. iApply wpm_bind. iApply (wpm_mono with "[Hp Hl Hr]").
    { iApply (successor_loop_spec node p fuel [] c l p r with "[//] [$Hp $Hl $Hr]"); [lia|by intros ->|constructor]. }
    iIntros (x) "(%d & %cs & %s & %rs & %H & Hd & Hs)". destruct H as (-> & Ep & Hne & Hsp).
    iDestruct "Hs" as "(Hs & _ & Hrs)". iDestruct (cell_ok with "Hs") as %[Hsok _].
    iApply wpm_bind. iApply (wpm_child_opp _ _ _ L with "Hs"). iIntros "Hs".
    destruct d as [|[sd cd pd rd] d]; [done|]. apply Forall_cons in Hsp as Hsp'. destruct Hsp' as [Hsd _].
    cbn in Hsd. subst sd. cbn [is_seg up_addr fs fc fp fsib]. iDestruct "Hd" as "(Hpd & Hrd & Hd)".
    iApply wpm_bind. iApply (wpm_set_child with "Hpd"). iIntros "Hpd".
    iApply wpm_bind. iApply (wpm_set_child_opp _ _ _ L with "Hs"). iIntros "Hs".
    iApply wpm_bind. iApply (wpm_reparent_seg node (Frame L cd pd rd :: d) (addr rs) p s with "[Hpd Hrd Hd]");
      [by right|done|cbn; iFrame|]. iIntros "Hd". iApply wpm_ret.
    iExists (Frame L cd pd rd :: d), cs, s, rs, p. iFrame. iPureIntro. by split_and!.
Qed.

(** After [__rb_erase] returned [r]: done, or the node whose child is missing a
    black node. *)
Definition rebalanced (root : Z) (l : list Z) (k : nat) (r : Z) : hProp :=
  ((⌜r = 0⌝ ∗ settled root l) ∨
   (∃ ctx, ⌜r = up ctx ∧ ctx ≠ [] ∧ cwf ctx Black 1 ∧ inorder (plug ctx Leaf) = l ∧ (length ctx ≤ k)%nat⌝ ∗
      is_ctx root ctx 0))%I.

Section vanish.
Context (root : Z) (ctx : list frame) (sd : side) (cs : color) (s m : Z) (rs : tree) (n k : nat).
Hypothesis Hw : wf (mk sd cs s Leaf rs) cs n.
Hypothesis Hc : cwf ctx cs n.
Hypothesis Hk : (length ctx ≤ k)%nat.

(** A node without children goes. *)
Lemma vanish_leaf :
  rs = Leaf →
  is_ctx root ctx 0 -∗
  rebalanced root (inorder (plug ctx Leaf)) k (if match cs with Black => true | Red => false end then up ctx else 0).
Proof.
  intros ->. destruct (wf_mk_inv _ _ _ _ _ _ _ Hw) as [_ Hw']. iIntros "Hctx". pose proof Hc as Hc'. destruct (color_cases cs) as [E|E]; rewrite E in Hw' Hc' |- *.
  - destruct Hw' as [Hl _]. iLeft. iSplitR; [done|].
    iApply (settle _ ctx Leaf n with "Hctx"); [done|by eapply cwf_weaken|done|done].
  - destruct Hw' as (ca & cb & i & -> & Hl & _). inversion Hl; subst. destruct ctx as [|f ctx'].
    + iLeft. iSplitR; [done|]. iApply (settle _ [] Leaf 0 with "Hctx"); eauto with rb.
    + iRight. iExists (f :: ctx'). iFrame. iPureIntro. by split_and!.
Qed.

(** Its only child, red, takes its place and turns black. *)
Lemma vanish_child :
  rs ≠ Leaf →
  cs = Black ∧ (is_ctx root ctx (addr rs) -∗ is_tree (up ctx) (recolor Black rs) -∗ settled root (inorder (plug ctx rs))).
Proof.
  intros Hne. destruct (wf_mk_inv _ _ _ _ _ _ _ Hw) as [_ Hw']. pose proof Hc as Hc'. destruct (color_cases cs) as [E|E]; rewrite E in Hw' Hc' |- *.
  - destruct Hw' as [Hl Hr]. inversion Hl; subst. by inversion Hr; subst.
  - destruct Hw' as (ca & cb & i & -> & Hl & Hr). inversion Hl; subst. split; [done|]. iIntros "Hctx Ht".
    iApply (settle _ ctx (recolor Black rs) 1 with "[Hctx] Ht"); [|done| |by rewrite addr_recolor].
    + destruct (color_cases cb) as [-> | ->]; [by apply wf_recolor_black|]. by inversion Hr; subst.
    + apply inorder_plug, inorder_recolor.
Qed.
End vanish.

Lemma cell_blank par c p s a b : cell par c p s a b -∗ blank p.
Proof.
  iIntros "([%Hp _] & Hp & Ha & Hb)". iSplitR; [done|]. destruct s; cbn; iExists _, _, _; iFrame.
Qed.

(** *** The two easy cases *)

Section one_child.
Context (fuel : nat) (root : Z) (ctx : list frame) (c : color) (node : Z) (n k : nat).
Hypothesis Hk : (length ctx ≤ k)%nat.
Hypothesis Hc : cwf ctx c n.

Lemma erase_no_left r :
  wf (Node c Leaf node r) c n →
  cell (up ctx) c node L 0 (addr r) -∗ is_tree node r -∗ is_ctx root ctx node -∗
  wpm (__rb_erase fuel node root) (λ x, blank node ∗ rebalanced root (inorder (plug ctx r)) k x)%I.
Proof.
  iIntros (Hw) "Hn Hr Hctx". unfold __rb_erase. iDestruct (cell_ok with "Hn") as %[_ Hup].
  iApply wpm_bind. iApply (wpm_child_opp _ _ _ L with "Hn"). iIntros "Hn".
  iApply wpm_bind. iApply (wpm_child with "Hn"). iIntros "Hn". cbn [Z.eqb].
  iApply wpm_bind. iApply (wpm_load_pc with "Hn"). iIntros "Hn". rewrite parent_pack; [|done].
  iApply wpm_bind. iApply (wpm_change_child with "Hn Hctx"). iIntros "Hn Hctx".
  iDestruct (is_tree_ok with "Hr") as %[_ H0]. destruct (addr r =? 0) eqn:E; cbn [negb].
  - apply Z.eqb_eq, H0 in E as ->. iApply wpm_ret. rewrite black_pack; [|done].
    iSplitL "Hn"; [by iApply cell_blank|]. by iApply (vanish_leaf root ctx L c node Leaf n k Hw Hc Hk).
  - apply Z.eqb_neq in E. assert (Hne : r ≠ Leaf) by by intros ->.
    destruct (vanish_child root ctx L c node r n Hw Hc Hne) as [-> Hs].
    iApply wpm_bind. iApply (wpm_set_tree node r (up ctx) Black with "Hr"); [done|done|]. iIntros "Hr". iApply wpm_ret.
    iSplitL "Hn"; [by iApply cell_blank|]. iLeft. iSplitR; [done|]. by iApply (Hs with "Hctx Hr").
Qed.

Lemma erase_no_right l :
  l ≠ Leaf → wf (Node c l node Leaf) c n →
  cell (up ctx) c node L (addr l) 0 -∗ is_tree node l -∗ is_ctx root ctx node -∗
  wpm (__rb_erase fuel node root) (λ x, blank node ∗ rebalanced root (inorder (plug ctx l)) k x)%I.
Proof.
  iIntros (Hne Hw) "Hn Hl Hctx". unfold __rb_erase. iDestruct (cell_ok with "Hn") as %[_ Hup].
  iApply wpm_bind. iApply (wpm_child_opp _ _ _ L with "Hn"). iIntros "Hn".
  iApply wpm_bind. iApply (wpm_child with "Hn"). iIntros "Hn". iDestruct (is_tree_ok with "Hl") as %[_ H0].
  destruct (addr l =? 0) eqn:E; [by apply Z.eqb_eq, H0 in E|]. cbn [Z.eqb].
  iApply wpm_bind. iApply (wpm_load_pc with "Hn"). iIntros "Hn". rewrite parent_pack; [|done].
  destruct (vanish_child root ctx R c node l n Hw Hc Hne) as [-> Hs].
  iApply wpm_bind. iApply (wpm_set_tree node l (up ctx) Black with "Hl"); [done|done|]. iIntros "Hl".
  iApply wpm_bind. iApply (wpm_change_child with "Hn Hctx"). iIntros "Hn Hctx". iApply wpm_ret.
  iSplitL "Hn"; [by iApply cell_blank|]. iLeft. iSplitR; [done|]. by iApply (Hs with "Hctx Hl").
Qed.
End one_child.

(** *** Two children *)

Lemma cwf_rename d s c p p' sib ctx c' n :
  cwf (d ++ Frame s c p sib :: ctx) c' n → cwf (d ++ Frame s c p' sib :: ctx) c' n.
Proof.
  revert c' n. induction d as [|f d IH]; intros c' n; cbn; inversion 1; subst; eauto with rb.
Qed.

Section two_children.
Context (fuel : nat) (root : Z) (ctx : list frame) (c : color) (l : tree) (node : Z) (r : tree) (n k : nat).
Hypothesis Hw : wf (plug ctx (Node c l node r)) Black n.
Hypothesis Hl : l ≠ Leaf.
Hypothesis Hr : r ≠ Leaf.
Hypothesis Hf : (height r ≤ fuel)%nat.
Hypothesis Hk : (height (plug ctx (Node c l node r)) ≤ k)%nat.

(** Where the successor was, and what the tree becomes. *)
Lemma successor_facts d cs s rs :
  r = plug d (Node cs Leaf s rs) → left_spine d →
  let ctx' := d ++ Frame R c s l :: ctx in
  ∃ m, wf (mk L cs s Leaf rs) cs m ∧ cwf ctx' cs m ∧ (length ctx' ≤ k)%nat ∧
    inorder (plug ctx' rs) = before ctx ++ inorder l ++ inorder r ++ after ctx.
Proof.
  intros Er Hd ctx'. assert (Ep : plug ctx (Node c l node r) = plug (d ++ Frame R c node l :: ctx) (Node cs Leaf s rs)).
  { rewrite plug_app Er. done. }
  pose proof Hw as Hw'. pose proof Hk as Hk'. rewrite Ep in Hw' Hk'. apply plug_split in Hw' as (c' & m & Hw1 & Hw2).
  assert (c' = cs) as -> by (by inversion Hw1). exists m. split_and!; [done|by eapply cwf_rename| |].
  - pose proof (height_plug (d ++ Frame R c node l :: ctx) (Node cs Leaf s rs)) as Hh.
    unfold ctx'. rewrite !length_app in Hh |- *. cbn in *. lia.
  - unfold ctx'. rewrite plug_app. cbn [plug]. rewrite plug_inorder. unfold fill. cbn [mk fs fc fp fsib inorder].
    rewrite Er !plug_inorder (left_spine_before d Hd). app_norm.
Qed.

Lemma erase_two :
  cell (up ctx) c node L (addr l) (addr r) -∗ is_tree node l -∗ is_tree node r -∗ is_ctx root ctx node -∗
  wpm (__rb_erase fuel node root)
    (λ x, blank node ∗ rebalanced root (before ctx ++ inorder l ++ inorder r ++ after ctx) k x)%I.
Proof.
  iIntros "Hn Hl Hr Hctx". unfold __rb_erase. iDestruct (cell_ok with "Hn") as %[Hnok Hup].
  iApply wpm_bind. iApply (wpm_child_opp _ _ _ L with "Hn"). iIntros "Hn".
  iApply wpm_bind. iApply (wpm_child with "Hn"). iIntros "Hn".
  iDestruct (is_tree_ok with "Hl") as %[_ H0]. destruct (addr l =? 0) eqn:E; [by apply Z.eqb_eq, H0 in E|].
  iDestruct (is_tree_ok with "Hr") as %[_ H0']. destruct (addr r =? 0) eqn:E'; [by apply Z.eqb_eq, H0' in E'|].
  iApply wpm_bind. iApply (wpm_mono with "[Hr]"); [by iApply (find_successor_spec with "Hr")|].
  iIntros (x) "(%d & %cs & %s & %rs & %top & %H & Hd & Hs & Hrs)". destruct H as (-> & Er & Hsp).
  destruct (successor_facts d cs s rs Er Hsp) as (i & Hws & Hcs & Hlen & Hin).
  iDestruct (cell_ok with "Hs") as %[Hsok Hsup].
  iApply wpm_bind. iApply (wpm_child with "Hn"). iIntros "Hn".
  iApply wpm_bind. iApply (wpm_set_child with "Hs"). iIntros "Hs".
  iApply wpm_bind. iApply (wpm_reparent with "Hl"); [by right|done|]. iIntros "Hl".
  iApply wpm_bind. iApply (wpm_load_pc with "Hn"). iIntros "Hn". rewrite parent_pack; [|done].
  iApply wpm_bind. iApply (wpm_change_child with "Hn Hctx"). iIntros "Hn Hctx".
  iDestruct (is_tree_ok with "Hrs") as %[_ H0s].
  set (ctx' := d ++ Frame R c s l :: ctx) in *. assert (Eup : up ctx' = up_addr d s) by by destruct d.
  assert (Hclose : cell (up ctx) c s L (addr l) top -∗ is_tree s l -∗ is_seg s d (addr rs) top -∗ is_ctx root ctx s -∗
                   is_ctx root ctx' (addr rs)).
  { iIntros "Hs Hl Hd Hctx". unfold ctx'. rewrite is_ctx_app. iExists top. cbn [fp]. iFrame "Hd".
    rewrite is_ctx_cons. cbn [fs fc fp fsib]. rewrite (cell_swap _ _ _ R). cbn [opp]. iFrame. }
  destruct (addr rs =? 0) eqn:Es; cbn [negb].
  - apply Z.eqb_eq, H0s in Es. iApply wpm_bind. iApply (wpm_load_pc with "Hs"). iIntros "Hs".
    iApply wpm_bind. iApply (wpm_store_pc with "Hs"); [done|]. iIntros "Hs". iApply wpm_ret.
    rewrite black_pack; [|done]. iSplitL "Hn"; [by iApply cell_blank|].
    iDestruct (Hclose with "Hs Hl Hd Hctx") as "Hctx". rewrite -Eup -Hin {2 3}Es.
    iApply (vanish_leaf root ctx' L cs s rs i k Hws Hcs Hlen Es with "Hctx").
  - apply Z.eqb_neq in Es. assert (Hne : rs ≠ Leaf) by by intros ->.
    destruct (vanish_child root ctx' L cs s rs i Hws Hcs Hne) as [_ Hset].
    iApply wpm_bind. iApply (wpm_store_pc with "Hs"); [done|]. iIntros "Hs".
    iDestruct (Hclose with "Hs Hl Hd Hctx") as "Hctx". iDestruct (up_ok with "Hctx") as %Hup'. rewrite Eup in Hup'.
    iApply wpm_bind. iApply (wpm_set_tree _ _ _ Black with "Hrs"); [done|done|]. iIntros "Hrs". iApply wpm_ret.
    iSplitL "Hn"; [by iApply cell_blank|]. iLeft. iSplitR; [done|]. rewrite -Hin. iApply (Hset with "Hctx"). by rewrite Eup.
Qed.
End two_children.

(** ** [_rb_erase] *)

Lemma tree_split t node : node ∈ inorder t → ∃ ctx c l r, t = plug ctx (Node c l node r).
Proof.
  induction t as [|c l IHl p r IHr]; cbn; [by rewrite elem_of_nil|]. rewrite elem_of_app elem_of_cons.
  intros [H|[->|H]].
  - destruct (IHl H) as (ctx & c' & l' & r' & ->). exists (ctx ++ [Frame L c p r]), c', l', r'. by rewrite plug_app.
  - by exists [], c, l, r.
  - destruct (IHr H) as (ctx & c' & l' & r' & ->). exists (ctx ++ [Frame R c p l]), c', l', r'. by rewrite plug_app.
Qed.

Lemma rb_erase_at fuel root ctx c l node r :
  rbtree (plug ctx (Node c l node r)) → (height (plug ctx (Node c l node r)) < fuel)%nat →
  is_root root (plug ctx (Node c l node r)) -∗
  wpm (__rb_erase fuel node root)
    (λ x, blank node ∗ rebalanced root (before ctx ++ inorder l ++ inorder r ++ after ctx) (pred fuel) x)%I.
Proof.
  iIntros ([n Hw] Hf) "H". rewrite -is_ctx_plug. iDestruct "H" as "(Hctx & Hn & Hl & Hr)". cbn [addr].
  pose proof (height_plug ctx (Node c l node r)) as Hh. cbn [height] in Hh.
  destruct (plug_split ctx _ n Hw) as (c' & m & Hw1 & Hc).
  assert (c' = c) as -> by (by inversion Hw1). assert (Hk : (length ctx ≤ pred fuel)%nat) by lia.
  iDestruct (cell_ok with "Hn") as %[Hnok _].
  destruct l as [|cl ll pl rl].
  - iApply (wpm_mono with "[-]").
    { iApply (erase_no_left fuel root ctx c node m (pred fuel) Hk Hc r Hw1 with "Hn Hr Hctx"). }
    iIntros (x) "H". cbn [inorder app]. by rewrite plug_inorder.
  - destruct r as [|cr lr pr rr].
    + iApply (wpm_mono with "[-]").
      { by iApply (erase_no_right fuel root ctx c node m (pred fuel) Hc (Node cl ll pl rl) ltac:(done) Hw1 with "Hn Hl Hctx"). }
      iIntros (x) "H". cbn [inorder app]. by rewrite plug_inorder.
    + iApply (erase_two fuel root ctx c _ node _ n (pred fuel) Hw with "Hn Hl Hr Hctx"); [done|done|lia|lia].
Qed.

Lemma rb_erase_spec fuel root t node :
  rbtree t → node ∈ inorder t → (height t < fuel)%nat →
  is_root root t -∗
  wpm (_rb_erase fuel node root) (λ _, ∃ t',
    ⌜rbtree t' ∧ ∃ l1 l2, inorder t = l1 ++ node :: l2 ∧ inorder t' = l1 ++ l2⌝ ∗ is_root root t' ∗ blank node)%I.
Proof.
  iIntros (Ht Hin Hf) "H". destruct (tree_split t node Hin) as (ctx & c & l & r & ->).
  unfold _rb_erase. iApply wpm_bind. iApply (wpm_mono with "[H]"); [by iApply (rb_erase_at with "H")|].
  assert (Hfin : ∀ l', l' = before ctx ++ inorder l ++ inorder r ++ after ctx →
    blank node -∗ settled root l' -∗ ∃ t',
      ⌜rbtree t' ∧ ∃ l1 l2, inorder (plug ctx (Node c l node r)) = l1 ++ node :: l2 ∧ inorder t' = l1 ++ l2⌝ ∗
      is_root root t' ∗ blank node).
  { iIntros (l' ->) "Hb (%t' & [%Hrb %Hl] & Ht)". iExists t'. iFrame. iPureIntro. split; [done|].
    exists (before ctx ++ inorder l), (inorder r ++ after ctx). rewrite plug_inorder Hl. cbn. split; app_norm. }
  iIntros (x) "[Hb [[-> H]|(%ctx2 & %H2 & H)]]".
  - cbn. iApply wpm_ret. by iApply (Hfin with "Hb H").
  - destruct H2 as (-> & Hne & Hc & Hl & Hlen). destruct ctx2 as [|f ctx2]; [done|].
    iAssert ⌜up (f :: ctx2) ≠ 0⌝%I as %Hup.
    { rewrite is_ctx_cons. iDestruct "H" as "(Hc & _)". iDestruct (cell_ok with "Hc") as %[[? _] _]. iPureIntro. cbn. lia. }
    rewrite (proj2 (Z.eqb_neq _ _) Hup). cbn [negb]. unfold __rb_erase_fix.
    iApply (wpm_mono with "[H]").
    { iApply (erase_loop_spec root _ fuel (f :: ctx2) Leaf 0 with "H"); [lia|done|constructor|done|exact Hl|done]. }
    iIntros (_) "H". by iApply (Hfin with "Hb H").
Qed.

(** C24: [_rb_erase] takes the node out of the tree, which stays red-black and
    in order, and gives its words back; it needs at most [2 log2 (n + 1)] steps
    down or up and touches no other memory. *)
Theorem rb_erase_correct fuel node root t h hf :
  rbtree t → node ∈ inorder t → (2 * Nat.log2 (S (length (inorder t))) < fuel)%nat →
  holds (is_root root t) h → h ##ₘ hf →
  wp (_rb_erase fuel node root)
     (λ _ s', ∃ t' h', s' = h' ∪ hf ∧ h' ##ₘ hf ∧ rbtree t' ∧
        (∃ l1 l2, inorder t = l1 ++ node :: l2 ∧ inorder t' = l1 ++ l2) ∧
        holds (is_root root t' ∗ blank node)%I h') (h ∪ hf).
Proof.
  intros Ht Hin Hf H1 Hd. pose proof (rbtree_height t Ht) as Hh. eapply wp_mono.
  - eapply (wpm_adequate _ (is_root root t)); [|done|done].
    iIntros "H". iApply (rb_erase_spec with "H"); [done|done|lia].
  - intros _ s' (h' & -> & Hd2 & t' & [[HQ HQ'] Ht']%holds_pure_sep). by exists t', h'.
Qed.

Module EraseExamples.
Import RbTree.RbExamples.

Lemma rb_erase_correct_witness :
  wp (_rb_erase 20 64 8)
     (λ _ s', ∃ t' h', s' = h' ∪ other ∧ h' ##ₘ other ∧ rbtree t' ∧
        (∃ l1 l2, inorder two = l1 ++ 64 :: l2 ∧ inorder t' = l1 ++ l2) ∧
        holds (is_root 8 t' ∗ blank 64)%I h') (two_mem ∪ other).
Proof.
  apply (rb_erase_correct 20 64 8 two two_mem other two_rb).
  - by left.
  - vm_compute. lia.
  - exact two_holds.
  - apply (bool_decide_eq_true_1 _). vm_compute. reflexivity.
Defined.

(** Inserting 96 and erasing 64 and 96 again leaves 128 alone. *)
Example erase_runs :
  match (_rb_insert 20 cmp 96 8 ;; _rb_erase 20 64 8 ;; _rb_erase 20 96 8 ;; _rb_first 20 8)
          (two_mem ∪ node_mem 96 ∪ other) with
  | Ok (r, m) => r = 128 ∧ m !! 8 = Some 128 ∧ m !! 128 = Some (pack 0 Black)
  | Fail _ => False
  end.
Proof. vm_compute. auto. Qed.

End EraseExamples.
