(* ===== verification/RbQueue.v ===== *)
(** * Ordered queues

    What the scheduler ([Sched.v]) and the timers ([Timer.v]) need of
    [src/common/rbtree.c], as a class ([RbOps]) whose laws are what [RbTree.v]
    and [RbErase.v] prove of insertion and removal; the order by a 64-bit key
    and then by address that both clients use; and an instance by sorted lists,
    with which concrete runs are computed. *)

From stdpp Require Import sorting.
From iris.prelude Require Import prelude.
From S2P Require Import Prelude RbTree.
#[local] Open Scope Z_scope.

(** [rb_insert] is [None] when [_rb_insert] returns -1. *)
Class RbOps := {
  rb_ok : tree → Prop;
  rb_insert : (Z → Z → bool) → Z → tree → option tree;
  rb_erase : Z → tree → tree;
  rb_ok_leaf : rb_ok Leaf;
  rb_insert_law : ∀ cmp n t, (∀ x y z, cmp x y = true → cmp y z = true → cmp x z = true) → rb_ok t →
    StronglySorted (λ x y, cmp x y = true) (inorder t) →
    match rb_insert cmp n t with
    | Some t' => rb_ok t' ∧ StronglySorted (λ x y, cmp x y = true) (inorder t') ∧
                 ∃ l1 l2, inorder t = l1 ++ l2 ∧ inorder t' = l1 ++ n :: l2
    | None => ∃ y, y ∈ inorder t ∧ equal_to cmp n y
    end;
  rb_erase_law : ∀ n t, rb_ok t → n ∈ inorder t →
    rb_ok (rb_erase n t) ∧ ∃ l1 l2, inorder t = l1 ++ n :: l2 ∧ inorder (rb_erase n t) = l1 ++ l2;
}.

(** ** The order of the clients

    Both comparison functions take the difference of two unsigned 64-bit keys
    as a signed number, and break ties by address. *)

Section by_key.
Implicit Types (k : Z → Z) (l : list Z).

Definition by_key k (x y : Z) : bool :=
  let d := i64 (u64 (k x - k y)) in
  if d <? 0 then true else if d =? 0 then x <? y else false.

Definition key_range k : Prop := ∀ n, 0 ≤ k n < 2 ^ 63.
Definition key_sorted k l : Prop := StronglySorted (λ x y, by_key k x y = true) l.

(** With keys below [2^63] the difference does not wrap. *)
Lemma by_key_lex k x y : key_range k → by_key k x y = true ↔ k x < k y ∨ k x = k y ∧ x < y.
Proof.
  intros Hk. unfold by_key. pose proof (Hk x). pose proof (Hk y).
  assert (E : i64 (u64 (k x - k y)) = k x - k y)
    by (unfold i64, swrap, u64, wrap; rewrite Zplus_mod_idemp_l; apply i64_small; lia).
  rewrite E. destruct (Z.ltb_spec (k x - k y) 0); [split; [lia|done]|].
  destruct (Z.eqb_spec (k x - k y) 0); [rewrite Z.ltb_lt; lia|]. split; [done|lia].
Qed.
Lemma by_key_trans k x y z : key_range k → by_key k x y = true → by_key k y z = true → by_key k x z = true.
Proof. intros Hk. rewrite !by_key_lex //. lia. Qed.

(** The order depends on the keys of the elements only. *)
Lemma key_sorted_same k k' l : (∀ x, x ∈ l → k x = k' x) → key_sorted k l → key_sorted k' l.
Proof.
  intros Hl. unfold key_sorted. induction 1 as [|x l Hs IH Hx]; constructor; [apply IH; set_solver|].
  rewrite Forall_forall in Hx. apply Forall_forall. intros y Hy. specialize (Hx y Hy). revert Hx.
  unfold by_key. rewrite (Hl x) ?(Hl y) //; set_solver.
Qed.
Lemma key_sorted_nodup k l : key_range k → key_sorted k l → NoDup l.
Proof.
  intros Hk. induction 1 as [|x l Hs IH Hx]; constructor; [|done]. intros Hin. rewrite Forall_forall in Hx.
  specialize (Hx x Hin). apply (by_key_lex k x x Hk) in Hx. lia.
Qed.
Lemma key_sorted_sublist k l l' : sublist l l' → key_sorted k l' → key_sorted k l.
Proof.
  unfold key_sorted. induction 1 as [|x l l' Hsub IH|x l l' Hsub IH]; intros Hs; [done| |]; apply StronglySorted_inv in Hs as [Hs Hx]; [|by apply IH].
  constructor; [by apply IH|]. rewrite Forall_forall in Hx. apply Forall_forall. intros y Hy. apply Hx. by eapply elem_of_sublist.
Qed.
(** The first element has the least key. *)
Lemma key_sorted_head k n l : key_range k → key_sorted k (n :: l) → ∀ x, x ∈ l → k n ≤ k x.
Proof.
  intros Hk Hs x Hx. apply StronglySorted_inv in Hs as [_ Hf]. rewrite Forall_forall in Hf.
  specialize (Hf x Hx). apply by_key_lex in Hf; [lia|done].
Qed.

(** Inserting an element that is not there succeeds and sorts it in. *)
Lemma rb_insert_key `{RbOps} k n t : key_range k → rb_ok t → key_sorted k (inorder t) → n ∉ inorder t →
  ∃ t', rb_insert (by_key k) n t = Some t' ∧ rb_ok t' ∧ key_sorted k (inorder t') ∧ inorder t' ≡ₚ n :: inorder t.
Proof.
  intros Hk Hok Ho Hn. pose proof (rb_insert_law (by_key k) n t (λ x y z, by_key_trans k x y z Hk) Hok Ho) as Hl.
  destruct (rb_insert (by_key k) n t) as [t'|].
  - destruct Hl as (Ht & Hs & l1 & l2 & E & E'). exists t'. split_and!; [done..|]. rewrite E E'. by rewrite Permutation_middle.
  - destruct Hl as (y & Hy & H1 & H2). exfalso. assert (y ≠ n) by (intros ->; done).
    destruct (decide (k n < k y ∨ k n = k y ∧ n < y)) as [Hd|Hd].
    + by rewrite (proj2 (by_key_lex k n y Hk) Hd) in H1.
    + rewrite (proj2 (by_key_lex k y n Hk)) // in H2. lia.
Qed.

(** Removing one keeps the rest in order. *)
Lemma rb_erase_key `{RbOps} k n t : key_range k → rb_ok t → key_sorted k (inorder t) → n ∈ inorder t →
  rb_ok (rb_erase n t) ∧ key_sorted k (inorder (rb_erase n t)) ∧ inorder t ≡ₚ n :: inorder (rb_erase n t) ∧ n ∉ inorder (rb_erase n t).
Proof.
  intros Hk Hok Ho Hn. destruct (rb_erase_law n t Hok Hn) as (Hok' & l1 & l2 & E & E').
  pose proof (key_sorted_nodup k _ Hk Ho) as Hnd. rewrite E' E. split; [done|]. split_and!.
  - rewrite E in Ho. eapply key_sorted_sublist; [|exact Ho]. apply sublist_app; [done|]. by apply sublist_cons.
  - by rewrite Permutation_middle.
  - rewrite E in Hnd. apply NoDup_app in Hnd as (_ & Hd & [Hn2 _]%NoDup_cons). rewrite elem_of_app. intros [Hn1|]; [|done]. apply (Hd n Hn1). by left.
Qed.
End by_key.

(** ** Sorted lists *)

(** The interface implemented by sorted lists. *)
Definition of_list (l : list Z) : tree := foldr (λ n t, Node Black Leaf n t) Leaf l.
Lemma inorder_of_list l : inorder (of_list l) = l.
Proof. induction l as [|n l IH]; [done|]. cbn. by rewrite IH. Qed.
Fixpoint insert_sorted (cmp : Z → Z → bool) (n : Z) (l : list Z) : option (list Z) :=
  match l with
  | [] => Some [n]
  | y :: l' => if cmp n y then Some (n :: l) else if cmp y n then (y ::.) <$> insert_sorted cmp n l' else None
  end.
Definition remove_first (n : Z) (l : list Z) : list Z := match list_find (λ x, x = n) l with Some (i, _) => delete i l | None => l end.

Lemma insert_sorted_spec cmp n l : (∀ x y z, cmp x y = true → cmp y z = true → cmp x z = true) → StronglySorted (λ x y, cmp x y = true) l →
  match insert_sorted cmp n l with
  | Some l' => StronglySorted (λ x y, cmp x y = true) l' ∧ ∃ l1 l2, l = l1 ++ l2 ∧ l' = l1 ++ n :: l2
  | None => ∃ y, y ∈ l ∧ equal_to cmp n y
  end.
Proof.
  intros Ht. induction 1 as [|y l Hl IH Hy]; cbn [insert_sorted].
  { split; [repeat constructor|by exists [], []]. }
  destruct (cmp n y) eqn:E1.
  - split; [|by exists [], (y :: l)]. constructor; [by constructor|]. constructor; [done|]. eapply Forall_impl; [exact Hy|]. intros z. by apply Ht.
  - destruct (cmp y n) eqn:E2; [|exists y; split; [by left|done]]. destruct (insert_sorted cmp n l) as [l'|]; cbn.
    + destruct IH as (Hs & l1 & l2 & -> & ->). split; [|by exists (y :: l1), l2]. constructor; [done|].
      apply Forall_app in Hy as [Hy1 Hy2]. by rewrite Forall_app Forall_cons.
    + destruct IH as (z & Hz & He). exists z. split; [by right|done].
Qed.
Lemma remove_first_spec n l : n ∈ l → ∃ l1 l2, l = l1 ++ n :: l2 ∧ remove_first n l = l1 ++ l2.
Proof.
  intros Hn. unfold remove_first. destruct (list_find (λ x, x = n) l) as [[i y]|] eqn:E.
  - apply list_find_Some in E as (Hi & -> & _). exists (take i l), (drop (S i) l). rewrite take_drop_middle // delete_take_drop //.
  - exfalso. apply list_find_None in E. rewrite Forall_forall in E. by apply (E n).
Qed.

Definition list_rb_insert (cmp : Z → Z → bool) (n : Z) (t : tree) : option tree := of_list <$> insert_sorted cmp n (inorder t).
Definition list_rb_erase (n : Z) (t : tree) : tree := of_list (remove_first n (inorder t)).

Lemma list_insert_law cmp n t : (∀ x y z, cmp x y = true → cmp y z = true → cmp x z = true) → True →
  StronglySorted (λ x y, cmp x y = true) (inorder t) →
  match list_rb_insert cmp n t with
  | Some t' => True ∧ StronglySorted (λ x y, cmp x y = true) (inorder t') ∧ ∃ l1 l2, inorder t = l1 ++ l2 ∧ inorder t' = l1 ++ n :: l2
  | None => ∃ y, y ∈ inorder t ∧ equal_to cmp n y
  end.
Proof.
  intros Ht _ Hs. pose proof (insert_sorted_spec cmp n (inorder t) Ht Hs) as H. unfold list_rb_insert.
  destruct (insert_sorted cmp n (inorder t)); cbn; [|done]. rewrite inorder_of_list. by destruct H.
Qed.
Lemma list_erase_law n t : True → n ∈ inorder t →
  True ∧ ∃ l1 l2, inorder t = l1 ++ n :: l2 ∧ inorder (list_rb_erase n t) = l1 ++ l2.
Proof. intros _ Hn. unfold list_rb_erase. rewrite inorder_of_list. split; [done|]. by apply remove_first_spec. Qed.
Definition ListOps : RbOps :=
  Build_RbOps (λ _, True) list_rb_insert list_rb_erase I list_insert_law list_erase_law.
