(* ===== verification/Sem.v ===== *)
(** * Semaphores

    [src/common/sem.c]: counting semaphores, from which sleep locks are made
    ([SleepLock], initial value 1).  Every routine runs under the semaphore's
    lock; [_wait_sem] gives it up while it sleeps and is two definitions, the
    second of which runs when the process is scheduled again, be it because a
    [_post_sem] chose it or because somebody alerted it.  A [WaitData] is known
    by the process that sleeps with it; its [kalloc] and [kfree] are left out.

    The theorems, over every interleaving of these critical sections: no
    [ASSERT] fails, no unit is lost or invented, nobody sleeps while there are
    units, and processes are woken in the order they came. *)

From iris.prelude Require Import prelude.
From S2P Require Import Prelude.
#[local] Open Scope Z_scope.

(** ** Data *)

Record WaitData : Type := mkWait { up : bool; alertable : bool }.

Record Semaphore : Type := mkSem {
  val : Z;
  sleeplist : list Z;
  waits : gmap Z WaitData;
  activated : list Z;
}.

Abbreviation M := (M Semaphore).

(** ** Code *)

Definition set_val (x : Z) (s : Semaphore) : Semaphore := mkSem x s.(sleeplist) s.(waits) s.(activated).
Definition set_sleeplist (x : list Z) (s : Semaphore) : Semaphore := mkSem s.(val) x s.(waits) s.(activated).
Definition set_waits (x : gmap Z WaitData) (s : Semaphore) : Semaphore := mkSem s.(val) s.(sleeplist) x s.(activated).
Definition set_activated (x : list Z) (s : Semaphore) : Semaphore := mkSem s.(val) s.(sleeplist) s.(waits) x.

(** Signed arithmetic on an [int]: overflow is undefined. *)
Definition add_val (d : Z) : M Z :=
  v ← gets val;
  if (- 2 ^ 31 <=? v + d) && (v + d <? 2 ^ 31) then modify (set_val (v + d)) ;; mret (v + d) else fault.

Definition init_sem (v : Z) : Semaphore := mkSem v [] ∅ [].

Definition _get_sem : M bool :=
  v ← gets val;
  if 0 <? v then add_val (-1) ;; mret true else mret false.

Definition _query_sem : M Z := gets val.

Definition get_all_sem : M Z :=
  v ← gets val;
  if 0 <? v then modify (set_val 0) ;; mret v else mret 0.

(** [sleeplist.prev], the process that has slept longest. *)
Definition _post_sem : M unit :=
  v ← add_val 1;
  if v <=? 0 then
    l ← gets sleeplist;
    assert_ (negb (bool_decide (l = []))) ;;
    p ← deref (last l);
    modify (λ s, set_waits (alter (λ w, mkWait true w.(alertable)) p s.(waits)) s) ;;
    modify (set_sleeplist (filter (.≠ p) l)) ;;
    modify (λ s, set_activated (s.(activated) ++ [p]) s)
  else mret tt.

Fixpoint post_all_loop (fuel : nat) (ret : Z) : M Z :=
  match fuel with
  | O => fail OutOfFuel
  | S fuel =>
      _post_sem ;;
      g ← _get_sem;
      if g : bool then mret (ret + 1) else post_all_loop fuel (ret + 1)
  end.
Definition post_all_sem : M Z :=
  l ← gets sleeplist;
  post_all_loop (length l + 2) (-1).

(** Up to [sched]: [false] when the process goes to sleep. *)
Definition _wait_sem (me : Z) (alert : bool) : M bool :=
  v ← add_val (-1);
  if 0 <=? v then mret true
  else
    modify (λ s, set_waits (<[me := mkWait false alert]> s.(waits)) s) ;;
    modify (λ s, set_sleeplist (me :: s.(sleeplist)) s) ;;
    mret false.

(** From [sched] on. *)
Definition wait_sem_wake (me : Z) : M bool :=
  ws ← gets waits;
  w ← deref (ws !! me);
  (if w.(up) then mret tt
   else
     v ← add_val 1;
     assert_ (v <=? 0) ;;
     modify (λ s, set_sleeplist (filter (.≠ me) s.(sleeplist)) s)) ;;
  modify (λ s, set_waits (delete me s.(waits)) s) ;;
  mret w.(up).

(** ** Interleavings *)

(** What a process does with the semaphore. *)
Inductive event : Type :=
| Wait (p : Z) (alert : bool)
| Wake (p : Z)
| TryGet (p : Z)
| GetAll (p : Z)
| Post
| PostAll.

(** A process that sleeps runs again once it has been chosen, or alerted. *)
Definition enabled (s : Semaphore) (e : event) : Prop :=
  match e with
  | Wait p _ => s.(waits) !! p = None
  | Wake p => ∃ w, s.(waits) !! p = Some w ∧ (w.(up) = true ∨ w.(alertable) = true)
  | _ => True
  end.

(** The units an event takes and those it adds. *)
Definition run (e : event) : M (Z * Z) :=
  match e with
  | Wait p a => r ← _wait_sem p a; mret (if r : bool then 1 else 0, 0)
  | Wake p => r ← wait_sem_wake p; mret (if r : bool then 1 else 0, 0)
  | TryGet _ => r ← _get_sem; mret (if r : bool then 1 else 0, 0)
  | GetAll _ => r ← get_all_sem; mret (r, 0)
  | Post => _post_sem ;; mret (0, 1)
  | PostAll => r ← post_all_sem; mret (0, Z.max 0 r)
  end.

(** No [int] overflows. *)
Definition in_range (s : Semaphore) : Prop := - 2 ^ 31 < s.(val) < 2 ^ 31 - 1.

(** A run: the units taken and added so far, and the state. *)
Inductive reach (v : Z) : list event → Z → Z → Semaphore → Prop :=
| reach_init : reach v [] 0 0 (init_sem v)
| reach_step es t a s e dt da s' : reach v es t a s → in_range s → enabled s e → run e s = Ok ((dt, da), s') →
    reach v (es ++ [e]) (t + dt) (a + da) s'.

(** ** Invariant *)

Record sem_inv (v t a : Z) (s : Semaphore) : Prop := {
  n_nodup : NoDup s.(sleeplist);
  n_waits : ∀ p, p ∈ s.(sleeplist) ↔ ∃ w, s.(waits) !! p = Some w ∧ w.(up) = false;
  n_len : Z.of_nat (length s.(sleeplist)) = Z.max 0 (- s.(val));
  n_units : s.(val) + Z.of_nat (size s.(waits)) = v + a - t;
}.

Lemma add_val_run d s : - 2 ^ 31 ≤ s.(val) + d < 2 ^ 31 → add_val d s = Ok (s.(val) + d, set_val (s.(val) + d) s).
Proof.
  intros Hd. unfold add_val. rewrite (bind_Ok _ _ s s.(val) s) //.
  by destruct (Z.leb_spec (- 2 ^ 31) (s.(val) + d)), (Z.ltb_spec (s.(val) + d) (2 ^ 31)); try lia.
Qed.

Lemma add_val_inv d s r s' : add_val d s = Ok (r, s') → r = s.(val) + d ∧ s' = set_val (s.(val) + d) s.
Proof.
  unfold add_val. rewrite (bind_Ok _ _ s s.(val) s) //. destruct (_ && _); [|done]. by intros [= <- <-].
Qed.

(** Chosen by a [_post_sem]. *)
Definition granted (p : Z) (s : Semaphore) : Semaphore :=
  mkSem s.(val) (filter (.≠ p) s.(sleeplist)) (alter (λ w, mkWait true w.(alertable)) p s.(waits)) (s.(activated) ++ [p]).

Lemma _post_sem_run s : s.(val) < 2 ^ 31 - 1 → - 2 ^ 31 ≤ s.(val) → Z.of_nat (length s.(sleeplist)) = Z.max 0 (- s.(val)) →
  _post_sem s = Ok (tt, match last s.(sleeplist) with
                        | Some p => granted p (set_val (s.(val) + 1) s)
                        | None => set_val (s.(val) + 1) s
                        end).
Proof.
  intros H1 H2 Hl. unfold _post_sem. rewrite (bind_Ok _ _ _ _ _ (add_val_run 1 s ltac:(lia))).
  destruct (Z.leb_spec (s.(val) + 1) 0).
  - destruct (last s.(sleeplist)) as [p|] eqn:Ep; [|apply last_None in Ep; rewrite Ep in Hl; cbn in Hl; lia].
    rewrite (bind_Ok _ _ _ s.(sleeplist) (set_val (s.(val) + 1) s)) // (bind_Ok _ _ _ tt (set_val (s.(val) + 1) s)) //.
    { by rewrite Ep. }
    rewrite bool_decide_eq_false_2 //. intros E. by rewrite E in Ep.
  - destruct s.(sleeplist) eqn:E; [done|cbn in Hl; lia].
Qed.

Lemma granted_inv v t a p s : sem_inv v t a s → last s.(sleeplist) = Some p →
  sem_inv v t (a + 1) (granted p (set_val (s.(val) + 1) s)).
Proof.
  intros [Hnd Hw Hl Hu] Hp. assert (Hin : p ∈ s.(sleeplist)) by (apply last_Some in Hp as [l' ->]; apply elem_of_app; right; by left).
  pose proof (length_filter_ne p _ Hnd Hin) as Hlen. split; cbn.
  - by apply NoDup_filter.
  - intros q. rewrite list_elem_of_filter Hw. destruct (decide (q = p)) as [->|Hne].
    + rewrite lookup_alter_eq. split; [by intros []|]. intros (w & Ew & Hup). destruct (s.(waits) !! p); [|done].
      injection Ew as <-. done.
    + rewrite lookup_alter_ne //. naive_solver.
  - lia.
  - rewrite -size_dom dom_alter_L size_dom. lia.
Qed.

Lemma wait_inv v t a s p al : sem_inv v t a s → s.(waits) !! p = None → s.(val) ≤ 0 →
  sem_inv v t a (set_sleeplist (p :: s.(sleeplist)) (set_waits (<[p := mkWait false al]> s.(waits)) (set_val (s.(val) - 1) s))).
Proof.
  intros [Hnd Hw Hl Hu] Hp Hv. assert (p ∉ s.(sleeplist)) by (rewrite Hw; naive_solver). split; cbn.
  - by apply NoDup_cons.
  - intros q. rewrite elem_of_cons Hw. destruct (decide (q = p)) as [->|Hne].
    + rewrite lookup_insert_eq. split; [intros _; by eexists|by left].
    + rewrite lookup_insert_ne //. naive_solver.
  - lia.
  - rewrite map_size_insert_None //. lia.
Qed.

(** Woken although nobody chose it. *)
Lemma alerted_inv v t a s p w : sem_inv v t a s → s.(waits) !! p = Some w → w.(up) = false →
  sem_inv v t a (set_waits (delete p s.(waits)) (set_sleeplist (filter (.≠ p) s.(sleeplist)) (set_val (s.(val) + 1) s))) ∧
  s.(val) + 1 ≤ 0.
Proof.
  intros [Hnd Hw Hl Hu] Hp Hup. assert (Hin : p ∈ s.(sleeplist)) by (rewrite Hw; eauto).
  pose proof (length_filter_ne p _ Hnd Hin) as Hlen. split; [|lia]. split; cbn.
  - by apply NoDup_filter.
  - intros q. rewrite list_elem_of_filter Hw. setoid_rewrite lookup_delete_Some. naive_solver.
  - lia.
  - rewrite map_size_delete Hp. assert (size s.(waits) ≠ 0%nat) by (eapply map_size_ne_0_lookup_2; eauto). lia.
Qed.

(** Woken by a [_post_sem]: the unit is taken now. *)
Lemma chosen_inv v t a s p w : sem_inv v t a s → s.(waits) !! p = Some w → w.(up) = true →
  sem_inv v (t + 1) a (set_waits (delete p s.(waits)) s).
Proof.
  intros [Hnd Hw Hl Hu] Hp Hup. split; cbn; [done| |done|].
  - intros q. rewrite Hw. setoid_rewrite lookup_delete_Some. split; [|naive_solver].
    intros (w' & Hq & Hf). exists w'. split; [|done]. split; [|done]. intros ->. congruence.
  - rewrite map_size_delete Hp. assert (size s.(waits) ≠ 0%nat) by (eapply map_size_ne_0_lookup_2; eauto). lia.
Qed.

Lemma post_inv v t a s : sem_inv v t a s → in_range s →
  ∃ s', _post_sem s = Ok (tt, s') ∧ sem_inv v t (a + 1) s' ∧ s'.(val) = s.(val) + 1.
Proof.
  intros Hs [Hr1 Hr2]. pose proof Hs as [Hnd Hw Hl Hu]. rewrite _post_sem_run; [|lia|lia|done]. eexists. split; [done|].
  destruct (last s.(sleeplist)) as [p|] eqn:Ep.
  - split; [by apply granted_inv|done].
  - split; [|done]. apply last_None in Ep. rewrite Ep in Hl. cbn in Hl. split; cbn; [done|done|rewrite Ep; cbn; lia|lia].
Qed.

Lemma sem_inv_val v t t' a a' x s : sem_inv v t a s → 0 ≤ s.(val) → 0 ≤ x → x + a - t = s.(val) + a' - t' →
  sem_inv v t' a' (set_val x s).
Proof. intros [Hnd Hw Hl Hu] H0 Hx E. split; cbn; [done|done|lia|lia]. Qed.

(** [post_all_sem] chooses all who sleep, in the order they came. *)
Lemma post_all_spec n v t a s ret fuel : sem_inv v t a s → - 2 ^ 31 < s.(val) < 2 ^ 31 - 1 → length s.(sleeplist) = n → (n + 2 ≤ fuel)%nat →
  ∃ s', post_all_loop fuel ret s = Ok (ret + 1 + Z.of_nat n, s') ∧ s'.(val) = Z.max 0 s.(val) ∧
    s'.(sleeplist) = [] ∧ s'.(activated) = s.(activated) ++ reverse s.(sleeplist) ∧
    (∀ p, s'.(waits) !! p = (λ w, mkWait true w.(alertable)) <$> s.(waits) !! p) ∧
    sem_inv v t (a + Z.of_nat n) s'.
Proof.
  revert fuel a s ret. induction n as [|n IH]; intros fuel a s ret Hs Hr Hn Hf; pose proof Hs as [Hnd Hw Hl Hu];
    (destruct fuel as [|fuel]; [lia|]); cbn [post_all_loop].
  - assert (Hv : 0 ≤ s.(val)) by lia. apply nil_length_inv in Hn.
    rewrite (bind_Ok _ _ _ _ _ (_post_sem_run s ltac:(lia) ltac:(lia) Hl)) Hn. cbn [last].
    set (s1 := set_val _ s). rewrite (bind_Ok _ _ s1 true (set_val (s1.(val) + -1) s1)).
    2: { unfold _get_sem. rewrite (bind_Ok _ _ s1 s1.(val) s1) //. destruct (Z.ltb_spec 0 s1.(val)); [|unfold s1 in *; cbn [val set_val] in *; lia].
         rewrite (bind_Ok _ _ _ _ _ (add_val_run (-1) s1 ltac:(unfold s1; cbn [val set_val]; lia))). done. }
    eexists. split; [change (Z.of_nat 0) with 0; by rewrite Z.add_0_r|]. cbn. split_and!; [lia|done|by rewrite app_nil_r| |].
    + intros p. destruct (s.(waits) !! p) as [[[] al]|] eqn:Ep; [done| |done]. exfalso.
      assert (p ∈ s.(sleeplist)) as Hp by (rewrite Hw; by eexists). rewrite Hn in Hp. by apply not_elem_of_nil in Hp.
    + rewrite Z.add_0_r. split; cbn; [done|done|rewrite Hn; cbn; lia|lia].
  - assert (Hv : s.(val) = - Z.of_nat (S n)) by lia.
    destruct (last s.(sleeplist)) as [p|] eqn:Ep; [|apply last_None in Ep; by rewrite Ep in Hn].
    rewrite (bind_Ok _ _ _ _ _ (_post_sem_run s ltac:(lia) ltac:(lia) Hl)) Ep.
    pose proof (granted_inv v t a p s Hs Ep) as Hs1. set (s1 := granted p _) in *.
    assert (Hv1 : s1.(val) = s.(val) + 1) by done.
    rewrite (bind_Ok _ _ s1 false s1).
    2: { unfold _get_sem. rewrite (bind_Ok _ _ s1 s1.(val) s1) //. by destruct (Z.ltb_spec 0 s1.(val)); [lia|]. }
    apply last_Some in Ep as [l' El].
    assert (El1 : s1.(sleeplist) = l').
    { cbn. rewrite El filter_app filter_cons_False; [|tauto]. rewrite El in Hnd. apply NoDup_app in Hnd as (_ & Hd & _).
      rewrite filter_ne_absent; [by rewrite filter_nil app_nil_r|]. intros Hp. apply (Hd p Hp). by left. }
    destruct (IH fuel (a + 1) s1 (ret + 1) Hs1) as (s' & E & E1 & E2 & E3 & E4 & E5); [lia| |lia|].
    { rewrite El1. rewrite El length_app /= in Hn. lia. }
    exists s'. rewrite E. split; [f_equal; f_equal; lia|]. split; [lia|]. split; [done|]. split_and!.
    + rewrite E3 El1 El reverse_app /= -app_assoc. done.
    + intros q. rewrite E4. cbn. destruct (decide (q = p)) as [->|Hne]; [|by rewrite lookup_alter_ne].
      rewrite lookup_alter_eq. by destruct (s.(waits) !! p).
    + by replace (a + Z.of_nat (S n)) with (a + 1 + Z.of_nat n) by lia.
Qed.

(** ** Every interleaving *)

Lemma run_spec v t a s e : sem_inv v t a s → in_range s → enabled s e →
  ∃ dt da s', run e s = Ok ((dt, da), s') ∧ sem_inv v (t + dt) (a + da) s'.
Proof.
  intros Hs Hr He. pose proof Hr as [Hr1 Hr2]. pose proof Hs as [Hnd Hw Hl Hu]. destruct e as [p al|p|p|p| |]; cbn [run enabled] in *.
  - unfold _wait_sem. rewrite bind_run (bind_Ok _ _ _ _ _ (add_val_run (-1) s ltac:(lia))).
    destruct (Z.leb_spec 0 (s.(val) + -1)); eexists _, _, _; (split; [done|]); rewrite Z.add_0_r.
    + apply (sem_inv_val v t _ a); [done|lia..].
    + rewrite Z.add_0_r. replace (s.(val) + -1) with (s.(val) - 1) by lia. exact (wait_inv v t a s p al Hs He ltac:(lia)).
  - destruct He as (w & Hp & _). unfold wait_sem_wake. destruct (w.(up)) eqn:Hup.
    + eexists 1, 0, _. split; [|rewrite Z.add_0_r; by eapply chosen_inv].
      rewrite bind_run (bind_Ok _ _ s s.(waits) s) // Hp (bind_Ok _ _ s w s) // Hup. done.
    + destruct (alerted_inv v t a s p w Hs Hp Hup) as [Hinv Hneg]. eexists 0, 0, _. split; [|rewrite !Z.add_0_r; exact Hinv].
      rewrite bind_run (bind_Ok _ _ s s.(waits) s) // Hp (bind_Ok _ _ s w s) // Hup.
      rewrite (bind_Ok _ _ _ tt (set_sleeplist (filter (.≠ p) s.(sleeplist)) (set_val (s.(val) + 1) s))) //.
      rewrite (bind_Ok _ _ _ _ _ (add_val_run 1 s ltac:(lia))). by destruct (Z.leb_spec (s.(val) + 1) 0); [|lia].
  - unfold _get_sem. rewrite bind_run (bind_Ok _ _ s s.(val) s) //. destruct (Z.ltb_spec 0 s.(val)).
    + eexists 1, 0, _. rewrite (bind_Ok _ _ _ _ _ (add_val_run (-1) s ltac:(lia))). split; [done|]. apply (sem_inv_val v t _ a); [done|lia..].
    + eexists 0, 0, _. split; [done|]. by rewrite !Z.add_0_r.
  - unfold get_all_sem. rewrite bind_run (bind_Ok _ _ s s.(val) s) //. destruct (Z.ltb_spec 0 s.(val)).
    + eexists s.(val), 0, _. split; [done|]. apply (sem_inv_val v t _ a); [done|lia..].
    + eexists 0, 0, _. split; [done|]. by rewrite !Z.add_0_r.
  - destruct (post_inv v t a s Hs Hr) as (s' & E & Hs' & _). exists 0, 1, s'. rewrite (bind_Ok _ _ _ _ _ E) Z.add_0_r. by split.
  - unfold post_all_sem. rewrite bind_run (bind_Ok _ _ s s.(sleeplist) s) //.
    destruct (post_all_spec _ v t a s (-1) (length s.(sleeplist) + 2) Hs Hr eq_refl ltac:(lia)) as (s' & E & _ & _ & _ & _ & Hs').
    rewrite E. eexists 0, _, s'. split; [done|]. rewrite Z.add_0_r. by replace (Z.max 0 _) with (Z.of_nat (length s.(sleeplist))) by lia.
Qed.

Lemma init_sem_inv v : 0 ≤ v → sem_inv v 0 0 (init_sem v).
Proof.
  intros Hv. split; cbn; [by apply NoDup_nil| |lia|rewrite map_size_empty; lia].
  intros p. split; [by intros ?%not_elem_of_nil|]. intros (w & Hp & _). done.
Qed.

Lemma sem_reach_inv v es t a s : 0 ≤ v → reach v es t a s → sem_inv v t a s.
Proof.
  intros Hv. induction 1 as [|es t a s e dt da s' _ IH Hr He E]; [by apply init_sem_inv|].
  destruct (run_spec v t a s e IH Hr He) as (dt' & da' & s1 & E' & Hs'). rewrite E in E'. by injection E' as <- <- <-.
Qed.

(** Those a [_post_sem] has chosen and that have not run since. *)
Definition chosen (s : Semaphore) : Z := Z.of_nat (size s.(waits)) - Z.of_nat (length s.(sleeplist)).

(** C14: Whatever the processes do with a semaphore, and in whatever order: the next
    routine, too, returns, so no [ASSERT] of the code fails; the units taken,
    with those granted to processes that have not run yet, never exceed the
    initial value and the units added; and while a process sleeps without
    having been chosen they are all out.  For a sleep lock ([v = 1]), whose
    holders alone release it, the first says that it has one holder. *)
Theorem sem_sound v es t a s e (Hv : 0 ≤ v) (Hr : reach v es t a s) (Hi : in_range s) (He : enabled s e) :
  (∃ r s', run e s = Ok (r, s')) ∧ 0 ≤ chosen s ∧ t + chosen s ≤ v + a ∧
  (∀ p w, s.(waits) !! p = Some w → w.(up) = false → t + chosen s = v + a).
Proof.
  apply sem_reach_inv in Hr; [|done]. destruct (run_spec v t a s e Hr Hi He) as (dt & da & s' & E & _).
  destruct Hr as [Hnd Hw Hl Hu]. split; [by eexists _, s'|]. unfold chosen.
  assert (Hle : (length s.(sleeplist) ≤ size s.(waits))%nat).
  { rewrite -size_dom -(size_list_to_set (C := gset Z) s.(sleeplist)) //. apply subseteq_size. intros p.
    rewrite elem_of_list_to_set Hw elem_of_dom. intros (w & -> & _). by eexists. }
  split; [lia|]. split; [lia|]. intros p w Hp Hup. assert (p ∈ s.(sleeplist)) as Hin by (rewrite Hw; eauto).
  destruct s.(sleeplist); [by apply not_elem_of_nil in Hin|]. cbn [length] in *. lia.
Qed.

(** [post_all_sem] chooses every process that sleeps, the longest sleeper first,
    returns their number, and leaves the units that were there. *)
Theorem post_all_correct v es t a s (Hv : 0 ≤ v) (Hr : reach v es t a s) (Hi : in_range s) :
  ∃ s', post_all_sem s = Ok (Z.of_nat (length s.(sleeplist)), s') ∧ s'.(val) = Z.max 0 s.(val) ∧
    s'.(sleeplist) = [] ∧ s'.(activated) = s.(activated) ++ reverse s.(sleeplist) ∧
    (∀ p w, s'.(waits) !! p = Some w → w.(up) = true) ∧ dom s'.(waits) = dom s.(waits).
Proof.
  apply sem_reach_inv in Hr; [|done]. unfold post_all_sem. rewrite (bind_Ok _ _ s s.(sleeplist) s) //.
  destruct (post_all_spec _ v t a s (-1) (length s.(sleeplist) + 2) Hr Hi eq_refl ltac:(lia)) as (s' & E & E1 & E2 & E3 & E4 & _).
  exists s'. split; [rewrite E; do 2 f_equal; lia|]. split; [done|]. split; [done|]. split; [done|]. split.
  - intros p w Hp. rewrite E4 in Hp. destruct (s.(waits) !! p); [|done]. by injection Hp as <-.
  - apply set_eq. intros p. rewrite !elem_of_dom E4 fmap_is_Some. done.
Qed.

(** ** Examples *)

(** A sleep lock: 1 takes it, 2 and 3 wait for it, 3 is alerted. *)
Definition ex_events : list event := [Wait 1 true; Wait 2 false; Wait 3 true].
Definition ex_sem : Semaphore := mkSem (-2) [3; 2] (<[3 := mkWait false true]> {[2 := mkWait false false]}) [].

Lemma ex_reach : reach 1 ex_events 1 0 ex_sem.
Proof.
  eapply (reach_step 1 [Wait 1 true; Wait 2 false] 1 0 (mkSem (-1) [2] {[2 := mkWait false false]} []) (Wait 3 true) 0 0);
    [|by split|by vm_compute|by vm_compute].
  eapply (reach_step 1 [Wait 1 true] 1 0 (mkSem 0 [] ∅ []) (Wait 2 false) 0 0); [|by split|done|by vm_compute].
  eapply (reach_step 1 [] 0 0 (init_sem 1) (Wait 1 true) 1 0); [apply reach_init|by split|done|by vm_compute].
Qed.

Lemma sem_sound_witness :
  (∃ r s', run (Wake 3) ex_sem = Ok (r, s')) ∧ 0 ≤ chosen ex_sem ∧ 1 + chosen ex_sem ≤ 1 + 0 ∧
  (∀ p w, ex_sem.(waits) !! p = Some w → w.(up) = false → 1 + chosen ex_sem = 1 + 0).
Proof. apply (sem_sound 1 ex_events 1 0 ex_sem (Wake 3)); [lia|apply ex_reach|by split|]. exists (mkWait false true). by split; [|right]. Defined.

Lemma post_all_correct_witness :
  ∃ s', post_all_sem ex_sem = Ok (2, s') ∧ s'.(val) = 0 ∧ s'.(sleeplist) = [] ∧ s'.(activated) = [] ++ reverse [3; 2] ∧
    (∀ p w, s'.(waits) !! p = Some w → w.(up) = true) ∧ dom s'.(waits) = dom ex_sem.(waits).
Proof. apply (post_all_correct 1 ex_events 1 0 ex_sem); [lia|apply ex_reach|by split]. Defined.
