(* ===== verification/Sched.v ===== *)
(** * The scheduler

    [src/kernel/sched.c] with the data of [schinfo.h], [proc.h] and
    [container.h] that it uses: processes and groups of processes (containers)
    wait in one queue per container, a red-black tree ordered by virtual
    runtime, and a processor takes the first process it finds going down from
    the root container.  Processes and containers are known by the addresses of
    their [schinfo.rq], the trees are those of [RbTree.v], reached through the
    interface of [RbQueue.v].  Every
    definition here runs under [rqlock].

    The lemmas lead to [pick_next_spec]: [pick_next] is a depth-first search
    through the queues, and restores all the marks it has left.  [SchedInv.v]
    has the theorems. *)

From stdpp Require Import sorting.
From iris.prelude Require Import prelude.
From S2P Require Import Prelude RbTree RbQueue.
#[local] Open Scope Z_scope.

(** ** Data *)

Inductive procstate : Type := UNUSED | RUNNABLE | RUNNING | SLEEPING | DEEPSLEEPING | ZOMBIE.
#[global] Instance procstate_eq_dec : EqDecision procstate.
Proof. solve_decision. Defined.

Record schinfo : Type := mkInfo { group : bool; start_time : Z; vruntime : Z; skip : bool }.

Record proc : Type := mkProc { killed : bool; idle : bool; pid : Z; state : procstate; container_of_proc : Z; pinfo : schinfo }.

Record container : Type := mkContainer { parent : option Z; cinfo : schinfo; rq : tree; node_cnt : Z; id : Z }.

(** A processor: [sched.thisproc], [sched.idle], the page table in use, and
    whether its scheduling timer has been set. *)
Record cpu : Type := mkCpu { thisproc : Z; idle_proc : Z; pgdir_of : Z; timer_set : bool }.

Record kernel : Type := mkKernel {
  procs : gmap Z proc;
  containers : gmap Z container;
  cpus : list cpu;
  panic_flag : bool;
}.

(** ** Code *)

Definition con_to_weight : list Z := [1; 1; 1; 1; 1].
Definition WEIGHT_SUM : Z := 1.

Section code.
Context `{RbOps}.
(** The addresses of [root_container] and [root_proc]. *)
Context (root root_proc : Z).
Abbreviation M := (M kernel).

Definition set_procs (x : gmap Z proc) (s : kernel) : kernel := mkKernel x s.(containers) s.(cpus) s.(panic_flag).
Definition set_containers (x : gmap Z container) (s : kernel) : kernel := mkKernel s.(procs) x s.(cpus) s.(panic_flag).
Definition set_cpus (x : list cpu) (s : kernel) : kernel := mkKernel s.(procs) s.(containers) x s.(panic_flag).
Definition with_skip (b : bool) (i : schinfo) : schinfo := mkInfo i.(group) i.(start_time) i.(vruntime) b.
Definition with_vruntime (v : Z) (i : schinfo) : schinfo := mkInfo i.(group) i.(start_time) v i.(skip).
Definition with_start (v : Z) (i : schinfo) : schinfo := mkInfo i.(group) v i.(vruntime) i.(skip).
Definition with_state (x : procstate) (p : proc) : proc := mkProc p.(killed) p.(idle) p.(pid) x p.(container_of_proc) p.(pinfo).
Definition with_pinfo (x : schinfo) (p : proc) : proc := mkProc p.(killed) p.(idle) p.(pid) p.(state) p.(container_of_proc) x.
Definition with_cinfo (x : schinfo) (c : container) : container := mkContainer c.(parent) x c.(rq) c.(node_cnt) c.(id).
Definition with_queue (t : tree) (n : Z) (c : container) : container := mkContainer c.(parent) c.(cinfo) t n c.(id).

Definition get_proc (p : Z) : M proc := m ← gets procs; deref (m !! p).
Definition get_container (c : Z) : M container := m ← gets containers; deref (m !! c).
Definition get_cpu (k : nat) : M cpu := l ← gets cpus; deref (l !! k).
Definition upd_proc (p : Z) (f : proc → proc) : M unit := modify (λ s, set_procs (alter f p s.(procs)) s).
Definition upd_container (c : Z) (f : container → container) : M unit := modify (λ s, set_containers (alter f c s.(containers)) s).
Definition upd_cpu (k : nat) (f : cpu → cpu) : M unit := modify (λ s, set_cpus (alter f k s.(cpus)) s).

(** The [schinfo] at a node: of a process or of a container. *)
Definition info_of (s : kernel) (n : Z) : option schinfo :=
  match s.(procs) !! n with
  | Some p => Some p.(pinfo)
  | None => cinfo <$> s.(containers) !! n
  end.
Definition get_info (n : Z) : M schinfo := o ← gets (λ s, info_of s n); deref o.
Definition set_skip (n : Z) (b : bool) : M unit :=
  upd_proc n (λ p, with_pinfo (with_skip b p.(pinfo)) p) ;;
  upd_container n (λ c, with_cinfo (with_skip b c.(cinfo)) c).

Definition key (s : kernel) (n : Z) : Z := default 0 (vruntime <$> info_of s n).
Definition __sched_cmp (s : kernel) (l r : Z) : bool :=
  let d := i64 (u64 (key s l - key s r)) in
  if d <? 0 then true else if d =? 0 then l <? r else false.

(** [ASSERT(_rb_insert(&n->rq, &c->schqueue.rq, __sched_cmp) == 0)] *)
Definition enqueue (n c : Z) : M unit :=
  cn ← get_container c;
  cmp ← gets __sched_cmp;
  match rb_insert cmp n cn.(rq) with
  | Some t => upd_container c (λ cn, with_queue t cn.(node_cnt) cn)
  | None => panic
  end.
Definition dequeue (n c : Z) : M unit :=
  cn ← get_container c;
  upd_container c (λ cn, with_queue (rb_erase n cn.(rq)) cn.(node_cnt) cn).
Definition count (c d : Z) : M unit := upd_container c (λ cn, with_queue cn.(rq) (i32 (cn.(node_cnt) + d)) cn).

Definition init_schinfo (g : bool) : schinfo := mkInfo g 0 0 false.
Definition is_zombie (p : Z) : M bool := x ← get_proc p; mret (bool_decide (x.(state) = ZOMBIE)).
Definition is_used (p : Z) : M bool := x ← get_proc p; mret (negb (bool_decide (x.(state) = UNUSED))).

Definition _activate_proc (p : Z) (onalert : bool) : M bool :=
  x ← get_proc p;
  match x.(state) with
  | RUNNING | RUNNABLE | ZOMBIE => mret false
  | st =>
      if bool_decide (st = DEEPSLEEPING) && onalert then mret false
      else
        upd_proc p (with_state RUNNABLE) ;;
        enqueue p x.(container_of_proc) ;;
        count x.(container_of_proc) 1 ;;
        mret true
  end.

(** The containers above a process: their virtual runtime grows with its own. *)
Fixpoint requeue_groups (fuel : nat) (c delta : Z) : M unit :=
  match fuel with
  | O => fail OutOfFuel
  | S fuel =>
      cn ← get_container c;
      match cn.(parent) with
      | None => mret tt
      | Some up =>
          upd_container c (λ cn, with_cinfo (with_vruntime (u64 (cn.(cinfo).(vruntime) + delta)) cn.(cinfo)) cn) ;;
          dequeue c up ;;
          enqueue c up ;;
          requeue_groups fuel up delta
      end
  end.

(** The time [this] has run is charged to it and to the groups above, and it waits again. *)
Definition charge (fuel : nat) (this now : Z) (x : proc) : M unit :=
  let c := x.(container_of_proc) in
  cn ← get_container c;
  w ← (if cn.(id) <? 0 then deref None else deref (con_to_weight !! Z.to_nat cn.(id)));
  let delta := u64 (u64 (now - x.(pinfo).(start_time)) * w) / WEIGHT_SUM in
  upd_proc this (λ x, with_pinfo (with_vruntime (u64 (x.(pinfo).(vruntime) + delta)) x.(pinfo)) x) ;;
  enqueue this c ;;
  count c 1 ;;
  requeue_groups fuel c delta.

Definition update_this_state (fuel k : nat) (now : Z) (new_state : procstate) : M unit :=
  cp ← get_cpu k;
  let this := cp.(thisproc) in
  x ← get_proc this;
  (if negb x.(idle) && bool_decide (x.(state) = RUNNING) && bool_decide (new_state = RUNNABLE)
   then charge fuel this now x
   else mret tt) ;;
  upd_proc this (with_state new_state).

(** The first node of a tree that is not a group marked to be skipped. *)
Fixpoint _rb_first_ex_p (t : tree) : M (option Z) :=
  match t with
  | Leaf => mret None
  | Node _ l n r =>
      left ← _rb_first_ex_p l;
      match left with
      | Some x => mret (Some x)
      | None =>
          i ← get_info n;
          if negb (i.(group) && i.(skip)) then mret (Some n) else _rb_first_ex_p r
      end
  end.

Fixpoint _rb_fix_skip (fuel : nat) (t : tree) : M unit :=
  match fuel with
  | O => fail OutOfFuel
  | S fuel =>
      match t with
      | Leaf => mret tt
      | Node _ l n r =>
          set_skip n false ;;
          i ← get_info n;
          (if i.(group) then cn ← get_container n; _rb_fix_skip fuel cn.(rq) else mret tt) ;;
          _rb_fix_skip fuel l ;;
          _rb_fix_skip fuel r
      end
  end.

(** [pick_next_r(&c->schqueue.rq)] on processor [k]. *)
Fixpoint pick_next_r (fuel k : nat) (c : Z) : M Z :=
  match fuel with
  | O => fail OutOfFuel
  | S fuel =>
      stop ← gets panic_flag;
      cp ← get_cpu k;
      if stop : bool then mret cp.(idle_proc)
      else
        cn ← get_container c;
        node ← _rb_first_ex_p cn.(rq);
        if negb (c =? root) && negb (cn.(node_cnt) =? 0) && bool_decide (node = None) then
          set_skip c true ;;
          up ← deref cn.(parent);
          pick_next_r fuel k up
        else
          match node with
          | None => mret cp.(idle_proc)
          | Some n =>
              i ← get_info n;
              if negb i.(group) then
                x ← get_proc n;
                dequeue n x.(container_of_proc) ;;
                count x.(container_of_proc) (-1) ;;
                cn ← get_container x.(container_of_proc);
                assert_ (0 <=? cn.(node_cnt)) ;;
                mret n
              else
                g ← get_container n;
                if g.(node_cnt) =? 0 then set_skip n true ;; pick_next_r fuel k c
                else pick_next_r fuel k n
          end
  end.

Definition pick_next (fuel k : nat) : M Z :=
  ret ← pick_next_r fuel k root;
  cn ← get_container root;
  _rb_fix_skip fuel cn.(rq) ;;
  mret ret.

Definition activate_group (g : Z) : M unit :=
  x ← get_container g;
  up ← deref x.(parent);
  enqueue g up ;;
  count up 1.

(** The timer is the processor's own: [set_cpu_timer] is left out. *)
Definition update_this_proc (k : nat) (p : Z) : M unit :=
  x ← get_proc p;
  cp ← get_cpu k;
  upd_cpu k (λ cp, mkCpu p cp.(idle_proc) cp.(pgdir_of)
    (if negb (x.(pid) =? 0) && negb (p =? root_proc) && negb cp.(timer_set) then true else cp.(timer_set))).

(** Up to [swtch], after which the processor runs [next]. *)
Definition simple_sched (fuel k : nat) (now : Z) (new_state : procstate) : M unit :=
  cp ← get_cpu k;
  let this := cp.(thisproc) in
  x ← get_proc this;
  assert_ (bool_decide (x.(state) = RUNNING)) ;;
  if x.(killed) && negb (bool_decide (new_state = ZOMBIE)) then mret tt
  else
    update_this_state fuel k now new_state ;;
    next ← pick_next fuel k;
    update_this_proc k next ;;
    y ← get_proc next;
    assert_ (bool_decide (y.(state) = RUNNABLE)) ;;
    upd_proc next (with_state RUNNING) ;;
    if negb (next =? this) then
      upd_cpu k (λ cp, mkCpu cp.(thisproc) cp.(idle_proc) next cp.(timer_set)) ;;
      upd_proc next (λ y, with_pinfo (with_start now y.(pinfo)) y)
    else mret tt.
End code.

(** ** Queues *)

Section queues.
Context `{RbOps}.
Context (root : Z).
Implicit Types s : kernel.

(** The queues hold processes and groups of their container; [node_cnt] counts
    them; and containers do not contain themselves. *)
Record wf s : Prop := {
  w_disjoint : ∀ n, is_Some (s.(procs) !! n) → s.(containers) !! n = None;
  w_pgroup : ∀ n p, s.(procs) !! n = Some p → p.(pinfo).(group) = false;
  w_cgroup : ∀ n g, s.(containers) !! n = Some g → g.(cinfo).(group) = true;
  w_tree : ∀ c cn, s.(containers) !! c = Some cn → rb_ok cn.(rq) ∧ NoDup (inorder cn.(rq)) ∧
    cn.(node_cnt) = Z.of_nat (length (inorder cn.(rq))) ∧ cn.(node_cnt) < 2 ^ 31;
  w_queue : ∀ c cn n, s.(containers) !! c = Some cn → n ∈ inorder cn.(rq) →
    (∃ p, s.(procs) !! n = Some p ∧ p.(container_of_proc) = c) ∨ (∃ g, s.(containers) !! n = Some g ∧ g.(parent) = Some c);
  w_root : ∃ cn, s.(containers) !! root = Some cn ∧ cn.(parent) = None;
  w_parent : ∀ c cn, s.(containers) !! c = Some cn → c ≠ root → ∃ up, cn.(parent) = Some up ∧ is_Some (s.(containers) !! up);
  w_rank : ∃ rank : Z → nat, ∀ c cn up, s.(containers) !! c = Some cn → cn.(parent) = Some up → (rank c < rank up)%nat;
}.

(** No node is marked. *)
Definition noskip s : Prop := ∀ n i, info_of s n = Some i → i.(skip) = false.

(** The depth-first search for a process through the queues: what [pick_next] means. *)
Inductive first_of s : list Z → option Z → Prop :=
| first_nil : first_of s [] None
| first_proc n l p : s.(procs) !! n = Some p → first_of s (n :: l) (Some n)
| first_in n l g x : s.(containers) !! n = Some g → first_of s (inorder g.(rq)) (Some x) → first_of s (n :: l) (Some x)
| first_after n l g r : s.(containers) !! n = Some g → first_of s (inorder g.(rq)) None → first_of s l r → first_of s (n :: l) r.

(** The nodes that a search through [l] can meet. *)
Inductive below s : list Z → Z → Prop :=
| below_here l n : n ∈ l → below s l n
| below_in l g gc n : g ∈ l → s.(containers) !! g = Some gc → below s (inorder gc.(rq)) n → below s l n.

(** *** Marks *)

(** The state with the groups [D] marked to be skipped. *)
Definition marked (D : gset Z) (c : Z) (cn : container) : container :=
  if decide (c ∈ D) then with_cinfo (with_skip true cn.(cinfo)) cn else cn.
Definition mark (D : gset Z) s : kernel := set_containers (map_imap (λ c cn, Some (marked D c cn)) s.(containers)) s.

Lemma mark_containers D s c : (mark D s).(containers) !! c = marked D c <$> s.(containers) !! c.
Proof. cbn. rewrite map_lookup_imap. by destruct (s.(containers) !! c). Qed.

Lemma kernel_eq s s' : s.(procs) = s'.(procs) → s.(containers) = s'.(containers) → s.(cpus) = s'.(cpus) →
  s.(panic_flag) = s'.(panic_flag) → s = s'.
Proof. destruct s, s'. cbn. by intros -> -> -> ->. Qed.

Lemma mark_empty s : mark ∅ s = s.
Proof.
  apply kernel_eq; [done| |done|done]. apply map_eq. intros c. rewrite mark_containers.
  destruct (s.(containers) !! c) as [cn|]; [|done]. unfold marked. simpl. case_decide; [set_solver|done].
Qed.

Lemma alter_id {B} (f : B → B) (m : gmap Z B) k : (∀ b, m !! k = Some b → f b = b) → alter f k m = m.
Proof.
  intros Hf. apply map_eq. intros j. destruct (decide (j = k)) as [->|Hne]; [|by rewrite lookup_alter_ne].
  rewrite lookup_alter_eq. destruct (m !! k) as [b|] eqn:E; [|done]. cbn. by rewrite Hf.
Qed.

Lemma noskip_proc s n p : noskip s → s.(procs) !! n = Some p → p.(pinfo).(skip) = false.
Proof. intros Hs Hp. apply (Hs n). unfold info_of. by rewrite Hp. Qed.
Lemma noskip_container s n g : wf s → noskip s → s.(containers) !! n = Some g → g.(cinfo).(skip) = false.
Proof.
  intros Hw Hs Hg. apply (Hs n). unfold info_of. destruct (s.(procs) !! n) eqn:E; [|by rewrite Hg].
  by rewrite (w_disjoint s Hw n) in Hg; [|rewrite E].
Qed.

Lemma with_skip_id b i : i.(skip) = b → with_skip b i = i.
Proof. destruct i. cbn. by intros ->. Qed.
Lemma with_pinfo_id p : with_pinfo p.(pinfo) p = p.
Proof. by destruct p. Qed.
Lemma with_cinfo_id c : with_cinfo c.(cinfo) c = c.
Proof. by destruct c. Qed.

(** Marking a group. *)
Lemma set_skip_true D s g gc : wf s → s.(containers) !! g = Some gc → set_skip g true (mark D s) = Ok (tt, mark ({[g]} ∪ D) s).
Proof.
  intros Hw Hg. unfold set_skip, upd_proc, upd_container. rewrite bind_run. unfold modify at 1 2. do 2 f_equal. apply kernel_eq; [|cbn|done|done].
  - cbn. apply alter_id. intros p Hp. by rewrite (w_disjoint s Hw g) in Hg; [|rewrite Hp].
  - apply map_eq. intros c. rewrite map_lookup_imap. destruct (decide (c = g)) as [->|Hne].
    + rewrite lookup_alter_eq map_lookup_imap Hg. cbn. f_equal. unfold marked. rewrite (decide_True (P := g ∈ {[g]} ∪ D)); [|set_solver].
      by case_decide.
    + rewrite lookup_alter_ne // map_lookup_imap. destruct (s.(containers) !! c) as [cn|]; [|done]. cbn. f_equal. unfold marked.
      by case_decide; case_decide; set_solver.
Qed.

(** Clearing a node's mark. *)
Lemma set_skip_false D s n : wf s → noskip s → set_skip n false (mark D s) = Ok (tt, mark (D ∖ {[n]}) s).
Proof.
  intros Hw Hs. unfold set_skip, upd_proc, upd_container. rewrite bind_run. unfold modify at 1 2. do 2 f_equal. apply kernel_eq; [|cbn|done|done].
  - cbn. apply alter_id. intros p Hp. rewrite with_skip_id; [apply with_pinfo_id|by eapply noskip_proc].
  - apply map_eq. intros c. rewrite map_lookup_imap. destruct (decide (c = n)) as [->|Hne].
    + rewrite lookup_alter_eq map_lookup_imap. destruct (s.(containers) !! n) as [cn|] eqn:Hn; [|done]. cbn. f_equal. unfold marked.
      rewrite (decide_False (P := n ∈ D ∖ {[n]})); [|set_solver]. case_decide; cbn.
      * pose proof (noskip_container s n cn Hw Hs Hn) as Hk. destruct cn as [? [] ? ? ?]. cbn in Hk. by subst.
      * rewrite with_skip_id; [apply with_cinfo_id|by eapply noskip_container].
    + rewrite lookup_alter_ne // map_lookup_imap. destruct (s.(containers) !! c) as [cn|]; [|done]. cbn. f_equal. unfold marked.
      by case_decide; case_decide; set_solver.
Qed.

(** *** The search *)

Lemma info_proc D s n p : s.(procs) !! n = Some p → get_info n (mark D s) = Ok (p.(pinfo), mark D s).
Proof. intros Hp. unfold get_info. rewrite (bind_Ok _ _ (mark D s) (info_of (mark D s) n) (mark D s)) //. unfold info_of. cbn. by rewrite Hp. Qed.
Lemma info_container D s n g : wf s → s.(containers) !! n = Some g →
  get_info n (mark D s) = Ok ((marked D n g).(cinfo), mark D s).
Proof.
  intros Hw Hg. unfold get_info. rewrite (bind_Ok _ _ (mark D s) (info_of (mark D s) n) (mark D s)) //. unfold info_of.
  rewrite mark_containers Hg. change (procs (mark D s)) with (procs s).
  destruct (s.(procs) !! n) eqn:E; [|done]. by rewrite (w_disjoint s Hw n) in Hg; [|rewrite E].
Qed.
Lemma container_run D s c cn : s.(containers) !! c = Some cn → get_container c (mark D s) = Ok (marked D c cn, mark D s).
Proof. intros Hc. unfold get_container. rewrite (bind_Ok _ _ (mark D s) (mark D s).(containers) (mark D s)) // mark_containers Hc //. Qed.
Lemma marked_rq D c cn : (marked D c cn).(rq) = cn.(rq).
Proof. unfold marked. by case_decide. Qed.
Lemma marked_cnt D c cn : (marked D c cn).(node_cnt) = cn.(node_cnt).
Proof. unfold marked. by case_decide. Qed.
Lemma marked_parent D c cn : (marked D c cn).(parent) = cn.(parent).
Proof. unfold marked. by case_decide. Qed.

(** A node is a process or a group. *)
Definition node_ok s (n : Z) : Prop := is_Some (s.(procs) !! n) ∨ is_Some (s.(containers) !! n).

(** [_rb_first_ex_p] finds the first node that is not marked. *)
Lemma first_ex_spec D s t : wf s → noskip s → (∀ n, n ∈ inorder t → node_ok s n) → (∀ n, n ∈ D → s.(procs) !! n = None) →
  _rb_first_ex_p t (mark D s) = Ok (head (filter (.∉ D) (inorder t)), mark D s).
Proof.
  intros Hw Hs. induction t as [|cl l IHl n r IHr]; intros Hn HD; [done|]. cbn [_rb_first_ex_p inorder] in *.
  rewrite (bind_Ok _ _ _ _ _ (IHl ltac:(intros; apply Hn; set_solver) HD)) filter_app.
  destruct (filter (.∉ D) (inorder l)) as [|x xs]; [|done]. cbn [head app].
  destruct (Hn n ltac:(set_solver)) as [[p Hp]|[g Hg]].
  - rewrite (bind_Ok _ _ _ _ _ (info_proc D s n p Hp)) (w_pgroup s Hw n p Hp). cbn [andb negb].
    rewrite filter_cons_True //. intros HnD. by rewrite HD in Hp.
  - rewrite (bind_Ok _ _ _ _ _ (info_container D s n g Hw Hg)). unfold marked. destruct (decide (n ∈ D)) as [Hi|Hi].
    + rewrite filter_cons_False; [|tauto]. cbn [cinfo with_cinfo with_skip group skip]. rewrite (w_cgroup s Hw n g Hg).
      cbn [andb negb]. apply IHr; [intros; apply Hn; set_solver|done].
    + rewrite (noskip_container s n g Hw Hs Hg) andb_false_r filter_cons_True //.
Qed.

(** The state once process [p] has been taken off its queue. *)
Definition taken (c p : Z) (cn : container) s : kernel :=
  set_containers (<[c := with_queue (rb_erase p cn.(rq)) (cn.(node_cnt) - 1) cn]> s.(containers)) s.

Lemma taken_mark c p cn D s : s.(containers) !! c = Some cn →
  taken c p (marked D c cn) (mark D s) = mark D (taken c p cn s).
Proof.
  intros Hc. apply kernel_eq; [done| |done|done]. apply map_eq. intros j. rewrite mark_containers. cbn.
  destruct (decide (j = c)) as [->|Hne].
  - rewrite !lookup_insert_eq. cbn. f_equal. unfold marked. by case_decide.
  - rewrite !lookup_insert_ne // map_lookup_imap. by destruct (s.(containers) !! j).
Qed.

Lemma alter_run {B} (f : B → B) (m : gmap Z B) k b : m !! k = Some b → alter f k m = <[k := f b]> m.
Proof.
  intros Hk. apply map_eq. intros j. destruct (decide (j = k)) as [->|Hne].
  - by rewrite lookup_alter_eq Hk lookup_insert_eq.
  - by rewrite lookup_alter_ne // lookup_insert_ne.
Qed.

Lemma fmap_eq_Some {X Y} (f : X → Y) (a b : option X) x : f <$> a = f <$> b → a = Some x → ∃ y, b = Some y ∧ f x = f y.
Proof. intros E ->. destruct b as [y|]; [|done]. injection E. by exists y. Qed.

Lemma size_same {X Y} (f : X → Y) (m1 m2 : gmap Z X) : (∀ n, f <$> m1 !! n = f <$> m2 !! n) → size m1 = size m2.
Proof.
  intros E. rewrite -!size_dom. f_equal. apply set_eq. intros n. rewrite !elem_of_dom. specialize (E n).
  destruct (m1 !! n), (m2 !! n); cbn in E; (done || by split; intros []).
Qed.

(** What is known of a set of marked groups: a search finds nothing below them. *)
Definition dead s (D : gset Z) : Prop := ∀ g, g ∈ D →
  ∃ gc rc, s.(containers) !! g = Some gc ∧ first_of s (inorder gc.(rq)) None ∧
    s.(containers) !! root = Some rc ∧ below s (inorder rc.(rq)) g.

Lemma dead_procs s D n : wf s → dead s D → n ∈ D → s.(procs) !! n = None.
Proof.
  intros Hw HD (gc & _ & Hg & _)%HD. apply eq_None_not_Some. intros Hp. by rewrite (w_disjoint s Hw n Hp) in Hg.
Qed.

(** Marked groups at the front do not matter. *)
Lemma first_of_skip s D l r : dead s D → first_of s (filter (.∉ D) l) r → first_of s l r.
Proof.
  intros HD. revert r. induction l as [|n l IH]; intros r; [done|]. destruct (decide (n ∈ D)) as [Hi|Hi].
  - rewrite filter_cons_False; [|tauto]. intros Hr. destruct (HD n Hi) as (gc & _ & Hg & Hf & _). eapply first_after; [done..|by apply IH].
  - rewrite filter_cons_True //. intros Hr. inversion Hr; subst.
    + by eapply first_proc.
    + by eapply first_in.
    + eapply first_after; [done..|by apply IH].
Qed.

Section explore.
Context (s : kernel) (k : nat) (cp : cpu) (rc : container).
Hypothesis Hw : wf s.
Hypothesis Hs : noskip s.
Hypothesis Hpanic : s.(panic_flag) = false.
Hypothesis Hcpu : s.(cpus) !! k = Some cp.
Hypothesis Hroot : s.(containers) !! root = Some rc.

(** The first steps of [pick_next_r], up to the choice of a node. *)
Lemma pick_start fuel c cn D : s.(containers) !! c = Some cn → dead s D →
  pick_next_r root (S fuel) k c (mark D s) =
  (let node := head (filter (.∉ D) (inorder cn.(rq))) in
   if negb (c =? root) && negb (cn.(node_cnt) =? 0) && bool_decide (node = None) then
     set_skip c true ;; up ← deref cn.(parent); pick_next_r root fuel k up
   else match node with
        | None => mret cp.(idle_proc)
        | Some n =>
            i ← get_info n;
            if negb i.(group) then
              x ← get_proc n; dequeue n x.(container_of_proc) ;; count x.(container_of_proc) (-1) ;;
              cn ← get_container x.(container_of_proc); assert_ (0 <=? cn.(node_cnt)) ;; mret n
            else
              g ← get_container n;
              if g.(node_cnt) =? 0 then set_skip n true ;; pick_next_r root fuel k c else pick_next_r root fuel k n
        end) (mark D s).
Proof.
  intros Hc HD. cbn [pick_next_r]. rewrite (bind_Ok _ _ (mark D s) false (mark D s)); [|by rewrite -Hpanic].
  rewrite (bind_Ok _ _ (mark D s) cp (mark D s)).
  2: { unfold get_cpu. rewrite (bind_Ok _ _ (mark D s) s.(cpus) (mark D s)) // Hcpu //. }
  rewrite (bind_Ok _ _ _ _ _ (container_run D s c cn Hc)) marked_rq marked_cnt marked_parent.
  rewrite (bind_Ok _ _ _ _ _ (first_ex_spec D s cn.(rq) Hw Hs _ _)) //.
  - intros n Hn. destruct (w_queue s Hw c cn n Hc Hn) as [(p & Hp & _)|(g & Hg & _)]; [left|right]; by eexists.
  - intros n. by apply dead_procs.
Qed.

(** The search ends at a process. *)
Lemma pick_proc fuel c cn D n p : s.(containers) !! c = Some cn → dead s D →
  head (filter (.∉ D) (inorder cn.(rq))) = Some n → s.(procs) !! n = Some p →
  pick_next_r root (S fuel) k c (mark D s) = Ok (n, mark D (taken c n cn s)).
Proof.
  intros Hc HD Hh Hp. rewrite (pick_start fuel c cn D Hc HD) Hh. cbv zeta. rewrite bool_decide_eq_false_2 // andb_false_r.
  rewrite (bind_Ok _ _ _ _ _ (info_proc D s n p Hp)) (w_pgroup s Hw n p Hp). cbn [negb].
  assert (Hn : n ∈ inorder cn.(rq)).
  { apply head_Some in Hh as [l Hl]. assert (n ∈ filter (.∉ D) (inorder cn.(rq))) as Hin by (rewrite Hl; by left).
    by apply list_elem_of_filter in Hin as [_ ?]. }
  destruct (w_queue s Hw c cn n Hc Hn) as [(p' & Hp' & Hpc)|(g & Hg & _)].
  2: { by rewrite (w_disjoint s Hw n) in Hg; [|rewrite Hp]. }
  rewrite Hp in Hp'. injection Hp' as <-.
  unfold get_proc. rewrite (bind_Ok _ _ (mark D s) p (mark D s)).
  2: { rewrite (bind_Ok _ _ (mark D s) s.(procs) (mark D s)) // Hp //. }
  rewrite Hpc. destruct (w_tree s Hw c cn Hc) as (_ & _ & Hcnt & Hlt).
  assert (1 ≤ cn.(node_cnt)). { rewrite Hcnt. destruct (inorder cn.(rq)); [by apply not_elem_of_nil in Hn|cbn; lia]. }
  unfold dequeue. rewrite (bind_Ok _ _ (mark D s) tt (set_containers (<[c := with_queue (rb_erase n cn.(rq)) cn.(node_cnt) (marked D c cn)]> (mark D s).(containers)) (mark D s))).
  2: { rewrite (bind_Ok _ _ _ _ _ (container_run D s c cn Hc)). unfold upd_container, modify. do 2 f_equal.
       rewrite (alter_run _ _ c (marked D c cn)); [|by rewrite mark_containers Hc]. by rewrite marked_rq marked_cnt. }
  set (s1 := set_containers _ _).
  assert (E1 : count c (-1) s1 = Ok (tt, mark D (taken c n cn s))).
  { unfold count, upd_container, modify. do 2 f_equal. rewrite -taken_mark // /taken. apply kernel_eq; [done| |done|done]. cbn.
    rewrite (alter_run _ _ c (with_queue (rb_erase n cn.(rq)) cn.(node_cnt) (marked D c cn))); [|apply lookup_insert_eq].
    rewrite insert_insert_eq. cbn. rewrite marked_rq marked_cnt i32_small //. lia. }
  rewrite (bind_Ok _ _ _ _ _ E1).
  set (cn1 := with_queue (rb_erase n cn.(rq)) (cn.(node_cnt) - 1) cn).
  assert (Hc1 : (taken c n cn s).(containers) !! c = Some cn1) by apply lookup_insert_eq.
  rewrite (bind_Ok _ _ _ _ _ (container_run D (taken c n cn s) c cn1 Hc1)) marked_cnt.
  by destruct (Z.leb_spec 0 cn1.(node_cnt)); [|cbn in *; lia].
Qed.

(** What a call of [pick_next_r] in container [c] comes to: a process, or the end
    of the search in [c], which goes on in its parent with [c] marked. *)
Definition outcome_of (c : Z) (cn : container) (D : gset Z) (k0 : nat) (D' : gset Z) (r : option Z) : Prop :=
  match r with
  | Some p => ∃ c' cn', s.(containers) !! c' = Some cn' ∧ p ∈ inorder cn'.(rq) ∧ is_Some (s.(procs) !! p) ∧
      ∀ fuel, pick_next_r root (k0 + fuel) k c (mark D s) = Ok (p, mark D' (taken c' p cn' s))
  | None =>
      (c = root → ∀ fuel, pick_next_r root (k0 + fuel) k c (mark D s) = Ok (cp.(idle_proc), mark D' s)) ∧
      (c ≠ root → c ∈ D' ∧ ∃ up, cn.(parent) = Some up ∧
         ∀ fuel, pick_next_r root (k0 + fuel) k c (mark D s) = pick_next_r root fuel k up (mark D' s))
  end.
Definition explored (c : Z) (cn : container) (D : gset Z) : Prop :=
  ∃ k0 D' r, D ⊆ D' ∧ dead s D' ∧ first_of s (inorder cn.(rq)) r ∧ outcome_of c cn D k0 D' r.

(** A container in which the search can be. *)
Definition entered (c : Z) (cn : container) : Prop :=
  s.(containers) !! c = Some cn ∧ (c = root ∨ below s (inorder rc.(rq)) c ∧ inorder cn.(rq) ≠ []).

(** One step first. *)
Lemma explored_step c cn D D1 : D ⊆ D1 →
  (∀ fuel, pick_next_r root (S fuel) k c (mark D s) = pick_next_r root fuel k c (mark D1 s)) →
  explored c cn D1 → explored c cn D.
Proof.
  intros HD Hst (k0 & D' & r & HD' & Hdead & Hf & Hout). exists (S k0), D', r. split; [set_solver|]. split; [done|]. split; [done|].
  destruct r as [p|].
  - destruct Hout as (c' & cn' & Hc' & Hp & Hpp & E). exists c', cn'. split_and!; [done..|]. intros fuel. cbn [Nat.add]. by rewrite Hst.
  - destruct Hout as [E1 E2]. split; [intros Hr fuel; cbn [Nat.add]; rewrite Hst; by apply E1|]. intros Hr.
    destruct (E2 Hr) as (Hc & up & Hup & E). split; [done|]. exists up. split; [done|]. intros fuel. cbn [Nat.add]. by rewrite Hst.
Qed.

(** Nothing is left in [c]. *)
Lemma explored_end c cn D : entered c cn → dead s D → filter (.∉ D) (inorder cn.(rq)) = [] → explored c cn D.
Proof.
  intros [Hc Hen] HD Hl. assert (Hf : first_of s (inorder cn.(rq)) None) by (apply (first_of_skip s D); [done|rewrite Hl; constructor]).
  destruct (decide (c = root)) as [->|Hne].
  - exists 1%nat, D, None. split_and!; [done..|]. split; [|done]. intros _ fuel. cbn [Nat.add].
    rewrite (pick_start fuel root cn D Hc HD) Hl. cbn [head]. rewrite Z.eqb_refl. done.
  - destruct Hen as [?|[Hb Hne']]; [done|]. destruct (w_parent s Hw c cn Hc Hne) as (up & Hup & _).
    destruct (w_tree s Hw c cn Hc) as (_ & _ & Hcnt & _).
    exists 1%nat, ({[c]} ∪ D), None. split; [set_solver|]. split.
    { intros g [->%elem_of_singleton|Hg]%elem_of_union; [|by apply HD]. exists cn, rc. by auto. }
    split; [done|]. split; [done|]. intros _. split; [set_solver|]. exists up. split; [done|]. intros fuel. cbn [Nat.add].
    rewrite (pick_start fuel c cn D Hc HD) Hl. cbn [head]. destruct (Z.eqb_spec c root); [done|].
    destruct (Z.eqb_spec cn.(node_cnt) 0) as [E0|_].
    { rewrite Hcnt in E0. destruct (inorder cn.(rq)); [done|cbn in E0; lia]. }
    rewrite bool_decide_eq_true_2 //. cbn [andb negb]. rewrite (bind_Ok _ _ _ _ _ (set_skip_true D s c cn Hw Hc)) Hup.
    by rewrite (bind_Ok _ _ _ up (mark ({[c]} ∪ D) s)).
Qed.

Lemma below_child c cn g gc : entered c cn → g ∈ inorder cn.(rq) → s.(containers) !! g = Some gc →
  below s (inorder rc.(rq)) g.
Proof.
  intros [Hc [->|[Hb _]]] Hg Hgc; [rewrite Hroot in Hc; injection Hc as <-; by apply below_here|].
  clear Hgc gc. induction Hb as [l n Hn|l g' gc' n Hg' Hgc' Hb IH].
  - eapply below_in; [done|exact Hc|by apply below_here].
  - eapply below_in; [done|exact Hgc'|]. by apply IH.
Qed.

Lemma dead_add D g gc c cn : dead s D → entered c cn → g ∈ inorder cn.(rq) → s.(containers) !! g = Some gc →
  first_of s (inorder gc.(rq)) None → dead s ({[g]} ∪ D).
Proof.
  intros HD Hen Hg Hgc Hf x [->%elem_of_singleton|Hx]%elem_of_union; [|by apply HD].
  exists gc, rc. split_and!; [done..|]. by eapply below_child.
Qed.

Lemma filter_add_lt (D D' : gset Z) n l l' : filter (.∉ D) l = n :: l' → D ⊆ D' → n ∈ D' →
  (length (filter (.∉ D') l) < length (filter (.∉ D) l))%nat.
Proof.
  intros Hl HD Hn. assert (Hsub : filter (.∉ D') l = filter (.∉ D') (filter (.∉ D) l)).
  { rewrite list_filter_filter. apply list_filter_iff. set_solver. }
  rewrite Hsub Hl filter_cons_False; [|tauto]. pose proof (length_filter (.∉ D') l'). cbn. lia.
Qed.

Context (rank : Z → nat).
Hypothesis Hrank : ∀ c cn up, s.(containers) !! c = Some cn → cn.(parent) = Some up → (rank c < rank up)%nat.

Lemma explore m : ∀ c cn D, (rank c < m)%nat → entered c cn → dead s D → explored c cn D.
Proof.
  induction m as [|m IHm]; intros c cn D Hm Hen HD; [lia|].
  remember (length (filter (.∉ D) (inorder cn.(rq)))) as len eqn:Hlen. revert D HD Hlen.
  induction (lt_wf len) as [len _ IH]; intros D HD Hlen. pose proof Hen as [Hc _].
  destruct (filter (.∉ D) (inorder cn.(rq))) as [|n l] eqn:Hl; [by apply explored_end|].
  assert (Hin : n ∈ inorder cn.(rq) ∧ n ∉ D).
  { assert (n ∈ filter (.∉ D) (inorder cn.(rq))) as Hi by (rewrite Hl; by left). by apply list_elem_of_filter in Hi as []. }
  destruct Hin as [Hin HnD]. destruct (w_queue s Hw c cn n Hc Hin) as [(p & Hp & _)|(g & Hg & Hgp)].
  { exists 1%nat, D, (Some n). split_and!; [done..| |].
    - apply (first_of_skip s D); [done|]. rewrite Hl. by eapply first_proc.
    - exists c, cn. split_and!; [done..|by eexists|]. intros fuel. cbn [Nat.add]. apply (pick_proc fuel c cn D n p Hc HD); [by rewrite Hl|done]. }
  (* The search goes on once [n] is marked. *)
  assert (Hnext : ∀ D1, D ⊆ D1 → n ∈ D1 → dead s D1 → explored c cn D1).
  { intros D1 Hsub Hn1 HD1. apply (IH (length (filter (.∉ D1) (inorder cn.(rq))))); [|done|done]. rewrite Hlen -Hl. by eapply filter_add_lt. }
  assert (Hgo : ∀ fuel, pick_next_r root (S fuel) k c (mark D s) =
    (if g.(node_cnt) =? 0 then set_skip n true ;; pick_next_r root fuel k c else pick_next_r root fuel k n) (mark D s)).
  { intros fuel. rewrite (pick_start fuel c cn D Hc HD) Hl. cbn [head]. cbv zeta. rewrite bool_decide_eq_false_2 // andb_false_r.
    rewrite (bind_Ok _ _ _ _ _ (info_container D s n g Hw Hg)). unfold marked at 1. rewrite decide_False // (w_cgroup s Hw n g Hg).
    cbn [negb]. by rewrite (bind_Ok _ _ _ _ _ (container_run D s n g Hg)) marked_cnt. }
  destruct (w_tree s Hw n g Hg) as (_ & _ & Hcnt & _). destruct (Z.eqb_spec g.(node_cnt) 0) as [E0|E0].
  - assert (Hnil : inorder g.(rq) = []) by (apply nil_length_inv; lia).
    apply (explored_step c cn D ({[n]} ∪ D)); [set_solver| |].
    + intros fuel. by rewrite Hgo (bind_Ok _ _ _ _ _ (set_skip_true D s n g Hw Hg)).
    + apply Hnext; [set_solver..|]. eapply dead_add; [done|done|done|exact Hg|]. rewrite Hnil. constructor.
  - assert (Heng : entered n g).
    { split; [done|right]. split; [by eapply below_child|]. intros Hnil. rewrite Hnil in Hcnt. done. }
    assert (n ≠ root). { intros ->. destruct (w_root s Hw) as (rc' & Hr & Hpar). rewrite Hr in Hg. injection Hg as <-. congruence. }
    destruct (IHm n g D) as (k0 & D1 & r & HsubD & HD1 & Hf & Hout); [pose proof (Hrank n g c Hg Hgp); lia|done|done|].
    destruct r as [p|].
    + destruct Hout as (c' & cn' & Hc' & Hp & Hpp & E). exists (S k0), D1, (Some p). split_and!; [done..| |].
      * apply (first_of_skip s D); [done|]. rewrite Hl. by eapply first_in.
      * exists c', cn'. split_and!; [done..|]. intros fuel. cbn [Nat.add]. by rewrite Hgo E.
    + destruct Hout as [_ Hout]. destruct (Hout ltac:(done)) as (Hn1 & up & Hup & E). rewrite Hgp in Hup. injection Hup as <-.
      destruct (Hnext D1 HsubD Hn1 HD1) as (k1 & D2 & r & HsubD2 & HD2 & Hf2 & Hout2).
      exists (S (k0 + k1)), D2, r. split; [set_solver|]. split; [done|]. split; [done|].
      assert (Hst : ∀ fuel, pick_next_r root (S (k0 + k1) + fuel) k c (mark D s) = pick_next_r root (k1 + fuel) k c (mark D1 s)).
      { intros fuel. cbn [Nat.add]. rewrite Hgo. rewrite -Nat.add_assoc. apply E. }
      destruct r as [p|].
      * destruct Hout2 as (c' & cn' & Hc' & Hp & Hpp & E2). exists c', cn'. split_and!; [done..|]. intros fuel. by rewrite Hst.
      * destruct Hout2 as [E1 E2]. split; [intros Hr fuel; rewrite Hst; by apply E1|]. intros Hr.
        destruct (E2 Hr) as (Hc2 & up & Hup2 & E3). split; [done|]. exists up. split; [done|]. intros fuel. by rewrite Hst.
Qed.
End explore.

(** *** Clearing the marks *)

(** [run], with enough fuel, clears the marks of the nodes [P], and maybe others. *)
Definition cleared s (run : nat → M kernel unit) (P : Z → Prop) : Prop :=
  ∃ f0 (V : gset Z), (∀ x, P x → x ∈ V) ∧
    ∀ D fuel, (f0 ≤ fuel)%nat → run fuel (mark D s) = Ok (tt, mark (D ∖ V) s).

(** What [_rb_fix_skip] does at a node besides clearing its own mark. *)
Definition fix_group (n : Z) (fuel : nat) : M kernel unit :=
  i ← get_info n; (if i.(group) then cn ← get_container n; _rb_fix_skip fuel cn.(rq) else mret tt).
Definition in_group s (n x : Z) : Prop := ∃ gc, s.(containers) !! n = Some gc ∧ below s (inorder gc.(rq)) x.

Lemma fix_skip_tree s t : wf s → noskip s → (∀ n, n ∈ inorder t → cleared s (fix_group n) (in_group s n)) →
  cleared s (λ fuel, _rb_fix_skip fuel t) (below s (inorder t)).
Proof.
  intros Hw Hs. induction t as [|cl l IHl n r IHr]; cbn [inorder]; intros Hn.
  - exists 1%nat, ∅. split; [intros x Hx; inversion Hx as [? ? Hx'|? ? ? ? Hx']; by apply not_elem_of_nil in Hx'|].
    intros D [|fuel] Hf; [lia|]. cbn. by rewrite difference_empty_L.
  - destruct (IHl ltac:(intros; apply Hn; set_solver)) as (f1 & V1 & HV1 & E1).
    destruct (IHr ltac:(intros; apply Hn; set_solver)) as (f2 & V2 & HV2 & E2).
    destruct (Hn n ltac:(set_solver)) as (f3 & V3 & HV3 & E3).
    exists (S (f1 + f2 + f3)), ({[n]} ∪ V1 ∪ V2 ∪ V3). split.
    + assert (Hx : ∀ y x, y ∈ inorder l ++ n :: inorder r → (x = y ∨ in_group s y x) → x ∈ {[n]} ∪ V1 ∪ V2 ∪ V3).
      { intros y x Hy Hyx. apply elem_of_app in Hy as [Hy|[->|Hy]%elem_of_cons].
        - assert (x ∈ V1); [|set_solver]. apply HV1. destruct Hyx as [->|(gc & Hg & Hb)]; [by apply below_here|by eapply below_in].
        - destruct Hyx as [->|Hyx]; [set_solver|]. apply HV3 in Hyx. set_solver.
        - assert (x ∈ V2); [|set_solver]. apply HV2. destruct Hyx as [->|(gc & Hg & Hb)]; [by apply below_here|by eapply below_in]. }
      intros x Hb. inversion Hb as [? ? Hin|? y gc ? Hin Hgc Hb']; subst; (eapply Hx; [exact Hin|]); [by left|right; by exists gc].
    + intros D [|fuel] Hf; [lia|]. cbn [_rb_fix_skip]. rewrite (bind_Ok _ _ _ _ _ (set_skip_false D s n Hw Hs)).
      specialize (E3 (D ∖ {[n]}) fuel ltac:(lia)). unfold fix_group in E3. apply bind_inv in E3 as (i & si & Ei & E3).
      rewrite (bind_Ok _ _ _ _ _ Ei) (bind_Ok _ _ _ _ _ E3) (bind_Ok _ _ _ _ _ (E1 _ fuel ltac:(lia))) E2; [|lia].
      do 3 f_equal. set_solver.
Qed.

Lemma fix_skip_spec s rank : wf s → noskip s →
  (∀ c cn up, s.(containers) !! c = Some cn → cn.(parent) = Some up → (rank c < rank up)%nat) →
  ∀ m n, node_ok s n → (is_Some (s.(containers) !! n) → (rank n < m)%nat) → cleared s (fix_group n) (in_group s n).
Proof.
  intros Hw Hs Hrank. induction m as [|m IHm]; intros n Hok Hrk; destruct Hok as [[p Hp]|[g Hg]].
  1,3: exists 0%nat, ∅; split; [intros x (gc & Hg & _); by rewrite (w_disjoint s Hw n) in Hg; [|rewrite Hp]|];
    intros D fuel _; unfold fix_group; rewrite (bind_Ok _ _ _ _ _ (info_proc _ s n p Hp)) (w_pgroup s Hw n p Hp) difference_empty_L //.
  { specialize (Hrk ltac:(by eexists)). lia. }
  destruct (fix_skip_tree s g.(rq) Hw Hs) as (f1 & V1 & HV1 & E1).
  - intros x Hx. destruct (w_queue s Hw n g x Hg Hx) as [(p & Hp & _)|(gx & Hgx & Hpx)]; apply IHm.
    + left. by eexists.
    + intros Hc. rewrite (w_disjoint s Hw x) in Hc; [by destruct Hc|by rewrite Hp].
    + right. by eexists.
    + intros _. specialize (Hrk ltac:(by eexists)). specialize (Hrank x gx n Hgx Hpx). lia.
  - exists f1, V1. split; [intros x (gc & Hg' & Hb); rewrite Hg in Hg'; injection Hg' as <-; by apply HV1|]. intros D fuel Hf.
    unfold fix_group. rewrite (bind_Ok _ _ _ _ _ (info_container _ s n g Hw Hg)).
    replace ((marked D n g).(cinfo).(group)) with true by (unfold marked; case_decide; cbn; by rewrite (w_cgroup s Hw n g Hg)).
    rewrite (bind_Ok _ _ _ _ _ (container_run _ s n g Hg)) marked_rq. by apply E1.
Qed.

(** *** Taking a process off its queue *)

Lemma erase_perm n t : rb_ok t → n ∈ inorder t → rb_ok (rb_erase n t) ∧ inorder t ≡ₚ n :: inorder (rb_erase n t) ∧
  sublist (inorder (rb_erase n t)) (inorder t).
Proof.
  intros Ht Hn. destruct (rb_erase_law n t Ht Hn) as (Hok & l1 & l2 & E & E'). split; [done|]. rewrite E E'. split.
  - by rewrite Permutation_middle.
  - apply sublist_app; [done|]. by apply sublist_cons.
Qed.

Lemma taken_containers c p cn s j : (taken c p cn s).(containers) !! j =
  if decide (j = c) then Some (with_queue (rb_erase p cn.(rq)) (cn.(node_cnt) - 1) cn) else s.(containers) !! j.
Proof. cbn. case_decide; [subst; apply lookup_insert_eq|by apply lookup_insert_ne]. Qed.

Lemma wf_taken c p cn s : wf s → s.(containers) !! c = Some cn → p ∈ inorder cn.(rq) → wf (taken c p cn s).
Proof.
  intros Hw Hc Hp. pose proof (w_tree s Hw c cn Hc) as (Hok & Hnd & Hcnt & Hlt).
  destruct (erase_perm p cn.(rq) Hok Hp) as (Hok' & Hperm & Hsub). destruct (w_rank s Hw) as [rank Hrank].
  assert (Hold : ∀ j x, (taken c p cn s).(containers) !! j = Some x → ∃ y, s.(containers) !! j = Some y ∧
    x.(parent) = y.(parent) ∧ x.(cinfo) = y.(cinfo) ∧ (∀ n, n ∈ inorder x.(rq) → n ∈ inorder y.(rq))).
  { intros j x. rewrite taken_containers. case_decide; [|by eauto]. subst. intros [= <-]. exists cn. split_and!; [done..|].
    intros n. cbn. rewrite Hperm elem_of_cons. by right. }
  assert (Hsome : ∀ j, is_Some (s.(containers) !! j) → is_Some ((taken c p cn s).(containers) !! j)).
  { intros j. rewrite taken_containers. case_decide; [by eexists|done]. }
  split.
  - intros n Hn. rewrite taken_containers. case_decide; [|by apply (w_disjoint s Hw)]. subst. by rewrite (w_disjoint s Hw c Hn) in Hc.
  - apply (w_pgroup s Hw).
  - intros n g (y & Hy & _ & E & _)%Hold. rewrite E. by eapply (w_cgroup s Hw).
  - intros j x. rewrite taken_containers. case_decide; [|by apply (w_tree s Hw)]. subst. intros [= <-]. cbn. split; [done|].
    split; [by eapply sublist_NoDup|]. apply Permutation_length in Hperm. cbn in Hperm. lia.
  - intros j x n (y & Hy & _ & _ & Hin)%Hold Hn. destruct (w_queue s Hw j y n Hy (Hin n Hn)) as [(q & Hq)|(g & Hg & Hpar)]; [left; by exists q|right].
    destruct (Hsome n ltac:(by eexists)) as [x' Hx']. exists x'. split; [done|].
    destruct (Hold n x' Hx') as (y' & Hy' & E & _). rewrite E. by rewrite Hg in Hy'; injection Hy' as <-.
  - destruct (w_root s Hw) as (r & Hr & Hpar). destruct (Hsome root ltac:(by eexists)) as [x Hx]. exists x. split; [done|].
    destruct (Hold root x Hx) as (y & Hy & E & _). by rewrite E; rewrite Hr in Hy; injection Hy as <-.
  - intros j x (y & Hy & E & _)%Hold Hne. destruct (w_parent s Hw j y Hy Hne) as (up & Hup & Hs). exists up. split; [congruence|by apply Hsome].
  - exists rank. intros j x up (y & Hy & E & _)%Hold Hup. eapply Hrank; [done|congruence].
Qed.

Lemma noskip_taken c p cn s : noskip s → wf s → s.(containers) !! c = Some cn → noskip (taken c p cn s).
Proof.
  intros Hs Hw Hc n i. unfold info_of. change (procs (taken c p cn s)) with (procs s). rewrite taken_containers.
  intros Hi. apply (Hs n). unfold info_of. destruct (s.(procs) !! n); [done|]. case_decide; [|done]. subst. by rewrite Hc.
Qed.

(** The groups the search could meet are still there. *)
Lemma below_taken c p cn s l l' g gc : wf s → s.(containers) !! c = Some cn → p ∈ inorder cn.(rq) → is_Some (s.(procs) !! p) →
  (∀ n, n ∈ l → n ≠ p → n ∈ l') → s.(containers) !! g = Some gc → below s l g → below (taken c p cn s) l' g.
Proof.
  intros Hw Hc Hp Hpp Hl Hg Hb. revert l' Hl. induction Hb as [l n Hn|l x xc n Hx Hxc Hb IH]; intros l' Hl.
  - apply below_here, Hl; [done|]. intros ->. by rewrite (w_disjoint s Hw p Hpp) in Hg.
  - assert (Hne : x ≠ p) by (intros ->; by rewrite (w_disjoint s Hw p Hpp) in Hxc).
    destruct (decide (x = c)) as [->|Hxne].
    + rewrite Hc in Hxc. injection Hxc as <-. eapply below_in; [by apply Hl| |].
      * rewrite taken_containers decide_True //.
      * apply IH; [done|]. intros y Hy Hyp. cbn. destruct (w_tree s Hw c cn Hc) as (Hok & _).
        destruct (erase_perm p cn.(rq) Hok Hp) as (_ & Hperm & _). rewrite Hperm in Hy. by apply elem_of_cons in Hy as [?|?].
    + eapply below_in; [by apply Hl|by rewrite taken_containers decide_False|]. by apply IH.
Qed.

(** *** [pick_next] *)

(** [_rb_fix_skip] at the root clears every mark a search can leave. *)
Lemma fix_marks s rc D : wf s → noskip s → s.(containers) !! root = Some rc → (∀ g, g ∈ D → below s (inorder rc.(rq)) g) →
  ∃ f0, ∀ fuel, (f0 ≤ fuel)%nat → _rb_fix_skip fuel rc.(rq) (mark D s) = Ok (tt, s).
Proof.
  intros Hw Hs Hr HD. destruct (w_rank s Hw) as [rank Hrank].
  destruct (fix_skip_tree s rc.(rq) Hw Hs) as (f0 & V & HV & E).
  - intros n Hn. apply (fix_skip_spec s rank Hw Hs Hrank (S (rank n))); [|lia].
    destruct (w_queue s Hw root rc n Hr Hn) as [(p & Hp & _)|(g & Hg & _)]; [left|right]; by eexists.
  - exists f0. intros fuel Hf. rewrite E //. replace (D ∖ V) with (∅ : gset Z); [by rewrite mark_empty|]. set_solver.
Qed.

(** What a processor takes: the process found, off its queue, or its idle process. *)
Definition chosen s (cp : cpu) (r : option Z) (p : Z) s' : Prop :=
  match r with
  | Some n => p = n ∧ ∃ c cn, s.(containers) !! c = Some cn ∧ n ∈ inorder cn.(rq) ∧ is_Some (s.(procs) !! n) ∧ s' = taken c n cn s
  | None => p = cp.(idle_proc) ∧ s' = s
  end.

Lemma pick_next_spec s k cp rc : wf s → noskip s → s.(panic_flag) = false → s.(cpus) !! k = Some cp →
  s.(containers) !! root = Some rc →
  ∃ r p s' f0, first_of s (inorder rc.(rq)) r ∧ chosen s cp r p s' ∧
    ∀ fuel, (f0 ≤ fuel)%nat → pick_next root fuel k s = Ok (p, s').
Proof.
  intros Hw Hs Hp Hk Hr. destruct (w_rank s Hw) as [rank Hrank].
  destruct (explore s k cp rc Hw Hs Hp Hk Hr rank Hrank (S (rank root)) root rc ∅) as (k0 & D & r & _ & HD & Hf & Hout);
    [lia|split; [done|by left]|by intros g ?%elem_of_empty|].
  assert (HD' : ∀ g, g ∈ D → ∃ gc, s.(containers) !! g = Some gc ∧ below s (inorder rc.(rq)) g).
  { intros g (gc & rc' & Hg & _ & Hr' & Hb)%HD. rewrite Hr in Hr'. injection Hr' as <-. by exists gc. }
  assert (Hrun : ∀ fuel x s1 rc1, (k0 ≤ fuel)%nat → (∀ f, pick_next_r root (k0 + f) k root (mark ∅ s) = Ok (x, mark D s1)) →
    s1.(containers) !! root = Some rc1 → _rb_fix_skip fuel rc1.(rq) (mark D s1) = Ok (tt, s1) →
    pick_next root fuel k s = Ok (x, s1)).
  { intros fuel x s1 rc1 Hle E Hr1 Efix. unfold pick_next. specialize (E (fuel - k0)%nat).
    replace (k0 + (fuel - k0))%nat with fuel in E by lia. rewrite mark_empty in E.
    by rewrite (bind_Ok _ _ _ _ _ E) (bind_Ok _ _ _ _ _ (container_run D s1 root rc1 Hr1)) marked_rq (bind_Ok _ _ _ _ _ Efix). }
  destruct r as [p|].
  - destruct Hout as (c & cn & Hc & Hin & Hpp & E). set (s1 := taken c p cn s).
    assert (Hr1 : ∃ rc1, s1.(containers) !! root = Some rc1 ∧ ∀ n, n ∈ inorder rc.(rq) → n ≠ p → n ∈ inorder rc1.(rq)).
    { unfold s1. rewrite taken_containers. case_decide as Hrc; [|by exists rc]. subst c. rewrite Hr in Hc. injection Hc as <-.
      eexists. split; [done|]. intros n Hn Hnp. cbn. destruct (w_tree s Hw root rc Hr) as (Hok & _).
      destruct (erase_perm p rc.(rq) Hok Hin) as (_ & Hperm & _). rewrite Hperm in Hn. by apply elem_of_cons in Hn as [?|?]. }
    destruct Hr1 as (rc1 & Hr1 & Hsub).
    destruct (fix_marks s1 rc1 D) as [f1 Hfix]; [by apply wf_taken|by apply noskip_taken|done| |].
    { intros g (gc & Hg & Hb)%HD'. by eapply below_taken. }
    exists (Some p), p, s1, (k0 + f1)%nat. split_and!; [done|split; [done|by exists c, cn]|].
    intros fuel Hle. apply (Hrun fuel p s1 rc1); [lia|done|done|]. apply Hfix. lia.
  - destruct Hout as [E _]. destruct (fix_marks s rc D Hw Hs Hr) as [f1 Hfix]; [by intros g (gc & _ & Hb)%HD'|].
    exists None, cp.(idle_proc), s, (k0 + f1)%nat. split_and!; [done..|].
    intros fuel Hle. apply (Hrun fuel _ s rc); [lia|by apply E|done|]. apply Hfix. lia.
Qed.

Lemma first_of_det s l r1 r2 : wf s → first_of s l r1 → first_of s l r2 → r1 = r2.
Proof.
  intros Hw H1. revert r2. assert (Hno : ∀ n p g, s.(procs) !! n = Some p → s.(containers) !! n = Some g → False).
  { intros n p g Hp Hg. by rewrite (w_disjoint s Hw n) in Hg; [|rewrite Hp]. }
  induction H1 as [|n l p Hp|n l g x Hg H1 IH|n l g r Hg H1 IH1 H2 IH2]; intros r2 Hr; inversion Hr; subst;
    try done; try (exfalso; by eapply Hno); simplify_eq; auto;
    match goal with H : first_of _ (inorder _) _ |- _ => solve [by apply IH in H|by apply IH1 in H] end.
Qed.
End queues.
