(* ===== verification/SchedInv.v ===== *)
(** * The states of the scheduler

    What [Sched.v]'s operations keep true, over any sequence of activations,
    calls of [_sched] on any processor, kills and re-uses of processes: no
    [ASSERT] fails, every call returns, no process is current on two
    processors, and the processes waiting in the queues are exactly the
    runnable ones.  All the addresses that ever hold a process or a container
    are in the maps from the start, a process not in use being [UNUSED]. *)

From stdpp Require Import sorting.
From iris.prelude Require Import prelude.
From S2P Require Import Prelude RbTree RbQueue Sched.
#[local] Open Scope Z_scope.

(** ** Events *)

Section events.
Context `{RbOps}.
Context (root root_proc : Z).
Implicit Types s : kernel.

Inductive event : Type :=
| Activate (p : Z) (onalert : bool)
| Group (g : Z)
| Resched (k : nat) (now : Z) (new_state : procstate)
| Kill (p : Z)
| Fresh (p c id : Z)
| Panic.

(** [kill] sets the flag, and [init_proc] fills in a process, which its creator puts in container [c]. *)
Definition run (fuel : nat) (e : event) : M kernel unit :=
  match e with
  | Activate p onalert => _ ← _activate_proc p onalert; mret tt
  | Group g => activate_group g
  | Resched k now st => simple_sched root root_proc fuel k now st
  | Kill p => upd_proc p (λ x, mkProc true x.(idle) x.(pid) x.(state) x.(container_of_proc) x.(pinfo))
  | Fresh p c id => upd_proc p (λ _, mkProc false false id UNUSED c (init_schinfo false))
  | Panic => modify (λ s, mkKernel s.(procs) s.(containers) s.(cpus) true)
  end.

(** The virtual runtimes have room for [delta] more. *)
Definition room s (delta : Z) : Prop := 0 ≤ delta ∧ ∀ n, key s n + delta < 2 ^ 63.

(** When the callers make these calls: a group is activated once, an idle
    process only yields, a process that has not been waited for is not re-used. *)
Definition enabled s (e : event) : Prop :=
  match e with
  | Activate p _ => ∃ x, s.(procs) !! p = Some x ∧ x.(idle) = false
  | Group g => ∃ gc up un, s.(containers) !! g = Some gc ∧ gc.(parent) = Some up ∧ s.(containers) !! up = Some un ∧ g ∉ inorder un.(rq)
  | Resched k now st => st ≠ RUNNING ∧ ∃ cp x, s.(cpus) !! k = Some cp ∧ s.(procs) !! cp.(thisproc) = Some x ∧
      (x.(idle) = true → st = RUNNABLE) ∧ room s (now - x.(pinfo).(start_time))
  | Kill _ | Panic => True
  | Fresh p c _ => ∃ x, s.(procs) !! p = Some x ∧ x.(idle) = false ∧ (x.(state) = UNUSED ∨ x.(state) = ZOMBIE) ∧ is_Some (s.(containers) !! c)
  end.

Definition runs_to (e : event) s s' : Prop := ∃ f0, ∀ fuel, (f0 ≤ fuel)%nat → run fuel e s = Ok (tt, s').

Inductive reach s0 : kernel → Prop :=
| reach_start : reach s0 s0
| reach_step s e s' : reach s0 s → enabled s e → runs_to e s s' → reach s0 s'.

(** Before the first activation: empty queues, each processor in its idle process. *)
Record initial s : Prop := {
  n_wf : wf root s;
  n_size : Z.of_nat (size s.(procs) + size s.(containers)) < 2 ^ 31;
  n_queues : ∀ c cn, s.(containers) !! c = Some cn → cn.(rq) = Leaf ∧ cn.(cinfo) = init_schinfo true ∧ 0 ≤ cn.(id) < 5;
  n_procs : ∀ p x, s.(procs) !! p = Some x → x.(pinfo) = init_schinfo false ∧
    (x.(idle) = false → x.(state) = UNUSED ∧ is_Some (s.(containers) !! x.(container_of_proc)));
  n_cpus : ∀ k cp, s.(cpus) !! k = Some cp → cp.(thisproc) = cp.(idle_proc) ∧
    ∃ x, s.(procs) !! cp.(idle_proc) = Some x ∧ x.(idle) = true ∧ x.(state) = RUNNING;
  n_idle : ∀ p x, s.(procs) !! p = Some x → x.(idle) = true → ∃ k cp, s.(cpus) !! k = Some cp ∧ cp.(idle_proc) = p;
  n_once : ∀ j k cj ck, s.(cpus) !! j = Some cj → s.(cpus) !! k = Some ck → cj.(idle_proc) = ck.(idle_proc) → j = k;
}.

(** ** Queues in order *)

Definition ordered s (l : list Z) : Prop := key_sorted (key s) l.
Definition home s (c n : Z) : Prop :=
  (∃ p, s.(procs) !! n = Some p ∧ p.(container_of_proc) = c) ∨ (∃ g, s.(containers) !! n = Some g ∧ g.(parent) = Some c).
Record in_order s : Prop := {
  o_wf : wf root s;
  o_noskip : noskip s;
  o_keyed : key_range (key s);
  o_sorted : ∀ c cn, s.(containers) !! c = Some cn → ordered s (inorder cn.(rq));
  o_size : Z.of_nat (size s.(procs) + size s.(containers)) < 2 ^ 31;
}.

Lemma cmp_lex s x y : key_range (key s) →
  __sched_cmp s x y = true ↔ key s x < key s y ∨ key s x = key s y ∧ x < y.
Proof. apply by_key_lex. Qed.

(** Fewer elements than processes and containers. *)
Lemma queue_length s c l : NoDup l → (∀ n, n ∈ l → home s c n) → (length l ≤ size s.(procs) + size s.(containers))%nat.
Proof.
  intros Hnd Hl. rewrite -(size_dom s.(procs)) -(size_dom s.(containers)).
  assert (Hu : (size (dom s.(procs) ∪ dom s.(containers)) ≤ size (dom s.(procs)) + size (dom s.(containers)))%nat).
  { rewrite size_union_alt. apply Nat.add_le_mono_l, subseteq_size. set_solver. }
  etrans; [|exact Hu]. rewrite -(size_list_to_set (C := gset Z) l Hnd). apply subseteq_size.
  intros n Hn%elem_of_list_to_set. destruct (Hl n Hn) as [(p & Hp & _)|(g & Hg & _)]; apply elem_of_union; [left|right]; apply elem_of_dom; by eexists.
Qed.

(** *** What the operations leave alone *)

Definition pcore (p : proc) : bool * bool * bool := (p.(idle), p.(pinfo).(group), p.(pinfo).(skip)).
Definition ccore (c : container) : option Z * bool * bool * Z := (c.(parent), c.(cinfo).(group), c.(cinfo).(skip), c.(id)).
Record evolves s s' : Prop := {
  e_procs : ∀ n, pcore <$> s'.(procs) !! n = pcore <$> s.(procs) !! n;
  e_containers : ∀ n, ccore <$> s'.(containers) !! n = ccore <$> s.(containers) !! n;
  e_cpus : s'.(cpus) = s.(cpus);
}.

Lemma evolves_proc s s' n p : evolves s s' → s'.(procs) !! n = Some p → ∃ q, s.(procs) !! n = Some q ∧ pcore p = pcore q.
Proof. intros He. apply fmap_eq_Some, He. Qed.
Lemma evolves_container s s' n c : evolves s s' → s'.(containers) !! n = Some c → ∃ d, s.(containers) !! n = Some d ∧ ccore c = ccore d.
Proof. intros He. apply fmap_eq_Some, He. Qed.
#[global] Instance evolves_preorder : PreOrder evolves.
Proof. split; [by split|]. intros s1 s2 s3 [A B C] [A' B' C']. split; [intros n; by rewrite A'|intros n; by rewrite B'|congruence]. Qed.
Lemma evolves_back s s' : evolves s s' → evolves s' s.
Proof. intros [A B C]. split; [intros n; by rewrite A|intros n; by rewrite B|congruence]. Qed.

Lemma home_evolves s s' c n : evolves s s' → container_of_proc <$> s'.(procs) !! n = container_of_proc <$> s.(procs) !! n →
  home s c n → home s' c n.
Proof.
  intros He%evolves_back Hn [(p & Hp & Hc)|(g & Hg & Hc)]; [left|right].
  - rewrite Hp in Hn. destruct (s'.(procs) !! n) as [q|]; [|done]. injection Hn as E. exists q. split; [done|congruence].
  - destruct (evolves_container _ _ n g He Hg) as (h & Hh & E). exists h. split; [done|]. unfold ccore in E. congruence.
Qed.

(** The order of the queues only depends on what an operation does to them. *)
Lemma in_order_next s s' : in_order s → evolves s s' → (∀ n, 0 ≤ key s' n < 2 ^ 63) →
  (∀ c cn, s'.(containers) !! c = Some cn → rb_ok cn.(rq) ∧ ordered s' (inorder cn.(rq)) ∧
    cn.(node_cnt) = Z.of_nat (length (inorder cn.(rq))) ∧ ∀ n, n ∈ inorder cn.(rq) → home s' c n) →
  in_order s'.
Proof.
  intros [Hw Hs _ _ Hsz] He Hk Hq.
  assert (Hsz' : Z.of_nat (size s'.(procs) + size s'.(containers)) < 2 ^ 31).
  { by rewrite (size_same pcore _ s.(procs) (e_procs _ _ He)) (size_same ccore _ s.(containers) (e_containers _ _ He)). }
  split; [|intros n i|done|by intros c cn (_ & ? & _)%Hq|done].
  - split.
    + intros n [p Hp]. destruct (s'.(containers) !! n) as [c|] eqn:Hc; [|done].
      destruct (evolves_proc _ _ _ _ He Hp) as (q & Hq' & _). destruct (evolves_container _ _ _ _ He Hc) as (d & Hd & _).
      by rewrite (w_disjoint _ _ Hw n) in Hd; [|rewrite Hq'].
    + intros n p Hp. destruct (evolves_proc _ _ _ _ He Hp) as (q & Hq' & E). unfold pcore in E. pose proof (w_pgroup _ _ Hw n q Hq'). congruence.
    + intros n g Hg. destruct (evolves_container _ _ _ _ He Hg) as (d & Hd & E). unfold ccore in E. pose proof (w_cgroup _ _ Hw n d Hd). congruence.
    + intros c cn Hc. destruct (Hq c cn Hc) as (Hok & Ho & Hcnt & Hn). split; [done|]. split; [by eapply key_sorted_nodup|]. split; [done|].
      pose proof (queue_length s' c _ (key_sorted_nodup (key s') _ Hk Ho) Hn). lia.
    + intros c cn n Hc Hn. by apply (Hq c cn Hc).
    + destruct (w_root _ _ Hw) as (cn & Hc & Hp). destruct (evolves_container _ _ root cn (evolves_back _ _ He) Hc) as (d & Hd & E).
      exists d. split; [done|]. unfold ccore in E. congruence.
    + intros c cn Hc Hne. destruct (evolves_container _ _ _ _ He Hc) as (d & Hd & E). destruct (w_parent _ _ Hw c d Hd Hne) as (up & Hup & [u Hu]).
      exists up. unfold ccore in E. split; [congruence|]. destruct (evolves_container _ _ up u (evolves_back _ _ He) Hu) as (u' & Hu' & _). by rewrite Hu'.
    + destruct (w_rank _ _ Hw) as [rank Hr]. exists rank. intros c cn up Hc Hup. destruct (evolves_container _ _ _ _ He Hc) as (d & Hd & E).
      unfold ccore in E. apply (Hr c d up Hd). congruence.
  - unfold info_of. destruct (s'.(procs) !! n) as [p|] eqn:Hp.
    + intros [= <-]. destruct (evolves_proc _ _ _ _ He Hp) as (q & Hq' & E). pose proof (noskip_proc s n q Hs Hq'). unfold pcore in E. congruence.
    + destruct (s'.(containers) !! n) as [c|] eqn:Hc; [|done]. intros [= <-]. destruct (evolves_container _ _ _ _ He Hc) as (d & Hd & E).
      pose proof (noskip_container root s n d Hw Hs Hd). unfold ccore in E. congruence.
Qed.

(** Every way the operations below change a state: processes and containers
    updated in place. *)
Definition put (c : Z) (cn : container) s : kernel := set_containers (<[c := cn]> s.(containers)) s.
Definition putp (p : Z) (x : proc) s : kernel := set_procs (<[p := x]> s.(procs)) s.

Lemma put_lookup c cn s j : (put c cn s).(containers) !! j = if decide (j = c) then Some cn else s.(containers) !! j.
Proof. cbn. case_decide; [subst; apply lookup_insert_eq|by apply lookup_insert_ne]. Qed.
Lemma putp_lookup p x s j : (putp p x s).(procs) !! j = if decide (j = p) then Some x else s.(procs) !! j.
Proof. cbn. case_decide; [subst; apply lookup_insert_eq|by apply lookup_insert_ne]. Qed.

Lemma evolves_put c cn cn' s : s.(containers) !! c = Some cn → ccore cn' = ccore cn → evolves s (put c cn' s).
Proof. intros Hc E. split; [done| |done]. intros n. rewrite put_lookup. case_decide; [|done]. subst. rewrite Hc. cbn. by rewrite E. Qed.
Lemma evolves_putp p x x' s : s.(procs) !! p = Some x → pcore x' = pcore x → evolves s (putp p x' s).
Proof. intros Hp E. split; [|done..]. intros n. rewrite putp_lookup. case_decide; [|done]. subst. rewrite Hp. cbn. by rewrite E. Qed.

Lemma key_proc s n p : s.(procs) !! n = Some p → key s n = p.(pinfo).(vruntime).
Proof. intros Hp. unfold key, info_of. by rewrite Hp. Qed.
Lemma key_container s n c : wf root s → s.(containers) !! n = Some c → key s n = c.(cinfo).(vruntime).
Proof.
  intros Hw Hc. unfold key, info_of. rewrite Hc. destruct (s.(procs) !! n) eqn:E; [|done].
  by rewrite (w_disjoint _ _ Hw n) in Hc; [|rewrite E].
Qed.
Lemma key_put s c cn n : n ≠ c → key (put c cn s) n = key s n.
Proof. intros Hn. unfold key, info_of. rewrite put_lookup decide_False //. Qed.
Lemma key_put_same s c cn cn' n : s.(containers) !! c = Some cn → cn'.(cinfo).(vruntime) = cn.(cinfo).(vruntime) → key (put c cn' s) n = key s n.
Proof.
  intros Hc E. destruct (decide (n = c)) as [->|]; [|by apply key_put]. unfold key, info_of. rewrite put_lookup decide_True //.
  cbn [procs put set_containers]. destruct (s.(procs) !! c); [done|]. rewrite Hc. cbn. done.
Qed.
Lemma key_putp s p x n : n ≠ p → key (putp p x s) n = key s n.
Proof. intros Hn. unfold key, info_of. rewrite putp_lookup decide_False //. Qed.
Lemma key_putp_eq s p x : key (putp p x s) p = x.(pinfo).(vruntime).
Proof. unfold key, info_of. rewrite putp_lookup decide_True //. Qed.

(** One queue changes. *)
Lemma in_order_queue s c cn t d : in_order s → s.(containers) !! c = Some cn → rb_ok t → ordered s (inorder t) →
  d = Z.of_nat (length (inorder t)) → (∀ n, n ∈ inorder t → home s c n) → in_order (put c (with_queue t d cn) s).
Proof.
  intros Ho Hc Ht Hs Hd Hh. assert (He : evolves s (put c (with_queue t d cn) s)) by by eapply evolves_put.
  assert (Hk : ∀ n, key (put c (with_queue t d cn) s) n = key s n) by (intros n; by eapply key_put_same).
  apply (in_order_next s); [done|done|intros n; rewrite Hk; apply Ho|]. intros j x. rewrite put_lookup.
  case_decide as E; intros Hx; [subst; injection Hx as <-|].
  - cbn. split_and!; [done|eapply key_sorted_same; [intros y _; by rewrite Hk|exact Hs]|done|]. intros n Hn. apply (home_evolves s); [done|done|by apply Hh].
  - destruct (w_tree _ _ (o_wf _ Ho) j x Hx) as (Hok & _ & Hcnt & _). split_and!; [done| |done|].
    + eapply key_sorted_same; [intros y _; by rewrite Hk|by eapply (o_sorted _ Ho)].
    + intros n Hn. apply (home_evolves s); [done|done|]. by apply (w_queue _ _ (o_wf _ Ho) j x).
Qed.

(** Something outside the queues changes. *)
Definition nowhere s (n : Z) : Prop := ∀ c cn, s.(containers) !! c = Some cn → n ∉ inorder cn.(rq).
Lemma in_order_key s c cn v : in_order s → s.(containers) !! c = Some cn → nowhere s c → 0 ≤ v < 2 ^ 63 →
  in_order (put c (with_cinfo (with_vruntime v cn.(cinfo)) cn) s).
Proof.
  intros Ho Hc Hno Hv. set (cn' := with_cinfo _ cn). assert (He : evolves s (put c cn' s)) by by eapply evolves_put.
  pose proof (o_wf _ Ho) as Hw.
  apply (in_order_next s); [done|done| |].
  - intros n. destruct (decide (n = c)) as [->|]; [|rewrite key_put //; apply Ho]. unfold key, info_of. rewrite put_lookup decide_True //.
    cbn [procs put set_containers]. destruct (s.(procs) !! c) eqn:E; [|done]. by rewrite (w_disjoint _ _ Hw c) in Hc; [|rewrite E].
  - intros j x. rewrite put_lookup. intros Hx.
    assert (Hx' : ∃ y, s.(containers) !! j = Some y ∧ x.(rq) = y.(rq) ∧ x.(node_cnt) = y.(node_cnt)).
    { case_decide; [subst; injection Hx as <-; by exists cn|by exists x]. }
    destruct Hx' as (y & Hy & -> & ->). destruct (w_tree _ _ Hw j y Hy) as (Hok & _ & Hcnt & _). split_and!; [done| |done|].
    + eapply key_sorted_same; [|by eapply (o_sorted _ Ho)]. intros n Hn. rewrite key_put //. intros ->. by apply (Hno j y).
    + intros n Hn. apply (home_evolves s); [done|done|]. by apply (w_queue _ _ Hw j y).
Qed.
Lemma in_order_proc s p x x' : in_order s → s.(procs) !! p = Some x → pcore x' = pcore x → 0 ≤ x'.(pinfo).(vruntime) < 2 ^ 63 →
  (nowhere s p ∨ x'.(pinfo).(vruntime) = x.(pinfo).(vruntime) ∧ x'.(container_of_proc) = x.(container_of_proc)) →
  in_order (putp p x' s).
Proof.
  intros Ho Hp Hc Hv Hno. assert (He : evolves s (putp p x' s)) by by eapply evolves_putp. pose proof (o_wf _ Ho) as Hw.
  apply (in_order_next s); [done|done| |].
  - intros n. destruct (decide (n = p)) as [->|]; [by rewrite key_putp_eq|rewrite key_putp //; apply Ho].
  - intros j y Hy. destruct (w_tree _ _ Hw j y Hy) as (Hok & _ & Hcnt & _).
    assert (Hin : ∀ n, n ∈ inorder y.(rq) → n ≠ p ∨ x'.(pinfo).(vruntime) = x.(pinfo).(vruntime) ∧ x'.(container_of_proc) = x.(container_of_proc)).
    { intros n Hn. destruct (decide (n = p)) as [->|]; [|by left]. destruct Hno as [Hno|?]; [by destruct (Hno j y Hy)|by right]. }
    split_and!; [done| |done|].
    + eapply key_sorted_same; [|by eapply (o_sorted _ Ho)]. intros n Hn. destruct (decide (n = p)) as [->|]; [|by rewrite key_putp].
      rewrite key_putp_eq (key_proc s p x Hp). by destruct (Hin p Hn) as [?|[-> _]].
    + intros n Hn. apply (home_evolves s); [done| |by apply (w_queue _ _ Hw j y)]. rewrite putp_lookup. case_decide; [|done]. subst. rewrite Hp. cbn.
      by destruct (Hin p Hn) as [?|[_ ->]].
Qed.

(** ** Operations on one queue *)

Lemma procs_run s p x : s.(procs) !! p = Some x → get_proc p s = Ok (x, s).
Proof. intros Hp. unfold get_proc. by rewrite (bind_Ok _ _ s s.(procs) s) // Hp. Qed.
Lemma containers_run s c cn : s.(containers) !! c = Some cn → get_container c s = Ok (cn, s).
Proof. intros Hc. unfold get_container. by rewrite (bind_Ok _ _ s s.(containers) s) // Hc. Qed.
Lemma cpus_run s k cp : s.(cpus) !! k = Some cp → get_cpu k s = Ok (cp, s).
Proof. intros Hk. unfold get_cpu. by rewrite (bind_Ok _ _ s s.(cpus) s) // Hk. Qed.
Lemma upd_container_run s c cn f : s.(containers) !! c = Some cn → upd_container c f s = Ok (tt, put c (f cn) s).
Proof. intros Hc. unfold upd_container, modify, put. by rewrite (alter_run _ _ c cn). Qed.
Lemma upd_proc_run s p x f : s.(procs) !! p = Some x → upd_proc p f s = Ok (tt, putp p (f x) s).
Proof. intros Hp. unfold upd_proc, modify, putp. by rewrite (alter_run _ _ p x). Qed.
Lemma put_put c x y s : put c x (put c y s) = put c x s.
Proof. unfold put, set_containers. cbn. by rewrite insert_insert_eq. Qed.
Lemma put_swap c d x y s : c ≠ d → put c x (put d y s) = put d y (put c x s).
Proof. intros Hne. unfold put, set_containers. cbn. by rewrite insert_insert_ne. Qed.
Lemma put_eq c x s : (put c x s).(containers) !! c = Some x.
Proof. by rewrite put_lookup decide_True. Qed.
Lemma put_ne c x s d : d ≠ c → (put c x s).(containers) !! d = s.(containers) !! d.
Proof. intros Hne. by rewrite put_lookup decide_False. Qed.

Lemma enqueue_spec s n c cn : s.(containers) !! c = Some cn → rb_ok cn.(rq) → ordered s (inorder cn.(rq)) →
  key_range (key s) → n ∉ inorder cn.(rq) →
  ∃ t, enqueue n c s = Ok (tt, put c (with_queue t cn.(node_cnt) cn) s) ∧ rb_ok t ∧ ordered s (inorder t) ∧
    inorder t ≡ₚ n :: inorder cn.(rq).
Proof.
  intros Hc Hok Ho Hk Hn. unfold enqueue. rewrite (bind_Ok _ _ _ _ _ (containers_run s c cn Hc)).
  rewrite (bind_Ok _ _ s (__sched_cmp s) s) //.
  destruct (rb_insert_key (key s) n cn.(rq) Hk Hok Ho Hn) as (t & E & Ht). exists t. split; [|done].
  change (__sched_cmp s) with (by_key (key s)). by rewrite E (upd_container_run s c cn).
Qed.

(** A node joins a queue, and is counted. *)
Lemma join_spec s n c cn : in_order s → s.(containers) !! c = Some cn → home s c n → n ∉ inorder cn.(rq) →
  ∃ s1 t, enqueue n c s = Ok (tt, s1) ∧ count c 1 s1 = Ok (tt, put c (with_queue t (cn.(node_cnt) + 1) cn) s) ∧
    in_order (put c (with_queue t (cn.(node_cnt) + 1) cn) s) ∧ inorder t ≡ₚ n :: inorder cn.(rq).
Proof.
  intros Ho Hc Hh Hn. destruct (w_tree _ _ (o_wf _ Ho) c cn Hc) as (Hok & _ & Hcnt & _).
  destruct (enqueue_spec s n c cn) as (t & E & Ht & Hs & Hp); [done..|by apply (o_sorted _ Ho c)|apply Ho|done|].
  assert (Hlen : length (inorder t) = S (length (inorder cn.(rq)))) by (by rewrite Hp).
  assert (Hhome : ∀ m, m ∈ inorder t → home s c m).
  { intros m. rewrite Hp elem_of_cons. intros [->|Hm]; [done|]. by apply (w_queue _ _ (o_wf _ Ho) c cn). }
  assert (Hnd : NoDup (inorder t)) by (eapply key_sorted_nodup; [apply Ho|done]).
  pose proof (queue_length s c _ Hnd Hhome) as Hlt. pose proof (o_size _ Ho).
  eexists _, t. split; [exact E|]. split; [|split; [|done]].
  - unfold count. erewrite upd_container_run by apply put_eq. cbn. rewrite put_put i32_small //. lia.
  - apply in_order_queue; [done..|lia|done].
Qed.

Lemma home_unique s i j n : wf root s → home s i n → home s j n → i = j.
Proof.
  intros Hw [(p & Hp & Hi)|(g & Hg & Hi)] [(q & Hq & Hj)|(h & Hh & Hj)]; simplify_eq; try done; exfalso.
  - by rewrite (w_disjoint _ _ Hw n) in Hh; [|rewrite Hp].
  - by rewrite (w_disjoint _ _ Hw n) in Hg; [|rewrite Hq].
Qed.

(** A node leaves its queue. *)
Lemma leave_spec s n c cn : in_order s → s.(containers) !! c = Some cn → n ∈ inorder cn.(rq) →
  let s' := put c (with_queue (rb_erase n cn.(rq)) (cn.(node_cnt) - 1) cn) s in
  in_order s' ∧ nowhere s' n ∧ rb_ok (rb_erase n cn.(rq)) ∧ inorder cn.(rq) ≡ₚ n :: inorder (rb_erase n cn.(rq)).
Proof.
  intros Ho Hc Hin. cbv zeta. pose proof (o_wf _ Ho) as Hw. destruct (w_tree _ _ Hw c cn Hc) as (Hok & Hnd & Hcnt & _).
  destruct (erase_perm n cn.(rq) Hok Hin) as (Hok' & Hp & Hsub). split; [|split; [|done]].
  - apply in_order_queue; [done..| | |].
    + eapply key_sorted_sublist; [done|]. by apply (o_sorted _ Ho c).
    + apply Permutation_length in Hp. cbn in Hp. lia.
    + intros m Hm. apply (w_queue _ _ Hw c cn m Hc). rewrite Hp. by right.
  - intros j x. rewrite put_lookup. case_decide as E; intros Hx Hn; [subst; injection Hx as <-|].
    + cbn in Hn. rewrite Hp in Hnd. by apply NoDup_cons in Hnd as [? _].
    + apply E, (home_unique s j c n Hw); [by apply (w_queue _ _ Hw j x)|by apply (w_queue _ _ Hw c cn)].
Qed.

(** A node of a queue takes another place in it, its key having grown. *)
Lemma requeue_spec s c cn up un delta : in_order s → s.(containers) !! c = Some cn → cn.(parent) = Some up →
  s.(containers) !! up = Some un → c ∈ inorder un.(rq) → 0 ≤ delta → key s c + delta < 2 ^ 63 →
  let cn' := with_cinfo (with_vruntime (u64 (cn.(cinfo).(vruntime) + delta)) cn.(cinfo)) cn in
  ∃ s1 t, dequeue c up (put c cn' s) = Ok (tt, s1) ∧
    enqueue c up s1 = Ok (tt, put up (with_queue t un.(node_cnt) un) (put c cn' s)) ∧
    in_order (put up (with_queue t un.(node_cnt) un) (put c cn' s)) ∧ inorder t ≡ₚ inorder un.(rq).
Proof.
  intros Ho Hc Hup Hu Hin Hd Hk. cbv zeta. set (cn' := with_cinfo _ cn). pose proof (o_wf _ Ho) as Hw.
  assert (Hne : up ≠ c). { intros ->. destruct (w_rank _ _ Hw) as [rank Hr]. specialize (Hr c cn c Hc Hup). lia. }
  destruct (w_tree _ _ Hw up un Hu) as (_ & _ & Hcnt & _). pose proof (leave_spec s c up un Ho Hu Hin) as Hl.
  cbv zeta in Hl. set (s0 := put up (with_queue (rb_erase c un.(rq)) (un.(node_cnt) - 1) un) s) in Hl. destruct Hl as (Ho0 & Hno & Hok & Hp).
  assert (Hkey : ∀ q d m, key (put up (with_queue q d un) (put c cn' s)) m = key (put c cn' s) m).
  { intros q d m. eapply key_put_same; [by rewrite put_ne|done]. }
  assert (Hs0 : put c cn' s0 = put up (with_queue (rb_erase c un.(rq)) (un.(node_cnt) - 1) un) (put c cn' s)) by by apply put_swap.
  rewrite (key_container s c cn Hw Hc) in Hk. pose proof (o_keyed _ Ho c) as Hkc. rewrite (key_container s c cn Hw Hc) in Hkc.
  assert (Hu64 : u64 (cn.(cinfo).(vruntime) + delta) = cn.(cinfo).(vruntime) + delta) by (apply u64_small; lia).
  assert (Ho1 : in_order (put c cn' s0)).
  { unfold cn'. rewrite Hu64. apply in_order_key; [done|unfold s0; by rewrite put_ne|done|lia]. }
  assert (Hup0 : (put c cn' s0).(containers) !! up = Some (with_queue (rb_erase c un.(rq)) (un.(node_cnt) - 1) un)) by (rewrite Hs0; apply put_eq).
  set (s1 := put up (with_queue (rb_erase c un.(rq)) un.(node_cnt) un) (put c cn' s)).
  destruct (enqueue_spec s1 c up (with_queue (rb_erase c un.(rq)) un.(node_cnt) un)) as (t & E & Ht & Hs & Hpt).
  - apply put_eq.
  - done.
  - eapply key_sorted_same; [|exact (o_sorted _ Ho1 up _ Hup0)]. intros x _. unfold s1. by rewrite Hs0 !Hkey.
  - intros m. unfold s1. rewrite Hkey -(Hkey (rb_erase c un.(rq)) (un.(node_cnt) - 1)) -Hs0. apply Ho1.
  - intros Hi. apply (Hno up _ (put_eq _ _ _)). exact Hi.
  - cbn in E, Hpt. unfold s1 in E at 2. rewrite put_put in E. exists s1, t. split; [|split; [done|]].
    { unfold dequeue. erewrite bind_Ok by (apply containers_run; by rewrite put_ne). by rewrite (upd_container_run _ up un); [|rewrite put_ne]. }
    split; [|by rewrite Hpt Hp].
    replace (put up (with_queue t un.(node_cnt) un) (put c cn' s))
      with (put up (with_queue t un.(node_cnt) (with_queue (rb_erase c un.(rq)) (un.(node_cnt) - 1) un)) (put c cn' s0)) by by rewrite Hs0 put_put.
    apply in_order_queue; [done..| | |].
    + eapply key_sorted_same; [|exact Hs]. intros x _. unfold s1. by rewrite Hs0 !Hkey.
    + rewrite Hpt -Hp. lia.
    + intros n. rewrite Hpt -Hp. intros Hn. apply (home_evolves s); [|done|by apply (w_queue _ _ Hw up un)].
      transitivity s0; [by eapply evolves_put|]. apply (evolves_put c cn); [unfold s0; by rewrite put_ne|done].
Qed.

(** ** The groups above a process *)

(** Going up from [c], every group is in its parent's queue. *)
Inductive linked s : Z → Prop :=
| linked_root : linked s root
| linked_up c cn up un : s.(containers) !! c = Some cn → cn.(parent) = Some up → s.(containers) !! up = Some un →
    c ∈ inorder un.(rq) → linked s up → linked s c.

(** Nothing but the places in the queues and the keys of groups has changed. *)
Record shuffled s s' : Prop := {
  h_evolves : evolves s s';
  h_procs : s'.(procs) = s.(procs);
  h_queues : ∀ c cn, s.(containers) !! c = Some cn → ∃ cn', s'.(containers) !! c = Some cn' ∧ ccore cn' = ccore cn ∧
    inorder cn'.(rq) ≡ₚ inorder cn.(rq);
}.
#[global] Instance shuffled_preorder : PreOrder shuffled.
Proof.
  split; [intros s; split; [done..|by eauto]|]. intros s1 s2 s3 [E1 P1 Q1] [E2 P2 Q2].
  split; [by etrans|congruence|]. intros c cn Hc. destruct (Q1 c cn Hc) as (c2 & Hc2 & E & Hp). destruct (Q2 c c2 Hc2) as (c3 & Hc3 & E' & Hp').
  exists c3. split_and!; [done|congruence|by rewrite Hp' Hp].
Qed.

(** Containers stay linked when none leaves its queue. *)
Lemma linked_mono s s' c : (∀ g cn, s.(containers) !! g = Some cn → ∃ cn', s'.(containers) !! g = Some cn' ∧ cn'.(parent) = cn.(parent) ∧
    ∀ n, n ∈ inorder cn.(rq) → is_Some (s.(containers) !! n) → n ∈ inorder cn'.(rq)) → linked s c → linked s' c.
Proof.
  intros Hm. induction 1 as [|c cn up un Hc Hup Hu Hin _ IH]; [by apply linked_root|].
  destruct (Hm c cn Hc) as (cn' & Hc' & E & _). destruct (Hm up un Hu) as (un' & Hu' & _ & Hsub).
  eapply (linked_up s' c cn' up un'); [done|congruence|done|apply Hsub; [done|by eexists]|done].
Qed.
Lemma linked_shuffled s s' c : shuffled s s' → linked s c → linked s' c.
Proof.
  intros [_ _ Hq]. apply linked_mono. intros g cn Hg. destruct (Hq g cn Hg) as (cn' & Hg' & E & Hp). exists cn'.
  unfold ccore in E. split_and!; [done|congruence|]. intros n Hn _. by rewrite Hp.
Qed.

Lemma requeue_groups_spec s0 rank c delta : in_order s0 → 0 ≤ delta →
  (∀ c cn up, s0.(containers) !! c = Some cn → cn.(parent) = Some up → (rank c < rank up)%nat) → linked s0 c →
  ∀ s, shuffled s0 s → in_order s →
  (∀ g, is_Some (s0.(containers) !! g) → (rank c ≤ rank g)%nat → key s g + delta < 2 ^ 63) →
  ∃ f0 s', shuffled s s' ∧ in_order s' ∧ ∀ fuel, (f0 ≤ fuel)%nat → requeue_groups fuel c delta s = Ok (tt, s').
Proof.
  intros Ho0 Hd Hrank. pose proof (o_wf _ Ho0) as Hw0.
  induction 1 as [|c cn0 up un0 Hc0 Hup0 Hu0 Hin0 Hl IH]; intros s Hsh Ho Hroom.
  - destruct (w_root _ _ (o_wf _ Ho)) as (rc & Hr & Hp). exists 1%nat, s. split_and!; [done..|]. intros [|fuel] Hf; [lia|]. cbn [requeue_groups].
    by rewrite (bind_Ok _ _ _ _ _ (containers_run s root rc Hr)) Hp.
  - destruct (h_queues _ _ Hsh c cn0 Hc0) as (cn & Hc & Ec & _). destruct (h_queues _ _ Hsh up un0 Hu0) as (un & Hu & Eu & Hpu).
    assert (Hup : cn.(parent) = Some up) by (unfold ccore in Ec; congruence).
    destruct (requeue_spec s c cn up un delta Ho Hc Hup Hu) as (s1 & t & E1 & E2 & Ho2 & Hp); [by rewrite Hpu|done|apply Hroom; [by eexists|lia]|].
    set (cn' := with_cinfo _ cn) in *. set (s2 := put up _ (put c cn' s)) in *.
    pose proof (Hrank c cn0 up Hc0 Hup0) as Hlt. assert (Hne : up ≠ c) by (intros ->; lia).
    assert (He1 : evolves s (put c cn' s)) by by eapply evolves_put.
    assert (He2 : evolves (put c cn' s) s2) by (eapply evolves_put; [by rewrite put_ne|done]).
    assert (Hsh2 : shuffled s s2).
    { split; [by etrans|done|]. intros g gc Hg. unfold s2. rewrite put_lookup. case_decide; [subst; rewrite Hu in Hg; injection Hg as <-; by eexists|].
      rewrite put_lookup. case_decide; [subst; rewrite Hc in Hg; injection Hg as <-; by eexists|by exists gc]. }
    destruct (IH s2) as (f0 & s' & Hsh' & Ho' & E); [by etrans|done| |].
    + intros g Hg Hge. assert (Hgc : g ≠ c) by (intros ->; lia). specialize (Hroom g Hg ltac:(lia)).
      assert (Ek : key s2 g = key s g); [|by rewrite Ek]. unfold s2. rewrite -(key_put s c cn' g Hgc). eapply key_put_same; [by rewrite put_ne|done].
    + exists (S f0), s'. split; [by etrans|]. split; [done|]. intros [|fuel] Hf; [lia|]. cbn [requeue_groups].
      rewrite (bind_Ok _ _ _ _ _ (containers_run s c cn Hc)) Hup (bind_Ok _ _ _ _ _ (upd_container_run s c cn _ Hc)).
      rewrite (bind_Ok _ _ _ _ _ E1) (bind_Ok _ _ _ _ _ E2). apply E. lia.
Qed.

(** ** The invariant *)

(** [p] is the current process of a processor, [o] aside: between leaving its
    process and taking another, a processor has none. *)
Definition running (o : option nat) s (p : Z) : Prop := ∃ k cp, s.(cpus) !! k = Some cp ∧ o ≠ Some k ∧ cp.(thisproc) = p.
Definition waiting s (n : Z) : Prop := ∃ c cn, s.(containers) !! c = Some cn ∧ n ∈ inorder cn.(rq).

Record sound (o : option nat) s : Prop := {
  s_order : in_order s;
  s_ids : ∀ c cn, s.(containers) !! c = Some cn → 0 ≤ cn.(id) < 5;
  s_home : ∀ p x, s.(procs) !! p = Some x → x.(idle) = false → is_Some (s.(containers) !! x.(container_of_proc));
  s_this : ∀ k cp, s.(cpus) !! k = Some cp → o ≠ Some k → ∃ x, s.(procs) !! cp.(thisproc) = Some x ∧ x.(state) = RUNNING ∧
    (if x.(idle) then cp.(thisproc) = cp.(idle_proc) else linked s x.(container_of_proc));
  s_running : ∀ p x, s.(procs) !! p = Some x → x.(state) = RUNNING → running o s p;
  s_once : ∀ j k cj ck, s.(cpus) !! j = Some cj → s.(cpus) !! k = Some ck → o ≠ Some j → o ≠ Some k →
    cj.(thisproc) = ck.(thisproc) → j = k;
  s_idle : ∀ k cp, s.(cpus) !! k = Some cp → ∃ x, s.(procs) !! cp.(idle_proc) = Some x ∧ x.(idle) = true ∧
    (x.(state) = RUNNABLE ∨ o ≠ Some k ∧ cp.(thisproc) = cp.(idle_proc));
  s_idle_state : ∀ p x, s.(procs) !! p = Some x → x.(idle) = true → x.(state) = RUNNABLE ∨ x.(state) = RUNNING;
  s_idle_once : ∀ j k cj ck, s.(cpus) !! j = Some cj → s.(cpus) !! k = Some ck → cj.(idle_proc) = ck.(idle_proc) → j = k;
  s_queued : ∀ p x, s.(procs) !! p = Some x → x.(state) = RUNNABLE ∧ x.(idle) = false ↔ waiting s p;
}.

(** Containers stay, with their groups in their queues. *)
Definition stays s s' : Prop := ∀ g cn, s.(containers) !! g = Some cn → ∃ cn', s'.(containers) !! g = Some cn' ∧ ccore cn' = ccore cn ∧
  ∀ n, n ∈ inorder cn.(rq) → is_Some (s.(containers) !! n) → n ∈ inorder cn'.(rq).
Lemma stays_some s s' c : stays s s' → is_Some (s.(containers) !! c) → is_Some (s'.(containers) !! c).
Proof. intros Hst [cn Hc]. destruct (Hst c cn Hc) as (cn' & Hc' & _). by exists cn'. Qed.
Lemma stays_ids s s' : stays s s' → evolves s s' → (∀ c cn, s.(containers) !! c = Some cn → 0 ≤ cn.(id) < 5) →
  ∀ c cn, s'.(containers) !! c = Some cn → 0 ≤ cn.(id) < 5.
Proof.
  intros Hst He Hids c cn Hc. destruct (evolves_container _ _ c cn He Hc) as (d & Hd & E). unfold ccore in E.
  specialize (Hids c d Hd). by replace (cn.(id)) with (d.(id)) by congruence.
Qed.
Lemma stays_linked s s' c : stays s s' → linked s c → linked s' c.
Proof.
  intros Hst. apply linked_mono. intros g cn Hg. destruct (Hst g cn Hg) as (cn' & Hg' & E & Hin). exists cn'.
  unfold ccore in E. split_and!; [done|congruence|done].
Qed.

(** The processors do not change, except that [o'] may have left its process. *)
Lemma sound_next o o' s s' : sound o s → in_order s' → evolves s s' → stays s s' → (∀ k, o' ≠ Some k → o ≠ Some k) →
  (∀ p x x', s.(procs) !! p = Some x → s'.(procs) !! p = Some x' →
    (x'.(state) = RUNNING ↔ running o' s p) ∧ (running o' s p → x'.(container_of_proc) = x.(container_of_proc)) ∧
    (x'.(idle) = true → x'.(state) = RUNNABLE ∨ x'.(state) = RUNNING) ∧
    (x'.(idle) = false → is_Some (s.(containers) !! x'.(container_of_proc))) ∧
    (x'.(state) = RUNNABLE ∧ x'.(idle) = false ↔ waiting s' p)) →
  sound o' s'.
Proof.
  intros Hs Ho He Hst Ho' Hp. pose proof (e_cpus _ _ He) as Hcpus.
  assert (Hback : ∀ p x', s'.(procs) !! p = Some x' → ∃ x, s.(procs) !! p = Some x ∧ x'.(idle) = x.(idle)).
  { intros p x' Hx. destruct (evolves_proc _ _ p x' He Hx) as (x & Hx' & E). exists x. unfold pcore in E. split; [done|congruence]. }
  assert (Hforth : ∀ p x, s.(procs) !! p = Some x → ∃ x', s'.(procs) !! p = Some x' ∧ x'.(idle) = x.(idle)).
  { intros p x Hx. destruct (evolves_proc _ _ p x (evolves_back _ _ He) Hx) as (x' & Hx' & E). exists x'. unfold pcore in E. split; [done|congruence]. }
  split; [done|by eapply stays_ids, s_ids| | | | | | | |].
  - intros p x' Hx' Hi. destruct (Hback p x' Hx') as (x & Hx & E). apply (stays_some s); [done|].
    by apply (Hp p x x' Hx Hx').
  - intros k cp Hk Hok. rewrite Hcpus in Hk. destruct (s_this _ _ Hs k cp Hk (Ho' k Hok)) as (x & Hx & Hr & Hi).
    destruct (Hforth _ x Hx) as (x' & Hx' & E). exists x'. destruct (Hp _ x x' Hx Hx') as (Hrun & Hc & _).
    assert (Hru : running o' s (thisproc cp)) by by exists k, cp. split; [done|]. split; [by apply Hrun|]. rewrite E.
    destruct (x.(idle)); [done|]. rewrite Hc //. by apply (stays_linked s).
  - intros p x' Hx' Hr. destruct (Hback p x' Hx') as (x & Hx & _). apply (Hp p x x' Hx Hx') in Hr as (k & cp & Hk & Hr).
    exists k, cp. by rewrite Hcpus.
  - intros j k cj ck Hj Hk Hoj Hok. rewrite !Hcpus in Hj Hk. apply (s_once _ _ Hs j k); auto.
  - intros k cp Hk. rewrite Hcpus in Hk. destruct (s_idle _ _ Hs k cp Hk) as (x & Hx & Hi & _).
    destruct (Hforth _ x Hx) as (x' & Hx' & E). exists x'. destruct (Hp _ x x' Hx Hx') as (Hrun & _ & Hid & _).
    rewrite E. split; [done|]. split; [done|]. destruct Hid as [?|Hr]; [congruence|by left|right].
    apply Hrun in Hr as (j & cj & Hj & Hoj & Hthis). destruct (s_this _ _ Hs j cj Hj (Ho' j Hoj)) as (y & Hy & _ & Hyi).
    rewrite Hthis Hx in Hy. injection Hy as <-. rewrite Hi in Hyi.
    assert (j = k) as -> by (apply (s_idle_once _ _ Hs j k cj cp Hj Hk); congruence). rewrite Hk in Hj. injection Hj as <-. done.
  - intros p x' Hx'. destruct (Hback p x' Hx') as (x & Hx & _). by apply (Hp p x x').
  - intros j k cj ck. rewrite Hcpus. apply (s_idle_once _ _ Hs).
  - intros p x' Hx'. destruct (Hback p x' Hx') as (x & Hx & _). by apply (Hp p x x').
Qed.

Lemma stays_put s c cn cn' : s.(containers) !! c = Some cn → ccore cn' = ccore cn →
  (∀ n, n ∈ inorder cn.(rq) → is_Some (s.(containers) !! n) → n ∈ inorder cn'.(rq)) → stays s (put c cn' s).
Proof.
  intros Hc E Hin g gc Hg. rewrite put_lookup. case_decide; [|by exists gc]. subst. rewrite Hc in Hg. injection Hg as <-. by exists cn'.
Qed.
Lemma stays_putp s p x : stays s (putp p x s).
Proof. intros g gc Hg. by exists gc. Qed.
#[local] Instance stays_preorder : PreOrder stays.
Proof.
  split; [intros s g cn Hg; by exists cn|]. intros s1 s2 s3 H1 H2 g cn Hg.
  destruct (H1 g cn Hg) as (c2 & Hg2 & E2 & Hin2). destruct (H2 g c2 Hg2) as (c3 & Hg3 & E3 & Hin3). exists c3.
  split_and!; [done|congruence|]. intros n Hn Hs. apply Hin3; [by apply Hin2|by eapply stays_some].
Qed.
Lemma shuffled_stays s s' : shuffled s s' → stays s s'.
Proof. intros [_ _ Hq] g cn Hg. destruct (Hq g cn Hg) as (cn' & Hg' & E & Hp). exists cn'. split_and!; [done..|]. intros n Hn _. by rewrite Hp. Qed.

Lemma waiting_put s c cn cn' n : s.(containers) !! c = Some cn →
  waiting (put c cn' s) n ↔ n ∈ inorder cn'.(rq) ∨ ∃ j x, j ≠ c ∧ s.(containers) !! j = Some x ∧ n ∈ inorder x.(rq).
Proof.
  intros Hc. split.
  - intros (j & x & Hj & Hn). rewrite put_lookup in Hj. case_decide; [injection Hj as <-; by left|right; by exists j, x].
  - intros [Hn|(j & x & Hne & Hj & Hn)]; [exists c, cn'; by rewrite put_eq|exists j, x; by rewrite put_ne].
Qed.
Lemma waiting_here s c cn n : s.(containers) !! c = Some cn →
  waiting s n ↔ n ∈ inorder cn.(rq) ∨ ∃ j x, j ≠ c ∧ s.(containers) !! j = Some x ∧ n ∈ inorder x.(rq).
Proof.
  intros Hc. split.
  - intros (j & x & Hj & Hn). destruct (decide (j = c)) as [->|]; [rewrite Hc in Hj; injection Hj as <-; by left|right; by exists j, x].
  - intros [Hn|(j & x & _ & Hj & Hn)]; [by exists c, cn|by exists j, x].
Qed.
Lemma waiting_join s c cn t d m n : s.(containers) !! c = Some cn → inorder t ≡ₚ m :: inorder cn.(rq) →
  waiting (put c (with_queue t d cn) s) n ↔ n = m ∨ waiting s n.
Proof. intros Hc Hp. rewrite (waiting_put s c cn) // (waiting_here s c cn) //. cbn. rewrite Hp elem_of_cons. tauto. Qed.
Lemma waiting_leave s c cn t d m n : s.(containers) !! c = Some cn → inorder cn.(rq) ≡ₚ m :: inorder t →
  nowhere (put c (with_queue t d cn) s) m → waiting (put c (with_queue t d cn) s) n ↔ n ≠ m ∧ waiting s n.
Proof.
  intros Hc Hp Hno. assert (Hm : ¬ waiting (put c (with_queue t d cn) s) m) by (intros (j & x & Hj & Hx); by apply (Hno j x Hj)).
  destruct (decide (n = m)) as [->|Hne]; [tauto|]. rewrite (waiting_put s c cn) // (waiting_here s c cn) //. cbn. rewrite Hp elem_of_cons. tauto.
Qed.
Lemma waiting_shuffled s s' n : shuffled s s' → waiting s' n ↔ waiting s n.
Proof.
  intros [He _ Hq]. split; intros (c & cn & Hc & Hn).
  - destruct (evolves_container _ _ c cn He Hc) as (d & Hd & _). destruct (Hq c d Hd) as (cn' & Hc' & _ & Hp). rewrite Hc in Hc'.
    injection Hc' as <-. exists c, d. by rewrite -Hp.
  - destruct (Hq c cn Hc) as (cn' & Hc' & _ & Hp). exists c, cn'. by rewrite Hp.
Qed.
Lemma nowhere_iff s n : nowhere s n ↔ ¬ waiting s n.
Proof. split; [intros Hno (c & cn & Hc & Hn); by apply (Hno c cn)|intros Hw c cn Hc Hn; apply Hw; by exists c, cn]. Qed.

(** A process that is not current changes, and may join its queue. *)
Lemma not_running_iff s p x : sound None s → s.(procs) !! p = Some x → running None s p ↔ x.(state) = RUNNING.
Proof.
  intros Hs Hx. split; [|by apply (s_running _ _ Hs)]. intros (k & cp & Hk & _ & <-).
  destruct (s_this _ _ Hs k cp Hk) as (y & Hy & Hr & _); [done|]. congruence.
Qed.

Lemma sound_other s s' p x x' : sound None s → s.(procs) !! p = Some x → x.(state) ≠ RUNNING → x'.(state) ≠ RUNNING →
  x'.(idle) = false → s'.(procs) = <[p := x']> s.(procs) → in_order s' → evolves s s' → stays s s' →
  is_Some (s.(containers) !! x'.(container_of_proc)) → (∀ n, n ≠ p → is_Some (s.(procs) !! n) → waiting s' n ↔ waiting s n) →
  (x'.(state) = RUNNABLE ↔ waiting s' p) → sound None s'.
Proof.
  intros Hs Hx Hr Hr' Hi Hprocs Ho He Hst Hc Hw Hwp. apply (sound_next None None s); [done..|]. intros n y y' Hy Hy'. rewrite Hprocs in Hy'.
  rewrite (not_running_iff s n y Hs Hy). destruct (decide (n = p)) as [->|Hne].
  - rewrite lookup_insert_eq in Hy'. injection Hy' as <-. rewrite Hx in Hy. injection Hy as <-. rewrite Hi. split_and!; [tauto|done..|tauto].
  - rewrite lookup_insert_ne // Hy in Hy'. injection Hy' as <-. split_and!; [done..|by apply (s_idle_state _ _ Hs n)|by apply (s_home _ _ Hs n)|].
    rewrite Hw; [by apply (s_queued _ _ Hs n)|done|by eexists].
Qed.

Lemma waiting_not s p x o : sound o s → s.(procs) !! p = Some x → x.(state) ≠ RUNNABLE → ¬ waiting s p.
Proof. intros Hs Hx Hst Hwt. apply (s_queued _ _ Hs p x Hx) in Hwt as [? _]. done. Qed.

Lemma wake_sound s p x : sound None s → s.(procs) !! p = Some x → x.(idle) = false → x.(state) ≠ RUNNING → x.(state) ≠ RUNNABLE →
  ∃ s', (upd_proc p (with_state RUNNABLE) ;; enqueue p x.(container_of_proc) ;; count x.(container_of_proc) 1 ;; mret true) s = Ok (true, s') ∧
    sound None s'.
Proof.
  intros Hs Hx Hi Hr Hr'. set (x' := with_state RUNNABLE x). set (s1 := putp p x' s). set (c := x.(container_of_proc)).
  assert (Hno : nowhere s p) by (rewrite nowhere_iff; by eapply waiting_not).
  assert (Ho1 : in_order s1).
  { apply (in_order_proc s p x); [apply Hs|done|done| |by left]. rewrite -(key_proc s p x Hx). apply Hs. }
  destruct (s_home _ _ Hs p x Hx Hi) as [cn Hc].
  destruct (join_spec s1 p c cn Ho1 Hc) as (s2 & t & E1 & E2 & Ho2 & Hp); [left; exists x'; by rewrite putp_lookup decide_True|by apply (Hno c)|].
  eexists. split.
  - rewrite (bind_Ok _ _ _ _ _ (upd_proc_run s p x _ Hx)) (bind_Ok _ _ _ _ _ E1) (bind_Ok _ _ _ _ _ E2). done.
  - eapply (sound_other s _ p x x'); [done..|exact Ho2| | | | |].
    + transitivity s1; [by eapply evolves_putp|by eapply evolves_put].
    + transitivity s1; [apply stays_putp|]. eapply stays_put; [done|done|]. intros n Hn _. cbn. rewrite Hp. by right.
    + by eexists.
    + intros n Hne _. rewrite (waiting_join s1 c cn t _ p n) //. split; [intros [?|?]; done|by right].
    + rewrite (waiting_join s1 c cn t _ p p) //. split; [by left|done].
Qed.

Lemma activate_step s p onalert : sound None s → enabled s (Activate p onalert) →
  ∃ s', runs_to (Activate p onalert) s s' ∧ sound None s'.
Proof.
  intros Hs (x & Hx & Hi).
  assert (Hgo : ∃ b s', _activate_proc p onalert s = Ok (b, s') ∧ sound None s').
  { unfold _activate_proc. rewrite (bind_Ok _ _ _ _ _ (procs_run s p x Hx)).
    destruct x.(state) eqn:Est; try by (eexists _, s; split; [reflexivity|done]).
    1-3: destruct (wake_sound s p x Hs Hx Hi) as (s' & E & Hs'); [by rewrite Est|by rewrite Est|].
    1, 2: rewrite bool_decide_eq_false_2 //; cbn [andb]; by eexists true, s'.
    destruct onalert; [by eexists _, s|]. rewrite andb_false_r. by eexists true, s'. }
  destruct Hgo as (b & s' & E & Hs'). exists s'. split; [|done]. exists 0%nat. intros fuel _. cbn [run]. by rewrite (bind_Ok _ _ _ _ _ E).
Qed.

Lemma group_step s g : sound None s → enabled s (Group g) → ∃ s', runs_to (Group g) s s' ∧ sound None s'.
Proof.
  intros Hs (gc & up & un & Hg & Hup & Hu & Hn).
  destruct (join_spec s g up un (s_order _ _ Hs) Hu) as (s1 & t & E1 & E2 & Ho & Hp); [right; by exists gc|done|]. set (s2 := put up _ s) in *.
  exists s2. split.
  - exists 0%nat. intros fuel _. cbn [run]. unfold activate_group. rewrite (bind_Ok _ _ _ _ _ (containers_run s g gc Hg)) Hup.
    rewrite (bind_Ok _ _ s up s) // (bind_Ok _ _ _ _ _ E1). done.
  - assert (He : evolves s s2) by by eapply evolves_put.
    assert (Hst : stays s s2) by (eapply stays_put; [done|done|]; intros n Hin _; cbn; rewrite Hp; by right).
    apply (sound_next None None s); [done..|]. intros p x x' Hx Hx'. change (procs s2) with (procs s) in Hx'. rewrite Hx in Hx'. injection Hx' as <-.
    rewrite (not_running_iff s p x Hs Hx). split_and!; [done..|by apply (s_idle_state _ _ Hs p)|by apply (s_home _ _ Hs p)|].
    rewrite (waiting_join s up un t _ g p) // (s_queued _ _ Hs p x Hx). split; [by right|intros [->|?]; [|done]].
    by rewrite (w_disjoint _ _ (o_wf _ (s_order _ _ Hs)) g) in Hg; [|rewrite Hx].
Qed.

(** A process changes in place, without changing state, or when it is not in use. *)
Lemma kill_step s p : sound None s → ∃ s', runs_to (Kill p) s s' ∧ sound None s'.
Proof.
  intros Hs. destruct (s.(procs) !! p) as [x|] eqn:Hx.
  - set (x' := mkProc true x.(idle) x.(pid) x.(state) x.(container_of_proc) x.(pinfo)). exists (putp p x' s). split.
    + exists 0%nat. intros fuel _. cbn [run]. by rewrite (upd_proc_run s p x).
    + apply (sound_next None None s); [done| |by eapply evolves_putp|apply stays_putp|done|].
      { apply (in_order_proc s p x); [apply Hs|done|done| |by right]. cbn. rewrite -(key_proc s p x Hx). apply Hs. }
      intros n y y' Hy Hy'. rewrite (not_running_iff s n y Hs Hy). rewrite putp_lookup in Hy'.
      assert (Hsame : y'.(state) = y.(state) ∧ y'.(idle) = y.(idle) ∧ y'.(container_of_proc) = y.(container_of_proc)).
      { case_decide; [subst; rewrite Hx in Hy; by simplify_eq|by simplify_eq]. }
      destruct Hsame as (-> & -> & ->). split_and!; [done..|by apply (s_idle_state _ _ Hs n)|by apply (s_home _ _ Hs n)|].
      by apply (s_queued _ _ Hs n y).
  - exists s. split; [|done]. exists 0%nat. intros fuel _. cbn [run]. unfold upd_proc, modify. do 2 f_equal. apply kernel_eq; [|done..].
    cbn. apply alter_id. intros b. by rewrite Hx.
Qed.
Lemma fresh_step s p c i : sound None s → enabled s (Fresh p c i) → ∃ s', runs_to (Fresh p c i) s s' ∧ sound None s'.
Proof.
  intros Hs (x & Hx & Hi & Hst & Hc). set (x' := mkProc false false i UNUSED c (init_schinfo false)). exists (putp p x' s).
  assert (Hno : ¬ waiting s p) by (eapply waiting_not; [done..|by destruct Hst as [->| ->]]).
  assert (Hcore : pcore x' = pcore x).
  { unfold pcore. rewrite Hi (w_pgroup _ _ (o_wf _ (s_order _ _ Hs)) p x Hx) (noskip_proc s p x (o_noskip _ (s_order _ _ Hs)) Hx). done. }
  split; [exists 0%nat; intros fuel _; cbn [run]; by rewrite (upd_proc_run s p x)|].
  apply (sound_other s _ p x x'); [done|done|by destruct Hst as [->| ->]|done..| |by eapply evolves_putp|apply stays_putp|done|done|].
  - apply (in_order_proc s p x); [apply Hs|done|done|cbn; lia|left]. by apply nowhere_iff.
  - by split; [|intros ?].
Qed.
Lemma panic_step s : sound None s → ∃ s', runs_to Panic s s' ∧ sound None s'.
Proof.
  intros Hs. exists (mkKernel s.(procs) s.(containers) s.(cpus) true). split; [by exists 0%nat|].
  set (s' := mkKernel _ _ _ _). assert (He : evolves s s') by done. pose proof (s_order _ _ Hs) as Ho.
  apply (sound_next None None s); [done| |done|intros g gc Hg; by exists gc|done|].
  - apply (in_order_next s); [done..|apply Ho|]. intros c cn Hc. destruct (w_tree _ _ (o_wf _ Ho) c cn Hc) as (Hok & _ & Hcnt & _).
    split_and!; [done|by apply (o_sorted _ Ho c)|done|]. intros n. by apply (w_queue _ _ (o_wf _ Ho) c cn).
  - intros p x x' Hx Hx'. change (procs s') with (procs s) in Hx'. rewrite Hx in Hx'. injection Hx' as <-.
    rewrite (not_running_iff s p x Hs Hx). split_and!; [done..|by apply (s_idle_state _ _ Hs p)|by apply (s_home _ _ Hs p)|by apply (s_queued _ _ Hs p)].
Qed.

(** ** Rescheduling *)

(** The conclusion about the processes once processor [k] has left its process for state [st]. *)
Lemma left_sound s s' k cp x x' st : sound None s → s.(cpus) !! k = Some cp → s.(procs) !! cp.(thisproc) = Some x →
  st ≠ RUNNING → (x.(idle) = true → st = RUNNABLE) → in_order s' → evolves s s' → stays s s' →
  s'.(procs) = <[cp.(thisproc) := x']> s.(procs) → x'.(state) = st → x'.(container_of_proc) = x.(container_of_proc) → x'.(idle) = x.(idle) →
  (∀ n, waiting s' n ↔ waiting s n ∨ n = cp.(thisproc) ∧ st = RUNNABLE ∧ x.(idle) = false) → sound (Some k) s'.
Proof.
  intros Hs Hk Hx Hst Hidle Ho He Hsta Hprocs E Ec Ei Hw. apply (sound_next None (Some k) s); [done..|].
  intros n y y' Hy Hy'. rewrite Hprocs in Hy'.
  assert (Hrun : running (Some k) s n ↔ n ≠ cp.(thisproc) ∧ y.(state) = RUNNING).
  { rewrite -(not_running_iff s n y Hs Hy). split.
    - intros (j & cj & Hj & Hjk & Ht). split; [|by exists j, cj]. intros ->. apply Hjk. f_equal. by eapply (s_once _ _ Hs).
    - intros (Hne & j & cj & Hj & _ & Ht). exists j, cj. split_and!; [done| |done]. intros [= ->]. by simplify_eq. }
  rewrite Hrun. destruct (decide (n = cp.(thisproc))) as [->|Hne].
  - rewrite lookup_insert_eq in Hy'. injection Hy' as <-. rewrite Hx in Hy. injection Hy as <-. rewrite E Ei.
    split; [tauto|]. split; [tauto|]. split; [intros Hi; left; by apply Hidle|]. split; [rewrite Ec; by apply (s_home _ _ Hs cp.(thisproc) x)|].
    rewrite Hw. split; [intros []; by right|]. intros [Hwt|(_ & ? & ?)]; [|done]. exfalso. revert Hwt. eapply waiting_not; [done..|].
    destruct (s_this _ _ Hs k cp Hk) as (z & Hz & Hr & _); [done|]. rewrite Hx in Hz. injection Hz as <-. by rewrite Hr.
  - rewrite lookup_insert_ne // Hy in Hy'. injection Hy' as <-. split; [tauto|]. split; [done|].
    split; [by apply (s_idle_state _ _ Hs n)|]. split; [by apply (s_home _ _ Hs n)|]. rewrite Hw (s_queued _ _ Hs n y Hy). tauto.
Qed.

Lemma weight_run s c cn d : sound None s → s.(containers) !! c = Some cn → 0 ≤ d < 2 ^ 63 →
  ∃ w, (∀ s', (if cn.(id) <? 0 then deref None else deref (con_to_weight !! Z.to_nat cn.(id))) s' = Ok (w, s')) ∧
    u64 (u64 d * w) / WEIGHT_SUM = d.
Proof.
  intros Hs Hc Hd. pose proof (s_ids _ _ Hs c cn Hc) as Hid. exists 1. split.
  - intros s'. destruct (Z.ltb_spec cn.(id) 0); [lia|]. assert (Hn : (Z.to_nat cn.(id) < 5)%nat) by lia. unfold con_to_weight.
    destruct (Z.to_nat cn.(id)) as [|[|[|[|[|m]]]]]; (done || lia).
  - rewrite Z.mul_1_r Z.div_1_r !u64_small; lia.
Qed.

(** The process that leaves has been charged. *)
Definition charged (this : Z) (x x1 : proc) s s3 : Prop :=
  in_order s3 ∧ evolves s s3 ∧ stays s s3 ∧ s3.(procs) = <[this := x1]> s.(procs) ∧
  x1.(container_of_proc) = x.(container_of_proc) ∧ x1.(idle) = x.(idle) ∧ 0 ≤ x1.(pinfo).(vruntime) < 2 ^ 63 ∧
  ∀ n, waiting s3 n ↔ waiting s n ∨ n = this.

Lemma charge_spec s this x now : sound None s → s.(procs) !! this = Some x → x.(idle) = false → x.(state) = RUNNING →
  linked s x.(container_of_proc) → room s (now - x.(pinfo).(start_time)) →
  ∃ f0 s' x1, charged this x x1 s s' ∧ ∀ fuel, (f0 ≤ fuel)%nat → charge fuel this now x s = Ok (tt, s').
Proof.
  intros Hs Hx Hi Hr Hl [Hd0 Hroom]. set (d := now - x.(pinfo).(start_time)) in *. set (c := x.(container_of_proc)) in *.
  pose proof (s_order _ _ Hs) as Ho. pose proof (o_wf _ Ho) as Hw.
  assert (Hno : nowhere s this) by (rewrite nowhere_iff; eapply waiting_not; [done..|by rewrite Hr]).
  destruct (s_home _ _ Hs this x Hx Hi) as [cn Hc]. pose proof (o_keyed _ Ho this) as Hk0. pose proof (Hroom this) as Hk1.
  rewrite (key_proc s this x Hx) in Hk0 Hk1. destruct (weight_run s c cn d Hs Hc) as (w & Hwt & Hdelta); [lia|].
  assert (Hu : u64 (x.(pinfo).(vruntime) + d) = x.(pinfo).(vruntime) + d) by (apply u64_small; lia).
  set (x1 := with_pinfo (with_vruntime (u64 (x.(pinfo).(vruntime) + d)) x.(pinfo)) x). set (s1 := putp this x1 s).
  assert (Hv1 : 0 ≤ x1.(pinfo).(vruntime) < 2 ^ 63) by (cbn; lia).
  assert (Ho1 : in_order s1) by (apply (in_order_proc s this x); [done..|by left]).
  assert (He1 : evolves s s1) by by eapply evolves_putp.
  destruct (join_spec s1 this c cn Ho1 Hc) as (s1' & t & E1 & E2 & Ho2 & Hp); [left; exists x1; by rewrite putp_lookup decide_True|by apply (Hno c)|].
  set (s2 := put c _ s1) in *. assert (He2 : evolves s s2) by (transitivity s1; [done|by eapply evolves_put]).
  assert (Hst2 : stays s s2).
  { transitivity s1; [apply stays_putp|]. eapply stays_put; [done..|]. intros n Hn _. cbn. rewrite Hp. by right. }
  destruct (w_rank _ _ (o_wf _ Ho2)) as [rank Hrank].
  destruct (requeue_groups_spec s2 rank c d Ho2 Hd0 Hrank) with (s := s2) as (f0 & s3 & Hsh & Ho3 & E3);
    [by eapply stays_linked|done|done| |].
  { intros g [gc Hg] _. assert (g ≠ this).
    { intros ->. destruct (evolves_container s s2 this gc) as (d' & Hd' & _); [done|done|]. by rewrite (w_disjoint _ _ Hw this) in Hd'; [|rewrite Hx]. }
    replace (key s2 g) with (key s g); [apply Hroom|]. unfold s2. rewrite (key_put_same s1 c cn) //. unfold s1. by rewrite key_putp. }
  exists f0, s3, x1. split; [split_and!; try done; try lia|].
  - transitivity s2; [done|apply Hsh].
  - transitivity s2; [done|by apply shuffled_stays].
  - apply (h_procs _ _ Hsh).
  - intros n. rewrite (waiting_shuffled s2 s3 n Hsh). unfold s2. rewrite (waiting_join s1 c cn t _ this n) //. change (waiting s1 n) with (waiting s n). tauto.
  - intros fuel Hf. unfold charge. cbv zeta. change (container_of_proc x) with c.
    rewrite (bind_Ok _ _ _ _ _ (containers_run s c cn Hc)) (bind_Ok _ _ _ _ _ (Hwt s)). change (now - start_time (pinfo x)) with d. rewrite Hdelta.
    rewrite (bind_Ok _ _ _ _ _ (upd_proc_run s this x _ Hx)) (bind_Ok _ _ _ _ _ E1) (bind_Ok _ _ _ _ _ E2). by apply E3.
Qed.

(** [update_this_state]: the current process leaves processor [k]. *)
Lemma update_this_state_spec s k cp x now st : sound None s → s.(cpus) !! k = Some cp → s.(procs) !! cp.(thisproc) = Some x →
  st ≠ RUNNING → (x.(idle) = true → st = RUNNABLE) → room s (now - x.(pinfo).(start_time)) →
  ∃ f0 s', sound (Some k) s' ∧ s'.(cpus) = s.(cpus) ∧ ∀ fuel, (f0 ≤ fuel)%nat → update_this_state fuel k now st s = Ok (tt, s').
Proof.
  intros Hs Hk Hx Hst Hidle Hroom. set (this := cp.(thisproc)) in *. pose proof (s_order _ _ Hs) as Ho.
  destruct (s_this _ _ Hs k cp Hk) as (z & Hz & Hr & Hl); [done|]. change (thisproc cp) with this in Hz. rewrite Hx in Hz. injection Hz as <-.
  assert (Hbody : ∃ f0 s3 x1, charged this x x1 s s3 ∧ negb x.(idle) && bool_decide (st = RUNNABLE) = true ∧
      (∀ fuel, (f0 ≤ fuel)%nat → charge fuel this now x s = Ok (tt, s3)) ∨
    (f0 = 0%nat ∧ s3 = s ∧ x1 = x ∧ negb x.(idle) && bool_decide (st = RUNNABLE) = false)).
  { destruct (negb x.(idle) && bool_decide (st = RUNNABLE)) eqn:Eb; [|by exists 0%nat, s, x; right].
    apply andb_true_iff in Eb as [Ei _]. apply negb_true_iff in Ei. rewrite Ei in Hl.
    destruct (charge_spec s this x now Hs Hx Ei Hr Hl Hroom) as (f0 & s3 & x1 & Hc & E). exists f0, s3, x1. by left. }
  destruct Hbody as (f0 & s3 & x1 & Hb). exists f0, (putp this (with_state st x1) s3).
  assert (Hb' : in_order s3 ∧ evolves s s3 ∧ stays s s3 ∧ s3.(procs) = <[this := x1]> s.(procs) ∧ x1.(container_of_proc) = x.(container_of_proc) ∧
    x1.(idle) = x.(idle) ∧ 0 ≤ x1.(pinfo).(vruntime) < 2 ^ 63 ∧ ∀ n, waiting s3 n ↔ waiting s n ∨ n = this ∧ st = RUNNABLE ∧ x.(idle) = false).
  { destruct Hb as [(Hc & Eb & _)|(_ & -> & -> & Eb)].
    - apply andb_true_iff in Eb as [Ei Es]. apply negb_true_iff in Ei. apply bool_decide_eq_true_1 in Es.
      destruct Hc as (? & ? & ? & ? & ? & ? & ? & Hwt). split_and!; try done; try lia. intros n. rewrite Hwt. tauto.
    - rewrite insert_id //. pose proof (o_keyed _ Ho this) as Hk0. rewrite (key_proc s this x Hx) in Hk0. split_and!; try done; try lia.
      intros n. split; [by left|]. intros [?|(_ & -> & Ei)]; [done|]. by rewrite Ei in Eb. }
  destruct Hb' as (Ho3 & He3 & Hst3 & Hp3 & Ec & Ei & Hv & Hw3).
  assert (Hx3 : s3.(procs) !! this = Some x1) by (rewrite Hp3; apply lookup_insert_eq).
  split; [|split; [apply (e_cpus _ _ He3)|]].
  - apply (left_sound s _ k cp x (with_state st x1) st); try done.
    + apply (in_order_proc s3 this x1); [done..|by right].
    + transitivity s3; [done|by eapply evolves_putp].
    + cbn. rewrite Hp3. by rewrite insert_insert_eq.
  - intros fuel Hf. unfold update_this_state. rewrite (bind_Ok _ _ _ _ _ (cpus_run s k cp Hk)). cbv zeta. change (thisproc cp) with this.
    rewrite (bind_Ok _ _ _ _ _ (procs_run s this x Hx)) Hr (bool_decide_eq_true_2 (RUNNING = RUNNING)) // andb_true_r.
    destruct Hb as [(_ & -> & E)|(_ & -> & -> & ->)].
    + rewrite (bind_Ok _ _ _ _ _ (E fuel Hf)). by rewrite (upd_proc_run s3 this x1).
    + rewrite (bind_Ok _ _ s tt s) //. by rewrite (upd_proc_run s this x).
Qed.

(** *** Taking a process *)

Lemma first_of_linked s l p : wf root s → (∀ n, n ∈ l → ∃ c cn, s.(containers) !! c = Some cn ∧ n ∈ inorder cn.(rq) ∧ linked s c) →
  first_of s l (Some p) → ∃ c cn, s.(containers) !! c = Some cn ∧ p ∈ inorder cn.(rq) ∧ linked s c.
Proof.
  intros Hw Hl Hf. remember (Some p) as r eqn:Er. revert Hl Er. induction Hf as [|n l q Hq|n l g x Hg Hf IH|n l g r Hg Hf1 IH1 Hf2 IH2]; intros Hl Er.
  - done.
  - injection Er as <-. apply Hl. by left.
  - apply IH; [|done]. intros m Hm. exists n, g. split_and!; [done..|].
    destruct (Hl n ltac:(by left)) as (c & cn & Hc & Hin & Hlk). eapply linked_up; [done| |done|done|done].
    destruct (w_queue _ _ Hw c cn n Hc Hin) as [(q & Hq & _)|(g' & Hg' & Hp)]; [|congruence].
    by rewrite (w_disjoint _ _ Hw n) in Hg; [|rewrite Hq].
  - apply IH2; [|done]. intros m Hm. apply Hl. by right.
Qed.

(** What is known of the process that [pick_next] gives. *)
Definition picked s (cp : cpu) (p : Z) (x : proc) s2 : Prop :=
  s.(procs) !! p = Some x ∧ x.(state) = RUNNABLE ∧ in_order s2 ∧ evolves s s2 ∧ stays s s2 ∧ s2.(procs) = s.(procs) ∧
  (if x.(idle) then p = cp.(idle_proc) else linked s x.(container_of_proc)) ∧ ∀ n, waiting s2 n ↔ n ≠ p ∧ waiting s n.

Lemma picked_idle s k cp : sound (Some k) s → s.(cpus) !! k = Some cp → ∃ x, picked s cp cp.(idle_proc) x s.
Proof.
  intros Hs Hk. destruct (s_idle _ _ Hs k cp Hk) as (x & Hx & Hi & [Hr|[? _]]); [|done]. exists x.
  split; [done|]. split; [done|]. split; [apply Hs|]. split; [done|]. split; [done|]. split; [done|]. rewrite Hi. split; [done|].
  intros n. split; [|by intros []]. intros Hwt. split; [|done]. intros ->. apply (s_queued _ _ Hs _ x Hx) in Hwt as [_ ?]. congruence.
Qed.

Lemma pick_panic s k cp : in_order s → s.(panic_flag) = true → s.(cpus) !! k = Some cp →
  ∃ f0, ∀ fuel, (f0 ≤ fuel)%nat → pick_next root fuel k s = Ok (cp.(idle_proc), s).
Proof.
  intros Ho Hp Hk. destruct (w_root _ _ (o_wf _ Ho)) as (rc & Hr & _).
  destruct (fix_marks root s rc ∅ (o_wf _ Ho) (o_noskip _ Ho) Hr) as [f0 E]; [by intros g ?%elem_of_empty|]. rewrite mark_empty in E.
  exists (S f0). intros fuel Hf. unfold pick_next. destruct fuel as [|fuel]; [lia|].
  assert (E0 : pick_next_r root (S fuel) k root s = Ok (cp.(idle_proc), s)).
  { cbn [pick_next_r]. by rewrite (bind_Ok _ _ s true s) ?(bind_Ok _ _ _ _ _ (cpus_run s k cp Hk)) //; rewrite /gets Hp. }
  rewrite (bind_Ok _ _ _ _ _ E0) (bind_Ok _ _ _ _ _ (containers_run s root rc Hr)) (bind_Ok _ _ s tt s); [done|]. apply E. lia.
Qed.

Lemma pick_sound s k cp : sound (Some k) s → s.(cpus) !! k = Some cp →
  ∃ p x s2 f0, picked s cp p x s2 ∧ ∀ fuel, (f0 ≤ fuel)%nat → pick_next root fuel k s = Ok (p, s2).
Proof.
  intros Hs Hk. pose proof (s_order _ _ Hs) as Ho. pose proof (o_wf _ Ho) as Hw. destruct (picked_idle s k cp Hs Hk) as (xi & Hxi).
  destruct (s.(panic_flag)) eqn:Ep.
  { destruct (pick_panic s k cp Ho Ep Hk) as [f0 E]. by exists cp.(idle_proc), xi, s, f0. }
  destruct (w_root _ _ Hw) as (rc & Hr & _).
  destruct (pick_next_spec root s k cp rc Hw (o_noskip _ Ho) Ep Hk Hr) as (r & p & s2 & f0 & Hf & Hch & E).
  destruct r as [n|]; [|destruct Hch as [-> ->]; by exists cp.(idle_proc), xi, s, f0].
  destruct Hch as (-> & c & cn & Hc & Hin & [x Hx] & ->). exists n, x, (taken c n cn s), f0. split; [|done].
  destruct (leave_spec s n c cn Ho Hc Hin) as (Ho2 & Hno & _ & Hp).
  destruct (proj2 (s_queued _ _ Hs n x Hx)) as [Hst Hi]; [by exists c, cn|].
  split; [done|]. split; [done|]. split; [exact Ho2|]. split; [by eapply evolves_put|]. split.
  { eapply stays_put; [done..|]. intros m Hm Hs'. cbn. rewrite Hp in Hm. apply elem_of_cons in Hm as [->|?]; [|done].
    rewrite (w_disjoint _ _ Hw n) in Hs'; [by destruct Hs'|by rewrite Hx]. }
  split; [done|]. rewrite Hi. split.
  - destruct (first_of_linked s (inorder rc.(rq)) n Hw) as (c' & cn' & Hc' & Hin' & Hl); [|done|].
    { intros m Hm. exists root, rc. split_and!; [done..|constructor]. }
    destruct (w_queue _ _ Hw c' cn' n Hc' Hin') as [(q & Hq & Hqc)|(g & Hg & _)]; [congruence|].
    by rewrite (w_disjoint _ _ Hw n) in Hg; [|rewrite Hx].
  - intros m. by apply (waiting_leave s c cn _ _ n m).
Qed.

Lemma in_order_cpus s l : in_order s → in_order (set_cpus l s).
Proof. intros [[? ? ? ? ? ? ? ?] ? ? ? ?]. split; [split|..]; assumption. Qed.

(** *** Running the process taken *)

Section switch.
Context (s s2 : kernel) (k : nat) (cp cp' : cpu) (p : Z) (x x' : proc).
Hypothesis Hs : sound (Some k) s.
Hypothesis Hk : s.(cpus) !! k = Some cp.
Hypothesis Hpick : picked s cp p x s2.
Hypothesis Hr : x'.(state) = RUNNING.
Hypothesis Hcore : pcore x' = pcore x.
Hypothesis Hc : x'.(container_of_proc) = x.(container_of_proc).
Hypothesis Hv : x'.(pinfo).(vruntime) = x.(pinfo).(vruntime).
Hypothesis Ht : cp'.(thisproc) = p.
Hypothesis Hi : cp'.(idle_proc) = cp.(idle_proc).
Definition switched : kernel := set_cpus (<[k := cp']> s.(cpus)) (putp p x' s2).

Lemma switched_cpus j cj : switched.(cpus) !! j = Some cj → j = k ∧ cj = cp' ∨ j ≠ k ∧ s.(cpus) !! j = Some cj.
Proof.
  cbn. assert (Hlt : (k < length s.(cpus))%nat) by by eapply lookup_lt_Some. destruct (decide (j = k)) as [->|Hne].
  - rewrite list_lookup_insert_eq //. intros [= <-]. by left.
  - rewrite list_lookup_insert_ne //. by right.
Qed.
Lemma switched_procs n : switched.(procs) !! n = if decide (n = p) then Some x' else s.(procs) !! n.
Proof. destruct Hpick as (_ & _ & _ & _ & _ & Hp2 & _). change (procs switched) with (procs (putp p x' s2)). by rewrite putp_lookup Hp2. Qed.
Lemma switched_idle_flag : x'.(idle) = x.(idle).
Proof using Hcore. unfold pcore in Hcore. congruence. Qed.
Lemma switched_stays : stays s switched.
Proof. apply Hpick. Qed.

(** The process taken was nobody's. *)
Lemma switched_other j cj : s.(cpus) !! j = Some cj → j ≠ k → cj.(thisproc) ≠ p.
Proof.
  destruct Hpick as (Hx & Hst & _). intros Hj Hjk E. destruct (s_this _ _ Hs j cj Hj) as (y & Hy & Hyr & _); [congruence|].
  rewrite E in Hy. congruence.
Qed.

Lemma switched_this j cj : switched.(cpus) !! j = Some cj → ∃ y, switched.(procs) !! cj.(thisproc) = Some y ∧ y.(state) = RUNNING ∧
  (if y.(idle) then cj.(thisproc) = cj.(idle_proc) else linked switched y.(container_of_proc)).
Proof.
  destruct Hpick as (_ & _ & _ & _ & _ & _ & Hhome & _). intros [[-> ->]|[Hne Hj]]%switched_cpus.
  - exists x'. rewrite switched_procs Ht decide_True // switched_idle_flag Hc Hi. split_and!; [done..|].
    destruct x.(idle); [done|]. apply (stays_linked s); [apply switched_stays|done].
  - destruct (s_this _ _ Hs j cj Hj) as (y & Hy & Hyr & Hyl); [congruence|]. exists y.
    rewrite switched_procs decide_False; [|by eapply switched_other]. split_and!; [done..|].
    destruct y.(idle); [done|]. apply (stays_linked s); [apply switched_stays|done].
Qed.

Lemma switched_once i j ci cj : switched.(cpus) !! i = Some ci → switched.(cpus) !! j = Some cj → ci.(thisproc) = cj.(thisproc) → i = j.
Proof.
  intros [[-> ->]|[Hi' Hci]]%switched_cpus [[-> ->]|[Hj' Hcj]]%switched_cpus E; [done| | |].
  - rewrite Ht in E. by destruct (switched_other j cj Hcj Hj').
  - rewrite Ht in E. by destruct (switched_other i ci Hci Hi').
  - apply (s_once _ _ Hs i j ci cj); congruence.
Qed.

Lemma switched_old j cj : switched.(cpus) !! j = Some cj → ∃ dj, s.(cpus) !! j = Some dj ∧ cj.(idle_proc) = dj.(idle_proc).
Proof. intros [[-> ->]|[Hne Hj']]%switched_cpus; [by exists cp|by exists cj]. Qed.

Lemma switched_idle j cj : switched.(cpus) !! j = Some cj → ∃ y, switched.(procs) !! cj.(idle_proc) = Some y ∧ y.(idle) = true ∧
  (y.(state) = RUNNABLE ∨ None ≠ Some j ∧ cj.(thisproc) = cj.(idle_proc)).
Proof.
  destruct Hpick as (Hx & _ & _ & _ & _ & _ & Hhome & _). intros Hj. pose proof (switched_cpus j cj Hj) as Hcases.
  destruct (switched_old j cj Hj) as (dj & Hdj & ->). destruct (s_idle _ _ Hs j dj Hdj) as (y & Hy & Hyi & Hys).
  rewrite switched_procs. case_decide as Hn.
  - exists x'. rewrite Hn Hx in Hy. injection Hy as <-. split; [done|]. split; [by rewrite switched_idle_flag|]. right. split; [done|].
    rewrite Hyi in Hhome. assert (j = k) as -> by (eapply (s_idle_once _ _ Hs); [done|exact Hk|congruence]).
    destruct Hcases as [[_ ->]|[? _]]; [congruence|done].
  - exists y. split_and!; [done..|]. destruct Hys as [?|[Hjk Hjt]]; [by left|right]. split; [done|].
    destruct Hcases as [[-> _]|[_ Hj']]; [done|congruence].
Qed.

Lemma switch_sound : sound None switched.
Proof.
  pose proof Hpick as (Hx & Hst & Ho2 & He2 & Hst2 & Hp2 & _ & Hwt). split.
  - apply in_order_cpus, (in_order_proc s2 p x); [done|by rewrite Hp2|done| |by right]. rewrite Hv -(key_proc s p x Hx). apply Hs.
  - intros c cn Hcn. by eapply (stays_ids s s2 Hst2 He2 (s_ids _ _ Hs)).
  - intros n y. rewrite switched_procs. intros Hy Hyi. apply (stays_some s s2 _ Hst2). case_decide.
    + injection Hy as <-. rewrite Hc. apply (s_home _ _ Hs p x Hx). by rewrite -switched_idle_flag.
    + by apply (s_home _ _ Hs n y).
  - intros j cj Hj _. exact (switched_this j cj Hj).
  - intros n y. rewrite switched_procs. case_decide as Hn; intros Hy Hyr.
    + exists k, cp'. split; [|split; congruence]. apply list_lookup_insert_eq. by apply lookup_lt_Some with cp.
    + destruct (s_running _ _ Hs n y Hy Hyr) as (j & cj & Hj & Hjk & Hjt). exists j, cj. split; [|split; congruence].
      cbn. rewrite list_lookup_insert_ne; congruence.
  - intros i j ci cj Hci Hcj _ _. by apply switched_once.
  - apply switched_idle.
  - intros n y. rewrite switched_procs. case_decide; intros Hy Hyi; [injection Hy as <-; by right|by apply (s_idle_state _ _ Hs n)].
  - intros i j ci cj Hci Hcj E. destruct (switched_old i ci Hci) as (di & Hdi & Ei). destruct (switched_old j cj Hcj) as (dj & Hdj & Ej).
    apply (s_idle_once _ _ Hs i j di dj); congruence.
  - intros n y Hy. change (waiting switched n) with (waiting s2 n). rewrite Hwt. rewrite switched_procs in Hy. case_decide as Hn.
    + injection Hy as <-. rewrite Hr. split; by intros [].
    + rewrite (s_queued _ _ Hs n y Hy). tauto.
Qed.
End switch.

Lemma upd_cpu_run s k cp f : s.(cpus) !! k = Some cp → upd_cpu k f s = Ok (tt, set_cpus (<[k := f cp]> s.(cpus)) s).
Proof.
  intros Hk. unfold upd_cpu, modify. do 3 f_equal. apply list_eq. intros j. destruct (decide (j = k)) as [->|Hne].
  - rewrite list_lookup_alter_eq Hk list_lookup_insert_eq //. by eapply lookup_lt_Some.
  - by rewrite list_lookup_alter_ne // list_lookup_insert_ne.
Qed.

(** The end of [simple_sched], from the process taken. *)
Definition run_next (k : nat) (now this next : Z) : M kernel unit :=
  update_this_proc root_proc k next ;;
  y ← get_proc next;
  assert_ (bool_decide (y.(state) = RUNNABLE)) ;;
  upd_proc next (with_state RUNNING) ;;
  if negb (next =? this) then
    upd_cpu k (λ cp, mkCpu cp.(thisproc) cp.(idle_proc) next cp.(timer_set)) ;;
    upd_proc next (λ y, with_pinfo (with_start now y.(pinfo)) y)
  else mret tt.

Lemma run_next_spec s s2 k cp p x now this : sound (Some k) s → s.(cpus) !! k = Some cp → picked s cp p x s2 →
  ∃ s', run_next k now this p s2 = Ok (tt, s') ∧ sound None s'.
Proof.
  intros Hs Hk Hpk. pose proof Hpk as (Hx & Hst & _ & He2 & _ & Hp2 & _). rewrite -Hp2 in Hx.
  assert (Hk2 : s2.(cpus) !! k = Some cp) by by rewrite (e_cpus _ _ He2). assert (Hlt : (k < length s2.(cpus))%nat) by by eapply lookup_lt_Some.
  unfold run_next, update_this_proc.
  set (cp1 := mkCpu p cp.(idle_proc) cp.(pgdir_of) (if negb (x.(pid) =? 0) && negb (p =? root_proc) && negb cp.(timer_set) then true else cp.(timer_set))).
  set (s3 := set_cpus (<[k := cp1]> s2.(cpus)) s2). assert (Hx3 : s3.(procs) !! p = Some x) by done.
  set (x1 := with_state RUNNING x). set (s4 := putp p x1 s3). assert (Hk4 : s4.(cpus) !! k = Some cp1) by by apply list_lookup_insert_eq.
  assert (Hcode : ∀ (rest : M kernel unit) r, rest s4 = r →
    (x ← get_proc p; cp ← get_cpu k; upd_cpu k (λ cp, mkCpu p cp.(idle_proc) cp.(pgdir_of)
      (if negb (x.(pid) =? 0) && negb (p =? root_proc) && negb cp.(timer_set) then true else cp.(timer_set)))) s2 = Ok (tt, s3) ∧
    (y ← get_proc p; assert_ (bool_decide (y.(state) = RUNNABLE)) ;; upd_proc p (with_state RUNNING) ;; rest) s3 = r).
  { intros rest r E. split.
    - rewrite (bind_Ok _ _ _ _ _ (procs_run s2 p x Hx)) (bind_Ok _ _ _ _ _ (cpus_run s2 k cp Hk2)). by rewrite (upd_cpu_run s2 k cp).
    - rewrite (bind_Ok _ _ _ _ _ (procs_run s3 p x Hx3)) bool_decide_eq_true_2 //. rewrite (bind_Ok _ _ s3 tt s3) //.
      by rewrite (bind_Ok _ _ _ _ _ (upd_proc_run s3 p x _ Hx3)). }
  destruct (Z.eqb_spec p this) as [Heq|Hne]; cbn [negb].
  - destruct (Hcode (mret tt) (Ok (tt, s4)) eq_refl) as [E1 E2]. exists s4. split; [by rewrite (bind_Ok _ _ _ _ _ E1)|].
    replace s4 with (switched s s2 k cp1 p x1); [by apply (switch_sound s s2 k cp cp1 p x x1)|].
    apply kernel_eq; [done..| |done]. cbn. by rewrite (e_cpus _ _ He2).
  - set (x2 := with_pinfo (with_start now x1.(pinfo)) x1). set (cp2 := mkCpu p cp.(idle_proc) p cp1.(timer_set)).
    set (s5 := putp p x2 (set_cpus (<[k := cp2]> s4.(cpus)) s4)).
    destruct (Hcode (upd_cpu k (λ cp, mkCpu cp.(thisproc) cp.(idle_proc) p cp.(timer_set)) ;;
      upd_proc p (λ y, with_pinfo (with_start now y.(pinfo)) y)) (Ok (tt, s5))) as [E1 E2].
    { rewrite (bind_Ok _ _ _ _ _ (upd_cpu_run s4 k cp1 _ Hk4)). rewrite (upd_proc_run _ p x1) //. cbn. apply lookup_insert_eq. }
    exists s5. split; [by rewrite (bind_Ok _ _ _ _ _ E1)|].
    replace s5 with (switched s s2 k cp2 p x2); [by apply (switch_sound s s2 k cp cp2 p x x2)|].
    apply kernel_eq; [cbn; by rewrite insert_insert_eq|done|cbn|done]. by rewrite list_insert_insert_eq (e_cpus _ _ He2).
Qed.

Lemma resched_step s k now st : sound None s → enabled s (Resched k now st) → ∃ s', runs_to (Resched k now st) s s' ∧ sound None s'.
Proof.
  intros Hs (Hst & cp & x & Hk & Hx & Hidle & Hroom).
  destruct (s_this _ _ Hs k cp Hk) as (z & Hz & Hr & _); [done|]. rewrite Hx in Hz. injection Hz as <-.
  assert (Hstart : ∀ fuel, simple_sched root root_proc fuel k now st s =
    (if x.(killed) && negb (bool_decide (st = ZOMBIE)) then mret tt
     else update_this_state fuel k now st ;; next ← pick_next root fuel k; run_next k now cp.(thisproc) next) s).
  { intros fuel. unfold simple_sched. rewrite (bind_Ok _ _ _ _ _ (cpus_run s k cp Hk)). cbv zeta.
    rewrite (bind_Ok _ _ _ _ _ (procs_run s _ x Hx)) Hr (bool_decide_eq_true_2 (RUNNING = RUNNING)) //. }
  destruct (x.(killed) && negb (bool_decide (st = ZOMBIE))) eqn:Ekill.
  { exists s. split; [|done]. exists 0%nat. intros fuel _. cbn [run]. by rewrite Hstart. }
  destruct (update_this_state_spec s k cp x now st Hs Hk Hx Hst Hidle Hroom) as (f1 & s1 & Hs1 & Hc1 & E1). rewrite -Hc1 in Hk.
  destruct (pick_sound s1 k cp Hs1 Hk) as (p & y & s2 & f2 & Hpk & E2).
  destruct (run_next_spec s1 s2 k cp p y now cp.(thisproc) Hs1 Hk Hpk) as (s' & E3 & Hs').
  exists s'. split; [|done]. exists (f1 + f2)%nat. intros fuel Hf. cbn [run]. rewrite Hstart.
  rewrite (bind_Ok _ _ s tt s1); [|apply E1; lia]. rewrite (bind_Ok _ _ s1 p s2); [|apply E2; lia]. done.
Qed.

(** ** The theorem *)

Lemma initial_sound s : initial s → sound None s.
Proof.
  intros [Hw Hsz Hq Hp Hc Hi Ho]. assert (Hno : ∀ n, ¬ waiting s n).
  { intros n (c & cn & Hcn & Hn). destruct (Hq c cn Hcn) as (E & _). rewrite E in Hn. by apply not_elem_of_nil in Hn. }
  assert (Hinfo : ∀ n i, info_of s n = Some i → i = init_schinfo i.(group)).
  { intros n i. unfold info_of. destruct (s.(procs) !! n) as [p|] eqn:Hn; [intros [= <-]; by destruct (Hp n p Hn) as [-> _]|].
    destruct (s.(containers) !! n) as [c|] eqn:Hcn; [|done]. intros [= <-]. by destruct (Hq n c Hcn) as (_ & -> & _). }
  assert (Hrun : ∀ p x, s.(procs) !! p = Some x → x.(state) = RUNNING → x.(idle) = true).
  { intros p x Hx Hr. destruct (x.(idle)) eqn:Ei; [done|]. destruct (Hp p x Hx) as [_ H']. destruct (H' Ei) as [? _]. congruence. }
  split; try done.
  - split; [done| | | |done].
    + intros n i Hn. by rewrite (Hinfo n i Hn).
    + intros n. unfold key. destruct (info_of s n) as [i|] eqn:Hn; [|cbn; lia]. rewrite (Hinfo n i Hn). cbn. lia.
    + intros c cn Hcn. destruct (Hq c cn Hcn) as (-> & _). constructor.
  - intros c cn Hcn. by apply (Hq c cn Hcn).
  - intros p x Hx Hix. by apply (Hp p x Hx).
  - intros k cp Hk _. destruct (Hc k cp Hk) as (-> & x & Hx & Hix & Hr). exists x. by rewrite Hix.
  - intros p x Hx Hr. destruct (Hi p x Hx (Hrun p x Hx Hr)) as (k & cp & Hk & <-). exists k, cp. split_and!; [done..|]. by apply (Hc k cp Hk).
  - intros j k cj ck Hj Hk _ _. rewrite (proj1 (Hc j cj Hj)) (proj1 (Hc k ck Hk)). by apply Ho.
  - intros k cp Hk. destruct (Hc k cp Hk) as (-> & x & Hx & Hix & Hr). exists x. split_and!; [done..|]. by right.
  - intros p x Hx Hix. destruct (Hi p x Hx Hix) as (k & cp & Hk & <-). destruct (Hc k cp Hk) as (_ & y & Hy & _ & Hr). right. congruence.
  - intros p x Hx. split; [|by intros ?%Hno]. intros [Hr Hix]. destruct (Hp p x Hx) as [_ H']. destruct (H' Hix) as [? _]. congruence.
Qed.

Lemma step_sound s e : sound None s → enabled s e → ∃ s', runs_to e s s' ∧ sound None s'.
Proof.
  destruct e; intros Hs He; [by apply activate_step|by apply group_step|by apply resched_step|by apply kill_step|by apply fresh_step|by apply panic_step].
Qed.
Lemma runs_to_det e s s1 s2 : runs_to e s s1 → runs_to e s s2 → s1 = s2.
Proof. intros [f1 E1] [f2 E2]. specialize (E1 (f1 + f2)%nat ltac:(lia)). specialize (E2 (f1 + f2)%nat ltac:(lia)). congruence. Qed.
Lemma reach_sound s0 s : initial s0 → reach s0 s → sound None s.
Proof.
  intros H0. induction 1 as [|s e s' _ IH He Hr]; [by apply initial_sound|].
  destruct (step_sound s e IH He) as (s1 & Hr1 & Hs1). by rewrite (runs_to_det e s s' s1).
Qed.

(** The search ends at the first process of a queue, and what is before it in
    that queue is groups. *)
Lemma first_of_before s l p : first_of s l (Some p) → ∃ l1 l2, l1 ++ p :: l2 = l ∧ (∀ q, q ∈ l1 → is_Some (s.(containers) !! q)) ∨
  ∃ c cn, s.(containers) !! c = Some cn ∧ l1 ++ p :: l2 = inorder cn.(rq) ∧ ∀ q, q ∈ l1 → is_Some (s.(containers) !! q).
Proof.
  intros Hf. remember (Some p) as r eqn:Er. revert Er. induction Hf as [|n l q Hq|n l g x Hg Hf IH|n l g r Hg Hf1 IH1 Hf2 IH2]; intros Er; [done| | |].
  - injection Er as <-. exists [], l. left. split; [done|]. by intros m ?%elem_of_nil.
  - destruct (IH Er) as (l1 & l2 & [[E Hl]|Hc]); exists l1, l2; right; [by exists n, g|done].
  - destruct (IH2 Er) as (l1 & l2 & [[<- Hl]|Hc]); [|by exists l1, l2; right]. exists (n :: l1), l2. left. split; [done|].
    intros m [->|Hm]%elem_of_cons; [by eexists|by apply Hl].
Qed.

Lemma first_of_least s rc p : in_order s → s.(containers) !! root = Some rc → first_of s (inorder rc.(rq)) (Some p) →
  ∃ c cn, s.(containers) !! c = Some cn ∧ p ∈ inorder cn.(rq) ∧
    ∀ q, q ∈ inorder cn.(rq) → is_Some (s.(procs) !! q) → key s p ≤ key s q.
Proof.
  intros Ho Hr Hf. pose proof (o_wf _ Ho) as Hw.
  assert (Hc : ∃ c cn l1 l2, s.(containers) !! c = Some cn ∧ l1 ++ p :: l2 = inorder cn.(rq) ∧ ∀ q, q ∈ l1 → is_Some (s.(containers) !! q)).
  { destruct (first_of_before s _ p Hf) as (l1 & l2 & [[E Hl]|(c & cn & Hc & E & Hl)]); [by exists root, rc, l1, l2|by exists c, cn, l1, l2]. }
  destruct Hc as (c & cn & l1 & l2 & Hc & E & Hl). exists c, cn. split; [done|]. split; [rewrite -E; set_solver|].
  intros q Hq Hp. rewrite -E in Hq. apply elem_of_app in Hq as [Hq|[->|Hq]%elem_of_cons]; [|done|].
  - destruct (Hl q Hq) as [g Hg]. by rewrite (w_disjoint _ _ Hw q Hp) in Hg.
  - pose proof (o_sorted _ Ho c cn Hc) as Hs. rewrite -E in Hs. apply StronglySorted_app_1_r, StronglySorted_inv in Hs as [_ Hs].
    rewrite Forall_forall in Hs. apply Hs, cmp_lex in Hq; [lia|apply Ho].
Qed.

(** C5: In a state whose queues are in order, [pick_next] returns, leaves no mark,
    and takes what the depth-first search through the queues finds: the idle
    process when it finds nothing, and otherwise a process with the least
    virtual runtime of its queue, which leaves that queue.  The search has one
    result only. *)
Theorem pick_next_correct s k cp rc : in_order s → s.(panic_flag) = false → s.(cpus) !! k = Some cp → s.(containers) !! root = Some rc →
  ∃ r p s' f0, first_of s (inorder rc.(rq)) r ∧ (∀ r', first_of s (inorder rc.(rq)) r' → r' = r) ∧ chosen s cp r p s' ∧
    (∀ fuel, (f0 ≤ fuel)%nat → pick_next root fuel k s = Ok (p, s')) ∧
    (r ≠ None → ∃ c cn, s.(containers) !! c = Some cn ∧ p ∈ inorder cn.(rq) ∧
      ∀ q, q ∈ inorder cn.(rq) → is_Some (s.(procs) !! q) → key s p ≤ key s q).
Proof.
  intros Ho Hp Hk Hr. pose proof (o_wf _ Ho) as Hw.
  destruct (pick_next_spec root s k cp rc Hw (o_noskip _ Ho) Hp Hk Hr) as (r & p & s' & f0 & Hf & Hch & E).
  exists r, p, s', f0. split; [done|]. split; [intros r' Hf'; by eapply first_of_det|]. split; [done|]. split; [done|].
  intros Hne. destruct r as [n|]; [|done]. destruct Hch as (-> & _). by apply (first_of_least s rc).
Qed.

(** C4: From the start of the system, over any sequence of activations, calls of
    [_sched] on any processor, kills and re-uses of processes: the next call
    returns (no [ASSERT] of the scheduler fails); no process is current on two
    processors, and the running processes are the current ones; the processes
    waiting in the queues are the runnable ones that are not idle, each in the
    queue of its container, once; [node_cnt] is the length of the queue, which
    is in the order of virtual runtimes, addresses deciding between equal ones. *)
Theorem sched_sound s0 s e : initial s0 → reach s0 s → enabled s e →
  (∃ s', runs_to e s s') ∧
  (∀ j k cj ck, s.(cpus) !! j = Some cj → s.(cpus) !! k = Some ck → cj.(thisproc) = ck.(thisproc) → j = k) ∧
  (∀ p x, s.(procs) !! p = Some x → x.(state) = RUNNING ↔ ∃ k cp, s.(cpus) !! k = Some cp ∧ cp.(thisproc) = p) ∧
  (∀ p x, s.(procs) !! p = Some x → x.(state) = RUNNABLE ∧ x.(idle) = false ↔
    ∃ cn, s.(containers) !! x.(container_of_proc) = Some cn ∧ p ∈ inorder cn.(rq)) ∧
  (∀ c cn, s.(containers) !! c = Some cn → NoDup (inorder cn.(rq)) ∧ cn.(node_cnt) = Z.of_nat (length (inorder cn.(rq))) ∧
    StronglySorted (λ n m, key s n < key s m ∨ key s n = key s m ∧ n < m) (inorder cn.(rq))).
Proof.
  intros H0 Hreach He. pose proof (reach_sound s0 s H0 Hreach) as Hs. pose proof (s_order _ _ Hs) as Ho. pose proof (o_wf _ Ho) as Hw.
  split; [|split; [|split; [|split]]].
  - destruct (step_sound s e Hs He) as (s' & Hr & _). by exists s'.
  - intros j k cj ck Hj Hk. by apply (s_once _ _ Hs).
  - intros p x Hx. rewrite -(not_running_iff s p x Hs Hx). split; [intros (k & cp & Hk & _ & E)|intros (k & cp & Hk & E)]; by exists k, cp.
  - intros p x Hx. rewrite (s_queued _ _ Hs p x Hx). split; [|intros (cn & Hc & Hin); by eexists _, cn].
    intros (c & cn & Hc & Hin). exists cn. destruct (w_queue _ _ Hw c cn p Hc Hin) as [(q & Hq & E)|(g & Hg & _)].
    + rewrite Hx in Hq. injection Hq as <-. by rewrite E.
    + by rewrite (w_disjoint _ _ Hw p) in Hg; [|rewrite Hx].
  - intros c cn Hc. destruct (w_tree _ _ Hw c cn Hc) as (_ & Hnd & Hcnt & _). split; [done|]. split; [done|].
    pose proof (o_sorted _ Ho c cn Hc) as Hso. revert Hso. unfold ordered. clear Hc Hnd Hcnt. induction 1 as [|n l Hl IH Hn]; constructor; [done|].
    eapply Forall_impl; [exact Hn|]. intros m Hm. by apply cmp_lex; [apply Ho|].
Qed.
End events.

(** ** An instance, and witnesses *)

Section example.
#[local] Existing Instance ListOps.
Definition w_group : container := mkContainer (Some 1000) (init_schinfo true) Leaf 0 1.
Definition w_root : container := mkContainer None (init_schinfo true) Leaf 0 4.
Definition w_idle : proc := mkProc false true 0 RUNNING 1000 (init_schinfo false).
Definition w_proc : proc := mkProc false false 1 UNUSED 2000 (init_schinfo false).
Definition w0 : kernel :=
  mkKernel (<[16 := w_idle]> {[32 := w_proc]}) (<[1000 := w_root]> {[2000 := w_group]}) [mkCpu 16 16 0 false] false.
(** The process of the group is activated, then the group, and the idle process yields. *)
Definition w_events : list event := [Activate 32 false; Group 2000; Resched 0 10 RUNNABLE].
Definition w_step (s : kernel) (e : event) : kernel := match run 1000 64 50 e s with Ok (_, s') => s' | Fail _ => s end.
Definition w1 : kernel := Eval vm_compute in w_step w0 (Activate 32 false).
Definition w2 : kernel := Eval vm_compute in w_step w1 (Group 2000).
Definition w3 : kernel := Eval vm_compute in w_step w2 (Resched 0 10 RUNNABLE).

Lemma room_forall s d : 0 ≤ d → d < 2 ^ 63 → map_Forall (λ _ p, p.(pinfo).(vruntime) + d < 2 ^ 63) s.(procs) →
  map_Forall (λ _ c, c.(cinfo).(vruntime) + d < 2 ^ 63) s.(containers) → room s d.
Proof.
  intros H0 Hd Hp Hc. split; [done|]. intros n. unfold key, info_of. destruct (s.(procs) !! n) as [p|] eqn:Hn; [by apply (Hp n)|].
  destruct (s.(containers) !! n) as [c|] eqn:Hcn; [by apply (Hc n)|done].
Qed.

Lemma w0_initial : initial 1000 w0.
Proof.
  assert (Hps : ∀ p x, w0.(procs) !! p = Some x → p = 16 ∧ x = w_idle ∨ p = 32 ∧ x = w_proc).
  { intros p x. cbn. rewrite lookup_insert_Some lookup_singleton_Some. naive_solver. }
  assert (Hcs : ∀ c x, w0.(containers) !! c = Some x → c = 1000 ∧ x = w_root ∨ c = 2000 ∧ x = w_group).
  { intros c x. cbn. rewrite lookup_insert_Some lookup_singleton_Some. naive_solver. }
  assert (Hks : ∀ k x, w0.(cpus) !! k = Some x → k = 0%nat ∧ x = mkCpu 16 16 0 false).
  { intros [|k] x; [intros [= <-]; done|]. by destruct k. }
  split.
  - split.
    + by intros n [x [[-> _]|[-> _]]%Hps].
    + by intros n p [[_ ->]|[_ ->]]%Hps.
    + by intros n p [[_ ->]|[_ ->]]%Hcs.
    + intros c cn [[_ ->]|[_ ->]]%Hcs; (split; [done|]); (split; [constructor|done]).
    + by intros c cn n [[_ ->]|[_ ->]]%Hcs Hn; apply not_elem_of_nil in Hn.
    + by exists w_root.
    + intros c cn [[-> ->]|[-> ->]]%Hcs Hne; [done|]. exists 1000. split; [done|]. by exists w_root.
    + exists (λ c, if c =? 1000 then 1%nat else 0%nat). intros c cn up [[-> ->]|[-> ->]]%Hcs; [done|]. intros [= <-]. cbn. lia.
  - vm_compute. done.
  - by intros c cn [[_ ->]|[_ ->]]%Hcs.
  - intros p x [[_ ->]|[_ ->]]%Hps; (split; [done|]); [done|]. intros _. split; [done|]. by exists w_group.
  - intros k cp [-> ->]%Hks. split; [done|]. by exists w_idle.
  - intros p x [[-> ->]|[_ ->]]%Hps; [|done]. intros _. by exists 0%nat, (mkCpu 16 16 0 false).
  - intros j k cj ck [-> _]%Hks [-> _]%Hks. done.
Qed.

Lemma w3_reached : reach 1000 64 w0 w3.
Proof.
  apply (reach_step _ _ _ w2 (Resched 0 10 RUNNABLE)); [apply (reach_step _ _ _ w1 (Group 2000)); [apply (reach_step _ _ _ w0 (Activate 32 false)); [constructor|..]|..]|..].
  - by exists w_proc.
  - by exists 0%nat.
  - eexists _, 1000, w_root. split; [reflexivity|]. split; [reflexivity|]. split; [reflexivity|]. apply not_elem_of_nil.
  - by exists 0%nat.
  - split; [done|]. exists (mkCpu 16 16 0 false), w_idle. split_and!; [done..|]. apply room_forall; [done..| |]; apply (bool_decide_unpack _); by vm_compute.
  - exists 20%nat. intros fuel Hf. do 20 (destruct fuel as [|fuel]; [lia|]). vm_compute. reflexivity.
Qed.

Lemma sched_sound_witness : initial 1000 w0 ∧ reach 1000 64 w0 w3 ∧ enabled w3 (Resched 0 25 SLEEPING) ∧
  ∃ s', runs_to 1000 64 (Resched 0 25 SLEEPING) w3 s'.
Proof.
  assert (He : enabled w3 (Resched 0 25 SLEEPING)).
  { split; [done|]. eexists _, _. split; [reflexivity|]. split; [reflexivity|]. split; [done|].
    apply room_forall; [done..| |]; apply (bool_decide_unpack _); by vm_compute. }
  split; [apply w0_initial|]. split; [apply w3_reached|]. split; [done|].
  apply (sched_sound 1000 64 w0 w3 (Resched 0 25 SLEEPING) w0_initial w3_reached He).
Defined.

Lemma pick_next_correct_witness : in_order 1000 w2 ∧ ∃ f0 s', ∀ fuel, (f0 ≤ fuel)%nat → pick_next 1000 fuel 0 w2 = Ok (32, s').
Proof.
  assert (Ho : in_order 1000 w2).
  { apply (s_order _ None), (reach_sound _ 64 w0); [apply w0_initial|].
    apply (reach_step _ _ _ w1 (Group 2000)); [apply (reach_step _ _ _ w0 (Activate 32 false)); [constructor|by exists w_proc|by exists 0%nat]| |by exists 0%nat].
    eexists _, 1000, w_root. split; [reflexivity|]. split; [reflexivity|]. split; [reflexivity|]. apply not_elem_of_nil. }
  split; [done|].
  destruct (pick_next_correct 1000 w2 0 (mkCpu 16 16 0 false) (mkContainer None (init_schinfo true) (of_list [2000]) 1 4) Ho) as (r & p & s' & f0 & Hf & Hdet & Hch & E & _); [done..|].
  assert (Hf' : first_of w2 [2000] (Some 32)).
  { eapply first_in; [reflexivity|]. eapply first_proc. reflexivity. }
  rewrite -(Hdet _ Hf') in Hch. destruct Hch as [-> _]. by exists f0, s'.
Defined.
End example.
