(* ===== verification/Timer.v ===== *)
(** * Timers of a processor

    [src/kernel/cpu.c], [src/driver/clock.c] and the timer handler of
    [src/kernel/sched.c]: each processor keeps its timers in a red-black tree
    ordered by the millisecond at which they are due, and keeps its clock set
    to the first of them.  The tree is an ordered queue ([RbQueue.v]).

    The generic timer of the processor is a counter, [count i] at its [i]-th
    use by this processor (it is read by [get_timestamp], and a write to
    [cntp_tval_el0] takes it too: the clock then rings at the counter plus the
    value written).  What a handler other than those of the repository does,
    and the process that [thisproc()] finds, are arguments.

    [timers_sound]: over all sequences of calls and interrupts nothing fails,
    and the clock never rings before the first timer is due, nor later than the
    time that passed while it was set.  [set_cpu_timer_bounds]: how far ahead a
    timer can be.  [timer_clock_handler_correct]: an interrupt comes to its end
    having run the handlers of the timers that are due, once each, in order. *)

From stdpp Require Import sorting.
From iris.prelude Require Import prelude.
From S2P Require Import Prelude RbTree RbQueue Sched.
#[local] Open Scope Z_scope.

(** ** Data *)

(** [struct timer]; [handler] is the address of the function. *)
Record timer : Type := mkTimer { triggered : bool; elapse : Z; _key : Z; handler : Z; data : Z }.

(** A processor with its clock: [online] and [timer] of [struct cpu], the
    timers by address, [clock.one_ms], whether [clock.handler] is set, the
    value of the counter at which the clock rings, and the number of uses of
    the counter so far. *)
Record core : Type := mkCore {
  online : bool;
  root : tree;
  timers : gmap Z timer;
  one_ms : Z;
  clock_handler : bool;
  cval : Z;
  uses : nat;
}.

Definition set_online (b : bool) (s : core) : core := mkCore b s.(root) s.(timers) s.(one_ms) s.(clock_handler) s.(cval) s.(uses).
Definition set_root (t : tree) (s : core) : core := mkCore s.(online) t s.(timers) s.(one_ms) s.(clock_handler) s.(cval) s.(uses).
Definition set_timers (x : gmap Z timer) (s : core) : core := mkCore s.(online) s.(root) x s.(one_ms) s.(clock_handler) s.(cval) s.(uses).
Definition set_one_ms (v : Z) (s : core) : core := mkCore s.(online) s.(root) s.(timers) v s.(clock_handler) s.(cval) s.(uses).
Definition set_handler (b : bool) (s : core) : core := mkCore s.(online) s.(root) s.(timers) s.(one_ms) b s.(cval) s.(uses).
Definition set_cval (v : Z) (s : core) : core := mkCore s.(online) s.(root) s.(timers) s.(one_ms) s.(clock_handler) v s.(uses).
Definition tick (s : core) : core := mkCore s.(online) s.(root) s.(timers) s.(one_ms) s.(clock_handler) s.(cval) (S s.(uses)).

Definition with_triggered (b : bool) (t : timer) : timer := mkTimer b t.(elapse) t.(_key) t.(handler) t.(data).
Definition with_elapse (e : Z) (t : timer) : timer := mkTimer t.(triggered) e t.(_key) t.(handler) t.(data).
Definition with_key (k : Z) (t : timer) : timer := mkTimer t.(triggered) t.(elapse) k t.(handler) t.(data).
Definition with_handler (h : Z) (t : timer) : timer := mkTimer t.(triggered) t.(elapse) t.(_key) h t.(data).
Definition with_data (d : Z) (t : timer) : timer := mkTimer t.(triggered) t.(elapse) t.(_key) t.(handler) d.

Definition SLICE : Z := 5.
Definition con_to_limit : list Z := [1; 1; 1; 1; 1].

(** What [sched_timer_handler] reads of [thisproc()]. *)
Record running : Type := mkRunning { idle : bool; start_time : Z; container_id : nat }.

(** ** Code *)

Section code.
Context `{RbOps}.
(** The counter and its frequency; the addresses of [hello], of
    [sched_timer_handler], of [hello_timer[cpuid()]] and of
    [sched_timer[cpuid()]]; the running process; [yield]; other handlers. *)
Context (count : nat → Z) (freq : Z) (HELLO SCHED hello_timer sched_timer : Z).
Context (thisproc : core → running) (yield : M core unit) (other : Z → Z → M core unit).
Abbreviation M := (M core).

Definition get_timer (n : Z) : M timer := m ← gets timers; deref (m !! n).
Definition upd_timer (n : Z) (f : timer → timer) : M unit :=
  t ← get_timer n; modify (λ s, set_timers (<[n := f t]> s.(timers)) s).

(** *** [driver/clock.c] *)

Definition get_timestamp : M Z := i ← gets uses; modify tick ;; mret (count i).

Definition get_timestamp_ms : M Z :=
  c ← get_timestamp; ms ← gets one_ms;
  if ms =? 0 then fault else mret (c / ms).

(** [msr cntp_tval_el0] *)
Definition write_tval (t : Z) : M unit := modify (λ s, tick (set_cval (count s.(uses) + t) s)).

Definition reset_clock (countdown_ms : Z) : M unit :=
  ms ← gets one_ms;
  let t := u64 (countdown_ms * ms) in
  assert_ (t <=? 0x7fffffff) ;; write_tval t.

Definition init_clock : M unit := modify (set_one_ms (freq / 1000)) ;; reset_clock 1000.

Definition set_clock_handler : M unit := modify (set_handler true).

(** *** [kernel/cpu.c] *)

Definition key_of (s : core) (n : Z) : Z := from_option _key 0 (s.(timers) !! n).

Definition __timer_cmp (s : core) (l r : Z) : bool :=
  let d := i64 (u64 (key_of s l - key_of s r)) in
  if d <? 0 then true else if d =? 0 then l <? r else false.

Definition _rb_first (t : tree) : option Z := head (inorder t).

Definition __timer_set_clock : M unit :=
  t ← gets root;
  match _rb_first t with
  | None => reset_clock 1000
  | Some node =>
      x ← get_timer node;
      let t1 := x.(_key) in
      t0 ← get_timestamp_ms;
      if t1 <=? t0 then reset_clock 0 else reset_clock (t1 - t0)
  end.

(** [ASSERT(0 == _rb_insert(&timer->_node, &cpus[cpuid()].timer, __timer_cmp))] *)
Definition link_timer (n : Z) : M unit :=
  t ← gets root; cmp ← gets __timer_cmp;
  match rb_insert cmp n t with Some t' => modify (set_root t') | None => panic end.

Definition set_cpu_timer (n : Z) : M unit :=
  upd_timer n (with_triggered false) ;;
  now ← get_timestamp_ms;
  x ← get_timer n;
  upd_timer n (with_key (u64 (now + x.(elapse)))) ;;
  link_timer n ;;
  __timer_set_clock.

Definition cancel_cpu_timer (n : Z) : M unit :=
  x ← get_timer n;
  assert_ (negb x.(triggered)) ;;
  modify (λ s, set_root (rb_erase n s.(root)) s) ;;
  __timer_set_clock.

Definition hello (n : Z) : M unit :=
  upd_timer n (λ t, with_data (u64 (t.(data) + 1)) t) ;;
  set_cpu_timer hello_timer.

(** [sched_timer_handler] of [kernel/sched.c] *)
Definition sched_timer_handler (n : Z) : M unit :=
  t ← get_timer n;
  if t.(triggered) then
    set_cpu_timer sched_timer ;;
    p ← gets thisproc;
    if p.(idle) then yield else
    now ← get_timestamp_ms;
    weight ← deref (con_to_weight !! p.(container_id));
    limit ← deref (con_to_limit !! p.(container_id));
    if SLICE / limit <=? u64 (u64 (now - p.(start_time)) * weight) / WEIGHT_SUM then yield else mret tt
  else mret tt.

(** [timer->handler(timer)] *)
Definition call_handler (h n : Z) : M unit :=
  if h =? HELLO then hello n else if h =? SCHED then sched_timer_handler n else other h n.

(** A timer is taken from the queue and its handler runs. *)
Definition fire (n : Z) : M unit :=
  cancel_cpu_timer n ;;
  upd_timer n (with_triggered true) ;;
  x ← get_timer n;
  call_handler x.(handler) n.

(** [while (1)] *)
Fixpoint fire_due (fuel : nat) : M unit :=
  match fuel with
  | O => fail OutOfFuel
  | S fuel =>
      t ← gets root;
      match _rb_first t with
      | None => mret tt
      | Some node =>
          now ← get_timestamp_ms;
          x ← get_timer node;
          if now <? x.(_key) then mret tt else fire node ;; fire_due fuel
      end
  end.

Definition timer_clock_handler (fuel : nat) : M unit := reset_clock 1000 ;; fire_due fuel.

Definition invoke_clock_handler (fuel : nat) : M unit :=
  b ← gets clock_handler;
  if negb b then panic else timer_clock_handler fuel.

(** Without the writes to the trap and translation registers. *)
Definition set_cpu_on : M unit :=
  init_clock ;;
  modify (set_online true) ;;
  upd_timer hello_timer (with_elapse 5000) ;;
  upd_timer hello_timer (with_handler HELLO) ;;
  set_cpu_timer hello_timer.

Definition set_cpu_off : M unit := modify (set_online false).
End code.

(** ** What holds of the queue and the clock *)

Section spec.
Context `{RbOps}.
Context (count : nat → Z) (freq : Z) (HELLO SCHED hello_timer sched_timer : Z).
Context (thisproc : core → running) (yield : M core unit) (other : Z → Z → M core unit).
Implicit Types s : core.

(** The counter does not run backwards, nor over in the time considered; its
    frequency, 19.2 MHz on the board, is below 429 MHz. *)
Context (count_mono : ∀ i, count i ≤ count (S i)) (count_range : ∀ i, 0 ≤ count i < 2 ^ 62).
Context (freq_range : 1000 ≤ freq ∧ 5 * freq ≤ 0x7fffffff).

(** The millisecond that the next use of the counter finds. *)
Definition now s : Z := count s.(uses) / s.(one_ms).

(** The longest countdown that [reset_clock] accepts. *)
Definition in_reach s (d : Z) : Prop := d * s.(one_ms) ≤ 0x7fffffff.
#[local] Instance in_reach_dec s d : Decision (in_reach s d).
Proof. unfold in_reach. apply _. Defined.

Record queue_ok s : Prop := {
  q_ms : s.(one_ms) = freq / 1000;
  q_tree : rb_ok s.(root);
  q_sorted : key_sorted (key_of s) (inorder s.(root));
  q_keys : key_range (key_of s);
  q_in : ∀ n, n ∈ inorder s.(root) → ∃ t, s.(timers) !! n = Some t ∧ t.(triggered) = false ∧ in_reach s (t.(_key) - now s);
}.

(** The timers of the kernel's own handlers are the processor's own, and they
    do not ask to run again at once. *)
Record timer_ok s (n : Z) (t : timer) : Prop := {
  t_elapse : 0 ≤ t.(elapse) ∧ in_reach s t.(elapse);
  t_hello : t.(handler) = HELLO → n = hello_timer ∧ 1 ≤ t.(elapse);
  t_sched : t.(handler) ≠ HELLO → t.(handler) = SCHED → n = sched_timer ∧ 1 ≤ t.(elapse);
}.
Definition timers_ok s : Prop := ∀ n t, s.(timers) !! n = Some t → timer_ok s n t.

(** The clock was last set for the first timer of the queue, by a use of the
    counter that followed the one that read the time. *)
Definition armed s : Prop :=
  match _rb_first s.(root) with
  | None => True
  | Some n => ∃ i, (S i < s.(uses))%nat ∧
      s.(cval) = count (S i) + Z.max 0 (key_of s n - count i / s.(one_ms)) * s.(one_ms)
  end.

Record sound s : Prop := { s_queue : queue_ok s; s_timers : timers_ok s; s_armed : armed s; s_handler : s.(clock_handler) = true }.

(** The clock alone changes, and time passes. *)
Definition clocked (k : nat) s s' : Prop :=
  s' = mkCore s.(online) s.(root) s.(timers) s.(one_ms) s.(clock_handler) s'.(cval) s'.(uses) ∧
  (s.(uses) ≤ s'.(uses) ≤ s.(uses) + k)%nat.

Lemma count_le i j : (i ≤ j)%nat → count i ≤ count j.
Proof. induction 1 as [|j _ IH]; [done|]. pose proof (count_mono j). lia. Qed.

Lemma ms_range : 1 ≤ freq / 1000 ∧ 5000 * (freq / 1000) ≤ 0x7fffffff.
Proof.
  split; [apply (Z.div_le_lower_bound freq); lia|]. pose proof (Z.mul_div_le freq 1000 ltac:(lia)). lia.
Qed.
Lemma ms_pos s : s.(one_ms) = freq / 1000 → 1 ≤ s.(one_ms) ≤ 0x7fffffff.
Proof. intros ->. pose proof ms_range. lia. Qed.

Lemma now_le s s' : (s.(uses) ≤ s'.(uses))%nat → s'.(one_ms) = s.(one_ms) → 1 ≤ s.(one_ms) → now s ≤ now s'.
Proof. intros Hu E Hp. unfold now. rewrite E. apply Z.div_le_mono; [lia|]. by apply count_le. Qed.
Lemma now_range s : 1 ≤ s.(one_ms) → 0 ≤ now s < 2 ^ 62.
Proof.
  intros Hp. unfold now. pose proof (count_range s.(uses)) as [? ?]. split; [apply Z.div_pos; lia|].
  apply Z.div_lt_upper_bound; [lia|]. nia.
Qed.

Lemma clocked_refl s : clocked 0 s s.
Proof. split; [by destruct s|lia]. Qed.
Lemma clocked_trans j k s1 s2 s3 : clocked j s1 s2 → clocked k s2 s3 → clocked (j + k) s1 s3.
Proof. destruct s1, s2, s3. intros [[= -> -> -> -> ->] H1] [[= -> -> -> -> ->] H2]. split; [done|cbn in *; lia]. Qed.

Lemma queue_ok_later k s s' : queue_ok s → clocked k s s' → queue_ok s'.
Proof.
  intros Hq [E Hu]. pose proof (ms_pos s (q_ms _ Hq)) as Hp.
  assert (Hn : now s ≤ now s') by (apply now_le; [lia|by rewrite E|lia]). revert Hn. rewrite E. clear E. intros Hn.
  destruct Hq as [Hm Ht Hs Hk Hi]. split; [done..|]. cbn. intros n Hin. destruct (Hi n Hin) as (t & Hl & Hf & Hr).
  exists t. split; [done|]. split; [done|]. unfold in_reach in *. cbn in *. nia.
Qed.

(** *** The clock *)

Lemma timestamp_run s : 1 ≤ s.(one_ms) → get_timestamp_ms count s = Ok (now s, tick s).
Proof.
  intros Hp. unfold get_timestamp_ms. rewrite (bind_Ok _ _ s (count s.(uses)) (tick s)) //.
  rewrite (bind_Ok _ _ (tick s) s.(one_ms) (tick s)) //. destruct (Z.eqb_spec s.(one_ms) 0); [lia|done].
Qed.
Lemma tick_clocked s : clocked 1 s (tick s).
Proof. split; [done|cbn; lia]. Qed.

(** [reset_clock] refuses a countdown of more than [0x7fffffff] counts. *)
Lemma reset_clock_run d s : 0 ≤ d * s.(one_ms) < 2 ^ 64 →
  reset_clock count d s = if decide (in_reach s d) then Ok (tt, tick (set_cval (count s.(uses) + d * s.(one_ms)) s)) else Fail Panicked.
Proof.
  intros Hd. unfold reset_clock. rewrite (bind_Ok _ _ s s.(one_ms) s) // u64_small //. unfold in_reach.
  case_decide as E; [rewrite (proj2 (Z.leb_le _ _) E)|rewrite (proj2 (Z.leb_gt _ _)); [|lia]]; done.
Qed.

Lemma first_in t n : _rb_first t = Some n → n ∈ inorder t.
Proof. unfold _rb_first. destruct (inorder t); [done|]. intros [= ->]. by left. Qed.
Lemma key_of_eq s n t : s.(timers) !! n = Some t → key_of s n = t.(_key).
Proof. intros Hn. unfold key_of. by rewrite Hn. Qed.
Lemma get_timer_run s n t : s.(timers) !! n = Some t → get_timer n s = Ok (t, s).
Proof. intros Hn. unfold get_timer. rewrite (bind_Ok _ _ s s.(timers) s) // Hn //. Qed.
Lemma upd_timer_run s n t f : s.(timers) !! n = Some t → upd_timer n f s = Ok (tt, set_timers (<[n := f t]> s.(timers)) s).
Proof. intros Hn. unfold upd_timer. by rewrite (bind_Ok _ _ _ _ _ (get_timer_run s n t Hn)). Qed.

(** Setting the clock for the first timer, however far ahead that is. *)
Lemma set_clock_cases s n t : s.(one_ms) = freq / 1000 → _rb_first s.(root) = Some n → s.(timers) !! n = Some t → t.(_key) - now s < 2 ^ 32 →
  __timer_set_clock count s =
    if decide (in_reach s (t.(_key) - now s))
    then Ok (tt, tick (set_cval (count (S s.(uses)) + Z.max 0 (t.(_key) - now s) * s.(one_ms)) (tick s)))
    else Fail Panicked.
Proof.
  intros Hm Hf Ht Hd. pose proof (ms_pos s Hm) as Hp. unfold __timer_set_clock. rewrite (bind_Ok _ _ s s.(root) s) // Hf.
  rewrite (bind_Ok _ _ _ _ _ (get_timer_run s n t Ht)). cbv zeta. rewrite (bind_Ok _ _ _ _ _ (timestamp_run s ltac:(lia))).
  destruct (Z.leb_spec t.(_key) (now s)) as [Hle|Hlt].
  - rewrite reset_clock_run; [|cbn; lia]. case_decide as E1; [|destruct E1; unfold in_reach; lia].
    case_decide as E2; [by rewrite Z.max_l; [|lia]|exfalso; apply E2; unfold in_reach; nia].
  - rewrite reset_clock_run; [|cbn; nia]. unfold in_reach. cbn. by rewrite Z.max_r; [|lia].
Qed.

Lemma set_clock_run s : queue_ok s → ∃ s', __timer_set_clock count s = Ok (tt, s') ∧ clocked 2 s s' ∧ armed s'.
Proof.
  intros Hq. pose proof (ms_pos s (q_ms _ Hq)) as Hp. destruct (_rb_first s.(root)) as [n|] eqn:Hf.
  - destruct (q_in _ Hq n (first_in _ _ Hf)) as (t & Ht & _ & Hr). rewrite (set_clock_cases s n t) //; [|apply Hq|unfold in_reach in Hr; nia].
    rewrite decide_True //. eexists. split; [done|]. split; [split; [done|cbn; lia]|]. unfold armed. cbn. rewrite Hf. exists s.(uses).
    split; [lia|]. f_equal. unfold key_of. cbn. by rewrite Ht.
  - unfold __timer_set_clock. rewrite (bind_Ok _ _ s s.(root) s) // Hf. rewrite reset_clock_run; [|lia].
    rewrite decide_True; [|unfold in_reach; rewrite (q_ms _ Hq); pose proof ms_range; lia]. eexists. split; [done|].
    split; [split; [done|cbn; lia]|]. unfold armed. cbn. by rewrite Hf.
Qed.

(** *** The queue *)

Lemma key_of_put s n t m : key_of (set_timers (<[n := t]> s.(timers)) s) m = if decide (m = n) then t.(_key) else key_of s m.
Proof. unfold key_of. cbn. case_decide as E; [subst; by rewrite lookup_insert_eq|by rewrite lookup_insert_ne]. Qed.

(** A timer that is not queued may change. *)
Lemma queue_ok_put s n t : queue_ok s → n ∉ inorder s.(root) → 0 ≤ t.(_key) < 2 ^ 63 → queue_ok (set_timers (<[n := t]> s.(timers)) s).
Proof.
  intros [Hm Ht Hs Hk Hi] Hn Hr. split; [done|done| | |].
  - eapply key_sorted_same; [|exact Hs]. intros x Hx. rewrite key_of_put decide_False //. by intros ->.
  - intros m. rewrite key_of_put. case_decide; [done|apply Hk].
  - cbn. intros m Hin. destruct (Hi m Hin) as (x & Hx & ?). exists x. rewrite lookup_insert_ne //. by intros ->.
Qed.

(** The timer that [set_cpu_timer] makes, and the state before it sets the clock. *)
Definition set_timer_of s (t : timer) : timer := mkTimer false t.(elapse) (now s + t.(elapse)) t.(handler) t.(data).
Definition linked s n t (r : tree) : core := set_root r (set_timers (<[n := set_timer_of s t]> s.(timers)) (tick s)).

Lemma set_cpu_timer_linked s n t : queue_ok s → s.(timers) !! n = Some t → n ∉ inorder s.(root) → 0 ≤ t.(elapse) < 2 ^ 31 →
  ∃ r, set_cpu_timer count n s = __timer_set_clock count (linked s n t r) ∧
    rb_ok r ∧ key_sorted (key_of (linked s n t r)) (inorder r) ∧ key_range (key_of (linked s n t r)) ∧ inorder r ≡ₚ n :: inorder s.(root).
Proof.
  intros Hq Ht Hn He. pose proof (ms_pos s (q_ms _ Hq)) as Hp. pose proof (now_range s ltac:(lia)) as Hnow.
  unfold set_cpu_timer. rewrite (bind_Ok _ _ _ _ _ (upd_timer_run s n t _ Ht)).
  rewrite (bind_Ok _ _ _ _ _ (timestamp_run (set_timers _ s) ltac:(cbn; lia))).
  erewrite bind_Ok; [|eapply (get_timer_run _ n (with_triggered false t)); cbn; by rewrite lookup_insert_eq].
  erewrite bind_Ok; [|eapply (upd_timer_run _ n (with_triggered false t)); cbn; by rewrite lookup_insert_eq].
  cbn -[__timer_set_clock]. rewrite insert_insert_eq u64_small; [|change (now _) with (now s); lia].
  set (s1 := set_timers (<[n := set_timer_of s t]> s.(timers)) (tick s)).
  pose proof (queue_ok_later 1 s (tick s) Hq (tick_clocked s)) as Hq'.
  assert (Hk : 0 ≤ (set_timer_of s t).(_key) < 2 ^ 63) by (cbn; lia).
  destruct (queue_ok_put (tick s) n (set_timer_of s t) Hq' Hn Hk) as [_ Hok Hs Hr _]. fold s1 in Hok, Hs, Hr.
  destruct (rb_insert_key (key_of s1) n s.(root) Hr Hok Hs Hn) as (r & E & Hokr & Hsr & Hpr).
  exists r. split; [|done]. erewrite bind_Ok; [reflexivity|]. unfold link_timer. rewrite (bind_Ok _ _ s1 s.(root) s1) //.
  rewrite (bind_Ok _ _ s1 (__timer_cmp s1) s1) //. change (__timer_cmp s1) with (by_key (key_of s1)). by rewrite E.
Qed.

Lemma linked_queue_ok s n t r : queue_ok s → n ∉ inorder s.(root) → in_reach s t.(elapse) →
  rb_ok r → key_sorted (key_of (linked s n t r)) (inorder r) → key_range (key_of (linked s n t r)) → inorder r ≡ₚ n :: inorder s.(root) →
  queue_ok (linked s n t r).
Proof.
  intros Hq Hn He Hok Hs Hk Hp. pose proof (ms_pos s (q_ms _ Hq)) as Hms. split; [apply Hq|done..|].
  assert (Hle : now s ≤ now (linked s n t r)) by (apply now_le; cbn; [lia|done|lia]). unfold in_reach in *. cbn -[now] in *.
  intros m. rewrite Hp elem_of_cons. intros [->|Hm].
  - exists (set_timer_of s t). rewrite lookup_insert_eq. split; [done|]. split; [done|]. cbn -[now]. nia.
  - destruct (q_in _ Hq m Hm) as (x & Hx & Hf & Hr). exists x. rewrite lookup_insert_ne; [|by intros ->].
    split; [done|]. split; [done|]. unfold in_reach in Hr. nia.
Qed.

(** [set_cpu_timer] queues the timer, due [elapse] milliseconds from now. *)
Lemma set_cpu_timer_run s n t : queue_ok s → s.(timers) !! n = Some t → n ∉ inorder s.(root) → 0 ≤ t.(elapse) → in_reach s t.(elapse) →
  ∃ s', set_cpu_timer count n s = Ok (tt, s') ∧ queue_ok s' ∧ armed s' ∧
    s' = mkCore s.(online) s'.(root) (<[n := set_timer_of s t]> s.(timers)) s.(one_ms) s.(clock_handler) s'.(cval) s'.(uses) ∧
    inorder s'.(root) ≡ₚ n :: inorder s.(root) ∧ (s.(uses) ≤ s'.(uses) ≤ s.(uses) + 3)%nat.
Proof.
  intros Hq Ht Hn He Hr. pose proof (ms_pos s (q_ms _ Hq)) as Hms.
  destruct (set_cpu_timer_linked s n t Hq Ht Hn ltac:(unfold in_reach in Hr; nia)) as (r & E & Hok & Hs & Hk & Hp).
  pose proof (linked_queue_ok s n t r Hq Hn Hr Hok Hs Hk Hp) as Hq2. destruct (set_clock_run _ Hq2) as (s' & E' & Hc & Ha).
  exists s'. rewrite E E'. split; [done|]. split; [by eapply queue_ok_later|]. split; [done|].
  destruct Hc as [E2 Hu]. cbn in Hu. rewrite E2. cbn. split; [done|]. split; [done|lia].
Qed.

(** [cancel_cpu_timer] takes one out of the queue. *)
Lemma cancel_run s n : queue_ok s → n ∈ inorder s.(root) →
  ∃ s', cancel_cpu_timer count n s = Ok (tt, s') ∧ queue_ok s' ∧ armed s' ∧
    s' = mkCore s.(online) (rb_erase n s.(root)) s.(timers) s.(one_ms) s.(clock_handler) s'.(cval) s'.(uses) ∧
    (s.(uses) ≤ s'.(uses) ≤ s.(uses) + 2)%nat.
Proof.
  intros Hq Hn. destruct (q_in _ Hq n Hn) as (t & Ht & Hf & _).
  destruct (rb_erase_key (key_of s) n s.(root) (q_keys _ Hq) (q_tree _ Hq) (q_sorted _ Hq) Hn) as (Hok & Hs & Hp & _).
  assert (Hq2 : queue_ok (set_root (rb_erase n s.(root)) s)).
  { split; [apply Hq|done|done|apply Hq|]. intros m Hm. apply (q_in _ Hq). cbn in Hm. rewrite Hp. by right. }
  destruct (set_clock_run _ Hq2) as (s' & E & Hc & Ha). exists s'. split.
  - unfold cancel_cpu_timer. rewrite (bind_Ok _ _ _ _ _ (get_timer_run s n t Ht)) Hf. by rewrite (bind_Ok _ _ s tt s).
  - split; [by eapply queue_ok_later|]. split; [done|]. destruct Hc as [E2 Hu]. by rewrite {1}E2.
Qed.
Lemma cancel_perm s n : queue_ok s → n ∈ inorder s.(root) →
  inorder s.(root) ≡ₚ n :: inorder (rb_erase n s.(root)) ∧ n ∉ inorder (rb_erase n s.(root)).
Proof. intros Hq Hn. by apply (rb_erase_key (key_of s)); [apply Hq..|]. Qed.

Lemma armed_put s n t : armed s → n ∉ inorder s.(root) → armed (set_timers (<[n := t]> s.(timers)) s).
Proof.
  intros Ha Hn. unfold armed in *. cbn. destruct (_rb_first s.(root)) as [m|] eqn:Hf; [|done]. destruct Ha as (i & Hi & E). exists i.
  split; [done|]. rewrite key_of_put decide_False //. intros ->. by apply Hn, first_in.
Qed.

(** *** When the clock rings *)

(** Not before the first timer is due, and after that only by what is left of
    the millisecond and the time between the two uses of the counter. *)
Lemma armed_bounds s n : s.(one_ms) = freq / 1000 → armed s → _rb_first s.(root) = Some n →
  key_of s n * s.(one_ms) ≤ s.(cval) ∧
  ∃ i, (S i < s.(uses))%nat ∧ s.(cval) ≤ Z.max (count (S i)) ((key_of s n + 1) * s.(one_ms) + (count (S i) - count i)).
Proof.
  intros Hm Ha Hf. pose proof (ms_pos s Hm) as Hp. unfold armed in Ha. rewrite Hf in Ha. destruct Ha as (i & Hi & E).
  pose proof (Z.div_mod (count i) s.(one_ms) ltac:(lia)) as Hd. pose proof (Z.mod_pos_bound (count i) s.(one_ms) ltac:(lia)) as Hb.
  pose proof (count_mono i) as Hc. split; [nia|]. exists i. split; [done|]. nia.
Qed.

Lemma pending_due s n : sound s → s.(cval) ≤ count s.(uses) → _rb_first s.(root) = Some n → key_of s n ≤ now s.
Proof.
  intros [Hq _ Ha _] Hc Hf. destruct (armed_bounds s n (q_ms _ Hq) Ha Hf) as [Hl _]. pose proof (ms_pos s (q_ms _ Hq)).
  unfold now. apply Z.div_le_lower_bound; lia.
Qed.

(** *** What a handler does

    It returns, with at most [R] uses of the counter; the timers that were
    queued still are, and those it queued are not due at once. *)
Record goes (R : nat) s s' (new : list Z) : Prop := {
  g_sound : sound s';
  g_ms : s'.(one_ms) = s.(one_ms);
  g_uses : (s.(uses) ≤ s'.(uses) ≤ s.(uses) + R)%nat;
  g_queue : inorder s'.(root) ≡ₚ new ++ inorder s.(root);
  g_kept : ∀ x, x ∈ inorder s.(root) → s'.(timers) !! x = s.(timers) !! x;
  g_new : ∀ x, x ∈ new → now s < key_of s' x;
}.

Lemma goes_more R R' s s' new : goes R s s' new → (R ≤ R')%nat → goes R' s s' new.
Proof. intros [] ?. split; [done..|lia|done|done|done]. Qed.
Lemma goes_trans R1 R2 s1 s2 s3 new1 new2 : 1 ≤ s1.(one_ms) →
  goes R1 s1 s2 new1 → goes R2 s2 s3 new2 → goes (R1 + R2) s1 s3 (new2 ++ new1).
Proof.
  intros Hms [Hs1 Hm1 Hu1 Hq1 Hk1 Hn1] [Hs2 Hm2 Hu2 Hq2 Hk2 Hn2]. split; [done|congruence|lia|by rewrite Hq2 Hq1 assoc| |].
  - intros x Hx. rewrite Hk2; [by apply Hk1|]. rewrite Hq1 elem_of_app. by right.
  - intros x [Hx|Hx]%elem_of_app.
    + pose proof (now_le s1 s2 ltac:(lia) Hm1 Hms). specialize (Hn2 x Hx). lia.
    + unfold key_of. rewrite Hk2; [by apply Hn1|]. rewrite Hq1 elem_of_app. by left.
Qed.

Lemma timers_ok_same s s' : timers_ok s → s'.(one_ms) = s.(one_ms) → s'.(timers) = s.(timers) → timers_ok s'.
Proof. intros Ht Hm E m x. rewrite E. intros Hx. destruct (Ht m x Hx) as [[? Hr] ? ?]. split; [|done|done]. unfold in_reach in *. by rewrite Hm. Qed.
Lemma timers_ok_put s s' n t : timers_ok s → s'.(one_ms) = s.(one_ms) → s'.(timers) = <[n := t]> s.(timers) → timer_ok s n t → timers_ok s'.
Proof.
  intros Ht Hm E Hn m x. rewrite E lookup_insert_Some. intros [[<- <-]|[_ Hx]]; [destruct Hn as [[? Hr] ? ?]|destruct (Ht m x Hx) as [[? Hr] ? ?]];
    (split; [|done|done]); unfold in_reach in *; by rewrite Hm.
Qed.

(** [set_cpu_timer] of a timer that does not ask for [elapse = 0]. *)
Lemma set_cpu_timer_goes s n t : queue_ok s → timers_ok s → s.(clock_handler) = true → s.(timers) !! n = Some t → n ∉ inorder s.(root) →
  1 ≤ t.(elapse) → ∃ s', set_cpu_timer count n s = Ok (tt, s') ∧ goes 3 s s' [n].
Proof.
  intros Hq Ht Hh Hn Hnin He. destruct (Ht n t Hn) as [[He0 Hr] Hhe Hsc].
  destruct (set_cpu_timer_run s n t Hq Hn Hnin He0 Hr) as (s' & E & Hq' & Ha & Es & Hp & Hu). exists s'. split; [done|].
  assert (Hms : s'.(one_ms) = s.(one_ms)) by (by rewrite Es). assert (Etm : s'.(timers) = <[n := set_timer_of s t]> s.(timers)) by (by rewrite Es).
  split; [split; [done| |done|by rewrite Es]|done|done|done| |].
  - eapply timers_ok_put; [exact Ht|done|done|]. by split.
  - intros x Hx. rewrite Etm lookup_insert_ne //. by intros ->.
  - intros x ->%list_elem_of_singleton. unfold key_of. rewrite Etm lookup_insert_eq. cbn -[now]. lia.
Qed.

(** [yield], and handlers of other timers, are supposed to behave. *)
Context (R : nat) (this_law : ∀ s, ((thisproc s).(container_id) < 5)%nat).
Context (yield_law : ∀ s, sound s → ∃ s' new, yield s = Ok (tt, s') ∧ goes R s s' new).
Context (other_law : ∀ s n t, sound s →
  s.(timers) !! n = Some t → n ∉ inorder s.(root) → t.(triggered) = true → t.(handler) ≠ HELLO → t.(handler) ≠ SCHED →
  ∃ s' new, other t.(handler) n s = Ok (tt, s') ∧ goes R s s' new).

Lemma goes_tick s new R' s' : 1 ≤ s.(one_ms) → goes R' (tick s) s' new → goes (S R') s s' new.
Proof.
  intros Hms [Hs Hm Hu Hq Hk Hn]. cbn in *. split; [done..|lia|done|done|]. intros x Hx.
  pose proof (now_le s (tick s) ltac:(cbn; lia) eq_refl Hms). specialize (Hn x Hx). lia.
Qed.
Lemma sound_tick s : sound s → sound (tick s).
Proof.
  intros [Hq Ht Ha Hh]. split; [by eapply queue_ok_later, tick_clocked|by eapply timers_ok_same| |done]. unfold armed in *. cbn.
  destruct (_rb_first s.(root)); [|done]. destruct Ha as (i & Hi & E). exists i. split; [lia|done].
Qed.

Lemma hello_goes s t : queue_ok s → timers_ok s → s.(clock_handler) = true → s.(timers) !! hello_timer = Some t →
  hello_timer ∉ inorder s.(root) → t.(handler) = HELLO → ∃ s', hello count hello_timer hello_timer s = Ok (tt, s') ∧ goes 3 s s' [hello_timer].
Proof.
  intros Hq Ht Hh Hn Hnin Eh. pose proof (Ht _ _ Hn) as Hok. destruct (t_hello _ _ _ Hok Eh) as [_ He].
  set (t' := with_data (u64 (t.(data) + 1)) t). set (s1 := set_timers (<[hello_timer := t']> s.(timers)) s).
  assert (Hq1 : queue_ok s1).
  { apply queue_ok_put; [done..|]. cbn. rewrite -(key_of_eq s _ _ Hn). apply (q_keys _ Hq). }
  assert (Ht1 : timers_ok s1).
  { eapply timers_ok_put; [exact Ht|done|done|]. destruct Hok. by split. }
  destruct (set_cpu_timer_goes s1 hello_timer t' Hq1 Ht1 Hh) as (s' & E & Hg); [by rewrite lookup_insert_eq|done|done|]. exists s'. split.
  - unfold hello. by rewrite (bind_Ok _ _ _ _ _ (upd_timer_run s _ t _ Hn)).
  - destruct Hg as [Hs Hm Hu Hqq Hk Hnew]. split; [done..| |done]. intros x Hx. rewrite Hk // lookup_insert_ne //. by intros ->.
Qed.

(** The time that has passed decides whether the process yields. *)
Lemma sched_goes s t : queue_ok s → timers_ok s → s.(clock_handler) = true → s.(timers) !! sched_timer = Some t →
  sched_timer ∉ inorder s.(root) → t.(triggered) = true → 1 ≤ t.(elapse) →
  ∃ s' new, sched_timer_handler count sched_timer thisproc yield sched_timer s = Ok (tt, s') ∧ goes (4 + R) s s' new.
Proof.
  intros Hq Ht Hh Hn Hnin Htr He. pose proof (ms_pos s (q_ms _ Hq)) as Hms.
  destruct (set_cpu_timer_goes s sched_timer t Hq Ht Hh Hn Hnin He) as (s1 & E1 & Hg1).
  unfold sched_timer_handler. rewrite (bind_Ok _ _ _ _ _ (get_timer_run s _ t Hn)) Htr.
  rewrite (bind_Ok _ _ _ _ _ E1) (bind_Ok _ _ s1 (thisproc s1) s1) //. pose proof (g_sound _ _ _ _ Hg1) as Hs1.
  destruct (idle (thisproc s1)).
  { destruct (yield_law s1 Hs1) as (s' & new & E & Hg). exists s', (new ++ [sched_timer]). split; [done|].
    eapply goes_more; [apply (goes_trans 3 R s s1); [lia|done|done]|lia]. }
  assert (Hms1 : 1 ≤ s1.(one_ms)) by (rewrite (g_ms _ _ _ _ Hg1); lia).
  rewrite (bind_Ok _ _ _ _ _ (timestamp_run s1 Hms1)). pose proof (this_law s1) as Hc.
  assert (Hw : con_to_weight !! container_id (thisproc s1) = Some 1 ∧ con_to_limit !! container_id (thisproc s1) = Some 1).
  { destruct (container_id (thisproc s1)) as [|[|[|[|[|]]]]]; [done..|lia]. }
  destruct Hw as [-> ->].
  rewrite (bind_Ok (deref (Some 1)) _ _ 1 (tick s1)) // (bind_Ok (deref (Some 1)) _ _ 1 (tick s1)) //.
  case_match.
  - destruct (yield_law (tick s1) (sound_tick s1 Hs1)) as (s' & new & E & Hg). exists s', (new ++ [sched_timer]). split; [done|].
    eapply goes_more; [apply (goes_trans 3 (S R) s s1); [lia|done|by apply goes_tick]|lia].
  - exists (tick s1), [sched_timer]. split; [done|]. destruct Hg1 as [_ Hm Hu Hqq Hk Hnew]. split; [by apply sound_tick|done|cbn; lia|done..].
Qed.

(** Any handler, called on its timer. *)
Lemma call_handler_goes s n t : sound s → s.(timers) !! n = Some t → n ∉ inorder s.(root) →
  t.(triggered) = true → ∃ s' new, call_handler count HELLO SCHED hello_timer sched_timer thisproc yield other t.(handler) n s = Ok (tt, s') ∧
    goes (4 + R) s s' new.
Proof.
  intros Hs Hn Hnin Htr. pose proof Hs as [Hq Ht _ Hh]. unfold call_handler. destruct (Ht n t Hn) as [_ Hhe Hsc]. destruct (Z.eqb_spec t.(handler) HELLO) as [Eh|Eh].
  - destruct (Hhe Eh) as [-> _]. destruct (hello_goes s t) as (s' & E & Hg); [done..|]. exists s', [hello_timer]. split; [done|].
    eapply goes_more; [done|lia].
  - destruct (Z.eqb_spec t.(handler) SCHED) as [Es|Es].
    + destruct (Hsc Eh Es) as [-> He]. by eapply sched_goes.
    + destruct (other_law s n t) as (s' & new & E & Hg); [done..|]. exists s', new. split; [done|]. eapply goes_more; [done|lia].
Qed.

Abbreviation fire := (fire count HELLO SCHED hello_timer sched_timer thisproc yield other).
Abbreviation fire_due := (fire_due count HELLO SCHED hello_timer sched_timer thisproc yield other).
Abbreviation timer_clock_handler := (timer_clock_handler count HELLO SCHED hello_timer sched_timer thisproc yield other).
Abbreviation invoke_clock_handler := (invoke_clock_handler count HELLO SCHED hello_timer sched_timer thisproc yield other).

(** The first timer is taken from the queue and its handler runs. *)
Lemma fire_run s n : queue_ok s → timers_ok s → s.(clock_handler) = true → n ∈ inorder s.(root) →
  ∃ s' new, fire n s = Ok (tt, s') ∧ sound s' ∧ s'.(one_ms) = s.(one_ms) ∧ (s.(uses) ≤ s'.(uses) ≤ s.(uses) + (6 + R))%nat ∧
    inorder s'.(root) ≡ₚ new ++ inorder (rb_erase n s.(root)) ∧
    (∀ x, x ∈ inorder (rb_erase n s.(root)) → s'.(timers) !! x = s.(timers) !! x) ∧ (∀ x, x ∈ new → now s < key_of s' x).
Proof.
  intros Hq Ht Hh Hn. destruct (q_in _ Hq n Hn) as (t & Hl & _). destruct (cancel_perm s n Hq Hn) as [_ Hnin].
  pose proof (ms_pos s (q_ms _ Hq)) as Hms.
  destruct (cancel_run s n Hq Hn) as (s1 & E & Hq1 & Ha1 & Es & Hu). unfold Timer.fire. rewrite (bind_Ok _ _ _ _ _ E).
  assert (Hr1 : s1.(root) = rb_erase n s.(root)) by (by rewrite Es). assert (Hl1 : s1.(timers) = s.(timers)) by (by rewrite Es).
  assert (Hm1 : s1.(one_ms) = s.(one_ms)) by (by rewrite Es).
  assert (Hn1 : s1.(timers) !! n = Some t) by (by rewrite Hl1). rewrite (bind_Ok _ _ _ _ _ (upd_timer_run s1 n t _ Hn1)).
  set (s2 := set_timers (<[n := with_triggered true t]> s1.(timers)) s1).
  assert (Hn2 : s2.(timers) !! n = Some (with_triggered true t)) by apply lookup_insert_eq.
  rewrite (bind_Ok _ _ _ _ _ (get_timer_run s2 n _ Hn2)).
  destruct (call_handler_goes s2 n (with_triggered true t)) as (s' & new & E' & [Hs Hm Hu' Hqq Hk Hnew]).
  - split; [apply queue_ok_put; [done|by rewrite Hr1|]| |apply armed_put; [done|by rewrite Hr1]|by rewrite /s2 Es].
    + cbn. rewrite -(key_of_eq s _ _ Hl). apply (q_keys _ Hq).
    + eapply (timers_ok_put s); [done|done|by rewrite -Hl1|]. by destruct (Ht n t Hl).
  - done.
  - by rewrite Hr1.
  - done.
  - exists s', new. split; [exact E'|]. split; [done|]. cbn in *. split; [by rewrite Hm|]. split; [lia|]. rewrite -Hr1. split; [done|]. split.
    + intros x Hx. rewrite Hk // lookup_insert_ne ?Hl1 //. intros ->. by rewrite Hr1 in Hx.
    + intros x Hx. pose proof (now_le s s1 ltac:(lia) Hm1 ltac:(lia)). specialize (Hnew x Hx). change (now s2) with (now s1) in Hnew. lia.
Qed.

(** *** The loop of the interrupt handler *)

(** Time may have been read. *)
Definition looked s s' : Prop := s' = s ∨ s' = tick s.

(** The handlers of [l] run in order, each after a look at the time. *)
Inductive fires : core → list Z → core → Prop :=
| fires_nil s s' : looked s s' → fires s [] s'
| fires_cons s n l s1 s2 : fire n (tick s) = Ok (tt, s1) → fires s1 l s2 → fires s (n :: l) s2.

(** A sorted queue is what is due and then what is not. *)
Lemma split_due k l t : key_range k → key_sorted k l → l = filter (λ n, k n ≤ t) l ++ filter (λ n, t < k n) l.
Proof.
  intros Hk Hs. induction l as [|n l IH]; [done|]. pose proof (key_sorted_head k n l Hk Hs) as Hh. apply StronglySorted_inv in Hs as [Hs _].
  destruct (decide (k n ≤ t)) as [Hn|Hn].
  - rewrite (filter_cons_True (λ m, k m ≤ t)) // (filter_cons_False (λ m, t < k m)); [|lia]. cbn. by rewrite -IH.
  - rewrite (filter_cons_False (λ m, k m ≤ t)) // (filter_cons_True (λ m, t < k m)); [|lia].
    assert (E : filter (λ m, k m ≤ t) l = []). { apply elem_of_nil_inv. intros m [H1 H2]%list_elem_of_filter. specialize (Hh m H2). lia. }
    rewrite E in IH |- *. cbn in *. by rewrite -IH.
Qed.

(** The first timer of a queue some of which is due. *)
Lemma first_due s new n due later t0 : queue_ok s → inorder s.(root) ≡ₚ new ++ (n :: due) ++ later → key_sorted (key_of s) ((n :: due) ++ later) →
  (∀ x, x ∈ new → t0 < key_of s x) → key_of s n ≤ t0 → _rb_first s.(root) = Some n.
Proof.
  intros Hq Hp Hs Hnew Hn. pose proof (q_keys _ Hq) as Hk. pose proof (q_sorted _ Hq) as Hso. unfold _rb_first.
  assert (Hin : n ∈ inorder s.(root)) by (rewrite Hp; set_solver). destruct (inorder s.(root)) as [|m l] eqn:E; [by apply not_elem_of_nil in Hin|].
  cbn. f_equal. apply elem_of_cons in Hin as [->|Hin]; [done|]. apply StronglySorted_inv in Hso as [_ Hf]. rewrite Forall_forall in Hf.
  specialize (Hf n Hin). apply by_key_lex in Hf; [|done]. assert (Hm : m ∈ new ++ (n :: due) ++ later) by (rewrite -Hp; by left).
  apply elem_of_app in Hm as [Hm|Hm]; [specialize (Hnew m Hm); lia|]. apply elem_of_cons in Hm as [->|Hm]; [done|].
  apply StronglySorted_inv in Hs as [_ Hf2]. rewrite Forall_forall in Hf2. specialize (Hf2 m Hm). apply by_key_lex in Hf2; [lia|done].
Qed.

(** The loop ends when nothing is due any more. *)
Lemma fire_due_end s t0 : queue_ok s → now s ≤ t0 → (∀ x, x ∈ inorder s.(root) → t0 < key_of s x) →
  ∃ s', looked s s' ∧ ∀ fuel, fire_due (S fuel) s = Ok (tt, s').
Proof.
  intros Hq Hn Hl. cbn [Timer.fire_due]. destruct (_rb_first s.(root)) as [n|] eqn:Hf.
  - pose proof (first_in _ _ Hf) as Hin. destruct (q_in _ Hq n Hin) as (t & Ht & _). exists (tick s). split; [by right|]. intros fuel.
    rewrite (bind_Ok _ _ s s.(root) s) // Hf (bind_Ok _ _ _ _ _ (timestamp_run s ltac:(pose proof (ms_pos s (q_ms _ Hq)); lia))).
    rewrite (bind_Ok _ _ _ _ _ (get_timer_run (tick s) n t Ht)). specialize (Hl n Hin). rewrite (key_of_eq s n t Ht) in Hl.
    by rewrite (proj2 (Z.ltb_lt (now s) t.(_key))); [|lia].
  - exists s. split; [by left|]. intros fuel. by rewrite (bind_Ok _ _ s s.(root) s) // Hf.
Qed.

(** One turn with a timer that is due. *)
Lemma fire_due_step s n fuel : queue_ok s → _rb_first s.(root) = Some n → key_of s n ≤ now s →
  fire_due (S fuel) s = (fire n ;; fire_due fuel) (tick s).
Proof.
  intros Hq Hf Hk. cbn [Timer.fire_due]. rewrite (bind_Ok _ _ s s.(root) s) // Hf. destruct (q_in _ Hq n (first_in _ _ Hf)) as (t & Ht & _).
  rewrite (bind_Ok _ _ _ _ _ (timestamp_run s ltac:(pose proof (ms_pos s (q_ms _ Hq)); lia))).
  rewrite (bind_Ok _ _ _ _ _ (get_timer_run (tick s) n t Ht)). rewrite (key_of_eq s n t Ht) in Hk. by rewrite (proj2 (Z.ltb_ge (now s) t.(_key))).
Qed.

Lemma now_until s i j ms : s.(one_ms) = ms → 1 ≤ ms → (s.(uses) ≤ i ≤ j)%nat → now s ≤ count i / ms ∧ count i / ms ≤ count j / ms.
Proof. intros <- Hp Hi. unfold now. split; apply Z.div_le_mono; try lia; apply count_le; lia. Qed.

Lemma sound_looked s s' : sound s → looked s s' → sound s'.
Proof. intros Hs [->| ->]; [done|by apply sound_tick]. Qed.

(** All the timers of [due] are fired while the counter is below use [Q], in
    the millisecond [t0]. *)
Lemma fire_due_run due later t0 Q ms : ∀ s new, queue_ok s → timers_ok s → s.(clock_handler) = true → s.(one_ms) = ms →
  inorder s.(root) ≡ₚ new ++ due ++ later → key_sorted (key_of s) (due ++ later) →
  (∀ x, x ∈ new → t0 < key_of s x) → (∀ x, x ∈ due → key_of s x ≤ t0) → (∀ x, x ∈ later → t0 < key_of s x) →
  t0 ≤ now s → count Q / ms ≤ t0 → (s.(uses) + length due * (7 + R) + 1 ≤ Q)%nat → (due = [] → armed s) →
  ∃ s' new', (∀ fuel, (length due < fuel)%nat → fire_due fuel s = Ok (tt, s')) ∧ fires s due s' ∧ sound s' ∧ s'.(one_ms) = ms ∧
    inorder s'.(root) ≡ₚ new' ++ later ∧ (∀ x, x ∈ new' ++ later → t0 < key_of s' x) ∧ (s.(uses) ≤ s'.(uses) ≤ s.(uses) + length due * (7 + R) + 1)%nat.
Proof.
  induction due as [|n due IH]; intros s new Hq Ht Hh Hm Hp Hs Hnew Hdue Hlat Hnow HQ Hu Ha.
  - destruct (fire_due_end s t0 Hq) as (s' & Hl & E).
    { pose proof (ms_pos s (q_ms _ Hq)). destruct (now_until s s.(uses) Q ms Hm ltac:(lia) ltac:(cbn in Hu; lia)). lia. }
    { intros x. rewrite Hp elem_of_app. intros [?|?]; [by apply Hnew|by apply Hlat]. }
    assert (Hso : sound s) by (split; [done..|by apply Ha|done]). exists s', new. split; [intros [|fuel] Hf; [cbn in Hf; lia|apply E]|].
    split; [by constructor|]. split; [by eapply sound_looked|]. destruct Hl as [->| ->]; cbn; (split; [done|]); (split; [done|]);
      (split; [|lia]); intros x [?|?]%elem_of_app; [by apply Hnew|by apply Hlat|by apply Hnew|by apply Hlat].
  - pose proof (ms_pos s (q_ms _ Hq)) as Hms. assert (Hn : key_of s n ≤ t0) by (apply Hdue; by left).
    pose proof (first_due s new n due later t0 Hq Hp Hs Hnew Hn) as Hf. pose proof (first_in _ _ Hf) as Hin.
    destruct (fire_run (tick s) n) as (s1 & new1 & E & Hs1 & Hm1 & Hu1 & Hp1 & Hk1 & Hn1); [by eapply queue_ok_later, tick_clocked|by eapply timers_ok_same|done|done|].
    cbn in Hm1, Hu1, Hp1, Hk1. assert (Hrest : inorder (rb_erase n s.(root)) ≡ₚ new ++ due ++ later).
    { apply (Permutation_cons_inv (a := n)). rewrite -(proj1 (cancel_perm s n Hq Hin)) Hp. by rewrite Permutation_middle. }
    assert (Hkey : ∀ x, x ∈ new ++ due ++ later → key_of s1 x = key_of s x).
    { intros x Hx. unfold key_of. rewrite Hk1 //. by rewrite Hrest. }
    assert (Ht0 : t0 ≤ now s1 ∧ t0 ≤ now (tick s)).
    { pose proof (now_le s s1 ltac:(lia) Hm1 ltac:(lia)). pose proof (now_le s (tick s) ltac:(cbn; lia) eq_refl ltac:(lia)). lia. }
    destruct (IH s1 (new1 ++ new)) as (s' & new' & Efuel & Hfires & Hso & Hm' & Hp' & Hl' & Hu').
    + apply Hs1.
    + apply Hs1.
    + apply Hs1.
    + by rewrite Hm1.
    + by rewrite Hp1 Hrest assoc.
    + apply (key_sorted_same (key_of s)); [intros x Hx; rewrite Hkey //; set_solver|]. by apply StronglySorted_inv in Hs as [].
    + intros x [Hx|Hx]%elem_of_app; [specialize (Hn1 x Hx); lia|]. rewrite Hkey; [by apply Hnew|set_solver].
    + intros x Hx. rewrite Hkey; [|set_solver]. apply Hdue. by right.
    + intros x Hx. rewrite Hkey; [|set_solver]. by apply Hlat.
    + lia.
    + done.
    + cbn [length] in Hu. lia.
    + intros _. apply Hs1.
    + exists s', new'. cbn [length]. split.
      { intros [|fuel] Hfu; [lia|]. rewrite (fire_due_step s n fuel Hq Hf ltac:(lia)) (bind_Ok _ _ _ _ _ E). apply Efuel. lia. }
      split; [by econstructor|]. split_and!; [done..|lia|lia].
Qed.

(** Either the first timer is due or none is. *)
Lemma first_cases s : queue_ok s →
  (∃ n, _rb_first s.(root) = Some n ∧ key_of s n ≤ now s) ∨ (∀ x, x ∈ inorder s.(root) → now s < key_of s x).
Proof.
  intros Hq. pose proof (q_sorted _ Hq) as Hs. unfold _rb_first. destruct (inorder s.(root)) as [|n l]; [right; by intros x ?%not_elem_of_nil|].
  destruct (decide (key_of s n ≤ now s)) as [Hn|Hn]; [left; by exists n|]. right. intros x [->|Hx]%elem_of_cons; [lia|].
  pose proof (key_sorted_head _ n l (q_keys _ Hq) Hs x Hx). lia.
Qed.

(** Without a bound on the time it takes, the loop at least does no harm. *)
Lemma fire_due_safe fuel : ∀ s, queue_ok s → timers_ok s → s.(clock_handler) = true →
  armed s ∨ (∃ n, _rb_first s.(root) = Some n ∧ key_of s n ≤ now s) →
  fire_due fuel s = Fail OutOfFuel ∨ ∃ s', fire_due fuel s = Ok (tt, s') ∧ sound s'.
Proof.
  induction fuel as [|fuel IH]; intros s Hq Ht Hh Ha; [by left|]. destruct (first_cases s Hq) as [(n & Hf & Hk)|Hno].
  - rewrite (fire_due_step s n fuel Hq Hf Hk).
    destruct (fire_run (tick s) n) as (s1 & new1 & E & Hs1 & _); [by eapply queue_ok_later, tick_clocked|by eapply timers_ok_same|done|by apply first_in|].
    rewrite (bind_Ok _ _ _ _ _ E). apply IH; [apply Hs1..|left; apply Hs1].
  - destruct Ha as [Ha|(n & Hf & Hk)]; [|specialize (Hno n (first_in _ _ Hf)); lia].
    destruct (fire_due_end s (now s) Hq) as (s' & Hl & E); [done|done|]. right. exists s'. split; [apply E|]. by eapply sound_looked.
Qed.

Lemma reset_1000 s : s.(one_ms) = freq / 1000 → reset_clock count 1000 s = Ok (tt, tick (set_cval (count s.(uses) + 1000 * s.(one_ms)) s)).
Proof.
  intros Hm. rewrite reset_clock_run; [|rewrite Hm; pose proof ms_range; lia]. case_decide as E; [done|].
  destruct E. unfold in_reach. rewrite Hm. pose proof ms_range. lia.
Qed.

Lemma interrupt_safe fuel s : sound s → s.(cval) ≤ count s.(uses) →
  invoke_clock_handler fuel s = Fail OutOfFuel ∨ ∃ s', invoke_clock_handler fuel s = Ok (tt, s') ∧ sound s'.
Proof.
  intros Hs Hp. pose proof Hs as [Hq Ht _ Hh]. unfold Timer.invoke_clock_handler, Timer.timer_clock_handler.
  rewrite (bind_Ok _ _ s true s) /=; [|by unfold gets; rewrite Hh]. rewrite (bind_Ok _ _ _ _ _ (reset_1000 s (q_ms _ Hq))).
  set (s1 := tick (set_cval (count s.(uses) + 1000 * s.(one_ms)) s)). assert (Hc : clocked 1 s s1) by (split; [done|cbn; lia]).
  apply fire_due_safe; [by eapply queue_ok_later|by eapply timers_ok_same|done|]. destruct (_rb_first s.(root)) as [n|] eqn:Hf.
  - right. exists n. split; [done|]. pose proof (pending_due s n Hs Hp Hf) as Hk. change (key_of s1 n) with (key_of s n).
    pose proof (ms_pos s (q_ms _ Hq)). pose proof (now_le s s1 ltac:(cbn; lia) eq_refl ltac:(lia)). lia.
  - left. unfold armed. cbn. by rewrite Hf.
Qed.

(** *** Bringing a processor up *)

Definition off s : Prop :=
  inorder s.(root) = [] ∧ rb_ok s.(root) ∧ s.(clock_handler) = true ∧ key_range (key_of s) ∧
  timers_ok (set_one_ms (freq / 1000) s) ∧ ∃ t, s.(timers) !! hello_timer = Some t.

Lemma set_cpu_on_run s : off s → ∃ s', set_cpu_on count freq HELLO hello_timer s = Ok (tt, s') ∧ sound s' ∧ s'.(online) = true ∧
  inorder s'.(root) = [hello_timer].
Proof.
  intros (Hr & Hok & Hh & Hk & Ht & t & Hl). unfold set_cpu_on, init_clock. set (s0 := set_one_ms (freq / 1000) s).
  rewrite (bind_Ok _ _ s tt (tick (set_cval (count s.(uses) + 1000 * (freq / 1000)) s0))).
  2: { rewrite (bind_Ok _ _ s tt s0) // (reset_1000 s0) //. }
  set (s1 := tick _). rewrite (bind_Ok _ _ s1 tt (set_online true s1)) //. set (s2 := set_online true s1).
  rewrite (bind_Ok _ _ _ _ _ (upd_timer_run s2 hello_timer t _ Hl)).
  erewrite bind_Ok; [|eapply (upd_timer_run _ _ (with_elapse 5000 t)); cbn; by rewrite lookup_insert_eq].
  cbn [timers set_timers]. rewrite insert_insert_eq. set (t' := with_handler HELLO (with_elapse 5000 t)).
  change (set_timers _ (set_timers _ s2)) with (set_timers (<[hello_timer := t']> s2.(timers)) s2). set (s3 := set_timers _ s2).
  assert (Hq2 : queue_ok s2).
  { split; [done|done|cbn; rewrite Hr; constructor|exact Hk|]. cbn. rewrite Hr. by intros n ?%not_elem_of_nil. }
  assert (Hin : hello_timer ∉ inorder s3.(root)) by (cbn; rewrite Hr; apply not_elem_of_nil).
  assert (Hq3 : queue_ok s3). { apply queue_ok_put; [done..|]. cbn. rewrite -(key_of_eq s _ _ Hl). apply Hk. }
  assert (Ht3 : timers_ok s3).
  { eapply (timers_ok_put s0); [exact Ht|done|done|]. split; [split; [done|]|done|done]. unfold in_reach. cbn. apply ms_range. }
  destruct (set_cpu_timer_run s3 hello_timer t' Hq3) as (s' & E & Hq' & Ha & Es & Hp & _); [by rewrite lookup_insert_eq|done|done|unfold in_reach; apply ms_range|].
  exists s'. split; [exact E|]. split; [split; [done| |done|by rewrite Es]|split; [by rewrite Es|]].
  - eapply timers_ok_put; [exact Ht3|by rewrite Es|by rewrite Es|]. split; [split; [done|]|done|done]. unfold in_reach. cbn. apply ms_range.
  - cbn in Hp. rewrite Hr in Hp. by apply Permutation_singleton_r in Hp.
Qed.

(** ** Theorems *)

(** What may happen on a processor that is on: a timer that is not queued is
    set up or changed, a timer is set or cancelled, the counter is used for
    something else, the clock rings, the processor is marked off. *)
Inductive event : Type := Configure (n : Z) (t : timer) | Set_timer (n : Z) | Cancel (n : Z) | Use | Ring (fuel : nat) | Off.

Definition run_event (e : event) : M core unit :=
  match e with
  | Configure n t => modify (λ s, set_timers (<[n := t]> s.(timers)) s)
  | Set_timer n => set_cpu_timer count n
  | Cancel n => cancel_cpu_timer count n
  | Use => modify tick
  | Ring fuel => invoke_clock_handler fuel
  | Off => set_cpu_off
  end.

(** What callers see to: a queued timer is not set again, only a queued timer
    is cancelled.  The clock rings when the counter has reached [cval]. *)
Definition enabled s (e : event) : Prop :=
  match e with
  | Configure n t => n ∉ inorder s.(root) ∧ timer_ok s n t ∧ 0 ≤ t.(_key) < 2 ^ 63
  | Set_timer n => n ∉ inorder s.(root) ∧ is_Some (s.(timers) !! n)
  | Cancel n => n ∈ inorder s.(root)
  | Ring _ => s.(cval) ≤ count s.(uses)
  | Use | Off => True
  end.

Inductive reach : core → Prop :=
| reach_on s s' : off s → set_cpu_on count freq HELLO hello_timer s = Ok (tt, s') → reach s'
| reach_step s e s' : reach s → enabled s e → run_event e s = Ok (tt, s') → reach s'.

Lemma event_sound s e : sound s → enabled s e →
  (∃ s', run_event e s = Ok (tt, s') ∧ sound s') ∨ (∃ fuel, e = Ring fuel ∧ run_event e s = Fail OutOfFuel).
Proof.
  intros Hs He. pose proof Hs as [Hq Ht Ha Hh]. destruct e as [n t|n|n| |fuel|]; cbn in *.
  - left. eexists. split; [done|]. destruct He as (Hn & Hok & Hk). split; [by apply queue_ok_put|by eapply timers_ok_put|by apply armed_put|done].
  - left. destruct He as (Hn & t & Hl). destruct (Ht n t Hl) as [[He Hr] ? ?].
    destruct (set_cpu_timer_run s n t Hq Hl Hn He Hr) as (s' & E & Hq' & Ha' & Es & _). exists s'. split; [done|]. split; [done| |done|by rewrite Es].
    eapply timers_ok_put; [exact Ht|by rewrite Es|by rewrite Es|]. by split.
  - left. destruct (cancel_run s n Hq He) as (s' & E & Hq' & Ha' & Es & _). exists s'. split; [done|]. split; [done| |done|by rewrite Es].
    eapply timers_ok_same; [exact Ht|by rewrite Es|by rewrite Es].
  - left. eexists. split; [done|]. by apply sound_tick.
  - destruct (interrupt_safe fuel s Hs He) as [E|(s' & E & Hs')]; [right; by exists fuel|left; by exists s'].
  - left. eexists. split; [done|]. split; [by destruct Hq|by eapply timers_ok_same|done|done].
Qed.

Lemma timer_reach_sound s : reach s → sound s.
Proof.
  induction 1 as [s s' Ho E|s e s' _ IH He E].
  - destruct (set_cpu_on_run s Ho) as (s1 & E1 & Hs & _). rewrite E in E1. by injection E1 as ->.
  - destruct (event_sound s e IH He) as [(s1 & E1 & Hs)|(fuel & -> & E1)]; rewrite E in E1; [|done]. by injection E1 as ->.
Qed.



(** Two timers in a queue. *)
Lemma two_timers_sorted k m n r : key_range k → key_sorted k (inorder r) → inorder r ≡ₚ [n; m] → k m ≤ k n →
  (k m < k n → inorder r = [m; n]) ∧ ∃ f, _rb_first r = Some f ∧ k f = k m ∧ (f = m ∨ f = n).
Proof.
  intros Hk Hs Hp Hle. apply symmetry, Permutation_length_2_inv in Hp as [Hp|Hp]; unfold _rb_first; rewrite Hp in Hs |- *.
  - pose proof (key_sorted_head k n [m] Hk Hs m ltac:(by left)). split; [lia|]. exists n. split; [done|]. split; [lia|by right].
  - split; [done|]. exists m. split; [done|]. split; [done|by left].
Qed.

(** A cancelled timer leaves one that is too far ahead. *)
Lemma cancel_far s m n x y : s.(one_ms) = freq / 1000 → rb_ok s.(root) → key_range (key_of s) → key_sorted (key_of s) (inorder s.(root)) →
  inorder s.(root) ≡ₚ [n; m] → m ≠ n → s.(timers) !! m = Some x → x.(triggered) = false → s.(timers) !! n = Some y →
  y.(_key) - now s < 2 ^ 32 → ¬ in_reach s (y.(_key) - now s) → cancel_cpu_timer count m s = Fail Panicked.
Proof.
  intros Hms Hok Hk Hs Hp Hne Hm Hf Hn Hlt Hr. assert (Hin : m ∈ inorder s.(root)) by (rewrite Hp; set_solver).
  destruct (rb_erase_key (key_of s) m s.(root) Hk Hok Hs Hin) as (_ & _ & Hp' & _).
  assert (E : inorder (rb_erase m s.(root)) = [n]).
  { apply Permutation_singleton_r. apply (Permutation_cons_inv (a := m)). rewrite -Hp' Hp. constructor. }
  unfold cancel_cpu_timer. rewrite (bind_Ok _ _ _ _ _ (get_timer_run s m x Hm)) Hf (bind_Ok _ _ s tt s) //.
  set (s1 := set_root (rb_erase m s.(root)) s). rewrite (bind_Ok _ _ s tt s1) //. rewrite (set_clock_cases s1 n y) //.
  - case_decide; [|done]. by destruct Hr.
  - unfold _rb_first. cbn. by rewrite E.
Qed.

(** Setting a timer that is far ahead. *)
Lemma set_cpu_timer_far s n t : queue_ok s → s.(timers) !! n = Some t → n ∉ inorder s.(root) → 0 ≤ t.(elapse) < 2 ^ 31 →
  let key := now s + t.(elapse) in
  (inorder s.(root) = [] →
    if decide ((key - count (S s.(uses)) / s.(one_ms)) * s.(one_ms) ≤ 0x7fffffff)
    then ∃ s', set_cpu_timer count n s = Ok (tt, s') ∧ inorder s'.(root) = [n] ∧ key_of s' n = key
    else set_cpu_timer count n s = Fail Panicked) ∧
  (∀ m, inorder s.(root) = [m] → key_of s m ≤ key →
    ∃ s', set_cpu_timer count n s = Ok (tt, s') ∧ (key_of s m < key → inorder s'.(root) = [m; n]) ∧ key_of s' n = key ∧
      (0x7fffffff < (key - now s') * s'.(one_ms) → cancel_cpu_timer count m s' = Fail Panicked)).
Proof.
  intros Hq Ht Hn He key. pose proof (ms_pos s (q_ms _ Hq)) as Hms.
  destruct (set_cpu_timer_linked s n t Hq Ht Hn He) as (r & E & Hok & Hs & Hk & Hp). set (s2 := linked s n t r) in *.
  assert (Hl : s2.(timers) !! n = Some (set_timer_of s t)) by apply lookup_insert_eq.
  assert (Hkn : key_of s2 n = key) by (by unfold key_of; rewrite Hl).
  assert (Hd : key - now s2 < 2 ^ 32) by (pose proof (now_le s s2 ltac:(cbn; lia) eq_refl ltac:(lia)); unfold key; lia).
  split.
  - intros H0. rewrite H0 in Hp. apply Permutation_singleton_r in Hp. rewrite E (set_clock_cases s2 n (set_timer_of s t)); [|apply Hq|by unfold _rb_first; cbn; rewrite Hp|done|done].
    case_decide as A; case_decide as B; [|by destruct B|by destruct A|done]. eexists. split; [done|]. split; [exact Hp|exact Hkn].
  - intros m Hm Hkm. assert (Hmn : m ≠ n) by (intros ->; apply Hn; rewrite Hm; by left).
    destruct (q_in _ Hq m) as (x & Hx & Hxf & Hxr); [rewrite Hm; by left|]. rewrite (key_of_eq s m x Hx) in Hkm.
    assert (Hlm : s2.(timers) !! m = Some x) by (by cbn; rewrite lookup_insert_ne).
    rewrite Hm in Hp. destruct (two_timers_sorted (key_of s2) m n r Hk Hs Hp) as [Hord (f & Hf & Hkf & Hfmn)]; [by rewrite Hkn (key_of_eq s2 m x Hlm)|].
    rewrite (key_of_eq s2 m x Hlm) in Hkf, Hord. rewrite Hkn in Hord.
    assert (Hfy : ∃ y, s2.(timers) !! f = Some y ∧ y.(_key) = x.(_key)).
    { destruct Hfmn as [-> | ->]; [by exists x|]. exists (set_timer_of s t). split; [done|]. by rewrite -Hkf (key_of_eq s2 n _ Hl). }
    destruct Hfy as (y & Hy & Hyk). assert (Hreach : in_reach s2 (x.(_key) - now s2)).
    { pose proof (now_le s s2 ltac:(cbn; lia) eq_refl ltac:(lia)). unfold in_reach in *. cbn -[now] in *. nia. }
    rewrite E (set_clock_cases s2 f y) //; [|apply Hq|rewrite Hyk; unfold in_reach in Hreach; cbn -[now] in Hreach; nia].
    rewrite Hyk decide_True //. set (s' := tick _). exists s'. split; [done|]. rewrite (key_of_eq s m x Hx). split; [exact Hord|]. split; [exact Hkn|].
    intros Hfar. assert (Hnow : now s2 ≤ now s') by (apply now_le; [cbn; lia|done|cbn; lia]).
    apply (cancel_far s' m n x (set_timer_of s t)); [apply Hq|exact Hok|exact Hk|exact Hs|exact Hp|done..| |].
    + change (set_timer_of s t).(_key) with key. lia.
    + unfold in_reach. change (set_timer_of s t).(_key) with key. lia.
Qed.

(** C13: how far ahead a timer that the caller has filled in can be.  On an empty queue [set_cpu_timer] returns
    when the counts that remain fit in the 31 bits of the clock, and panics when
    they do not.  If the queue is not empty it takes any [elapse], and if the
    timer is still too far ahead when the only other one is cancelled, as it is
    before its handler runs, that panics. *)
Theorem set_cpu_timer_bounds s0 n t : reach s0 → n ∉ inorder s0.(root) → 0 ≤ t.(elapse) < 2 ^ 31 → 0 ≤ t.(_key) < 2 ^ 63 →
  let s := set_timers (<[n := t]> s0.(timers)) s0 in
  let key := now s + t.(elapse) in
  (inorder s.(root) = [] →
    if decide ((key - count (S s.(uses)) / s.(one_ms)) * s.(one_ms) ≤ 0x7fffffff)
    then ∃ s', set_cpu_timer count n s = Ok (tt, s') ∧ inorder s'.(root) = [n] ∧ key_of s' n = key
    else set_cpu_timer count n s = Fail Panicked) ∧
  (∀ m, inorder s.(root) = [m] → key_of s m ≤ key →
    ∃ s', set_cpu_timer count n s = Ok (tt, s') ∧ (key_of s m < key → inorder s'.(root) = [m; n]) ∧ key_of s' n = key ∧
      (0x7fffffff < (key - now s') * s'.(one_ms) → cancel_cpu_timer count m s' = Fail Panicked)).
Proof.
  intros Hr Hn He Hk s. apply set_cpu_timer_far; [|by apply lookup_insert_eq|done|done]. apply queue_ok_put; [apply (timer_reach_sound s0 Hr)|done|done].
Qed.
End spec.

(** ** Witnesses *)

Module TimerExamples.
#[local] Existing Instance ListOps.
(** Ten uses of the counter in the first millisecond, then the second one. *)
Definition x_count (i : nat) : Z := Z.min (if decide (i < 7)%nat then 100 * Z.of_nat i else 20000 + 100 * Z.of_nat i) (2 ^ 62 - 1).
Definition x_this (s : core) : running := mkRunning false 0 0.
Definition x_yield : M core unit := mret tt.
Definition x_other (h n : Z) : M core unit := mret tt.
Definition FREQ : Z := 19200000.
Definition x_timers : gmap Z timer :=
  <[4096 := mkTimer false 0 0 0 0]> {[8192 := mkTimer false 1 0 2 0]}.
Definition x0 : core := mkCore false Leaf x_timers 0 true 0 0.
Definition after (m : M core unit) (s : core) : core := match m s with Ok (_, s') => s' | Fail _ => s end.
(** The processor is brought up, the scheduler's timer is set. *)
Definition x1 : core := Eval vm_compute in after (set_cpu_on x_count FREQ 1 4096) x0.
Definition x2 : core := Eval vm_compute in after (set_cpu_timer x_count 8192) x1.

Lemma x_mono i : x_count i ≤ x_count (S i).
Proof. unfold x_count. do 2 case_decide; lia. Qed.
Lemma x_range i : 0 ≤ x_count i < 2 ^ 62.
Proof. unfold x_count. case_decide; lia. Qed.
Lemma x_freq : 1000 ≤ FREQ ∧ 5 * FREQ ≤ 0x7fffffff.
Proof. by vm_compute. Qed.

Abbreviation x_sound := (sound x_count FREQ 1 2 4096 8192).
Abbreviation x_goes := (goes x_count FREQ 1 2 4096 8192 0).
Lemma x_stays s : x_sound s → x_goes s s [].
Proof. intros Hs. split; [done|done|lia|done|done|by intros ? ?%not_elem_of_nil]. Qed.
Lemma x_this_law s : (container_id (x_this s) < 5)%nat.
Proof. cbn. lia. Qed.
Lemma x_yield_law s : x_sound s → ∃ s' new, x_yield s = Ok (tt, s') ∧ x_goes s s' new.
Proof. intros Hs. exists s, []. split; [done|by apply x_stays]. Qed.
Lemma x_other_law s n t : x_sound s → s.(timers) !! n = Some t → n ∉ inorder s.(root) → t.(triggered) = true →
  t.(handler) ≠ 1 → t.(handler) ≠ 2 → ∃ s' new, x_other t.(handler) n s = Ok (tt, s') ∧ x_goes s s' new.
Proof. intros Hs _ _ _ _ _. exists s, []. split; [done|by apply x_stays]. Qed.

Lemma x_timers_inv n t : x_timers !! n = Some t →
  n = 4096 ∧ t = mkTimer false 0 0 0 0 ∨ n = 8192 ∧ t = mkTimer false 1 0 2 0.
Proof. unfold x_timers. rewrite lookup_insert_Some lookup_singleton_Some. naive_solver. Qed.
Lemma x_off : off FREQ 1 2 4096 8192 x0.
Proof.
  split; [done|]. split; [apply rb_ok_leaf|]. split; [done|]. split; [|split].
  - intros n. unfold key_of. destruct (timers x0 !! n) as [t|] eqn:E; [|done]. by apply x_timers_inv in E as [[_ ->]|[_ ->]].
  - intros n t E. change (x_timers !! n = Some t) in E. apply x_timers_inv in E as [[-> ->]|[-> ->]]; (split; [done| |]); done.
  - by eexists.
Qed.
Abbreviation x_reach := (reach x_count FREQ 1 2 4096 8192 x_this x_yield x_other).
Lemma x1_reach : x_reach x1.
Proof. by apply (reach_on _ _ _ _ _ _ _ _ _ x0); [apply x_off|]. Qed.
Lemma x2_reach : x_reach x2.
Proof.
  apply (reach_step _ _ _ _ _ _ _ _ _ x1 (Set_timer 8192)); [apply x1_reach| |done].
  split; [|by eexists]. apply (bool_decide_unpack _). by vm_compute.
Qed.



Definition x1' : core := set_timers (<[12288 := mkTimer false 200000 0 3 0]> x1.(timers)) x1.
Definition x3 : core := Eval vm_compute in after (set_cpu_timer x_count 12288) x1'.

(** A timer 200 seconds ahead is taken while [hello] comes first, and
    cancelling [hello] panics. *)
Lemma set_cpu_timer_bounds_witness : x_reach x1 ∧
  ∃ s', set_cpu_timer x_count 12288 x1' = Ok (tt, s') ∧
    cancel_cpu_timer x_count 4096 s' = Fail Panicked.
Proof.
  split; [apply x1_reach|].
  destruct (set_cpu_timer_bounds x_count FREQ 1 2 4096 8192 x_this x_yield x_other x_mono x_range x_freq 0 x_this_law x_yield_law x_other_law
    x1 12288 (mkTimer false 200000 0 3 0) x1_reach) as [_ Hb].
  - apply (bool_decide_unpack _). by vm_compute.
  - done.
  - done.
  - destruct (Hb 4096) as (s' & E & _ & _ & Hc); [reflexivity|by vm_compute|]. exists s'. split; [exact E|]. apply Hc.
    assert (E' : set_cpu_timer x_count 12288 x1' = Ok (tt, x3)) by (by vm_compute). rewrite E' in E. injection E as <-. by vm_compute.
Defined.
End TimerExamples.
