(* ===== verification/Proc.v ===== *)
(** * Processes and containers

    [src/kernel/proc.c] and [src/kernel/container.c]: the tree of processes,
    [exit] and [wait], [kill], and the pools of process numbers, one for the
    system and one per container.  Sections of the code under [plock] are
    definitions; [wait] gives the lock up around [wait_sem] and is four of
    them.  [childexit] is a semaphore of [Sem.v]; a ring of [ptnode]s is the
    sequence from [children.next] on.  Addresses given by [kalloc] are
    arguments.  Page tables ([init_pgdir], [free_pgdir]), the kernel stack and
    [activate_group] belong to other files and are left out. *)

From iris.prelude Require Import prelude.
From S2P Require Import Prelude Sem Sched.
#[local] Open Scope Z_scope.

(** ** Data *)

Definition PID_NUM : Z := 100.

Record pid_pool : Type := mkPool { freelist : list Z; avail : Z }.

Record proc : Type := mkProc {
  killed : bool; idle : bool; pid : Z; localpid : Z; exitcode : Z; state : procstate;
  childexit : Semaphore; children : list Z; parent : option Z; online : bool; container_of_proc : Z;
  kcontext : Z * Z * Z;
}.

Record container : Type := mkContainer { cparent : option Z; rootproc : option Z; pids : pid_pool; id : Z }.

Record system : Type := mkSystem { procs : gmap Z proc; containers : gmap Z container; global_pids : pid_pool }.

(** ** Code *)

Section code.
(** The addresses of [root_proc], [root_container] and the function [proc_entry]. *)
Context (root_proc root_container proc_entry : Z).
Abbreviation M := (Prelude.M system).

Definition set_procs (x : gmap Z proc) (s : system) : system := mkSystem x s.(containers) s.(global_pids).
Definition set_containers (x : gmap Z container) (s : system) : system := mkSystem s.(procs) x s.(global_pids).
Definition set_global (x : pid_pool) (s : system) : system := mkSystem s.(procs) s.(containers) x.
Definition with_exitcode (v : Z) (x : proc) : proc := mkProc x.(killed) x.(idle) x.(pid) x.(localpid) v x.(state) x.(childexit) x.(children) x.(parent) x.(online) x.(container_of_proc) x.(kcontext).
Definition with_killed (x : proc) : proc := mkProc true x.(idle) x.(pid) x.(localpid) x.(exitcode) x.(state) x.(childexit) x.(children) x.(parent) x.(online) x.(container_of_proc) x.(kcontext).
Definition with_state (v : procstate) (x : proc) : proc := mkProc x.(killed) x.(idle) x.(pid) x.(localpid) x.(exitcode) v x.(childexit) x.(children) x.(parent) x.(online) x.(container_of_proc) x.(kcontext).
Definition with_childexit (v : Semaphore) (x : proc) : proc := mkProc x.(killed) x.(idle) x.(pid) x.(localpid) x.(exitcode) x.(state) v x.(children) x.(parent) x.(online) x.(container_of_proc) x.(kcontext).
Definition with_children (v : list Z) (x : proc) : proc := mkProc x.(killed) x.(idle) x.(pid) x.(localpid) x.(exitcode) x.(state) x.(childexit) v x.(parent) x.(online) x.(container_of_proc) x.(kcontext).
Definition with_parent (v : Z) (x : proc) : proc := mkProc x.(killed) x.(idle) x.(pid) x.(localpid) x.(exitcode) x.(state) x.(childexit) x.(children) (Some v) x.(online) x.(container_of_proc) x.(kcontext).
Definition with_container (v : Z) (x : proc) : proc := mkProc x.(killed) x.(idle) x.(pid) x.(localpid) x.(exitcode) x.(state) x.(childexit) x.(children) x.(parent) x.(online) v x.(kcontext).
Definition with_localpid (v : Z) (x : proc) : proc := mkProc x.(killed) x.(idle) x.(pid) v x.(exitcode) x.(state) x.(childexit) x.(children) x.(parent) x.(online) x.(container_of_proc) x.(kcontext).
Definition with_kcontext (v : Z * Z * Z) (x : proc) : proc := mkProc x.(killed) x.(idle) x.(pid) x.(localpid) x.(exitcode) x.(state) x.(childexit) x.(children) x.(parent) x.(online) x.(container_of_proc) v.

Definition get_proc (p : Z) : M proc := m ← gets procs; deref (m !! p).
Definition get_container (c : Z) : M container := m ← gets containers; deref (m !! c).
Definition upd_proc (p : Z) (f : proc → proc) : M unit := modify (λ s, set_procs (alter f p s.(procs)) s).
Definition upd_container (c : Z) (f : container → container) : M unit := modify (λ s, set_containers (alter f c s.(containers)) s).

(** *** Pools of process numbers *)

(** [freelist[avail++]] *)
Definition take_id (x : pid_pool) : M (Z * pid_pool) :=
  i ← (if x.(avail) <? 0 then fault else deref (x.(freelist) !! Z.to_nat x.(avail)));
  mret (i, mkPool x.(freelist) (x.(avail) + 1)).
(** [freelist[--avail] = i] *)
Definition give_id (i : Z) (x : pid_pool) : M pid_pool :=
  if (0 <? x.(avail)) && (x.(avail) <=? PID_NUM)
  then mret (mkPool (<[Z.to_nat (x.(avail) - 1) := i]> x.(freelist)) (x.(avail) - 1))
  else fault.
Definition full_list : list Z := Z.of_nat <$> seq 0 (Z.to_nat PID_NUM).
Definition init_pids : pid_pool := mkPool full_list 1.

(** *** Scheduling states *)

(** [_activate_proc], as far as the state goes. *)
Definition activate (p : Z) (onalert : bool) : M unit :=
  x ← get_proc p;
  match x.(state) with
  | RUNNING | RUNNABLE | ZOMBIE => mret tt
  | st => if bool_decide (st = DEEPSLEEPING) && onalert then mret tt else upd_proc p (with_state RUNNABLE)
  end.

(** A routine of [sem.c] on [p->childexit], which may activate processes. *)
Definition on_childexit {A} (p : Z) (m : Prelude.M Semaphore A) : M A :=
  x ← get_proc p;
  match m x.(childexit) with
  | Ok (a, sem) =>
      upd_proc p (with_childexit (mkSem sem.(val) sem.(sleeplist) sem.(waits) [])) ;;
      for_each sem.(activated) (λ q, activate q false) ;;
      mret a
  | Fail e => fail e
  end.
Definition post_childexit (p : Z) : M unit := on_childexit p _post_sem.

(** [sched] in a process that may have been killed. *)
Definition sched (p : Z) (new_state : procstate) : M unit :=
  x ← get_proc p;
  assert_ (bool_decide (x.(state) = RUNNING)) ;;
  if x.(killed) && negb (bool_decide (new_state = ZOMBIE)) then mret tt else upd_proc p (with_state new_state).

(** *** [proc.c] *)

Definition init_proc (p : Z) : M unit :=
  g ← gets global_pids;
  '(i, g') ← take_id g;
  modify (set_global g') ;;
  modify (λ s, set_procs (<[p := mkProc false false i 0 0 UNUSED (init_sem 0) [] None false root_container (0, 0, 0)]> s.(procs)) s).
Definition create_proc (p : Z) : M Z := init_proc p ;; mret p.

Definition insert_child (p c : Z) : M unit := upd_proc p (λ x, with_children (c :: x.(children)) x).
Definition set_parent_to_this (this p : Z) : M unit :=
  upd_proc p (with_parent this) ;;
  insert_child this p.

Definition start_proc (p entry arg : Z) : M Z :=
  x ← get_proc p;
  (if bool_decide (x.(parent) = None) then upd_proc p (with_parent root_proc) ;; insert_child root_proc p else mret tt) ;;
  upd_proc p (with_kcontext (proc_entry, entry, arg)) ;;
  c ← get_container x.(container_of_proc);
  '(i, pool) ← take_id c.(pids);
  upd_container x.(container_of_proc) (λ c, mkContainer c.(cparent) c.(rootproc) pool c.(id)) ;;
  upd_proc p (with_localpid i) ;;
  activate p false ;;
  mret i.

(** The children that have exited are announced to the root process. *)
Definition announce (r : Z) (cs : list Z) : M unit :=
  for_each cs (λ c, x ← get_proc c; if bool_decide (x.(state) = ZOMBIE) then post_childexit r else mret tt).
(** [_merge_list(first, &root->children)]: the first child comes last. *)
Definition hand_over (this r : Z) (cs : list Z) : M unit :=
  match cs with
  | [] => mret tt
  | c :: cs' =>
      for_each cs (λ c, upd_proc c (with_parent r)) ;;
      upd_proc this (with_children []) ;;
      upd_proc r (λ x, with_children (x.(children) ++ cs' ++ [c]) x)
  end.
Definition exit (this code : Z) : M unit :=
  x ← get_proc this;
  cn ← get_container x.(container_of_proc);
  r ← deref cn.(rootproc);
  assert_ (negb (this =? r) && negb x.(idle)) ;;
  upd_proc this (with_exitcode code) ;;
  announce r x.(children) ;;
  hand_over this r x.(children) ;;
  p ← deref x.(parent);
  post_childexit p ;;
  g ← gets global_pids;
  g' ← give_id x.(pid) g;
  modify (set_global g') ;;
  sched this ZOMBIE.

(** [wait]: up to [wait_sem]; [wait_sem] up to its call of [sched] and from
    there on; and from [wait_sem] on. *)
Definition wait_begin (this : Z) : M bool := x ← get_proc this; mret (negb (bool_decide (x.(children) = []))).
Definition wait_for_child (this : Z) : M bool :=
  r ← on_childexit this (_wait_sem this true);
  (if r : bool then mret tt else sched this SLEEPING) ;;
  mret r.
Definition wait_woken (this : Z) : M bool := on_childexit this (wait_sem_wake this).
Fixpoint find_zombie (cs : list Z) : M Z :=
  match cs with
  | [] => panic
  | c :: cs' => x ← get_proc c; if bool_decide (x.(state) = ZOMBIE) then mret c else find_zombie cs'
  end.
(** The result of [wait], and what it stores at [exitcode] and [pid]. *)
Definition wait_reap (this : Z) : M (Z * Z * Z) :=
  t ← get_proc this;
  c ← find_zombie t.(children);
  x ← get_proc c;
  cn ← get_container x.(container_of_proc);
  pool ← give_id x.(localpid) cn.(pids);
  upd_container x.(container_of_proc) (λ cn, mkContainer cn.(cparent) cn.(rootproc) pool cn.(id)) ;;
  upd_proc this (λ t, with_children (filter (.≠ c) t.(children)) t) ;;
  modify (λ s, set_procs (delete c s.(procs)) s) ;;
  mret (x.(localpid), x.(exitcode), x.(pid)).

(** The first child for which [search] finds a process. *)
Fixpoint first_found (search : Z → M (option Z)) (cs : list Z) : M (option Z) :=
  match cs with
  | [] => mret None
  | c :: cs' => r ← search c; match r with Some p => mret (Some p) | None => first_found search cs' end
  end.
Fixpoint dfs (fuel : nat) (p pid_ : Z) (offline : bool) : M (option Z) :=
  match fuel with
  | O => fail OutOfFuel
  | S fuel =>
      x ← get_proc p;
      if ((x.(pid) =? pid_) || offline && negb x.(online)) && negb (bool_decide (x.(state) = UNUSED)) then mret (Some p)
      else first_found (λ c, dfs fuel c pid_ offline) x.(children)
  end.
(** Up to the call of [alert_proc], which runs after [plock] has been released. *)
Definition kill (fuel : nat) (pid_ : Z) : M (option Z) :=
  r ← dfs fuel root_proc pid_ false;
  match r with
  | Some p => upd_proc p with_killed ;; mret (Some p)
  | None => mret None
  end.
Definition alert_proc (p : Z) : M unit := activate p true.
Definition is_killed (p : Z) : M bool := x ← get_proc p; mret x.(killed).
Definition get_offline_proc (fuel : nat) : M Z :=
  r ← dfs fuel root_proc 0 true;
  match r with Some p => mret p | None => panic end.

(** *** [container.c] *)

Definition set_container_to_this (this p : Z) : M unit := t ← get_proc this; upd_proc p (with_container t.(container_of_proc)).
Definition init_container : container := mkContainer None None (mkPool full_list 0) 0.
(** [create_container] up to [set_parent_to_this]: the container and its first
    process, at the addresses [g] and [p], before anyone else knows of them. *)
Definition new_container (this g p arg : Z) : M unit :=
  t ← get_proc this;
  _ ← create_proc p;
  modify (λ s, set_containers (<[g := mkContainer (Some t.(container_of_proc)) (Some p) (mkPool full_list 0) arg]> s.(containers)) s) ;;
  upd_proc p (with_container g).
Definition create_container (this g p root_entry arg : Z) : M Z :=
  new_container this g p arg ;;
  set_parent_to_this this p ;;
  _ ← start_proc p root_entry arg;
  mret g.
End code.

(** ** Pools *)

(** [used] and what is left of the pool are the numbers from [base] on. *)
Record pool_ok (base : nat) (x : pid_pool) (used : list Z) : Prop := {
  po_length : length x.(freelist) = 100%nat;
  po_avail : x.(avail) = Z.of_nat (base + length used);
  po_perm : used ++ drop (base + length used) x.(freelist) ≡ₚ Z.of_nat <$> seq base (100 - base);
}.

Lemma full_pool : pool_ok 0 (mkPool full_list 0) [].
Proof. split; [done|done|]. cbn [length app]. rewrite drop_0. done. Qed.

Lemma pool_perm b x u u' : u ≡ₚ u' → pool_ok b x u → pool_ok b x u'.
Proof. intros Hp [H1 H2 H3]. pose proof (Permutation_length Hp) as Hl. split; rewrite -?Hl -?Hp //. Qed.

Lemma pool_room b x u : (b ≤ 100)%nat → pool_ok b x u → x.(avail) ≤ 100 ∧ NoDup u.
Proof.
  intros Hb [H1 H2 H3]. pose proof (Permutation_length H3) as Hl. rewrite length_app length_fmap length_seq length_drop H1 in Hl. split; [lia|].
  assert (Hnd : NoDup (u ++ drop (b + length u) (freelist x))) by (rewrite H3; apply NoDup_fmap; [apply _|apply NoDup_seq]).
  by apply NoDup_app in Hnd as [? _].
Qed.

Lemma take_spec b x u s : pool_ok b x u → x.(avail) < 100 →
  ∃ i, take_id x s = Ok ((i, mkPool x.(freelist) (x.(avail) + 1)), s) ∧ pool_ok b (mkPool x.(freelist) (x.(avail) + 1)) (i :: u).
Proof.
  intros [H1 H2 H3] Ha. destruct (lookup_lt_is_Some_2 x.(freelist) (b + length u)) as [i Hi]; [lia|]. exists i. split.
  - unfold take_id. destruct (Z.ltb_spec x.(avail) 0); [lia|]. rewrite H2 Nat2Z.id Hi. done.
  - split; [done|cbn; lia|]. rewrite -H3. cbn [length app freelist]. rewrite (drop_S _ _ _ Hi).
    replace (b + S (length u))%nat with (S (b + length u)) by lia. by rewrite Permutation_middle.
Qed.

Lemma give_spec b x i u s : (b ≤ 100)%nat → pool_ok b x (i :: u) →
  ∃ x', give_id i x s = Ok (x', s) ∧ pool_ok b x' u.
Proof.
  intros Hb Hok. destruct (pool_room b x (i :: u) Hb Hok) as [Hle _]. destruct Hok as [H1 H2 H3]. cbn [length] in *. unfold give_id, PID_NUM.
  destruct (Z.ltb_spec 0 x.(avail)); [|lia]. destruct (Z.leb_spec x.(avail) 100); [|lia]. cbn [andb].
  eexists. split; [done|]. assert (Hi : Z.to_nat (x.(avail) - 1) = (b + length u)%nat) by lia. split; cbn [freelist avail].
  - by rewrite length_insert.
  - lia.
  - rewrite Hi. rewrite (drop_S _ i); [|apply list_lookup_insert_eq; lia]. rewrite drop_insert_lt; [|lia]. rewrite -H3 -Permutation_middle.
    by replace (b + S (length u))%nat with (S (b + length u)) by lia.
Qed.

(** The numbers that the processes of a map hold. *)
Definition select (f : proc → option Z) (m : gmap Z proc) : list Z := omap (λ o, o) ((map_to_list (f <$> m)).*2).
Lemma select_ext f m m' : (∀ p, f <$> m !! p = f <$> m' !! p) → select f m = select f m'.
Proof. intros E. unfold select. do 3 f_equal. apply map_eq. intros p. by rewrite !lookup_fmap. Qed.
Lemma select_new f m p x : m !! p = None → select f (<[p := x]> m) ≡ₚ option_list (f x) ++ select f m.
Proof.
  intros Hp. unfold select. rewrite fmap_insert map_to_list_insert; [|by rewrite lookup_fmap Hp]. cbn. destruct (f x); done.
Qed.
Lemma select_delete f m p x : m !! p = Some x → select f m ≡ₚ option_list (f x) ++ select f (delete p m).
Proof. intros Hp. rewrite -{1}(insert_delete_id m p x Hp). apply select_new, lookup_delete_eq. Qed.
Lemma select_update f m p x y : m !! p = Some x → select f (<[p := y]> m) ≡ₚ option_list (f y) ++ select f (delete p m).
Proof. intros Hp. rewrite -insert_delete_eq. apply select_new, lookup_delete_eq. Qed.

(** ** The tree of processes *)

Section tree.
Context (root_proc root_container : Z).
Implicit Types s : system.

Definition unused (x : proc) : bool := bool_decide (x.(state) = UNUSED).
Definition zombie (x : proc) : bool := bool_decide (x.(state) = ZOMBIE).
(** Started and not exited. *)
Definition active (x : proc) : bool := negb (unused x) && negb (zombie x).
Definition live_pid (x : proc) : option Z := if zombie x then None else Some x.(pid).
Definition local_pid (g : Z) (x : proc) : option Z :=
  if negb (unused x) && bool_decide (x.(container_of_proc) = g) then Some x.(localpid) else None.

Record tree_ok s : Prop := {
  t_idle : ∀ p x, s.(procs) !! p = Some x → x.(idle) = false;
  t_kids : ∀ p x, s.(procs) !! p = Some x → NoDup x.(children) ∧
    ∀ c, c ∈ x.(children) ↔ c ≠ root_proc ∧ ∃ y, s.(procs) !! c = Some y ∧ y.(parent) = Some p;
  t_parent : ∀ p x q, s.(procs) !! p = Some x → x.(parent) = Some q → ∃ y, s.(procs) !! q = Some y ∧ active y = true;
  t_started : ∀ p x, s.(procs) !! p = Some x → unused x = false → is_Some x.(parent);
  t_root : ∃ x, s.(procs) !! root_proc = Some x ∧ x.(parent) = Some root_proc;
  t_home : ∀ p x, s.(procs) !! p = Some x → ∃ cn r y, s.(containers) !! x.(container_of_proc) = Some cn ∧
    cn.(rootproc) = Some r ∧ s.(procs) !! r = Some y ∧ (p = r ∨ active y = true);
  t_first : ∀ g cn, s.(containers) !! g = Some cn → ∃ r y, cn.(rootproc) = Some r ∧ s.(procs) !! r = Some y ∧ zombie y = false ∧
    y.(container_of_proc) = g;
  t_top : ∃ cn, s.(containers) !! root_container = Some cn ∧ cn.(rootproc) = Some root_proc;
  t_rank : ∃ rank : Z → nat, (∀ p x q, s.(procs) !! p = Some x → x.(parent) = Some q → p ≠ root_proc → (rank q < rank p)%nat) ∧
    ∀ p x cn r, s.(procs) !! p = Some x → s.(containers) !! x.(container_of_proc) = Some cn → cn.(rootproc) = Some r → (rank r ≤ rank p)%nat;
  t_pids : pool_ok 1 s.(global_pids) (select live_pid s.(procs));
  t_lpids : ∀ g cn, s.(containers) !! g = Some cn → pool_ok 0 cn.(pids) (select (local_pid g) s.(procs));
}.

(** The fields the tree is made of; the others may change. *)
Definition core (x : proc) : bool * Z * Z * list Z * option Z * Z * bool * bool :=
  (x.(idle), x.(pid), x.(localpid), x.(children), x.(parent), x.(container_of_proc), unused x, zombie x).
Record soft s s' : Prop := {
  so_procs : ∀ p, core <$> s'.(procs) !! p = core <$> s.(procs) !! p;
  so_containers : s'.(containers) = s.(containers);
  so_global : s'.(global_pids) = s.(global_pids);
}.
#[global] Instance soft_preorder : PreOrder soft.
Proof. split; [by split|]. intros s1 s2 s3 [A B C] [A' B' C']. split; [intros p; by rewrite A'|congruence..]. Qed.

Lemma soft_back s s' p x' : soft s s' → s'.(procs) !! p = Some x' → ∃ x, s.(procs) !! p = Some x ∧ core x' = core x.
Proof. intros Hs. apply fmap_eq_Some, Hs. Qed.
Lemma soft_forth s s' p x : soft s s' → s.(procs) !! p = Some x → ∃ x', s'.(procs) !! p = Some x' ∧ core x' = core x.
Proof. intros Hs Hx. destruct (fmap_eq_Some core _ _ x (eq_sym (so_procs _ _ Hs p)) Hx) as (x' & ? & ?). by exists x'. Qed.

Ltac uncore H := unfold core in H; injection H as ? ? ? ? ? ? ? ?.
Lemma core_active x y : core x = core y → active x = active y.
Proof. intros E. uncore E. unfold active. congruence. Qed.
Lemma core_live x y : core x = core y → live_pid x = live_pid y.
Proof. intros E. uncore E. unfold live_pid. by destruct (zombie x), (zombie y); simplify_eq/=; f_equal. Qed.
Lemma core_local g x y : core x = core y → local_pid g x = local_pid g y.
Proof.
  intros E. uncore E. unfold local_pid.
  assert (unused x = unused y ∧ container_of_proc x = container_of_proc y ∧ localpid x = localpid y) as (-> & -> & ->) by done. done.
Qed.
Lemma select_soft {f} s s' : (∀ x y, core x = core y → f x = f y) → soft s s' → select f s'.(procs) = select f s.(procs).
Proof.
  intros Hf Hs. apply select_ext. intros p. pose proof (so_procs _ _ Hs p) as E.
  destruct (s'.(procs) !! p) as [x|], (s.(procs) !! p) as [y|]; cbn in *; [|done..]. f_equal. apply Hf. by apply (inj Some) in E.
Qed.

Lemma tree_soft s s' : soft s s' → tree_ok s → tree_ok s'.
Proof.
  intros Hs [Hi Hk Hp Hst Hr Hh Hf Ht Hrk Hpid Hl]. pose proof (so_containers _ _ Hs) as Ec. split.
  - intros p x' (x & Hx & E)%(soft_back _ _ _ _ Hs). specialize (Hi p x Hx). uncore E. congruence.
  - intros p x' (x & Hx & E)%(soft_back _ _ _ _ Hs). destruct (Hk p x Hx) as [Hnd Hin]. pose proof E as E'. uncore E'.
    replace (children x') with (children x) by congruence. split; [done|]. intros c. rewrite Hin. f_equiv. split.
    + intros (y & Hy & Hyp). destruct (soft_forth s s' c y Hs Hy) as (y' & Hy' & Ey). exists y'. uncore Ey. split; [done|congruence].
    + intros (y' & (y & Hy & Ey)%(soft_back _ _ _ _ Hs) & Hyp). exists y. uncore Ey. split; [done|congruence].
  - intros p x' q (x & Hx & E)%(soft_back _ _ _ _ Hs) Hpar. uncore E. destruct (Hp p x q Hx) as (y & Hy & Hya); [congruence|].
    destruct (soft_forth s s' q y Hs Hy) as (y' & Hy' & Ey). exists y'. by rewrite (core_active _ _ Ey).
  - intros p x' (x & Hx & E)%(soft_back _ _ _ _ Hs) Hu. uncore E. destruct (Hst p x Hx) as [q Hq]; [congruence|]. exists q. congruence.
  - destruct Hr as (x & Hx & Hpar). destruct (soft_forth s s' _ x Hs Hx) as (x' & Hx' & E). exists x'. uncore E. split; [done|congruence].
  - intros p x' (x & Hx & E)%(soft_back _ _ _ _ Hs). destruct (Hh p x Hx) as (cn & r & y & Hcn & Hrp & Hy & Hor).
    destruct (soft_forth s s' r y Hs Hy) as (y' & Hy' & Ey). exists cn, r, y'. rewrite Ec (core_active _ _ Ey). uncore E.
    split_and!; [congruence|done..].
  - intros g cn Hg. rewrite Ec in Hg. destruct (Hf g cn Hg) as (r & y & Hrp & Hy & Hz & Hc).
    destruct (soft_forth s s' r y Hs Hy) as (y' & Hy' & Ey). exists r, y'. uncore Ey. split_and!; [done..|congruence|congruence].
  - by rewrite Ec.
  - destruct Hrk as (rank & H1 & H2). exists rank. split.
    + intros p x' q (x & Hx & E)%(soft_back _ _ _ _ Hs) Hpar. uncore E. apply (H1 p x q Hx). congruence.
    + intros p x' cn r (x & Hx & E)%(soft_back _ _ _ _ Hs) Hcn. uncore E. apply (H2 p x cn r Hx). congruence.
  - rewrite (so_global _ _ Hs) (select_soft s s'); [done|apply core_live|done].
  - intros g cn Hg. rewrite Ec in Hg. rewrite (select_soft s s'); [by apply Hl|apply core_local|done].
Qed.

(** *** One process updated *)

Definition put (p : Z) (x : proc) s : system := set_procs (<[p := x]> s.(procs)) s.
Lemma proc_put_lookup p x s q : (put p x s).(procs) !! q = if decide (q = p) then Some x else s.(procs) !! q.
Proof. cbn. case_decide; [subst; apply lookup_insert_eq|by apply lookup_insert_ne]. Qed.
Lemma soft_put s p x x' : s.(procs) !! p = Some x → core x' = core x → soft s (put p x' s).
Proof. intros Hp E. split; [|done..]. intros q. rewrite proc_put_lookup. case_decide; [|done]. subst. rewrite Hp. cbn. by rewrite E. Qed.

Lemma proc_run s p x : s.(procs) !! p = Some x → get_proc p s = Ok (x, s).
Proof. intros Hp. unfold get_proc. by rewrite (bind_Ok _ _ s s.(procs) s) // Hp. Qed.
Lemma proc_container_run s g cn : s.(containers) !! g = Some cn → get_container g s = Ok (cn, s).
Proof. intros Hg. unfold get_container. by rewrite (bind_Ok _ _ s s.(containers) s) // Hg. Qed.
Lemma upd_run s p x f : s.(procs) !! p = Some x → upd_proc p f s = Ok (tt, put p (f x) s).
Proof. intros Hp. unfold upd_proc, modify, put. by rewrite (alter_run _ _ p x). Qed.
Lemma proc_upd_container_run s g cn f : s.(containers) !! g = Some cn → upd_container g f s = Ok (tt, set_containers (<[g := f cn]> s.(containers)) s).
Proof. intros Hg. unfold upd_container, modify. by rewrite (alter_run _ _ g cn). Qed.

(** ** The children that have exited *)

(** Where in [wait] a process is: before [wait_sem], asleep in it, or past it. *)
Inductive phase : Type := Asking | Sleeping | Reaping.
#[local] Instance phase_eq_dec : EqDecision phase.
Proof. solve_decision. Defined.

(** The units of a semaphore, those granted to a process that has not run since included. *)
Definition units (x : Semaphore) : Z := x.(val) + Z.of_nat (size x.(waits)).
Record sem_good (p : Z) (ph : option phase) (x : Semaphore) : Prop := {
  sg_inv : ∃ t a, sem_inv 0 t a x;
  sg_waits : ∀ q, is_Some (x.(waits) !! q) ↔ q = p ∧ ph = Some Sleeping;
  sg_activated : x.(activated) = [];
}.

Lemma sem_good_sleepers p ph x : sem_good p ph x → Z.of_nat (length x.(sleeplist)) = Z.max 0 (- x.(val)) ∧
  (length x.(sleeplist) ≤ size x.(waits) ≤ 1)%nat ∧ ∀ q, q ∈ x.(sleeplist) → q = p.
Proof.
  intros [(t & a & [Hnd Hw Hl _]) Hd _].
  assert (Hq : ∀ q, q ∈ x.(sleeplist) → q = p).
  { intros q (w & Hq & _)%Hw. by destruct (proj1 (Hd q)) as [? _]; [by eexists|]. }
  split; [done|]. split; [|done]. split.
  - rewrite -size_dom -(size_list_to_set (C := gset Z) x.(sleeplist)) //. apply subseteq_size. intros q.
    rewrite elem_of_list_to_set Hw elem_of_dom. intros (w & -> & _). by eexists.
  - rewrite -size_dom. rewrite -(size_singleton (C := gset Z) p). apply subseteq_size. intros q. rewrite elem_of_dom Hd. set_solver.
Qed.
Lemma units_pos p ph x : sem_good p ph x → 0 ≤ units x ∧ x.(val) ≤ units x ∧ -1 ≤ x.(val).
Proof. intros Hg. destruct (sem_good_sleepers p ph x Hg) as (Hl & Hle & _). unfold units. lia. Qed.

Definition clear_activated (x : Semaphore) : Semaphore := mkSem x.(val) x.(sleeplist) x.(waits) [].
Lemma sem_inv_clear v t a x : sem_inv v t a x → sem_inv v t a (clear_activated x).
Proof. by intros [? ? ? ?]. Qed.

(** [_post_sem] on the semaphore of one waiter. *)
Lemma post_good p ph x : sem_good p ph x → units x < 2 ^ 31 - 2 →
  ∃ x', _post_sem x = Ok (tt, x') ∧ sem_good p ph (clear_activated x') ∧ units (clear_activated x') = units x + 1 ∧
    (x'.(activated) = [] ∨ x'.(activated) = [p]).
Proof.
  intros Hg Hu. destruct (units_pos p ph x Hg) as (H0 & H1 & H2). destruct (sem_good_sleepers p ph x Hg) as (Hl & _ & Hq).
  destruct Hg as [(t & a & Hi) Hd Ha]. eexists. split; [apply _post_sem_run; lia|]. destruct (last x.(sleeplist)) as [q|] eqn:Eq.
  - pose proof (granted_inv 0 t a q x Hi Eq) as Hi'. assert (q = p) as -> by (apply Hq, last_Some_elem_of; done).
    split; [split|split].
    + exists t, (a + 1). by apply sem_inv_clear.
    + intros q. rewrite -Hd. cbn. destruct (decide (q = p)) as [->|]; [rewrite lookup_alter_eq fmap_is_Some //|rewrite lookup_alter_ne //].
    + done.
    + unfold units. cbn. rewrite -size_dom dom_alter_L size_dom. lia.
    + right. cbn. by rewrite Ha.
  - apply last_None in Eq. split; [split|split].
    + exists t, (a + 1). destruct Hi as [Hnd Hw Hl' Hn]. split; cbn; [done..|rewrite Eq in Hl |- *; cbn in *; lia|lia].
    + exact Hd.
    + done.
    + unfold units. cbn. lia.
    + by left.
Qed.

(** Activated, a process that is in use stays in use. *)
Lemma activate_core s p x onalert : s.(procs) !! p = Some x → unused x = false →
  ∃ x', activate p onalert s = Ok (tt, put p x' s) ∧ core x' = core x ∧ x'.(childexit) = x.(childexit) ∧ x'.(killed) = x.(killed).
Proof.
  intros Hx Hu. unfold activate. rewrite (bind_Ok _ _ _ _ _ (proc_run s p x Hx)).
  assert (Hsame : ∃ x', (mret tt : Prelude.M system unit) s = Ok (tt, put p x' s) ∧ core x' = core x ∧ x'.(childexit) = x.(childexit) ∧ x'.(killed) = x.(killed)).
  { exists x. split_and!; [|done..]. unfold put, mret, M_ret. do 2 f_equal. destruct s. cbn in *. by rewrite insert_id. }
  assert (Hwake : x.(state) = SLEEPING ∨ x.(state) = DEEPSLEEPING → ∃ x', upd_proc p (with_state RUNNABLE) s = Ok (tt, put p x' s) ∧
    core x' = core x ∧ x'.(childexit) = x.(childexit) ∧ x'.(killed) = x.(killed)).
  { intros Hst. exists (with_state RUNNABLE x). split_and!; [by apply upd_run| |done..]. unfold core, unused, zombie. by destruct Hst as [-> | ->]. }
  destruct x.(state) eqn:Est; try done.
  - unfold unused in Hu. by rewrite Est in Hu.
  - rewrite bool_decide_eq_false_2 //. by apply Hwake; left.
  - destruct onalert; [done|]. rewrite andb_false_r. by apply Hwake; right.
Qed.

Lemma post_childexit_spec s p x ph : s.(procs) !! p = Some x → unused x = false → sem_good p ph x.(childexit) →
  units x.(childexit) < 2 ^ 31 - 2 →
  ∃ x', post_childexit p s = Ok (tt, put p x' s) ∧ core x' = core x ∧ sem_good p ph x'.(childexit) ∧
    units x'.(childexit) = units x.(childexit) + 1 ∧ x'.(killed) = x.(killed).
Proof.
  intros Hx Hu Hg Hb. destruct (post_good p ph _ Hg Hb) as (sem & E & Hg' & Hu' & Hact). unfold post_childexit, on_childexit.
  rewrite (bind_Ok _ _ _ _ _ (proc_run s p x Hx)) E. rewrite (bind_Ok _ _ _ _ _ (upd_run s p x _ Hx)).
  set (x1 := with_childexit _ x). set (s1 := put p x1 s). destruct Hact as [->| ->]; cbn [for_each].
  - exists x1. by rewrite (bind_Ok _ _ s1 tt s1).
  - destruct (activate_core s1 p x1 false) as (x2 & E2 & Hc & He & Hk); [by rewrite proc_put_lookup decide_True|done|].
    exists x2. assert (Eact : (activate p false ;; mret tt) s1 = Ok (tt, put p x2 s)).
    { rewrite (bind_Ok _ _ _ _ _ E2). unfold s1, put, set_procs. cbn. by rewrite insert_insert_eq. }
    rewrite (bind_Ok _ _ _ _ _ Eact). split; [done|]. split; [exact Hc|]. rewrite He Hk. done.
Qed.

Definition zombie_at s (c : Z) : bool := match s.(procs) !! c with Some y => zombie y | None => false end.
Definition zombies s (x : proc) : Z := Z.of_nat (length (filter (λ c, zombie_at s c = true) x.(children))).

(** The semaphore of every process that has not exited counts its children that
    have, but for the one a process in [wait] is about to reap, and up to [ext]. *)
Record sems_ok (ext : Z → Z) (ph : gmap Z phase) s : Prop := {
  e_sem : ∀ p x, s.(procs) !! p = Some x → zombie x = false → sem_good p (ph !! p) x.(childexit) ∧
    units x.(childexit) = zombies s x - (if decide (ph !! p = Some Reaping) then 1 else 0) + ext p;
  e_phase : ∀ p, is_Some (ph !! p) → ∃ x, s.(procs) !! p = Some x ∧ active x = true;
  e_small : Z.of_nat (size s.(procs)) < 2 ^ 29;
}.

Lemma zombie_at_soft s s' c : soft s s' → zombie_at s' c = zombie_at s c.
Proof.
  intros Hs. unfold zombie_at. destruct (s'.(procs) !! c) as [x'|] eqn:E.
  - destruct (soft_back _ _ _ _ Hs E) as (x & -> & Ec). uncore Ec. done.
  - destruct (s.(procs) !! c) as [x|] eqn:E'; [|done]. destruct (soft_forth _ _ _ _ Hs E') as (x' & Hx' & _). congruence.
Qed.
Lemma filter_ext_in (P Q : Z → Prop) `{!∀ c, Decision (P c), !∀ c, Decision (Q c)} (l : list Z) : (∀ c, c ∈ l → P c ↔ Q c) → filter P l = filter Q l.
Proof.
  induction l as [|c l IH]; intros E; [done|]. rewrite !filter_cons IH; [|intros; apply E; by right].
  destruct (E c ltac:(by left)). do 2 case_decide; tauto.
Qed.
Lemma zombies_ext s s' x x' : (∀ c, c ∈ x.(children) → zombie_at s' c = zombie_at s c) → x'.(children) = x.(children) → zombies s' x' = zombies s x.
Proof. intros Hz Hc. unfold zombies. rewrite Hc. do 2 f_equal. apply filter_ext_in. intros c Hin. by rewrite Hz. Qed.
Lemma size_soft s s' : soft s s' → size s'.(procs) = size s.(procs).
Proof. intros Hs. apply (size_same core). apply Hs. Qed.

Lemma zombies_small s p x : tree_ok s → s.(procs) !! p = Some x → 0 ≤ zombies s x ≤ Z.of_nat (size s.(procs)).
Proof.
  intros Ht Hx. destruct (t_kids _ Ht p x Hx) as [Hnd Hin]. unfold zombies. split; [lia|].
  assert (length (filter (λ c, zombie_at s c = true) x.(children)) ≤ size s.(procs))%nat; [|lia].
  rewrite -size_dom -(size_list_to_set (C := gset Z)); [|by apply NoDup_filter]. apply subseteq_size. intros c.
  rewrite elem_of_list_to_set list_elem_of_filter elem_of_dom. intros [_ (_ & y & -> & _)%Hin]. by eexists.
Qed.

(** The semaphores of a state that differs softly: [p]'s may have changed, and
    its place in [wait]. *)
Lemma sems_step ext ext' ph ph' s s' p : sems_ok ext ph s → soft s s' →
  (∀ q, q ≠ p → ext' q = ext q ∧ ph' !! q = ph !! q ∧ childexit <$> s'.(procs) !! q = childexit <$> s.(procs) !! q) →
  (∀ x x', s.(procs) !! p = Some x → s'.(procs) !! p = Some x' → zombie x = false → sem_good p (ph' !! p) x'.(childexit) ∧
     units x'.(childexit) = zombies s x - (if decide (ph' !! p = Some Reaping) then 1 else 0) + ext' p) →
  (is_Some (ph' !! p) → ∃ x, s.(procs) !! p = Some x ∧ active x = true) → sems_ok ext' ph' s'.
Proof.
  intros [He Hp Hsm] Hs Hq Hpp Hph. split.
  - intros q x' Hx' Hz. destruct (soft_back _ _ _ _ Hs Hx') as (x & Hx & Ec). pose proof Ec as Ec'. uncore Ec'.
    assert (Hzx : zombie x = false) by congruence.
    rewrite (zombies_ext s s' x x'); [|intros; by apply zombie_at_soft|done].
    destruct (decide (q = p)) as [->|Hne]; [by apply Hpp|]. destruct (Hq q Hne) as (-> & -> & E). rewrite Hx' Hx in E. injection E as ->.
    by apply He.
  - intros q Hq'. assert (Hold : ∃ x, s.(procs) !! q = Some x ∧ active x = true).
    { destruct (decide (q = p)) as [->|Hne]; [by apply Hph|]. apply Hp. by destruct (Hq q Hne) as (_ & <- & _). }
    destruct Hold as (x & Hx & Ha). destruct (soft_forth _ _ _ _ Hs Hx) as (x' & Hx' & Ec). exists x'. by rewrite (core_active _ _ Ec).
  - by rewrite (size_soft s s').
Qed.

Lemma sems_soft ext ext' ph s s' p : sems_ok ext ph s → soft s s' →
  (∀ q, q ≠ p → ext' q = ext q ∧ childexit <$> s'.(procs) !! q = childexit <$> s.(procs) !! q) →
  (∀ x x', s.(procs) !! p = Some x → s'.(procs) !! p = Some x' → zombie x = false → sem_good p (ph !! p) x'.(childexit) ∧
     units x'.(childexit) - ext' p = units x.(childexit) - ext p) →
  sems_ok ext' ph s'.
Proof.
  intros He Hs Hq Hpp. apply (sems_step ext ext' ph ph s s' p He Hs); [intros q Hne; by destruct (Hq q Hne)| |apply (e_phase _ _ _ He)].
  intros x x' Hx Hx' Hz. destruct (Hpp x x' Hx Hx' Hz) as [Hg Hu]. destruct (e_sem _ _ _ He p x Hx Hz) as [_ Hn]. split; [done|lia].
Qed.

Definition bump (p : Z) (d : Z) (ext : Z → Z) (q : Z) : Z := if decide (q = p) then ext q + d else ext q.
Lemma bump_eq p d ext : bump p d ext p = ext p + d.
Proof. unfold bump. by rewrite decide_True. Qed.
Lemma bump_ne p d ext q : q ≠ p → bump p d ext q = ext q.
Proof. intros. unfold bump. by rewrite decide_False. Qed.
Lemma sems_ext ext ext' ph s : (∀ p x, s.(procs) !! p = Some x → zombie x = false → ext p = ext' p) → sems_ok ext ph s → sems_ok ext' ph s.
Proof. intros He [Hs Hp Hsm]. split; [|done..]. intros p x Hx Hz. rewrite -(He p x Hx Hz). by apply Hs. Qed.

Lemma active_flags x : active x = true → unused x = false ∧ zombie x = false.
Proof. unfold active. destruct (unused x), (zombie x); done. Qed.

(** One child announced. *)
Lemma post_sems ext ph s p x : tree_ok s → sems_ok ext ph s → s.(procs) !! p = Some x → active x = true → ext p ≤ 2 ^ 29 →
  ∃ x', post_childexit p s = Ok (tt, put p x' s) ∧ core x' = core x ∧ sems_ok (bump p 1 ext) ph (put p x' s).
Proof.
  intros Ht He Hx Ha Hb. destruct (active_flags x Ha) as [Hu Hz]. destruct (e_sem _ _ _ He p x Hx Hz) as [Hg Hn].
  pose proof (zombies_small s p x Ht Hx). pose proof (e_small _ _ _ He).
  destruct (post_childexit_spec s p x _ Hx Hu Hg) as (x' & E & Hc & Hg' & Hn' & _); [case_decide; lia|].
  exists x'. split; [done|]. split; [done|]. apply (sems_soft ext _ ph s _ p He); [exact (soft_put s p x x' Hx Hc)| |].
  - intros q Hq. split; [by apply bump_ne|]. by rewrite proc_put_lookup decide_False.
  - intros y y' Hy. rewrite proc_put_lookup decide_True // bump_eq. intros [= <-] _. rewrite Hx in Hy. injection Hy as <-. split; [done|lia].
Qed.

(** All of them. *)
Lemma announce_sems r cs ext ph : ∀ s x, tree_ok s → sems_ok ext ph s → s.(procs) !! r = Some x → active x = true →
  (∀ c, c ∈ cs → is_Some (s.(procs) !! c)) → ext r + Z.of_nat (length cs) ≤ 2 ^ 29 →
  ∃ s', announce r cs s = Ok (tt, s') ∧ soft s s' ∧ (∀ q, q ≠ r → s'.(procs) !! q = s.(procs) !! q) ∧
    sems_ok (bump r (Z.of_nat (length (filter (λ c, zombie_at s c = true) cs))) ext) ph s'.
Proof.
  revert ext. induction cs as [|c cs IH]; intros ext s x Ht He Hx Ha Hin Hb.
  { exists s. split_and!; [done..|]. apply (sems_ext ext); [|done]. intros p y _ _. unfold bump. case_decide; cbn; lia. }
  destruct (Hin c ltac:(by left)) as [y Hy]. unfold announce. cbn [for_each length] in *. change (for_each cs _) with (announce r cs).
  assert (Ez : zombie_at s c = zombie y) by by unfold zombie_at; rewrite Hy.
  destruct (zombie y) eqn:Hz.
  - destruct (post_sems ext ph s r x Ht He Hx Ha) as (x' & E & Hc & He1); [lia|]. set (s1 := put r x' s) in *.
    assert (Hs1 : soft s s1) by by eapply soft_put.
    destruct (IH (bump r 1 ext) s1 x') as (s' & E' & Hs' & Hq & He'); [by eapply tree_soft|done|by rewrite proc_put_lookup decide_True|by rewrite (core_active _ _ Hc)| | |].
    + intros d Hd. destruct (Hin d ltac:(by right)) as [z Hz']. destruct (soft_forth _ _ _ _ Hs1 Hz') as (z' & Hz1 & _). by eexists.
    + rewrite bump_eq. lia.
    + exists s'. split; [|split; [by etrans|split]].
      * assert (E1 : (x ← get_proc c; if bool_decide (x.(state) = ZOMBIE) then post_childexit r else mret tt) s = Ok (tt, s1)).
        { rewrite (bind_Ok _ _ _ _ _ (proc_run s c y Hy)). unfold zombie in Hz. by rewrite Hz. }
        by rewrite (bind_Ok _ _ _ _ _ E1).
      * intros q Hne. rewrite Hq //. by rewrite proc_put_lookup decide_False.
      * rewrite filter_cons_True //. cbn [length]. eapply sems_ext; [|exact He'].
        assert (Hf : filter (λ c, zombie_at s1 c = true) cs = filter (λ c, zombie_at s c = true) cs).
        { apply list_filter_iff. intros d. by rewrite (zombie_at_soft s s1). }
        rewrite Hf. intros p z _ _. unfold bump. case_decide; lia.
  - destruct (IH ext s x Ht He Hx Ha) as (s' & E' & Hs' & Hq & He'); [intros; apply Hin; by right|lia|].
    exists s'. rewrite filter_cons_False; [|by rewrite Ez]. split_and!; try done.
    assert (E1 : (x ← get_proc c; if bool_decide (x.(state) = ZOMBIE) then post_childexit r else mret tt) s = Ok (tt, s)).
    { rewrite (bind_Ok _ _ _ _ _ (proc_run s c y Hy)). unfold zombie in Hz. by rewrite Hz. }
    by rewrite (bind_Ok _ _ _ _ _ E1).
Qed.

(** ** Handing the children over *)

Definition rotated (cs : list Z) : list Z := match cs with [] => [] | c :: cs' => cs' ++ [c] end.
Lemma rotated_perm cs : rotated cs ≡ₚ cs.
Proof. destruct cs as [|c cs]; [done|]. cbn. by rewrite Permutation_app_comm. Qed.

(** What [hand_over] does to each process. *)
Definition handed (this r : Z) (cs : list Z) (q : Z) (x : proc) : proc :=
  let x := if decide (q ∈ cs) then with_parent r x else x in
  if decide (q = this) then with_children [] x
  else if decide (q = r) then with_children (x.(children) ++ rotated cs) x else x.

Lemma adopt_run r cs : ∀ s, NoDup cs → ∃ s', for_each cs (λ c, upd_proc c (with_parent r)) s = Ok (tt, s') ∧
  s'.(containers) = s.(containers) ∧ s'.(global_pids) = s.(global_pids) ∧
  ∀ q, s'.(procs) !! q = (λ x, if decide (q ∈ cs) then with_parent r x else x) <$> s.(procs) !! q.
Proof.
  induction cs as [|c cs IH]; intros s Hnd.
  { exists s. split_and!; [done..|]. intros q. by destruct (s.(procs) !! q). }
  apply NoDup_cons in Hnd as [Hc Hnd]. set (s1 := set_procs (alter (with_parent r) c s.(procs)) s).
  destruct (IH s1 Hnd) as (s' & E & Hcn & Hg & Hq). exists s'. split_and!; [|done..|].
  - cbn [for_each]. by rewrite (bind_Ok _ _ s tt s1).
  - intros q. rewrite Hq. cbn. destruct (decide (q = c)) as [->|Hne].
    + rewrite lookup_alter_eq. destruct (s.(procs) !! c); [|done]. cbn. rewrite decide_False // decide_True //. by left.
    + rewrite lookup_alter_ne //. destruct (s.(procs) !! q); [|done]. cbn. f_equal.
      destruct (decide (q ∈ cs)); [rewrite decide_True //; by right|rewrite decide_False //]. by intros [?|?]%elem_of_cons.
Qed.

Lemma hand_over_run s this x r : s.(procs) !! this = Some x → NoDup x.(children) → this ≠ r →
  ∃ s', hand_over this r x.(children) s = Ok (tt, s') ∧ s'.(containers) = s.(containers) ∧ s'.(global_pids) = s.(global_pids) ∧
    ∀ q, s'.(procs) !! q = handed this r x.(children) q <$> s.(procs) !! q.
Proof.
  intros Hx Hnd Hne. destruct x.(children) as [|c cs] eqn:Ecs.
  - exists s. split_and!; [done..|]. intros q. destruct (s.(procs) !! q) as [y|] eqn:Hy; [|done]. cbn. f_equal. unfold handed. cbv zeta.
    cbn [decide]. destruct (decide (q = this)) as [->|].
    + rewrite Hx in Hy. injection Hy as <-. destruct x. cbn in *. by subst.
    + destruct (decide (q = r)); [|done]. destruct y. cbn. by rewrite app_nil_r.
  - destruct (adopt_run r (c :: cs) s Hnd) as (s1 & E & Hc & Hg & Hq). cbn [hand_over].
    eexists. split; [rewrite (bind_Ok _ _ _ _ _ E); by rewrite (bind_Ok _ _ s1 tt (set_procs (alter (with_children []) this s1.(procs)) s1))|].
    split; [done|]. split; [done|]. intros q. cbn [set_procs procs]. unfold handed. cbv zeta. cbn [rotated].
    destruct (decide (q = r)) as [->|Hqr].
    + rewrite lookup_alter_eq lookup_alter_ne // Hq. destruct (s.(procs) !! r) as [y|]; [|done]. cbn.
      by rewrite (decide_False (P := r = this)) // ?(decide_True (P := r = r)).
    + rewrite lookup_alter_ne //. destruct (decide (q = this)) as [->|Hqt].
      * rewrite lookup_alter_eq Hq. by destruct (s.(procs) !! this).
      * by rewrite lookup_alter_ne.
Qed.

Section handing.
Context (s s' : system) (this r : Z) (x : proc).
Hypothesis Ht : tree_ok s.
Hypothesis Hx : s.(procs) !! this = Some x.
Hypothesis Hactive : active x = true.
Hypothesis Hhome : ∃ cn, s.(containers) !! x.(container_of_proc) = Some cn ∧ cn.(rootproc) = Some r.
Hypothesis Hne : this ≠ r.
Hypothesis Hc : s'.(containers) = s.(containers).
Hypothesis Hg : s'.(global_pids) = s.(global_pids).
Hypothesis Hq : ∀ q, s'.(procs) !! q = handed this r x.(children) q <$> s.(procs) !! q.

Lemma handed_same q y : (handed this r x.(children) q y).(idle) = y.(idle) ∧ (handed this r x.(children) q y).(pid) = y.(pid) ∧
  (handed this r x.(children) q y).(localpid) = y.(localpid) ∧ (handed this r x.(children) q y).(container_of_proc) = y.(container_of_proc) ∧
  (handed this r x.(children) q y).(state) = y.(state) ∧ (handed this r x.(children) q y).(childexit) = y.(childexit) ∧
  (handed this r x.(children) q y).(parent) = if decide (q ∈ x.(children)) then Some r else y.(parent).
Proof. unfold handed. cbv zeta. by repeat case_decide. Qed.

Lemma handed_back q y' : s'.(procs) !! q = Some y' → ∃ y, s.(procs) !! q = Some y ∧ y' = handed this r x.(children) q y.
Proof. rewrite Hq. intros (y & -> & Hy)%fmap_Some_1. by exists y. Qed.
Lemma handed_forth q y : s.(procs) !! q = Some y → s'.(procs) !! q = Some (handed this r x.(children) q y).
Proof. rewrite Hq. by intros ->. Qed.
Lemma handed_active q y : active (handed this r x.(children) q y) = active y.
Proof. unfold active, unused, zombie. by destruct (handed_same q y) as (_ & _ & _ & _ & -> & _). Qed.

(** Neither this process nor the one that takes over is among the children. *)
Lemma handed_apart : this ∉ x.(children) ∧ r ∉ x.(children) ∧ r ≠ this ∧ (∃ y, s.(procs) !! r = Some y ∧ active y = true).
Proof.
  destruct Hhome as (cn & Hcn & Hr). destruct (t_rank _ Ht) as (rank & H1 & H2). destruct (t_kids _ Ht this x Hx) as [_ Hin].
  assert (Hlt : ∀ c, c ∈ x.(children) → (rank this < rank c)%nat) by (intros c (Hcr & y & Hy & Hp)%Hin; by apply (H1 c y)).
  specialize (H2 this x cn r Hx Hcn Hr). split; [intros Hi%Hlt; lia|]. split; [intros Hi%Hlt; lia|]. split; [done|].
  destruct (t_home _ Ht this x Hx) as (cn' & r' & y & Hcn' & Hr' & Hy & Hor). rewrite Hcn in Hcn'. injection Hcn' as <-.
  rewrite Hr in Hr'. injection Hr' as <-. exists y. split; [done|]. by destruct Hor.
Qed.

Lemma handed_children q y : s.(procs) !! q = Some y → (handed this r x.(children) q y).(children) =
  if decide (q = this) then [] else if decide (q = r) then y.(children) ++ rotated x.(children) else y.(children).
Proof. intros _. unfold handed. cbv zeta. by repeat case_decide. Qed.

Lemma handed_kids q y' : s'.(procs) !! q = Some y' → NoDup y'.(children) ∧
  ∀ c, c ∈ y'.(children) ↔ c ≠ root_proc ∧ ∃ z, s'.(procs) !! c = Some z ∧ z.(parent) = Some q.
Proof.
  intros (y & Hy & ->)%handed_back. destruct handed_apart as (_ & _ & Hrt & _). destruct (t_kids _ Ht q y Hy) as [Hnd Hin].
  destruct (t_kids _ Ht this x Hx) as [Hndx Hinx].
  assert (Hpar : ∀ c, (∃ z, s'.(procs) !! c = Some z ∧ z.(parent) = Some q) ↔
    (c ∈ x.(children) ∧ q = r) ∨ (c ∉ x.(children) ∧ ∃ z, s.(procs) !! c = Some z ∧ z.(parent) = Some q)).
  { intros c. split.
    - intros (z' & (z & Hz & ->)%handed_back & Hp). destruct (handed_same c z) as (_ & _ & _ & _ & _ & _ & E). rewrite E in Hp.
      case_decide; [left|right]; [by simplify_eq|by eauto].
    - intros [[Hin' ->]|(Hnin & z & Hz & Hp)].
      + destruct (Hinx c) as [Hf _]. destruct (Hf Hin') as (_ & z & Hz & _). eexists. split; [by apply handed_forth|].
        destruct (handed_same c z) as (_ & _ & _ & _ & _ & _ & ->). by rewrite decide_True.
      + eexists. split; [by apply handed_forth|]. destruct (handed_same c z) as (_ & _ & _ & _ & _ & _ & ->). by rewrite decide_False. }
  assert (Hdisj : ∀ c, c ∈ y.(children) → q ≠ this → c ∉ x.(children)).
  { intros c Hc1 Hqt Hc2. apply Hin in Hc1 as (_ & z & Hz & Hp). apply Hinx in Hc2 as (_ & z' & Hz' & Hp'). congruence. }
  rewrite (handed_children q y Hy). destruct (decide (q = this)) as [->|Hqt]; [|destruct (decide (q = r)) as [->|Hqr]].
  - split; [constructor|]. intros c. rewrite Hpar. split; [by intros ?%not_elem_of_nil|]. intros (Hcr & [[_ ?]|[Hn Hz]]); [done|].
    exfalso. apply Hn, Hinx. by split.
  - split.
    + apply NoDup_app. split; [done|]. split; [|by rewrite rotated_perm]. intros c Hc1. rewrite rotated_perm. by apply Hdisj.
    + intros c. rewrite elem_of_app rotated_perm Hpar Hin. destruct (decide (c ∈ x.(children))) as [Hi|Hi]; [|naive_solver].
      split; [|by auto]. intros _. split; [by apply Hinx|by left].
  - split; [done|]. intros c. rewrite Hpar. split.
    + intros Hcy. pose proof (Hdisj c Hcy Hqt). apply Hin in Hcy as [? ?]. split; [done|]. by right.
    + intros (Hcr & [[_ ?]|[_ Hz]]); [done|]. apply Hin. by split.
Qed.

Lemma handed_select f : (∀ y z, y.(pid) = z.(pid) → y.(localpid) = z.(localpid) → y.(container_of_proc) = z.(container_of_proc) →
  y.(state) = z.(state) → f y = f z) → select f s'.(procs) = select f s.(procs).
Proof.
  intros Hf. apply select_ext. intros q. rewrite Hq. destruct (s.(procs) !! q) as [y|]; [|done]. cbn. f_equal.
  destruct (handed_same q y) as (_ & ? & ? & ? & ? & _). by apply Hf.
Qed.

Lemma handed_tree : tree_ok s'.
Proof.
  pose proof handed_apart as (_ & _ & _ & (yr & Hyr & Har)). destruct Hhome as (cn & Hcn & Hr). split.
  - intros q y' (y & Hy & ->)%handed_back. destruct (handed_same q y) as (-> & _). by apply (t_idle _ Ht q).
  - apply handed_kids.
  - intros q y' p (y & Hy & ->)%handed_back. destruct (handed_same q y) as (_ & _ & _ & _ & _ & _ & ->). case_decide; intros Hp.
    + injection Hp as <-. eexists. split; [by apply handed_forth|]. by rewrite handed_active.
    + destruct (t_parent _ Ht q y p Hy Hp) as (z & Hz & Ha). eexists. split; [by apply handed_forth|]. by rewrite handed_active.
  - intros q y' (y & Hy & ->)%handed_back. unfold unused. destruct (handed_same q y) as (_ & _ & _ & _ & -> & _ & ->). case_decide; [done|].
    by apply (t_started _ Ht q).
  - destruct (t_root _ Ht) as (y & Hy & Hp). eexists. split; [by apply handed_forth|].
    destruct (handed_same root_proc y) as (_ & _ & _ & _ & _ & _ & ->). case_decide as Hin; [|done]. by apply (t_kids _ Ht this x Hx) in Hin as [? _].
  - intros q y' (y & Hy & ->)%handed_back. destruct (t_home _ Ht q y Hy) as (cn' & r' & z & Hcn' & Hr' & Hz & Hor).
    destruct (handed_same q y) as (_ & _ & _ & -> & _). exists cn', r'. eexists. rewrite Hc. split_and!; [done..|by apply handed_forth|]. by rewrite handed_active.
  - intros g cn'. rewrite Hc. intros Hcn'. destruct (t_first _ Ht g cn' Hcn') as (r' & z & Hr' & Hz & Hzo & Hzc). exists r', (handed this r x.(children) r' z).
    destruct (handed_same r' z) as (_ & _ & _ & E1 & E2 & _). unfold zombie. rewrite E1 E2. by split_and!; [|apply handed_forth|..].
  - rewrite Hc. apply (t_top _ Ht).
  - destruct (t_rank _ Ht) as (rank & H1 & H2). exists rank. split.
    + intros q y' p (y & Hy & ->)%handed_back. destruct (handed_same q y) as (_ & _ & _ & _ & _ & _ & ->). case_decide as Hin; intros Hp Hqr; [|by apply (H1 q y)].
      injection Hp as <-. apply (t_kids _ Ht this x Hx) in Hin as (_ & z & Hz & Hzp). rewrite Hy in Hz. injection Hz as <-.
      specialize (H1 q y this Hy Hzp Hqr). specialize (H2 this x cn r Hx Hcn Hr). lia.
    + intros q y' cn' r' (y & Hy & ->)%handed_back. destruct (handed_same q y) as (_ & _ & _ & -> & _). rewrite Hc. by apply H2.
  - rewrite Hg handed_select; [apply (t_pids _ Ht)|]. intros y z E1 _ _ E. unfold live_pid, zombie. by rewrite E E1.
  - intros g cn'. rewrite Hc. intros Hcn'. rewrite handed_select; [by apply (t_lpids _ Ht)|]. intros y z _ E2 E3 E. unfold local_pid, unused. by rewrite E E2 E3.
Qed.

Lemma handed_zombie q : zombie_at s' q = zombie_at s q.
Proof.
  unfold zombie_at. rewrite Hq. destruct (s.(procs) !! q) as [y|]; [|done]. cbn. unfold zombie. by destruct (handed_same q y) as (_ & _ & _ & _ & -> & _).
Qed.

(** The zombies among the children change hands. *)
Lemma handed_sems ext ph : sems_ok ext ph s → sems_ok (bump this (zombies s x) (bump r (- zombies s x) ext)) ph s'.
Proof.
  intros [He Hp Hsm]. destruct handed_apart as (_ & _ & Hrt & _). split.
  - intros q y' Hy' Hz. destruct (handed_back q y' Hy') as (y & Hy & ->). unfold zombie in Hz.
    destruct (handed_same q y) as (_ & _ & _ & _ & Est & Ece & _). rewrite Est in Hz. rewrite Ece. destruct (He q y Hy Hz) as [Hgd Hu]. split; [done|]. rewrite Hu.
    assert (Hzs : zombies s' (handed this r x.(children) q y) = if decide (q = this) then 0 else if decide (q = r) then zombies s y + zombies s x else zombies s y).
    { unfold zombies. rewrite (handed_children q y Hy) (filter_ext_in _ (λ c, zombie_at s c = true)); [|intros c _; by rewrite handed_zombie].
      destruct (decide (q = this)); [done|]. destruct (decide (q = r)); [|done]. rewrite filter_app length_app rotated_perm. lia. }
    rewrite Hzs. destruct (decide (q = this)) as [->|Hqt].
    + rewrite bump_eq bump_ne; [|congruence]. rewrite Hx in Hy. injection Hy as <-. lia.
    + rewrite bump_ne //. destruct (decide (q = r)) as [->|]; [rewrite bump_eq; lia|by rewrite bump_ne].
  - intros q Hph. destruct (Hp q Hph) as (y & Hy & Ha). eexists. split; [by apply handed_forth|]. by rewrite handed_active.
  - assert (E : size s'.(procs) = size s.(procs)); [|by rewrite E]. apply (size_same (λ _, tt)). intros q. rewrite Hq. by destruct (s.(procs) !! q).
Qed.
End handing.

(** ** [exit] *)

Lemma count_add (P Q : Z → Prop) `{!∀ c, Decision (P c), !∀ c, Decision (Q c)} (l : list Z) c :
  NoDup l → c ∈ l → ¬ P c → Q c → (∀ d, d ≠ c → P d ↔ Q d) → length (filter Q l) = S (length (filter P l)).
Proof.
  intros Hnd Hc HP HQ Hd. induction Hnd as [|d l Hdl Hnd IH]; [by apply not_elem_of_nil in Hc|]. rewrite !filter_cons.
  apply elem_of_cons in Hc as [<-|Hc].
  - destruct (decide (Q c)), (decide (P c)); try done. cbn. do 2 f_equal. symmetry. apply filter_ext_in. intros e He. apply Hd. by intros ->.
  - specialize (IH Hc). assert (d ≠ c) by (intros ->; done). destruct (Hd d) as [Hf Hb]; [done|].
    destruct (decide (Q d)), (decide (P d)); cbn; try tauto; lia.
Qed.

Section dying.
Context (s : system) (this p r : Z) (x : proc) (g' : pid_pool).
Hypothesis Ht : tree_ok s.
Hypothesis Hx : s.(procs) !! this = Some x.
Hypothesis Hactive : active x = true.
Hypothesis Hpar : x.(parent) = Some p.
Hypothesis Hnone : x.(children) = [].
Hypothesis Hhome : ∃ cn, s.(containers) !! x.(container_of_proc) = Some cn ∧ cn.(rootproc) = Some r.
Hypothesis Hne : this ≠ r.

Definition died : system := put this (with_state ZOMBIE x) (set_global g' s).

Lemma dying_not_root : this ≠ root_proc.
Proof.
  intros Heq. destruct (t_top _ Ht) as (cn & Hcn & Hr). destruct (t_first _ Ht _ cn Hcn) as (r' & y & Hr' & Hy & _ & Hyc).
  rewrite Hr in Hr'. injection Hr' as <-. rewrite -Heq Hx in Hy. injection Hy as <-. destruct Hhome as (cn' & Hcn' & Hr').
  rewrite Hyc Hcn in Hcn'. injection Hcn' as <-. congruence.
Qed.
Lemma dying_parent : p ≠ this ∧ ∃ y, s.(procs) !! p = Some y ∧ active y = true ∧ this ∈ y.(children).
Proof.
  pose proof dying_not_root as Hnr. destruct (t_rank _ Ht) as (rank & H1 & _). specialize (H1 this x p Hx Hpar Hnr).
  split; [intros ->; lia|]. destruct (t_parent _ Ht this x p Hx Hpar) as (y & Hy & Ha). exists y. split_and!; [done..|].
  apply (t_kids _ Ht p y Hy). split; [done|]. by exists x.
Qed.
Lemma died_lookup q : died.(procs) !! q = if decide (q = this) then Some (with_state ZOMBIE x) else s.(procs) !! q.
Proof. exact (proc_put_lookup this _ (set_global g' s) q). Qed.
Lemma died_cases q y' : died.(procs) !! q = Some y' → (q = this ∧ y' = with_state ZOMBIE x) ∨ (q ≠ this ∧ s.(procs) !! q = Some y').
Proof. rewrite died_lookup. case_decide; [intros [= <-]; by left|by right]. Qed.
Lemma died_old q y' : died.(procs) !! q = Some y' → ∃ y, s.(procs) !! q = Some y ∧ y'.(idle) = y.(idle) ∧ y'.(children) = y.(children) ∧
  y'.(parent) = y.(parent) ∧ y'.(container_of_proc) = y.(container_of_proc) ∧ unused y' = unused y ∧ y'.(localpid) = y.(localpid).
Proof.
  intros [[-> ->]|[Hqt Hy]]%died_cases; [exists x|by exists y']. split_and!; try done. destruct (active_flags x Hactive) as [-> _]. done.
Qed.
Lemma died_forth q y : s.(procs) !! q = Some y → ∃ y', died.(procs) !! q = Some y' ∧ y'.(parent) = y.(parent) ∧
  y'.(container_of_proc) = y.(container_of_proc) ∧ (q ≠ this → y' = y).
Proof. intros Hy. rewrite died_lookup. case_decide as Hq; [subst; rewrite Hx in Hy; injection Hy as <-|]; by eexists. Qed.

Lemma died_tree : pool_ok 1 g' (select live_pid (delete this s.(procs))) → tree_ok died.
Proof.
  intros Hpool. pose proof dying_not_root as Hnr. split.
  - intros q y' (y & Hy & -> & _)%died_old. by apply (t_idle _ Ht q).
  - intros q y' (y & Hy & _ & -> & _)%died_old. destruct (t_kids _ Ht q y Hy) as [Hnd Hin]. split; [done|]. intros c. rewrite Hin. f_equiv. split.
    + intros (z & Hz & Hzp). destruct (died_forth c z Hz) as (z' & Hz' & E & _). exists z'. by rewrite E.
    + intros (z' & (z & Hz & _ & _ & E & _)%died_old & Hzp). exists z. by rewrite -E.
  - intros q y' q0 (y & Hy & _ & _ & -> & _)%died_old Hp. destruct (t_parent _ Ht q y q0 Hy Hp) as (z & Hz & Ha).
    destruct (died_forth q0 z Hz) as (z' & Hz' & _ & _ & E). exists z'. split; [done|]. rewrite E //. intros ->.
    rewrite Hx in Hz. injection Hz as <-. destruct (decide (q = root_proc)) as [->|Hqr].
    + destruct (t_root _ Ht) as (w & Hw & Hwp). congruence.
    + assert (q ∈ x.(children)) as Hin by (apply (t_kids _ Ht this x Hx); split; [done|by exists y]). rewrite Hnone in Hin. by apply not_elem_of_nil in Hin.
  - intros q y' (y & Hy & _ & _ & E & _ & E2 & _)%died_old. rewrite E E2. by apply (t_started _ Ht q).
  - destruct (t_root _ Ht) as (w & Hw & Hwp). destruct (died_forth _ w Hw) as (w' & Hw' & E & _). exists w'. by rewrite E.
  - intros q y' (y & Hy & _ & _ & _ & E & _)%died_old. destruct (t_home _ Ht q y Hy) as (cn & r' & z & Hcn & Hr' & Hz & Hor).
    destruct (died_forth r' z Hz) as (z' & Hz' & _ & _ & Ez). exists cn, r', z'. rewrite E. split_and!; [done..|].
    destruct Hor as [?|Ha]; [by left|right]. rewrite Ez //. intros ->. destruct (t_first _ Ht _ cn Hcn) as (r1 & w & Hr1 & Hw & _ & Hwc).
    destruct Hhome as (cn' & Hcn' & Hr''). assert (r1 = this) as -> by congruence. rewrite Hx in Hw. injection Hw as <-. congruence.
  - intros g cn Hcn. change (s.(containers) !! g = Some cn) in Hcn. destruct (t_first _ Ht g cn Hcn) as (r' & z & Hr' & Hz & Hzo & Hzc). destruct (died_forth r' z Hz) as (z' & Hz' & _ & _ & Ez).
    assert (z' = z) as -> by (apply Ez; intros ->; rewrite Hx in Hz; injection Hz as <-; destruct Hhome as (cn' & Hcn' & Hr''); congruence).
    by exists r', z.
  - apply (t_top _ Ht).
  - destruct (t_rank _ Ht) as (rank & H1 & H2). exists rank. split.
    + intros q y' q0 (y & Hy & _ & _ & -> & _)%died_old. by apply H1.
    + intros q y' cn r' (y & Hy & _ & _ & _ & -> & _)%died_old. by apply H2.
  - change (global_pids died) with g'. eapply pool_perm; [|exact Hpool]. symmetry. apply (select_update live_pid s.(procs) this x). done.
  - intros g cn Hcn. eapply pool_perm; [|by apply (t_lpids _ Ht g)]. rewrite (select_delete _ _ this x Hx). symmetry.
    change (procs died) with (<[this := with_state ZOMBIE x]> s.(procs)). rewrite (select_update _ _ this x) //.
    unfold local_pid. destruct (active_flags x Hactive) as [-> _]. done.
Qed.

Lemma died_sems ext ph : sems_ok ext ph s → ph !! this = None → sems_ok (bump p (-1) ext) ph died.
Proof.
  intros [He Hp Hsm] Hph. destruct dying_parent as (Hpt & yp & Hyp & _ & Hin). destruct (active_flags x Hactive) as [Hu Hz].
  assert (Hzat : ∀ c, c ≠ this → zombie_at died c = zombie_at s c) by (intros c Hct; unfold zombie_at; by rewrite died_lookup decide_False).
  split.
  - intros q y Hy Hzy. destruct (died_cases q y Hy) as [[-> ->]|[Hqt Hys]]; [done|]. destruct (He q y Hys Hzy) as [Hg Hn]. split; [done|]. rewrite Hn.
    destruct (t_kids _ Ht q y Hys) as [Hnd Hk]. destruct (decide (q = p)) as [->|Hqp].
    + rewrite bump_eq. rewrite Hyp in Hys. injection Hys as <-. unfold zombies.
      rewrite (count_add (λ c, zombie_at s c = true) (λ c, zombie_at died c = true) _ this Hnd Hin); [lia| | |].
      * unfold zombie_at. rewrite Hx Hz. done.
      * unfold zombie_at. by rewrite died_lookup decide_True.
      * intros d Hd. by rewrite Hzat.
    + rewrite bump_ne // (zombies_ext s died y y) //. intros c Hc. apply Hzat. intros ->. apply Hk in Hc as (_ & z & Hz' & Hzp). congruence.
  - intros q Hq. destruct (Hp q Hq) as (y & Hy & Ha). exists y. rewrite died_lookup decide_False //. intros ->. rewrite Hph in Hq. by destruct Hq.
  - cbn. rewrite (map_size_insert_Some (M := gmap Z)) //; by rewrite Hx.
Qed.
End dying.

(** A process that exits: what becomes of it, and of the invariants. *)
Definition first_process s (x : proc) (r : Z) : Prop := ∃ cn, s.(containers) !! x.(container_of_proc) = Some cn ∧ cn.(rootproc) = Some r.

Lemma running_active x : x.(state) = RUNNING → active x = true.
Proof. intros E. unfold active, unused, zombie. by rewrite E. Qed.

Lemma put_get s p x : (put p x s).(procs) !! p = Some x.
Proof. by rewrite proc_put_lookup decide_True. Qed.
Lemma put_id s p x : s.(procs) !! p = Some x → put p x s = s.
Proof. intros Hx. unfold put. destruct s as [ps cs g]. cbn in *. by rewrite insert_id. Qed.

Lemma bump_0 p ext : ∀ q, bump p 0 ext q = ext q.
Proof. intros q. unfold bump. case_decide; lia. Qed.

(** The children announced and handed over. *)
Lemma adopt_spec s ph this x r : tree_ok s → sems_ok (λ _, 0) ph s → s.(procs) !! this = Some x → active x = true →
  first_process s x r → this ≠ r →
  ∃ s2 s3 k, announce r x.(children) s = Ok (tt, s2) ∧ hand_over this r x.(children) s2 = Ok (tt, s3) ∧ tree_ok s3 ∧
    sems_ok (bump this k (λ _, 0)) ph s3 ∧ s3.(procs) !! this = Some (with_children [] x) ∧ s3.(containers) = s.(containers) ∧
    s3.(global_pids) = s.(global_pids).
Proof.
  intros Ht He Hx Ha Hr Hne. destruct (t_kids _ Ht this x Hx) as [Hnd Hin]. pose proof (e_small _ _ _ He) as Hsm.
  assert (Hapart : this ∉ x.(children) ∧ r ∉ x.(children) ∧ r ≠ this ∧ ∃ y, s.(procs) !! r = Some y ∧ active y = true).
  { destruct Hr as (cn & Hcn & Hrp). exact (handed_apart s this r x Ht Hx (ex_intro _ cn (conj Hcn Hrp)) Hne). }
  destruct Hapart as (Hnt & _ & _ & (yr & Hyr & Har)).
  assert (Hlen : (length x.(children) ≤ size s.(procs))%nat).
  { rewrite -size_dom -(size_list_to_set (C := gset Z)) //. apply subseteq_size. intros c. rewrite elem_of_list_to_set elem_of_dom.
    intros (_ & y & -> & _)%Hin. by eexists. }
  destruct (announce_sems r x.(children) (λ _, 0) ph s yr Ht He Hyr Har) as (s2 & E2 & Hs2 & Hq2 & He2); [intros c (_ & y & Hy & _)%Hin; by eexists|lia|].
  assert (Ht2 : tree_ok s2) by by eapply tree_soft.
  assert (Hx2 : s2.(procs) !! this = Some x) by by rewrite Hq2.
  destruct (hand_over_run s2 this x r Hx2 Hnd Hne) as (s3 & E3 & Hc3 & Hg3 & Hq3).
  assert (Hr2 : ∃ cn, s2.(containers) !! x.(container_of_proc) = Some cn ∧ cn.(rootproc) = Some r) by (rewrite (so_containers _ _ Hs2); exact Hr).
  exists s2, s3, (zombies s2 x). split; [done|]. split; [done|].
  split; [exact (handed_tree s2 s3 this r x Ht2 Hx2 Hr2 Hne Hc3 Hg3 Hq3)|]. split.
  - eapply sems_ext; [|exact (handed_sems s2 s3 this r x Ht2 Hx2 Hr2 Hne Hq3 _ ph He2)]. intros q y _ _. unfold bump.
    rewrite -(filter_ext_in (λ c, zombie_at s2 c = true) (λ c, zombie_at s c = true)); [|intros c _; by rewrite (zombie_at_soft s s2)].
    fold (zombies s2 x). destruct (decide (q = this)), (decide (q = r)); unfold zombies; lia.
  - split; [|split; [by rewrite Hc3 (so_containers _ _ Hs2)|by rewrite Hg3 (so_global _ _ Hs2)]].
    rewrite Hq3 Hx2. cbn. unfold handed. cbv zeta. rewrite (decide_False (P := this ∈ x.(children))) //. by rewrite decide_True.
Qed.

(** From the semaphore of the parent on. *)
Lemma depart_spec s ph this p r x k : tree_ok s → sems_ok (bump this k (λ _, 0)) ph s → s.(procs) !! this = Some x → x.(state) = RUNNING →
  x.(parent) = Some p → x.(children) = [] → first_process s x r → this ≠ r → ph !! this = None →
  ∃ s', (post_childexit p ;; g ← gets global_pids; g' ← give_id x.(pid) g; modify (set_global g') ;; sched this ZOMBIE) s = Ok (tt, s') ∧
    tree_ok s' ∧ sems_ok (λ _, 0) ph s' ∧ s'.(procs) !! this = Some (with_state ZOMBIE x).
Proof.
  intros Ht He Hx Hrun Hpar Hnone Hr Hne Hph. pose proof (running_active x Hrun) as Ha.
  destruct (dying_parent s this p r x Ht Hx Hpar Hr Hne) as (Hpt & y & Hy & Hya & _).
  destruct (post_sems _ ph s p y Ht He Hy Hya) as (y' & E1 & Hc1 & He1); [rewrite bump_ne //; lia|]. set (s1 := put p y' s) in *.
  assert (Hs1 : soft s s1) by by eapply soft_put. assert (Ht1 : tree_ok s1) by by eapply tree_soft.
  assert (Hx1 : s1.(procs) !! this = Some x) by (unfold s1; rewrite proc_put_lookup decide_False //; by intros ->).
  assert (Hz : live_pid x = Some x.(pid)) by (unfold live_pid, zombie; by rewrite Hrun).
  destruct (give_spec 1 s1.(global_pids) x.(pid) (select live_pid (delete this s1.(procs))) s1) as (g' & E2 & Hg'); [lia| |].
  { eapply pool_perm; [|apply (t_pids _ Ht1)]. rewrite (select_delete _ _ this x Hx1) Hz. done. }
  exists (died s1 this x g'). split; [|split; [|split]].
  - rewrite (bind_Ok _ _ _ _ _ E1) (bind_Ok _ _ s1 s1.(global_pids) s1) // (bind_Ok _ _ _ _ _ E2) (bind_Ok _ _ s1 tt (set_global g' s1)) //.
    unfold sched. rewrite (bind_Ok _ _ _ _ _ (proc_run (set_global g' s1) this x Hx1)) Hrun (bool_decide_eq_true_2 (RUNNING = RUNNING)) //.
    rewrite (bind_Ok _ _ (set_global g' s1) tt (set_global g' s1)) // (bool_decide_eq_true_2 (ZOMBIE = ZOMBIE)) // andb_false_r. by apply upd_run.
  - exact (died_tree s1 this r x g' Ht1 Hx1 Ha Hnone Hr Hne Hg').
  - eapply sems_ext; [|exact (died_sems s1 this p r x g' Ht1 Hx1 Ha Hpar Hr Hne _ ph He1 Hph)]. intros q z Hz' Hzz. unfold bump.
    destruct (decide (q = this)) as [->|]; [|destruct (decide (q = p)); lia].
    rewrite died_lookup decide_True // in Hz'. injection Hz' as <-. done.
  - by rewrite died_lookup decide_True.
Qed.

Lemma exit_spec s ph this p x r code : tree_ok s → sems_ok (λ _, 0) ph s → s.(procs) !! this = Some x → x.(state) = RUNNING →
  x.(parent) = Some p → first_process s x r → this ≠ r → ph !! this = None →
  ∃ s', exit this code s = Ok (tt, s') ∧ tree_ok s' ∧ sems_ok (λ _, 0) ph s' ∧
    s'.(procs) !! this = Some (with_state ZOMBIE (with_children [] (with_exitcode code x))).
Proof.
  intros Ht He Hx Hrun Hpar Hr Hne Hph. set (x1 := with_exitcode code x). set (s1 := put this x1 s).
  assert (Hs1 : soft s s1) by (eapply soft_put; [done|]; unfold core, unused, zombie; done).
  assert (He1 : sems_ok (λ _, 0) ph s1).
  { apply (sems_soft (λ _, 0) _ ph s _ this He Hs1).
    - intros q Hq. split; [done|]. unfold s1. by rewrite proc_put_lookup decide_False.
    - intros y y' Hy Hy' Hz. unfold s1 in Hy'. rewrite put_get in Hy'. injection Hy' as <-. rewrite Hx in Hy. injection Hy as <-.
      split; [exact (proj1 (e_sem _ _ _ He this x Hx Hz))|done]. }
  destruct (adopt_spec s1 ph this x1 r) as (s2 & s3 & k & E2 & E3 & Ht3 & He3 & Hx3 & Hc3 & Hg3); [by eapply tree_soft|done|apply put_get|by apply running_active|exact Hr|done|].
  destruct (depart_spec s3 ph this p r (with_children [] x1) k) as (s' & E4 & Ht' & He' & Hx'); try done.
  { unfold first_process. by rewrite Hc3. }
  exists s'. split; [|done]. destruct Hr as (cn & Hcn & Hr). unfold exit.
  rewrite (bind_Ok _ _ _ _ _ (proc_run s this x Hx)) (bind_Ok _ _ _ _ _ (proc_container_run s _ cn Hcn)) Hr.
  rewrite (bind_Ok _ _ s r s) //. destruct (Z.eqb_spec this r); [done|]. rewrite (t_idle _ Ht this x Hx) (bind_Ok _ _ s tt s) //.
  rewrite (bind_Ok _ _ _ _ _ (upd_run s this x _ Hx)) (bind_Ok _ _ _ _ _ E2) (bind_Ok _ _ _ _ _ E3) Hpar. rewrite (bind_Ok _ _ s3 p s3) //.
Qed.

(** ** [wait] *)

(** [this] moves to another place in [wait], its semaphore and its scheduling state having changed. *)
Lemma move_sems ph ph' s this x x' : sems_ok (λ _, 0) ph s → s.(procs) !! this = Some x → core x' = core x → active x = true →
  (∀ q, q ≠ this → ph' !! q = ph !! q) → sem_good this (ph' !! this) x'.(childexit) →
  units x'.(childexit) - units x.(childexit) =
    (if decide (ph !! this = Some Reaping) then 1 else 0) - (if decide (ph' !! this = Some Reaping) then 1 else 0) →
  sems_ok (λ _, 0) ph' (put this x' s).
Proof.
  intros He Hx Hc Ha Hph Hg Hu. apply (sems_step (λ _, 0) _ ph ph' s _ this He); [by eapply soft_put| | |].
  - intros q Hq. split; [done|]. split; [by apply Hph|]. by rewrite proc_put_lookup decide_False.
  - intros y y' Hy Hy' Hz. rewrite put_get in Hy'. injection Hy' as <-. rewrite Hx in Hy. injection Hy as <-. split; [done|].
    destruct (e_sem _ _ _ He this x Hx Hz) as [_ Hn]. lia.
  - intros _. by exists x.
Qed.

Lemma on_childexit_run {A} s p x (m : Prelude.M Semaphore A) a sem : s.(procs) !! p = Some x → m x.(childexit) = Ok (a, sem) →
  sem.(activated) = [] → on_childexit p m s = Ok (a, put p (with_childexit sem x) s).
Proof.
  intros Hx E Hact. unfold on_childexit. rewrite (bind_Ok _ _ _ _ _ (proc_run s p x Hx)) E (bind_Ok _ _ _ _ _ (upd_run s p x _ Hx)) Hact.
  assert (Es : mkSem sem.(val) sem.(sleeplist) sem.(waits) [] = sem) by (destruct sem; cbn in *; by subst).
  rewrite Es. by rewrite (bind_Ok _ _ (put p (with_childexit sem x) s) tt (put p (with_childexit sem x) s)).
Qed.

(** [wait_sem] up to its call of [sched]: a unit, or sleep. *)
Lemma _wait_good p x : sem_good p (Some Asking) x → units x < 2 ^ 31 →
  ∃ r x', _wait_sem p true x = Ok (r, x') ∧ sem_good p (Some (if r : bool then Reaping else Sleeping)) x' ∧
    units x' = units x - (if r then 1 else 0).
Proof.
  intros Hg Hu. destruct (units_pos p _ x Hg) as (H0 & H1 & H2). destruct Hg as [(t & a & Hi) Hd Ha].
  assert (Hw : x.(waits) !! p = None) by (apply eq_None_not_Some; rewrite Hd; by intros []).
  unfold _wait_sem. rewrite (bind_Ok _ _ _ _ _ (add_val_run (-1) x ltac:(lia))). destruct (Z.leb_spec 0 (x.(val) + -1)).
  - exists true. eexists. split; [done|]. split; [|unfold units; cbn; lia]. split; [|intros q; cbn; rewrite Hd; naive_solver|done].
    exists (t + 1), a. apply (sem_inv_val 0 t _ a); [done|lia..].
  - exists false. eexists. split; [done|]. split.
    + split; [|intros q; cbn|done].
      * exists t, a. replace (x.(val) + -1) with (x.(val) - 1) by lia. exact (wait_inv 0 t a x p true Hi Hw ltac:(lia)).
      * rewrite lookup_insert_is_Some. rewrite Hd. destruct (decide (p = q)); naive_solver.
    + unfold units. cbn. rewrite map_size_insert_None //. lia.
Qed.

(** And from there on. *)
Lemma wake_good p x : sem_good p (Some Sleeping) x →
  ∃ r x', wait_sem_wake p x = Ok (r, x') ∧ sem_good p (if r : bool then Some Reaping else None) x' ∧
    units x' = units x - (if r then 1 else 0).
Proof.
  intros Hg. destruct (units_pos p _ x Hg) as (H0 & H1 & H2). destruct (sem_good_sleepers p _ x Hg) as (_ & Hsz & _). destruct Hg as [(t & a & Hi) Hd Ha].
  destruct (proj2 (Hd p)) as [w Hw]; [done|].
  assert (Hsize : Z.of_nat (size (delete p x.(waits))) = Z.of_nat (size x.(waits)) - 1).
  { rewrite map_size_delete Hw. assert (size x.(waits) ≠ 0%nat) by (eapply map_size_ne_0_lookup_2; eauto). lia. }
  assert (Hdel : ∀ q, is_Some (delete p x.(waits) !! q) ↔ False).
  { intros q. destruct (decide (q = p)) as [->|Hne]; [rewrite lookup_delete_eq; by split; [intros []|]|]. rewrite lookup_delete_ne // Hd. naive_solver. }
  unfold wait_sem_wake. rewrite (bind_Ok _ _ x x.(waits) x) // Hw (bind_Ok _ _ x w x) //. destruct w.(up) eqn:Hup.
  - exists true. eexists. split; [done|]. split; [|unfold units; cbn; lia]. split; [|intros q; cbn; rewrite Hdel; naive_solver|done].
    exists (t + 1), a. by eapply chosen_inv.
  - destruct (alerted_inv 0 t a x p w Hi Hw Hup) as [Hinv Hneg]. exists false. eexists. split.
    + rewrite (bind_Ok _ _ _ tt (set_sleeplist (filter (.≠ p) x.(sleeplist)) (set_val (x.(val) + 1) x))) //.
      rewrite (bind_Ok _ _ _ _ _ (add_val_run 1 x ltac:(lia))). by destruct (Z.leb_spec (x.(val) + 1) 0); [|lia].
    + split; [|unfold units; cbn; lia]. split; [|intros q; cbn; rewrite Hdel; naive_solver|done]. by exists t, a.
Qed.

Lemma wait_for_child_spec s ph this x : tree_ok s → sems_ok (λ _, 0) ph s → s.(procs) !! this = Some x → x.(state) = RUNNING →
  ph !! this = Some Asking →
  ∃ r s', wait_for_child this s = Ok (r, s') ∧ soft s s' ∧ sems_ok (λ _, 0) (<[this := if r : bool then Reaping else Sleeping]> ph) s'.
Proof.
  intros Ht He Hx Hrun Hph. pose proof (running_active x Hrun) as Ha. destruct (active_flags x Ha) as [_ Hz].
  destruct (e_sem _ _ _ He this x Hx Hz) as [Hg Hn]. pose proof (zombies_small s this x Ht Hx). pose proof (e_small _ _ _ He). rewrite Hph in Hg, Hn.
  destruct (_wait_good this x.(childexit) Hg) as (r & sem & E & Hg' & Hu); [case_decide; lia|].
  set (x1 := with_childexit sem x). set (s1 := put this x1 s). assert (Hx1 : s1.(procs) !! this = Some x1) by apply put_get.
  assert (Hgo : ∃ x2, core x2 = core x ∧ x2.(childexit) = sem ∧
    ((if r : bool then mret tt else sched this SLEEPING) s1 = Ok (tt, put this x2 s))).
  { destruct r; [by exists x1|]. unfold sched. rewrite (bind_Ok _ _ _ _ _ (proc_run s1 this x1 Hx1)).
    change (state x1) with (state x). rewrite Hrun (bool_decide_eq_true_2 (RUNNING = RUNNING)) // (bind_Ok _ _ s1 tt s1) //.
    rewrite (bool_decide_eq_false_2 (SLEEPING = ZOMBIE)) // andb_true_r. destruct (killed x1); [by exists x1|].
    exists (with_state SLEEPING x1). split; [|split; [done|]].
    - unfold core, unused, zombie. cbn. by rewrite Hrun.
    - rewrite (upd_run s1 this x1) //. unfold s1, put, set_procs. cbn. by rewrite insert_insert_eq. }
  destruct Hgo as (x2 & Hc2 & Hsem2 & E2). exists r, (put this x2 s). split; [|split].
  - unfold wait_for_child. rewrite (bind_Ok _ _ _ _ _ (on_childexit_run s this x _ r sem Hx E (sg_activated _ _ _ Hg'))).
    by rewrite (bind_Ok _ _ _ _ _ E2).
  - by eapply soft_put.
  - apply (move_sems ph _ s this x x2 He Hx Hc2 Ha); [intros q Hq; by rewrite lookup_insert_ne|by rewrite lookup_insert_eq Hsem2|].
    rewrite lookup_insert_eq Hph Hsem2 Hu. destruct r; repeat case_decide; simplify_eq; lia.
Qed.

Lemma wait_woken_spec s ph this x : sems_ok (λ _, 0) ph s → s.(procs) !! this = Some x → active x = true → ph !! this = Some Sleeping →
  ∃ r s', wait_woken this s = Ok (r, s') ∧ soft s s' ∧
    sems_ok (λ _, 0) (if r : bool then <[this := Reaping]> ph else delete this ph) s'.
Proof.
  intros He Hx Ha Hph. destruct (active_flags x Ha) as [_ Hz]. destruct (e_sem _ _ _ He this x Hx Hz) as [Hg Hn]. rewrite Hph in Hg, Hn.
  destruct (wake_good this x.(childexit) Hg) as (r & sem & E & Hg' & Hu). exists r, (put this (with_childexit sem x) s).
  split; [by eapply on_childexit_run; [..|apply Hg']|]. split; [by eapply soft_put|].
  assert (Hnew : (if r then <[this := Reaping]> ph else delete this ph) !! this = if r : bool then Some Reaping else None).
  { destruct r; [apply lookup_insert_eq|apply lookup_delete_eq]. }
  apply (move_sems ph _ s this x _ He Hx); [done|done| |by rewrite Hnew|].
  - intros q Hq. destruct r; [by rewrite lookup_insert_ne|by rewrite lookup_delete_ne].
  - rewrite Hnew Hph. cbn [childexit with_childexit]. rewrite Hu. destruct r; repeat case_decide; simplify_eq; lia.
Qed.

(** *** Reaping *)

Lemma find_zombie_spec s cs : (∀ c, c ∈ cs → is_Some (s.(procs) !! c)) → filter (λ c, zombie_at s c = true) cs ≠ [] →
  ∃ c z, find_zombie cs s = Ok (c, s) ∧ c ∈ cs ∧ s.(procs) !! c = Some z ∧ zombie z = true.
Proof.
  induction cs as [|c cs IH]; intros Hin Hne; [done|]. destruct (Hin c ltac:(by left)) as [z Hz]. cbn [find_zombie].
  rewrite (bind_Ok _ _ _ _ _ (proc_run s c z Hz)). change (bool_decide (state z = ZOMBIE)) with (zombie z). destruct (zombie z) eqn:Ez.
  - exists c, z. split_and!; [done|by left|done..].
  - rewrite filter_cons_False in Hne; [|unfold zombie_at; by rewrite Hz Ez].
    destruct IH as (d & y & E & Hd & Hy); [intros; apply Hin; by right|done|]. exists d, y. split_and!; [done|by right|apply Hy..].
Qed.

Section reaping.
Context (s : system) (this c : Z) (x z : proc) (cn : container) (pool : pid_pool).
Hypothesis Ht : tree_ok s.
Hypothesis Hx : s.(procs) !! this = Some x.
Hypothesis Hactive : active x = true.
Hypothesis Hin : c ∈ x.(children).
Hypothesis Hz : s.(procs) !! c = Some z.
Hypothesis Hzombie : zombie z = true.
Hypothesis Hcn : s.(containers) !! z.(container_of_proc) = Some cn.
Hypothesis Hpool : pool_ok 0 pool (select (local_pid z.(container_of_proc)) (delete c s.(procs))).

Definition kept : proc := with_children (filter (.≠ c) x.(children)) x.
Definition reaped : system :=
  mkSystem (delete c (<[this := kept]> s.(procs)))
    (<[z.(container_of_proc) := mkContainer cn.(cparent) cn.(rootproc) pool cn.(id)]> s.(containers)) s.(global_pids).

Lemma reaped_child : c ≠ root_proc ∧ z.(parent) = Some this ∧ c ≠ this ∧ unused z = false ∧ active z = false.
Proof.
  pose proof (proj1 (proj2 (t_kids _ Ht this x Hx) c) Hin) as (Hcr & z' & Hz' & Hp). assert (z' = z) as -> by congruence. split_and!; [done..| | |].
  - intros E. assert (z = x) as Ezx by congruence. pose proof (proj2 (active_flags x Hactive)). pose proof Hzombie. congruence.
  - pose proof Hzombie as Hzo. unfold unused, zombie in *. by destruct z.(state).
  - unfold active. by rewrite Hzombie andb_false_r.
Qed.
Lemma reaped_lookup q : reaped.(procs) !! q = if decide (q = c) then None else if decide (q = this) then Some kept else s.(procs) !! q.
Proof.
  cbn. case_decide; [subst; apply lookup_delete_eq|]. rewrite lookup_delete_ne //. case_decide; [subst; apply lookup_insert_eq|by apply lookup_insert_ne].
Qed.
Lemma reaped_old q y' : reaped.(procs) !! q = Some y' → q ≠ c ∧ ∃ y, s.(procs) !! q = Some y ∧ y'.(idle) = y.(idle) ∧ y'.(parent) = y.(parent) ∧
  y'.(container_of_proc) = y.(container_of_proc) ∧ y'.(state) = y.(state) ∧ y'.(childexit) = y.(childexit) ∧
  y'.(children) = if decide (q = this) then filter (.≠ c) y.(children) else y.(children).
Proof.
  rewrite reaped_lookup. case_decide; [done|]. case_decide as Hq; intros Hy; (split; [done|]); [injection Hy as <-; subst; by exists x|by exists y'].
Qed.
Lemma reaped_forth q y : s.(procs) !! q = Some y → q ≠ c → ∃ y', reaped.(procs) !! q = Some y' ∧ y'.(parent) = y.(parent) ∧
  y'.(container_of_proc) = y.(container_of_proc) ∧ y'.(state) = y.(state).
Proof.
  intros Hy Hq. rewrite reaped_lookup decide_False //. case_decide; [subst; rewrite Hx in Hy; injection Hy as <-|]; by eexists.
Qed.
Lemma reaped_container g d : reaped.(containers) !! g = Some d → ∃ d0, s.(containers) !! g = Some d0 ∧ d.(rootproc) = d0.(rootproc) ∧
  (g = z.(container_of_proc) → d.(pids) = pool) ∧ (g ≠ z.(container_of_proc) → d = d0).
Proof.
  cbn. destruct (decide (g = z.(container_of_proc))) as [->|Hne].
  - rewrite lookup_insert_eq. intros [= <-]. by exists cn.
  - rewrite lookup_insert_ne //. intros Hd. by exists d.
Qed.
Lemma reaped_container_forth g d : s.(containers) !! g = Some d → ∃ d', reaped.(containers) !! g = Some d' ∧ d'.(rootproc) = d.(rootproc).
Proof.
  intros Hd. cbn. destruct (decide (g = z.(container_of_proc))) as [->|Hne]; [rewrite lookup_insert_eq|rewrite lookup_insert_ne //]; [|by exists d].
  rewrite Hcn in Hd. injection Hd as <-. by eexists.
Qed.

Lemma reaped_kids q y' : reaped.(procs) !! q = Some y' → NoDup y'.(children) ∧
  ∀ e, e ∈ y'.(children) ↔ e ≠ root_proc ∧ ∃ w, reaped.(procs) !! e = Some w ∧ w.(parent) = Some q.
Proof.
  intros (Hqc & y & Hy & _ & _ & _ & _ & _ & ->)%reaped_old. destruct reaped_child as (Hcr & Hzp & Hct & _).
  destruct (t_kids _ Ht q y Hy) as [Hnd Hk].
  assert (Hpar : ∀ e, (∃ w, reaped.(procs) !! e = Some w ∧ w.(parent) = Some q) ↔ e ≠ c ∧ ∃ w, s.(procs) !! e = Some w ∧ w.(parent) = Some q).
  { intros e. split.
    - intros (w' & (Hec & w & Hw & _ & Ep & _)%reaped_old & Hp). split; [done|]. exists w. by rewrite -Ep.
    - intros (Hec & w & Hw & Hp). destruct (reaped_forth e w Hw Hec) as (w' & Hw' & Ep & _). exists w'. by rewrite Ep. }
  case_decide as Hqt.
  - subst. split; [by apply NoDup_filter|]. intros e. rewrite list_elem_of_filter Hk Hpar. naive_solver.
  - split; [done|]. intros e. rewrite Hk Hpar. split; [|naive_solver]. intros (Her & w & Hw & Hp). split; [done|]. split; [|by exists w].
    intros ->. rewrite Hz in Hw. injection Hw as <-. congruence.
Qed.

Lemma reaped_tree : tree_ok reaped.
Proof.
  destruct reaped_child as (Hcr & Hzp & Hct & Hzu & Hza). split.
  - intros q y' (_ & y & Hy & -> & _)%reaped_old. by apply (t_idle _ Ht q).
  - apply reaped_kids.
  - intros q y' p (_ & y & Hy & _ & -> & _)%reaped_old Hp. destruct (t_parent _ Ht q y p Hy Hp) as (w & Hw & Ha).
    destruct (reaped_forth p w Hw) as (w' & Hw' & _ & _ & E); [intros ->; congruence|]. exists w'. split; [done|]. unfold active, unused, zombie. by rewrite E.
  - intros q y' (_ & y & Hy & _ & Ep & _ & Es & _)%reaped_old Hu. rewrite Ep. apply (t_started _ Ht q y Hy). unfold unused. by rewrite -Es.
  - destruct (t_root _ Ht) as (w & Hw & Hwp). destruct (reaped_forth _ w Hw) as (w' & Hw' & E & _); [done|]. exists w'. by rewrite E.
  - intros q y' (_ & y & Hy & _ & _ & Ec & _)%reaped_old. destruct (t_home _ Ht q y Hy) as (d & r & w & Hd & Hr & Hw & Hor).
    destruct (reaped_container_forth _ d Hd) as (d' & Hd' & Er). destruct (t_first _ Ht _ d Hd) as (r1 & w1 & Hr1 & Hw1 & Hz1 & _).
    assert (r1 = r) as -> by congruence. rewrite Hw in Hw1. injection Hw1 as <-.
    destruct (reaped_forth r w Hw) as (w' & Hw' & _ & _ & E); [intros ->; congruence|]. exists d', r, w'. rewrite Ec Er.
    unfold active, unused, zombie in *. rewrite E. by split_and!.
  - intros g d' (d & Hd & -> & _)%reaped_container. destruct (t_first _ Ht g d Hd) as (r & w & Hr & Hw & Hwz & Hwc).
    destruct (reaped_forth r w Hw) as (w' & Hw' & _ & Ec & E); [intros ->; congruence|]. exists r, w'. rewrite Ec. unfold zombie in *. by rewrite E.
  - destruct (t_top _ Ht) as (d & Hd & Hr). destruct (reaped_container_forth _ d Hd) as (d' & Hd' & Er). exists d'. by rewrite Er.
  - destruct (t_rank _ Ht) as (rank & H1 & H2). exists rank. split.
    + intros q y' p (_ & y & Hy & _ & -> & _)%reaped_old. by apply H1.
    + intros q y' d' r (_ & y & Hy & _ & _ & -> & _)%reaped_old (d & Hd & -> & _)%reaped_container. by apply (H2 q y d r).
  - eapply pool_perm; [|apply (t_pids _ Ht)]. rewrite (select_delete live_pid s.(procs) c z Hz) {1}/live_pid Hzombie. cbn.
    rewrite delete_insert_ne //. rewrite (select_update _ _ this x); [|by rewrite lookup_delete_ne].
    apply (select_delete live_pid _ this x). by rewrite lookup_delete_ne.
  - intros g d' (d & Hd & _ & Hd1 & Hd2)%reaped_container.
    assert (Hsel : select (local_pid g) reaped.(procs) ≡ₚ select (local_pid g) (delete c s.(procs))).
    { cbn. rewrite delete_insert_ne // (select_update _ _ this x); [|by rewrite lookup_delete_ne]. symmetry. apply (select_delete (local_pid g) _ this x). by rewrite lookup_delete_ne. }
    eapply pool_perm; [symmetry; exact Hsel|]. destruct (decide (g = z.(container_of_proc))) as [->|Hne]; [by rewrite Hd1|].
    rewrite Hd2 //. eapply pool_perm; [|by apply (t_lpids _ Ht g)]. rewrite (select_delete _ _ c z Hz) {1}/local_pid Hzu.
    by rewrite bool_decide_eq_false_2.
Qed.

Lemma reaped_sems ph : sems_ok (λ _, 0) ph s → ph !! this = Some Reaping → sems_ok (λ _, 0) (delete this ph) reaped.
Proof.
  intros [He Hp Hsm] Hph. destruct reaped_child as (Hcr & Hzp & Hct & _ & Hza).
  assert (Hzat : ∀ e, e ≠ c → zombie_at reaped e = zombie_at s e).
  { intros e Hec. unfold zombie_at. rewrite reaped_lookup decide_False //. case_decide; [subst; by rewrite Hx|done]. }
  split.
  - intros q y' Hy' Hz'. destruct (reaped_old q y' Hy') as (Hqc & y & Hy & _ & _ & _ & Es & Ece & Ek). unfold zombie in Hz'. rewrite Es in Hz'.
    destruct (He q y Hy Hz') as [Hg Hn]. rewrite Ece. destruct (t_kids _ Ht q y Hy) as [Hnd Hk]. destruct (decide (q = this)) as [->|Hqt].
    + rewrite lookup_delete_eq. rewrite Hph in Hg, Hn. rewrite Hx in Hy. injection Hy as <-.
      split; [destruct Hg as [H1 H2 H3]; split; [done|intros q; rewrite H2; naive_solver|done]|]. rewrite Hn. unfold zombies. rewrite Ek. destruct (decide (this = this)); [|done].
      rewrite (count_add (λ e, zombie_at s e = true ∧ e ≠ c) (λ e, zombie_at s e = true) x.(children) c Hnd Hin); [|naive_solver| |naive_solver].
      2: { unfold zombie_at. by rewrite Hz. }
      rewrite list_filter_filter (filter_ext_in (λ e, zombie_at reaped e = true ∧ e ≠ c) (λ e, zombie_at s e = true ∧ e ≠ c)).
      * repeat case_decide; simplify_eq; lia.
      * intros d _. split; intros [Hze Hec]; (split; [|done]); [by rewrite -Hzat|by rewrite Hzat].
    + rewrite lookup_delete_ne //. split; [done|]. rewrite Hn. f_equal. f_equal. symmetry. apply zombies_ext; [|done]. intros e He'. apply Hzat.
      intros ->. apply Hk in He' as (_ & w & Hw & Hwp). congruence.
  - intros q Hq. destruct (decide (q = this)) as [->|Hqt]; [rewrite lookup_delete_eq in Hq; by destruct Hq|]. rewrite lookup_delete_ne // in Hq.
    destruct (Hp q Hq) as (y & Hy & Ha). exists y. rewrite reaped_lookup. rewrite decide_False; [|intros ->; congruence]. by rewrite decide_False.
  - assert (Hsz : size (<[this := kept]> s.(procs)) = size s.(procs)) by (apply map_size_insert_Some; by rewrite Hx).
    assert (size reaped.(procs) ≤ size s.(procs))%nat; [|lia]. rewrite -Hsz. cbn. apply map_subseteq_size, delete_subseteq.
Qed.
End reaping.

Lemma reap_spec s ph this x : tree_ok s → sems_ok (λ _, 0) ph s → s.(procs) !! this = Some x → active x = true → ph !! this = Some Reaping →
  ∃ c z s', wait_reap this s = Ok ((z.(localpid), z.(exitcode), z.(pid)), s') ∧ s.(procs) !! c = Some z ∧ zombie z = true ∧ z.(parent) = Some this ∧
    s'.(procs) !! c = None ∧ tree_ok s' ∧ sems_ok (λ _, 0) (delete this ph) s'.
Proof.
  intros Ht He Hx Ha Hph. destruct (active_flags x Ha) as [_ Hz]. destruct (e_sem _ _ _ He this x Hx Hz) as [Hg Hn].
  rewrite Hph in Hn. destruct (decide (Some Reaping = Some Reaping)) as [_|]; [|done]. destruct (units_pos this _ _ Hg) as (Hpos & _). destruct (t_kids _ Ht this x Hx) as [_ Hk].
  destruct (find_zombie_spec s x.(children)) as (c & z & E & Hin & Hz' & Hzo); [intros c (_ & y & Hy & _)%Hk; by eexists| |].
  { intros Hnil. unfold zombies in Hn. rewrite Hnil in Hn. cbn in Hn. lia. }
  destruct (t_home _ Ht c z Hz') as (cn & _ & _ & Hcn & _). destruct (proj1 (Hk c) Hin) as (_ & z' & Hz2 & Hzp). rewrite Hz' in Hz2. injection Hz2 as <-.
  assert (Hl : local_pid z.(container_of_proc) z = Some z.(localpid)).
  { unfold local_pid. rewrite bool_decide_eq_true_2 // andb_true_r. unfold unused, zombie in *. by destruct z.(state). }
  destruct (give_spec 0 cn.(pids) z.(localpid) (select (local_pid z.(container_of_proc)) (delete c s.(procs))) s) as (pool & E2 & Hpool); [lia| |].
  { eapply pool_perm; [|by apply (t_lpids _ Ht)]. rewrite (select_delete _ _ c z Hz') Hl. done. }
  exists c, z, (reaped s this c x z cn pool). split; [|split; [done|split; [done|split; [done|split; [|split]]]]].
  - unfold wait_reap. rewrite (bind_Ok _ _ _ _ _ (proc_run s this x Hx)) (bind_Ok _ _ _ _ _ E) (bind_Ok _ _ _ _ _ (proc_run s c z Hz')).
    rewrite (bind_Ok _ _ _ _ _ (proc_container_run s _ cn Hcn)) (bind_Ok _ _ _ _ _ E2) (bind_Ok _ _ _ _ _ (proc_upd_container_run s _ cn _ Hcn)).
    set (s1 := set_containers _ s). by rewrite (bind_Ok _ _ _ _ _ (upd_run s1 this x _ Hx)).
  - by rewrite reaped_lookup decide_True.
  - by apply reaped_tree.
  - by apply reaped_sems.
Qed.

(** ** Processes that have not been started *)

Lemma select_nil f m : (∀ q x, m !! q = Some x → f x = None) → select f m = [].
Proof.
  induction m as [|q x m Hq IH] using map_ind; intros Hf; [done|]. apply Permutation_nil_r. rewrite (select_new f m q x Hq).
  rewrite (Hf q x); [|by rewrite lookup_insert_eq]. rewrite IH //. intros q' x' Hx'. apply (Hf q'). rewrite lookup_insert_ne //. intros ->. congruence.
Qed.

Lemma unused_active x : unused x = true → active x = false ∧ zombie x = false.
Proof. unfold active, unused, zombie. by destruct x.(state). Qed.

(** Nobody is a child of a process not in use, and only such a process is in a container that it is first in. *)
Lemma unused_childless s p x q y : tree_ok s → s.(procs) !! p = Some x → unused x = true → s.(procs) !! q = Some y → y.(parent) ≠ Some p.
Proof.
  intros Ht Hx Hu Hy Hp. destruct (t_parent _ Ht q y p Hy Hp) as (x' & Hx' & Ha). rewrite Hx in Hx'. injection Hx' as <-.
  by destruct (unused_active x Hu) as [? _]; congruence.
Qed.
Lemma unused_no_children s p x : tree_ok s → s.(procs) !! p = Some x → unused x = true → x.(children) = [].
Proof.
  intros Ht Hx Hu. destruct x.(children) as [|c cs] eqn:E; [done|]. destruct (t_kids _ Ht p x Hx) as [_ Hk].
  destruct (proj1 (Hk c)) as (_ & y & Hy & Hp); [rewrite E; by left|]. by destruct (unused_childless s p x c y Ht Hx Hu Hy).
Qed.
Lemma root_active s : tree_ok s → ∃ x, s.(procs) !! root_proc = Some x ∧ active x = true.
Proof. intros Ht. destruct (t_root _ Ht) as (x & Hx & Hp). by apply (t_parent _ Ht root_proc x). Qed.

Definition ranked (rank : Z → nat) s : Prop :=
  (∀ p x q, s.(procs) !! p = Some x → x.(parent) = Some q → p ≠ root_proc → (rank q < rank p)%nat) ∧
  ∀ p x cn r, s.(procs) !! p = Some x → s.(containers) !! x.(container_of_proc) = Some cn → cn.(rootproc) = Some r → (rank r ≤ rank p)%nat.
Lemma rank_raise s p x q1 q2 : tree_ok s → s.(procs) !! p = Some x → unused x = true → q1 ≠ p → q2 ≠ p →
  ∃ rank, ranked rank s ∧ (rank q1 < rank p)%nat ∧ (rank q2 < rank p)%nat.
Proof.
  intros Ht Hx Hu H1 H2. destruct (t_rank _ Ht) as (rank & R1 & R2).
  set (rank' := λ q, if decide (q = p) then (rank p + rank q1 + rank q2 + 1)%nat else rank q).
  assert (Hge : ∀ q, (rank q ≤ rank' q)%nat) by (intros q; unfold rank'; case_decide; [subst; lia|done]).
  exists rank'. split; [split|].
  - intros q y q0 Hy Hp Hq. assert (q0 ≠ p) by (intros ->; by destruct (unused_childless s p x q y Ht Hx Hu Hy)).
    unfold rank' at 1. rewrite decide_False //. specialize (R1 q y q0 Hy Hp Hq). specialize (Hge q). lia.
  - intros q y cn r Hy Hcn Hr. specialize (R2 q y cn r Hy Hcn Hr). destruct (decide (r = p)) as [->|Hrp].
    + destruct (t_home _ Ht q y Hy) as (cn' & r' & x' & Hcn' & Hr' & Hx' & Hor). assert (r' = p) as -> by congruence.
      destruct Hor as [->|Ha]; [done|]. rewrite Hx in Hx'. injection Hx' as <-. destruct (unused_active x Hu). congruence.
    + unfold rank' at 1. rewrite decide_False //. specialize (Hge q). lia.
  - unfold rank'. destruct (decide (p = p)), (decide (q1 = p)), (decide (q2 = p)); try done. lia.
Qed.

Lemma sems_keep ext ph s s' : sems_ok ext ph s →
  (∀ q x', s'.(procs) !! q = Some x' → ∃ x, s.(procs) !! q = Some x ∧ zombie x' = zombie x ∧ x'.(childexit) = x.(childexit) ∧ zombies s' x' = zombies s x) →
  (∀ q x, s.(procs) !! q = Some x → active x = true → ∃ x', s'.(procs) !! q = Some x' ∧ active x' = true) →
  size s'.(procs) = size s.(procs) → sems_ok ext ph s'.
Proof.
  intros [He Hp Hsm] Hb Hf Hsz. split; [|intros q (x & Hx & Ha)%Hp; by eapply Hf|by rewrite Hsz].
  intros q x' Hx' Hz. destruct (Hb q x' Hx') as (x & Hx & Ez & -> & ->). apply He; congruence.
Qed.

(** *** [set_parent_to_this] *)

Section adopting.
Context (s : system) (p q : Z) (x y : proc).
Hypothesis Ht : tree_ok s.
Hypothesis Hx : s.(procs) !! p = Some x.
Hypothesis Hunused : unused x = true.
Hypothesis Horphan : x.(parent) = None.
Hypothesis Hy : s.(procs) !! q = Some y.
Hypothesis Hactive : active y = true.

Definition adopted : system := put q (with_children (p :: y.(children)) y) (put p (with_parent q x) s).
Lemma adopting_ne : q ≠ p ∧ p ≠ root_proc.
Proof.
  pose proof (unused_active x Hunused) as [Ha _]. split; intros ->.
  - assert (x = y) as <- by congruence. pose proof Hactive. congruence.
  - destruct (root_active s Ht) as (z & Hz & Hza). congruence.
Qed.
Lemma adopt_run1 : set_parent_to_this q p s = Ok (tt, adopted).
Proof.
  pose proof adopting_ne as [Hne _]. unfold set_parent_to_this. rewrite (bind_Ok _ _ _ _ _ (upd_run s p x _ Hx)).
  unfold insert_child. by rewrite (upd_run _ q y); [|rewrite proc_put_lookup decide_False].
Qed.
Lemma adopted_lookup e : adopted.(procs) !! e = if decide (e = q) then Some (with_children (p :: y.(children)) y) else
  if decide (e = p) then Some (with_parent q x) else s.(procs) !! e.
Proof. unfold adopted. rewrite proc_put_lookup. case_decide; [done|]. by rewrite proc_put_lookup. Qed.
Lemma adopted_old e z' : adopted.(procs) !! e = Some z' → ∃ z, s.(procs) !! e = Some z ∧ z'.(idle) = z.(idle) ∧ z'.(pid) = z.(pid) ∧
  z'.(localpid) = z.(localpid) ∧ z'.(state) = z.(state) ∧ z'.(container_of_proc) = z.(container_of_proc) ∧ z'.(childexit) = z.(childexit) ∧
  z'.(parent) = (if decide (e = p) then Some q else z.(parent)) ∧
  z'.(children) = (if decide (e = q) then p :: z.(children) else z.(children)).
Proof.
  pose proof adopting_ne as [Hne _]. rewrite adopted_lookup. case_decide as E1; [|case_decide as E2]; intros Hz.
  - injection Hz as <-. subst e. exists y. rewrite decide_False //.
  - injection Hz as <-. subst e. by exists x.
  - by exists z'.
Qed.
Lemma adopted_forth e z : s.(procs) !! e = Some z → ∃ z', adopted.(procs) !! e = Some z' ∧ z'.(state) = z.(state) ∧
  z'.(container_of_proc) = z.(container_of_proc) ∧ z'.(parent) = (if decide (e = p) then Some q else z.(parent)).
Proof.
  pose proof adopting_ne as [Hne _]. intros Hz. rewrite adopted_lookup. case_decide as E1; [|case_decide as E2].
  - subst e. assert (z = y) as -> by congruence. eexists. split; [done|]. by rewrite decide_False.
  - subst e. assert (z = x) as -> by congruence. by eexists.
  - by exists z.
Qed.
Lemma adopted_active z z' : z'.(state) = z.(state) → active z' = active z ∧ unused z' = unused z ∧ zombie z' = zombie z.
Proof. unfold active, unused, zombie. by intros ->. Qed.

Lemma adopted_kids e z' : adopted.(procs) !! e = Some z' → NoDup z'.(children) ∧
  ∀ c, c ∈ z'.(children) ↔ c ≠ root_proc ∧ ∃ w, adopted.(procs) !! c = Some w ∧ w.(parent) = Some e.
Proof.
  pose proof adopting_ne as [Hne Hpr]. intros (z & Hz & _ & _ & _ & _ & _ & _ & _ & ->)%adopted_old. destruct (t_kids _ Ht e z Hz) as [Hnd Hk].
  assert (Hpar : ∀ c, (∃ w, adopted.(procs) !! c = Some w ∧ w.(parent) = Some e) ↔
    (c = p ∧ e = q) ∨ (∃ w, s.(procs) !! c = Some w ∧ w.(parent) = Some e)).
  { intros c. split.
    - intros (w' & (w & Hw & _ & _ & _ & _ & _ & _ & E & _)%adopted_old & Hp). rewrite E in Hp. case_decide; [left; by simplify_eq|right; by exists w].
    - intros [[-> ->]|(w & Hw & Hp)].
      + destruct (adopted_forth p x Hx) as (w' & Hw' & _ & _ & E). exists w'. split; [done|]. by rewrite E decide_True.
      + destruct (adopted_forth c w Hw) as (w' & Hw' & _ & _ & E). exists w'. split; [done|]. rewrite E decide_False //. intros ->. congruence. }
  assert (Hnp : p ∉ z.(children)). { intros (_ & w & Hw & Hp)%Hk. congruence. }
  case_decide as E.
  - subst e. split; [by apply NoDup_cons|]. intros c. rewrite elem_of_cons Hk Hpar. split; [|naive_solver].
    intros [->|[Hc Hw]]; [split; [done|by left]|split; [done|by right]].
  - split; [done|]. intros c. rewrite Hk Hpar. naive_solver.
Qed.

Lemma adopted_select f : (∀ z z', z.(pid) = z'.(pid) → z.(localpid) = z'.(localpid) → z.(container_of_proc) = z'.(container_of_proc) →
  z.(state) = z'.(state) → f z = f z') → select f adopted.(procs) = select f s.(procs).
Proof.
  intros Hf. apply select_ext. intros e. destruct (adopted.(procs) !! e) as [z'|] eqn:E.
  - destruct (adopted_old e z' E) as (z & Hz & _ & E1 & E2 & E3 & E4 & _). rewrite Hz. cbn. f_equal. by apply Hf.
  - destruct (s.(procs) !! e) as [z|] eqn:Hz; [|done]. destruct (adopted_forth e z Hz) as (z' & Hz' & _). congruence.
Qed.

Lemma adopted_tree : tree_ok adopted.
Proof.
  pose proof adopting_ne as [Hne Hpr]. split.
  - intros e z' (z & Hz & -> & _)%adopted_old. by apply (t_idle _ Ht e).
  - apply adopted_kids.
  - intros e z' q0 (z & Hz & _ & _ & _ & _ & _ & _ & -> & _)%adopted_old Hp.
    assert (Hold : ∃ w, s.(procs) !! q0 = Some w ∧ active w = true).
    { case_decide; [injection Hp as <-; by exists y|by apply (t_parent _ Ht e z)]. }
    destruct Hold as (w & Hw & Ha). destruct (adopted_forth q0 w Hw) as (w' & Hw' & E & _). exists w'. split; [done|]. by rewrite (proj1 (adopted_active w w' E)).
  - intros e z' (z & Hz & _ & _ & _ & E & _ & _ & -> & _)%adopted_old Hu. case_decide; [by eexists|]. apply (t_started _ Ht e z Hz). by rewrite -(proj1 (proj2 (adopted_active z z' E))).
  - destruct (t_root _ Ht) as (w & Hw & Hwp). destruct (adopted_forth _ w Hw) as (w' & Hw' & _ & _ & E). exists w'. rewrite E decide_False //.
  - intros e z' (z & Hz & _ & _ & _ & _ & -> & _)%adopted_old. destruct (t_home _ Ht e z Hz) as (cn & r & w & Hcn & Hr & Hw & Hor).
    destruct (adopted_forth r w Hw) as (w' & Hw' & E & _). exists cn, r, w'. by rewrite (proj1 (adopted_active w w' E)).
  - intros g cn Hcn. destruct (t_first _ Ht g cn Hcn) as (r & w & Hr & Hw & Hwz & Hwc). destruct (adopted_forth r w Hw) as (w' & Hw' & E & Ec & _).
    exists r, w'. rewrite Ec. by rewrite (proj2 (proj2 (adopted_active w w' E))).
  - apply (t_top _ Ht).
  - destruct (rank_raise s p x q q Ht Hx Hunused Hne Hne) as (rank & [R1 R2] & Hlt & _). exists rank. split.
    + intros e z' q0 (z & Hz & _ & _ & _ & _ & _ & _ & -> & _)%adopted_old. case_decide as E; [intros [= <-] _; by subst|by apply R1].
    + intros e z' cn r (z & Hz & _ & _ & _ & _ & -> & _)%adopted_old. by apply R2.
  - rewrite adopted_select; [apply (t_pids _ Ht)|]. intros z z' E1 _ _ E. unfold live_pid, zombie. by rewrite E E1.
  - intros g cn Hcn. rewrite adopted_select; [by apply (t_lpids _ Ht)|]. intros z z' _ E2 E3 E. unfold local_pid, unused. by rewrite E E2 E3.
Qed.

Lemma adopted_sems ext ph : sems_ok ext ph s → sems_ok ext ph adopted.
Proof.
  intros He. pose proof (unused_active x Hunused) as [_ Hxz].
  assert (Hzat : ∀ c, zombie_at adopted c = zombie_at s c).
  { intros c. unfold zombie_at. destruct (adopted.(procs) !! c) as [z'|] eqn:E.
    - destruct (adopted_old c z' E) as (z & Hz & _ & _ & _ & Es & _). rewrite Hz. by apply adopted_active.
    - destruct (s.(procs) !! c) as [z|] eqn:Hz; [|done]. destruct (adopted_forth c z Hz) as (z' & Hz' & _). congruence. }
  apply (sems_keep ext ph s); [done| | |].
  - intros e z' E. destruct (adopted_old e z' E) as (z & Hz & _ & _ & _ & Es & _ & Ec & _ & Ek). exists z. split; [done|].
    split; [by apply adopted_active|]. split; [done|]. unfold zombies. rewrite Ek (filter_ext_in _ (λ c, zombie_at s c = true)); [|intros c _; by rewrite Hzat].
    case_decide; [|done]. rewrite filter_cons_False //. unfold zombie_at. by rewrite Hx Hxz.
  - intros e z Hz Ha. destruct (adopted_forth e z Hz) as (z' & Hz' & Es & _). exists z'. split; [done|]. by rewrite (proj1 (adopted_active z z' Es)).
  - apply (size_same (λ _, tt)). intros e. destruct (adopted.(procs) !! e) as [z'|] eqn:E.
    + destruct (adopted_old e z' E) as (z & -> & _). done.
    + destruct (s.(procs) !! e) as [z|] eqn:Hz; [|done]. destruct (adopted_forth e z Hz) as (z' & Hz' & _). congruence.
Qed.
End adopting.

(** *** [set_container_to_this] and the end of [start_proc] *)

(** [p], not in use, changes in a way that leaves its place in the tree. *)
Section starting.
Context (s s' : system) (p : Z) (x x' : proc).
Hypothesis Ht : tree_ok s.
Hypothesis Hx : s.(procs) !! p = Some x.
Hypothesis Hunused : unused x = true.
Hypothesis Hp' : s'.(procs) = <[p := x']> s.(procs).
Hypothesis Hidle : x'.(idle) = x.(idle).
Hypothesis Hpid : x'.(pid) = x.(pid).
Hypothesis Hkids : x'.(children) = x.(children).
Hypothesis Hparent : x'.(parent) = x.(parent).
Hypothesis Hsem : x'.(childexit) = x.(childexit).
Hypothesis Hzombie : zombie x' = false.
Hypothesis Hgp : s'.(global_pids) = s.(global_pids).
Hypothesis Hcont : ∀ g, (λ cn, cn.(rootproc)) <$> s'.(containers) !! g = (λ cn, cn.(rootproc)) <$> s.(containers) !! g.

Lemma started_lookup q : s'.(procs) !! q = if decide (q = p) then Some x' else s.(procs) !! q.
Proof. rewrite Hp'. case_decide; [subst; apply lookup_insert_eq|by apply lookup_insert_ne]. Qed.
Lemma started_cases q y' : s'.(procs) !! q = Some y' → (q = p ∧ y' = x') ∨ (q ≠ p ∧ s.(procs) !! q = Some y').
Proof. rewrite started_lookup. case_decide; [intros [= <-]; by left|by right]. Qed.
Lemma started_old q y' : s'.(procs) !! q = Some y' → ∃ y, s.(procs) !! q = Some y ∧ y'.(idle) = y.(idle) ∧ y'.(pid) = y.(pid) ∧
  y'.(children) = y.(children) ∧ y'.(parent) = y.(parent) ∧ y'.(childexit) = y.(childexit) ∧ zombie y' = zombie y ∧ (active y = true → y' = y).
Proof.
  pose proof (unused_active x Hunused) as [Ha Hz]. intros [[-> ->]|[Hq Hy]]%started_cases; [exists x|by exists y'].
  split_and!; try done; congruence.
Qed.
Lemma started_forth q y : s.(procs) !! q = Some y → ∃ y', s'.(procs) !! q = Some y' ∧ y'.(parent) = y.(parent) ∧ zombie y' = zombie y ∧
  (active y = true → y' = y) ∧ (q ≠ p → y' = y).
Proof.
  pose proof (unused_active x Hunused) as [Ha Hz]. intros Hy. rewrite started_lookup. case_decide as Hq; [|by exists y].
  subst. rewrite Hx in Hy. injection Hy as <-. exists x'. split_and!; try done; congruence.
Qed.
Lemma started_container g cn : s'.(containers) !! g = Some cn → ∃ cn0, s.(containers) !! g = Some cn0 ∧ cn.(rootproc) = cn0.(rootproc).
Proof. apply fmap_eq_Some, Hcont. Qed.
Lemma started_container_forth g cn : s.(containers) !! g = Some cn → ∃ cn', s'.(containers) !! g = Some cn' ∧ cn'.(rootproc) = cn.(rootproc).
Proof. intros Hcn. destruct (fmap_eq_Some (λ cn, cn.(rootproc)) _ _ cn (eq_sym (Hcont g)) Hcn) as (cn' & ? & ?). by exists cn'. Qed.

(** Its container has a first process at work, or is its own as before. *)
Hypothesis Hhome : ∃ r, (∃ cn, s.(containers) !! x'.(container_of_proc) = Some cn ∧ cn.(rootproc) = Some r) ∧
  ((r = p ∧ x'.(container_of_proc) = x.(container_of_proc)) ∨ r ≠ p ∧ ∃ y, s.(procs) !! r = Some y ∧ active y = true).
Hypothesis Hfirst : x'.(container_of_proc) = x.(container_of_proc) ∨
  ∃ cn r, s.(containers) !! x.(container_of_proc) = Some cn ∧ cn.(rootproc) = Some r ∧ r ≠ p.
Hypothesis Hstarted : unused x' = false → is_Some x.(parent).
Hypothesis Hlocal : ∀ g cn, s'.(containers) !! g = Some cn → pool_ok 0 cn.(pids) (select (local_pid g) s'.(procs)).

Lemma started_rank : ∃ rank, ranked rank s'.
Proof.
  destruct Hhome as (r & (cn & Hcn & Hr) & Hor).
  assert (Hrk : ∃ rank, ranked rank s ∧ (r ≠ p → (rank r < rank p)%nat)).
  { destruct Hor as [[-> _]|[Hne _]].
    - destruct (t_rank _ Ht) as (rank & R1 & R2). by exists rank.
    - destruct (rank_raise s p x r r Ht Hx Hunused Hne Hne) as (rank & R & Hlt & _). by exists rank. }
  destruct Hrk as (rank & [R1 R2] & Hlt). exists rank. split.
  - intros q y' q0 (y & Hy & _ & _ & _ & -> & _)%started_old. by apply R1.
  - intros q y' cn' r' Hy' Hcn' Hr'. destruct (started_container _ cn' Hcn') as (cn0 & Hcn0 & E). destruct (started_cases q y' Hy') as [[-> ->]|[Hq Hy]].
    + assert (r' = r) as -> by congruence. destruct (decide (r = p)) as [->|Hrp]; [done|]. specialize (Hlt Hrp). lia.
    + apply (R2 q y' cn0 r' Hy Hcn0). congruence.
Qed.

Lemma started_tree : tree_ok s'.
Proof.
  pose proof (unused_active x Hunused) as [Hxa Hxz]. split.
  - intros q y' (y & Hy & -> & _)%started_old. by apply (t_idle _ Ht q).
  - intros q y' (y & Hy & _ & _ & -> & _)%started_old. destruct (t_kids _ Ht q y Hy) as [Hnd Hk]. split; [done|]. intros c. rewrite Hk. f_equiv. split.
    + intros (w & Hw & Hwp). destruct (started_forth c w Hw) as (w' & Hw' & E & _). exists w'. by rewrite E.
    + intros (w' & (w & Hw & _ & _ & _ & E & _)%started_old & Hwp). exists w. by rewrite -E.
  - intros q y' q0 (y & Hy & _ & _ & _ & -> & _)%started_old Hp. destruct (t_parent _ Ht q y q0 Hy Hp) as (w & Hw & Ha).
    destruct (started_forth q0 w Hw) as (w' & Hw' & _ & _ & E & _). rewrite (E Ha) in Hw'. by exists w.
  - intros q y' [[-> ->]|[Hq Hy]]%started_cases Hu; [rewrite Hparent; by apply Hstarted|by apply (t_started _ Ht q)].
  - destruct (t_root _ Ht) as (w & Hw & Hwp). destruct (started_forth _ w Hw) as (w' & Hw' & E & _). exists w'. by rewrite E.
  - intros q y' [[-> ->]|[Hq Hy]]%started_cases.
    + destruct Hhome as (r & (cn & Hcn & Hr) & Hor). destruct (started_container_forth _ cn Hcn) as (cn' & Hcn' & E). destruct Hor as [[-> _]|[Hrp (w & Hw & Ha)]].
      * exists cn', p, x'. rewrite E started_lookup decide_True //. split_and!; [done..|by left].
      * exists cn', r, w. rewrite E started_lookup decide_False //. split_and!; [done..|by right].
    + destruct (t_home _ Ht q y' Hy) as (cn & r & w & Hcn & Hr & Hw & Hor). destruct (started_container_forth _ cn Hcn) as (cn' & Hcn' & E).
      destruct (started_forth r w Hw) as (w' & Hw' & _ & _ & Ew & _). exists cn', r, w'. rewrite E. split_and!; [done..|].
      destruct Hor as [?|Ha]; [by left|right]. by rewrite Ew.
  - intros g cn' (cn & Hcn & E)%started_container. destruct (t_first _ Ht g cn Hcn) as (r & w & Hr & Hw & Hwz & Hwc).
    destruct (started_forth r w Hw) as (w' & Hw' & _ & Ez & _ & Ew). exists r, w'. rewrite E Ez. split_and!; [done..|].
    destruct (decide (r = p)) as [->|Hrp]; [|by rewrite Ew]. rewrite Hx in Hw. injection Hw as <-.
    rewrite started_lookup decide_True // in Hw'. injection Hw' as <-. destruct Hfirst as [->|(cn1 & r1 & Hcn1 & Hr1 & Hne)]; [done|]. congruence.
  - destruct (t_top _ Ht) as (cn & Hcn & Hr). destruct (started_container_forth _ cn Hcn) as (cn' & Hcn' & E). exists cn'. by rewrite E.
  - apply started_rank.
  - rewrite Hgp. eapply pool_perm; [|apply (t_pids _ Ht)]. rewrite Hp' (select_update _ _ p x x' Hx) (select_delete _ _ p x Hx). unfold live_pid.
    by rewrite Hzombie Hxz Hpid.
  - exact Hlocal.
Qed.

Lemma started_sems ext ph : sems_ok ext ph s → sems_ok ext ph s'.
Proof.
  intros He. pose proof (unused_active x Hunused) as [Hxa Hxz]. apply (sems_keep ext ph s); [done| | |].
  - intros q y' Hy'. destruct (started_old q y' Hy') as (y & Hy & _ & _ & Ek & _ & Es & Ez & _). exists y. split_and!; [done..|].
    apply zombies_ext; [|done]. intros c _. unfold zombie_at. rewrite started_lookup. case_decide; [subst; by rewrite Hx Hzombie|done].
  - intros q y Hy Ha. destruct (started_forth q y Hy) as (y' & Hy' & _ & _ & E & _). rewrite (E Ha) in Hy'. by exists y.
  - rewrite Hp'. apply map_size_insert_Some. by rewrite Hx.
Qed.
End starting.

Lemma proc_put_put s p x y : put p y (put p x s) = put p y s.
Proof. unfold put, set_procs. cbn. by rewrite insert_insert_eq. Qed.
Lemma soft_containers s p x : (put p x s).(containers) = s.(containers).
Proof. done. Qed.

Lemma set_container_spec s ph this p x t : tree_ok s → sems_ok (λ _, 0) ph s → s.(procs) !! this = Some t → active t = true →
  s.(procs) !! p = Some x → unused x = true → (∀ cn, s.(containers) !! x.(container_of_proc) = Some cn → cn.(rootproc) ≠ Some p) →
  ∃ s', set_container_to_this this p s = Ok (tt, s') ∧ tree_ok s' ∧ sems_ok (λ _, 0) ph s'.
Proof.
  intros Ht He Hth Hta Hx Hu Hnf. set (x' := with_container t.(container_of_proc) x). exists (put p x' s).
  destruct (unused_active x Hu) as [Hxa Hxz]. split; [|split].
  - unfold set_container_to_this. by rewrite (bind_Ok _ _ _ _ _ (proc_run s this t Hth)) (upd_run s p x).
  - apply (started_tree s (put p x' s) p x x'); try done.
    + destruct (t_home _ Ht this t Hth) as (cn & r & y & Hcn & Hr & Hy & Hor). exists r. split; [by exists cn|right].
      assert (Hya : active y = true) by (destruct Hor as [->|?]; congruence). split; [intros ->; congruence|by exists y].
    + right. destruct (t_home _ Ht p x Hx) as (cn & r & _ & Hcn & Hr & _). exists cn, r. split_and!; [done..|]. intros ->. by apply (Hnf cn).
    + intros Hu'. change (unused x') with (unused x) in Hu'. congruence.
    + intros g cn Hcn. eapply pool_perm; [|by apply (t_lpids _ Ht g cn)]. cbn. rewrite (select_update _ _ p x) // (select_delete _ s.(procs) p x) //.
      unfold local_pid. change (unused x') with (unused x). by rewrite Hu.
  - by apply (started_sems s (put p x' s) p x x').
Qed.

Lemma activate_unused s p x onalert : s.(procs) !! p = Some x → unused x = true → activate p onalert s = Ok (tt, put p (with_state RUNNABLE x) s).
Proof.
  intros Hx Hu. unfold activate. rewrite (bind_Ok _ _ _ _ _ (proc_run s p x Hx)). unfold unused in Hu. apply bool_decide_eq_true_1 in Hu. rewrite Hu.
  rewrite bool_decide_eq_false_2 //. by apply upd_run.
Qed.

Context (proc_entry : Z).

(** [start_proc] once the process has a parent. *)
Lemma finish_spec s ph p x cn entry arg : tree_ok s → sems_ok (λ _, 0) ph s → s.(procs) !! p = Some x → unused x = true → is_Some x.(parent) →
  s.(containers) !! x.(container_of_proc) = Some cn → cn.(pids).(avail) < 100 →
  ∃ i s', (upd_proc p (with_kcontext (proc_entry, entry, arg)) ;;
    c ← get_container x.(container_of_proc); '(i, pool) ← take_id c.(pids);
    upd_container x.(container_of_proc) (λ c, mkContainer c.(cparent) c.(rootproc) pool c.(id)) ;;
    upd_proc p (with_localpid i) ;; activate p false ;; mret i) s = Ok (i, s') ∧ tree_ok s' ∧ sems_ok (λ _, 0) ph s' ∧
    s'.(procs) !! p = Some (with_state RUNNABLE (with_localpid i (with_kcontext (proc_entry, entry, arg) x))).
Proof.
  intros Ht He Hx Hu Hpar Hcn Hroom. set (g := x.(container_of_proc)). destruct (unused_active x Hu) as [Hxa Hxz].
  set (x1 := with_kcontext (proc_entry, entry, arg) x). set (s1 := put p x1 s).
  destruct (take_spec 0 cn.(pids) _ s1 (t_lpids _ Ht g cn Hcn) Hroom) as (i & E & Hpool). set (pool := mkPool _ _) in *.
  set (s2 := set_containers (<[g := mkContainer cn.(cparent) cn.(rootproc) pool cn.(id)]> s.(containers)) s).
  set (x' := with_state RUNNABLE (with_localpid i x1)). exists i, (put p x' s2).
  assert (Hrun : ∀ w, put p w (set_containers (<[g := mkContainer cn.(cparent) cn.(rootproc) pool cn.(id)]> s.(containers)) s1) = put p w s2).
  { intros w. unfold s1, s2, put, set_containers, set_procs. cbn. by rewrite insert_insert_eq. }
  split; [|split; [|split]].
  - rewrite (bind_Ok _ _ _ _ _ (upd_run s p x _ Hx)) (bind_Ok _ _ _ _ _ (proc_container_run s1 g cn Hcn)) (bind_Ok _ _ _ _ _ E).
    rewrite (bind_Ok _ _ _ _ _ (proc_upd_container_run s1 g cn _ Hcn)). set (s3 := set_containers _ s1).
    assert (Hx3 : s3.(procs) !! p = Some x1) by apply put_get. rewrite (bind_Ok _ _ _ _ _ (upd_run s3 p x1 _ Hx3)).
    assert (Hx4 : (put p (with_localpid i x1) s3).(procs) !! p = Some (with_localpid i x1)) by apply put_get.
    rewrite (bind_Ok _ _ _ _ _ (activate_unused _ p _ false Hx4 Hu)) proc_put_put. unfold s3. by rewrite Hrun.
  - assert (Hlp : local_pid g x' = Some i) by (unfold local_pid; rewrite bool_decide_eq_true_2 //).
    apply (started_tree s _ p x x'); try done.
    + intros g'. cbn. destruct (decide (g' = g)) as [->|Hne]; [by rewrite lookup_insert_eq Hcn|by rewrite lookup_insert_ne].
    + destruct (t_home _ Ht p x Hx) as (cn' & r & y & Hcn' & Hr & Hy & Hor). exists r. split; [by exists cn'|].
      destruct (decide (r = p)) as [->|Hrp]; [by left|right]. split; [done|]. exists y. split; [done|]. by destruct Hor.
    + by left.
    + intros g' cn'. cbn. destruct (decide (g' = g)) as [->|Hne].
      * rewrite lookup_insert_eq. intros [= <-]. cbn. eapply pool_perm; [|exact Hpool]. rewrite (select_update _ _ p x) // Hlp.
        rewrite (select_delete _ _ p x Hx) {1}/local_pid Hu. done.
      * rewrite lookup_insert_ne //. intros Hcn'. eapply pool_perm; [|by apply (t_lpids _ Ht g')]. rewrite (select_update _ _ p x) // (select_delete _ _ p x Hx).
        unfold local_pid. rewrite Hu. cbn [negb andb option_list app]. change (container_of_proc x') with g. by rewrite bool_decide_eq_false_2 // andb_false_r.
  - by apply (started_sems s _ p x x').
  - by rewrite put_get.
Qed.

Lemma start_spec s ph p x cn entry arg : tree_ok s → sems_ok (λ _, 0) ph s → s.(procs) !! p = Some x → unused x = true →
  s.(containers) !! x.(container_of_proc) = Some cn → cn.(pids).(avail) < 100 →
  ∃ i s', start_proc root_proc proc_entry p entry arg s = Ok (i, s') ∧ tree_ok s' ∧ sems_ok (λ _, 0) ph s'.
Proof.
  intros Ht He Hx Hu Hcn Hroom. unfold start_proc. rewrite (bind_Ok _ _ _ _ _ (proc_run s p x Hx)). destruct (x.(parent)) as [q|] eqn:Hp.
  - rewrite bool_decide_eq_false_2 // (bind_Ok _ _ s tt s) //.
    destruct (finish_spec s ph p x cn entry arg) as (i & s' & E & Ht' & He' & _); [by rewrite ?Hp..|]. by exists i, s'.
  - rewrite bool_decide_eq_true_2 //. destruct (root_active s Ht) as (y & Hy & Hya). set (s1 := adopted s p root_proc x y).
    assert (E1 : (upd_proc p (with_parent root_proc) ;; insert_child root_proc p) s = Ok (tt, s1)) by by apply adopt_run1.
    rewrite (bind_Ok _ _ _ _ _ E1).
    assert (Hx1 : s1.(procs) !! p = Some (with_parent root_proc x)).
    { unfold s1. rewrite adopted_lookup. rewrite decide_False; [by rewrite decide_True|]. intros Heq.
      by destruct (adopting_ne s p root_proc x y Ht Hx Hu Hy Hya). }
    destruct (finish_spec s1 ph p (with_parent root_proc x) cn entry arg) as (i & s' & E & Ht' & He' & _);
      [by apply adopted_tree|by apply adopted_sems|done|done|by eexists|done|done|]. by exists i, s'.
Qed.

(** *** [create_proc] and [create_container] *)

Section creating.
Context (s s' : system) (p : Z) (x : proc).
Hypothesis Ht : tree_ok s.
Hypothesis Hfresh : s.(procs) !! p = None.
Hypothesis Hunused : unused x = true.
Hypothesis Hidle : x.(idle) = false.
Hypothesis Hkids : x.(children) = [].
Hypothesis Horphan : x.(parent) = None.
Hypothesis Hsem : x.(childexit) = init_sem 0.
Hypothesis Hp' : s'.(procs) = <[p := x]> s.(procs).
Hypothesis Hsub : ∀ g cn, s.(containers) !! g = Some cn → s'.(containers) !! g = Some cn.
Hypothesis Hnew : ∀ g cn, s'.(containers) !! g = Some cn → s.(containers) !! g = Some cn ∨
  s.(containers) !! g = None ∧ cn.(rootproc) = Some p ∧ x.(container_of_proc) = g ∧ cn.(pids) = mkPool full_list 0.
Hypothesis Hhome : ∃ cn r, s'.(containers) !! x.(container_of_proc) = Some cn ∧ cn.(rootproc) = Some r ∧
  (r = p ∨ ∃ y, s.(procs) !! r = Some y ∧ active y = true).
Hypothesis Hpool : pool_ok 1 s'.(global_pids) (x.(pid) :: select live_pid s.(procs)).

Lemma created_lookup q : s'.(procs) !! q = if decide (q = p) then Some x else s.(procs) !! q.
Proof. rewrite Hp'. case_decide; [subst; apply lookup_insert_eq|by apply lookup_insert_ne]. Qed.
Lemma created_cases q y : s'.(procs) !! q = Some y → (q = p ∧ y = x) ∨ (q ≠ p ∧ s.(procs) !! q = Some y).
Proof. rewrite created_lookup. case_decide; [intros [= <-]; by left|by right]. Qed.
Lemma created_forth q y : s.(procs) !! q = Some y → s'.(procs) !! q = Some y ∧ q ≠ p.
Proof. intros Hy. assert (q ≠ p) by (intros ->; congruence). by rewrite created_lookup decide_False. Qed.
(** The containers of the processes there were, are old. *)
Lemma created_old_container q y cn : s.(procs) !! q = Some y → s'.(containers) !! y.(container_of_proc) = Some cn → s.(containers) !! y.(container_of_proc) = Some cn.
Proof.
  intros Hy Hcn. destruct (Hnew _ _ Hcn) as [?|(Hnone & _)]; [done|]. destruct (t_home _ Ht q y Hy) as (cn' & _ & _ & Hcn' & _). congruence.
Qed.

Lemma created_tree : tree_ok s'.
Proof.
  pose proof (unused_active x Hunused) as [Hxa Hxz]. split.
  - intros q y [[-> ->]|[Hq Hy]]%created_cases; [done|by apply (t_idle _ Ht q)].
  - assert (Hpar : ∀ c q, (∃ w, s'.(procs) !! c = Some w ∧ w.(parent) = Some q) ↔ ∃ w, s.(procs) !! c = Some w ∧ w.(parent) = Some q).
    { intros c q. split; [intros (w & [[-> ->]|[Hc Hw]]%created_cases & Hwp); [congruence|by exists w]|].
      intros (w & Hw & Hwp). exists w. by destruct (created_forth c w Hw). }
    intros q y [[-> ->]|[Hq Hy]]%created_cases.
    + rewrite Hkids. split; [constructor|]. intros c. rewrite Hpar. split; [by intros ?%not_elem_of_nil|]. intros (_ & w & Hw & Hwp).
      destruct (t_parent _ Ht c w p Hw Hwp) as (z & Hz & _). congruence.
    + destruct (t_kids _ Ht q y Hy) as [Hnd Hk]. split; [done|]. intros c. by rewrite Hpar Hk.
  - intros q y q0 [[-> ->]|[Hq Hy]]%created_cases Hyp; [congruence|]. destruct (t_parent _ Ht q y q0 Hy Hyp) as (w & Hw & Ha).
    exists w. by destruct (created_forth q0 w Hw).
  - intros q y [[-> ->]|[Hq Hy]]%created_cases Hu; [congruence|by apply (t_started _ Ht q)].
  - destruct (t_root _ Ht) as (w & Hw & Hwp). exists w. by destruct (created_forth _ w Hw).
  - intros q y [[-> ->]|[Hq Hy]]%created_cases.
    + destruct Hhome as (cn & r & Hcn & Hr & [->|(w & Hw & Ha)]); [exists cn, p, x|exists cn, r, w].
      * rewrite created_lookup decide_True //. split_and!; [done..|by left].
      * destruct (created_forth r w Hw). split_and!; [done..|by right].
    + destruct (t_home _ Ht q y Hy) as (cn & r & w & Hcn & Hr & Hw & Hor). destruct (created_forth r w Hw) as [Hw' _].
      exists cn, r, w. split_and!; [by apply Hsub|done..].
  - intros g cn Hcn. destruct (Hnew g cn Hcn) as [Hold|(Hnone & Hr & Hg & _)].
    + destruct (t_first _ Ht g cn Hold) as (r & w & Hr & Hw & Hwz & Hwc). destruct (created_forth r w Hw) as [Hw' _]. by exists r, w.
    + exists p, x. by rewrite created_lookup decide_True.
  - destruct (t_top _ Ht) as (cn & Hcn & Hr). exists cn. split; [by apply Hsub|done].
  - destruct Hhome as (cn & r & Hcn & Hr & Hor). destruct (t_rank _ Ht) as (rank & R1 & R2).
    set (rank' := λ q, if decide (q = p) then S (rank r) else rank q). assert (Hold : ∀ q, q ≠ p → rank' q = rank q) by (intros q Hq; unfold rank'; by rewrite decide_False).
    exists rank'. split.
    + intros q y q0 [[-> ->]|[Hq Hy]]%created_cases Hyp Hqr; [congruence|]. destruct (t_parent _ Ht q y q0 Hy Hyp) as (w & Hw & _).
      rewrite !Hold //; [by apply (R1 q y)|by destruct (created_forth q0 w Hw)].
    + intros q y cn' r' [[-> ->]|[Hq Hy]]%created_cases Hcn' Hr'.
      * assert (r' = r) as -> by congruence. destruct (decide (r = p)) as [->|Hrp]; [done|]. rewrite (Hold r Hrp). unfold rank'. rewrite decide_True //. lia.
      * pose proof (created_old_container q y cn' Hy Hcn') as Hcn0. destruct (t_first _ Ht _ cn' Hcn0) as (r1 & w & Hr1 & Hw & _).
        assert (r1 = r') as -> by congruence. rewrite !Hold //; [by apply (R2 q y cn')|by destruct (created_forth r' w Hw)].
  - eapply pool_perm; [|exact Hpool]. rewrite Hp' (select_new live_pid _ p x Hfresh). unfold live_pid at 2. by rewrite Hxz.
  - assert (Hsel : ∀ g, select (local_pid g) s'.(procs) ≡ₚ select (local_pid g) s.(procs)).
    { intros g. rewrite Hp' (select_new _ _ p x Hfresh). unfold local_pid at 1. by rewrite Hunused. }
    intros g cn Hcn. eapply pool_perm; [symmetry; apply Hsel|]. destruct (Hnew g cn Hcn) as [Hold|(Hnone & _ & _ & Epool)]; [by apply (t_lpids _ Ht)|].
    rewrite Epool select_nil; [apply full_pool|]. intros q y Hy. unfold local_pid. destruct (t_home _ Ht q y Hy) as (cn' & _ & _ & Hcn' & _).
    rewrite (bool_decide_eq_false_2 (container_of_proc y = g)); [by rewrite andb_false_r|]. intros E. congruence.
Qed.

Lemma created_sems ph : sems_ok (λ _, 0) ph s → Z.of_nat (size s.(procs)) + 1 < 2 ^ 29 → sems_ok (λ _, 0) ph s'.
Proof.
  intros [He Hp Hsm] Hroom. pose proof (unused_active x Hunused) as [Hxa Hxz].
  assert (Hzat : ∀ c, zombie_at s' c = zombie_at s c).
  { intros c. unfold zombie_at. rewrite created_lookup. case_decide; [subst; by rewrite Hfresh Hxz|done]. }
  assert (Hph : ph !! p = None). { apply eq_None_not_Some. intros (w & Hw & _)%Hp. congruence. }
  split.
  - intros q y [[-> ->]|[Hq Hy]]%created_cases Hz.
    + rewrite Hsem Hph. unfold zombies. rewrite Hkids. split; [|done]. split; [exists 0, 0; by apply init_sem_inv| |done].
      intros q. cbn. rewrite lookup_empty. split; [by intros []|by intros []].
    + destruct (He q y Hy Hz) as [Hg Hn]. split; [done|]. rewrite Hn. by rewrite (zombies_ext s s' y y).
  - intros q (w & Hw & Ha)%Hp. exists w. by destruct (created_forth q w Hw).
  - rewrite Hp' map_size_insert_None //. lia.
Qed.
End creating.

Lemma init_proc_run s p : pool_ok 1 s.(global_pids) (select live_pid s.(procs)) → s.(global_pids).(avail) < 100 →
  ∃ i g, create_proc root_container p s =
    Ok (p, put p (mkProc false false i 0 0 UNUSED (init_sem 0) [] None false root_container (0, 0, 0)) (set_global g s)) ∧
    pool_ok 1 g (i :: select live_pid s.(procs)).
Proof.
  intros Hok Hroom. destruct (take_spec 1 s.(global_pids) _ s Hok Hroom) as (i & E & Hg). eexists i, _. split; [|exact Hg].
  unfold create_proc, init_proc. rewrite (bind_Ok _ _ s tt (put p (mkProc false false i 0 0 UNUSED (init_sem 0) [] None false root_container (0, 0, 0))
    (set_global (mkPool s.(global_pids).(freelist) (s.(global_pids).(avail) + 1)) s))) //.
  rewrite (bind_Ok _ _ s s.(global_pids) s) // (bind_Ok _ _ _ _ _ E). done.
Qed.

Lemma create_spec s ph p : tree_ok s → sems_ok (λ _, 0) ph s → s.(procs) !! p = None → s.(global_pids).(avail) < 100 →
  Z.of_nat (size s.(procs)) + 1 < 2 ^ 29 →
  ∃ s', create_proc root_container p s = Ok (p, s') ∧ tree_ok s' ∧ sems_ok (λ _, 0) ph s'.
Proof.
  intros Ht He Hp Hroom Hsm. destruct (init_proc_run s p (t_pids _ Ht) Hroom) as (i & g & E & Hg). set (x := mkProc _ _ _ _ _ _ _ _ _ _ _ _) in *.
  exists (put p x (set_global g s)). split; [done|]. split.
  - apply (created_tree s _ p x); try done; [by left|]. destruct (t_top _ Ht) as (cn & Hcn & Hr). exists cn, root_proc. split_and!; [done..|right].
    by apply root_active.
  - by apply (created_sems s _ p x).
Qed.

Lemma new_container_spec s ph this g p arg t : tree_ok s → sems_ok (λ _, 0) ph s → s.(procs) !! this = Some t →
  s.(procs) !! p = None → s.(containers) !! g = None → s.(global_pids).(avail) < 100 → Z.of_nat (size s.(procs)) + 1 < 2 ^ 29 →
  ∃ s', new_container root_container this g p arg s = Ok (tt, s') ∧ tree_ok s' ∧ sems_ok (λ _, 0) ph s'.
Proof.
  intros Ht He Hth Hp Hg Hroom Hsm. destruct (init_proc_run s p (t_pids _ Ht) Hroom) as (i & g' & E & Hg'). set (x := mkProc _ _ _ _ _ _ _ _ _ _ _ _) in *.
  set (cn := mkContainer (Some t.(container_of_proc)) (Some p) (mkPool full_list 0) arg). set (x' := with_container g x).
  set (s' := put p x' (set_containers (<[g := cn]> s.(containers)) (set_global g' s))). exists s'. split.
  - unfold new_container. rewrite (bind_Ok _ _ _ _ _ (proc_run s this t Hth)) (bind_Ok _ _ _ _ _ E). set (s1 := put p x _).
    rewrite (bind_Ok _ _ s1 tt (set_containers (<[g := cn]> s.(containers)) s1)) //. rewrite (upd_run _ p x); [|apply put_get].
    unfold s', s1, put, set_containers, set_procs. cbn. by rewrite insert_insert_eq.
  - assert (Hsub : ∀ h d, s.(containers) !! h = Some d → s'.(containers) !! h = Some d) by (intros h d Hd; cbn; rewrite lookup_insert_ne //; congruence).
    split.
    + apply (created_tree s s' p x'); try done.
      * intros h d. cbn. destruct (decide (h = g)) as [->|Hne]; [|rewrite lookup_insert_ne //; by left]. rewrite lookup_insert_eq. intros [= <-]. by right.
      * exists cn, p. split; [apply lookup_insert_eq|]. split; [done|by left].
    + apply (created_sems s s' p x'); try done.
Qed.

(** ** Searching the tree *)

Definition matches (pid_ : Z) (offline : bool) (x : proc) : bool :=
  ((x.(pid) =? pid_) || offline && negb x.(online)) && negb (bool_decide (x.(state) = UNUSED)).

(** The depth-first search, in the order of the children. *)
Inductive searched s (pid_ : Z) (offline : bool) : list Z → option Z → Prop :=
| searched_nil : searched s pid_ offline [] None
| searched_here p l x : s.(procs) !! p = Some x → matches pid_ offline x = true → searched s pid_ offline (p :: l) (Some p)
| searched_in p l x q : s.(procs) !! p = Some x → matches pid_ offline x = false → searched s pid_ offline x.(children) (Some q) →
    searched s pid_ offline (p :: l) (Some q)
| searched_after p l x r : s.(procs) !! p = Some x → matches pid_ offline x = false → searched s pid_ offline x.(children) None →
    searched s pid_ offline l r → searched s pid_ offline (p :: l) r.

Inductive descends s (p : Z) : Z → Prop :=
| descends_refl : descends s p p
| descends_child q y c : descends s p q → s.(procs) !! q = Some y → c ∈ y.(children) → descends s p c.

Lemma searched_some s i o l q : searched s i o l (Some q) → ∃ x, s.(procs) !! q = Some x ∧ matches i o x = true.
Proof.
  intros Hs. remember (Some q) as r eqn:E. revert E. induction Hs; intros E; simplify_eq; eauto.
Qed.
Lemma searched_none s i o l p q x : searched s i o l None → p ∈ l → descends s p q → s.(procs) !! q = Some x → matches i o x = false.
Proof.
  intros Hs Hp Hd Hq.
  assert (Hin : ∃ l', searched s i o l' None ∧ q ∈ l').
  { clear Hq. induction Hd as [|q0 y c Hd IH Hy Hc]; [by exists l|]. destruct (IH) as (l' & Hs' & Hq0). exists y.(children). split; [|done]. clear -Hs' Hq0 Hy.
    remember None as r eqn:E. revert E. induction Hs' as [|p0 l0 x0 Hp0|p0 l0 x0 q1 Hp0|p0 l0 x0 r0 Hp0 _ Hs1 IH1 Hs2 IH2]; intros E; try done; [by apply not_elem_of_nil in Hq0|].
    apply elem_of_cons in Hq0 as [->|Hq0]; [|by apply IH2]. by simplify_eq. }
  destruct Hin as (l' & Hs' & Hq'). clear -Hs' Hq' Hq. remember None as r eqn:E. revert E.
  induction Hs' as [|p0 l0 x0 Hp0|p0 l0 x0 q1 Hp0|p0 l0 x0 r0 Hp0 Hm Hs1 IH1 Hs2 IH2]; intros E; try done; [by apply not_elem_of_nil in Hq'|].
  apply elem_of_cons in Hq' as [->|Hq']; [|by apply IH2]. by simplify_eq.
Qed.
Lemma searched_cons s i o c cs r r' : searched s i o [c] r → (r = None → searched s i o cs r') →
  searched s i o (c :: cs) (match r with Some q => Some q | None => r' end).
Proof.
  intros Hs Hr. inversion Hs; subst.
  - by eapply searched_here.
  - by eapply searched_in.
  - match goal with H : searched _ _ _ [] _ |- _ => inversion H; subst end. eapply searched_after; [done..|]. by apply Hr.
Qed.

Lemma first_found_spec s i o cs : (∀ c, c ∈ cs → ∃ r f0, searched s i o [c] r ∧ ∀ fuel, (f0 ≤ fuel)%nat → dfs fuel c i o s = Ok (r, s)) →
  ∃ r f0, searched s i o cs r ∧ ∀ fuel, (f0 ≤ fuel)%nat → first_found (λ c, dfs fuel c i o) cs s = Ok (r, s).
Proof.
  induction cs as [|c cs IH]; intros Hc; [exists None, 0%nat; by split; [constructor|]|].
  destruct (Hc c ltac:(by left)) as (r & f1 & Hs1 & E1). destruct IH as (r' & f2 & Hs2 & E2); [intros; apply Hc; by right|].
  exists (match r with Some q => Some q | None => r' end), (f1 + f2)%nat. split; [by apply searched_cons|].
  intros fuel Hf. cbn [first_found]. rewrite (bind_Ok _ _ s r s); [|apply E1; lia]. destruct r; [done|]. apply E2. lia.
Qed.

Lemma bounded (rank : Z → nat) (l : list Z) : ∃ n, ∀ p, p ∈ l → (rank p < n)%nat.
Proof.
  induction l as [|p l (n & Hn)]; [exists 0%nat; by intros p ?%not_elem_of_nil|]. exists (S (rank p) + n)%nat.
  intros q [->|Hq%Hn]%elem_of_cons; lia.
Qed.

Lemma dfs_spec s i o : tree_ok s → ∀ p, is_Some (s.(procs) !! p) →
  ∃ r f0, searched s i o [p] r ∧ ∀ fuel, (f0 ≤ fuel)%nat → dfs fuel p i o s = Ok (r, s).
Proof.
  intros Ht. destruct (t_rank _ Ht) as (rank & R1 & _). destruct (bounded rank (elements (dom s.(procs)))) as (n & Hn).
  assert (Hlt : ∀ p x, s.(procs) !! p = Some x → (rank p < n)%nat) by (intros p x Hx; apply Hn, elem_of_elements, elem_of_dom; by eexists).
  assert (H : ∀ k p x, (n - rank p ≤ k)%nat → s.(procs) !! p = Some x →
    ∃ r f0, searched s i o [p] r ∧ ∀ fuel, (f0 ≤ fuel)%nat → dfs fuel p i o s = Ok (r, s)); [|intros p [x Hx]; by eapply H].
  induction k as [|k IH]; intros p x Hk Hx; [specialize (Hlt p x Hx); lia|].
  destruct (t_kids _ Ht p x Hx) as [_ Hkids].
  destruct (first_found_spec s i o x.(children)) as (r & f0 & Hs & E).
  { intros c Hc. apply Hkids in Hc as (Hcr & y & Hy & Hyp). apply (IH c y); [|done]. specialize (R1 c y p Hy Hyp Hcr). specialize (Hlt c y Hy). lia. }
  destruct (matches i o x) eqn:Hm.
  - exists (Some p), 1%nat. split; [by eapply searched_here|]. intros [|fuel] Hf; [lia|]. cbn [dfs]. rewrite (bind_Ok _ _ _ _ _ (proc_run s p x Hx)).
    unfold matches in Hm. by rewrite Hm.
  - exists r, (S f0). split.
    + destruct r as [q|]; [by eapply searched_in|]. eapply searched_after; [done..|constructor].
    + intros [|fuel] Hf; [lia|]. cbn [dfs]. rewrite (bind_Ok _ _ _ _ _ (proc_run s p x Hx)). unfold matches in Hm. rewrite Hm. apply E. lia.
Qed.

(** Whatever has a parent is below the root. *)
Lemma descends_root s p x : tree_ok s → s.(procs) !! p = Some x → is_Some x.(parent) → descends s root_proc p.
Proof.
  intros Ht. destruct (t_rank _ Ht) as (rank & R1 & _). remember (rank p) as k eqn:Hk. revert p x Hk.
  induction (lt_wf k) as [k _ IH]; intros p x -> Hx [q Hq]. destruct (decide (p = root_proc)) as [->|Hne]; [constructor|].
  destruct (t_parent _ Ht p x q Hx Hq) as (y & Hy & Ha). apply (descends_child s root_proc q y).
  - apply (IH (rank q)) with (x := y); [by eapply (R1 p x)|done|done|]. apply (t_started _ Ht q y Hy). by destruct (active_flags y Ha).
  - done.
  - apply (t_kids _ Ht q y Hy). split; [done|by exists x].
Qed.

(** ** Every interleaving *)

Record config : Type := mkConfig { sys : system; phases : gmap Z phase }.
Definition on_sys {A} (m : Prelude.M system A) : Prelude.M config A := zoom sys (λ s c, mkConfig s c.(phases)) m.
Definition set_phase (p : Z) (o : option phase) : Prelude.M config unit :=
  modify (λ c, mkConfig c.(sys) (match o with Some x => <[p := x]> c.(phases) | None => delete p c.(phases) end)).

Inductive event : Type :=
| Create (p : Z)
| NewContainer (this g p arg : Z)
| SetParent (this p : Z)
| SetContainer (this p : Z)
| Start (p entry arg : Z)
| Dispatch (p : Z) (next : procstate)
| Exit (this code : Z)
| WaitBegin (this : Z)
| WaitSem (this : Z)
| WaitWoken (this : Z)
| WaitReap (this : Z)
| Kill (pid_ : Z)
| Alert (p : Z).

Definition run (fuel : nat) (e : event) : Prelude.M config unit :=
  match e with
  | Create p => _ ← on_sys (create_proc root_container p); mret tt
  | NewContainer this g p arg => on_sys (new_container root_container this g p arg)
  | SetParent this p => on_sys (set_parent_to_this this p)
  | SetContainer this p => on_sys (set_container_to_this this p)
  | Start p entry arg => _ ← on_sys (start_proc root_proc proc_entry p entry arg); mret tt
  | Dispatch p next => on_sys (upd_proc p (with_state next))
  | Exit this code => on_sys (exit this code)
  | WaitBegin this => b ← on_sys (wait_begin this); set_phase this (if b : bool then Some Asking else None)
  | WaitSem this => b ← on_sys (wait_for_child this); set_phase this (Some (if b : bool then Reaping else Sleeping))
  | WaitWoken this => b ← on_sys (wait_woken this); set_phase this (if b : bool then Some Reaping else None)
  | WaitReap this => _ ← on_sys (wait_reap this); set_phase this None
  | Kill i => _ ← on_sys (kill root_proc fuel i); mret tt
  | Alert p => on_sys (alert_proc p)
  end.

(** The process [this] is on a processor, at [o] in [wait]. *)
Definition at_work c (this : Z) (o : option phase) : Prop :=
  ∃ x, c.(sys).(procs) !! this = Some x ∧ x.(state) = RUNNING ∧ c.(phases) !! this = o.
Definition not_started c (p : Z) (x : proc) : Prop := c.(sys).(procs) !! p = Some x ∧ unused x = true.
(** Memory and process numbers for one more. *)
Definition room c : Prop := c.(sys).(global_pids).(avail) < 100 ∧ Z.of_nat (size c.(sys).(procs)) + 1 < 2 ^ 29.

(** When the callers make these calls. *)
Definition enabled c (e : event) : Prop :=
  match e with
  | Create p => c.(sys).(procs) !! p = None ∧ room c
  | NewContainer this g p _ => at_work c this None ∧ c.(sys).(procs) !! p = None ∧ c.(sys).(containers) !! g = None ∧ room c
  | SetParent this p => at_work c this None ∧ ∃ x, not_started c p x ∧ x.(parent) = None
  | SetContainer this p => at_work c this None ∧ ∃ x, not_started c p x ∧
      ∀ cn, c.(sys).(containers) !! x.(container_of_proc) = Some cn → cn.(rootproc) ≠ Some p
  | Start p _ _ => ∃ x cn, not_started c p x ∧ c.(sys).(containers) !! x.(container_of_proc) = Some cn ∧ cn.(pids).(avail) < 100
  | Dispatch p next => ∃ x, c.(sys).(procs) !! p = Some x ∧ (x.(state) = RUNNABLE ∧ next = RUNNING ∨ x.(state) = RUNNING ∧ next = RUNNABLE)
  | Exit this _ => at_work c this None ∧ ∃ x cn, c.(sys).(procs) !! this = Some x ∧
      c.(sys).(containers) !! x.(container_of_proc) = Some cn ∧ cn.(rootproc) ≠ Some this
  | WaitBegin this => at_work c this None
  | WaitSem this => at_work c this (Some Asking)
  | WaitWoken this => at_work c this (Some Sleeping)
  | WaitReap this => at_work c this (Some Reaping)
  | Kill _ => True
  | Alert p => ∃ x, c.(sys).(procs) !! p = Some x ∧ unused x = false
  end.

Definition runs_to (e : event) c c' : Prop := ∃ f0, ∀ fuel, (f0 ≤ fuel)%nat → run fuel e c = Ok (tt, c').
Inductive reach c0 : config → Prop :=
| reach_start : reach c0 c0
| reach_step c e c' : reach c0 c → enabled c e → runs_to e c c' → reach c0 c'.

(** The start of the system: the first container, and [define_init(root_proc)]. *)
Definition boot_system : system :=
  mkSystem ∅ {[root_container := mkContainer None (Some root_proc) (mkPool full_list 0) 4]} init_pids.
Definition boot (entry arg : Z) : Prelude.M system unit :=
  init_proc root_container root_proc ;;
  upd_proc root_proc (with_parent root_proc) ;;
  _ ← start_proc root_proc proc_entry root_proc entry arg;
  mret tt.
Definition booted (entry arg : Z) : system :=
  mkSystem {[root_proc := mkProc false false 1 0 0 RUNNABLE (init_sem 0) [] (Some root_proc) false root_container (proc_entry, entry, arg)]}
    {[root_container := mkContainer None (Some root_proc) (mkPool full_list 1) 4]} (mkPool full_list 2).

Definition good c : Prop := tree_ok c.(sys) ∧ sems_ok (λ _, 0) c.(phases) c.(sys).

Lemma on_sys_run {A} (m : Prelude.M system A) c a s' : m c.(sys) = Ok (a, s') → on_sys m c = Ok (a, mkConfig s' c.(phases)).
Proof. intros E. unfold on_sys, zoom. by rewrite E. Qed.
Lemma runs_now e c c' : (∀ fuel, run fuel e c = Ok (tt, c')) → runs_to e c c'.
Proof. intros E. by exists 0%nat. Qed.

Lemma booted_run entry arg : boot entry arg boot_system = Ok (tt, booted entry arg).
Proof.
  unfold boot, init_proc. rewrite (bind_Ok _ _ boot_system tt (put root_proc (mkProc false false 1 0 0 UNUSED (init_sem 0) [] None false root_container (0, 0, 0))
    (set_global (mkPool full_list 2) boot_system))) //.
  set (x := mkProc _ _ _ _ _ _ _ _ _ _ _ _). set (s0 := set_global _ _). assert (Hx : (put root_proc x s0).(procs) !! root_proc = Some x) by apply put_get.
  rewrite (bind_Ok _ _ _ _ _ (upd_run _ root_proc x _ Hx)) proc_put_put. set (x1 := with_parent root_proc x).
  assert (Hx1 : (put root_proc x1 s0).(procs) !! root_proc = Some x1) by apply put_get.
  set (cn := mkContainer None (Some root_proc) (mkPool full_list 0) 4).
  assert (Hcn : s0.(containers) !! root_container = Some cn) by apply lookup_insert_eq.
  unfold start_proc. rewrite bind_run (bind_Ok _ _ _ _ _ (proc_run _ root_proc x1 Hx1)) bool_decide_eq_false_2 // (bind_Ok _ _ (put root_proc x1 s0) tt (put root_proc x1 s0)) //.
  rewrite (bind_Ok _ _ _ _ _ (upd_run _ root_proc x1 _ Hx1)) proc_put_put. set (x2 := with_kcontext _ x1).
  assert (Hx2 : ∀ w, (put root_proc w s0).(containers) !! root_container = Some cn) by done.
  rewrite (bind_Ok _ _ _ _ _ (proc_container_run _ _ cn (Hx2 _))) (bind_Ok _ _ (put root_proc x2 s0) (0, mkPool full_list 1) (put root_proc x2 s0)) //.
  rewrite (bind_Ok _ _ _ _ _ (proc_upd_container_run _ _ cn _ (Hx2 _))). set (s1 := set_containers _ _).
  assert (H3 : s1.(procs) !! root_proc = Some x2) by apply put_get. rewrite (bind_Ok _ _ _ _ _ (upd_run s1 root_proc x2 _ H3)).
  set (x3 := with_localpid 0 x2). assert (H4 : (put root_proc x3 s1).(procs) !! root_proc = Some x3) by apply put_get.
  rewrite (bind_Ok _ _ _ _ _ (activate_unused _ root_proc x3 false H4 eq_refl)) proc_put_put.
  unfold booted, s1, put, set_containers, set_procs, boot_system, mret, M_ret. cbn. do 3 f_equal.
  - by rewrite !insert_insert_eq insert_empty.
  - by rewrite insert_singleton_eq.
Qed.

Lemma booted_good entry arg : good (mkConfig (booted entry arg) ∅).
Proof.
  set (x := mkProc false false 1 0 0 RUNNABLE (init_sem 0) [] (Some root_proc) false root_container (proc_entry, entry, arg)).
  set (cn := mkContainer None (Some root_proc) (mkPool full_list 1) 4).
  assert (Hps : ∀ p y, (booted entry arg).(procs) !! p = Some y → p = root_proc ∧ y = x) by (intros p y; cbn; rewrite lookup_singleton_Some; naive_solver).
  assert (Hcs : ∀ g d, (booted entry arg).(containers) !! g = Some d → g = root_container ∧ d = cn) by (intros g d; cbn; rewrite lookup_singleton_Some; naive_solver).
  assert (Hx : (booted entry arg).(procs) !! root_proc = Some x) by apply lookup_singleton_eq.
  assert (Hcn : (booted entry arg).(containers) !! root_container = Some cn) by apply lookup_singleton_eq.
  split; cbn [sys phases].
  - split.
    + by intros p y [-> ->]%Hps.
    + intros p y [-> ->]%Hps. split; [constructor|]. intros c. split; [by intros ?%not_elem_of_nil|]. by intros (Hc & y & [-> _]%Hps & _).
    + intros p y q [-> ->]%Hps [= <-]. by exists x.
    + intros p y [-> ->]%Hps _. by eexists.
    + by exists x.
    + intros p y [-> ->]%Hps. exists cn, root_proc, x. split_and!; [done..|by left].
    + intros g d [-> ->]%Hcs. by exists root_proc, x.
    + by exists cn.
    + exists (λ _, 0%nat). split; [by intros p y q [-> ->]%Hps|done].
    + assert (E : select live_pid (booted entry arg).(procs) = [1]) by (unfold select; cbn; by rewrite map_fmap_singleton map_to_list_singleton). rewrite E. by split.
    + intros g d [-> ->]%Hcs.
      assert (E : select (local_pid root_container) (booted entry arg).(procs) = [0]).
      { unfold select. cbn. rewrite map_fmap_singleton map_to_list_singleton. cbn. unfold local_pid. by rewrite bool_decide_eq_true_2. }
      rewrite E. by split.
  - split.
    + intros p y [-> ->]%Hps _. rewrite lookup_empty. split; [|done]. split; [exists 0, 0; by apply init_sem_inv| |done].
      intros q. cbn. rewrite lookup_empty. split; by intros [].
    + intros p. rewrite lookup_empty. by intros [].
    + cbn. by rewrite map_size_singleton.
Qed.

(** *** Each step *)

Lemma move_good s ph ph' this x x' : tree_ok s → sems_ok (λ _, 0) ph s → s.(procs) !! this = Some x → core x' = core x →
  sems_ok (λ _, 0) ph' (put this x' s) → good (mkConfig (put this x' s) ph').
Proof. intros Ht He Hx Hc He'. split; [|done]. apply (tree_soft s); [by eapply soft_put|done]. Qed.

(** Nothing but the scheduling state, or the flag [killed], of a process changes. *)
Lemma quiet_good s ph p x x' : tree_ok s → sems_ok (λ _, 0) ph s → s.(procs) !! p = Some x → core x' = core x → x'.(childexit) = x.(childexit) →
  good (mkConfig (put p x' s) ph).
Proof.
  intros Ht He Hx Hc Hce. apply (move_good s ph ph p x); try done. apply (sems_soft (λ _, 0) _ ph s _ p He); [by eapply soft_put| |].
  - intros q Hq. split; [done|]. by rewrite proc_put_lookup decide_False.
  - intros y y' Hy Hy' Hz. rewrite put_get in Hy'. injection Hy' as <-. rewrite Hx in Hy. injection Hy as <-. rewrite Hce.
    split; [exact (proj1 (e_sem _ _ _ He p x Hx Hz))|done].
Qed.

Lemma wait_begin_step c this : good c → at_work c this None → ∃ c', runs_to (WaitBegin this) c c' ∧ good c'.
Proof.
  destruct c as [s ph]. intros [Ht He] (x & Hx & Hr & Hph). cbn in *. set (b := negb (bool_decide (x.(children) = []))).
  exists (mkConfig s (if b then <[this := Asking]> ph else delete this ph)). split.
  - apply runs_now. intros fuel. cbn [run]. rewrite (bind_Ok _ _ _ _ _ (on_sys_run (wait_begin this) (mkConfig s ph) b s _)); [by destruct b|].
    unfold wait_begin. cbn. by rewrite (bind_Ok _ _ _ _ _ (proc_run s this x Hx)).
  - pose proof (running_active x Hr) as Ha. destruct (active_flags x Ha) as [_ Hz]. destruct (e_sem _ _ _ He this x Hx Hz) as [[H1 H2 H3] _].
    rewrite Hph in H2. split; [done|]. cbn. destruct b; [|by rewrite delete_id].
    rewrite -(put_id s this x Hx). apply (move_sems ph _ s this x x He Hx); [done|done|intros q Hq; by rewrite lookup_insert_ne| |].
    + rewrite lookup_insert_eq. split; [done|intros q; rewrite H2; naive_solver|done].
    + rewrite lookup_insert_eq Hph. do 2 case_decide; simplify_eq; lia.
Qed.

Lemma wait_sem_step c this : good c → at_work c this (Some Asking) → ∃ c', runs_to (WaitSem this) c c' ∧ good c'.
Proof.
  destruct c as [s ph]. intros [Ht He] (x & Hx & Hr & Hph). destruct (wait_for_child_spec s ph this x Ht He Hx Hr Hph) as (r & s' & E & Hs & He').
  eexists (mkConfig s' (<[this := if r then Reaping else Sleeping]> ph)). split; [|by split; [eapply tree_soft|]].
  apply runs_now. intros fuel. cbn [run]. by rewrite (bind_Ok _ _ _ _ _ (on_sys_run _ (mkConfig s ph) r s' E)).
Qed.

Lemma wait_woken_step c this : good c → at_work c this (Some Sleeping) → ∃ c', runs_to (WaitWoken this) c c' ∧ good c'.
Proof.
  destruct c as [s ph]. intros [Ht He] (x & Hx & Hr & Hph). destruct (wait_woken_spec s ph this x He Hx (running_active x Hr) Hph) as (r & s' & E & Hs & He').
  eexists (mkConfig s' (if r then <[this := Reaping]> ph else delete this ph)). split; [|by split; [eapply tree_soft|]].
  apply runs_now. intros fuel. cbn [run]. rewrite (bind_Ok _ _ _ _ _ (on_sys_run _ (mkConfig s ph) r s' E)). by destruct r.
Qed.

Lemma proc_kill_step c i : good c → ∃ c', runs_to (Kill i) c c' ∧ good c'.
Proof.
  destruct c as [s ph]. intros [Ht He]. cbn in *. destruct (t_root _ Ht) as (xr & Hxr & _).
  destruct (dfs_spec s i false Ht root_proc) as (r & f0 & Hs & E); [by eexists|]. destruct r as [q|].
  - destruct (searched_some _ _ _ _ _ Hs) as (x & Hx & _). exists (mkConfig (put q (with_killed x) s) ph). split; [|by apply (quiet_good s ph q x)].
    exists f0. intros fuel Hf. cbn [run]. rewrite (bind_Ok _ _ _ _ _ (on_sys_run (kill root_proc fuel i) (mkConfig s ph) (Some q) (put q (with_killed x) s) _)); [done|].
    unfold kill. rewrite (bind_Ok _ _ s (Some q) s); [|by apply E]. by rewrite (bind_Ok _ _ _ _ _ (upd_run s q x _ Hx)).
  - exists (mkConfig s ph). split; [|by split]. exists f0. intros fuel Hf. cbn [run].
    rewrite (bind_Ok _ _ _ _ _ (on_sys_run (kill root_proc fuel i) (mkConfig s ph) None s _)); [done|]. unfold kill. rewrite (bind_Ok _ _ s None s); [done|by apply E].
Qed.

Lemma exit_step c this code : good c → enabled c (Exit this code) → ∃ c', runs_to (Exit this code) c c' ∧ good c'.
Proof.
  destruct c as [s ph]. intros [Ht He] ((x & Hx & Hr & Hph) & x1 & cn & Hx1 & Hcn & Hne). cbn in *. rewrite Hx in Hx1. injection Hx1 as <-.
  destruct (t_home _ Ht this x Hx) as (cn' & r & _ & Hcn' & Hrp & _). rewrite Hcn in Hcn'. injection Hcn' as <-.
  destruct (t_started _ Ht this x Hx) as [p Hp]; [by destruct (active_flags x (running_active x Hr))|].
  destruct (exit_spec s ph this p x r code Ht He Hx Hr Hp) as (s' & E & Ht' & He' & _); [by exists cn|congruence|done|].
  exists (mkConfig s' ph). split; [|done]. apply runs_now. intros fuel. cbn [run]. by rewrite (on_sys_run _ (mkConfig s ph) tt s').
Qed.

Lemma step_good c e : good c → enabled c e → ∃ c', runs_to e c c' ∧ good c'.
Proof.
  intros Hg He. destruct e as [p|this g p arg|this p|this p|p entry arg|p next|this code|this|this|this|this|i|p];
    [| | | | | |by apply exit_step|by apply wait_begin_step|by apply wait_sem_step|by apply wait_woken_step| |by apply proc_kill_step|];
    destruct c as [s ph]; destruct Hg as [Ht Hs]; cbn in He, Ht, Hs.
  - destruct He as (Hp & Hroom & Hsm). destruct (create_spec s ph p Ht Hs Hp Hroom Hsm) as (s' & E & Hg'). exists (mkConfig s' ph). split; [|done].
    apply runs_now. intros fuel. cbn [run]. by rewrite (bind_Ok _ _ _ _ _ (on_sys_run _ (mkConfig s ph) p s' E)).
  - destruct He as ((t & Hth & _) & Hp & Hgn & Hroom & Hsm). destruct (new_container_spec s ph this g p arg t Ht Hs Hth Hp Hgn Hroom Hsm) as (s' & E & Hg').
    exists (mkConfig s' ph). split; [|done]. apply runs_now. intros fuel. cbn [run]. by rewrite (on_sys_run _ (mkConfig s ph) tt s').
  - destruct He as ((y & Hy & Hyr & _) & x & (Hx & Hu) & Hpar). pose proof (running_active y Hyr) as Hya. exists (mkConfig (adopted s p this x y) ph). split.
    + apply runs_now. intros fuel. cbn [run]. rewrite (on_sys_run _ (mkConfig s ph) tt (adopted s p this x y)) //. by apply adopt_run1.
    + split; [by apply adopted_tree|by apply adopted_sems].
  - destruct He as ((t & Hth & Htr & _) & x & (Hx & Hu) & Hnf).
    destruct (set_container_spec s ph this p x t Ht Hs Hth (running_active t Htr) Hx Hu Hnf) as (s' & E & Hg').
    exists (mkConfig s' ph). split; [|done]. apply runs_now. intros fuel. cbn [run]. by rewrite (on_sys_run _ (mkConfig s ph) tt s').
  - destruct He as (x & cn & (Hx & Hu) & Hcn & Hroom). destruct (start_spec s ph p x cn entry arg Ht Hs Hx Hu Hcn Hroom) as (i & s' & E & Hg').
    exists (mkConfig s' ph). split; [|done]. apply runs_now. intros fuel. cbn [run]. by rewrite (bind_Ok _ _ _ _ _ (on_sys_run _ (mkConfig s ph) i s' E)).
  - destruct He as (x & Hx & Hor). exists (mkConfig (put p (with_state next x) s) ph). split.
    + apply runs_now. intros fuel. cbn [run]. rewrite (on_sys_run _ (mkConfig s ph) tt (put p (with_state next x) s)) //. by apply upd_run.
    + apply (quiet_good s ph p x); try done. unfold core, unused, zombie. by destruct Hor as [[-> ->]|[-> ->]].
  - destruct He as (x & Hx & Hr & Hph). destruct (reap_spec s ph this x Ht Hs Hx (running_active x Hr) Hph) as (d & z & s' & E & _ & _ & _ & _ & Hg').
    exists (mkConfig s' (delete this ph)). split; [|done]. apply runs_now. intros fuel. cbn [run]. by rewrite (bind_Ok _ _ _ _ _ (on_sys_run _ (mkConfig s ph) _ s' E)).
  - destruct He as (x & Hx & Hu). destruct (activate_core s p x true Hx Hu) as (x' & E & Hc & Hce & _). exists (mkConfig (put p x' s) ph). split; [|by apply (quiet_good s ph p x)].
    apply runs_now. intros fuel. cbn [run]. by rewrite (on_sys_run _ (mkConfig s ph) tt (put p x' s)).
Qed.

Lemma proc_runs_to_det e c c1 c2 : runs_to e c c1 → runs_to e c c2 → c1 = c2.
Proof. intros [f1 E1] [f2 E2]. specialize (E1 (f1 + f2)%nat ltac:(lia)). specialize (E2 (f1 + f2)%nat ltac:(lia)). congruence. Qed.
Lemma reach_good c0 c : good c0 → reach c0 c → good c.
Proof.
  intros H0. induction 1 as [|c e c' _ IH He Hr]; [done|]. destruct (step_good c e IH He) as (c1 & Hr1 & Hg). by rewrite (proc_runs_to_det e c c' c1).
Qed.

(** ** The theorems *)

Lemma select_nodup f m p q x y i : NoDup (select f m) → m !! p = Some x → m !! q = Some y → f x = Some i → f y = Some i → p = q.
Proof.
  intros Hnd Hx Hy Hfx Hfy. destruct (decide (p = q)) as [|Hne]; [done|exfalso]. rewrite (select_delete f m p x Hx) Hfx in Hnd.
  rewrite (select_delete f (delete p m) q y) in Hnd; [|by rewrite lookup_delete_ne]. rewrite Hfy in Hnd. cbn in Hnd.
  apply NoDup_cons in Hnd as [Hn _]. apply Hn. by left.
Qed.


(** C7: In [wait], past [wait_sem]: the search for a child that has exited finds
    one ([PANIC] is not reached); [wait] returns its local number, gives its exit
    code and its number, and the child is gone. *)
Theorem wait_reap_correct entry arg c this : reach (mkConfig (booted entry arg) ∅) c → at_work c this (Some Reaping) →
  ∃ d z s', wait_reap this c.(sys) = Ok ((z.(localpid), z.(exitcode), z.(pid)), s') ∧
    c.(sys).(procs) !! d = Some z ∧ zombie z = true ∧ z.(parent) = Some this ∧ s'.(procs) !! d = None.
Proof.
  intros Hr (x & Hx & Hrun & Hph). destruct (reach_good _ c (booted_good entry arg) Hr) as [Ht Hs].
  destruct (reap_spec _ _ this x Ht Hs Hx (running_active x Hrun) Hph) as (d & z & s' & E & Hz & Hzo & Hzp & Hgone & _). by exists d, z, s'.
Qed.

(** C8: [kill] returns; it marks the process that a depth-first search from the root
    process meets first, among those started (exited or not) that have the
    number, and it finds none, and changes nothing, only if there is none. *)
Theorem kill_correct entry arg c i : reach (mkConfig (booted entry arg) ∅) c →
  ∃ r s' f0, (∀ fuel, (f0 ≤ fuel)%nat → kill root_proc fuel i c.(sys) = Ok (r, s')) ∧ searched c.(sys) i false [root_proc] r ∧
    match r with
    | Some p => ∃ x, c.(sys).(procs) !! p = Some x ∧ x.(pid) = i ∧ unused x = false ∧ s' = put p (with_killed x) c.(sys)
    | None => s' = c.(sys) ∧ ∀ p x, c.(sys).(procs) !! p = Some x → unused x = false → x.(pid) ≠ i
    end.
Proof.
  intros Hr. destruct (reach_good _ c (booted_good entry arg) Hr) as [Ht _]. destruct (t_root _ Ht) as (xr & Hxr & _).
  destruct (dfs_spec c.(sys) i false Ht root_proc) as (r & f0 & Hs & E); [by eexists|]. exists r. destruct r as [p|].
  - destruct (searched_some _ _ _ _ _ Hs) as (x & Hx & Hm). exists (put p (with_killed x) c.(sys)), f0. split; [|split; [done|]].
    + intros fuel Hf. unfold kill. rewrite (bind_Ok _ _ c.(sys) (Some p) c.(sys)); [|by apply E]. by rewrite (bind_Ok _ _ _ _ _ (upd_run _ p x _ Hx)).
    + exists x. unfold matches in Hm. rewrite andb_false_l orb_false_r in Hm. apply andb_true_iff in Hm as [Hm1 Hm2].
      apply Z.eqb_eq in Hm1. apply negb_true_iff in Hm2. by split_and!.
  - exists c.(sys), f0. split; [|split; [done|split; [done|]]].
    + intros fuel Hf. unfold kill. rewrite (bind_Ok _ _ c.(sys) None c.(sys)); [done|by apply E].
    + intros p x Hx Hu Hi. pose proof (searched_none _ _ _ _ root_proc p x Hs ltac:(by left)) as Hm.
      specialize (Hm (descends_root _ p x Ht Hx (t_started _ Ht p x Hx Hu)) Hx). unfold matches in Hm. unfold unused in Hu.
      by rewrite Hu Hi Z.eqb_refl in Hm.
Qed.
End tree.

(** ** Examples *)

(** The root process (64) starts a process (128) that exits; it reaches the end of [wait]. *)
Definition ex_events : list event :=
  [Dispatch 64 RUNNING; Create 128; SetParent 64 128; Start 128 7 8; Dispatch 128 RUNNING; Exit 128 5; WaitBegin 64; WaitSem 64].
Definition ex_step (c : config) (e : event) : config := match run 64 32 16 50 e c with Ok (_, c') => c' | Fail _ => c end.
Definition ex0 : config := mkConfig (booted 64 32 16 1 2) ∅.
Definition ex_at (n : nat) : config := foldl ex_step ex0 (take n ex_events).
Definition ex4 : config := Eval vm_compute in ex_at 4.
Definition ex8 : config := Eval vm_compute in ex_at 8.

Lemma ex_next c e c' : reach 64 32 16 ex0 c → enabled c e → (∀ fuel, run 64 32 16 fuel e c = Ok (tt, c')) → reach 64 32 16 ex0 c'.
Proof. intros Hr He E. eapply reach_step; [done..|]. by exists 0%nat. Qed.

Ltac at_work_now := eexists; split; [reflexivity|by split].
Lemma ex4_reached : reach 64 32 16 ex0 ex4.
Proof.
  apply (ex_next (ex_at 3) (Start 128 7 8)); [|eexists _, _; split; [split; [reflexivity|done]|]; by split|done].
  apply (ex_next (ex_at 2) (SetParent 64 128)); [|split; [at_work_now|eexists; split; [split; [reflexivity|done]|done]]|done].
  apply (ex_next (ex_at 1) (Create 128)); [|split; [done|by split]|done].
  apply (ex_next (ex_at 0) (Dispatch 64 RUNNING)); [constructor|eexists; split; [reflexivity|by left]|done].
Qed.
Lemma ex8_reached : reach 64 32 16 ex0 ex8.
Proof.
  apply (ex_next (ex_at 7) (WaitSem 64)); [|at_work_now|done].
  apply (ex_next (ex_at 6) (WaitBegin 64)); [|at_work_now|done].
  apply (ex_next (ex_at 5) (Exit 128 5)); [|split; [at_work_now|eexists _, _; split; [reflexivity|]; split; [reflexivity|done]]|done].
  apply (ex_next ex4 (Dispatch 128 RUNNING)); [apply ex4_reached|eexists; split; [reflexivity|by left]|done].
Qed.


Lemma wait_reap_correct_witness : at_work ex8 64 (Some Reaping) ∧ ∃ s', wait_reap 64 ex8.(sys) = Ok ((1, 5, 2), s').
Proof.
  assert (Ha : at_work ex8 64 (Some Reaping)) by at_work_now. split; [done|].
  destruct (wait_reap_correct 64 32 16 1 2 ex8 64 ex8_reached Ha) as (d & z & s' & E & _). exists s'.
  rewrite E. vm_compute in E. vm_compute. by injection E as <- <- <- <-.
Defined.

Lemma kill_correct_witness : ∃ s' f0, ∀ fuel, (f0 ≤ fuel)%nat → kill 64 fuel 2 ex4.(sys) = Ok (Some 128, s').
Proof.
  destruct (kill_correct 64 32 16 1 2 ex4 2 ex4_reached) as (r & s' & f0 & E & _ & _). exists s', (f0 + 2)%nat. intros fuel Hf.
  rewrite E; [|lia]. specialize (E fuel ltac:(lia)). destruct fuel as [|[|fuel]]; [lia..|]. vm_compute in E. by injection E as <- _.
Defined.

(** A process number is free again when its process exits, not when it is
    waited for: [kill] may then find the process that has exited, and not the
    one that has its number now. *)
Example kill_finds_the_dead :
  let c := foldl ex_step (ex_at 6) [Create 160; SetParent 64 160; Start 160 7 8] in
  (pid <$> c.(sys).(procs) !! 128 = Some 2) ∧ (pid <$> c.(sys).(procs) !! 160 = Some 2) ∧
  (zombie <$> c.(sys).(procs) !! 128 = Some true) ∧ (zombie <$> c.(sys).(procs) !! 160 = Some false).
Proof. vm_compute. by split_and!. Qed.
