(* ===== verification/Pages.v ===== *)
(** * Pages

    The page allocator of [src/kernel/mem.c] (with [add_to_queue] and
    [fetch_from_queue] of [src/common/list.c] run by one thread; [LockFree.v]
    has them interleaved) and the address arithmetic of [src/aarch64/mmu.h].  A
    page is 512 words; a free page's first word links it to the next one. *)

From iris.proofmode Require Import proofmode.
From S2P Require Import Prelude SepLogic.
#[local] Open Scope Z_scope.

(** ** [mmu.h] *)

Definition PAGE_SIZE : Z := 4096.
Definition N_PTE_PER_TABLE : Z := 512.
Definition KSPACE_MASK : Z := 0xffff000000000000.
Definition PTE_VALID : Z := 1.
Definition PTE_TABLE : Z := 3.
Definition K2P (a : Z) : Z := u64 (a - KSPACE_MASK).
Definition P2K (a : Z) : Z := u64 (a + KSPACE_MASK).
Definition PTE_ADDRESS (pte : Z) : Z := Z.land pte (u64 (Z.lnot 0xffff000000000fff)).
Definition PTE_FLAGS (pte : Z) : Z := Z.land pte 0xffff000000000fff.
Definition PAGE_BASE (a : Z) : Z := Z.land a (u64 (Z.lnot (PAGE_SIZE - 1))).
Definition VA_PART0 (va : Z) : Z := Z.shiftr (Z.land va 0xFF8000000000) 39.
Definition VA_PART1 (va : Z) : Z := Z.shiftr (Z.land va 0x7FC0000000) 30.
Definition VA_PART2 (va : Z) : Z := Z.shiftr (Z.land va 0x3FE00000) 21.
Definition VA_PART3 (va : Z) : Z := Z.shiftr (Z.land va 0x1FF000) 12.

(** A kernel address of a page. *)
Definition page_ok (p : Z) : Prop := KSPACE_MASK < p < 2 ^ 64 ∧ p mod PAGE_SIZE = 0.

(** The four parts are the four nine-bit fields of the page number. *)
Lemma va_part_eq va lo : 0 ≤ lo →
  Z.shiftr (Z.land va (Z.shiftl (Z.ones 9) lo)) lo = va / 2 ^ lo mod 512.
Proof. intros Hlo. exact (field_eq va lo 9 Hlo ltac:(done)). Qed.

Lemma VA_PART0_eq va : VA_PART0 va = va / 2 ^ 39 mod 512.
Proof. exact (va_part_eq va 39 ltac:(done)). Qed.
Lemma VA_PART1_eq va : VA_PART1 va = va / 2 ^ 30 mod 512.
Proof. exact (va_part_eq va 30 ltac:(done)). Qed.
Lemma VA_PART2_eq va : VA_PART2 va = va / 2 ^ 21 mod 512.
Proof. exact (va_part_eq va 21 ltac:(done)). Qed.
Lemma VA_PART3_eq va : VA_PART3 va = va / 2 ^ 12 mod 512.
Proof. exact (va_part_eq va 12 ltac:(done)). Qed.

Lemma page_split p : page_ok p → ∃ k, 0 < k < 2 ^ 36 ∧ p = KSPACE_MASK + k * 4096.
Proof.
  intros [[H1 H2] H3]. unfold KSPACE_MASK, PAGE_SIZE in *. exists (p / 4096 - 0xffff000000000).
  pose proof (Z.div_mod p 4096 ltac:(lia)) as H. rewrite H3 in H.
  change (2 ^ 36) with 68719476736. change (2 ^ 48) with 281474976710656 in *. change (2 ^ 64) with 18446744073709551616 in *. lia.
Qed.

Lemma K2P_page k : 0 < k < 2 ^ 36 → K2P (KSPACE_MASK + k * 4096) = k * 4096.
Proof. intros H. unfold K2P. rewrite u64_small; unfold KSPACE_MASK; lia. Qed.

(** Flags in the low bits of an aligned address. *)
Lemma lor_low a b n : 0 ≤ n → 0 ≤ b < 2 ^ n → Z.lor (a * 2 ^ n) b = a * 2 ^ n + b.
Proof.
  intros Hn Hb. assert (D : Z.land (a * 2 ^ n) b = 0).
  { apply Z.bits_inj'. intros i Hi. rewrite Z.land_spec Z.bits_0. destruct (decide (i < n)).
    - rewrite Z.mul_pow2_bits_low; [done|lia].
    - rewrite -(Z.mod_small b (2 ^ n)) // Z.mod_pow2_bits_high; [apply andb_false_r|lia]. }
  by rewrite -Z.lxor_lor // -Z.add_nocarry_lxor.
Qed.

(** An entry: the page of a frame, and flags below bit 12. *)
Lemma entry_addr k f : 0 < k < 2 ^ 36 → 0 ≤ f < 4096 → P2K (PTE_ADDRESS (k * 4096 + f)) = KSPACE_MASK + k * 4096.
Proof.
  intros Hk Hf. unfold PTE_ADDRESS. change (u64 (Z.lnot 0xffff000000000fff)) with (Z.shiftl (Z.ones 36) 12).
  rewrite land_field // Z.shiftr_div_pow2 // Z.shiftl_mul_pow2 //. change (2 ^ 12) with 4096.
  rewrite Z.div_add_l // (Z.div_small f) // Z.add_0_r (Z.mod_small k); [|lia]. unfold P2K. rewrite u64_small; unfold KSPACE_MASK; lia.
Qed.
Lemma entry_flag k f m : 0 ≤ f < 4096 → 0 ≤ m < 4096 → Z.land (k * 4096 + f) m = Z.land f m.
Proof.
  intros Hf Hm. change 4096 with (2 ^ 12) in *. rewrite -(lor_low k f 12) //. apply Z.bits_inj'. intros i Hi.
  rewrite !Z.land_spec Z.lor_spec. destruct (decide (i < 12)) as [Hlt|Hge]; [by rewrite Z.mul_pow2_bits_low|].
  rewrite -(Z.mod_small m (2 ^ 12)) // Z.mod_pow2_bits_high; [by rewrite !andb_false_r|lia].
Qed.
Lemma entry_eq p f : page_ok p → 0 ≤ f < 4096 → ∃ k, 0 < k < 2 ^ 36 ∧ p = KSPACE_MASK + k * 4096 ∧ Z.lor (K2P p) f = k * 4096 + f.
Proof.
  intros Hp Hf. destruct (page_split p Hp) as (k & Hk & ->). exists k. split; [done|]. split; [done|]. rewrite K2P_page //. by apply (lor_low k f 12).
Qed.

(** The entry for page [p] leads back to [p], and has the flags. *)
Lemma flags_entry p f : page_ok p → 0 ≤ f < 4096 →
  P2K (PTE_ADDRESS (Z.lor (K2P p) f)) = p ∧ (∀ m, 0 ≤ m < 4096 → Z.land (Z.lor (K2P p) f) m = Z.land f m) ∧ 0 < Z.lor (K2P p) f.
Proof.
  intros Hp Hf. destruct (entry_eq p f Hp Hf) as (k & Hk & -> & ->). split; [by apply entry_addr|]. split; [intros m Hm; by apply entry_flag|lia].
Qed.
Lemma table_entry p : page_ok p →
  P2K (PTE_ADDRESS (Z.lor (K2P p) PTE_TABLE)) = p ∧ Z.land (Z.lor (K2P p) PTE_TABLE) PTE_VALID = 1 ∧
  Z.lor (K2P p) PTE_TABLE ≠ 0.
Proof.
  intros Hp. destruct (flags_entry p PTE_TABLE Hp) as (E1 & E2 & E3); [done|]. split; [done|]. split; [by rewrite E2|lia].
Qed.

(** So does the address of the root table, which has no flags. *)
Lemma addr_entry p : page_ok p → P2K (PTE_ADDRESS p) = p.
Proof.
  intros Hp. destruct (page_split p Hp) as (k & Hk & ->).
  unfold PTE_ADDRESS. change (u64 (Z.lnot 0xffff000000000fff)) with (Z.shiftl (Z.ones 36) 12).
  rewrite land_field // Z.shiftr_div_pow2 // Z.shiftl_mul_pow2 //. change (2 ^ 12) with 4096.
  rewrite Z.div_add //. change (KSPACE_MASK / 4096) with (0xffff * 2 ^ 36).
  rewrite Z.add_comm Z_mod_plus_full Z.mod_small; [|lia]. unfold P2K. rewrite u64_small; unfold KSPACE_MASK; lia.
Qed.

(** ** Pages in memory *)

Definition page (p : Z) (ws : list Z) : hProp := ([∗ list] i ↦ w ∈ ws, (p + 8 * Z.of_nat i) ↦ w)%I.
(** A page with whatever in it. *)
Definition any_page (p : Z) : hProp := (∃ ws, ⌜page_ok p ∧ length ws = 512%nat⌝ ∗ page p ws)%I.

Lemma page_acc p ws i w :
  ws !! i = Some w →
  page p ws ⊢ (p + 8 * Z.of_nat i) ↦ w ∗ (∀ w', (p + 8 * Z.of_nat i) ↦ w' -∗ page p (<[i := w']> ws)).
Proof. intros Hi. unfold page. exact (big_sepL_insert_acc (λ k y, (p + 8 * Z.of_nat k) ↦ y)%I ws i w Hi). Qed.

(** *** The free list *)

Section pages.
(** Addresses of the static variables. *)
Context (pages alloc_page_cnt zero_page zero_page_cnt : Z).

Definition add_to_queue (head node : Z) : M mem unit :=
  h ← load head;
  store node h ;;
  store head node.
Definition fetch_from_queue (head : Z) : M mem Z :=
  node ← load head;
  if node =? 0 then mret 0
  else next ← load node; store head next ;; mret node.

Definition _increment_rc (rc : Z) : M mem unit := n ← load rc; store rc (i64 (n + 1)).
Definition _decrement_rc (rc : Z) : M mem bool :=
  n ← load rc; let r := i64 (n - 1) in store rc r ;; mret (r <=? 0).

Definition kalloc_page : M mem Z :=
  _increment_rc alloc_page_cnt ;;
  fetch_from_queue pages.

Definition kfree_page (p : Z) : M mem unit :=
  z ← load zero_page;
  if p =? z then
    _decrement_rc zero_page_cnt ;;
    c ← load zero_page_cnt;
    if c =? 0 then
      _decrement_rc alloc_page_cnt ;;
      add_to_queue pages p ;;
      store zero_page 0
    else mret tt
  else
    _decrement_rc alloc_page_cnt ;;
    add_to_queue pages p.

Definition get_zero_page : M mem Z :=
  z ← load zero_page;
  (if z =? 0 then
     p ← kalloc_page;
     store zero_page p ;;
     store zero_page_cnt 0 ;;
     _increment_rc alloc_page_cnt
   else mret tt) ;;
  _increment_rc zero_page_cnt ;;
  load zero_page.

(** [memset(p, 0, PAGE_SIZE)] *)
Definition zero_fill (p : Z) : M mem unit :=
  for_each (zseq 0 N_PTE_PER_TABLE) (λ i, store (p + 8 * i) 0).

Fixpoint is_list (h : Z) (l : list Z) : hProp :=
  match l with
  | [] => ⌜h = 0⌝%I
  | p :: l' => (⌜h = p ∧ page_ok p⌝ ∗ ∃ n ws, ⌜length ws = 511%nat⌝ ∗ page p (n :: ws) ∗ is_list n l')%I
  end.

(** The free pages [l], and [k] pages handed out. *)
Definition free_pages (l : list Z) (k : Z) : hProp := (∃ h, pages ↦ h ∗ is_list h l ∗ alloc_page_cnt ↦ k)%I.
(** The allocator while there is no zero page. *)
Definition allocator (l : list Z) (k : Z) : hProp := (free_pages l k ∗ zero_page ↦ 0)%I.

Lemma page_cons p n ws : page p (n :: ws) ⊣⊢ p ↦ n ∗ page (p + 8) ws.
Proof.
  unfold page. rewrite big_sepL_cons. assert (p + 8 * Z.of_nat 0 = p) as -> by lia.
  f_equiv. apply big_sepL_proper. intros i w _. assert (p + 8 * Z.of_nat (S i) = p + 8 + 8 * Z.of_nat i) as -> by lia. done.
Qed.

Lemma wpm_increment rc n (Q : unit → hProp) :
  rc ↦ n -∗ (rc ↦ i64 (n + 1) -∗ Q tt) -∗ wpm (_increment_rc rc) Q.
Proof. iIntros "H HQ". iApply wpm_bind. iApply (wpm_load with "H"). iIntros "H". by iApply (wpm_store with "H"). Qed.

Lemma wpm_decrement rc n (Q : bool → hProp) :
  rc ↦ n -∗ (rc ↦ i64 (n - 1) -∗ Q (i64 (n - 1) <=? 0)) -∗ wpm (_decrement_rc rc) Q.
Proof.
  iIntros "H HQ". iApply wpm_bind. iApply (wpm_load with "H"). iIntros "H". iApply wpm_bind.
  iApply (wpm_store with "H"). iIntros "H". iApply wpm_ret. by iApply "HQ".
Qed.

(** The page still holds the link of the free list in its first word. *)
Lemma wpm_kalloc_page_link p l k (Q : Z → hProp) :
  - 2 ^ 63 ≤ k < 2 ^ 63 - 1 →
  free_pages (p :: l) k -∗
  (∀ ws, ⌜page_ok p ∧ length ws = 511%nat⌝ -∗ free_pages l (k + 1) -∗ page p (hd 0 l :: ws) -∗ Q p) -∗ wpm kalloc_page Q.
Proof.
  iIntros (Hk) "(%h & Hh & (%Hok & %n & %ws & %Hl & Hp & Hr) & Hc) HQ". destruct Hok as [-> Hok].
  iAssert ⌜n = hd 0 l⌝%I as %->; [destruct l; [by iDestruct "Hr" as %->|by iDestruct "Hr" as "[[-> _] _]"]|].
  iApply wpm_bind. iApply (wpm_increment with "Hc"). iIntros "Hc". rewrite i64_small; [|lia].
  iApply wpm_bind. iApply (wpm_load with "Hh"). iIntros "Hh".
  destruct (p =? 0) eqn:E; [destruct Hok; unfold KSPACE_MASK in *; lia|].
  rewrite page_cons. iDestruct "Hp" as "[Hp Hw]". iApply wpm_bind. iApply (wpm_load with "Hp"). iIntros "Hp".
  iApply wpm_bind. iApply (wpm_store with "Hh"). iIntros "Hh". iApply wpm_ret. iApply ("HQ" $! ws with "[//] [Hh Hr Hc]").
  - iExists (hd 0 l). iFrame.
  - rewrite page_cons. iFrame.
Qed.
Lemma wpm_kalloc_page p l k (Q : Z → hProp) :
  - 2 ^ 63 ≤ k < 2 ^ 63 - 1 →
  free_pages (p :: l) k -∗ (free_pages l (k + 1) -∗ any_page p -∗ Q p) -∗ wpm kalloc_page Q.
Proof.
  iIntros (Hk) "Ha HQ". iApply (wpm_kalloc_page_link with "Ha"); [done|]. iIntros (ws [Hok Hl]) "Ha Hp".
  iApply ("HQ" with "Ha"). iExists _. iFrame. iPureIntro. split; [done|cbn; lia].
Qed.

(** A page goes to the head of the free list and off the count. *)
Lemma wpm_give_page p l k (Q : unit → hProp) :
  - 2 ^ 63 < k ≤ 2 ^ 63 →
  free_pages l k -∗ any_page p -∗ (free_pages (p :: l) (k - 1) -∗ Q tt) -∗
  wpm (_decrement_rc alloc_page_cnt ;; add_to_queue pages p) Q.
Proof.
  iIntros (Hk) "(%h & Hh & Hr & Hc) (%ws & [%Hok %Hl] & Hp) HQ".
  iApply wpm_bind. iApply (wpm_decrement with "Hc"). iIntros "Hc". rewrite i64_small; [|lia].
  iApply wpm_bind. iApply (wpm_load with "Hh"). iIntros "Hh".
  destruct ws as [|w ws]; [done|]. rewrite page_cons. iDestruct "Hp" as "[Hp Hw]".
  iApply wpm_bind. iApply (wpm_store with "Hp"). iIntros "Hp". iApply (wpm_store with "Hh"). iIntros "Hh".
  iApply "HQ". iExists p. iFrame "Hh Hc". iSplitR; [done|]. iExists h, ws. rewrite page_cons. iFrame. iPureIntro. cbn in Hl. lia.
Qed.

(** [kfree_page] of a page that is not the zero page. *)
Lemma wpm_kfree_page_at z p l k (Q : unit → hProp) :
  - 2 ^ 63 < k ≤ 2 ^ 63 → p ≠ z →
  free_pages l k -∗ zero_page ↦ z -∗ any_page p -∗ (free_pages (p :: l) (k - 1) -∗ zero_page ↦ z -∗ Q tt) -∗ wpm (kfree_page p) Q.
Proof.
  iIntros (Hk Hne) "Ha Hz Hp HQ". iApply wpm_bind. iApply (wpm_load with "Hz"). iIntros "Hz".
  destruct (Z.eqb_spec p z); [done|]. iApply (wpm_give_page with "Ha Hp"); [done|]. iIntros "Ha". by iApply ("HQ" with "Ha").
Qed.

Lemma wpm_kfree_page p l k (Q : unit → hProp) :
  - 2 ^ 63 < k ≤ 2 ^ 63 →
  allocator l k -∗ any_page p -∗ (allocator (p :: l) (k - 1) -∗ Q tt) -∗ wpm (kfree_page p) Q.
Proof.
  iIntros (Hk) "[Ha Hz] Hp HQ". iAssert ⌜p ≠ 0⌝%I as %Hne; [iDestruct "Hp" as (ws [[Hok _] _]) "_"; iPureIntro; unfold KSPACE_MASK in Hok; lia|].
  iApply (wpm_kfree_page_at with "Ha Hz Hp"); [done|done|]. iIntros "Ha Hz". iApply "HQ". iFrame.
Qed.

Lemma wpm_zero_fill p (Q : unit → hProp) :
  any_page p -∗ (page p (replicate 512 0) -∗ Q tt) -∗ wpm (zero_fill p) Q.
Proof.
  iIntros "(%ws & [_ %Hl] & Hp) HQ". unfold zero_fill, N_PTE_PER_TABLE.
  assert (H : ∀ n k ws, (k + n = 512)%nat → length ws = 512%nat → take k ws = replicate k 0 →
    page p ws -∗ (page p (replicate 512 0) -∗ Q tt) -∗
    wpm (for_each (zseq (Z.of_nat k) 512) (λ i, store (p + 8 * i) 0)) Q).
  { clear ws Hl. induction n as [|n IH]; intros k ws Hk Hl Ht; iIntros "Hp HQ".
    - rewrite zseq_nil; [|lia]. iApply wpm_ret. iApply "HQ". assert (k = 512%nat) as -> by lia.
      rewrite firstn_all2 in Ht; [|lia]. by subst ws.
    - rewrite zseq_cons; [|lia]. cbn [for_each]. destruct (lookup_lt_is_Some_2 ws k) as [w Hw]; [lia|].
      iDestruct (page_acc with "Hp") as "[Hw Hp]"; [done|]. iApply wpm_bind. iApply (wpm_store with "Hw").
      iIntros "Hw". iDestruct ("Hp" with "Hw") as "Hp". replace (Z.of_nat k + 1) with (Z.of_nat (S k)) by lia.
      iApply (IH with "Hp HQ"); [lia|by rewrite length_insert|].
      rewrite (take_S_r _ _ 0) ?take_insert_ge ?Ht ?replicate_S_end //. rewrite list_lookup_insert_eq //. lia. }
  iApply (H 512%nat 0%nat with "Hp HQ"); [lia|done|done].
Qed.
End pages.
