(* ===== verification/PageTable.v ===== *)
(** * Page tables

    [src/kernel/pt.c]: the four-level page tables, as trees of table pages in
    the memory of [SepLogic.v] with the page allocator of [Pages.v].  A table
    page of the three upper levels has an entry per subtree, the word
    [K2P(table) | PTE_TABLE], or 0; the pages of the last level hold the
    entries that map memory. *)

From iris.proofmode Require Import proofmode.
From S2P Require Import Prelude SepLogic Pages.
#[local] Open Scope Z_scope.

(** ** Code *)

Section code.
Context (pages alloc_page_cnt zero_page zero_page_cnt : Z).
Abbreviation kalloc_page := (kalloc_page pages alloc_page_cnt).
Abbreviation kfree_page := (kfree_page pages alloc_page_cnt zero_page zero_page_cnt).

(** One of the three middle steps of [get_pte]: the table that entry [i] of
    the table [pt] leads to; [None] when the code returns NULL. *)
Definition next_table (pt i : Z) (alloc : bool) : M mem (option Z) :=
  e ← load (pt + 8 * i);
  if (e =? 0) || (Z.land e PTE_VALID =? 0) then
    if alloc then
      p ← kalloc_page;
      zero_fill p ;;
      store (pt + 8 * i) (Z.lor (K2P p) PTE_TABLE) ;;
      mret (Some p)
    else mret None
  else mret (Some (P2K (PTE_ADDRESS e))).

(** The first step: [pgdir->pt], the first word of the structure at [pgdir]. *)
Definition root_table (pgdir : Z) (alloc : bool) : M mem (option Z) :=
  pt0 ← load pgdir;
  if pt0 =? 0 then
    if alloc then
      p ← kalloc_page;
      store pgdir p ;;
      zero_fill p ;;
      mret (Some p)
    else mret None
  else mret (Some pt0).

(** A step that found no table ends the function with NULL. *)
Definition or_null (r : option Z) (k : Z → M mem (option Z)) : M mem (option Z) :=
  match r with Some p => k p | None => mret None end.

Definition get_pte (pgdir va : Z) (alloc : bool) : M mem (option Z) :=
  r0 ← root_table pgdir alloc; or_null r0 (λ pt0,
  r1 ← next_table pt0 (VA_PART0 va) alloc; or_null r1 (λ pt1,
  r2 ← next_table pt1 (VA_PART1 va) alloc; or_null r2 (λ pt2,
  r3 ← next_table pt2 (VA_PART2 va) alloc; or_null r3 (λ pt3,
  mret (Some (pt3 + 8 * VA_PART3 va)))))).

(** [*get_pte(pd, va, true) = ...] *)
Definition vmmap (pd va ka flags : Z) : M mem unit :=
  r ← get_pte pd va true;
  a ← deref r;
  store a (Z.lor (Z.lor (K2P ka) flags) PTE_VALID).

(** [fuel] counts the levels below. *)
Fixpoint free_pt_r (fuel : nat) (pt num : Z) : M mem unit :=
  if num =? 3 then
    if pt =? 0 then mret tt else kfree_page (P2K (PTE_ADDRESS pt))
  else match fuel with
  | O => fault
  | S fuel =>
      if pt =? 0 then mret tt
      else
        for_each (zseq 0 N_PTE_PER_TABLE) (λ i,
          let ptin := if num =? 0 then pt else P2K (PTE_ADDRESS pt) in
          e ← load (ptin + 8 * i);
          free_pt_r fuel e (num + 1)) ;;
        kfree_page (P2K (PTE_ADDRESS pt))
  end.

(** [free_pgdir] after [free_sections] (which [Paging.v] has). *)
Definition free_pt (pgdir : Z) : M mem unit :=
  pt ← load pgdir;
  if pt =? 0 then mret tt else free_pt_r 3 pt 0.
End code.

(** ** Tables as trees *)

Inductive tree : Type :=
| Leaf (p : Z) (ws : list Z)
| Node (p : Z) (kids : list (option tree)).

Definition addr (t : tree) : Z := match t with Leaf p _ | Node p _ => p end.
Definition entry (k : option tree) : Z :=
  match k with None => 0 | Some t => Z.lor (K2P (addr t)) PTE_TABLE end.

(** The entry at a path, 0 where a table is missing. *)
Fixpoint pt_read (t : tree) (ix : list Z) : Z :=
  match t, ix with
  | Leaf _ ws, [i] => default 0 (ws !! Z.to_nat i)
  | Node _ kids, i :: ix => match kids !! Z.to_nat i with Some (Some t) => pt_read t ix | _ => 0 end
  | _, _ => 0
  end.

(** The pages a table is made of. *)
Fixpoint tpages (t : tree) : list Z :=
  match t with
  | Leaf p _ => [p]
  | Node p kids => p :: concat (map (λ k, match k with Some t => tpages t | None => [] end) kids)
  end.
Abbreviation kpages k := (match k with Some t => tpages t | None => [] end).

Definition new_table (n : nat) (p : Z) : tree :=
  match n with O => Leaf p (replicate 512 0) | S _ => Node p (replicate 512 None) end.

Definition path (va : Z) : list Z := [VA_PART0 va; VA_PART1 va; VA_PART2 va; VA_PART3 va].

(** A table with [n] levels below it. *)
Fixpoint is_pt (n : nat) (t : tree) : hProp :=
  match n, t with
  | O, Leaf p ws => (⌜page_ok p ∧ length ws = 512%nat⌝ ∗ page p ws)%I
  | S n, Node p kids =>
      (⌜page_ok p ∧ length kids = 512%nat⌝ ∗ page p (entry <$> kids) ∗
       [∗ list] k ∈ kids, match k with Some t => is_pt n t | None => emp end)%I
  | _, _ => False%I
  end.
Abbreviation kid_pt n k := (match k with Some t => is_pt n t | None => emp%I end).

Definition index_ok (i : Z) : Prop := 0 ≤ i < N_PTE_PER_TABLE.

(** *** Accessing trees *)

Lemma is_pt_addr n t : is_pt n t ⊢ ⌜page_ok (addr t)⌝.
Proof. destruct n, t; cbn; iIntros "H"; try done; by iDestruct "H" as "[[% _] _]". Qed.

Lemma entry_some t : page_ok (addr t) →
  (entry (Some t) =? 0) || (Z.land (entry (Some t)) PTE_VALID =? 0) = false ∧
  P2K (PTE_ADDRESS (entry (Some t))) = addr t.
Proof.
  intros (E1 & E2 & E3)%table_entry. split; [|done]. unfold entry. rewrite E2. apply orb_false_intro; [|done]. by apply Z.eqb_neq.
Qed.

(** An entry of an upper table with the subtree it leads to. *)
Lemma kid_acc n p kids i k :
  kids !! Z.to_nat i = Some k → 0 ≤ i →
  is_pt (S n) (Node p kids) ⊢ (p + 8 * i) ↦ entry k ∗ kid_pt n k ∗
    (∀ k', (p + 8 * i) ↦ entry k' -∗ kid_pt n k' -∗ is_pt (S n) (Node p (<[Z.to_nat i := k']> kids))).
Proof.
  iIntros (Hk Hi) "([%Hp %Hl] & Hw & Hs)".
  iDestruct (page_acc _ _ (Z.to_nat i) (entry k) with "Hw") as "[Ha Hw]"; [by rewrite list_lookup_fmap Hk|].
  iDestruct (big_sepL_insert_acc _ _ (Z.to_nat i) k with "Hs") as "[Hk Hs]"; [done|]. rewrite Z2Nat.id //. iFrame "Ha Hk".
  iIntros (k') "Ha Hk". iSplitR; [iPureIntro; split; [done|by rewrite length_insert]|].
  rewrite list_fmap_insert. iSplitL "Ha Hw"; [by iApply "Hw"|by iApply "Hs"].
Qed.

Lemma is_pt_new n q : page_ok q → page q (replicate 512 0) ⊢ is_pt n (new_table n q).
Proof.
  iIntros (Hq) "H". destruct n; cbn [is_pt new_table]; [iSplitR; [iPureIntro; by rewrite length_replicate|iExact "H"]|].
  rewrite fmap_replicate length_replicate. iSplitR; [done|]. iSplitL "H"; [iExact "H"|].
  iApply big_sepL_intro. iIntros "!>" (k x [-> _]%lookup_replicate). done.
Qed.

Lemma pt_read_new n q ix : pt_read (new_table n q) ix = 0.
Proof.
  destruct n, ix as [|i [|]]; cbn [new_table pt_read]; try done.
  - destruct (_ !! _) eqn:E; [|done]. by apply lookup_replicate in E as [-> _].
  - destruct (_ !! _) eqn:E; [|done]. by apply lookup_replicate in E as [-> _].
  - destruct (_ !! _) eqn:E; [|done]. by apply lookup_replicate in E as [-> _].
Qed.

Lemma tpages_new n q : tpages (new_table n q) = [q].
Proof. destruct n; [done|]. reflexivity. Qed.

Lemma kpages_insert kids i k k' :
  kids !! i = Some k →
  kpages k ++ concat (map (λ k, kpages k) (<[i := k']> kids)) ≡ₚ kpages k' ++ concat (map (λ k, kpages k) kids).
Proof.
  intros H. apply lookup_lt_Some in H as Hl.
  rewrite insert_take_drop // -{3}(take_drop_middle kids i k) // !map_app !concat_app. cbn [map concat].
  solve_Permutation.
Qed.

(** *** Writing at a path *)

(** [T w] is [t] with [w] at [ix], the pages [used] made into tables. *)
Definition wrote (n : nat) (t : tree) (ix used : list Z) (T : Z → tree) : Prop :=
  ∀ w, addr (T w) = addr t ∧ tpages (T w) ≡ₚ used ++ tpages t ∧
    ∀ ix', length ix' = S n → Forall index_ok ix' →
      pt_read (T w) ix' = if decide (ix' = ix) then w else pt_read t ix'.

Lemma list_insert_index {A} (l : list A) i j x :
  0 ≤ i < Z.of_nat (length l) → 0 ≤ j →
  <[Z.to_nat i := x]> l !! Z.to_nat j = if decide (j = i) then Some x else l !! Z.to_nat j.
Proof.
  intros Hi Hj. case_decide as E; [subst; apply list_lookup_insert_eq; lia|]. apply list_lookup_insert_ne. lia.
Qed.

Lemma wrote_leaf p ws i :
  index_ok i → length ws = 512%nat → wrote 0 (Leaf p ws) [i] [] (λ w, Leaf p (<[Z.to_nat i := w]> ws)).
Proof.
  intros Hi Hl w. split; [done|]. split; [done|]. intros [|j [|]]; try done. intros _ [Hj _]%Forall_cons.
  unfold index_ok, N_PTE_PER_TABLE in *. cbn [pt_read]. rewrite list_insert_index; [|lia..].
  destruct (decide (j = i)), (decide ([j] = [i])); naive_solver.
Qed.

(** The subtree for entry [i] is [t], there already or new. *)
Definition kid_of (n : nat) (kids : list (option tree)) (i : Z) (t : tree) (used : list Z) : Prop :=
  (kids !! Z.to_nat i = Some (Some t) ∧ used = []) ∨
  (∃ q, kids !! Z.to_nat i = Some None ∧ used = [q] ∧ t = new_table n q).

Lemma kid_of_read n kids i t used ix :
  kid_of n kids i t used → match kids !! Z.to_nat i with Some (Some t) => pt_read t ix | _ => 0 end = pt_read t ix.
Proof. intros [[-> _]|(q & -> & _ & ->)]; [done|]. by rewrite pt_read_new. Qed.

Lemma pt_read_kid n p kids i t used ix :
  kid_of n kids i t used → pt_read (Node p kids) (i :: ix) = pt_read t ix.
Proof. exact (kid_of_read n kids i t used ix). Qed.

Lemma kid_of_pages n kids i t used k :
  kid_of n kids i t used → kids !! Z.to_nat i = Some k → tpages t ≡ₚ used ++ kpages k.
Proof. intros [[-> ->]|(q & -> & -> & ->)] [= <-]; [done|]. by rewrite tpages_new. Qed.

Lemma wrote_node n p kids i t used ix used' T :
  index_ok i → length kids = 512%nat → kid_of n kids i t used → wrote n t ix used' T →
  wrote (S n) (Node p kids) (i :: ix) (used ++ used') (λ w, Node p (<[Z.to_nat i := Some (T w)]> kids)).
Proof.
  intros Hi Hl Hk HT w. destruct (HT w) as (_ & H2 & H3). split; [done|]. split.
  - destruct (lookup_lt_is_Some_2 kids (Z.to_nat i)) as [k Ek]; [unfold index_ok, N_PTE_PER_TABLE in *; lia|].
    pose proof (kpages_insert kids _ k (Some (T w)) Ek) as HP. pose proof (kid_of_pages _ _ _ _ _ _ Hk Ek) as Hu.
    cbn [tpages]. rewrite -Permutation_middle. f_equiv. apply (Permutation_app_inv_l (kpages k)).
    rewrite HP H2 Hu. solve_Permutation.
  - intros [|j ix']; [done|]. intros [= Hlen] [Hj Hf]%Forall_cons.
    unfold index_ok, N_PTE_PER_TABLE in *. cbn [pt_read]. rewrite list_insert_index; [|lia..].
    destruct (decide (j = i)) as [->|Hne].
    + rewrite H3 // (kid_of_read _ _ _ _ _ _ Hk). destruct (decide (ix' = ix)), (decide (i :: ix' = i :: ix)); naive_solver.
    + destruct (decide (j :: ix' = i :: ix)); naive_solver.
Qed.

(** ** The walk *)

Section walk.
Context (pages alloc_page_cnt zero_page zero_page_cnt : Z).
Abbreviation next_table := (next_table pages alloc_page_cnt).
Abbreviation get_pte := (get_pte pages alloc_page_cnt).
Abbreviation free_pages := (free_pages pages alloc_page_cnt).
Abbreviation free_pt_r := (free_pt_r pages alloc_page_cnt zero_page zero_page_cnt).

(** [get_pte] from a table, as a recursion over the indices. *)
Fixpoint walk (p : Z) (ix : list Z) (alloc : bool) : M mem (option Z) :=
  match ix with
  | [] => fault
  | [i] => mret (Some (p + 8 * i))
  | i :: ix => r ← next_table p i alloc; or_null r (λ q, walk q ix alloc)
  end.

Lemma get_pte_walk pgdir va alloc :
  get_pte pgdir va alloc = (r ← root_table pages alloc_page_cnt pgdir alloc; or_null r (λ p, walk p (path va) alloc)).
Proof. reflexivity. Qed.

Definition count_ok (k : Z) : Prop := 0 ≤ k < 2 ^ 62.

Lemma wpm_next_table n p kids i l k (Q : option Z → hProp) :
  index_ok i → l ≠ [] → count_ok k →
  is_pt (S n) (Node p kids) -∗ free_pages l k -∗
  (∀ t used l', ⌜l = used ++ l' ∧ (length used ≤ 1)%nat ∧ length kids = 512%nat ∧ kid_of n kids i t used⌝ -∗
     is_pt n t -∗ free_pages l' (k + Z.of_nat (length used)) -∗
     (∀ t', ⌜addr t' = addr t⌝ -∗ is_pt n t' -∗ is_pt (S n) (Node p (<[Z.to_nat i := Some t']> kids))) -∗
     Q (Some (addr t))) -∗
  wpm (next_table p i true) Q.
Proof.
  iIntros (Hi Hl Hk) "Ht Ha HQ". iAssert ⌜length kids = 512%nat⌝%I as %Hlen; [by iDestruct "Ht" as "[[_ %] _]"|].
  destruct (lookup_lt_is_Some_2 kids (Z.to_nat i)) as [kd Ek]; [unfold index_ok, N_PTE_PER_TABLE in *; lia|].
  iDestruct (kid_acc with "Ht") as "(He & Hkid & Ht)"; [done|unfold index_ok in *; lia|].
  iApply wpm_bind. iApply (wpm_load with "He"). iIntros "He". destruct kd as [t|].
  - iDestruct (is_pt_addr with "Hkid") as %Hok. destruct (entry_some t Hok) as [-> ->]. iApply wpm_ret.
    iApply ("HQ" $! t [] l with "[] Hkid [Ha]"); [iPureIntro; split_and!; [done|cbn; lia|done|by left]|by rewrite Z.add_0_r|].
    iIntros (t' Ht') "Hk". iApply ("Ht" $! (Some t') with "[He] Hk"). unfold entry. by rewrite Ht'.
  - destruct l as [|q l]; [done|]. iApply wpm_bind. unfold count_ok in Hk. iApply (wpm_kalloc_page with "Ha"); [lia|].
    iIntros "Ha Hq". iApply wpm_bind. iAssert ⌜page_ok q⌝%I as %Hq; [by iDestruct "Hq" as (?) "[[% _] _]"|].
    iApply (wpm_zero_fill with "Hq"). iIntros "Hq". iApply wpm_bind. iApply (wpm_store with "He"). iIntros "He".
    iApply wpm_ret. iDestruct (is_pt_new n with "Hq") as "Hq"; [done|].
    assert (Ha : addr (new_table n q) = q) by by destruct n. replace (Some q) with (Some (addr (new_table n q))) by by rewrite Ha.
    iApply ("HQ" $! (new_table n q) [q] l with "[] Hq Ha"); [iPureIntro; split_and!; [done|cbn; lia|done|right; eauto]|].
    iIntros (t' Ht') "Hk". iApply ("Ht" $! (Some t') with "[He] Hk"). unfold entry. by rewrite Ht' Ha.
Qed.

Lemma wpm_walk n t ix l k (Q : option Z → hProp) :
  length ix = S n → Forall index_ok ix → (n ≤ length l)%nat → 0 ≤ k → k + Z.of_nat n < 2 ^ 62 →
  is_pt n t -∗ free_pages l k -∗
  (∀ a used l' T, ⌜l = used ++ l' ∧ (length used ≤ n)%nat ∧ wrote n t ix used T⌝ -∗
     a ↦ pt_read t ix -∗ free_pages l' (k + Z.of_nat (length used)) -∗ (∀ w, a ↦ w -∗ is_pt n (T w)) -∗ Q (Some a)) -∗
  wpm (walk (addr t) ix true) Q.
Proof.
  revert t ix l k Q. induction n as [|n IH]; intros t ix l k Q Hlen Hix Hl Hk0 Hk; iIntros "Ht Ha HQ".
  - destruct ix as [|i [|]]; try done. apply Forall_cons in Hix as [Hi _]. destruct t as [p ws|]; [|done].
    iDestruct "Ht" as "[[%Hp %Hw] Hpg]".
    destruct (lookup_lt_is_Some_2 ws (Z.to_nat i)) as [w Ew]; [unfold index_ok, N_PTE_PER_TABLE in *; lia|].
    iDestruct (page_acc with "Hpg") as "[Hc Hpg]"; [done|]. rewrite Z2Nat.id; [|unfold index_ok in *; lia].
    iApply wpm_ret. iApply ("HQ" $! _ [] l with "[] [Hc] [Ha]"); [iPureIntro; split; [done|split; [cbn; lia|by apply wrote_leaf]]| |
      by rewrite Z.add_0_r|].
    + cbn [pt_read]. by rewrite Ew.
    + iIntros (w') "Hc". iSplitR; [iPureIntro; by rewrite length_insert|by iApply "Hpg"].
  - destruct ix as [|i [|j ix]]; try done. apply Forall_cons in Hix as [Hi Hix]. destruct t as [|p kids]; [done|].
    iApply wpm_bind. iApply (wpm_next_table with "Ht Ha"); [done|intros ->; cbn in Hl; lia|unfold count_ok; lia|].
    iIntros (t used l' (-> & Hu & Hkl & Hkid)) "Ht Ha Hback".
    rewrite length_app in Hl. cbn [or_null]. iApply (IH t (j :: ix) with "Ht Ha"); [by inversion Hlen|done|lia|lia|lia|].
    iIntros (a used' l'' T (-> & Hu' & HT)) "Hc Ha HT".
    iApply ("HQ" $! a (used ++ used') l'' with "[] [Hc] [Ha]").
    + iPureIntro. split_and!; [by rewrite app_assoc|rewrite length_app; lia|by eapply wrote_node].
    + by rewrite (pt_read_kid _ _ _ _ _ _ _ Hkid).
    + rewrite length_app Nat2Z.inj_add Z.add_assoc. done.
    + iIntros (w) "Hc". destruct (HT w) as [Hadr _]. iApply ("Hback" with "[//]"). by iApply "HT".
Qed.
End walk.

(** ** Addresses *)

Lemma path_ok va : Forall index_ok (path va).
Proof.
  unfold path, index_ok, N_PTE_PER_TABLE. rewrite VA_PART0_eq VA_PART1_eq VA_PART2_eq VA_PART3_eq.
  repeat constructor; apply Z.mod_pos_bound; lia.
Qed.

Lemma va_parts va : 0 ≤ va < 2 ^ 48 →
  va / 4096 = VA_PART3 va + 512 * (VA_PART2 va + 512 * (VA_PART1 va + 512 * VA_PART0 va)).
Proof.
  intros H. rewrite VA_PART0_eq VA_PART1_eq VA_PART2_eq VA_PART3_eq.
  change (2 ^ 39) with (4096 * 512 * 512 * 512). change (2 ^ 30) with (4096 * 512 * 512).
  change (2 ^ 21) with (4096 * 512). change (2 ^ 12) with 4096. rewrite -!Z.div_div //.
  pose proof (Z.div_mod (va / 4096) 512 ltac:(done)). pose proof (Z.div_mod (va / 4096 / 512) 512 ltac:(done)).
  pose proof (Z.div_mod (va / 4096 / 512 / 512) 512 ltac:(done)).
  rewrite (Z.mod_small (va / 4096 / 512 / 512 / 512)); [lia|]. rewrite !Z.div_div //.
  split; [apply Z.div_pos; lia|apply Z.div_lt_upper_bound; lia].
Qed.

(** Two addresses have the same path when they are in the same page. *)
Lemma path_eq va va' : 0 ≤ va < 2 ^ 48 → 0 ≤ va' < 2 ^ 48 → path va = path va' ↔ va / 4096 = va' / 4096.
Proof.
  intros H H'. rewrite (va_parts va) // (va_parts va') //. pose proof (path_ok va) as P. pose proof (path_ok va') as P'.
  unfold path, index_ok, N_PTE_PER_TABLE in *. rewrite !Forall_cons in P P'.
  split; [by intros [= -> -> -> ->]|]. intros E.
  destruct P as (A0 & A1 & A2 & A3 & _), P' as (B0 & B1 & B2 & B3 & _).
  assert (VA_PART3 va = VA_PART3 va') as -> by lia. assert (VA_PART2 va = VA_PART2 va') as -> by lia.
  assert (VA_PART1 va = VA_PART1 va') as -> by lia. assert (VA_PART0 va = VA_PART0 va') as -> by lia. done.
Qed.

(** ** Page directories *)

(** The page directory at [pgdir]: no table yet, or a tree of four levels. *)
Definition table (pgdir : Z) (ot : option tree) : hProp :=
  match ot with None => (pgdir ↦ 0)%I | Some t => (pgdir ↦ addr t ∗ is_pt 3 t)%I end.
Definition read_va (ot : option tree) (va : Z) : Z :=
  match ot with None => 0 | Some t => pt_read t (path va) end.
Definition table_pages (ot : option tree) : list Z := match ot with None => [] | Some t => tpages t end.

Section pgdir.
Context (pages alloc_page_cnt zero_page zero_page_cnt : Z).
Abbreviation next_table := (next_table pages alloc_page_cnt).
Abbreviation get_pte := (get_pte pages alloc_page_cnt).
Abbreviation root_table := (root_table pages alloc_page_cnt).
Abbreviation walk := (walk pages alloc_page_cnt).
Abbreviation allocator := (allocator pages alloc_page_cnt zero_page).
Abbreviation free_pages := (free_pages pages alloc_page_cnt).
Abbreviation free_pt_r := (free_pt_r pages alloc_page_cnt zero_page zero_page_cnt).

Lemma page_ok_ne0 p : page_ok p → p =? 0 = false.
Proof. intros [H _]. unfold KSPACE_MASK in H. lia. Qed.

(** The root: there, or made from one page. *)
Definition root_of (ot : option tree) (t : tree) (used : list Z) : Prop :=
  (ot = Some t ∧ used = []) ∨ (∃ q, ot = None ∧ used = [q] ∧ t = new_table 3 q).

Lemma wpm_root_table pgdir ot l k (Q : option Z → hProp) :
  l ≠ [] → count_ok k →
  table pgdir ot -∗ free_pages l k -∗
  (∀ t used l', ⌜l = used ++ l' ∧ (length used ≤ 1)%nat ∧ root_of ot t used⌝ -∗ pgdir ↦ addr t -∗ is_pt 3 t -∗
     free_pages l' (k + Z.of_nat (length used)) -∗ Q (Some (addr t))) -∗
  wpm (root_table pgdir true) Q.
Proof.
  iIntros (Hl Hk) "Ht Ha HQ". iApply wpm_bind. unfold count_ok in Hk. destruct ot as [t|].
  - iDestruct "Ht" as "[Hr Ht]". iApply (wpm_load with "Hr"). iIntros "Hr". iDestruct (is_pt_addr with "Ht") as %Hok.
    rewrite page_ok_ne0 //. iApply wpm_ret.
    iApply ("HQ" $! t [] l with "[] Hr Ht [Ha]"); [iPureIntro; split; [done|split; [cbn; lia|by left]]|by rewrite Z.add_0_r].
  - iApply (wpm_load with "Ht"). iIntros "Hr". destruct l as [|q l]; [done|].
    iApply wpm_bind. iApply (wpm_kalloc_page with "Ha"); [lia|]. iIntros "Ha Hq".
    iAssert ⌜page_ok q⌝%I as %Hq; [by iDestruct "Hq" as (?) "[[% _] _]"|].
    iApply wpm_bind. iApply (wpm_store with "Hr"). iIntros "Hr". iApply wpm_bind.
    iApply (wpm_zero_fill with "Hq"). iIntros "Hq". iApply wpm_ret. iDestruct (is_pt_new 3 with "Hq") as "Hq"; [done|].
    iApply ("HQ" $! (new_table 3 q) [q] l with "[] Hr Hq Ha"). iPureIntro. split; [done|split; [cbn; lia|right; eauto]].
Qed.

Lemma root_of_read ot t used va : root_of ot t used → read_va ot va = pt_read t (path va).
Proof. intros [[-> _]|(q & -> & _ & ->)]; [done|]. by rewrite pt_read_new. Qed.

Lemma root_of_pages ot t used : root_of ot t used → tpages t ≡ₚ used ++ table_pages ot.
Proof. intros [[-> ->]|(q & -> & -> & ->)]; [done|]. by rewrite tpages_new. Qed.

(** [va] gets the entry [w], from the pages [used]. *)
Definition mapped (ot : option tree) (va w : Z) (used : list Z) (ot' : option tree) : Prop :=
  table_pages ot' ≡ₚ used ++ table_pages ot ∧
  ∀ va', 0 ≤ va' < 2 ^ 48 → read_va ot' va' = if va' / 4096 =? va / 4096 then w else read_va ot va'.

Lemma wpm_get_pte pgdir ot va l k (Q : option Z → hProp) :
  0 ≤ va < 2 ^ 48 → (4 ≤ length l)%nat → 0 ≤ k < 2 ^ 62 - 8 →
  table pgdir ot -∗ free_pages l k -∗
  (∀ a used l' T, ⌜l = used ++ l' ∧ (length used ≤ 4)%nat ∧ (∀ w, mapped ot va w used (T w))⌝ -∗ a ↦ read_va ot va -∗
     free_pages l' (k + Z.of_nat (length used)) -∗ (∀ w, a ↦ w -∗ table pgdir (T w)) -∗ Q (Some a)) -∗
  wpm (get_pte pgdir va true) Q.
Proof.
  iIntros (Hva Hl Hk) "Ht Ha HQ". rewrite get_pte_walk. iApply wpm_bind.
  iApply (wpm_root_table with "Ht Ha"); [intros ->; cbn in Hl; lia|unfold count_ok; lia|].
  iIntros (t used l' (-> & Hu & Hr)) "Hr Ht Ha". rewrite length_app in Hl. cbn [or_null].
  iApply (wpm_walk with "Ht Ha"); [done|apply path_ok|lia|lia|lia|].
  iIntros (a used' l'' T (-> & Hu' & HT)) "Hc Ha HT". rewrite -(root_of_read _ _ _ _ Hr).
  iApply ("HQ" $! a (used ++ used') l'' (λ w, Some (T w)) with "[] Hc [Ha]").
  - iPureIntro. split; [by rewrite app_assoc|]. split; [rewrite length_app; lia|]. intros w. destruct (HT w) as (_ & H2 & H3). split.
    + cbn [table_pages]. rewrite H2 (root_of_pages _ _ _ Hr). solve_Permutation.
    + intros va' Hva'. cbn [read_va]. rewrite H3 //; [|apply path_ok]. rewrite (root_of_read _ _ _ va' Hr).
      pose proof (path_eq va' va Hva' Hva) as Hp. destruct (Z.eqb_spec (va' / 4096) (va / 4096)) as [E|E].
      * rewrite decide_True //. by apply Hp.
      * rewrite decide_False //. by intros ?%Hp.
  - rewrite length_app Nat2Z.inj_add Z.add_assoc. done.
  - iIntros (w) "Hc". destruct (HT w) as [Hadr _]. rewrite /table Hadr. iFrame "Hr". by iApply "HT".
Qed.

Lemma wpm_vmmap pgdir ot va ka flags l k (Q : unit → hProp) :
  0 ≤ va < 2 ^ 48 → (4 ≤ length l)%nat → 0 ≤ k < 2 ^ 62 - 8 →
  table pgdir ot -∗ free_pages l k -∗
  (∀ used l' ot', ⌜l = used ++ l' ∧ (length used ≤ 4)%nat ∧
       mapped ot va (Z.lor (Z.lor (K2P ka) flags) PTE_VALID) used ot'⌝ -∗
     free_pages l' (k + Z.of_nat (length used)) -∗ table pgdir ot' -∗ Q tt) -∗
  wpm (vmmap pages alloc_page_cnt pgdir va ka flags) Q.
Proof.
  iIntros (Hva Hl Hk) "Ht Ha HQ". iApply wpm_bind. iApply (wpm_get_pte with "Ht Ha"); [done..|].
  iIntros (a used l' T (-> & Hu & HT)) "Hc Ha HT". iApply wpm_bind. iApply wpm_ret.
  iApply (wpm_store with "Hc"). iIntros "Hc". iApply ("HQ" with "[] Ha"); [|by iApply "HT"]. iPureIntro. eauto.
Qed.

(** *** Without allocation *)

Lemma wpm_next_table_ro n p kids i (Q : option Z → hProp) :
  index_ok i →
  is_pt (S n) (Node p kids) -∗
  (match kids !! Z.to_nat i with
   | Some (Some t) => is_pt n t -∗ (is_pt n t -∗ is_pt (S n) (Node p kids)) -∗ Q (Some (addr t))
   | _ => is_pt (S n) (Node p kids) -∗ Q None
   end) -∗
  wpm (next_table p i false) Q.
Proof.
  iIntros (Hi) "Ht HQ". iAssert ⌜length kids = 512%nat⌝%I as %Hlen; [by iDestruct "Ht" as "[[_ %] _]"|].
  destruct (lookup_lt_is_Some_2 kids (Z.to_nat i)) as [kd Ek]; [unfold index_ok, N_PTE_PER_TABLE in *; lia|]. rewrite Ek.
  iDestruct (kid_acc with "Ht") as "(He & Hkid & Ht)"; [done|unfold index_ok in *; lia|].
  iApply wpm_bind. iApply (wpm_load with "He"). iIntros "He". destruct kd as [t|].
  - iDestruct (is_pt_addr with "Hkid") as %Hok. destruct (entry_some t Hok) as [-> ->]. iApply wpm_ret.
    iApply ("HQ" with "Hkid"). iIntros "Hk". iSpecialize ("Ht" with "He Hk"). by rewrite list_insert_id.
  - iApply wpm_ret. iApply "HQ". iSpecialize ("Ht" with "He Hkid"). by rewrite list_insert_id.
Qed.

(** The word [a] of a table is the entry at [ix]: it can be read, and written,
    which makes the table [T w]. *)
Definition cell (n : nat) (t : tree) (ix : list Z) (a : Z) (T : Z → tree) : Prop :=
  wrote n t ix [] T ∧ T (pt_read t ix) = t ∧ (is_pt n t ⊢ a ↦ pt_read t ix ∗ (∀ w, a ↦ w -∗ is_pt n (T w))).

Lemma cell_leaf p ws i : index_ok i → length ws = 512%nat → cell 0 (Leaf p ws) [i] (p + 8 * i) (λ w, Leaf p (<[Z.to_nat i := w]> ws)).
Proof.
  intros Hi Hl. destruct (lookup_lt_is_Some_2 ws (Z.to_nat i)) as [w Ew]; [unfold index_ok, N_PTE_PER_TABLE in *; lia|].
  split; [by apply wrote_leaf|]. cbn [pt_read]. rewrite Ew. cbn [default]. split; [by rewrite list_insert_id|].
  iIntros "[[%Hp %Hw] Hpg]". iDestruct (page_acc with "Hpg") as "[Hc Hpg]"; [done|]. rewrite Z2Nat.id; [|unfold index_ok in *; lia].
  iFrame "Hc". iIntros (w') "Hc". iSplitR; [iPureIntro; by rewrite length_insert|by iApply "Hpg"].
Qed.
Lemma cell_node n p kids i t ix a T : index_ok i → length kids = 512%nat → kids !! Z.to_nat i = Some (Some t) → cell n t ix a T →
  cell (S n) (Node p kids) (i :: ix) a (λ w, Node p (<[Z.to_nat i := Some (T w)]> kids)).
Proof.
  intros Hi Hl Ek (HT & Hid & Hacc). assert (Hkid : kid_of n kids i t []) by by left.
  split; [exact (wrote_node n p kids i t [] ix [] T Hi Hl Hkid HT)|]. rewrite (pt_read_kid n p kids i t [] ix Hkid).
  split; [by rewrite Hid list_insert_id|]. iIntros "Ht". iDestruct (kid_acc with "Ht") as "(He & Hkid & Ht)"; [done|unfold index_ok in *; lia|].
  iDestruct (Hacc with "Hkid") as "[$ Hk]". iIntros (w) "Hc". destruct (HT w) as [Hadr _]. iApply ("Ht" $! (Some (T w)) with "[He]").
  - unfold entry. by rewrite Hadr.
  - by iApply "Hk".
Qed.

(** The walk finds the entry, or stops at a missing table. *)
Lemma wpm_walk_ro n t ix (Q : option Z → hProp) :
  length ix = S n → Forall index_ok ix →
  is_pt n t -∗
  ((∀ a T, ⌜cell n t ix a T⌝ -∗ is_pt n t -∗ Q (Some a)) ∧ (⌜pt_read t ix = 0⌝ -∗ is_pt n t -∗ Q None)) -∗
  wpm (walk (addr t) ix false) Q.
Proof.
  revert t ix Q. induction n as [|n IH]; intros t ix Q Hlen Hix; iIntros "Ht HQ".
  - destruct ix as [|i [|]]; try done. apply Forall_cons in Hix as [Hi _]. destruct t as [p ws|]; [|done].
    iAssert ⌜length ws = 512%nat⌝%I as %Hl; [by iDestruct "Ht" as "[[_ %] _]"|]. iApply wpm_ret. iDestruct "HQ" as "[HQ _]".
    iApply ("HQ" with "[] Ht"). iPureIntro. by apply cell_leaf.
  - destruct ix as [|i [|j ix]]; try done. apply Forall_cons in Hix as [Hi Hix]. destruct t as [|p kids]; [done|].
    iAssert ⌜length kids = 512%nat⌝%I as %Hl; [by iDestruct "Ht" as "[[_ %] _]"|].
    iApply wpm_bind. iApply (wpm_next_table_ro with "Ht"); [done|].
    destruct (kids !! Z.to_nat i) as [[t|]|] eqn:Ek.
    + iIntros "Ht Hback". cbn [or_null]. iApply (IH t (j :: ix) with "Ht"); [by inversion Hlen|done|]. iSplit.
      * iIntros (a T HT) "Ht". iSpecialize ("Hback" with "Ht"). iDestruct "HQ" as "[HQ _]". iApply ("HQ" with "[] Hback"). iPureIntro. by eapply cell_node.
      * iIntros (H0) "Ht". iApply ("HQ" with "[]"); [|by iApply "Hback"]. iPureIntro. rewrite (pt_read_kid n p kids i t []); [done|by left].
    + iIntros "Ht". iApply wpm_ret. iApply ("HQ" with "[] Ht"). iPureIntro. cbn [pt_read]. by rewrite Ek.
    + iIntros "Ht". iApply wpm_ret. iApply ("HQ" with "[] Ht"). iPureIntro. cbn [pt_read]. by rewrite Ek.
Qed.

(** The word [a] is the entry of [va]. *)
Record entry_cell (pgdir : Z) (ot : option tree) (va a : Z) (T : Z → option tree) : Prop := {
  ec_mapped : ∀ w, mapped ot va w [] (T w);
  ec_same : T (read_va ot va) = ot;
  ec_acc : table pgdir ot ⊢ a ↦ read_va ot va ∗ (∀ w, a ↦ w -∗ table pgdir (T w));
}.

Lemma cell_entry pgdir t va a T : 0 ≤ va < 2 ^ 48 → cell 3 t (path va) a T → entry_cell pgdir (Some t) va a (λ w, Some (T w)).
Proof.
  intros Hva (HT & Hid & Hacc). split; [|by cbn [read_va]; rewrite Hid|].
  - intros w. destruct (HT w) as (_ & H2 & H3). split; [done|]. intros va' Hva'. cbn [read_va].
    rewrite H3 //; [|apply path_ok]. pose proof (path_eq va' va Hva' Hva) as Hp.
    destruct (Z.eqb_spec (va' / 4096) (va / 4096)) as [E|E]; [rewrite decide_True //; by apply Hp|rewrite decide_False //; by intros ?%Hp].
  - iIntros "[Hr Ht]". iDestruct (Hacc with "Ht") as "[$ Hb]". iIntros (w) "Hc". destruct (HT w) as [Hadr _]. rewrite /table Hadr. iFrame "Hr". by iApply "Hb".
Qed.

Lemma wpm_get_pte_ro pgdir ot va (Q : option Z → hProp) :
  0 ≤ va < 2 ^ 48 →
  table pgdir ot -∗
  ((∀ a T, ⌜entry_cell pgdir ot va a T⌝ -∗ table pgdir ot -∗ Q (Some a)) ∧ (⌜read_va ot va = 0⌝ -∗ table pgdir ot -∗ Q None)) -∗
  wpm (get_pte pgdir va false) Q.
Proof.
  iIntros (Hva) "Ht HQ". rewrite get_pte_walk. iApply wpm_bind. iApply wpm_bind. destruct ot as [t|].
  - iDestruct "Ht" as "[Hr Ht]". iApply (wpm_load with "Hr"). iIntros "Hr". iDestruct (is_pt_addr with "Ht") as %Hok.
    rewrite page_ok_ne0 //. iApply wpm_ret. cbn [or_null]. iApply (wpm_walk_ro with "Ht"); [done|apply path_ok|]. iSplit.
    + iIntros (a T HT) "Ht". iDestruct "HQ" as "[HQ _]". iApply ("HQ" $! a (λ w, Some (T w)) with "[]"); [|iFrame]. iPureIntro. by apply cell_entry.
    + iIntros (H0) "Ht". iApply ("HQ" with "[//]"). iFrame.
  - iApply (wpm_load with "Ht"). iIntros "Hr". do 2 iApply wpm_ret. by iApply ("HQ" with "[] Hr").
Qed.

(** The same with the entry at hand. *)
Lemma wpm_get_pte_rw pgdir ot va (Q : option Z → hProp) :
  0 ≤ va < 2 ^ 48 →
  table pgdir ot -∗
  ((∀ a T, ⌜entry_cell pgdir ot va a T⌝ -∗ a ↦ read_va ot va -∗ (∀ w, a ↦ w -∗ table pgdir (T w)) -∗ Q (Some a)) ∧
   (⌜read_va ot va = 0⌝ -∗ table pgdir ot -∗ Q None)) -∗
  wpm (get_pte pgdir va false) Q.
Proof.
  iIntros (Hva) "Ht HQ". iApply (wpm_get_pte_ro with "Ht"); [done|]. iSplit; [|by iDestruct "HQ" as "[_ $]"].
  iIntros (a T HT) "Ht". iDestruct (ec_acc _ _ _ _ _ HT with "Ht") as "[Hc Hb]". iDestruct "HQ" as "[HQ _]". by iApply ("HQ" with "[//] Hc").
Qed.

(** *** Freeing *)

(** What [body] does with an entry of a table: a subtree's pages go to the allocator. *)
Definition frees_kid (n : nat) (body : Z → M mem unit) : Prop :=
  (∀ t l k (Q : unit → hProp), Z.of_nat (length (tpages t)) ≤ k < 2 ^ 62 →
     is_pt n t -∗ allocator l k -∗
     (∀ l', ⌜l' ≡ₚ tpages t ++ l⌝ -∗ allocator l' (k - Z.of_nat (length (tpages t))) -∗ Q tt) -∗
     wpm (body (entry (Some t))) Q) ∧
  (∀ Q : unit → hProp, Q tt -∗ wpm (body 0) Q).

Lemma wpm_free_kids n kids p (Q : unit → hProp) body :
  frees_kid n body →
  length kids = 512%nat →
  ∀ m j l k, (j + m = 512)%nat → Z.of_nat (length (concat (map (λ k, kpages k) (drop j kids)))) ≤ k < 2 ^ 62 →
  page p (entry <$> kids) -∗ ([∗ list] kd ∈ drop j kids, kid_pt n kd) -∗ allocator l k -∗
  (∀ l', ⌜l' ≡ₚ concat (map (λ k, kpages k) (drop j kids)) ++ l⌝ -∗ page p (entry <$> kids) -∗
     allocator l' (k - Z.of_nat (length (concat (map (λ k, kpages k) (drop j kids))))) -∗ Q tt) -∗
  wpm (for_each (zseq (Z.of_nat j) N_PTE_PER_TABLE) (λ i, e ← load (p + 8 * i); body e)) Q.
Proof.
  intros [Hb Hb0] Hlen. induction m as [|m IH]; intros j l k Hj Hk; iIntros "Hp Hs Ha HQ".
  - rewrite zseq_nil; [|unfold N_PTE_PER_TABLE; lia]. rewrite drop_ge; [|lia]. iApply wpm_ret. cbn.
    iApply ("HQ" with "[//] Hp"). by rewrite Z.sub_0_r.
  - rewrite zseq_cons; [|unfold N_PTE_PER_TABLE; lia]. destruct (lookup_lt_is_Some_2 kids j) as [kd Ek]; [lia|].
    rewrite (drop_S _ _ _ Ek) in Hk |- *. cbn [map concat for_each] in *. rewrite length_app Nat2Z.inj_add in Hk |- *.
    rewrite big_sepL_cons. iDestruct "Hs" as "[Hkd Hs]".
    iDestruct (page_acc _ _ j (entry kd) with "Hp") as "[Hc Hp]"; [by rewrite list_lookup_fmap Ek|].
    iApply wpm_bind. iApply wpm_bind. iApply (wpm_load with "Hc"). iIntros "Hc". iSpecialize ("Hp" with "Hc").
    rewrite list_insert_id; [|by rewrite list_lookup_fmap Ek].
    replace (Z.of_nat j + 1) with (Z.of_nat (S j)) by lia. destruct kd as [t|].
    + iApply (Hb with "Hkd Ha"); [lia|]. iIntros (l' Hl') "Ha".
      iApply (IH with "Hp Hs Ha"); [lia|lia|]. iIntros (l'' Hl'') "Hp Ha".
      iApply ("HQ" $! l'' with "[] Hp"); [iPureIntro; rewrite Hl'' Hl'; solve_Permutation|]. by rewrite Z.sub_add_distr.
    + iApply Hb0. iApply (IH with "Hp Hs Ha"); [lia|cbn in Hk; lia|]. iIntros (l'' Hl'') "Hp Ha".
      by iApply ("HQ" with "[] Hp").
Qed.

Lemma is_pt_node n p kids :
  is_pt (S n) (Node p kids) =
  (⌜page_ok p ∧ length kids = 512%nat⌝ ∗ page p (entry <$> kids) ∗ [∗ list] kd ∈ drop 0 kids, kid_pt n kd)%I.
Proof. reflexivity. Qed.

Lemma wpm_free n t l k e num (Q : unit → hProp) :
  Z.of_nat n + num = 3 → 0 ≤ num → P2K (PTE_ADDRESS e) = addr t → e ≠ 0 → (num = 0 → e = addr t) →
  Z.of_nat (length (tpages t)) ≤ k < 2 ^ 62 →
  is_pt n t -∗ allocator l k -∗
  (∀ l', ⌜l' ≡ₚ tpages t ++ l⌝ -∗ allocator l' (k - Z.of_nat (length (tpages t))) -∗ Q tt) -∗
  wpm (free_pt_r n e num) Q.
Proof.
  revert t l k e num Q. induction n as [|n IH]; intros t l k e num Q Hn Hn0 Hadr He Hroot Hk; iIntros "Ht Ha HQ".
  - assert (num = 3) as -> by lia. destruct t as [p ws|]; [|done]. cbn [free_pt_r tpages addr length] in *.
    change (3 =? 3) with true. cbn iota. destruct (Z.eqb_spec e 0) as [|_]; [done|]. rewrite Hadr.
    iDestruct "Ht" as "[%Hp Hp]". iApply (wpm_kfree_page with "Ha [Hp]"); [lia|by iExists ws; iFrame|]. iIntros "Ha".
    by iApply "HQ".
  - destruct t as [|p kids]; [done|]. cbn [free_pt_r]. destruct (Z.eqb_spec num 3) as [|_]; [lia|].
    destruct (Z.eqb_spec e 0) as [|_]; [done|]. rewrite is_pt_node. iDestruct "Ht" as "([%Hp %Hlen] & Hp & Hs)". rewrite Hadr. cbn [addr] in *.
    assert ((if num =? 0 then e else p) = p) as ->. { destruct (Z.eqb_spec num 0); [by apply Hroot|done]. }
    cbn [tpages length] in *. iApply wpm_bind. assert (Hb : frees_kid n (λ e, free_pt_r n e (num + 1))).
    { split.
      - intros t l' k' Q' Hk'. iIntros "Ht Ha HQ". iDestruct (is_pt_addr with "Ht") as %Hok.
        destruct (table_entry _ Hok) as (E1 & _ & E3). iApply (IH with "Ht Ha HQ"); [lia|lia|done|done|lia|done].
      - intros Q'. iIntros "HQ". destruct n; cbn [free_pt_r]; destruct (num + 1 =? 3) eqn:E; try lia; by iApply wpm_ret. }
    iApply (wpm_free_kids n kids p _ _ Hb Hlen 512 0 with "Hp Hs Ha"); [done|rewrite drop_0; lia|].
    rewrite drop_0. iIntros (l' Hl') "Hp Ha".
    iApply (wpm_kfree_page with "Ha [Hp]"); [lia|iExists _; iFrame "Hp"; iPureIntro; by rewrite length_fmap|].
    iIntros "Ha". iApply ("HQ" $! (p :: l')); [iPureIntro; by rewrite Hl'|]. rewrite Nat2Z.inj_succ.
    by assert (∀ x, k - Z.succ x = k - x - 1) as -> by lia.
Qed.
End pgdir.

(** ** Properties *)

Section properties.
Context (pages alloc_page_cnt zero_page zero_page_cnt : Z).
Abbreviation allocator := (allocator pages alloc_page_cnt zero_page).

(** A free list with four pages is enough for any mapping. *)
Definition can_map (l : list Z) (k : Z) : Prop := (4 ≤ length l)%nat ∧ 0 ≤ k < 2 ^ 62 - 8.

(** What [vmmap] leaves: the tables with the new entry, and [allocator] without the pages it used. *)
Definition vmmap_post (pgdir va w : Z) (ot : option tree) (l : list Z) (k : Z) (h : mem) : Prop :=
  ∃ used l' ot', l = used ++ l' ∧ (length used ≤ 4)%nat ∧ mapped ot va w used ot' ∧
    holds (table pgdir ot' ∗ allocator l' (k + Z.of_nat (length used)))%I h.

(** C28: [vmmap] on any page directory and any 48-bit address: the entry of that
    page becomes the given frame with the flags and the valid bit, the entries
    of all other pages stay, at most four pages of the free list become
    tables and are counted, and no other memory changes. *)
Theorem vmmap_correct pgdir va ka flags ot l k h hf :
  0 ≤ va < 2 ^ 48 → can_map l k →
  holds (table pgdir ot ∗ allocator l k)%I h → h ##ₘ hf →
  wp (vmmap pages alloc_page_cnt pgdir va ka flags)
     (λ _ s', ∃ h', s' = h' ∪ hf ∧ h' ##ₘ hf ∧
        vmmap_post pgdir va (Z.lor (Z.lor (K2P ka) flags) PTE_VALID) ot l k h')
     (h ∪ hf).
Proof.
  intros Hva [Hl Hk] Hh Hd. eapply wp_mono.
  - eapply (wpm_adequate _ _ (λ _, ∃ used l' ot', ⌜l = used ++ l' ∧ (length used ≤ 4)%nat ∧
      mapped ot va (Z.lor (Z.lor (K2P ka) flags) PTE_VALID) used ot'⌝ ∗
      table pgdir ot' ∗ allocator l' (k + Z.of_nat (length used)))%I); [|exact Hh|done].
    iIntros "[Ht [Ha Hz]]". iApply (wpm_vmmap with "Ht Ha"); [done..|]. iIntros (used l' ot' H) "Ha Ht".
    iExists used, l', ot'. by iFrame.
  - intros [] s' (h' & -> & Hd' & used & l' & ot' & [(E & Hu & Hm) HQ]%holds_pure_sep). exists h'. split; [done|].
    split; [done|]. by exists used, l', ot'.
Qed.

(** [get_pte] that may not allocate changes no memory; it returns the
    address of the word that is the page's entry, or NULL, and then the page
    has no entry. *)
Theorem get_pte_lookup pgdir va ot h hf :
  0 ≤ va < 2 ^ 48 → holds (table pgdir ot) h → h ##ₘ hf →
  wp (get_pte pages alloc_page_cnt pgdir va false)
     (λ r s', ∃ h', s' = h' ∪ hf ∧ h' ##ₘ hf ∧ holds (table pgdir ot) h' ∧
        match r with Some a => h' !! a = Some (read_va ot va) | None => read_va ot va = 0 end)
     (h ∪ hf).
Proof.
  intros Hva Hh Hd. eapply wp_mono.
  - eapply (wpm_adequate _ _ (λ r, match r with
      | Some a => a ↦ read_va ot va ∗ (a ↦ read_va ot va -∗ table pgdir ot)
      | None => ⌜read_va ot va = 0⌝ ∗ table pgdir ot end)%I); [|exact Hh|done].
    iIntros "Ht". iApply (wpm_get_pte_rw with "Ht"); [done|]. iSplit; [|iIntros (H0) "Ht"; by iFrame].
    iIntros (a T HT) "Hc Hb". iFrame "Hc". iIntros "Hc". iSpecialize ("Hb" with "Hc"). by rewrite (ec_same _ _ _ _ _ HT).
  - intros [a|] s' (h' & -> & Hd' & HQ); exists h'; (split; [done|]; split; [done|]).
    + split.
      * eapply holds_entails; [|exact HQ]. iIntros "[Hc Hb]". by iApply "Hb".
      * refine (holds_entails _ (a ↦ read_va ot va)%I h' _ HQ). by iIntros "[$ _]".
    + by apply holds_pure_sep in HQ as [? ?].
Qed.

End properties.

(** ** Examples *)

Module PageTableExamples.

Fixpoint page_map (p : Z) (ws : list Z) : mem :=
  match ws with [] => ∅ | w :: ws => <[p := w]> (page_map (p + 8) ws) end.

Lemma page_map_below p ws q : q < p → page_map p ws !! q = None.
Proof.
  revert p. induction ws as [|w ws IH]; intros p Hq; [done|]. cbn [page_map]. rewrite lookup_insert_ne; [|lia]. apply IH. lia.
Qed.

Lemma page_map_holds p ws : holds (page p ws) (page_map p ws).
Proof.
  revert p. induction ws as [|w ws IH]; intros p; [done|]. cbn [page_map].
  apply (holds_entails (p ↦ w ∗ page (p + 8) ws)%I); [by rewrite page_cons|].
  apply holds_cell_sep; [apply page_map_below; lia|done].
Qed.

(** Free pages linked through their first words. *)
Fixpoint free_map (l : list Z) : mem :=
  match l with [] => ∅ | p :: l => page_map p (hd 0 l :: replicate 511 7) ∪ free_map l end.
Fixpoint free_ok (l : list Z) : Prop :=
  match l with [] => True | p :: l => page_ok p ∧ page_map p (hd 0 l :: replicate 511 7) ##ₘ free_map l ∧ free_ok l end.

Lemma is_list_cons p n ws l : page_ok p → length ws = 511%nat → (page p (n :: ws) ∗ is_list n l)%I ⊢ is_list p (p :: l).
Proof. iIntros (Hp Hl) "[Hp Hr]". iSplitR; [done|]. iExists n, ws. by iFrame. Qed.

Lemma free_map_holds l : free_ok l → holds (is_list (hd 0 l) l) (free_map l).
Proof.
  induction l as [|p l IH]; [done|]. intros (Hp & Hd & Hl). cbn [free_map is_list hd].
  apply (holds_entails _ _ _ (is_list_cons p (hd 0 l) (replicate 511 7) l Hp (length_replicate _ _))).
  apply holds_sep; [done|apply page_map_holds|by apply IH].
Qed.

Definition base : Z := 0xffff000000100000.
Definition five : list Z := (λ i, base + 4096 * i) <$> [0; 1; 2; 3; 4].
Definition alloc_mem (l : list Z) (k : Z) : mem := <[16 := hd 0 l]> (<[24 := k]> (<[32 := 0]> (free_map l))).

Ltac by_computation := apply (bool_decide_eq_true_1 _); vm_compute; reflexivity.

Lemma alloc_holds l k :
  free_ok l → free_map l !! 16 = None → free_map l !! 24 = None → free_map l !! 32 = None →
  holds (allocator 16 24 32 l k) (alloc_mem l k).
Proof.
  intros Hl H1 H2 H3. apply (holds_entails (16 ↦ hd 0 l ∗ 24 ↦ k ∗ 32 ↦ 0 ∗ is_list (hd 0 l) l)%I).
  { iIntros "(Hh & Hc & Hz & Hl)". iFrame "Hz". iExists (hd 0 l). iFrame. }
  unfold alloc_mem. apply holds_cell_sep; [by rewrite !lookup_insert_ne|].
  apply holds_cell_sep; [by rewrite !lookup_insert_ne|]. apply holds_cell_sep; [done|]. by apply free_map_holds.
Qed.

Lemma five_ok : free_ok five.
Proof. repeat (refine (conj _ (conj _ _)); [done|by_computation|]). exact I. Qed.

Definition start_mem : mem := <[8 := 0]> (alloc_mem five 0).
Lemma start_holds : holds (table 8 None ∗ allocator 16 24 32 five 0)%I start_mem.
Proof. apply holds_cell_sep; [by vm_compute|]. apply alloc_holds; [exact five_ok|by vm_compute..]. Qed.

Definition other : mem := {[1000 := 5]}.

Lemma vmmap_correct_witness :
  wp (vmmap 16 24 8 0x400000 (base + 0x5000) 0x40)
     (λ _ s', ∃ h', s' = h' ∪ other ∧ h' ##ₘ other ∧
        vmmap_post 16 24 32 8 0x400000 (Z.lor (Z.lor (K2P (base + 0x5000)) 0x40) PTE_VALID) None five 0 h')
     (start_mem ∪ other).
Proof.
  apply (vmmap_correct 16 24 32 8 0x400000 (base + 0x5000) 0x40 None five 0 start_mem other).
  - lia.
  - split; [cbn; lia|lia].
  - exact start_holds.
  - by_computation.
Defined.

(** What the code does there: four tables, and [get_pte] finds the entry. *)
Example vmmap_run :
  match vmmap 16 24 8 0x400000 (base + 0x5000) 0x40 (start_mem ∪ other) with
  | Ok (_, m) =>
      m !! 8 = Some base ∧ m !! 16 = Some (base + 0x4000) ∧ m !! 24 = Some 4 ∧
      m !! (base + 0x3000 + 0) = Some 0x105041 ∧
      (match get_pte 16 24 8 0x400123 false m with Ok (r, _) => r = Some (base + 0x3000) | Fail _ => False end) ∧
      (match get_pte 16 24 8 0x40000000 false m with Ok (r, _) => r = None | Fail _ => False end)
  | Fail _ => False
  end.
Proof. vm_compute. auto 10. Qed.

(** Four tables on one path, the last one with an entry. *)
Definition kid (t : tree) : list (option tree) := Some t :: replicate 511 None.
Definition leaf : tree := Leaf (base + 0x3000) (0x105041 :: replicate 511 0).
Definition level2 : tree := Node (base + 0x2000) (kid leaf).
Definition level1 : tree := Node (base + 0x1000) (kid level2).
Definition tree4 : tree := Node base (kid level1).
Definition table_map (p : Z) (t : tree) : mem := page_map p (entry <$> kid t).
Definition tree4_mem : mem :=
  <[8 := base]> (table_map base level1 ∪ (table_map (base + 0x1000) level2 ∪
    (table_map (base + 0x2000) leaf ∪ page_map (base + 0x3000) (0x105041 :: replicate 511 0)))).

Lemma length_kid t : length (kid t) = 512%nat.
Proof. cbn [kid length]. by rewrite length_replicate. Qed.

Lemma is_pt_kids n p t m :
  page_ok p → length (Some t :: replicate m None) = 512%nat →
  (page p (entry <$> Some t :: replicate m None) ∗ is_pt n t)%I ⊢ is_pt (S n) (Node p (Some t :: replicate m None)).
Proof.
  iIntros (Hp Hl) "[Hp Ht]". iSplitR; [done|]. iFrame "Hp". rewrite big_sepL_cons. iFrame "Ht".
  iApply big_sepL_intro. iIntros "!>" (i x [-> _]%lookup_replicate). done.
Qed.

Lemma is_pt_leaf p ws : page_ok p → length ws = 512%nat → page p ws ⊢ is_pt 0 (Leaf p ws).
Proof. iIntros (Hp Hl) "H". by iFrame. Qed.

Lemma kid_holds n p t h :
  page_ok p → holds (is_pt n t) h → table_map p t ##ₘ h → holds (is_pt (S n) (Node p (kid t))) (table_map p t ∪ h).
Proof.
  intros Hp Ht Hd. apply (holds_entails _ _ _ (is_pt_kids n p t 511 Hp (length_kid t))).
  apply holds_sep; [done|apply page_map_holds|done].
Qed.

Lemma tree4_holds : holds (table 8 (Some tree4)) tree4_mem.
Proof.
  apply holds_cell_sep; [by_computation|]. apply kid_holds; [done| |by_computation].
  apply kid_holds; [done| |by_computation]. apply kid_holds; [done| |by_computation].
  apply (holds_entails _ _ _ (is_pt_leaf (base + 0x3000) (0x105041 :: replicate 511 0) ltac:(done) eq_refl)). apply page_map_holds.
Qed.

Lemma get_pte_lookup_witness :
  wp (get_pte 16 24 8 0x123 false)
     (λ r s', ∃ h', s' = h' ∪ other ∧ h' ##ₘ other ∧ holds (table 8 (Some tree4)) h' ∧
        match r with Some a => h' !! a = Some (read_va (Some tree4) 0x123) | None => read_va (Some tree4) 0x123 = 0 end)
     (tree4_mem ∪ other).
Proof. apply (get_pte_lookup 16 24 8 0x123 (Some tree4) tree4_mem other ltac:(lia) tree4_holds). by_computation. Defined.


End PageTableExamples.
