(* ===== verification/Paging.v ===== *)
(** * Demand paging and swapping

    [src/kernel/paging.c], with what [src/kernel/mem.c] and [src/kernel/pt.c]
    have for it: sections of an address space, [sbrk], the page fault handler,
    and moving the pages of a section to the swap blocks of the disk and back.

    The page tables, the pages and the allocator are in the memory of
    [SepLogic.v]; the page directories' sections, locks and [online] flags, the
    process that runs and the swap device are state next to it.  A page
    directory is known by its address, whose first word is [pt]; its sections
    are the sequence that the ring at [section_head] goes through.  The swap
    device is the interface of [SwapDev.v].  [PageSwap.v] has what [swapout] and
    [swapin] do together.

    One thread: a spin lock that is held, or a process that has to go off line,
    is waited for for ever. *)

From iris.proofmode Require Import proofmode.
From S2P Require Import Prelude FsLayout BlockCache SwapDev SepLogic Pages PageTable.
#[local] Open Scope Z_scope.

(** ** Data *)

Definition ST_FILE : Z := 1.
Definition ST_SWAP : Z := Z.shiftl 1 1.
Definition ST_HEAP : Z := Z.shiftl 1 3.
Definition PTE_RO : Z := Z.shiftl 1 7.
Definition PTE_RW : Z := Z.shiftl 0 7.
Definition AF_USED : Z := Z.shiftl 1 10.
Definition SH_OUTER : Z := Z.shiftl 2 8.
Definition PTE_NORMAL : Z := Z.lor (Z.lor (Z.shiftl 1 2) AF_USED) SH_OUTER.
Definition PTE_USER : Z := Z.shiftl 1 6.
Definition PTE_PAGE : Z := 3.
Definition PTE_USER_DATA : Z := Z.lor (Z.lor PTE_USER PTE_NORMAL) PTE_PAGE.
Definition REVERSED_PAGES : Z := 1024.


(** [struct section]; [sleeplock] says whether the lock is held. *)
Record section : Type := mkSection { flags : Z; sbegin : Z; send : Z; sleeplock : bool }.

(** [struct pgdir] without [pt]. *)
Record pgdir : Type := mkPgdir { sections : list section; online : bool; lock : bool }.

(** The page directories, that of [thisproc()], the translation register, and
    the swap device. *)
Record vm (S : Type) : Type := mkVm { dirs : gmap Z pgdir; this : Z; ttbr0 : Z; store_of : S }.
Arguments mkVm {S} _ _ _ _.
Arguments dirs {S} _.
Arguments this {S} _.
Arguments ttbr0 {S} _.
Arguments store_of {S} _.

(** ** Code *)

Section code.
Context {S : Type} `{SwapOps S}.
(** Addresses of static variables, of [end], of the empty table; the end of the
    memory; and what [get_offline_proc] finds. *)
Context (pages alloc_page_cnt zero_page zero_page_cnt : Z) (end_ invalid_pt PHYSTOP : Z) (get_offline_proc : vm S → option Z).
Abbreviation M := (M (mem * vm S)).
Abbreviation kalloc_page := (kalloc_page pages alloc_page_cnt).
Abbreviation kfree_page := (kfree_page pages alloc_page_cnt zero_page zero_page_cnt).
Abbreviation get_pte := (get_pte pages alloc_page_cnt).
Abbreviation vmmap := (vmmap pages alloc_page_cnt).

Definition set_dirs (x : gmap Z pgdir) (r : vm S) : vm S := mkVm x r.(this) r.(ttbr0) r.(store_of).
Definition set_ttbr0 (t : Z) (r : vm S) : vm S := mkVm r.(dirs) r.(this) t r.(store_of).
Definition set_store (s : S) (r : vm S) : vm S := mkVm r.(dirs) r.(this) r.(ttbr0) s.
Definition with_online (b : bool) (d : pgdir) : pgdir := mkPgdir d.(sections) b d.(lock).
Definition with_lock (b : bool) (d : pgdir) : pgdir := mkPgdir d.(sections) d.(online) b.
Definition with_sections (l : list section) (d : pgdir) : pgdir := mkPgdir l d.(online) d.(lock).
Definition with_flags (f : Z) (s : section) : section := mkSection f s.(sbegin) s.(send) s.(sleeplock).
Definition with_end (e : Z) (s : section) : section := mkSection s.(flags) s.(sbegin) e s.(sleeplock).
Definition with_sleeplock (b : bool) (s : section) : section := mkSection s.(flags) s.(sbegin) s.(send) b.

Definition get_dir (d : Z) : Prelude.M (vm S) pgdir := m ← gets dirs; deref (m !! d).
Definition upd_dir (d : Z) (f : pgdir → pgdir) : Prelude.M (vm S) unit :=
  x ← get_dir d; modify (λ r, set_dirs (<[d := f x]> r.(dirs)) r).
Definition get_section (d : Z) (i : nat) : Prelude.M (vm S) section := x ← get_dir d; deref (x.(sections) !! i).
Definition upd_section (d : Z) (i : nat) (f : section → section) : Prelude.M (vm S) unit :=
  x ← get_dir d; s ← deref (x.(sections) !! i); upd_dir d (with_sections (<[i := f s]> x.(sections))).
Definition on_store {A} (m : Prelude.M S A) : Prelude.M (vm S) A := zoom store_of set_store m.

(** [_acquire_spinlock(&pgdir->lock)] and its inverse *)
Definition acquire_lock (d : Z) : Prelude.M (vm S) unit :=
  x ← get_dir d; if x.(lock) then fail Asleep else upd_dir d (with_lock true).
Definition release_lock (d : Z) : Prelude.M (vm S) unit := upd_dir d (with_lock false).

(** *** [kernel/pt.c] *)

Definition attach_pgdir (d : Z) : M unit :=
  t ← on_rest (gets this);
  on_rest (acquire_lock t ;; upd_dir t (with_online false) ;; release_lock t) ;;
  pt ← on_mem (load d);
  if negb (pt =? 0) then
    on_rest (acquire_lock d ;; upd_dir d (with_online true) ;; release_lock t ;; modify (set_ttbr0 (K2P pt)))
  else on_rest (modify (set_ttbr0 (K2P invalid_pt))).

(** *** [kernel/mem.c] *)

Definition total_page : Z := i32 (u64 (P2K PHYSTOP - (PAGE_BASE end_ + PAGE_SIZE)) / PAGE_SIZE).
Definition page2index (p : Z) : Z := i32 (u64 (p - (PAGE_BASE end_ + PAGE_SIZE)) / PAGE_SIZE).

(** The free list at the start of the kernel: [for (p = lo; p < hi; p += PAGE_SIZE)]. *)
Definition page_steps (lo hi : Z) : list Z := (λ k, lo + k * PAGE_SIZE) <$> zseq 0 ((hi - lo + PAGE_SIZE - 1) / PAGE_SIZE).
Definition init_pages : Prelude.M mem unit :=
  for_each (page_steps (PAGE_BASE end_ + PAGE_SIZE) (P2K PHYSTOP)) (add_to_queue pages).

Definition left_page_cnt : M Z := c ← on_mem (load alloc_page_cnt); mret (u64 (i64 (total_page - c))).

(** [memcpy] between memory and a block, which is 64 words. *)
Definition BLOCK_WORDS : nat := 64.
Fixpoint load_words (p : Z) (n : nat) : Prelude.M mem (list Z) :=
  match n with O => mret [] | Datatypes.S n => w ← load p; ws ← load_words (p + 8) n; mret (w :: ws) end.
Fixpoint store_words (p : Z) (ws : list Z) : Prelude.M mem unit :=
  match ws with [] => mret tt | w :: ws => store p w ;; store_words (p + 8) ws end.
Definition bytes_of (ws : list Z) : list Z := concat (le_bytes 8 <$> ws).
Fixpoint words_of (n : nat) (bs : list Z) : list Z :=
  match n with O => [] | Datatypes.S n => le_value (take 8 bs) :: words_of n (drop 8 bs) end.

Definition write_block (ka first : Z) (i : Z) : M unit :=
  block ← on_rest (on_store (sw_acquire (u32 (first + i))));
  t ← on_rest (gets this);
  attach_pgdir t ;;
  t ← on_rest (gets this);
  pte_p ← on_mem (get_pte t (u64 (ka + i * BLOCK_SIZE)) false);
  match pte_p with
  | Some a =>
      e ← on_mem (load a);
      if e =? 0 then mret tt
      else
        ws ← on_mem (load_words (P2K (PTE_ADDRESS e)) BLOCK_WORDS);
        on_rest (on_store (sw_store block (bytes_of ws) ;; sw_sync block))
  | None => mret tt
  end ;;
  on_rest (on_store (sw_release block)).

Definition write_page_to_disk (ka : Z) : M Z :=
  first_bno ← on_rest (on_store find_and_set_8_blocks);
  for_each (zseq 0 8) (write_block ka first_bno) ;;
  mret first_bno.

Definition read_block (ka bno : Z) (i : Z) : M unit :=
  block ← on_rest (on_store (sw_acquire (u32 (bno + i))));
  d ← on_rest (on_store (sw_load block));
  on_mem (store_words (ka + i * BLOCK_SIZE) (words_of BLOCK_WORDS d)) ;;
  on_rest (on_store (sw_release block)).

Definition read_page_from_disk (ka bno : Z) : M unit :=
  if Z.land ka KSPACE_MASK =? 0 then panic else for_each (zseq 0 8) (read_block ka bno).

(** *** [kernel/paging.c] *)

Definition init_sections (d : Z) : Prelude.M (vm S) unit :=
  upd_dir d (λ x, with_sections (x.(sections) ++ [mkSection (Z.lor 0 ST_HEAP) 0 0 false]) x).

Definition has (s : section) (f : Z) : bool := negb (Z.land s.(flags) f =? 0).

(** [for (p = lo; p <= hi; p += PAGE_SIZE)] *)
Definition page_range (lo hi : Z) : list Z := (λ k, lo + k * PAGE_SIZE) <$> zseq 0 ((hi - lo) / PAGE_SIZE + 1).

(** [pte_p != NULL && *pte_p != 0] *)
Definition entry_at (d va : Z) : Prelude.M mem (option (Z * Z)) :=
  r ← get_pte d va false;
  match r with
  | None => mret None
  | Some a => e ← load a; mret (if e =? 0 then None else Some (a, e))
  end.

(** The body of the loop of [sbrk]. *)
Definition drop_page (d : Z) (i : nat) : M unit :=
  on_rest (upd_section d i (λ s, with_end (u64 (s.(send) - PAGE_SIZE)) s)) ;;
  s ← on_rest (get_section d i);
  pte_p ← on_mem (get_pte d s.(send) false);
  match pte_p with
  | Some a =>
      e ← on_mem (load a);
      (if negb (e =? 0) && (Z.land e PTE_VALID =? 0) then on_rest (on_store (release_8_blocks (u32 (Z.shiftr e 12))))
       else if negb (e =? 0) && negb (Z.land e PTE_VALID =? 0) then on_mem (kfree_page (P2K (PTE_ADDRESS e)))
       else mret tt) ;;
      on_mem (store a 0)
  | None => mret tt
  end.

Definition find_section (f : section → bool) (l : list section) : option nat := fst <$> list_find f l.

Definition sbrk (size : Z) : M Z :=
  d ← on_rest (gets this);
  x ← on_rest (get_dir d);
  match find_section (λ s, has s ST_HEAP) x.(sections) with
  | None => panic
  | Some i =>
      s ← on_rest (get_section d i);
      let ret_addr := s.(send) in
      let sz := i64 (size * PAGE_SIZE) in
      (if 0 <=? size then on_rest (upd_section d i (λ s, with_end (u64 (s.(send) + sz)) s))
       else
         let sz := i64 (sz * -1) in
         if sz <=? i64 (u64 (s.(send) - s.(sbegin))) then
           for_each (zseq 0 (sz / PAGE_SIZE)) (λ _, drop_page d i)
         else panic) ;;
      mret ret_addr
  end.

(** [while (1)]: the lock, once the page directory is not in use by another
    process. *)
Definition lock_offline (d : Z) : M unit :=
  on_rest (
    acquire_lock d ;;
    t ← gets this;
    x ← get_dir d;
    if negb (negb (t =? d) && x.(online)) then mret tt else release_lock d ;; fail Asleep).

Definition acquire_sleeplock (d : Z) (i : nat) : Prelude.M (vm S) unit :=
  s ← get_section d i; if s.(sleeplock) then fail Asleep else upd_section d i (with_sleeplock true).
Definition release_sleeplock (d : Z) (i : nat) : Prelude.M (vm S) unit := upd_section d i (with_sleeplock false).

(** The bodies of the two loops of [swapout]. *)
Definition invalidate (d va : Z) : M unit :=
  on_mem (r ← entry_at d va;
          match r with Some (a, e) => store a (Z.land e (u64 (Z.lnot PTE_VALID))) | None => mret tt end).
Definition page_out (d p : Z) : M unit :=
  r ← on_mem (entry_at d p);
  match r with
  | Some (a, _) =>
      bno ← write_page_to_disk p;
      e ← on_mem (load a);
      on_mem (kfree_page (P2K (PTE_ADDRESS e))) ;;
      on_mem (store a (Z.land (u32 (Z.shiftl bno 12)) (u32 (Z.lnot PTE_VALID))))
  | None => mret tt
  end.

Definition swapout (d : Z) (i : nat) : M unit :=
  lock_offline d ;;
  st ← on_rest (get_section d i);
  assert_ (negb (has st ST_SWAP)) ;;
  on_rest (upd_section d i (λ s, with_flags (Z.lor s.(flags) ST_SWAP) s)) ;;
  for_each (page_range st.(sbegin) st.(send)) (invalidate d) ;;
  on_rest (acquire_sleeplock d i) ;;
  on_rest (release_lock d) ;;
  st' ← on_rest (get_section d i);
  (if has st' ST_FILE then mret tt else for_each (page_range st.(sbegin) st.(send)) (page_out d)) ;;
  on_rest (release_sleeplock d i).

(** The last section of [get_offline_proc()] is moved out until there are pages. *)
Fixpoint alloc_page_for_user (fuel : nat) : M Z :=
  left ← left_page_cnt;
  if left <=? REVERSED_PAGES then
    match fuel with
    | O => fail OutOfFuel
    | Datatypes.S fuel =>
        o ← on_rest (gets get_offline_proc);
        d ← deref o;
        x ← on_rest (get_dir d);
        (if (length x.(sections) =? 0)%nat then fail Asleep else swapout d (length x.(sections) - 1)) ;;
        alloc_page_for_user fuel
    end
  else on_mem kalloc_page.

(** The bodies of the two loops of [swapin]. *)
Definition page_in (fuel : nat) (d p : Z) : M unit :=
  r ← on_mem (entry_at d p);
  match r with
  | Some (a, _) =>
      page_p ← alloc_page_for_user fuel;
      e ← on_mem (load a);
      read_page_from_disk page_p (u32 (Z.shiftr e 12)) ;;
      e ← on_mem (load a);
      on_rest (on_store (release_8_blocks (u32 (Z.shiftr e 12)))) ;;
      on_mem (vmmap d p page_p PTE_USER_DATA)
  | None => mret tt
  end.
Definition validate (d va : Z) : M unit :=
  on_mem (r ← entry_at d va;
          match r with Some (a, e) => store a (Z.lor e PTE_VALID) | None => mret tt end).

Definition swapin (fuel : nat) (d : Z) (i : nat) : M unit :=
  st ← on_rest (get_section d i);
  assert_ (has st ST_SWAP) ;;
  on_rest (acquire_sleeplock d i) ;;
  for_each (page_range st.(sbegin) st.(send)) (page_in fuel d) ;;
  on_rest (release_sleeplock d i) ;;
  for_each (page_range st.(sbegin) st.(send)) (validate d) ;;
  on_rest (upd_section d i (λ s, with_flags (Z.land s.(flags) (u64 (Z.lnot ST_SWAP))) s)).

(** A page of its own for [addr]. *)
Definition map_new_page (fuel : nat) (d addr : Z) : M unit :=
  page ← alloc_page_for_user fuel;
  on_mem (vmmap d addr page (Z.lor PTE_USER_DATA PTE_RW)).

(** [addr] is the fault address register. *)
Definition pgfault (fuel : nat) (addr : Z) : M Z :=
  d ← on_rest (gets this);
  x ← on_rest (get_dir d);
  match find_section (λ s, (s.(sbegin) <=? addr) && (addr <? s.(send))) x.(sections) with
  | None => panic
  | Some i =>
      s ← on_rest (get_section d i);
      r ← on_mem (entry_at d addr);
      match r with
      | None => (if has s ST_SWAP then swapin fuel d i else map_new_page fuel d addr) ;; mret 0
      | Some (_, e) =>
          if negb (Z.land e PTE_RO =? 0) then
            on_mem (kfree_page (P2K (PTE_ADDRESS e))) ;;
            map_new_page fuel d addr ;;
            mret 0
          else if Z.land e PTE_VALID =? 0 then
            (if has s ST_SWAP then swapin fuel d i else map_new_page fuel d addr) ;; mret 0
          else mret (-1)
      end
  end.

(** The body of the inner loop of [free_sections]. *)
Definition free_entry (d addr : Z) : M unit :=
  pte_p ← on_mem (get_pte d addr false);
  match pte_p with
  | Some a =>
      e ← on_mem (load a);
      if (Z.land e PTE_VALID =? 0) && negb (e =? 0) then on_rest (on_store (release_8_blocks (u32 (Z.shiftr e 12))))
      else on_mem (kfree_page (P2K (PTE_ADDRESS e)))
  | None => mret tt
  end.

Definition free_sections (d : Z) : M unit :=
  x ← on_rest (get_dir d);
  for_each x.(sections) (λ s,
    for_each (page_steps s.(sbegin) s.(send)) (free_entry d) ;;
    on_rest (upd_dir d (λ x, with_sections (tail x.(sections)) x))).

(** *** [kernel/pt.c], continued *)

Definition init_pgdir (d : Z) : M unit :=
  on_mem (store d 0) ;;
  on_rest (modify (λ r, set_dirs (<[d := mkPgdir [] false false]> r.(dirs)) r)) ;;
  on_rest (init_sections d) ;;
  r ← on_mem (get_pte d 0 true);
  assert_ (bool_decide (is_Some r)).

Definition free_pgdir (d : Z) : M unit :=
  free_sections d ;;
  on_mem (free_pt pages alloc_page_cnt zero_page zero_page_cnt d).
End code.

(** ** What an entry of a page table is *)

Inductive kind : Type := Empty | Frame (p f : Z) | Slot (m : nat).
Definition word_of (k : kind) : Z :=
  match k with Empty => 0 | Frame p f => Z.lor (K2P p) f | Slot m => Z.shiftl (slot_block m) 12 end.
Definition kind_ok (k : kind) : Prop :=
  match k with Empty => True | Frame p f => page_ok p ∧ 0 ≤ f < 4096 ∧ Z.land f PTE_VALID = 1 | Slot m => (m < SLOTS)%nat end.
Definition frames (k : kind) : list Z := match k with Frame p _ => [p] | _ => [] end.
Definition slots (k : kind) : gset nat := match k with Slot m => {[m]} | _ => ∅ end.
Definition own (k : kind) : hProp := match k with Frame p _ => any_page p | _ => emp%I end.

Lemma slot_word m : (m < SLOTS)%nat →
  word_of (Slot m) = slot_block m * 4096 ∧ word_of (Slot m) ≠ 0 ∧ Z.land (word_of (Slot m)) PTE_VALID = 0 ∧
  Z.land (word_of (Slot m)) PTE_RO = 0 ∧ u32 (Z.shiftr (word_of (Slot m)) 12) = slot_block m ∧
  Z.land (u32 (word_of (Slot m))) (u32 (Z.lnot PTE_VALID)) = word_of (Slot m).
Proof.
  unfold SLOTS. intros Hm. do 25 (destruct m as [|m]; [by vm_compute|]). lia.
Qed.
Lemma frame_word p f : kind_ok (Frame p f) →
  word_of (Frame p f) ≠ 0 ∧ Z.land (word_of (Frame p f)) PTE_VALID = 1 ∧ P2K (PTE_ADDRESS (word_of (Frame p f))) = p ∧
  Z.land (word_of (Frame p f)) PTE_RO = Z.land f PTE_RO.
Proof.
  intros (Hp & Hf & Hv). destruct (flags_entry p f Hp Hf) as (E1 & E2 & E3). cbn [word_of]. rewrite !E2 //. split_and!; [lia|done..].
Qed.
Lemma word_zero k : kind_ok k → word_of k = 0 → k = Empty.
Proof. destruct k as [|p f|m]; [done| |]; intros Hk; [by destruct (frame_word p f Hk)|by destruct (slot_word m Hk) as (_ & ? & _)]. Qed.

(** ** Steps *)

Section steps.
Context {S : Type} `{SwapLaws S}.
Context (pages alloc_page_cnt zero_page zero_page_cnt : Z).
Implicit Types r : vm S.
Abbreviation free_pages := (free_pages pages alloc_page_cnt).

Lemma wpv_rest_bind {A B} (m : Prelude.M (vm S) A) (f : A → M (mem * vm S) B) (Q : B → vm S → hProp) r a r' :
  m r = Ok (a, r') → wpv (f a) Q r' ⊢ wpv (on_rest m ≫= f) Q r.
Proof. intros E. iIntros "H". iApply wpv_bind. by iApply wpv_rest. Qed.
Lemma wpv_mem_bind {A B} (m : Prelude.M mem A) (f : A → M (mem * vm S) B) (Q : B → vm S → hProp) r :
  wpm m (λ a, wpv (f a) Q r) ⊢ wpv (on_mem m ≫= f) Q r.
Proof. iIntros "H". iApply wpv_bind. by iApply wpv_mem. Qed.

Lemma get_dir_run r d x : r.(dirs) !! d = Some x → get_dir d r = Ok (x, r).
Proof. intros Hd. unfold get_dir. rewrite (bind_Ok _ _ r r.(dirs) r) // Hd //. Qed.
Definition put_dir (d : Z) (x : pgdir) r : vm S := set_dirs (<[d := x]> r.(dirs)) r.
Lemma upd_dir_run r d x f : r.(dirs) !! d = Some x → upd_dir d f r = Ok (tt, put_dir d (f x) r).
Proof. intros Hd. unfold upd_dir. by rewrite (bind_Ok _ _ _ _ _ (get_dir_run r d x Hd)). Qed.
Lemma put_dir_lookup r d x : (put_dir d x r).(dirs) !! d = Some x.
Proof. apply lookup_insert_eq. Qed.
Lemma put_put_dir r d x y : put_dir d x (put_dir d y r) = put_dir d x r.
Proof. unfold put_dir, set_dirs. cbn. by rewrite insert_insert_eq. Qed.

Definition put_section (i : nat) (s : section) (x : pgdir) : pgdir := with_sections (<[i := s]> x.(sections)) x.
Lemma get_section_run r d x i s : r.(dirs) !! d = Some x → x.(sections) !! i = Some s → get_section d i r = Ok (s, r).
Proof. intros Hd Hs. unfold get_section. by rewrite (bind_Ok _ _ _ _ _ (get_dir_run r d x Hd)) Hs. Qed.
Lemma upd_section_run r d x i s f : r.(dirs) !! d = Some x → x.(sections) !! i = Some s →
  upd_section d i f r = Ok (tt, put_dir d (put_section i (f s) x) r).
Proof.
  intros Hd Hs. unfold upd_section. rewrite (bind_Ok _ _ _ _ _ (get_dir_run r d x Hd)) Hs (bind_Ok (deref (Some s)) _ r s r) //.
  by rewrite (upd_dir_run r d x).
Qed.
Lemma on_store_run {A} (m : Prelude.M S A) r a s' : m r.(store_of) = Ok (a, s') → on_store m r = Ok (a, set_store s' r).
Proof. intros E. unfold on_store, zoom. by rewrite E. Qed.

(** A slot given back. *)
Lemma release_run r U V m : swap_at r.(store_of) U V None → (m < SLOTS)%nat → m ∈ U →
  ∃ s', on_store (release_8_blocks (slot_block m)) r = Ok (tt, set_store s' r) ∧ swap_at s' (U ∖ {[m]}) V None.
Proof. intros Hs Hm Hu. destruct (law_release8 _ U V m Hs Hm Hu) as (s' & E & Hs'). exists s'. split; [by apply on_store_run|done]. Qed.

Lemma read_same_page ot va va' : 0 ≤ va < 2 ^ 48 → 0 ≤ va' < 2 ^ 48 → va / 4096 = va' / 4096 → read_va ot va = read_va ot va'.
Proof. intros Hva Hva' E. destruct ot as [t|]; [|done]. cbn [read_va]. by rewrite (proj2 (path_eq va va' Hva Hva') E). Qed.
(** The entry of a page does not change when it is written with itself. *)
Lemma mapped_same ot va : 0 ≤ va < 2 ^ 48 → mapped ot va (read_va ot va) [] ot.
Proof.
  intros Hva. split; [done|]. intros va' Hva'. destruct (Z.eqb_spec (va' / 4096) (va / 4096)) as [E|]; [by apply read_same_page|done].
Qed.

Lemma wpm_entry_at d ot va (Q : option (Z * Z) → hProp) : 0 ≤ va < 2 ^ 48 →
  table d ot -∗
  ((∀ a T, ⌜entry_cell d ot va a T ∧ read_va ot va ≠ 0⌝ -∗ table d ot -∗ Q (Some (a, read_va ot va))) ∧
   (⌜read_va ot va = 0⌝ -∗ table d ot -∗ Q None)) -∗
  wpm (entry_at pages alloc_page_cnt d va) Q.
Proof.
  iIntros (Hva) "Ht HQ". iApply wpm_bind. iApply (wpm_get_pte_rw with "Ht"); [done|]. iSplit.
  - iIntros (a T HT) "Hc Hb". iApply wpm_bind. iApply (wpm_load with "Hc"). iIntros "Hc". iApply wpm_ret.
    iSpecialize ("Hb" with "Hc"). rewrite (ec_same _ _ _ _ _ HT). destruct (Z.eqb_spec (read_va ot va) 0) as [E|E].
    + iDestruct "HQ" as "[_ HQ]". by iApply ("HQ" with "[//]").
    + iDestruct "HQ" as "[HQ _]". by iApply ("HQ" $! a T with "[//]").
  - iIntros (E) "Ht". iApply wpm_ret. iDestruct "HQ" as "[_ HQ]". by iApply "HQ".
Qed.

(** Reading and writing the entry found. *)
Lemma wpm_load_entry d ot va a T (Q : Z → hProp) : entry_cell d ot va a T →
  table d ot -∗ (table d ot -∗ Q (read_va ot va)) -∗ wpm (load a) Q.
Proof.
  iIntros (HT) "Ht HQ". iDestruct (ec_acc _ _ _ _ _ HT with "Ht") as "[Hc Hb]". iApply (wpm_load with "Hc"). iIntros "Hc".
  iApply "HQ". iSpecialize ("Hb" with "Hc"). by rewrite (ec_same _ _ _ _ _ HT).
Qed.
Lemma wpm_store_entry d ot va a T w (Q : unit → hProp) : entry_cell d ot va a T →
  table d ot -∗ (∀ ot', ⌜mapped ot va w [] ot'⌝ -∗ table d ot' -∗ Q tt) -∗ wpm (store a w) Q.
Proof.
  iIntros (HT) "Ht HQ". iDestruct (ec_acc _ _ _ _ _ HT with "Ht") as "[Hc Hb]". iApply (wpm_store with "Hc"). iIntros "Hc".
  iApply ("HQ" with "[]"); [|by iApply "Hb"]. iPureIntro. apply HT.
Qed.

(** *** [sbrk] *)

Abbreviation drop_page := (drop_page pages alloc_page_cnt zero_page zero_page_cnt).
Abbreviation sbrk := (sbrk pages alloc_page_cnt zero_page zero_page_cnt).

(** Section [i] of the page directory [d], that of the running process. *)
Definition section_at r (d : Z) (x : pgdir) (i : nat) (s : section) : Prop := r.(dirs) !! d = Some x ∧ x.(sections) !! i = Some s.
Definition moved (d : Z) (x : pgdir) (i : nat) (s : section) (e : Z) (st : S) r : vm S :=
  set_store st (put_dir d (put_section i (with_end e s) x) r).

Lemma section_at_moved r d x i s e st : section_at r d x i s →
  section_at (moved d x i s e st r) d (put_section i (with_end e s) x) i (with_end e s).
Proof.
  intros [_ Hs]. split; [apply lookup_insert_eq|]. cbn. apply list_lookup_insert_eq. by eapply lookup_lt_Some.
Qed.
Lemma moved_moved r d x i s e e' st st' :
  moved d (put_section i (with_end e s) x) i (with_end e s) e' st' (moved d x i s e st r) = moved d x i s e' st' r.
Proof.
  unfold moved, put_dir, set_dirs, set_store, put_section, with_sections, with_end. cbn. by rewrite insert_insert_eq list_insert_insert_eq.
Qed.

Lemma moved_same r d x i s : section_at r d x i s → moved d x i s s.(send) r.(store_of) r = r.
Proof.
  intros [Hd Hs]. destruct r as [ds t tt st], x as [l o lk], s as [f b e sl]. unfold moved, put_dir, set_dirs, set_store, put_section, with_sections, with_end.
  cbn in *. rewrite list_insert_id // insert_id //.
Qed.
Lemma same_page e va : e mod PAGE_SIZE = 0 → (va / 4096 =? (e - PAGE_SIZE) / 4096) = bool_decide (e - PAGE_SIZE ≤ va < e).
Proof.
  unfold PAGE_SIZE. intros He. pose proof (Z.div_mod e 4096 ltac:(done)) as H1. pose proof (Z.div_mod va 4096 ltac:(done)) as H2.
  pose proof (Z.mod_pos_bound va 4096 ltac:(done)) as H3. replace (e - 4096) with (e + (-1) * 4096) by lia. rewrite Z.div_add //.
  case_bool_decide as Hb; [apply Z.eqb_eq|apply Z.eqb_neq]; lia.
Qed.

(** One page less: its frame or its swap slot is given back, the entry cleared. *)
Lemma drop_page_spec d x i s r ot l k z kd U V (Q : unit → vm S → hProp) :
  section_at r d x i s → PAGE_SIZE ≤ s.(send) < 2 ^ 48 → read_va ot (s.(send) - PAGE_SIZE) = word_of kd → kind_ok kd →
  swap_at r.(store_of) U V None → slots kd ⊆ U → z ∉ frames kd → - 2 ^ 62 ≤ k < 2 ^ 62 →
  table d ot -∗ free_pages l k -∗ zero_page ↦ z -∗ own kd -∗
  (∀ ot' st, ⌜mapped ot (s.(send) - PAGE_SIZE) 0 [] ot' ∧ swap_at st (U ∖ slots kd) V None⌝ -∗ table d ot' -∗
     free_pages (frames kd ++ l) (k - Z.of_nat (length (frames kd))) -∗ zero_page ↦ z -∗ Q tt (moved d x i s (s.(send) - PAGE_SIZE) st r)) -∗
  wpv (drop_page d i) Q r.
Proof.
  iIntros ([Hd Hx] Hend Hrd Hok Hsw Hsl Hz Hk) "Ht Ha Hz Ho HQ". unfold PAGE_SIZE in Hend. set (va := s.(send) - PAGE_SIZE) in *.
  assert (Hva : 0 ≤ va < 2 ^ 48) by (unfold va, PAGE_SIZE; lia).
  iApply wpv_rest_bind; [by apply upd_section_run|]. cbv beta. rewrite u64_small; [|unfold PAGE_SIZE; lia]. fold va.
  set (r1 := put_dir d _ r). assert (Hst : r1 = moved d x i s va r.(store_of) r) by (by destruct r).
  iApply wpv_rest_bind; [apply (get_section_run r1 d (put_section i (with_end va s) x) i (with_end va s)); [apply put_dir_lookup|cbn; apply list_lookup_insert_eq; by eapply lookup_lt_Some]|].
  cbn [send with_end]. iApply wpv_mem_bind. iApply (wpm_get_pte_ro with "Ht"); [done|]. iSplit.
  - iIntros (a T HT) "Ht". iApply wpv_mem_bind. iApply (wpm_load_entry with "Ht"); [exact HT|]. rewrite Hrd. iIntros "Ht". iApply wpv_bind. destruct kd as [|p f|m].
    + iApply wpv_ret. iApply wpv_mem. iApply (wpm_store_entry with "Ht"); [exact HT|]. iIntros (ot' Hm) "Ht". rewrite Hst. cbn [frames app length]. rewrite Z.sub_0_r.
      iApply ("HQ" with "[] Ht Ha Hz"). iPureIntro. split; [done|]. by rewrite difference_empty_L.
    + destruct (frame_word p f Hok) as (E1 & E2 & E3 & _). rewrite E2 (proj2 (Z.eqb_neq _ _) E1) E3. cbn [negb andb frames]. iApply wpv_mem.
      iApply (wpm_kfree_page_at with "Ha Hz Ho"); [lia|set_solver|]. iIntros "Ha Hz". iApply wpv_mem. iApply (wpm_store_entry with "Ht"); [exact HT|]. iIntros (ot' Hm) "Ht".
      rewrite Hst. iApply ("HQ" with "[] Ht Ha Hz"). iPureIntro. split; [done|]. by rewrite difference_empty_L.
    + destruct (slot_word m Hok) as (_ & E1 & E2 & _ & E3 & _). rewrite E2 (proj2 (Z.eqb_neq _ _) E1) E3. cbn [negb andb frames app length].
      destruct (release_run r1 U V m) as (st & E & Hst'); [exact Hsw|exact Hok|set_solver|]. iApply wpv_rest; [exact E|]. iApply wpv_mem.
      iApply (wpm_store_entry with "Ht"); [exact HT|]. iIntros (ot' Hm) "Ht". rewrite Hst Z.sub_0_r. by iApply ("HQ" $! ot' st with "[] Ht Ha Hz").
  - iIntros (E0) "Ht". rewrite Hrd in E0. apply word_zero in E0; [|done]. subst kd. iApply wpv_ret. rewrite Hst. cbn [frames app length]. rewrite Z.sub_0_r.
    iApply ("HQ" with "[] Ht Ha Hz"). iPureIntro. split; [|by rewrite difference_empty_L]. cbn in Hrd. rewrite -{1}Hrd. by apply mapped_same.
Qed.

(** What the last pages of a section that ends at [e] hold, the last one first. *)
Record top_pages (ot : option tree) (e z : Z) (U : gset nat) (kds : list kind) : Prop := {
  tp_read : ∀ n kd, kds !! n = Some kd → read_va ot (e - (Z.of_nat n + 1) * PAGE_SIZE) = word_of kd;
  tp_ok : Forall kind_ok kds;
  tp_taken : Forall (λ kd, slots kd ⊆ U ∧ z ∉ frames kd) kds;
  tp_once : ∀ n n' m, kds !! n = Some (Slot m) → kds !! n' = Some (Slot m) → n = n';
}.

(** [n] pages less, from the end of the section downwards. *)
Lemma drop_pages_spec d i l z V : ∀ kds x s r ot k U fs j (Q : unit → vm S → hProp),
  section_at r d x i s → Z.of_nat (length kds) * PAGE_SIZE ≤ s.(send) < 2 ^ 48 → s.(send) mod PAGE_SIZE = 0 →
  top_pages ot s.(send) z U kds → swap_at r.(store_of) U V None →
  - 2 ^ 61 ≤ k - Z.of_nat (length kds) ∧ k < 2 ^ 62 →
  table d ot -∗ free_pages (fs ++ l) k -∗ zero_page ↦ z -∗ ([∗ list] kd ∈ kds, own kd) -∗
  (∀ ot' st fs', ⌜table_pages ot' ≡ₚ table_pages ot ∧
       (∀ va, 0 ≤ va < 2 ^ 48 → read_va ot' va =
          if bool_decide (s.(send) - Z.of_nat (length kds) * PAGE_SIZE ≤ va < s.(send)) then 0 else read_va ot va) ∧
       swap_at st (U ∖ ⋃ (slots <$> kds)) V None ∧ fs' ≡ₚ concat (frames <$> kds) ++ fs⌝ -∗ table d ot' -∗
     free_pages (fs' ++ l) (k - Z.of_nat (length (concat (frames <$> kds)))) -∗ zero_page ↦ z -∗
     Q tt (moved d x i s (s.(send) - Z.of_nat (length kds) * PAGE_SIZE) st r)) -∗
  wpv (for_each (zseq j (j + Z.of_nat (length kds))) (λ _, drop_page d i)) Q r.
Proof.
  induction kds as [|kd kds IH]; intros x s r ot k U fs j Q Hsec Hend Hal [Hrd Hok Hsl Hinj] Hsw Hk; iIntros "Ht Ha Hz Ho HQ".
  - cbn [length]. rewrite zseq_nil; [|lia]. iApply wpv_ret. rewrite Z.mul_0_l.
    iSpecialize ("HQ" $! ot r.(store_of) fs with "[] Ht [Ha] Hz"); [|cbn; by rewrite Z.sub_0_r|].
    + iPureIntro. split; [done|]. split; [|split; [by rewrite difference_empty_L|done]]. intros va Hva. rewrite bool_decide_false //. lia.
    + by rewrite Z.sub_0_r moved_same.
  - apply Forall_cons in Hok as [Hok1 Hok]. apply Forall_cons in Hsl as [[Hsl1 Hz1] Hsl]. rewrite big_sepL_cons. iDestruct "Ho" as "[Ho Hos]".
    cbn [length] in Hend, Hk. rewrite Nat2Z.inj_succ in Hend, Hk. assert (HP : PAGE_SIZE = 4096) by done.
    rewrite zseq_cons; [|cbn [length]; lia]. cbn [for_each]. iApply wpv_bind.
    pose proof (Hrd 0%nat kd eq_refl) as Hrd0. replace (s.(send) - (Z.of_nat 0 + 1) * PAGE_SIZE) with (s.(send) - PAGE_SIZE) in Hrd0 by lia.
    iApply (drop_page_spec d x i s r ot with "Ht Ha Hz Ho"); [done|lia|exact Hrd0|done|done|done|done|lia|].
    iIntros (ot1 st1 [[Hpg1 Hm1] Hst1]) "Ht Ha Hz". set (e1 := s.(send) - PAGE_SIZE) in *. set (r1 := moved d x i s e1 st1 r).
    assert (Hlen : (length (frames kd) ≤ 1)%nat) by (destruct kd; cbn; lia).
    rewrite app_assoc. replace (j + Z.of_nat (length (kd :: kds))) with (j + 1 + Z.of_nat (length kds)) by (cbn [length]; lia).
    iApply (IH (put_section i (with_end e1 s) x) (with_end e1 s) r1 ot1 _ (U ∖ slots kd) with "Ht Ha Hz Hos").
    + by apply section_at_moved.
    + cbn. lia.
    + cbn. unfold e1. rewrite HP in Hal |- *. by rewrite Zminus_mod Hal.
    + split; cbn [send with_end].
      * intros n kd' Hn. pose proof (Hrd (Datatypes.S n) kd' Hn) as Hr. rewrite -Hr.
        pose proof (lookup_lt_Some _ _ _ Hn) as Hlt. rewrite Hm1; [|unfold e1; lia]. rewrite same_page // bool_decide_false; [|unfold e1; lia]. f_equal. unfold e1. lia.
      * done.
      * apply Forall_forall. intros kd' Hin. rewrite Forall_forall in Hsl. destruct (Hsl kd' Hin) as [Hsub Hnz]. split; [|done].
        apply list_elem_of_lookup in Hin as [n Hn]. destruct kd' as [|p' f'|m']; cbn [slots] in *; [set_solver|set_solver|]. 
        assert (Hm' : m' ∉ slots kd); [|clear -Hsub Hm'; set_solver]. intros Hin'. destruct kd as [| |m0]; cbn [slots] in Hin'; [set_solver|set_solver|].
        apply elem_of_singleton in Hin' as ->. by pose proof (Hinj (Datatypes.S n) 0%nat m0 Hn eq_refl).
      * intros n n' m Hn Hn'. pose proof (Hinj (Datatypes.S n) (Datatypes.S n') m Hn Hn'). lia.
    + exact Hst1.
    + lia.
    + iIntros (ot2 st2 fs2 (Hpg2 & Hrd2 & Hst2 & Hfs2)) "Ht Ha Hz". cbn [send with_end] in *. rewrite moved_moved.
      iSpecialize ("HQ" $! ot2 st2 fs2 with "[] Ht [Ha] Hz").
      * iPureIntro. split; [by rewrite Hpg2|]. split; [|split; [|]].
        -- intros va Hva. rewrite Hrd2 // Hm1 // same_page //. unfold e1. cbn [length]. repeat case_bool_decide; try done; lia.
        -- cbn [fmap list_fmap]. by rewrite union_list_cons -difference_difference_l_L.
        -- rewrite Hfs2. cbn [fmap list_fmap concat]. solve_Permutation.
      * cbn [fmap list_fmap concat]. rewrite length_app Nat2Z.inj_add Z.sub_add_distr. iExact "Ha".
      * cbn [length]. rewrite Nat2Z.inj_succ. by replace (s.(send) - Z.succ (Z.of_nat (length kds)) * PAGE_SIZE) with (e1 - Z.of_nat (length kds) * PAGE_SIZE) by (unfold e1; lia).
Qed.

(** C26: [sbrk] of the process whose heap is section [i].  It returns the old end.
    A heap that grows gets a new end and nothing else: no page, no entry.  When
    it shrinks by [n] pages, each of them that was mapped gives its frame back
    to the free list, each one that was swapped out its slot of the swap area,
    the entries of exactly these pages are cleared, and no other memory
    changes.  It panics exactly when the heap has fewer pages than that. *)
Theorem sbrk_correct d x i s ot l k z kds U V h hf r size :
  r.(this) = d → section_at r d x i s → find_section (λ s, has s ST_HEAP) x.(sections) = Some i →
  0 ≤ s.(sbegin) ≤ s.(send) → s.(send) < 2 ^ 48 → s.(send) mod PAGE_SIZE = 0 → - 2 ^ 40 < size < 2 ^ 40 →
  length kds = Z.to_nat (- size) → (size < 0 → Z.of_nat (length kds) * PAGE_SIZE ≤ s.(send) - s.(sbegin) → top_pages ot s.(send) z U kds) →
  swap_at r.(store_of) U V None → 0 ≤ k < 2 ^ 60 → 
  holds (table d ot ∗ free_pages l k ∗ zero_page ↦ z ∗ [∗ list] kd ∈ kds, own kd)%I h → h ##ₘ hf →
  match sbrk size (h ∪ hf, r) with
  | Ok (a, (m, r')) =>
      a = s.(send) ∧ ∃ st, r' = moved d x i s (s.(send) + size * PAGE_SIZE) st r ∧
      if decide (0 ≤ size) then m = h ∪ hf ∧ st = r.(store_of)
      else ∃ h' ot' l', m = h' ∪ hf ∧ h' ##ₘ hf ∧
        holds (table d ot' ∗ free_pages l' (k - Z.of_nat (length (concat (frames <$> kds)))) ∗ zero_page ↦ z)%I h' ∧
        l' ≡ₚ concat (frames <$> kds) ++ l ∧ swap_at st (U ∖ ⋃ (slots <$> kds)) V None ∧
        ∀ va, 0 ≤ va < 2 ^ 48 → read_va ot' va =
          if bool_decide (s.(send) + size * PAGE_SIZE ≤ va < s.(send)) then 0 else read_va ot va
  | Fail e => e = Panicked ∧ s.(send) + size * PAGE_SIZE < s.(sbegin)
  end.
Proof.
  intros Hd Hsec Hfind Hb He Hal Hsz Hlen Htop Hsw Hk Hh Hdisj. pose proof Hsec as [Hx Hs]. assert (HP : PAGE_SIZE = 4096) by done.
  assert (E0 : ∀ hh, sbrk size (hh, r) = ((if 0 <=? size then on_rest (upd_section d i (λ s, with_end (u64 (s.(send) + i64 (size * PAGE_SIZE))) s))
     else if i64 (i64 (size * PAGE_SIZE) * -1) <=? i64 (u64 (s.(send) - s.(sbegin))) then
       for_each (zseq 0 (i64 (i64 (size * PAGE_SIZE) * -1) / PAGE_SIZE)) (λ _, drop_page d i) else panic) ;; mret s.(send)) (hh, r)).
  { intros hh. unfold Paging.sbrk. rewrite (bind_Ok _ _ _ d (hh, r)); [|unfold on_rest, zoom; cbn; by rewrite Hd].
    rewrite (bind_Ok _ _ _ x (hh, r)); [|unfold on_rest, zoom; cbn; by rewrite (get_dir_run r d x Hx)]. rewrite Hfind.
    rewrite (bind_Ok _ _ _ s (hh, r)); [done|]. unfold on_rest, zoom. cbn. by rewrite (get_section_run r d x i s Hx Hs). }
  rewrite E0. rewrite (i64_small (size * PAGE_SIZE)); [|lia]. rewrite (i64_small (_ * -1)); [|lia].
  rewrite u64_small; [|lia]. rewrite i64_small; [|lia]. destruct (Z.leb_spec 0 size) as [Hpos|Hneg].
  - erewrite bind_Ok; [|unfold on_rest, zoom; cbn; rewrite (upd_section_run r d x i s) //]. cbn [mret M_ret snd fst].
    split; [done|]. exists r.(store_of). rewrite decide_True //. split; [|done]. rewrite u64_small; [|lia]. unfold moved, put_dir. by destruct r.
  - destruct (Z.leb_spec (size * PAGE_SIZE * -1) (s.(send) - s.(sbegin))) as [Hfit|Hno]; [|rewrite bind_run; cbn; split; [done|lia]].
    replace (size * PAGE_SIZE * -1 / PAGE_SIZE) with (0 + Z.of_nat (length kds)) by (rewrite Hlen HP; replace (size * 4096 * -1) with ((- size) * 4096) by lia; rewrite Z.div_mul //; lia).
    assert (Htp : top_pages ot s.(send) z U kds) by (apply Htop; [done|rewrite Hlen HP in Hfit |- *; lia]).
    destruct (wpv_adequate (for_each (zseq 0 (0 + Z.of_nat (length kds))) (λ _, drop_page d i)) (table d ot ∗ free_pages l k ∗ zero_page ↦ z ∗ [∗ list] kd ∈ kds, own kd)%I
      (λ _ r', ∃ ot' st fs', ⌜table_pages ot' ≡ₚ table_pages ot ∧
       (∀ va, 0 ≤ va < 2 ^ 48 → read_va ot' va =
          if bool_decide (s.(send) - Z.of_nat (length kds) * PAGE_SIZE ≤ va < s.(send)) then 0 else read_va ot va) ∧
       swap_at st (U ∖ ⋃ (slots <$> kds)) V None ∧ fs' ≡ₚ concat (frames <$> kds) ++ [] ∧
       r' = moved d x i s (s.(send) - Z.of_nat (length kds) * PAGE_SIZE) st r⌝ ∗
       table d ot' ∗ free_pages (fs' ++ l) (k - Z.of_nat (length (concat (frames <$> kds)))) ∗ zero_page ↦ z)%I h hf r) as ([] & [m r'] & E & h' & Em & Hd' & HQ); [|exact Hh|exact Hdisj|].
    { iIntros "(Ht & Ha & Hz & Ho)". iApply (drop_pages_spec d i l z V kds x s r ot k U [] with "Ht Ha Hz Ho"); [done|rewrite Hlen HP in Hfit |- *; lia|done|done|done|rewrite Hlen; lia|].
      iIntros (ot' st fs' (H1 & H2 & H3 & H4)) "Ht Ha Hz". iExists ot', st, fs'. iFrame. done. }
    cbn in Em, HQ. subst m. rewrite (bind_Ok _ _ _ _ _ E). cbn [mret M_ret]. split; [done|].
    destruct HQ as (ot' & st & fs' & [(_ & Hrd & Hst & Hfs & ->) HQ]%holds_pure_sep).
    assert (Ee : s.(send) - Z.of_nat (length kds) * PAGE_SIZE = s.(send) + size * PAGE_SIZE) by (rewrite Hlen; lia). rewrite Ee in Hrd |- *.
    exists st. split; [done|]. rewrite decide_False; [|lia]. exists h', ot', (fs' ++ l). split_and!; try done. by rewrite Hfs app_nil_r.
Qed.

(** *** [pgfault] without swapping *)

Context (end_ invalid_pt PHYSTOP : Z) (get_offline_proc : vm S → option Z).

Abbreviation kfree_page := (kfree_page pages alloc_page_cnt zero_page zero_page_cnt).
Abbreviation alloc_page_for_user := (alloc_page_for_user pages alloc_page_cnt zero_page zero_page_cnt end_ invalid_pt PHYSTOP get_offline_proc).
Abbreviation map_new_page := (map_new_page pages alloc_page_cnt zero_page zero_page_cnt end_ invalid_pt PHYSTOP get_offline_proc).
Abbreviation pgfault := (pgfault pages alloc_page_cnt zero_page zero_page_cnt end_ invalid_pt PHYSTOP get_offline_proc).

(** *** The free list at the start *)

Lemma wpm_add_free p l k (Q : unit → hProp) :
  free_pages l k -∗ any_page p -∗ (free_pages (p :: l) k -∗ Q tt) -∗ wpm (add_to_queue pages p) Q.
Proof.
  iIntros "(%h & Hh & Hr & Hc) (%ws & [%Hok %Hl] & Hp) HQ". iApply wpm_bind. iApply (wpm_load with "Hh"). iIntros "Hh".
  destruct ws as [|w ws]; [done|]. rewrite page_cons. iDestruct "Hp" as "[Hp Hw]". iApply wpm_bind. iApply (wpm_store with "Hp"). iIntros "Hp".
  iApply (wpm_store with "Hh"). iIntros "Hh". iApply "HQ". iExists p. iFrame "Hh Hc". iSplitR; [done|]. iExists h, ws. rewrite page_cons. iFrame. iPureIntro. cbn in Hl. lia.
Qed.
Lemma wpm_add_all ps : ∀ l k (Q : unit → hProp),
  free_pages l k -∗ ([∗ list] p ∈ ps, any_page p) -∗ (free_pages (rev ps ++ l) k -∗ Q tt) -∗ wpm (for_each ps (add_to_queue pages)) Q.
Proof.
  induction ps as [|p ps IH]; intros l k Q; iIntros "Ha Hps HQ"; [iApply wpm_ret; by iApply "HQ"|].
  iDestruct "Hps" as "[Hp Hps]". iApply wpm_bind. iApply (wpm_add_free with "Ha Hp"). iIntros "Ha". iApply (IH with "Ha Hps").
  cbn [rev]. by rewrite -app_assoc.
Qed.
Lemma length_page_steps lo hi : lo mod PAGE_SIZE = 0 → hi mod PAGE_SIZE = 0 → lo ≤ hi → Z.of_nat (length (page_steps lo hi)) = (hi - lo) / PAGE_SIZE.
Proof.
  unfold page_steps, PAGE_SIZE. rewrite length_fmap length_zseq. intros Hlo Hhi Hle. pose proof (Z.div_mod lo 4096 ltac:(done)). pose proof (Z.div_mod hi 4096 ltac:(done)).
  replace (hi - lo) with ((hi / 4096 - lo / 4096) * 4096) by lia. rewrite Z.div_mul // -Z.add_sub_assoc Z.div_add_l //. change ((4096 - 1) / 4096) with 0. lia.
Qed.
(** The memory between the kernel and its end becomes the free list; [total_page] counts it. *)
Lemma init_pages_spec (Q : unit → hProp) :
  (PAGE_BASE end_ + PAGE_SIZE) mod PAGE_SIZE = 0 → P2K PHYSTOP mod PAGE_SIZE = 0 → 0 ≤ P2K PHYSTOP - (PAGE_BASE end_ + PAGE_SIZE) < 2 ^ 43 →
  pages ↦ 0 -∗ alloc_page_cnt ↦ 0 -∗ ([∗ list] p ∈ page_steps (PAGE_BASE end_ + PAGE_SIZE) (P2K PHYSTOP), any_page p) -∗
  (∀ l, ⌜l = rev (page_steps (PAGE_BASE end_ + PAGE_SIZE) (P2K PHYSTOP)) ∧ Z.of_nat (length l) = total_page end_ PHYSTOP⌝ -∗ free_pages l 0 -∗ Q tt) -∗
  wpm (init_pages pages end_ PHYSTOP) Q.
Proof.
  iIntros (Hlo Hhi Hr) "Hh Hc Hps HQ". iApply (wpm_add_all _ [] 0 with "[Hh Hc] Hps"); [iExists 0; iFrame; done|]. iIntros "Ha". rewrite app_nil_r.
  iApply ("HQ" with "[] Ha"). iPureIntro. split; [done|]. rewrite length_rev length_page_steps //; [|lia]. unfold total_page.
  rewrite u64_small; [|lia]. rewrite i32_small //. assert (HP : PAGE_SIZE = 4096) by done. split; [|rewrite HP; apply Z.div_lt_upper_bound; lia].
  pose proof (Z.div_pos (P2K PHYSTOP - (PAGE_BASE end_ + PAGE_SIZE)) PAGE_SIZE). lia.
Qed.

(** More than the reserve of 1024 pages is left when [k] pages are out. *)
Definition plenty (k : Z) : Prop := REVERSED_PAGES < u64 (i64 (total_page end_ PHYSTOP - k)).

Lemma total_page_bound : total_page end_ PHYSTOP < 2 ^ 31.
Proof.
  unfold total_page, i32. generalize (u64 (P2K PHYSTOP - (PAGE_BASE end_ + PAGE_SIZE)) / PAGE_SIZE). intros v. unfold swrap.
  pose proof (Z.mod_pos_bound (v + 2 ^ (32 - 1)) (2 ^ 32) ltac:(done)). lia.
Qed.
Lemma plenty_small c : 0 ≤ c → c + REVERSED_PAGES < total_page end_ PHYSTOP → plenty c.
Proof.
  intros Hc Ht. unfold plenty. pose proof total_page_bound.
  unfold REVERSED_PAGES in *. rewrite i64_small; [|lia]. rewrite u64_small; lia.
Qed.

Lemma wpv_left_page_cnt r l k (Q : Z → vm S → hProp) :
  free_pages l k -∗ (free_pages l k -∗ Q (u64 (i64 (total_page end_ PHYSTOP - k))) r) -∗
  wpv (left_page_cnt alloc_page_cnt end_ PHYSTOP) Q r.
Proof.
  iIntros "(%h & Hh & Hl & Hc) HQ". iApply wpv_mem_bind. iApply (wpm_load with "Hc"). iIntros "Hc". iApply wpv_ret. iApply "HQ".
  iExists h. iFrame.
Qed.

(** With enough pages left nothing is swapped out. *)
Lemma wpv_alloc_user fuel r q l k (Q : Z → vm S → hProp) : plenty k → 0 ≤ k < 2 ^ 61 →
  free_pages (q :: l) k -∗
  (∀ ws, ⌜page_ok q ∧ length ws = 511%nat⌝ -∗ free_pages l (k + 1) -∗ page q (hd 0 l :: ws) -∗ Q q r) -∗
  wpv (alloc_page_for_user fuel) Q r.
Proof.
  iIntros (Hp Hk) "Ha HQ". destruct fuel; cbn [Paging.alloc_page_for_user]; (iApply wpv_bind; iApply (wpv_left_page_cnt with "Ha"); iIntros "Ha";
    rewrite (proj2 (Z.leb_gt _ _) Hp); iApply wpv_mem; iApply (wpm_kalloc_page_link with "Ha"); [lia|]; iIntros (ws Hws) "Ha Hp"; by iApply ("HQ" with "[//] Ha")).
Qed.

Definition user_rw (q : Z) : Z := Z.lor (Z.lor (K2P q) (Z.lor PTE_USER_DATA PTE_RW)) PTE_VALID.

Lemma wpv_map_new_page fuel r d addr ot q l k (Q : unit → vm S → hProp) :
  plenty k → 0 ≤ k < 2 ^ 61 → 0 ≤ addr < 2 ^ 48 → (4 ≤ length l)%nat →
  table d ot -∗ free_pages (q :: l) k -∗
  (∀ used l' ot' ws, ⌜l = used ++ l' ∧ (length used ≤ 4)%nat ∧ mapped ot addr (user_rw q) used ot' ∧ length ws = 511%nat⌝ -∗
     table d ot' -∗ free_pages l' (k + 1 + Z.of_nat (length used)) -∗ page q (hd 0 l :: ws) -∗ Q tt r) -∗
  wpv (map_new_page fuel d addr) Q r.
Proof.
  iIntros (Hp Hk Ha Hl) "Ht Ha HQ". iApply wpv_bind. iApply (wpv_alloc_user with "Ha"); [done..|]. iIntros (ws [_ Hws]) "Ha Hpg".
  iApply wpv_mem. iApply (wpm_vmmap with "Ht Ha"); [done|done|lia|]. iIntros (used l' ot' (E & Hu & Hm)) "Ha Ht".
  iApply ("HQ" with "[] Ht Ha Hpg"). iPureIntro. by split_and!.
Qed.

(** The zero page at [z], if there is one, mapped [c] times. *)
Definition zeropage (z c : Z) : hProp := (zero_page ↦ z ∗ zero_page_cnt ↦ c ∗ if z =? 0 then emp else any_page z)%I.
Definition own_but (z : Z) (kd : kind) : hProp := match kd with Frame p _ => if p =? z then emp%I else any_page p | _ => emp%I end.

(** What a frame that is no longer mapped leaves: the free list, the pages out,
    the zero page and its count. *)
Definition unmapped (p : Z) (st : list Z * Z * Z * Z) : list Z * Z * Z * Z :=
  let '(l, k, z, c) := st in
  if p =? z then if c =? 1 then (z :: l, k - 1, 0, 0) else (l, k, z, c - 1) else (p :: l, k - 1, z, c).
Definition mem_state (st : list Z * Z * Z * Z) : hProp := let '(l, k, z, c) := st in (free_pages l k ∗ zeropage z c)%I.

Lemma wpm_seq2 {A B C} (m : Prelude.M mem A) (n : Prelude.M mem B) (o : Prelude.M mem C) (Q : C → hProp) :
  wpm (m ;; n) (λ _, wpm o Q) ⊢ wpm (m ;; n ;; o) Q.
Proof.
  rewrite (wpm_bind (m ;; n) (λ _, o)). apply wpm_ext. intros h. rewrite !bind_run. destruct (m h) as [[a h1]|]; [|done]. by rewrite !bind_run.
Qed.

Lemma wpm_kfree_frame p l k z c (Q : unit → hProp) : page_ok p → 0 ≤ k < 2 ^ 61 → 1 ≤ c < 2 ^ 61 →
  mem_state (l, k, z, c) -∗ own_but z (Frame p 1) -∗ (mem_state (unmapped p (l, k, z, c)) -∗ Q tt) -∗ wpm (kfree_page p) Q.
Proof.
  iIntros (Hp Hk Hc) "(Ha & Hz & Hzc & Hzp) Ho HQ". cbn [own_but unmapped]. destruct (Z.eqb_spec p z) as [->|Hne].
  - iApply wpm_bind. iApply (wpm_load with "Hz"). iIntros "Hz". rewrite Z.eqb_refl page_ok_ne0 //.
    iApply wpm_bind. iApply (wpm_decrement with "Hzc"). iIntros "Hzc". rewrite i64_small; [|lia].
    iApply wpm_bind. iApply (wpm_load with "Hzc"). iIntros "Hzc". destruct (Z.eqb_spec (c - 1) 0) as [E|E].
    + rewrite (proj2 (Z.eqb_eq c 1)); [|lia]. rewrite E. iApply wpm_seq2. iApply (wpm_give_page with "Ha Hzp"); [lia|].
      iIntros "Ha". iApply (wpm_store with "Hz"). iIntros "Hz". iApply "HQ". rewrite /mem_state /zeropage. iFrame.
    + rewrite (proj2 (Z.eqb_neq c 1)); [|lia]. iApply wpm_ret. iApply "HQ". rewrite /mem_state /zeropage page_ok_ne0 //. iFrame.
  - iApply (wpm_kfree_page_at with "Ha Hz Ho"); [lia|done|]. iIntros "Ha Hz". iApply "HQ". rewrite /mem_state /zeropage. iFrame.
Qed.

(** The entry is one of a page mapped read-only. *)
Definition cow (kd : kind) : bool := match kd with Frame _ f => negb (Z.land f PTE_RO =? 0) | _ => false end.
Definition released (kd : kind) (st : list Z * Z * Z * Z) : list Z * Z * Z * Z :=
  match kd with Frame p _ => if cow kd then unmapped p st else st | _ => st end.

(** A fault that maps a page takes the first page of the free list as it is,
    the link to the next free page in its first word, for reading and writing,
    and at most four pages for tables. *)
Definition fault_maps (d addr : Z) (ot : option tree) (st : list Z * Z * Z * Z) : hProp :=
  let '(l, k, z, c) := st in
  (∃ q l1 used l' ot' ws, ⌜l = q :: l1 ∧ l1 = used ++ l' ∧ (length used ≤ 4)%nat ∧ mapped ot addr (user_rw q) used ot' ∧ length ws = 511%nat⌝ ∗
     table d ot' ∗ mem_state (l', k + 1 + Z.of_nat (length used), z, c) ∗ page q (hd 0 l1 :: ws))%I.

(** The result [a] and the memory after a fault at an entry [kd]. *)
Definition fault_post (d addr : Z) (ot : option tree) (kd : kind) (st : list Z * Z * Z * Z) (a : Z) : hProp :=
  match kd with
  | Frame p f =>
      if cow kd then (⌜a = 0⌝ ∗ fault_maps d addr ot (unmapped p st))%I
      else (⌜a = -1⌝ ∗ table d ot ∗ mem_state st ∗ own_but (let '(_, _, z, _) := st in z) kd)%I
  | _ => (⌜a = 0⌝ ∗ fault_maps d addr ot st)%I
  end.

(** Enough pages for the fault: five on the free list, and more than the reserve left. *)
Definition roomy (st : list Z * Z * Z * Z) : Prop := let '(l, k, z, c) := st in plenty k ∧ 0 ≤ k < 2 ^ 61 ∧ (5 ≤ length l)%nat.

Lemma wpv_fault_maps fuel r d addr ot st (Q : unit → vm S → hProp) : roomy st → 0 ≤ addr < 2 ^ 48 →
  table d ot -∗ mem_state st -∗ (fault_maps d addr ot st -∗ Q tt r) -∗ wpv (map_new_page fuel d addr) Q r.
Proof.
  destruct st as [[[l k] z] c]. iIntros ((Hp & Hk & Hl) Ha) "Ht [Ha Hz] HQ". destruct l as [|q l1]; [cbn in Hl; lia|].
  iApply (wpv_map_new_page with "Ht Ha"); [done..|cbn in Hl; lia|]. iIntros (used l' ot' ws (E & Hu & Hm & Hws)) "Ht Ha Hpg".
  iApply "HQ". iExists q, l1, used, l', ot', ws. iFrame. done.
Qed.

Definition in_section (addr : Z) (s : section) : bool := (s.(sbegin) <=? addr) && (addr <? s.(send)).

(** A page with the entry [kd], the process's memory in the state [st]. *)
Definition fault_pre (d addr : Z) (ot : option tree) (kd : kind) (st : list Z * Z * Z * Z) : Prop :=
  let '(l, k, z, c) := st in
  0 ≤ addr < 2 ^ 48 ∧ read_va ot addr = word_of kd ∧ kind_ok kd ∧ 0 ≤ k < 2 ^ 60 ∧ 1 ≤ c < 2 ^ 60 ∧ roomy (released kd st).

Lemma pgfault_spec fuel addr d x i s ot kd l k z c r :
  r.(this) = d → r.(dirs) !! d = Some x → find_section (in_section addr) x.(sections) = Some i → x.(sections) !! i = Some s →
  has s ST_SWAP = false → fault_pre d addr ot kd (l, k, z, c) →
  table d ot ∗ mem_state (l, k, z, c) ∗ own_but z kd ⊢ wpv (pgfault fuel addr) (λ a r', ⌜r' = r⌝ ∗ fault_post d addr ot kd (l, k, z, c) a)%I r.
Proof.
  intros Hd Hx Hfind Hs Hsw (Ha & Hrd & Hok & Hk & Hc & Hroom). iIntros "(Ht & Hm & Ho)". iApply wpv_rest_bind; [done|]. rewrite Hd.
  iApply wpv_rest_bind; [by apply get_dir_run|]. change (find_section _ _) with (find_section (in_section addr) x.(sections)). rewrite Hfind.
  iApply wpv_rest_bind; [by eapply get_section_run|]. iApply wpv_mem_bind. iApply (wpm_entry_at with "Ht"); [done|]. rewrite Hrd Hsw. iSplit.
  - iIntros (a T [HT Hne]) "Ht". destruct kd as [|p f|m]; [done| |].
    + destruct (frame_word p f Hok) as (_ & E2 & E3 & E4). rewrite E2 E3 E4. cbn [cow released fault_post] in *. destruct (negb (Z.land f PTE_RO =? 0)).
      * iApply wpv_mem_bind. iApply (wpm_kfree_frame with "Hm Ho"); [apply Hok|lia|lia|]. iIntros "Hm". iApply wpv_bind.
        iApply (wpv_fault_maps with "Ht Hm"); [done..|]. iIntros "Hp". iApply wpv_ret. iSplitR; [done|]. iSplitR; [done|]. iFrame.
      * iApply wpv_ret. iSplitR; [done|]. iSplitR; [done|]. iFrame.
    + destruct (slot_word m Hok) as (_ & _ & E2 & E4 & _). rewrite E2 E4. iApply wpv_bind. iApply (wpv_fault_maps with "Ht Hm"); [done..|].
      iIntros "Hp". iApply wpv_ret. iSplitR; [done|]. iSplitR; [done|]. iFrame.
  - iIntros (E0) "Ht". apply word_zero in E0; [|done]. subst kd. iApply wpv_bind. iApply (wpv_fault_maps with "Ht Hm"); [done..|].
    iIntros "Hp". iApply wpv_ret. iSplitR; [done|]. iSplitR; [done|]. iFrame.
Qed.

(** C25: [pgfault] at an address of a section that is not swapped out.  An entry
    that is empty (or invalid) gets a page of its own, for reading and writing;
    a read-only one gives its frame back first, the zero page only one of its
    references, and the page that then takes its place is not cleared, nor is
    what was there copied: its first word is the link of the free list.  A
    valid entry for writing is not touched and the result is -1.  The other
    entries stay, no other memory changes, and neither does the state of the
    sections.  An address outside of all sections stops the kernel. *)
Theorem pgfault_correct fuel addr d x ot kd st h hf r :
  r.(this) = d → r.(dirs) !! d = Some x → fault_pre d addr ot kd st → h ##ₘ hf →
  holds (table d ot ∗ mem_state st ∗ own_but (let '(_, _, z, _) := st in z) kd)%I h →
  match find_section (in_section addr) x.(sections) with
  | None => pgfault fuel addr (h ∪ hf, r) = Fail Panicked
  | Some i => ∀ s, x.(sections) !! i = Some s → has s ST_SWAP = false →
      wp (pgfault fuel addr) (λ a s', s'.2 = r ∧ ∃ h', s'.1 = h' ∪ hf ∧ h' ##ₘ hf ∧ holds (fault_post d addr ot kd st a) h') (h ∪ hf, r)
  end.
Proof.
  intros Hd Hx Hpre Hdisj Hh. destruct (find_section (in_section addr) x.(sections)) as [i|] eqn:Hfind.
  - intros s Hs Hsw. destruct st as [[[l k] z] c]. eapply wp_mono.
    + eapply (wpv_adequate _ _ _ h hf r); [by eapply (pgfault_spec fuel addr d x i s ot kd l k z c r)|exact Hh|done].
    + intros a [m r'] (h' & Em & Hd' & HQ). cbn in Em, HQ |- *. apply holds_pure_sep in HQ as [-> HQ]. split; [done|]. by exists h'.
  - unfold Paging.pgfault. rewrite (bind_Ok _ _ _ d (h ∪ hf, r)); [|unfold on_rest, zoom; cbn; by rewrite Hd].
    rewrite (bind_Ok _ _ _ x (h ∪ hf, r)); [|unfold on_rest, zoom; cbn; by rewrite (get_dir_run r d x Hx)].
    change (find_section _ _) with (find_section (in_section addr) x.(sections)). by rewrite Hfind.
Qed.
End steps.

(** ** Examples *)

Module PagingExamples.
Import PageTableExamples SwapExamples.

(** The process runs in the page directory at 8, with a heap of two pages.  Sixteen
    pages are free and eight are out; [frame0] is a page of the process. *)
Definition heap : section := mkSection ST_HEAP 0 0x2000 false.
Definition dir0 : pgdir := mkPgdir [heap] true false.
Definition vm0 : vm St := mkVm {[8 := dir0]} 8 0 empty_disk.
Definition va0 : Z := 0x1000.
Definition frame0 : Z := base + 0x100000.
Definition words0 : list Z := zseq 1 513.
Definition free16 : list Z := (λ i, base + 4096 * i) <$> zseq 0 16.
Definition END : Z := KSPACE_MASK + 0x80000.
Definition STOP : Z := 0x3f000000.
Definition mem0 : mem := page_map frame0 words0 ∪ <[40 := 1]> (<[8 := 0]> (alloc_mem free16 8)).
Definition none_offline : vm St → option Z := λ _, None.

(** Pages are where their addresses say. *)
Lemma page_map_outside ws : ∀ p q, q < p ∨ p + 8 * Z.of_nat (length ws) ≤ q → page_map p ws !! q = None.
Proof.
  induction ws as [|w ws IH]; intros p q Hq; [done|]. cbn [page_map length] in *. rewrite lookup_insert_ne; [|lia]. apply IH. lia.
Qed.
Lemma page_map_disjoint p ws (m : mem) : (∀ q, p ≤ q < p + 8 * Z.of_nat (length ws) → m !! q = None) → page_map p ws ##ₘ m.
Proof.
  intros Hm. apply map_disjoint_alt. intros q. destruct (decide (p ≤ q < p + 8 * Z.of_nat (length ws))); [by right; apply Hm|].
  left. apply page_map_outside. lia.
Qed.
Lemma free_map_outside l q : (∀ p, p ∈ l → q < p ∨ p + 4096 ≤ q) → free_map l !! q = None.
Proof.
  induction l as [|p l IH]; intros Hq; [done|]. cbn [free_map]. apply lookup_union_None. split; [|apply IH; intros p' Hp; apply Hq; by right].
  apply page_map_outside. cbn [length]. rewrite length_replicate. destruct (Hq p); [by left|lia..].
Qed.
Lemma pages_apart p p' : page_ok p → page_ok p' → p ≠ p' → p' + 4096 ≤ p ∨ p + 4096 ≤ p'.
Proof. intros Hp Hp' Hne. destruct (page_split p Hp) as (k & _ & ->), (page_split p' Hp') as (k' & _ & ->). lia. Qed.
Lemma free_ok_pages l : Forall page_ok l → NoDup l → free_ok l.
Proof.
  induction l as [|p l IH]; intros Hl Hn; [done|]. apply Forall_cons in Hl as [Hp Hl]. apply NoDup_cons in Hn as [Hpl Hn]. cbn [free_ok].
  split; [done|]. split; [|by apply IH]. apply page_map_disjoint. cbn [length]. rewrite length_replicate. intros q Hq. apply free_map_outside.
  intros p' Hp'. assert (p ≠ p') by (by intros ->). rewrite Forall_forall in Hl. destruct (pages_apart p p') as [|]; [done|by apply Hl|done|lia|lia].
Qed.

Lemma free16_pages : Forall page_ok free16 ∧ NoDup free16.
Proof. split; [by repeat constructor|by_computation]. Qed.
Lemma free16_from p : p ∈ free16 → base ≤ p < base + 0x10000.
Proof. unfold free16. rewrite list_elem_of_fmap. intros (i & -> & Hi%elem_of_zseq). lia. Qed.
Lemma mem0_holds : holds (page frame0 words0 ∗ 40 ↦ 1 ∗ table 8 None ∗ allocator 16 24 32 free16 8)%I mem0.
Proof.
  assert (Hout : ∀ q, q < base ∨ base + 0x20000 ≤ q → free_map free16 !! q = None) by (intros q Hq; apply free_map_outside; intros p Hp%free16_from; lia).
  assert (HB : base = 18446462598733889536) by done. apply holds_sep; [|apply page_map_holds|].
  - apply page_map_disjoint. intros q Hq. assert (Hf : frame0 = base + 0x100000) by done. unfold words0 in Hq. rewrite length_zseq in Hq.
    rewrite !lookup_insert_ne; [apply Hout; lia|lia..].
  - apply holds_cell_sep; [rewrite !lookup_insert_ne; [apply Hout; lia|lia..]|].
    apply holds_cell_sep; [rewrite !lookup_insert_ne; [apply Hout; lia|lia..]|]. apply alloc_holds; [by apply free_ok_pages; apply free16_pages|apply Hout; lia..].
Qed.
Lemma flag_valid f : Z.land f PTE_VALID = 1 → Z.lor f PTE_VALID = f.
Proof.
  intros Hv. apply Z.bits_inj'. intros i Hi. rewrite Z.lor_spec. pose proof (f_equal (λ x, Z.testbit x i) Hv) as Hb. cbv beta in Hb. rewrite Z.land_spec in Hb.
  unfold PTE_VALID in *. destruct (Z.testbit f i), (Z.testbit 1 i); done.
Qed.

(** [frame0] is mapped at [va0] first. *)
Definition mapped0 (f : Z) (l : list Z) (k : Z) (ot : option tree) : Prop :=
  ∃ used, free16 = used ++ l ∧ (length used ≤ 4)%nat ∧ k = 8 + Z.of_nat (length used) ∧ mapped None va0 (word_of (Frame frame0 f)) used ot.
Lemma map_frame (r : vm St) f : 0 ≤ f < 4096 → Z.land f PTE_VALID = 1 →
  wp (on_mem (vmmap 16 24 8 va0 frame0 f)) (λ _ s, s.2 = r ∧ ∃ h l k ot, s.1 = h ∪ ∅ ∧ h ##ₘ ∅ ∧ mapped0 f l k ot ∧
    holds (page frame0 words0 ∗ 40 ↦ 1 ∗ table 8 ot ∗ free_pages 16 24 l k ∗ 32 ↦ 0)%I h) (mem0 ∪ ∅, r).
Proof.
  intros Hf Hv. eapply wp_mono.
  - apply (wpv_adequate _ (page frame0 words0 ∗ 40 ↦ 1 ∗ table 8 None ∗ allocator 16 24 32 free16 8)%I (λ _ r', ∃ l k ot, ⌜r' = r ∧ mapped0 f l k ot⌝ ∗ page frame0 words0 ∗ 40 ↦ 1 ∗ table 8 ot ∗ free_pages 16 24 l k ∗ 32 ↦ 0)%I mem0 ∅ r);
      [|exact mem0_holds|by apply map_disjoint_empty_r].
    iIntros "(Hp & Hc & Ht & Ha & Hz)". iApply wpv_mem. iApply (wpm_vmmap with "Ht Ha"); [unfold va0; lia|unfold free16; rewrite length_fmap length_zseq; lia|lia|].
    iIntros (used l ot (E & Hu & Hm)) "Ha Ht". iExists l, (8 + Z.of_nat (length used)), ot.
    iSplitR; [iPureIntro|iSplitL "Hp"; [iExact "Hp"|iSplitL "Hc"; [iExact "Hc"|iSplitL "Ht"; [iExact "Ht"|iSplitL "Ha"; [iExact "Ha"|iExact "Hz"]]]]].
    split; [done|]. exists used. rewrite -Z.lor_assoc (flag_valid f Hv) in Hm. done.
  - intros [] [m r'] (h & Em & Hd & l & k & ot & HQ). cbn in Em, HQ |- *. apply holds_pure_sep in HQ as [[-> Hm] HQ]. split; [done|].
    exists h, l, k, ot. done.
Qed.

Lemma mapped0_read f l k ot va : mapped0 f l k ot → 0 ≤ va < 2 ^ 48 → read_va ot va = if va / 4096 =? 1 then word_of (Frame frame0 f) else 0.
Proof. intros (used & _ & _ & _ & [_ Hm]) Hva. by rewrite Hm. Qed.
Lemma mapped0_count f l k ot : mapped0 f l k ot → 8 ≤ k ≤ 12 ∧ (12 ≤ length l)%nat.
Proof.
  intros (used & E & Hu & -> & _). split; [lia|]. apply (f_equal length) in E. rewrite length_app in E. unfold free16 in E. rewrite length_fmap length_zseq in E. lia.
Qed.
Lemma frame0_ok : page_ok frame0.
Proof. done. Qed.
Lemma frame0_page : page frame0 words0 ⊢ any_page frame0.
Proof. iIntros "H". iExists words0. iSplitR; [iPureIntro; by split; [apply frame0_ok|]|iExact "H"]. Qed.
Lemma frame0_top ot l k : mapped0 PTE_USER_DATA l k ot → top_pages ot 0x2000 0 ∅ [Frame frame0 PTE_USER_DATA].
Proof.
  intros Hm. split.
  - intros [|n] kd Hn; [|by destruct n]. injection Hn as <-. by rewrite (mapped0_read _ _ _ _ _ Hm).
  - by repeat constructor.
  - constructor; [|constructor]. split; [done|]. cbn. by intros [= ]%list_elem_of_singleton.
  - intros [|n] [|n'] m Hn; try done; by destruct n.
Qed.

(** One page less: the frame is given back. *)
Lemma sbrk_correct_witness :
  wp (on_mem (vmmap 16 24 8 va0 frame0 PTE_USER_DATA) ;; sbrk 16 24 32 40 (-1)) (λ a s', a = 0x2000 ∧
    s'.2.(dirs) !! 8 = Some (mkPgdir [with_end 0x1000 heap] true false) ∧
    ∃ h' ot' l' k', holds (table 8 ot' ∗ free_pages 16 24 l' k' ∗ 32 ↦ 0)%I h' ∧ s'.1 = h' ∪ ∅ ∧ frame0 ∈ l' ∧ read_va ot' va0 = 0) (mem0 ∪ ∅, vm0).
Proof.
  apply wp_bind. eapply wp_mono; [by apply (map_frame vm0 PTE_USER_DATA)|]. intros [] [m r] (Er & h & l & k & ot & Em & Hd & Hm & Hh). cbn [fst snd] in Er, Em. subst m r.
  destruct (mapped0_count _ _ _ _ Hm) as [Hk _].
  assert (Hh' : holds (table 8 ot ∗ free_pages 16 24 l k ∗ 32 ↦ 0 ∗ [∗ list] kd ∈ [Frame frame0 PTE_USER_DATA], own kd)%I h).
  { revert Hh. apply holds_entails. rewrite frame0_page. cbn [big_opL own]. iIntros "(Hp & _ & Ht & Ha & Hz)". iFrame. }
  pose proof (sbrk_correct 16 24 32 40 8 dir0 0 heap ot l k 0 [Frame frame0 PTE_USER_DATA] ∅ (λ _, zero_block) h ∅ vm0 (-1) eq_refl (conj eq_refl eq_refl) eq_refl
    ltac:(cbn; lia) ltac:(cbn; lia) eq_refl ltac:(lia) eq_refl (λ _ _, frame0_top ot l k Hm) empty_on_disk ltac:(lia) Hh' Hd) as Hs. unfold wp.
  destruct (sbrk 16 24 32 40 (-1) (h ∪ ∅, vm0)) as [[a [m r']]|e]; [|by destruct Hs as [_ Hs]].
  destruct Hs as (-> & st & -> & h' & ot' & l' & -> & Hd' & HQ & Hl' & _ & Hrd). exists 0x2000. eexists. split; [done|]. split; [done|]. split; [done|].
  eexists h', ot', l', _. split; [exact HQ|]. split; [done|]. split; [rewrite Hl'; cbn; by left|]. by rewrite Hrd.
Defined.

Definition PTE_USER_RO : Z := Z.lor PTE_USER_DATA PTE_RO.
Lemma plenty_here k : 0 ≤ k ≤ 100 → plenty END STOP k.
Proof. intros Hk. apply plenty_small; [lia|]. assert (E : 2000 < total_page END STOP) by by_computation. unfold REVERSED_PAGES. lia. Qed.

(** A write to a read-only page: its own frame comes back, with a link in its first word. *)
Lemma pgfault_correct_witness :
  wp (on_mem (vmmap 16 24 8 va0 frame0 PTE_USER_RO) ;; pgfault 16 24 32 40 END 0 STOP none_offline 0 (va0 + 8)) (λ a s', a = 0 ∧ s'.2 = vm0 ∧
    ∃ h' ot' link ws, s'.1 = h' ∪ ∅ ∧ holds (table 8 ot' ∗ page frame0 (link :: ws))%I h' ∧ read_va ot' va0 = user_rw frame0) (mem0 ∪ ∅, vm0).
Proof.
  apply wp_bind. eapply wp_mono; [by apply (map_frame vm0 PTE_USER_RO)|]. intros [] [m r] (Er & h & l & k & ot & Em & Hd & Hm & Hh). cbn [fst snd] in Er, Em. subst m r.
  destruct (mapped0_count _ _ _ _ Hm) as [Hk Hl]. set (kd := Frame frame0 PTE_USER_RO). set (st := (l, k, 0, 1)).
  assert (Hpre : fault_pre END STOP 8 (va0 + 8) ot kd st).
  { split; [by vm_compute|]. split; [by rewrite (mapped0_read _ _ _ _ _ Hm)|]. split; [done|]. split; [lia|]. split; [lia|]. change (roomy END STOP (frame0 :: l, k - 1, 0, 1)).
    split; [apply plenty_here; lia|]. split; [lia|]. cbn [length]. lia. }
  assert (Hh' : holds (table 8 ot ∗ mem_state 16 24 32 40 st ∗ own_but 0 kd)%I h).
  { revert Hh. apply holds_entails. rewrite frame0_page. iIntros "(Hp & Hc & Ht & Ha & Hz)". unfold mem_state, zeropage, st. iFrame. }
  eapply wp_mono; [exact (pgfault_correct 16 24 32 40 END 0 STOP none_offline 0 (va0 + 8) 8 dir0 ot kd st h ∅ vm0 eq_refl eq_refl Hpre Hd Hh' heap eq_refl eq_refl)|].
  intros a [m r] (Er & h' & Em & Hd' & HQ). cbn [fst snd] in Er, Em. subst m r. change (holds (⌜a = 0⌝ ∗ fault_maps 16 24 32 40 8 (va0 + 8) ot (frame0 :: l, k - 1, 0, 1))%I h') in HQ.
  apply holds_pure_sep in HQ as [-> (q & l1 & used & l' & ot' & ws & HQ)]. apply holds_pure_sep in HQ as [(E & _ & _ & Hmap & _) HQ]. injection E as <- <-.
  split; [done|]. split; [done|]. exists h', ot', (hd 0 l), ws. split; [done|]. split; [|by rewrite (proj2 Hmap)].
  revert HQ. apply holds_entails. iIntros "(Ht & _ & Hp)". iFrame.
Defined.
End PagingExamples.
