(* ===== verification/PageSwap.v ===== *)
(** * A section moved to the disk and back

    [swapout] and [swapin] of [Paging.v], with [write_page_to_disk] and
    [read_page_from_disk] of [src/kernel/mem.c], over any swap device that keeps
    [SwapLaws]: what each of their loops does to the entries, the frames and the
    slots, and what the two leave of a section together. *)

From iris.proofmode Require Import proofmode.
From S2P Require Import Prelude FsLayout BlockCache SwapDev SepLogic Pages PageTable Paging.
#[local] Open Scope Z_scope.

Section steps.
Context {S : Type} `{SwapLaws S}.
Context (pages alloc_page_cnt zero_page zero_page_cnt : Z) (end_ invalid_pt PHYSTOP : Z) (get_offline_proc : vm S → option Z).
Implicit Types r : vm S.
Abbreviation free_pages := (free_pages pages alloc_page_cnt).
Abbreviation plenty := (plenty end_ PHYSTOP).

(** *** Swapping: the range of a section *)

Lemma wpv_for_zseq (body : Z → M (mem * vm S) unit) (I : Z → vm S → hProp) lo hi r : lo ≤ hi →
  (∀ k r, lo ≤ k < hi → I k r ⊢ wpv (body k) (λ _, I (k + 1)) r) → I lo r ⊢ wpv (for_each (zseq lo hi) body) (λ _, I hi) r.
Proof.
  intros Hle Hb. remember (Z.to_nat (hi - lo)) as n eqn:En. revert lo r Hle En Hb. induction n as [|n IH]; intros lo r Hle En Hb.
  - rewrite zseq_nil; [|lia]. assert (lo = hi) as -> by lia. iIntros "H". by iApply wpv_ret.
  - rewrite zseq_cons; [|lia]. cbn [for_each]. iIntros "H". iApply wpv_bind. iDestruct (Hb lo r with "H") as "H"; [lia|].
    iApply (wpv_mono with "H"). iIntros ([] r') "H". iApply (IH (lo + 1) r' with "H"); [lia..|]. intros k r2 Hk. apply Hb. lia.
Qed.
Lemma for_each_fmap {St A B} (f : A → B) (l : list A) (body : B → Prelude.M St unit) : for_each (f <$> l) body = for_each l (λ a, body (f a)).
Proof. induction l as [|a l IH]; [done|]. cbn. by rewrite -IH. Qed.

Section range.
(** The section: [n] pages and the one after its end, from [B] on. *)
Context (B : Z) (n : nat).
Context (HB : B mod PAGE_SIZE = 0) (HB0 : 0 ≤ B) (HBn : B + (Z.of_nat n + 1) * PAGE_SIZE ≤ 2 ^ 48).

Definition va_of (k : Z) : Z := B + k * PAGE_SIZE.

Lemma page_range_eq : page_range B (B + Z.of_nat n * PAGE_SIZE) = va_of <$> zseq 0 (Z.of_nat (Datatypes.S n)).
Proof.
  unfold page_range. replace (B + Z.of_nat n * PAGE_SIZE - B) with (Z.of_nat n * PAGE_SIZE) by lia. rewrite Z.div_mul //.
  by replace (Z.of_nat n + 1) with (Z.of_nat (Datatypes.S n)) by lia.
Qed.
Lemma va_range k : 0 ≤ k < Z.of_nat (Datatypes.S n) → 0 ≤ va_of k ∧ va_of k + PAGE_SIZE ≤ 2 ^ 48.
Proof. intros Hk. unfold va_of, PAGE_SIZE in *. lia. Qed.

Lemma va_mod k : va_of k mod PAGE_SIZE = 0.
Proof. unfold va_of. by rewrite Z.mod_add. Qed.

(** The entries of the range are [es]; the others are those of [ot0]. *)
Definition view (ot0 : option tree) (es : list Z) (ot : option tree) : Prop :=
  ∀ va, 0 ≤ va < 2 ^ 48 → read_va ot va = if decide (B ≤ va) then default (read_va ot0 va) (es !! Z.to_nat ((va - B) / PAGE_SIZE)) else read_va ot0 va.

Lemma view_index va k o : va = va_of k + o → 0 ≤ k → 0 ≤ o < PAGE_SIZE → (va - B) / PAGE_SIZE = k ∧ B ≤ va.
Proof.
  intros -> Hk Ho. unfold va_of, PAGE_SIZE in *. replace (B + k * 4096 + o - B) with (o + k * 4096) by lia. rewrite Z.div_add // Z.div_small //. lia.
Qed.
Lemma view_read ot0 es ot k o e : view ot0 es ot → es !! Z.to_nat k = Some e → 0 ≤ k < Z.of_nat (Datatypes.S n) → 0 ≤ o < PAGE_SIZE →
  read_va ot (va_of k + o) = e.
Proof.
  intros Hv He Hk Ho. destruct (va_range k Hk). destruct (view_index (va_of k + o) k o) as [E Hle]; [done|lia|done|].
  rewrite Hv; [|lia]. by rewrite decide_True // E He.
Qed.
Lemma view_mapped ot0 es ot ot' k w used : view ot0 es ot → length es = Datatypes.S n → 0 ≤ k < Z.of_nat (Datatypes.S n) →
  mapped ot (va_of k) w used ot' → view ot0 (<[Z.to_nat k := w]> es) ot'.
Proof.
  intros Hv Hl Hk [_ Hm] va Hva. rewrite Hm // Hv //. destruct (va_range k Hk) as [Hr1 Hr2]. unfold va_of, PAGE_SIZE in *.
  assert (E : va_of k = B + k * 4096) by done. pose proof (Z.div_mod B 4096 ltac:(done)) as HdB. rewrite HB in HdB.
  replace ((B + k * 4096) / 4096) with (B / 4096 + k) by (rewrite Z.div_add //).
  pose proof (Z.div_mod va 4096 ltac:(done)) as Hd. pose proof (Z.mod_pos_bound va 4096 ltac:(done)) as Hmb.
  assert (Hq : (va - B) / 4096 = va / 4096 - B / 4096).
  { replace (va - B) with (va + (- (B / 4096)) * 4096) by lia. rewrite Z.div_add //. }
  rewrite Hq. destruct (Z.eqb_spec (va / 4096) (B / 4096 + k)) as [E2|E2].
  - rewrite decide_True; [|lia]. replace (va / 4096 - B / 4096) with k by lia. rewrite list_lookup_insert_eq //. lia.
  - case_decide as Hle; [|done]. rewrite list_lookup_insert_ne //. lia.
Qed.
Lemma view_refl ot0 es : length es = Datatypes.S n → (∀ k e, es !! k = Some e → read_va ot0 (va_of (Z.of_nat k)) = e) → view ot0 es ot0.
Proof.
  intros Hl He va Hva. case_decide as Hle; [|done]. destruct (es !! Z.to_nat ((va - B) / PAGE_SIZE)) as [e|] eqn:E; [|done]. cbn.
  rewrite -(He _ _ E). assert (Hq : 0 ≤ (va - B) / PAGE_SIZE) by (apply Z.div_pos; [lia|done]). rewrite Z2Nat.id //.
  pose proof (lookup_lt_Some _ _ _ E) as Hlt. destruct (va_range ((va - B) / PAGE_SIZE)) as [Hr1 Hr2]; [lia|].
  pose proof (Z.div_mod (va - B) PAGE_SIZE ltac:(done)) as Hd. pose proof (Z.mod_pos_bound (va - B) PAGE_SIZE ltac:(done)) as Hmb.
  apply read_same_page; [done|lia|]. unfold va_of, PAGE_SIZE in *. set (q := (va - B) / 4096) in *.
  pose proof (Z.div_mod B 4096 ltac:(done)) as HdB. rewrite HB in HdB. rewrite Z.div_add //.
  replace va with ((va - B) mod 4096 + (B / 4096 + q) * 4096) by lia. by rewrite Z.div_add // Z.div_small.
Qed.
End range.

(** *** Swapping: writing a page *)

Lemma page_app p ws1 ws2 : page p (ws1 ++ ws2) ⊣⊢ page p ws1 ∗ page (p + 8 * Z.of_nat (length ws1)) ws2.
Proof.
  unfold page. rewrite big_sepL_app. f_equiv. apply big_sepL_proper. intros i w _.
  by replace (p + 8 * Z.of_nat (length ws1 + i)) with (p + 8 * Z.of_nat (length ws1) + 8 * Z.of_nat i) by lia.
Qed.

Lemma wpm_load_words n : ∀ p ws (Q : list Z → hProp), (n ≤ length ws)%nat → page p ws -∗ (page p ws -∗ Q (take n ws)) -∗ wpm (load_words p n) Q.
Proof.
  induction n as [|n IH]; intros p ws Q Hn; iIntros "Hp HQ"; [iApply wpm_ret; by iApply "HQ"|]. destruct ws as [|w ws]; [cbn in Hn; lia|].
  rewrite page_cons. iDestruct "Hp" as "[Hw Hp]". cbn [load_words]. iApply wpm_bind. iApply (wpm_load with "Hw"). iIntros "Hw".
  iApply wpm_bind. iApply (IH with "Hp"); [cbn in Hn; lia|]. iIntros "Hp". iApply wpm_ret. iApply "HQ". iFrame.
Qed.
Lemma wpm_store_words new : ∀ p ws (Q : unit → hProp), length ws = length new → page p ws -∗ (page p new -∗ Q tt) -∗ wpm (store_words p new) Q.
Proof.
  induction new as [|w new IH]; intros p ws Q Hl; iIntros "Hp HQ"; [iApply wpm_ret; iApply "HQ"; by destruct ws|].
  destruct ws as [|w0 ws]; [done|]. rewrite page_cons. iDestruct "Hp" as "[Hw Hp]". cbn [store_words]. iApply wpm_bind. iApply (wpm_store with "Hw"). iIntros "Hw".
  iApply (IH with "Hp"); [by injection Hl|]. iIntros "Hp". iApply "HQ". rewrite page_cons. iFrame.
Qed.

Definition word_ok (w : Z) : Prop := 0 ≤ w < 2 ^ 64.
Lemma length_bytes_of ws : length (bytes_of ws) = (8 * length ws)%nat.
Proof. induction ws as [|w ws IH]; [done|]. unfold bytes_of in *. cbn [fmap list_fmap concat length]. rewrite length_app length_le_bytes IH. lia. Qed.
Lemma bytes_of_ok ws : length ws = BLOCK_WORDS → block_ok (bytes_of ws).
Proof.
  intros Hl. split; [rewrite length_bytes_of Hl //|]. apply Forall_concat, Forall_fmap, Forall_true. intros w. apply le_bytes_ok.
Qed.
Lemma words_of_bytes ws : Forall word_ok ws → words_of (length ws) (bytes_of ws) = ws.
Proof.
  induction 1 as [|w ws Hw Hws IH]; [done|]. unfold bytes_of in *. cbn [fmap list_fmap concat length words_of].
  rewrite take_app_le; [|by rewrite length_le_bytes]. rewrite take_ge; [|by rewrite length_le_bytes].
  rewrite drop_app_ge; [|by rewrite length_le_bytes]. rewrite length_le_bytes Nat.sub_diag drop_0 IH. f_equal. by apply (le_value_bytes 8).
Qed.
Lemma length_words_of n : ∀ bs, length (words_of n bs) = n.
Proof. induction n as [|n IH]; intros bs; [done|]. cbn. by rewrite IH. Qed.

(** The process runs in [d], locked or not, with the sections [l]; the other page directories are those of [r0]. *)
Definition at_lock (lk : bool) (d : Z) (l : list section) r0 r : Prop := r.(this) = d ∧ ∃ o, r.(dirs) = <[d := mkPgdir l o lk]> r0.(dirs).
Definition at_dir : Z → list section → vm S → vm S → Prop := at_lock false.

Lemma at_lock_lookup lk d l r0 r : at_lock lk d l r0 r → ∃ o, r.(dirs) !! d = Some (mkPgdir l o lk).
Proof. intros (_ & o & E). exists o. rewrite E. apply lookup_insert_eq. Qed.
Lemma at_lock_put lk lk' d l r0 r l' o : at_lock lk d l r0 r → at_lock lk' d l' r0 (put_dir d (mkPgdir l' o lk') r).
Proof. intros (Ht & o' & E). split; [done|]. exists o. cbn. by rewrite E insert_insert_eq. Qed.
Lemma at_lock_get lk d l r0 r i s : at_lock lk d l r0 r → l !! i = Some s → get_section d i r = Ok (s, r).
Proof. intros Hat Hs. destruct (at_lock_lookup lk d l r0 r Hat) as [o Hd]. by apply (get_section_run r d _ i s Hd). Qed.
Lemma at_lock_upd lk d l r0 r i s f : at_lock lk d l r0 r → l !! i = Some s →
  ∃ r', upd_section d i f r = Ok (tt, r') ∧ at_lock lk d (<[i := f s]> l) r0 r' ∧ r'.(store_of) = r.(store_of).
Proof.
  intros Hat Hs. destruct (at_lock_lookup lk d l r0 r Hat) as [o Hd]. exists (put_dir d (mkPgdir (<[i := f s]> l) o lk) r).
  rewrite (upd_section_run r d _ i s f Hd Hs). split; [done|]. split; [by apply (at_lock_put lk lk d l)|done].
Qed.
Lemma at_dir_put d l r0 r l' o : at_dir d l r0 r → at_dir d l' r0 (put_dir d (mkPgdir l' o false) r).
Proof. apply at_lock_put. Qed.
Lemma at_dir_store d l r0 r st : at_dir d l r0 r → at_dir d l r0 (set_store st r).
Proof. done. Qed.
Lemma at_dir_ttbr d l r0 r t : at_dir d l r0 r → at_dir d l r0 (set_ttbr0 t r).
Proof. done. Qed.
Lemma at_dir_lookup d l r0 r : at_dir d l r0 r → ∃ o, r.(dirs) !! d = Some (mkPgdir l o false).
Proof. apply at_lock_lookup. Qed.

Lemma acquire_lock_run r d l o : r.(dirs) !! d = Some (mkPgdir l o false) → acquire_lock d r = Ok (tt, put_dir d (mkPgdir l o true) r).
Proof. intros Hd. unfold acquire_lock. rewrite (bind_Ok _ _ _ _ _ (get_dir_run r d _ Hd)). cbn [lock]. by rewrite (upd_dir_run r d _ _ Hd). Qed.

(** Attaching the page directory that is in use leaves it unlocked and on line. *)
Lemma wpv_attach d l r0 r ot (Q : unit → vm S → hProp) : at_dir d l r0 r →
  table d ot -∗ (∀ r', ⌜at_dir d l r0 r' ∧ r'.(store_of) = r.(store_of)⌝ -∗ table d ot -∗ Q tt r') -∗ wpv (attach_pgdir invalid_pt d) Q r.
Proof.
  iIntros (Hat) "Ht HQ". destruct (at_dir_lookup d l r0 r Hat) as [o Hd]. pose proof Hat as [Hthis _].
  set (r1 := put_dir d (mkPgdir l false false) r).
  iApply wpv_rest_bind; [done|]. rewrite Hthis. iApply (wpv_rest_bind _ _ _ _ tt r1).
  { rewrite (bind_Ok _ _ _ _ _ (acquire_lock_run r d l o Hd)) (bind_Ok _ _ _ _ _ (upd_dir_run _ d _ _ (put_dir_lookup _ _ _))) put_put_dir.
    unfold release_lock. by rewrite (upd_dir_run _ d _ _ (put_dir_lookup _ _ _)) put_put_dir. }
  iApply wpv_mem_bind. iAssert (∃ pt, d ↦ pt ∗ (d ↦ pt -∗ table d ot))%I with "[Ht]" as (pt) "[Hc Hb]".
  { destruct ot as [t|]; [|iExists 0; iFrame; by iIntros "$"]. iDestruct "Ht" as "[Hc Ht]". iExists (addr t). iFrame. iIntros "$". }
  iApply (wpm_load with "Hc"). iIntros "Hc". iSpecialize ("Hb" with "Hc"). destruct (negb (pt =? 0)).
  - set (r2 := put_dir d (mkPgdir l true false) r1). iApply (wpv_rest _ _ _ tt (set_ttbr0 (K2P pt) r2)).
    { rewrite (bind_Ok _ _ _ _ _ (acquire_lock_run r1 d l false (put_dir_lookup _ _ _))).
      rewrite (bind_Ok _ _ _ _ _ (upd_dir_run _ d _ _ (put_dir_lookup _ _ _))) put_put_dir. unfold release_lock.
      by rewrite (bind_Ok _ _ _ _ _ (upd_dir_run _ d _ _ (put_dir_lookup _ _ _))) put_put_dir. }
    iApply ("HQ" with "[] Hb"). iPureIntro. split; [|done]. by apply at_dir_ttbr, (at_dir_put d l), (at_dir_put d l).
  - iApply wpv_rest; [done|]. iApply ("HQ" with "[] Hb"). iPureIntro. split; [|done]. by apply at_dir_ttbr, (at_dir_put d l).
Qed.

Section swapping.
Context (d : Z) (r0 : vm S).
Abbreviation write_block := (write_block pages alloc_page_cnt invalid_pt).
Abbreviation write_page_to_disk := (write_page_to_disk pages alloc_page_cnt invalid_pt).

(** A page whose entry, valid or not, is of frame [p]. *)
Definition at_frame (ot : option tree) (ka p : Z) : Prop :=
  0 ≤ ka ∧ ka mod PAGE_SIZE = 0 ∧ ka + PAGE_SIZE ≤ 2 ^ 48 ∧
  ∃ e, e ≠ 0 ∧ P2K (PTE_ADDRESS e) = p ∧ ∀ o, 0 ≤ o < PAGE_SIZE → read_va ot (ka + o) = e.

(** What is written to each block of the slot: the start of the page. *)
Definition head_bytes (ws : list Z) : list Z := bytes_of (take BLOCK_WORDS ws).

Lemma write_block_spec l r ot ka p ws m i U V (Q : unit → vm S → hProp) :
  at_dir d l r0 r → at_frame ot ka p → length ws = 512%nat → (m < SLOTS)%nat → 0 ≤ i < 8 → swap_at r.(store_of) U V None →
  table d ot -∗ page p ws -∗
  (∀ r', ⌜at_dir d l r0 r' ∧ swap_at r'.(store_of) U (fupd V (slot_block m + i) (head_bytes ws)) None⌝ -∗ table d ot -∗ page p ws -∗ Q tt r') -∗
  wpv (write_block ka (slot_block m) i) Q r.
Proof.
  iIntros (Hat (Hka0 & Hal & Hka & e & He & Hp & Hrd) Hws Hm Hi Hsw) "Ht Hpg HQ". unfold SLOTS, PAGE_SIZE in *.
  assert (HS : slot_block m = 800 + 8 * Z.of_nat m) by done. assert (Hb : swap_block (slot_block m + i)) by (unfold swap_block; rewrite HS; unfold SWAP_START, SWAP_END; lia).
  destruct (law_sw_acquire _ U V _ Hsw Hb) as (b & st1 & E1 & Hst1). unfold Paging.write_block.
  iApply wpv_rest_bind; [apply on_store_run; rewrite u32_small; [exact E1|rewrite HS; lia]|]. iApply wpv_rest_bind; [done|]. cbn [this set_store]. pose proof Hat as [-> _].
  iApply wpv_bind. iApply (wpv_attach d l r0 (set_store st1 r) with "Ht"); [by apply at_dir_store|]. iIntros (r1 [Hat1 Est]) "Ht". cbn [store_of set_store] in Est.
  iApply wpv_rest_bind; [done|]. pose proof Hat1 as [-> _]. iApply wpv_mem_bind. rewrite u64_small; [|unfold BLOCK_SIZE; lia].
  iApply (wpm_get_pte_ro with "Ht"); [unfold BLOCK_SIZE; lia|]. rewrite (Hrd (i * BLOCK_SIZE)); [|unfold BLOCK_SIZE; lia]. iSplit; [|by iIntros (?)].
  iIntros (a T HT) "Ht". iApply wpv_bind. iApply wpv_mem_bind. iApply (wpm_load_entry with "Ht"); [exact HT|]. iIntros "Ht".
  rewrite (Hrd (i * BLOCK_SIZE)); [|unfold BLOCK_SIZE; lia]. rewrite (proj2 (Z.eqb_neq _ _) He) Hp. iApply wpv_mem_bind.
  iApply (wpm_load_words with "Hpg"); [rewrite Hws; unfold BLOCK_WORDS; lia|]. iIntros "Hpg".
  rewrite -Est in Hst1. destruct (law_sw_store _ U V _ _ _ (head_bytes ws) Hst1) as (st2 & E2 & Hst2); [apply bytes_of_ok; rewrite length_take Hws; unfold BLOCK_WORDS; lia|].
  destruct (law_sw_sync _ U _ _ _ _ Hst2) as (st3 & E3 & Hst3). destruct (law_sw_release _ U _ _ _ Hst3) as (st4 & E4 & Hst4).
  iApply wpv_rest; [apply on_store_run; rewrite (bind_Ok _ _ _ _ _ E2); exact E3|]. iApply wpv_rest; [apply on_store_run; exact E4|].
  iApply ("HQ" with "[] Ht Hpg"). iPureIntro. split; [by apply at_dir_store, at_dir_store|done].
Qed.

(** All eight blocks of the slot get the same 512 bytes. *)
Definition slot_holds (V : Z → list Z) (m : nat) (ws : list Z) : Prop := ∀ i, 0 ≤ i < 8 → V (slot_block m + i) = head_bytes ws.

Lemma write_page_spec l r ot ka p ws U V (Q : Z → vm S → hProp) :
  at_dir d l r0 r → at_frame ot ka p → length ws = 512%nat → swap_at r.(store_of) U V None → (∃ m, (m < SLOTS)%nat ∧ m ∉ U) →
  table d ot -∗ page p ws -∗
  (∀ r' m V', ⌜at_dir d l r0 r' ∧ (m < SLOTS)%nat ∧ m ∉ U ∧ swap_at r'.(store_of) ({[m]} ∪ U) V' None ∧ slot_holds V' m ws ∧
       (∀ b, b < slot_block m ∨ slot_block m + 8 ≤ b → V' b = V b)⌝ -∗ table d ot -∗ page p ws -∗ Q (slot_block m) r') -∗
  wpv (write_page_to_disk ka) Q r.
Proof.
  iIntros (Hat Hfr Hws Hsw (m0 & Hm0 & Hm0U)) "Ht Hpg HQ". pose proof (law_find _ U V Hsw) as Hfind.
  destruct (find_and_set_8_blocks r.(store_of)) as [[b st]|e] eqn:E; [|by destruct Hfind as [_ Hall]; specialize (Hall m0 Hm0)].
  destruct Hfind as (m & Hm & -> & HmU & Hst). iApply wpv_rest_bind; [by apply on_store_run|]. iApply wpv_bind.
  set (I := λ (i : Z) (r1 : vm S), (∃ V', ⌜at_dir d l r0 r1 ∧ swap_at r1.(store_of) ({[m]} ∪ U) V' None ∧ (∀ j, 0 ≤ j < i → V' (slot_block m + j)%Z = head_bytes ws) ∧
     (∀ b, b < slot_block m ∨ slot_block m + 8 ≤ b → V' b = V b)%Z⌝ ∗ table d ot ∗ page p ws)%I).
  iApply (wpv_mono with "[Ht Hpg]").
  - iApply (wpv_for_zseq (write_block ka (slot_block m)) I 0 8); [lia| |].
    + intros i r1 Hi. iIntros "(%V1 & (%Hat1 & %Hst1 & %Hj & %Hb) & Ht & Hpg)".
      iApply (write_block_spec with "Ht Hpg"); [exact Hat1|exact Hfr|done|done|done|exact Hst1|]. iIntros (r2 [Hat2 Hst2]) "Ht Hpg".
      iExists _. iFrame. iPureIntro. split; [done|]. split; [exact Hst2|]. split.
      * intros j Hjr. destruct (decide (j = i)) as [->|Hne]; [unfold fupd; by rewrite decide_True|]. rewrite fupd_ne; [apply Hj; lia|lia].
      * intros b Hbr. rewrite fupd_ne; [by apply Hb|lia].
    + iExists V. iFrame. iPureIntro. split; [by apply at_dir_store|]. split; [exact Hst|]. split; [lia|done].
  - iIntros ([] r1) "(%V1 & (%Hat1 & %Hst1 & %Hj & %Hb) & Ht & Hpg)". iApply wpv_ret. iApply ("HQ" with "[] Ht Hpg"). iPureIntro. by split_and!.
Qed.

(** *** Swapping: a section out *)

(** A page of the section: none, or a frame with its flags and words. *)
Definition upage : Type := option (Z * Z * list Z).
Definition upage_ok (z : Z) (x : upage) : Prop :=
  match x with None => True | Some (p, f, ws) => kind_ok (Frame p f) ∧ length ws = 512%nat ∧ Forall word_ok ws ∧ p ≠ z end.
Definition upage_word (x : upage) : Z := match x with None => 0 | Some (p, f, _) => word_of (Frame p f) end.
Definition upage_own (x : upage) : hProp := match x with None => emp%I | Some (p, _, ws) => page p ws end.
Definition upage_frame (x : upage) : option Z := (λ y, y.1.1) <$> x.

(** What the first loop of [swapout] makes of an entry. *)
Definition inval (e : Z) : Z := Z.land e (u64 (Z.lnot PTE_VALID)).

Lemma inval_frame p f : kind_ok (Frame p f) → inval (word_of (Frame p f)) ≠ 0 ∧ P2K (PTE_ADDRESS (inval (word_of (Frame p f)))) = p.
Proof.
  intros (Hp & Hf & Hv). destruct (entry_eq p f Hp Hf) as (k & Hk & -> & E). cbn [word_of]. rewrite E. unfold inval.
  change (u64 (Z.lnot PTE_VALID)) with (Z.shiftl (Z.ones 63) 1). rewrite land_field // Z.shiftr_div_pow2 // Z.shiftl_mul_pow2 //.
  change (Z.land f PTE_VALID) with (Z.land f (Z.ones 1)) in Hv. rewrite Z.land_ones // in Hv. change (2 ^ 1) with 2 in *.
  rewrite Z.mod_small; [|split; [apply Z.div_pos|apply Z.div_lt_upper_bound]; lia].
  assert (E2 : (k * 4096 + f) / 2 * 2 = k * 4096 + (f - 1)).
  { pose proof (Z.div_mod f 2 ltac:(done)) as Hd. replace (k * 4096 + f) with (f + k * 2048 * 2) by lia. rewrite Z.div_add //. lia. }
  rewrite E2. pose proof (Z.mod_pos_bound f 2 ltac:(done)). split; [lia|apply entry_addr; lia].
Qed.

(** A loop that changes the entries that are not empty. *)
Definition update (g : Z → Z) (e : Z) : Z := if e =? 0 then 0 else g e.
Definition update_entry (g : Z → Z) (va : Z) : M (mem * vm S) unit :=
  on_mem (r ← entry_at pages alloc_page_cnt d va; match r with Some (a, e) => store a (g e) | None => mret tt end).

Section over.
Context (B : Z) (n : nat) (ot0 : option tree).
Context (HB : B mod PAGE_SIZE = 0) (HB0 : 0 ≤ B) (HBn : B + (Z.of_nat n + 1) * PAGE_SIZE ≤ 2 ^ 48).
Abbreviation view := (view B ot0).
Abbreviation va_of := (va_of B).

Lemma va_ok k : 0 ≤ k < Z.of_nat (Datatypes.S n) → 0 ≤ va_of k < 2 ^ 48.
Proof. intros Hk. destruct (va_range B n HB0 HBn k Hk). unfold PAGE_SIZE in *. lia. Qed.
Lemma view_entry es ot k e : view es ot → es !! Z.to_nat k = Some e → 0 ≤ k < Z.of_nat (Datatypes.S n) → read_va ot (va_of k) = e.
Proof. intros Hv He Hk. rewrite -(Z.add_0_r (va_of k)). by apply (view_read B n HB0 HBn ot0 es ot). Qed.

Lemma update_entry_spec g r es ot k e (Q : unit → vm S → hProp) :
  view es ot → length es = Datatypes.S n → es !! Z.to_nat k = Some e → 0 ≤ k < Z.of_nat (Datatypes.S n) →
  table d ot -∗ (∀ ot', ⌜view (<[Z.to_nat k := update g e]> es) ot'⌝ -∗ table d ot' -∗ Q tt r) -∗ wpv (update_entry g (va_of k)) Q r.
Proof.
  iIntros (Hv Hl He Hk) "Ht HQ". pose proof (view_entry es ot k e Hv He Hk) as Hr. iApply wpv_mem. iApply wpm_bind.
  iApply (wpm_entry_at with "Ht"); [by apply va_ok|]. rewrite Hr. unfold update. iSplit.
  - iIntros (a T [HT Hne]) "Ht". iApply (wpm_store_entry with "Ht"); [exact HT|]. iIntros (ot' Hm) "Ht". rewrite (proj2 (Z.eqb_neq _ _) Hne).
    iApply ("HQ" with "[] Ht"). iPureIntro. by eapply (view_mapped B n HB HB0 HBn).
  - iIntros (->) "Ht". iApply wpm_ret. iApply ("HQ" with "[] Ht"). iPureIntro. by rewrite list_insert_id.
Qed.

Lemma update_entries_spec g r es : ∀ es0 ot j (Q : unit → vm S → hProp),
  view (es0 ++ es) ot → j = Z.of_nat (length es0) → length (es0 ++ es) = Datatypes.S n →
  table d ot -∗ (∀ ot', ⌜view (es0 ++ (update g <$> es)) ot'⌝ -∗ table d ot' -∗ Q tt r) -∗
  wpv (for_each (zseq j (j + Z.of_nat (length es))) (λ k, update_entry g (va_of k))) Q r.
Proof.
  induction es as [|e es IH]; intros es0 ot j Q Hv Hj Hl; iIntros "Ht HQ".
  - rewrite zseq_nil; [|cbn; lia]. iApply wpv_ret. by iApply ("HQ" with "[] Ht").
  - pose proof Hl as Hl'. rewrite length_app in Hl'. cbn [length] in *. rewrite zseq_cons; [|lia]. cbn [for_each]. iApply wpv_bind.
    assert (E : Z.to_nat j = length es0) by lia.
    iApply (update_entry_spec with "Ht"); [exact Hv|exact Hl|rewrite E list_lookup_middle //|lia|]. iIntros (ot1 Hv1) "Ht".
    rewrite E insert_app_r_alt // Nat.sub_diag cons_middle app_assoc in Hv1. cbn [list_insert] in Hv1.
    replace (j + Z.of_nat (Datatypes.S (length es))) with (j + 1 + Z.of_nat (length es)) by lia.
    iApply (IH (es0 ++ [update g e]) with "Ht"); [exact Hv1|rewrite length_app; cbn; lia|rewrite !length_app in Hl |- *; cbn; lia|].
    iIntros (ot' Hv') "Ht". iApply ("HQ" with "[] Ht"). iPureIntro. by rewrite -app_assoc in Hv'.
Qed.

(** The range of the section, as [swapout] and [swapin] compute it. *)
Lemma update_range_spec g r es ot (Q : unit → vm S → hProp) : view es ot → length es = Datatypes.S n →
  table d ot -∗ (∀ ot', ⌜view (update g <$> es) ot'⌝ -∗ table d ot' -∗ Q tt r) -∗
  wpv (for_each (page_range B (B + Z.of_nat n * PAGE_SIZE)) (update_entry g)) Q r.
Proof.
  iIntros (Hv Hl) "Ht HQ". rewrite page_range_eq for_each_fmap -Hl. by iApply (update_entries_spec g r es [] ot 0 with "Ht HQ").
Qed.

Abbreviation page_out := (page_out pages alloc_page_cnt zero_page zero_page_cnt invalid_pt).

(** Where a page of the section is kept on the disk. *)
Definition stored (V : Z → list Z) (x : upage) (mo : option nat) : Prop :=
  match x, mo with None, None => True | Some (_, _, ws), Some m => (m < SLOTS)%nat ∧ slot_holds V m ws | _, _ => False end.
Definition slot_entry (mo : option nat) : Z := match mo with None => 0 | Some m => word_of (Slot m) end.
Definition taken (ms : list (option nat)) : gset nat := list_to_set (omap id ms).
(** The blocks of the other slots stay. *)
Definition keeps (V V' : Z → list Z) (ms : list (option nat)) : Prop :=
  ∀ b, (∀ m, m ∈ omap id ms → b < slot_block m ∨ slot_block m + 8 ≤ b) → V' b = V b.
Definition unused (U : gset nat) : nat := size (set_seq 0 SLOTS ∖ U).
Definition need (xs : list upage) : nat := length (omap upage_frame xs).

Lemma stored_keeps V V' x mo ms : stored V x mo → keeps V V' ms → (∀ m, mo = Some m → m ∉ omap id ms) → stored V' x mo.
Proof.
  intros Hst Hk Hm. destruct x as [[[p f] ws]|], mo as [m|]; try done. destruct Hst as [Hlt Hs]. split; [done|]. intros i Hi. rewrite Hk; [by apply Hs|].
  intros m' Hin. specialize (Hm m eq_refl). assert (m ≠ m') by (by intros ->). unfold slot_block. lia.
Qed.

Lemma page_out_step l r es ot k x z U V fl c (Q : unit → vm S → hProp) :
  at_dir d l r0 r → view es ot → length es = Datatypes.S n → 0 ≤ k < Z.of_nat (Datatypes.S n) → es !! Z.to_nat k = Some (inval (upage_word x)) →
  upage_ok z x → swap_at r.(store_of) U V None → (need [x] ≤ unused U)%nat → - 2 ^ 62 < c < 2 ^ 62 →
  table d ot -∗ free_pages fl c -∗ zero_page ↦ z -∗ upage_own x -∗
  (∀ r' mo V' ot', ⌜at_dir d l r0 r' ∧ stored V' x mo ∧ taken [mo] ## U ∧ swap_at r'.(store_of) (taken [mo] ∪ U) V' None ∧ keeps V V' [mo] ∧
       view (<[Z.to_nat k := slot_entry mo]> es) ot'⌝ -∗
     table d ot' -∗ free_pages (omap upage_frame [x] ++ fl) (c - Z.of_nat (need [x])) -∗ zero_page ↦ z -∗ Q tt r') -∗
  wpv (page_out d (va_of k)) Q r.
Proof.
  iIntros (Hat Hv Hl Hk He Hx Hsw Hroom Hc) "Ht Ha Hz Ho HQ". pose proof (view_entry es ot k _ Hv He Hk) as Hr. unfold Paging.page_out.
  iApply wpv_mem_bind. iApply (wpm_entry_at with "Ht"); [by apply va_ok|]. rewrite Hr. destruct x as [[[p f] ws]|]; cycle 1.
  { iSplit; [by iIntros (a T [_ []])|]. iIntros (_) "Ht". iApply wpv_ret. rewrite Z.sub_0_r. iApply ("HQ" $! r None V ot with "[] Ht Ha Hz"). iPureIntro.
    split; [done|]. split; [done|]. split; [set_solver|]. split; [by rewrite union_empty_l_L|]. split; [done|]. rewrite list_insert_id //. }
  destruct Hx as (Hkd & Hws & _ & Hpz). destruct (inval_frame p f Hkd) as [He0 Hp]. cbn [upage_word] in *. set (e := inval _) in *. iSplit; [|by iIntros (?)].
  iIntros (a T [HT _]) "Ht". iApply wpv_bind. destruct (va_range B n HB0 HBn k Hk) as [Hlo Hhi].
  iApply (write_page_spec l r ot (va_of k) p ws U V with "Ht Ho"); [done| |done|done| |].
  - split; [done|]. split; [by apply (va_mod B)|]. split; [done|]. exists e. split; [done|]. split; [done|].
    intros o Ho. by apply (view_read B n HB0 HBn ot0 es ot).
  - assert (Hne : (set_seq 0 SLOTS ∖ U : gset nat) ≠ ∅) by (intros E; unfold unused, need in Hroom; rewrite E size_empty in Hroom; cbn in Hroom; lia).
    apply set_choose_L in Hne as [m Hm]. apply elem_of_difference in Hm as [Hm HmU]. exists m. split; [apply elem_of_set_seq in Hm; lia|done].
  - iIntros (r1 m V1 (Hat1 & Hm & HmU & Hst1 & Hhold & Hkeep)) "Ht Hpg". iApply wpv_mem_bind. iApply (wpm_load_entry with "Ht"); [exact HT|].
    rewrite Hr Hp. iIntros "Ht". iApply wpv_mem_bind. iApply (wpm_kfree_page_at with "Ha Hz [Hpg]"); [lia|done|iExists ws; iFrame; iPureIntro; split; [apply Hkd|done]|].
    iIntros "Ha Hz". iApply wpv_mem. destruct (slot_word m Hm) as (_ & _ & _ & _ & _ & Ew). change (Z.shiftl (slot_block m) 12) with (word_of (Slot m)). rewrite Ew.
    iApply (wpm_store_entry with "Ht"); [exact HT|]. iIntros (ot' Hmap) "Ht". iApply ("HQ" $! r1 (Some m) V1 ot' with "[] Ht Ha Hz"). iPureIntro.
    assert (Et : taken [Some m] = {[m]}) by (unfold taken; cbn; by rewrite union_empty_r_L). rewrite !Et.
    split; [done|]. split; [done|]. split; [set_solver|]. split; [done|]. split; [|by eapply (view_mapped B n HB HB0 HBn)]. intros b Hb. apply Hkeep, (Hb m). by left.
Qed.

Lemma taken_cons mo ms : taken (mo :: ms) = taken [mo] ∪ taken ms.
Proof. unfold taken. destruct mo; cbn; set_solver. Qed.
Lemma need_cons x xs : need (x :: xs) = (need [x] + need xs)%nat.
Proof. by destruct x. Qed.
Lemma need_le xs : (need xs ≤ length xs)%nat.
Proof. induction xs as [|x xs IH]; [done|]. rewrite need_cons. destruct x; unfold need in *; cbn in *; lia. Qed.
Lemma taken_one m : taken [Some m] = {[m]}.
Proof. unfold taken. cbn. by rewrite union_empty_r_L. Qed.
Lemma unused_taken V x mo xs U : stored V x mo → taken [mo] ## U → (need (x :: xs) ≤ unused U)%nat → (need xs ≤ unused (taken [mo] ∪ U))%nat.
Proof.
  intros Hst Hd. rewrite need_cons. destruct x as [[[p f] ws]|], mo as [m|]; try done.
  - change (need [Some (p, f, ws)]) with 1%nat. rewrite taken_one in Hd |- *. destruct Hst as [Hm _]. unfold unused.
    rewrite (size_difference_one m); [lia|apply elem_of_set_seq; lia|set_solver].
  - change (taken [None]) with (∅ : gset nat). rewrite union_empty_l_L. done.
Qed.
Lemma taken_elem m ms : m ∈ taken ms ↔ m ∈ omap id ms.
Proof. unfold taken. apply elem_of_list_to_set. Qed.
Lemma omap_id_cons (mo : option nat) ms : (∀ m, mo = Some m → m ∉ omap id ms) → NoDup (omap id ms) → NoDup (omap id (mo :: ms)).
Proof. intros Hm Hn. destruct mo as [m|]; [|done]. cbn. apply NoDup_cons. split; [by apply Hm|done]. Qed.
Lemma keeps_trans V V1 V2 mo ms : keeps V V1 [mo] → keeps V1 V2 ms → keeps V V2 (mo :: ms).
Proof.
  intros H1 H2 b Hb. rewrite H2; [apply H1|]; intros m Hm; apply Hb; rewrite -taken_elem taken_cons elem_of_union !taken_elem; [by left|by right].
Qed.

Lemma page_outs_spec l z xs : ∀ es0 r ot U V fl c j (Q : unit → vm S → hProp),
  at_dir d l r0 r → view (es0 ++ (inval ∘ upage_word <$> xs)) ot → j = Z.of_nat (length es0) → (length es0 + length xs = Datatypes.S n)%nat →
  Forall (upage_ok z) xs → swap_at r.(store_of) U V None → (need xs ≤ unused U)%nat → - 2 ^ 61 < c - Z.of_nat (length xs) ∧ c < 2 ^ 62 →
  table d ot -∗ free_pages fl c -∗ zero_page ↦ z -∗ ([∗ list] x ∈ xs, upage_own x) -∗
  (∀ r' ms V' ot' fl', ⌜at_dir d l r0 r' ∧ Forall2 (stored V') xs ms ∧ NoDup (omap id ms) ∧ taken ms ## U ∧
       swap_at r'.(store_of) (taken ms ∪ U) V' None ∧ keeps V V' ms ∧ view (es0 ++ (slot_entry <$> ms)) ot' ∧ fl' ≡ₚ omap upage_frame xs ++ fl⌝ -∗
     table d ot' -∗ free_pages fl' (c - Z.of_nat (need xs)) -∗ zero_page ↦ z -∗ Q tt r') -∗
  wpv (for_each (zseq j (j + Z.of_nat (length xs))) (λ k, page_out d (va_of k))) Q r.
Proof.
  induction xs as [|x xs IH]; intros es0 r ot U V fl c j Q Hat Hv Hj Hl Hxs Hsw Hroom Hc; iIntros "Ht Ha Hz Ho HQ".
  - rewrite zseq_nil; [|cbn; lia]. iApply wpv_ret. unfold need. cbn [omap list_omap length]. rewrite Z.sub_0_r.
    iApply ("HQ" $! r [] V ot fl with "[] Ht Ha Hz"). iPureIntro. split; [done|]. split; [done|]. split; [constructor|]. split; [done|].
    split; [by rewrite union_empty_l_L|]. done.
  - apply Forall_cons in Hxs as [Hx Hxs]. cbn [length] in *. rewrite zseq_cons; [|lia]. cbn [for_each]. iApply wpv_bind. iDestruct "Ho" as "[Hox Ho]".
    rewrite fmap_cons in Hv. assert (E : Z.to_nat j = length es0) by lia.
    assert (Hl2 : length (es0 ++ (inval ∘ upage_word) x :: (inval ∘ upage_word <$> xs)) = Datatypes.S n) by (rewrite length_app; cbn; rewrite length_fmap; lia).
    iApply (page_out_step l r _ _ j x z U V with "Ht Ha Hz Hox"); [done|exact Hv|done|lia|rewrite E list_lookup_middle //|done|done|rewrite need_cons in Hroom; lia|lia|].
    iIntros (r1 mo V1 ot1 (Hat1 & Hst & Hdis & Hsw1 & Hk1 & Hv1)) "Ht Ha Hz". rewrite E insert_app_r_alt // Nat.sub_diag cons_middle app_assoc in Hv1. cbn [list_insert] in Hv1.
    assert (Hn1 : (need [x] ≤ 1)%nat) by (destruct x; unfold need; cbn; lia). replace (j + Z.of_nat (Datatypes.S (length xs))) with (j + 1 + Z.of_nat (length xs)) by lia.
    iApply (IH (es0 ++ [slot_entry mo]) r1 ot1 (taken [mo] ∪ U) V1 with "Ht Ha Hz Ho"); [done|exact Hv1|rewrite length_app; cbn; lia|rewrite length_app; cbn; lia|done|done|by eapply unused_taken|lia|].
    iIntros (r2 ms V2 ot2 fl2 (Hat2 & Hst2 & Hnd & Hdis2 & Hsw2 & Hk2 & Hv2 & Hfl)) "Ht Ha Hz".
    assert (Hm : ∀ m, mo = Some m → m ∉ omap id ms).
    { intros m -> Hin. apply taken_elem in Hin. apply (Hdis2 m Hin). apply elem_of_union_l. rewrite taken_elem. by left. }
    rewrite need_cons. replace (c - Z.of_nat (need [x]) - Z.of_nat (need xs)) with (c - Z.of_nat (need [x] + need xs)) by lia.
    iApply ("HQ" $! r2 (mo :: ms) V2 ot2 fl2 with "[] Ht Ha Hz"). iPureIntro. split; [done|]. split; [apply Forall2_cons; split; [by eapply stored_keeps|done]|].
    split; [by apply omap_id_cons|]. rewrite taken_cons. split; [set_solver|]. split; [|split; [by eapply keeps_trans|]].
    + replace (taken [mo] ∪ taken ms ∪ U) with (taken ms ∪ (taken [mo] ∪ U)) by set_solver. done.
    + split; [by rewrite -app_assoc in Hv2|]. rewrite Hfl. destruct x as [[[p f] ws]|]; cbn; [by rewrite Permutation_middle|done].
Qed.

Abbreviation swapout := (swapout pages alloc_page_cnt zero_page zero_page_cnt invalid_pt).

Lemma update_inval (xs : list upage) : update inval <$> (upage_word <$> xs) = (inval ∘ upage_word <$> xs).
Proof. rewrite -list_fmap_compose. apply list_fmap_ext. intros _ x _. cbn. unfold update. by case_match eqn:E; [apply Z.eqb_eq in E as ->|]. Qed.

(** The lock, taken at once by the process that uses the page directory. *)
Lemma wpv_lock_offline l r (Q : unit → vm S → hProp) : at_dir d l r0 r →
  (∀ r', ⌜at_lock true d l r0 r' ∧ r'.(store_of) = r.(store_of)⌝ -∗ Q tt r') -∗ wpv (lock_offline d) Q r.
Proof.
  iIntros (Hat) "HQ". destruct (at_dir_lookup d l r0 r Hat) as [o Hd]. pose proof Hat as [Ht _].
  iApply (wpv_rest _ _ _ tt (put_dir d (mkPgdir l o true) r)).
  - rewrite (bind_Ok _ _ _ _ _ (acquire_lock_run r d l o Hd)) (bind_Ok _ _ _ d (put_dir d (mkPgdir l o true) r)); [|apply (f_equal (λ t, Ok (t, _)) Ht)].
    by rewrite (bind_Ok _ _ _ _ _ (get_dir_run _ d _ (put_dir_lookup _ _ _))) Z.eqb_refl.
  - iApply "HQ". iPureIntro. split; [by apply (at_lock_put false true d l)|done].
Qed.

(** The section of the range, in memory. *)
Record in_core (s : section) : Prop := {
  ic_begin : s.(sbegin) = B;
  ic_end : s.(send) = B + Z.of_nat n * PAGE_SIZE;
  ic_swap : Z.land s.(flags) ST_SWAP = 0;
  ic_file : Z.land s.(flags) ST_FILE = 0;
  ic_flags : 0 ≤ s.(flags) < 2 ^ 64;
  ic_lock : s.(sleeplock) = false;
}.
Definition out_section (s : section) : section := with_flags (Z.lor s.(flags) ST_SWAP) s.

(** The pages [xs] are in the slots [ms], what was in the other slots stays. *)
Definition swapped (U : gset nat) (V V' : Z → list Z) (xs : list upage) (ms : list (option nat)) r : Prop :=
  Forall2 (stored V') xs ms ∧ NoDup (omap id ms) ∧ taken ms ## U ∧ swap_at r.(store_of) (taken ms ∪ U) V' None ∧ keeps V V' ms.

Lemma swapout_spec l i s z xs r ot U V fl c (Q : unit → vm S → hProp) :
  at_dir d l r0 r → l !! i = Some s → in_core s → view (upage_word <$> xs) ot → length xs = Datatypes.S n → Forall (upage_ok z) xs →
  swap_at r.(store_of) U V None → (need xs ≤ unused U)%nat → - 2 ^ 61 < c - Z.of_nat (length xs) ∧ c < 2 ^ 62 →
  table d ot -∗ free_pages fl c -∗ zero_page ↦ z -∗ ([∗ list] x ∈ xs, upage_own x) -∗
  (∀ r' ms V' ot' fl', ⌜at_dir d (<[i := out_section s]> l) r0 r' ∧ swapped U V V' xs ms r' ∧ view (slot_entry <$> ms) ot' ∧ fl' ≡ₚ omap upage_frame xs ++ fl⌝ -∗
     table d ot' -∗ free_pages fl' (c - Z.of_nat (need xs)) -∗ zero_page ↦ z -∗ Q tt r') -∗
  wpv (swapout d i) Q r.
Proof.
  iIntros (Hat Hs [Hb He Hsw0 Hf Hfl Hsl] Hv Hl Hxs Hsw Hroom Hc) "Ht Ha Hz Ho HQ". pose proof (lookup_lt_Some _ _ _ Hs) as Hlt.
  iApply wpv_bind. iApply wpv_lock_offline; [exact Hat|]. iIntros (r1 [Hat1 Est1]).
  iApply wpv_rest_bind; [by apply (at_lock_get true d l r0)|]. rewrite Hb He.
  unfold has. rewrite Hsw0 Z.eqb_refl. iApply wpv_bind. iApply wpv_ret.
  destruct (at_lock_upd true d l r0 r1 i s out_section Hat1 Hs) as (r2 & E2 & Hat2 & Est2). iApply wpv_rest_bind; [exact E2|].
  iApply wpv_bind. iApply (update_range_spec inval with "Ht"); [exact Hv|by rewrite length_fmap|]. iIntros (ot1 Hv1) "Ht". rewrite update_inval in Hv1.
  assert (Hs2 : <[i := out_section s]> l !! i = Some (out_section s)) by (by apply list_lookup_insert_eq).
  destruct (at_lock_upd true d _ r0 r2 i _ (with_sleeplock true) Hat2 Hs2) as (r3 & E3 & Hat3 & Est3). rewrite list_insert_insert_eq in Hat3.
  iApply wpv_rest_bind. { unfold acquire_sleeplock. rewrite (bind_Ok _ _ _ _ _ (at_lock_get true d _ r0 r2 i _ Hat2 Hs2)). cbn [sleeplock out_section with_flags]. by rewrite Hsl. }
  destruct (at_lock_lookup _ _ _ _ _ Hat3) as [o3 Hd3]. iApply wpv_rest_bind; [by apply upd_dir_run|]. set (r4 := put_dir d _ r3).
  set (s3 := with_sleeplock true (out_section s)) in *. assert (Hat4 : at_dir d (<[i := s3]> l) r0 r4) by (by apply (at_lock_put true false d (<[i := s3]> l))).
  assert (Hs3 : <[i := s3]> l !! i = Some s3) by (by apply list_lookup_insert_eq). iApply wpv_rest_bind; [by apply (at_lock_get false d (<[i := s3]> l) r0)|].
  assert (HF : negb (Z.land s3.(flags) ST_FILE =? 0) = false) by (cbn; by rewrite Z.land_lor_distr_l Hf). rewrite HF. iApply wpv_bind.
  rewrite page_range_eq for_each_fmap -Hl. change (Z.of_nat (length xs)) with (0 + Z.of_nat (length xs)).
  iApply (page_outs_spec (<[i := s3]> l) z xs [] r4 ot1 U V with "Ht Ha Hz Ho"); [done|exact Hv1|done|done|done|cbn; by rewrite Est3 Est2 Est1|done|done|].
  iIntros (r5 ms V5 ot5 fl5 (Hat5 & H1 & H2 & H3 & H4 & H5 & Hv5 & Hfl5)) "Ht Ha Hz".
  destruct (at_lock_upd false d _ r0 r5 i _ (with_sleeplock false) Hat5 Hs3) as (r6 & E6 & Hat6 & Est6). iApply wpv_rest; [exact E6|].
  iApply ("HQ" $! r6 ms V5 ot5 fl5 with "[] Ht Ha Hz"). iPureIntro. rewrite list_insert_insert_eq in Hat6. split; [|split; [|done]].
  - destruct s. cbn in Hsl. subst. exact Hat6.
  - unfold swapped. by rewrite Est6.
Qed.

(** *** Swapping: a section back in *)

Abbreviation page_in := (page_in pages alloc_page_cnt zero_page zero_page_cnt end_ invalid_pt PHYSTOP get_offline_proc).

(** What comes back of a page: its first 512 bytes, eight times. *)
Definition echo (ws : list Z) : list Z := concat (replicate 8 (take BLOCK_WORDS ws)).

Lemma echo_step (hd ws : list Z) i : length hd = 64%nat → (i < 8)%nat → length ws = 512%nat →
  length (concat (replicate i hd)) = (64 * i)%nat ∧ drop (64 * i) ws = take 64 (drop (64 * i) ws) ++ drop (64 * Datatypes.S i) ws ∧
  length (take 64 (drop (64 * i) ws)) = 64%nat ∧ concat (replicate (Datatypes.S i) hd) = concat (replicate i hd) ++ hd.
Proof.
  intros Hh Hi Hw. split_and!.
  - clear Hi. induction i as [|i IH]; [done|]. cbn [replicate concat]. rewrite length_app IH. lia.
  - rewrite -{1}(take_drop 64 (drop (64 * i) ws)) drop_drop. do 2 f_equal. lia.
  - rewrite length_take length_drop. lia.
  - rewrite replicate_S_end concat_app. cbn. by rewrite app_nil_r.
Qed.

Lemma wpv_read_block l r q ws0 ws m i U V (Q : unit → vm S → hProp) :
  at_dir d l r0 r → (m < SLOTS)%nat → 0 ≤ i < 8 → length ws0 = 512%nat → length ws = 512%nat → Forall word_ok ws →
  slot_holds V m ws → swap_at r.(store_of) U V None →
  page q (concat (replicate (Z.to_nat i) (take BLOCK_WORDS ws)) ++ drop (64 * Z.to_nat i) ws0) -∗
  (∀ r', ⌜at_dir d l r0 r' ∧ swap_at r'.(store_of) U V None⌝ -∗
     page q (concat (replicate (Datatypes.S (Z.to_nat i)) (take BLOCK_WORDS ws)) ++ drop (64 * Datatypes.S (Z.to_nat i)) ws0) -∗ Q tt r') -∗
  wpv (read_block q (slot_block m) i) Q r.
Proof.
  iIntros (Hat Hm Hi Hl0 Hl Hok Hhold Hsw) "Hp HQ". unfold SLOTS in Hm. assert (HS : slot_block m = 800 + 8 * Z.of_nat m) by done.
  assert (Hb : swap_block (slot_block m + i)) by (unfold swap_block; rewrite HS; unfold SWAP_START, SWAP_END; lia). unfold BLOCK_WORDS in *.
  assert (Hh : length (take 64 ws) = 64%nat) by (rewrite length_take Hl; lia). destruct (echo_step (take 64 ws) ws0 (Z.to_nat i)) as (E1 & E2 & E3 & E4); [done|lia|done|].
  destruct (law_sw_acquire _ U V _ Hsw Hb) as (b & st1 & A1 & Hst1). iApply wpv_rest_bind; [apply on_store_run; rewrite u32_small; [exact A1|rewrite HS; lia]|].
  iApply wpv_rest_bind; [apply on_store_run; exact (law_sw_load _ U V _ _ _ Hst1)|]. rewrite (Hhold i Hi).
  assert (Ew : words_of 64 (head_bytes ws) = take 64 ws) by (unfold head_bytes, BLOCK_WORDS; rewrite -{1}Hh; apply words_of_bytes; by apply Forall_take). rewrite Ew.
  rewrite E2 E4 !page_app E1. iDestruct "Hp" as "(Hpa & Hpb & Hpc)". iApply wpv_mem_bind.
  replace (q + i * BLOCK_SIZE) with (q + 8 * Z.of_nat (64 * Z.to_nat i)) by (unfold BLOCK_SIZE; lia).
  iApply (wpm_store_words with "Hpb"); [by rewrite E3|]. iIntros "Hpb". destruct (law_sw_release _ U V _ _ Hst1) as (st2 & A2 & Hst2).
  iApply wpv_rest; [apply on_store_run; exact A2|]. iApply ("HQ" with "[]"); [iPureIntro; split; [by apply at_dir_store, at_dir_store|exact Hst2]|].
  rewrite !page_app length_app E1 E3 Hh. iFrame. by rewrite Nat2Z.inj_add Z.mul_add_distr_l Z.add_assoc.
Qed.

Lemma page_ok_kernel q : page_ok q → Z.land q KSPACE_MASK =? 0 = false.
Proof.
  intros [Hq _]. apply Z.eqb_neq. change KSPACE_MASK with (Z.shiftl (Z.ones 16) 48). rewrite land_field // Z.shiftr_div_pow2 //.
  unfold KSPACE_MASK in Hq. assert (E : q / 2 ^ 48 = 65535) by (symmetry; apply (Z.div_unique q (2 ^ 48) 65535 (q - 65535 * 2 ^ 48)); lia). by rewrite E.
Qed.

Lemma read_page_spec l r q ws0 ws m U V (Q : unit → vm S → hProp) :
  at_dir d l r0 r → page_ok q → (m < SLOTS)%nat → length ws0 = 512%nat → length ws = 512%nat → Forall word_ok ws →
  slot_holds V m ws → swap_at r.(store_of) U V None →
  page q ws0 -∗ (∀ r', ⌜at_dir d l r0 r' ∧ swap_at r'.(store_of) U V None⌝ -∗ page q (echo ws) -∗ Q tt r') -∗
  wpv (read_page_from_disk q (slot_block m)) Q r.
Proof.
  iIntros (Hat Hq Hm Hl0 Hl Hok Hhold Hsw) "Hp HQ". unfold read_page_from_disk. rewrite page_ok_kernel //.
  set (hd := take BLOCK_WORDS ws). set (P := λ i : nat, page q (concat (replicate i hd) ++ drop (64 * i) ws0)).
  set (I := λ (i : Z) (r1 : vm S), (⌜at_dir d l r0 r1 ∧ swap_at r1.(store_of) U V None⌝ ∗ P (Z.to_nat i))%I).
  iApply (wpv_mono with "[Hp]").
  - iApply (wpv_for_zseq (read_block q (slot_block m)) I 0 8); [lia| |].
    + intros i r1 Hi. iIntros "([%Hat1 %Hsw1] & Hp)". iApply (wpv_read_block l r1 q ws0 ws m i with "Hp"); [done..|]. iIntros (r2 Hr2) "Hp". iSplitR; [done|].
      unfold P. by replace (Z.to_nat (i + 1)) with (Datatypes.S (Z.to_nat i)) by lia.
    + iSplitR; [done|]. iExact "Hp".
  - iIntros ([] r1) "[%Hr Hp]". iApply ("HQ" with "[//]"). unfold P, echo. change (64 * Z.to_nat 8)%nat with 512%nat. by rewrite drop_ge ?app_nil_r; [|rewrite Hl0].
Qed.

Definition user_entry (qo : option Z) : Z := match qo with None => 0 | Some q => Z.lor (Z.lor (K2P q) PTE_USER_DATA) PTE_VALID end.
(** The page [x] of the section is back, at [q]. *)
Definition restored (x : upage) (qo : option Z) : hProp :=
  match x, qo with None, None => emp%I | Some (_, _, ws), Some q => page q (echo ws) | _, _ => False%I end.

Lemma page_in_step fuel l r es ot k x z mo U V fl c (Q : unit → vm S → hProp) :
  at_dir d l r0 r → view es ot → length es = Datatypes.S n → 0 ≤ k < Z.of_nat (Datatypes.S n) → es !! Z.to_nat k = Some (slot_entry mo) →
  upage_ok z x → stored V x mo → taken [mo] ## U → swap_at r.(store_of) (taken [mo] ∪ U) V None → (5 ≤ length fl)%nat → plenty c → 0 ≤ c < 2 ^ 61 →
  table d ot -∗ free_pages fl c -∗
  (∀ r' qo used fl' ot', ⌜at_dir d l r0 r' ∧ swap_at r'.(store_of) U V None ∧ fl = omap id [qo] ++ used ++ fl' ∧ (length used ≤ 4)%nat ∧
       view (<[Z.to_nat k := user_entry qo]> es) ot'⌝ -∗
     table d ot' -∗ free_pages fl' (c + Z.of_nat (length (omap id [qo] ++ used))) -∗ restored x qo -∗ Q tt r') -∗
  wpv (page_in fuel d (va_of k)) Q r.
Proof.
  iIntros (Hat Hv Hl Hk He Hx Hst Hdis Hsw Hfl Hp Hc) "Ht Ha HQ". pose proof (view_entry es ot k _ Hv He Hk) as Hr. unfold Paging.page_in.
  iApply wpv_mem_bind. iApply (wpm_entry_at with "Ht"); [by apply va_ok|]. rewrite Hr. destruct x as [[[p f] ws]|], mo as [m|]; try done; cycle 1.
  { iSplit; [by iIntros (a T [_ []])|]. iIntros (_) "Ht". iApply wpv_ret. iApply ("HQ" $! r None [] fl ot with "[] Ht [Ha] [//]"); [|cbn; by rewrite Z.add_0_r].
    iPureIntro. change (taken [None]) with (∅ : gset nat) in Hsw. rewrite union_empty_l_L in Hsw. split; [done|]. split; [done|]. split; [done|]. split; [cbn; lia|]. rewrite list_insert_id //. }
  destruct Hst as [Hm Hhold], Hx as (_ & Hws & Hok & _). destruct (slot_word m Hm) as (_ & E0 & _ & _ & E3 & _). cbn [slot_entry] in *. iSplit; [|by iIntros (?)].
  iIntros (a T [HT _]) "Ht". destruct fl as [|q fl]; [cbn in Hfl; lia|]. iApply wpv_bind. iApply (wpv_alloc_user with "Ha"); [done|lia|].
  iIntros (ws1 [Hq Hws1]) "Ha Hpg". iApply wpv_mem_bind. iApply (wpm_load_entry with "Ht"); [exact HT|]. rewrite Hr E3. iIntros "Ht". iApply wpv_bind.
  iApply (read_page_spec l r q _ ws m with "Hpg"); [done|done|done|cbn; lia|done|done|exact Hhold|exact Hsw|]. iIntros (r1 [Hat1 Hsw1]) "Hpg".
  iApply wpv_mem_bind. iApply (wpm_load_entry with "Ht"); [exact HT|]. rewrite Hr E3. iIntros "Ht". rewrite taken_one in Hdis Hsw1.
  destruct (release_run r1 ({[m]} ∪ U) V m Hsw1 Hm) as (st & E & Hst); [set_solver|]. iApply wpv_rest_bind; [exact E|]. iApply wpv_mem.
  iApply (wpm_vmmap with "Ht Ha"); [by apply va_ok|cbn in Hfl; lia|lia|]. iIntros (used fl' ot' (-> & Hu & Hmap)) "Ha Ht".
  iApply ("HQ" $! _ (Some q) used fl' ot' with "[] Ht [Ha] Hpg"); [|cbn; by replace (c + Z.of_nat (Datatypes.S (length used))) with (c + 1 + Z.of_nat (length used)) by lia].
  iPureIntro. split; [by apply at_dir_store|]. split; [|split; [done|split; [done|by eapply (view_mapped B n HB HB0 HBn)]]].
  cbn [store_of set_store]. replace U with (({[m]} ∪ U) ∖ {[m]}) by set_solver. exact Hst.
Qed.

Lemma page_ins_spec fuel l z V xs : ∀ ms es0 r ot U fl c j (Q : unit → vm S → hProp),
  at_dir d l r0 r → view (es0 ++ (slot_entry <$> ms)) ot → j = Z.of_nat (length es0) → (length es0 + length ms = Datatypes.S n)%nat →
  Forall (upage_ok z) xs → Forall2 (stored V) xs ms → NoDup (omap id ms) → taken ms ## U → swap_at r.(store_of) (taken ms ∪ U) V None →
  (5 * length ms ≤ length fl)%nat → 0 ≤ c → c + Z.of_nat (5 * length ms) + REVERSED_PAGES < total_page end_ PHYSTOP → c < 2 ^ 60 - Z.of_nat (5 * length ms) →
  table d ot -∗ free_pages fl c -∗
  (∀ r' qs used fl' ot', ⌜at_dir d l r0 r' ∧ swap_at r'.(store_of) U V None ∧ fl ≡ₚ omap id qs ++ used ++ fl' ∧ view (es0 ++ (user_entry <$> qs)) ot'⌝ -∗
     table d ot' -∗ free_pages fl' (c + Z.of_nat (length (omap id qs ++ used))) -∗ ([∗ list] x;qo ∈ xs;qs, restored x qo) -∗ Q tt r') -∗
  wpv (for_each (zseq j (j + Z.of_nat (length ms))) (λ k, page_in fuel d (va_of k))) Q r.
Proof.
  induction xs as [|x xs IH]; intros ms es0 r ot U fl c j Q Hat Hv Hj Hl Hxs Hst Hnd Hdis Hsw Hfl Hc0 Hc1 Hc2; iIntros "Ht Ha HQ".
  - apply Forall2_nil_inv_l in Hst as ->. rewrite zseq_nil; [|cbn; lia]. iApply wpv_ret. change (taken []) with (∅ : gset nat) in Hsw. rewrite union_empty_l_L in Hsw.
    iApply ("HQ" $! r [] [] fl ot with "[] Ht [Ha]"); [done|cbn; by rewrite Z.add_0_r|done].
  - apply Forall2_cons_inv_l in Hst as (mo & ms' & Hst1 & Hst & ->). apply Forall_cons in Hxs as [Hx Hxs]. cbn [length] in *. rewrite zseq_cons; [|lia]. cbn [for_each].
    iApply wpv_bind. rewrite fmap_cons in Hv. assert (E : Z.to_nat j = length es0) by lia. rewrite taken_cons in Hdis Hsw.
    assert (Hnd' : NoDup (omap id ms') ∧ taken [mo] ## taken ms').
    { destruct mo as [m|]; cbn in Hnd; [|done]. apply NoDup_cons in Hnd as [Hm Hnd]. split; [done|]. rewrite taken_one. apply disjoint_singleton_l. by rewrite taken_elem. }
    destruct Hnd' as [Hnd' Hdis'].
    assert (Hl2 : length (es0 ++ slot_entry mo :: (slot_entry <$> ms')) = Datatypes.S n) by (rewrite length_app; cbn; rewrite length_fmap; lia).
    iApply (page_in_step fuel l r _ _ j x z mo (taken ms' ∪ U) V with "Ht Ha"); [done|exact Hv|done|lia|rewrite E list_lookup_middle //|done|done|set_solver|by rewrite union_assoc_L|lia|apply plenty_small; lia|lia|].
    iIntros (r1 qo used1 fl1 ot1 (Hat1 & Hsw1 & Efl & Hu1 & Hv1)) "Ht Ha Hres". rewrite E insert_app_r_alt // Nat.sub_diag cons_middle app_assoc in Hv1. cbn [list_insert] in Hv1.
    assert (Hq : (length (omap id [qo]) ≤ 1)%nat) by (destruct qo; cbn; lia). pose proof (f_equal length Efl) as Hlen. rewrite !length_app in Hlen.
    replace (j + Z.of_nat (Datatypes.S (length ms'))) with (j + 1 + Z.of_nat (length ms')) by lia.
    iApply (IH ms' (es0 ++ [user_entry qo]) r1 ot1 U with "Ht Ha"); [done|exact Hv1|rewrite length_app; cbn; lia|rewrite length_app; cbn; lia|done|done|done|set_solver|done|lia|lia|rewrite length_app; lia|rewrite length_app; lia|].
    iIntros (r2 qs used fl' ot' (Hat2 & Hsw2 & Hfl2 & Hv2)) "Ht Ha Hrs". iApply ("HQ" $! r2 (qo :: qs) (used1 ++ used) fl' ot' with "[] Ht [Ha] [Hres Hrs]"); [| |iFrame].
    + iPureIntro. split; [done|]. split; [done|]. split; [|by rewrite -app_assoc in Hv2]. rewrite Efl Hfl2. destruct qo; cbn; solve_Permutation.
    + rewrite -Z.add_assoc -Nat2Z.inj_add. replace (length (omap id [qo] ++ used1) + length (omap id qs ++ used))%nat with (length (omap id (qo :: qs) ++ used1 ++ used)); [iExact "Ha"|].
      destruct qo; cbn; rewrite !length_app; cbn; lia.
Qed.

Abbreviation swapin := (swapin pages alloc_page_cnt zero_page zero_page_cnt end_ invalid_pt PHYSTOP get_offline_proc).

Lemma update_valid (qs : list (option Z)) : update (λ e, Z.lor e PTE_VALID) <$> (user_entry <$> qs) = user_entry <$> qs.
Proof.
  rewrite -list_fmap_compose. apply list_fmap_ext. intros _ [q|] _; [|done]. cbn. unfold update. case_match eqn:E; [by apply Z.eqb_eq in E|].
  by rewrite -Z.lor_assoc Z.lor_diag.
Qed.

(** Without the flag again. *)
Lemma flags_back f : 0 ≤ f < 2 ^ 64 → Z.land f ST_SWAP = 0 → Z.land (Z.lor f ST_SWAP) (u64 (Z.lnot ST_SWAP)) = f.
Proof.
  intros Hf Hz0. rewrite Z.land_lor_distr_l. change (Z.land ST_SWAP (u64 (Z.lnot ST_SWAP))) with 0. rewrite Z.lor_0_r.
  change (u64 (Z.lnot ST_SWAP)) with (Z.ldiff (Z.ones 64) ST_SWAP). apply Z.bits_inj'. intros i Hi. rewrite Z.land_spec Z.ldiff_spec.
  pose proof (f_equal (λ x, Z.testbit x i) Hz0) as Hb. cbn in Hb. rewrite Z.land_spec Z.bits_0 in Hb. destruct (Z.testbit f i) eqn:Ef; [|done].
  cbn in Hb |- *. rewrite Hb. rewrite andb_true_r. apply Z.ones_spec_low. split; [done|]. destruct (decide (i < 64)) as [|Hge]; [done|].
  rewrite Z.bits_above_log2 in Ef; [done|lia|]. destruct (decide (f = 0)) as [->|]; [cbn; lia|]. apply Z.log2_lt_pow2; [lia|].
  eapply Z.lt_le_trans; [apply Hf|]. apply Z.pow_le_mono_r; lia.
Qed.
Lemma section_back s : in_core s → with_flags (Z.land (out_section s).(flags) (u64 (Z.lnot ST_SWAP))) (out_section s) = s.
Proof. intros [_ _ H1 _ H2 _]. destruct s as [f b e sl]. cbn in *. unfold with_flags, out_section. cbn. by rewrite flags_back. Qed.

Lemma swapin_spec fuel l i s z xs ms r ot U V fl c (Q : unit → vm S → hProp) :
  at_dir d (<[i := out_section s]> l) r0 r → l !! i = Some s → in_core s → view (slot_entry <$> ms) ot → length ms = Datatypes.S n → Forall (upage_ok z) xs →
  Forall2 (stored V) xs ms → NoDup (omap id ms) → taken ms ## U → swap_at r.(store_of) (taken ms ∪ U) V None →
  (5 * length ms ≤ length fl)%nat → 0 ≤ c → c + Z.of_nat (5 * length ms) + REVERSED_PAGES < total_page end_ PHYSTOP → c < 2 ^ 60 - Z.of_nat (5 * length ms) →
  table d ot -∗ free_pages fl c -∗
  (∀ r' qs used fl' ot', ⌜at_dir d l r0 r' ∧ swap_at r'.(store_of) U V None ∧ fl ≡ₚ omap id qs ++ used ++ fl' ∧ view (user_entry <$> qs) ot'⌝ -∗
     table d ot' -∗ free_pages fl' (c + Z.of_nat (length (omap id qs ++ used))) -∗ ([∗ list] x;qo ∈ xs;qs, restored x qo) -∗ Q tt r') -∗
  wpv (swapin fuel d i) Q r.
Proof.
  iIntros (Hat Hs Hcore Hv Hl Hxs Hst Hnd Hdis Hsw Hfl Hc0 Hc1 Hc2) "Ht Ha HQ". pose proof (lookup_lt_Some _ _ _ Hs) as Hlt. pose proof Hcore as [Hb He Hsw0 _ _ Hsl].
  assert (Hs2 : <[i := out_section s]> l !! i = Some (out_section s)) by (by apply list_lookup_insert_eq).
  iApply wpv_rest_bind; [by apply (at_lock_get false d (<[i := out_section s]> l) r0)|]. cbn [sbegin send out_section with_flags]. rewrite Hb He.
  assert (HS : has (out_section s) ST_SWAP = true) by (unfold has; cbn; by rewrite Z.land_lor_distr_l Hsw0). unfold out_section, with_flags in HS |- *. rewrite HS.
  fold (with_flags (Z.lor s.(flags) ST_SWAP) s). fold (out_section s). iApply wpv_bind. iApply wpv_ret.
  destruct (at_lock_upd false d _ r0 r i _ (with_sleeplock true) Hat Hs2) as (r1 & E1 & Hat1 & Est1). rewrite list_insert_insert_eq in Hat1.
  iApply wpv_rest_bind. { unfold acquire_sleeplock. rewrite (bind_Ok _ _ _ _ _ (at_lock_get false d _ r0 r i _ Hat Hs2)). cbn [sleeplock out_section with_flags]. by rewrite Hsl. }
  set (s3 := with_sleeplock true (out_section s)) in *. assert (Hs3 : <[i := s3]> l !! i = Some s3) by (by apply list_lookup_insert_eq).
  iApply wpv_bind. rewrite page_range_eq for_each_fmap -Hl. change (Z.of_nat (length ms)) with (0 + Z.of_nat (length ms)).
  iApply (page_ins_spec fuel (<[i := s3]> l) z V xs ms [] r1 ot U fl c with "Ht Ha"); [done|exact Hv|done|done|done|done|done|done|by rewrite Est1|done|done|done|done|].
  iIntros (r2 qs used fl' ot2 (Hat2 & Hsw2 & Hfl2 & Hv2)) "Ht Ha Hrs". iDestruct (big_sepL2_length with "Hrs") as %Hlq. pose proof (Forall2_length _ _ _ Hst) as Hlx.
  destruct (at_lock_upd false d _ r0 r2 i _ (with_sleeplock false) Hat2 Hs3) as (r3 & E3 & Hat3 & Est3). rewrite list_insert_insert_eq in Hat3.
  iApply wpv_rest_bind; [exact E3|]. iApply wpv_bind. rewrite ?Z.add_0_l Hl -(page_range_eq B n).
  iApply (update_range_spec (λ e, Z.lor e PTE_VALID) with "Ht"); [exact Hv2|rewrite length_fmap; lia|]. iIntros (ot3 Hv3) "Ht". rewrite update_valid in Hv3.
  assert (Es : with_sleeplock false s3 = out_section s) by (unfold s3; destruct s; cbn in Hsl; by subst). rewrite Es in Hat3.
  destruct (at_lock_upd false d _ r0 r3 i _ (λ s, with_flags (Z.land s.(flags) (u64 (Z.lnot ST_SWAP))) s) Hat3 Hs2) as (r4 & E4 & Hat4 & Est4).
  iApply wpv_rest; [exact E4|]. iApply ("HQ" with "[] Ht Ha Hrs"). iPureIntro. rewrite list_insert_insert_eq section_back // list_insert_id // in Hat4.
  split; [done|]. rewrite Est4 Est3. done.
Qed.

End over.
End swapping.
End steps.

(** ** Examples *)

Module PageSwapExamples.
Import PageTableExamples SwapExamples PagingExamples.

(** A section of one page, mapped to [frame0]. *)
Definition one_page : section := mkSection ST_HEAP 0x1000 0x2000 false.
Definition vm1 : vm St := mkVm {[8 := mkPgdir [one_page] true false]} 8 0 empty_disk.
Definition pages1 : list upage := [Some (frame0, PTE_USER_DATA, words0); None].
Abbreviation swapout := (swapout 16 24 32 40 0).
Abbreviation swapin := (swapin 16 24 32 40 END 0 STOP none_offline).

Lemma pages1_ok : Forall (upage_ok 0) pages1.
Proof.
  constructor; [|by repeat constructor]. split; [done|]. split; [done|]. split; [|done]. apply Forall_forall. intros w Hw.
  apply elem_of_zseq in Hw. unfold word_ok. lia.
Qed.

Lemma pages_back p f ws qs : ([∗ list] x;qo ∈ [Some (p, f, ws); None];qs, restored x qo) ⊢ ∃ q, ⌜qs = [Some q; None]⌝ ∗ page q (echo ws).
Proof.
  iIntros "H". iDestruct (big_sepL2_length with "H") as %Hl. destruct qs as [|q1 [|q2 [|q3 qs]]]; try done.
  iDestruct "H" as "(H1 & H2 & _)". destruct q1 as [q|]; [|done]. destruct q2 as [q2|]; [done|]. iExists q. iSplitR; [done|]. iExact "H1".
Qed.

End PageSwapExamples.
