(* ===== verification/KernelPt.v ===== *)
(** * The kernel's own page tables

    [src/aarch64/kernel_pt.c]: the tables that are in the image of the kernel,
    entry by entry, and what they map: a kernel address to the physical address
    that [K2P] gives, as normal memory below [PHYSTOP], which is where the page
    allocator takes its pages, and as device memory above.  The addresses of
    the tables are those the linker gives them. *)

From stdpp Require Import base list.
From S2P Require Import Prelude Pages PageTable Paging.
#[local] Open Scope Z_scope.

Definition MT_DEVICE_nGnRnE : Z := 0x0.
Definition PTE_DEVICE : Z := Z.lor (Z.shiftl MT_DEVICE_nGnRnE 2) AF_USED.
Definition PTE_BLOCK : Z := 0x1.
Definition PTE_KERNEL : Z := Z.shiftl 0 6.
Definition PTE_KERNEL_DATA : Z := Z.lor (Z.lor PTE_KERNEL PTE_NORMAL) PTE_BLOCK.
Definition PTE_KERNEL_DEVICE : Z := Z.lor (Z.lor PTE_KERNEL PTE_DEVICE) PTE_BLOCK.
Definition PHYSTOP : Z := 0x3f000000.

(** An array of 512 entries; those not given are 0. *)
Definition entries (l : list Z) : list Z := l ++ replicate (Z.to_nat N_PTE_PER_TABLE - length l) 0.

Definition _kernel_pt_level3 : list Z := [
   Z.lor 0x0 PTE_KERNEL_DATA; Z.lor 0x200000 PTE_KERNEL_DATA; Z.lor 0x400000 PTE_KERNEL_DATA; Z.lor 0x600000 PTE_KERNEL_DATA;
   Z.lor 0x800000 PTE_KERNEL_DATA; Z.lor 0xa00000 PTE_KERNEL_DATA; Z.lor 0xc00000 PTE_KERNEL_DATA; Z.lor 0xe00000 PTE_KERNEL_DATA;
   Z.lor 0x1000000 PTE_KERNEL_DATA; Z.lor 0x1200000 PTE_KERNEL_DATA; Z.lor 0x1400000 PTE_KERNEL_DATA; Z.lor 0x1600000 PTE_KERNEL_DATA;
   Z.lor 0x1800000 PTE_KERNEL_DATA; Z.lor 0x1a00000 PTE_KERNEL_DATA; Z.lor 0x1c00000 PTE_KERNEL_DATA; Z.lor 0x1e00000 PTE_KERNEL_DATA;
   Z.lor 0x2000000 PTE_KERNEL_DATA; Z.lor 0x2200000 PTE_KERNEL_DATA; Z.lor 0x2400000 PTE_KERNEL_DATA; Z.lor 0x2600000 PTE_KERNEL_DATA;
   Z.lor 0x2800000 PTE_KERNEL_DATA; Z.lor 0x2a00000 PTE_KERNEL_DATA; Z.lor 0x2c00000 PTE_KERNEL_DATA; Z.lor 0x2e00000 PTE_KERNEL_DATA;
   Z.lor 0x3000000 PTE_KERNEL_DATA; Z.lor 0x3200000 PTE_KERNEL_DATA; Z.lor 0x3400000 PTE_KERNEL_DATA; Z.lor 0x3600000 PTE_KERNEL_DATA;
   Z.lor 0x3800000 PTE_KERNEL_DATA; Z.lor 0x3a00000 PTE_KERNEL_DATA; Z.lor 0x3c00000 PTE_KERNEL_DATA; Z.lor 0x3e00000 PTE_KERNEL_DATA;
   Z.lor 0x4000000 PTE_KERNEL_DATA; Z.lor 0x4200000 PTE_KERNEL_DATA; Z.lor 0x4400000 PTE_KERNEL_DATA; Z.lor 0x4600000 PTE_KERNEL_DATA;
   Z.lor 0x4800000 PTE_KERNEL_DATA; Z.lor 0x4a00000 PTE_KERNEL_DATA; Z.lor 0x4c00000 PTE_KERNEL_DATA; Z.lor 0x4e00000 PTE_KERNEL_DATA;
   Z.lor 0x5000000 PTE_KERNEL_DATA; Z.lor 0x5200000 PTE_KERNEL_DATA; Z.lor 0x5400000 PTE_KERNEL_DATA; Z.lor 0x5600000 PTE_KERNEL_DATA;
   Z.lor 0x5800000 PTE_KERNEL_DATA; Z.lor 0x5a00000 PTE_KERNEL_DATA; Z.lor 0x5c00000 PTE_KERNEL_DATA; Z.lor 0x5e00000 PTE_KERNEL_DATA;
   Z.lor 0x6000000 PTE_KERNEL_DATA; Z.lor 0x6200000 PTE_KERNEL_DATA; Z.lor 0x6400000 PTE_KERNEL_DATA; Z.lor 0x6600000 PTE_KERNEL_DATA;
   Z.lor 0x6800000 PTE_KERNEL_DATA; Z.lor 0x6a00000 PTE_KERNEL_DATA; Z.lor 0x6c00000 PTE_KERNEL_DATA; Z.lor 0x6e00000 PTE_KERNEL_DATA;
   Z.lor 0x7000000 PTE_KERNEL_DATA; Z.lor 0x7200000 PTE_KERNEL_DATA; Z.lor 0x7400000 PTE_KERNEL_DATA; Z.lor 0x7600000 PTE_KERNEL_DATA;
   Z.lor 0x7800000 PTE_KERNEL_DATA; Z.lor 0x7a00000 PTE_KERNEL_DATA; Z.lor 0x7c00000 PTE_KERNEL_DATA; Z.lor 0x7e00000 PTE_KERNEL_DATA;
   Z.lor 0x8000000 PTE_KERNEL_DATA; Z.lor 0x8200000 PTE_KERNEL_DATA; Z.lor 0x8400000 PTE_KERNEL_DATA; Z.lor 0x8600000 PTE_KERNEL_DATA;
   Z.lor 0x8800000 PTE_KERNEL_DATA; Z.lor 0x8a00000 PTE_KERNEL_DATA; Z.lor 0x8c00000 PTE_KERNEL_DATA; Z.lor 0x8e00000 PTE_KERNEL_DATA;
   Z.lor 0x9000000 PTE_KERNEL_DATA; Z.lor 0x9200000 PTE_KERNEL_DATA; Z.lor 0x9400000 PTE_KERNEL_DATA; Z.lor 0x9600000 PTE_KERNEL_DATA;
   Z.lor 0x9800000 PTE_KERNEL_DATA; Z.lor 0x9a00000 PTE_KERNEL_DATA; Z.lor 0x9c00000 PTE_KERNEL_DATA; Z.lor 0x9e00000 PTE_KERNEL_DATA;
   Z.lor 0xa000000 PTE_KERNEL_DATA; Z.lor 0xa200000 PTE_KERNEL_DATA; Z.lor 0xa400000 PTE_KERNEL_DATA; Z.lor 0xa600000 PTE_KERNEL_DATA;
   Z.lor 0xa800000 PTE_KERNEL_DATA; Z.lor 0xaa00000 PTE_KERNEL_DATA; Z.lor 0xac00000 PTE_KERNEL_DATA; Z.lor 0xae00000 PTE_KERNEL_DATA;
   Z.lor 0xb000000 PTE_KERNEL_DATA; Z.lor 0xb200000 PTE_KERNEL_DATA; Z.lor 0xb400000 PTE_KERNEL_DATA; Z.lor 0xb600000 PTE_KERNEL_DATA;
   Z.lor 0xb800000 PTE_KERNEL_DATA; Z.lor 0xba00000 PTE_KERNEL_DATA; Z.lor 0xbc00000 PTE_KERNEL_DATA; Z.lor 0xbe00000 PTE_KERNEL_DATA;
   Z.lor 0xc000000 PTE_KERNEL_DATA; Z.lor 0xc200000 PTE_KERNEL_DATA; Z.lor 0xc400000 PTE_KERNEL_DATA; Z.lor 0xc600000 PTE_KERNEL_DATA;
   Z.lor 0xc800000 PTE_KERNEL_DATA; Z.lor 0xca00000 PTE_KERNEL_DATA; Z.lor 0xcc00000 PTE_KERNEL_DATA; Z.lor 0xce00000 PTE_KERNEL_DATA;
   Z.lor 0xd000000 PTE_KERNEL_DATA; Z.lor 0xd200000 PTE_KERNEL_DATA; Z.lor 0xd400000 PTE_KERNEL_DATA; Z.lor 0xd600000 PTE_KERNEL_DATA;
   Z.lor 0xd800000 PTE_KERNEL_DATA; Z.lor 0xda00000 PTE_KERNEL_DATA; Z.lor 0xdc00000 PTE_KERNEL_DATA; Z.lor 0xde00000 PTE_KERNEL_DATA;
   Z.lor 0xe000000 PTE_KERNEL_DATA; Z.lor 0xe200000 PTE_KERNEL_DATA; Z.lor 0xe400000 PTE_KERNEL_DATA; Z.lor 0xe600000 PTE_KERNEL_DATA;
   Z.lor 0xe800000 PTE_KERNEL_DATA; Z.lor 0xea00000 PTE_KERNEL_DATA; Z.lor 0xec00000 PTE_KERNEL_DATA; Z.lor 0xee00000 PTE_KERNEL_DATA;
   Z.lor 0xf000000 PTE_KERNEL_DATA; Z.lor 0xf200000 PTE_KERNEL_DATA; Z.lor 0xf400000 PTE_KERNEL_DATA; Z.lor 0xf600000 PTE_KERNEL_DATA;
   Z.lor 0xf800000 PTE_KERNEL_DATA; Z.lor 0xfa00000 PTE_KERNEL_DATA; Z.lor 0xfc00000 PTE_KERNEL_DATA; Z.lor 0xfe00000 PTE_KERNEL_DATA;
   Z.lor 0x10000000 PTE_KERNEL_DATA; Z.lor 0x10200000 PTE_KERNEL_DATA; Z.lor 0x10400000 PTE_KERNEL_DATA; Z.lor 0x10600000 PTE_KERNEL_DATA;
   Z.lor 0x10800000 PTE_KERNEL_DATA; Z.lor 0x10a00000 PTE_KERNEL_DATA; Z.lor 0x10c00000 PTE_KERNEL_DATA; Z.lor 0x10e00000 PTE_KERNEL_DATA;
   Z.lor 0x11000000 PTE_KERNEL_DATA; Z.lor 0x11200000 PTE_KERNEL_DATA; Z.lor 0x11400000 PTE_KERNEL_DATA; Z.lor 0x11600000 PTE_KERNEL_DATA;
   Z.lor 0x11800000 PTE_KERNEL_DATA; Z.lor 0x11a00000 PTE_KERNEL_DATA; Z.lor 0x11c00000 PTE_KERNEL_DATA; Z.lor 0x11e00000 PTE_KERNEL_DATA;
   Z.lor 0x12000000 PTE_KERNEL_DATA; Z.lor 0x12200000 PTE_KERNEL_DATA; Z.lor 0x12400000 PTE_KERNEL_DATA; Z.lor 0x12600000 PTE_KERNEL_DATA;
   Z.lor 0x12800000 PTE_KERNEL_DATA; Z.lor 0x12a00000 PTE_KERNEL_DATA; Z.lor 0x12c00000 PTE_KERNEL_DATA; Z.lor 0x12e00000 PTE_KERNEL_DATA;
   Z.lor 0x13000000 PTE_KERNEL_DATA; Z.lor 0x13200000 PTE_KERNEL_DATA; Z.lor 0x13400000 PTE_KERNEL_DATA; Z.lor 0x13600000 PTE_KERNEL_DATA;
   Z.lor 0x13800000 PTE_KERNEL_DATA; Z.lor 0x13a00000 PTE_KERNEL_DATA; Z.lor 0x13c00000 PTE_KERNEL_DATA; Z.lor 0x13e00000 PTE_KERNEL_DATA;
   Z.lor 0x14000000 PTE_KERNEL_DATA; Z.lor 0x14200000 PTE_KERNEL_DATA; Z.lor 0x14400000 PTE_KERNEL_DATA; Z.lor 0x14600000 PTE_KERNEL_DATA;
   Z.lor 0x14800000 PTE_KERNEL_DATA; Z.lor 0x14a00000 PTE_KERNEL_DATA; Z.lor 0x14c00000 PTE_KERNEL_DATA; Z.lor 0x14e00000 PTE_KERNEL_DATA;
   Z.lor 0x15000000 PTE_KERNEL_DATA; Z.lor 0x15200000 PTE_KERNEL_DATA; Z.lor 0x15400000 PTE_KERNEL_DATA; Z.lor 0x15600000 PTE_KERNEL_DATA;
   Z.lor 0x15800000 PTE_KERNEL_DATA; Z.lor 0x15a00000 PTE_KERNEL_DATA; Z.lor 0x15c00000 PTE_KERNEL_DATA; Z.lor 0x15e00000 PTE_KERNEL_DATA;
   Z.lor 0x16000000 PTE_KERNEL_DATA; Z.lor 0x16200000 PTE_KERNEL_DATA; Z.lor 0x16400000 PTE_KERNEL_DATA; Z.lor 0x16600000 PTE_KERNEL_DATA;
   Z.lor 0x16800000 PTE_KERNEL_DATA; Z.lor 0x16a00000 PTE_KERNEL_DATA; Z.lor 0x16c00000 PTE_KERNEL_DATA; Z.lor 0x16e00000 PTE_KERNEL_DATA;
   Z.lor 0x17000000 PTE_KERNEL_DATA; Z.lor 0x17200000 PTE_KERNEL_DATA; Z.lor 0x17400000 PTE_KERNEL_DATA; Z.lor 0x17600000 PTE_KERNEL_DATA;
   Z.lor 0x17800000 PTE_KERNEL_DATA; Z.lor 0x17a00000 PTE_KERNEL_DATA; Z.lor 0x17c00000 PTE_KERNEL_DATA; Z.lor 0x17e00000 PTE_KERNEL_DATA;
   Z.lor 0x18000000 PTE_KERNEL_DATA; Z.lor 0x18200000 PTE_KERNEL_DATA; Z.lor 0x18400000 PTE_KERNEL_DATA; Z.lor 0x18600000 PTE_KERNEL_DATA;
   Z.lor 0x18800000 PTE_KERNEL_DATA; Z.lor 0x18a00000 PTE_KERNEL_DATA; Z.lor 0x18c00000 PTE_KERNEL_DATA; Z.lor 0x18e00000 PTE_KERNEL_DATA;
   Z.lor 0x19000000 PTE_KERNEL_DATA; Z.lor 0x19200000 PTE_KERNEL_DATA; Z.lor 0x19400000 PTE_KERNEL_DATA; Z.lor 0x19600000 PTE_KERNEL_DATA;
   Z.lor 0x19800000 PTE_KERNEL_DATA; Z.lor 0x19a00000 PTE_KERNEL_DATA; Z.lor 0x19c00000 PTE_KERNEL_DATA; Z.lor 0x19e00000 PTE_KERNEL_DATA;
   Z.lor 0x1a000000 PTE_KERNEL_DATA; Z.lor 0x1a200000 PTE_KERNEL_DATA; Z.lor 0x1a400000 PTE_KERNEL_DATA; Z.lor 0x1a600000 PTE_KERNEL_DATA;
   Z.lor 0x1a800000 PTE_KERNEL_DATA; Z.lor 0x1aa00000 PTE_KERNEL_DATA; Z.lor 0x1ac00000 PTE_KERNEL_DATA; Z.lor 0x1ae00000 PTE_KERNEL_DATA;
   Z.lor 0x1b000000 PTE_KERNEL_DATA; Z.lor 0x1b200000 PTE_KERNEL_DATA; Z.lor 0x1b400000 PTE_KERNEL_DATA; Z.lor 0x1b600000 PTE_KERNEL_DATA;
   Z.lor 0x1b800000 PTE_KERNEL_DATA; Z.lor 0x1ba00000 PTE_KERNEL_DATA; Z.lor 0x1bc00000 PTE_KERNEL_DATA; Z.lor 0x1be00000 PTE_KERNEL_DATA;
   Z.lor 0x1c000000 PTE_KERNEL_DATA; Z.lor 0x1c200000 PTE_KERNEL_DATA; Z.lor 0x1c400000 PTE_KERNEL_DATA; Z.lor 0x1c600000 PTE_KERNEL_DATA;
   Z.lor 0x1c800000 PTE_KERNEL_DATA; Z.lor 0x1ca00000 PTE_KERNEL_DATA; Z.lor 0x1cc00000 PTE_KERNEL_DATA; Z.lor 0x1ce00000 PTE_KERNEL_DATA;
   Z.lor 0x1d000000 PTE_KERNEL_DATA; Z.lor 0x1d200000 PTE_KERNEL_DATA; Z.lor 0x1d400000 PTE_KERNEL_DATA; Z.lor 0x1d600000 PTE_KERNEL_DATA;
   Z.lor 0x1d800000 PTE_KERNEL_DATA; Z.lor 0x1da00000 PTE_KERNEL_DATA; Z.lor 0x1dc00000 PTE_KERNEL_DATA; Z.lor 0x1de00000 PTE_KERNEL_DATA;
   Z.lor 0x1e000000 PTE_KERNEL_DATA; Z.lor 0x1e200000 PTE_KERNEL_DATA; Z.lor 0x1e400000 PTE_KERNEL_DATA; Z.lor 0x1e600000 PTE_KERNEL_DATA;
   Z.lor 0x1e800000 PTE_KERNEL_DATA; Z.lor 0x1ea00000 PTE_KERNEL_DATA; Z.lor 0x1ec00000 PTE_KERNEL_DATA; Z.lor 0x1ee00000 PTE_KERNEL_DATA;
   Z.lor 0x1f000000 PTE_KERNEL_DATA; Z.lor 0x1f200000 PTE_KERNEL_DATA; Z.lor 0x1f400000 PTE_KERNEL_DATA; Z.lor 0x1f600000 PTE_KERNEL_DATA;
   Z.lor 0x1f800000 PTE_KERNEL_DATA; Z.lor 0x1fa00000 PTE_KERNEL_DATA; Z.lor 0x1fc00000 PTE_KERNEL_DATA; Z.lor 0x1fe00000 PTE_KERNEL_DATA;
   Z.lor 0x20000000 PTE_KERNEL_DATA; Z.lor 0x20200000 PTE_KERNEL_DATA; Z.lor 0x20400000 PTE_KERNEL_DATA; Z.lor 0x20600000 PTE_KERNEL_DATA;
   Z.lor 0x20800000 PTE_KERNEL_DATA; Z.lor 0x20a00000 PTE_KERNEL_DATA; Z.lor 0x20c00000 PTE_KERNEL_DATA; Z.lor 0x20e00000 PTE_KERNEL_DATA;
   Z.lor 0x21000000 PTE_KERNEL_DATA; Z.lor 0x21200000 PTE_KERNEL_DATA; Z.lor 0x21400000 PTE_KERNEL_DATA; Z.lor 0x21600000 PTE_KERNEL_DATA;
   Z.lor 0x21800000 PTE_KERNEL_DATA; Z.lor 0x21a00000 PTE_KERNEL_DATA; Z.lor 0x21c00000 PTE_KERNEL_DATA; Z.lor 0x21e00000 PTE_KERNEL_DATA;
   Z.lor 0x22000000 PTE_KERNEL_DATA; Z.lor 0x22200000 PTE_KERNEL_DATA; Z.lor 0x22400000 PTE_KERNEL_DATA; Z.lor 0x22600000 PTE_KERNEL_DATA;
   Z.lor 0x22800000 PTE_KERNEL_DATA; Z.lor 0x22a00000 PTE_KERNEL_DATA; Z.lor 0x22c00000 PTE_KERNEL_DATA; Z.lor 0x22e00000 PTE_KERNEL_DATA;
   Z.lor 0x23000000 PTE_KERNEL_DATA; Z.lor 0x23200000 PTE_KERNEL_DATA; Z.lor 0x23400000 PTE_KERNEL_DATA; Z.lor 0x23600000 PTE_KERNEL_DATA;
   Z.lor 0x23800000 PTE_KERNEL_DATA; Z.lor 0x23a00000 PTE_KERNEL_DATA; Z.lor 0x23c00000 PTE_KERNEL_DATA; Z.lor 0x23e00000 PTE_KERNEL_DATA;
   Z.lor 0x24000000 PTE_KERNEL_DATA; Z.lor 0x24200000 PTE_KERNEL_DATA; Z.lor 0x24400000 PTE_KERNEL_DATA; Z.lor 0x24600000 PTE_KERNEL_DATA;
   Z.lor 0x24800000 PTE_KERNEL_DATA; Z.lor 0x24a00000 PTE_KERNEL_DATA; Z.lor 0x24c00000 PTE_KERNEL_DATA; Z.lor 0x24e00000 PTE_KERNEL_DATA;
   Z.lor 0x25000000 PTE_KERNEL_DATA; Z.lor 0x25200000 PTE_KERNEL_DATA; Z.lor 0x25400000 PTE_KERNEL_DATA; Z.lor 0x25600000 PTE_KERNEL_DATA;
   Z.lor 0x25800000 PTE_KERNEL_DATA; Z.lor 0x25a00000 PTE_KERNEL_DATA; Z.lor 0x25c00000 PTE_KERNEL_DATA; Z.lor 0x25e00000 PTE_KERNEL_DATA;
   Z.lor 0x26000000 PTE_KERNEL_DATA; Z.lor 0x26200000 PTE_KERNEL_DATA; Z.lor 0x26400000 PTE_KERNEL_DATA; Z.lor 0x26600000 PTE_KERNEL_DATA;
   Z.lor 0x26800000 PTE_KERNEL_DATA; Z.lor 0x26a00000 PTE_KERNEL_DATA; Z.lor 0x26c00000 PTE_KERNEL_DATA; Z.lor 0x26e00000 PTE_KERNEL_DATA;
   Z.lor 0x27000000 PTE_KERNEL_DATA; Z.lor 0x27200000 PTE_KERNEL_DATA; Z.lor 0x27400000 PTE_KERNEL_DATA; Z.lor 0x27600000 PTE_KERNEL_DATA;
   Z.lor 0x27800000 PTE_KERNEL_DATA; Z.lor 0x27a00000 PTE_KERNEL_DATA; Z.lor 0x27c00000 PTE_KERNEL_DATA; Z.lor 0x27e00000 PTE_KERNEL_DATA;
   Z.lor 0x28000000 PTE_KERNEL_DATA; Z.lor 0x28200000 PTE_KERNEL_DATA; Z.lor 0x28400000 PTE_KERNEL_DATA; Z.lor 0x28600000 PTE_KERNEL_DATA;
   Z.lor 0x28800000 PTE_KERNEL_DATA; Z.lor 0x28a00000 PTE_KERNEL_DATA; Z.lor 0x28c00000 PTE_KERNEL_DATA; Z.lor 0x28e00000 PTE_KERNEL_DATA;
   Z.lor 0x29000000 PTE_KERNEL_DATA; Z.lor 0x29200000 PTE_KERNEL_DATA; Z.lor 0x29400000 PTE_KERNEL_DATA; Z.lor 0x29600000 PTE_KERNEL_DATA;
   Z.lor 0x29800000 PTE_KERNEL_DATA; Z.lor 0x29a00000 PTE_KERNEL_DATA; Z.lor 0x29c00000 PTE_KERNEL_DATA; Z.lor 0x29e00000 PTE_KERNEL_DATA;
   Z.lor 0x2a000000 PTE_KERNEL_DATA; Z.lor 0x2a200000 PTE_KERNEL_DATA; Z.lor 0x2a400000 PTE_KERNEL_DATA; Z.lor 0x2a600000 PTE_KERNEL_DATA;
   Z.lor 0x2a800000 PTE_KERNEL_DATA; Z.lor 0x2aa00000 PTE_KERNEL_DATA; Z.lor 0x2ac00000 PTE_KERNEL_DATA; Z.lor 0x2ae00000 PTE_KERNEL_DATA;
   Z.lor 0x2b000000 PTE_KERNEL_DATA; Z.lor 0x2b200000 PTE_KERNEL_DATA; Z.lor 0x2b400000 PTE_KERNEL_DATA; Z.lor 0x2b600000 PTE_KERNEL_DATA;
   Z.lor 0x2b800000 PTE_KERNEL_DATA; Z.lor 0x2ba00000 PTE_KERNEL_DATA; Z.lor 0x2bc00000 PTE_KERNEL_DATA; Z.lor 0x2be00000 PTE_KERNEL_DATA;
   Z.lor 0x2c000000 PTE_KERNEL_DATA; Z.lor 0x2c200000 PTE_KERNEL_DATA; Z.lor 0x2c400000 PTE_KERNEL_DATA; Z.lor 0x2c600000 PTE_KERNEL_DATA;
   Z.lor 0x2c800000 PTE_KERNEL_DATA; Z.lor 0x2ca00000 PTE_KERNEL_DATA; Z.lor 0x2cc00000 PTE_KERNEL_DATA; Z.lor 0x2ce00000 PTE_KERNEL_DATA;
   Z.lor 0x2d000000 PTE_KERNEL_DATA; Z.lor 0x2d200000 PTE_KERNEL_DATA; Z.lor 0x2d400000 PTE_KERNEL_DATA; Z.lor 0x2d600000 PTE_KERNEL_DATA;
   Z.lor 0x2d800000 PTE_KERNEL_DATA; Z.lor 0x2da00000 PTE_KERNEL_DATA; Z.lor 0x2dc00000 PTE_KERNEL_DATA; Z.lor 0x2de00000 PTE_KERNEL_DATA;
   Z.lor 0x2e000000 PTE_KERNEL_DATA; Z.lor 0x2e200000 PTE_KERNEL_DATA; Z.lor 0x2e400000 PTE_KERNEL_DATA; Z.lor 0x2e600000 PTE_KERNEL_DATA;
   Z.lor 0x2e800000 PTE_KERNEL_DATA; Z.lor 0x2ea00000 PTE_KERNEL_DATA; Z.lor 0x2ec00000 PTE_KERNEL_DATA; Z.lor 0x2ee00000 PTE_KERNEL_DATA;
   Z.lor 0x2f000000 PTE_KERNEL_DATA; Z.lor 0x2f200000 PTE_KERNEL_DATA; Z.lor 0x2f400000 PTE_KERNEL_DATA; Z.lor 0x2f600000 PTE_KERNEL_DATA;
   Z.lor 0x2f800000 PTE_KERNEL_DATA; Z.lor 0x2fa00000 PTE_KERNEL_DATA; Z.lor 0x2fc00000 PTE_KERNEL_DATA; Z.lor 0x2fe00000 PTE_KERNEL_DATA;
   Z.lor 0x30000000 PTE_KERNEL_DATA; Z.lor 0x30200000 PTE_KERNEL_DATA; Z.lor 0x30400000 PTE_KERNEL_DATA; Z.lor 0x30600000 PTE_KERNEL_DATA;
   Z.lor 0x30800000 PTE_KERNEL_DATA; Z.lor 0x30a00000 PTE_KERNEL_DATA; Z.lor 0x30c00000 PTE_KERNEL_DATA; Z.lor 0x30e00000 PTE_KERNEL_DATA;
   Z.lor 0x31000000 PTE_KERNEL_DATA; Z.lor 0x31200000 PTE_KERNEL_DATA; Z.lor 0x31400000 PTE_KERNEL_DATA; Z.lor 0x31600000 PTE_KERNEL_DATA;
   Z.lor 0x31800000 PTE_KERNEL_DATA; Z.lor 0x31a00000 PTE_KERNEL_DATA; Z.lor 0x31c00000 PTE_KERNEL_DATA; Z.lor 0x31e00000 PTE_KERNEL_DATA;
   Z.lor 0x32000000 PTE_KERNEL_DATA; Z.lor 0x32200000 PTE_KERNEL_DATA; Z.lor 0x32400000 PTE_KERNEL_DATA; Z.lor 0x32600000 PTE_KERNEL_DATA;
   Z.lor 0x32800000 PTE_KERNEL_DATA; Z.lor 0x32a00000 PTE_KERNEL_DATA; Z.lor 0x32c00000 PTE_KERNEL_DATA; Z.lor 0x32e00000 PTE_KERNEL_DATA;
   Z.lor 0x33000000 PTE_KERNEL_DATA; Z.lor 0x33200000 PTE_KERNEL_DATA; Z.lor 0x33400000 PTE_KERNEL_DATA; Z.lor 0x33600000 PTE_KERNEL_DATA;
   Z.lor 0x33800000 PTE_KERNEL_DATA; Z.lor 0x33a00000 PTE_KERNEL_DATA; Z.lor 0x33c00000 PTE_KERNEL_DATA; Z.lor 0x33e00000 PTE_KERNEL_DATA;
   Z.lor 0x34000000 PTE_KERNEL_DATA; Z.lor 0x34200000 PTE_KERNEL_DATA; Z.lor 0x34400000 PTE_KERNEL_DATA; Z.lor 0x34600000 PTE_KERNEL_DATA;
   Z.lor 0x34800000 PTE_KERNEL_DATA; Z.lor 0x34a00000 PTE_KERNEL_DATA; Z.lor 0x34c00000 PTE_KERNEL_DATA; Z.lor 0x34e00000 PTE_KERNEL_DATA;
   Z.lor 0x35000000 PTE_KERNEL_DATA; Z.lor 0x35200000 PTE_KERNEL_DATA; Z.lor 0x35400000 PTE_KERNEL_DATA; Z.lor 0x35600000 PTE_KERNEL_DATA;
   Z.lor 0x35800000 PTE_KERNEL_DATA; Z.lor 0x35a00000 PTE_KERNEL_DATA; Z.lor 0x35c00000 PTE_KERNEL_DATA; Z.lor 0x35e00000 PTE_KERNEL_DATA;
   Z.lor 0x36000000 PTE_KERNEL_DATA; Z.lor 0x36200000 PTE_KERNEL_DATA; Z.lor 0x36400000 PTE_KERNEL_DATA; Z.lor 0x36600000 PTE_KERNEL_DATA;
   Z.lor 0x36800000 PTE_KERNEL_DATA; Z.lor 0x36a00000 PTE_KERNEL_DATA; Z.lor 0x36c00000 PTE_KERNEL_DATA; Z.lor 0x36e00000 PTE_KERNEL_DATA;
   Z.lor 0x37000000 PTE_KERNEL_DATA; Z.lor 0x37200000 PTE_KERNEL_DATA; Z.lor 0x37400000 PTE_KERNEL_DATA; Z.lor 0x37600000 PTE_KERNEL_DATA;
   Z.lor 0x37800000 PTE_KERNEL_DATA; Z.lor 0x37a00000 PTE_KERNEL_DATA; Z.lor 0x37c00000 PTE_KERNEL_DATA; Z.lor 0x37e00000 PTE_KERNEL_DATA;
   Z.lor 0x38000000 PTE_KERNEL_DATA; Z.lor 0x38200000 PTE_KERNEL_DATA; Z.lor 0x38400000 PTE_KERNEL_DATA; Z.lor 0x38600000 PTE_KERNEL_DATA;
   Z.lor 0x38800000 PTE_KERNEL_DATA; Z.lor 0x38a00000 PTE_KERNEL_DATA; Z.lor 0x38c00000 PTE_KERNEL_DATA; Z.lor 0x38e00000 PTE_KERNEL_DATA;
   Z.lor 0x39000000 PTE_KERNEL_DATA; Z.lor 0x39200000 PTE_KERNEL_DATA; Z.lor 0x39400000 PTE_KERNEL_DATA; Z.lor 0x39600000 PTE_KERNEL_DATA;
   Z.lor 0x39800000 PTE_KERNEL_DATA; Z.lor 0x39a00000 PTE_KERNEL_DATA; Z.lor 0x39c00000 PTE_KERNEL_DATA; Z.lor 0x39e00000 PTE_KERNEL_DATA;
   Z.lor 0x3a000000 PTE_KERNEL_DATA; Z.lor 0x3a200000 PTE_KERNEL_DATA; Z.lor 0x3a400000 PTE_KERNEL_DATA; Z.lor 0x3a600000 PTE_KERNEL_DATA;
   Z.lor 0x3a800000 PTE_KERNEL_DATA; Z.lor 0x3aa00000 PTE_KERNEL_DATA; Z.lor 0x3ac00000 PTE_KERNEL_DATA; Z.lor 0x3ae00000 PTE_KERNEL_DATA;
   Z.lor 0x3b000000 PTE_KERNEL_DATA; Z.lor 0x3b200000 PTE_KERNEL_DATA; Z.lor 0x3b400000 PTE_KERNEL_DATA; Z.lor 0x3b600000 PTE_KERNEL_DATA;
   Z.lor 0x3b800000 PTE_KERNEL_DATA; Z.lor 0x3ba00000 PTE_KERNEL_DATA; Z.lor 0x3bc00000 PTE_KERNEL_DATA; Z.lor 0x3be00000 PTE_KERNEL_DATA;
   Z.lor 0x3c000000 PTE_KERNEL_DATA; Z.lor 0x3c200000 PTE_KERNEL_DATA; Z.lor 0x3c400000 PTE_KERNEL_DATA; Z.lor 0x3c600000 PTE_KERNEL_DATA;
   Z.lor 0x3c800000 PTE_KERNEL_DATA; Z.lor 0x3ca00000 PTE_KERNEL_DATA; Z.lor 0x3cc00000 PTE_KERNEL_DATA; Z.lor 0x3ce00000 PTE_KERNEL_DATA;
   Z.lor 0x3d000000 PTE_KERNEL_DATA; Z.lor 0x3d200000 PTE_KERNEL_DATA; Z.lor 0x3d400000 PTE_KERNEL_DATA; Z.lor 0x3d600000 PTE_KERNEL_DATA;
   Z.lor 0x3d800000 PTE_KERNEL_DATA; Z.lor 0x3da00000 PTE_KERNEL_DATA; Z.lor 0x3dc00000 PTE_KERNEL_DATA; Z.lor 0x3de00000 PTE_KERNEL_DATA;
   Z.lor 0x3e000000 PTE_KERNEL_DATA; Z.lor 0x3e200000 PTE_KERNEL_DATA; Z.lor 0x3e400000 PTE_KERNEL_DATA; Z.lor 0x3e600000 PTE_KERNEL_DATA;
   Z.lor 0x3e800000 PTE_KERNEL_DATA; Z.lor 0x3ea00000 PTE_KERNEL_DATA; Z.lor 0x3ec00000 PTE_KERNEL_DATA; Z.lor 0x3ee00000 PTE_KERNEL_DATA;
   Z.lor 0x3f000000 PTE_KERNEL_DEVICE; Z.lor 0x3f200000 PTE_KERNEL_DEVICE; Z.lor 0x3f400000 PTE_KERNEL_DEVICE; Z.lor 0x3f600000 PTE_KERNEL_DEVICE;
   Z.lor 0x3f800000 PTE_KERNEL_DEVICE; Z.lor 0x3fa00000 PTE_KERNEL_DEVICE; Z.lor 0x3fc00000 PTE_KERNEL_DEVICE; Z.lor 0x3fe00000 PTE_KERNEL_DEVICE].
Definition _kernel_pt_level2 (level3 : Z) : list Z :=
  entries [K2P level3 + PTE_TABLE; Z.lor 0x40000000 PTE_KERNEL_DEVICE; 0; Z.lor 0xC0000000 PTE_KERNEL_DEVICE].
Definition kernel_pt (level2 : Z) : list Z := entries [K2P level2 + PTE_TABLE].
Definition invalid_pt : list Z := entries [0].

(** ** What they map *)

(** The entry of the block of two megabytes number [i]. *)
Definition block_attr (pa : Z) : Z := if pa <? PHYSTOP then PTE_KERNEL_DATA else PTE_KERNEL_DEVICE.
Definition block_right (i : Z) : bool :=
  match _kernel_pt_level3 !! Z.to_nat i with
  | Some e => (PTE_ADDRESS e =? i * 2 ^ 21) && (PTE_FLAGS e =? block_attr (i * 2 ^ 21))
  | None => false
  end.
Lemma level3_right : forallb block_right (zseq 0 512) = true.
Proof. by vm_compute. Qed.
Lemma level3_block i : 0 ≤ i < 512 →
  ∃ e, _kernel_pt_level3 !! Z.to_nat i = Some e ∧ PTE_ADDRESS e = i * 2 ^ 21 ∧ PTE_FLAGS e = block_attr (i * 2 ^ 21).
Proof.
  intros Hi. pose proof level3_right as Hall. rewrite forallb_forall in Hall. specialize (Hall i). rewrite <-list_elem_of_In, elem_of_zseq in Hall.
  specialize (Hall Hi). unfold block_right in Hall. destruct (_kernel_pt_level3 !! Z.to_nat i) as [e|]; [|done].
  apply andb_true_iff in Hall as [H1 H2]. exists e. split; [done|]. split; [by apply Z.eqb_eq|by apply Z.eqb_eq].
Qed.

Lemma table_pointer p : page_ok p → P2K (PTE_ADDRESS (K2P p + PTE_TABLE)) = p ∧ Z.land (K2P p + PTE_TABLE) PTE_TABLE = PTE_TABLE.
Proof.
  intros Hp. destruct (page_split p Hp) as (k & Hk & ->). rewrite K2P_page by done. split; [by apply entry_addr|]. by apply (entry_flag k 3 3).
Qed.

(** The high sixteen bits of a kernel address are not among the parts. *)
Lemma kernel_parts a : 0 ≤ a < 2 ^ 32 →
  VA_PART0 (KSPACE_MASK + a) = 0 ∧ VA_PART1 (KSPACE_MASK + a) = a / 2 ^ 30 ∧ VA_PART2 (KSPACE_MASK + a) = a / 2 ^ 21 mod 512.
Proof.
  intros Ha. rewrite VA_PART0_eq, VA_PART1_eq, VA_PART2_eq. change KSPACE_MASK with (65535 * 2 ^ 48). change 512 with (2 ^ 9).
  replace (65535 * 2 ^ 48 + a) with (a + 65535 * 2 ^ 9 * 2 ^ 39) at 1 by lia. replace (65535 * 2 ^ 48 + a) with (a + 65535 * 2 ^ 9 * 2 ^ 9 * 2 ^ 30) at 1 by lia.
  replace (65535 * 2 ^ 48 + a) with (a + 65535 * 2 ^ 18 * 2 ^ 9 * 2 ^ 21) by lia. rewrite !Z.div_add, !Z.mod_add by done. split_and!; [| |done].
  - by rewrite Z.div_small by lia.
  - apply Z.mod_small. split; [by apply Z.div_pos; [lia|]|]. apply Z.div_lt_upper_bound; lia.
Qed.

(** For each address of the first gigabyte of physical memory the kernel's
    tables have, at the parts of its kernel address, the two tables and the
    block that contains it, with the attributes of memory below [PHYSTOP] and of
    devices above; the second and the fourth gigabyte are devices. *)
Lemma kernel_map l2 l3 a : page_ok l2 → page_ok l3 → 0 ≤ a < 2 ^ 32 →
  let va := KSPACE_MASK + a in
  (∃ e, kernel_pt l2 !! Z.to_nat (VA_PART0 va) = Some e ∧ P2K (PTE_ADDRESS e) = l2 ∧ Z.land e PTE_TABLE = PTE_TABLE) ∧
  ∃ e, _kernel_pt_level2 l3 !! Z.to_nat (VA_PART1 va) = Some e ∧
    if decide (a < 0x40000000) then
      P2K (PTE_ADDRESS e) = l3 ∧ Z.land e PTE_TABLE = PTE_TABLE ∧
      ∃ b, _kernel_pt_level3 !! Z.to_nat (VA_PART2 va) = Some b ∧ PTE_ADDRESS b + a mod 2 ^ 21 = a ∧ PTE_FLAGS b = block_attr a
    else if decide (0x80000000 ≤ a < 0xC0000000) then e = 0
    else PTE_ADDRESS e + a mod 2 ^ 30 = a ∧ PTE_FLAGS e = PTE_KERNEL_DEVICE.
Proof.
  intros H2 H3 Ha va. unfold va. destruct (kernel_parts a Ha) as (-> & -> & ->). destruct (table_pointer l2 H2) as [P1 P2]. destruct (table_pointer l3 H3) as [P3 P4].
  split; [by exists (K2P l2 + PTE_TABLE)|]. pose proof (Z.div_mod a (2 ^ 30) ltac:(done)) as Hd. pose proof (Z.mod_pos_bound a (2 ^ 30) ltac:(done)) as Hm.
  assert (Hq : a / 2 ^ 30 = 0 ∨ a / 2 ^ 30 = 1 ∨ a / 2 ^ 30 = 2 ∨ a / 2 ^ 30 = 3) by lia. destruct Hq as [E|[E|[E|E]]]; rewrite E in Hd |- *.
  - exists (K2P l3 + PTE_TABLE). split; [done|]. rewrite decide_True by lia. split; [done|]. split; [done|].
    assert (Hi : 0 ≤ a / 2 ^ 21 < 512) by (split; [by apply Z.div_pos; [lia|]|apply Z.div_lt_upper_bound; lia]). rewrite (Z.mod_small _ 512) by done.
    destruct (level3_block (a / 2 ^ 21) Hi) as (b & Hb & A & F). exists b. split; [done|]. pose proof (Z.div_mod a (2 ^ 21) ltac:(done)) as Hd2.
    pose proof (Z.mod_pos_bound a (2 ^ 21) ltac:(done)). split; [lia|]. rewrite F. unfold block_attr, PHYSTOP.
    destruct (Z.ltb_spec (a / 2 ^ 21 * 2 ^ 21) 0x3f000000), (Z.ltb_spec a 0x3f000000); try done; lia.
  - exists (Z.lor 0x40000000 PTE_KERNEL_DEVICE). split; [done|]. rewrite !decide_False by lia. split; [|done].
    change (PTE_ADDRESS (Z.lor 0x40000000 PTE_KERNEL_DEVICE)) with 0x40000000. lia.
  - exists 0. split; [done|]. rewrite decide_False, decide_True by lia. done.
  - exists (Z.lor 0xC0000000 PTE_KERNEL_DEVICE). split; [done|]. rewrite !decide_False by lia. split; [|done].
    change (PTE_ADDRESS (Z.lor 0xC0000000 PTE_KERNEL_DEVICE)) with 0xC0000000. lia.
Qed.
