(* ===== verification/Traps.v ===== *)
(** * Interrupts, system calls and traps

    [src/driver/interrupt.c], [src/kernel/syscall.c] and [src/aarch64/trap.c]:
    from the registers that say what happened to the function that deals with
    it.  The rest of the kernel is a state [S]; the functions that are reached
    through a table of pointers or are models of their own (the clock handler,
    [pgfault], [exit]) and the accesses to device registers are arguments. *)

From stdpp Require Import base list.
From S2P Require Import Prelude Pages.
#[local] Open Scope Z_scope.

Definition KERNEL_BASE : Z := 0xffff000000000000.
Definition MMIO_BASE : Z := KERNEL_BASE + 0x3F000000.
Definition LOCAL_BASE : Z := KERNEL_BASE + 0x40000000.
Definition IRQ_PENDING_1 : Z := MMIO_BASE + 0xB204.
Definition IRQ_PENDING_2 : Z := MMIO_BASE + 0xB208.
Definition ENABLE_IRQS_1 : Z := MMIO_BASE + 0xB210.
Definition GPU_INT_ROUTE : Z := LOCAL_BASE + 0xC.
Definition GPU_IRQ2CORE (i : Z) : Z := i.
Definition IRQ_SRC_CORE (i : Z) : Z := LOCAL_BASE + 0x60 + 4 * i.
Definition IRQ_SRC_GPU : Z := Z.shiftl 1 8.
Definition IRQ_SRC_CNTPNSIRQ : Z := Z.shiftl 1 1.
Definition NUM_IRQ_TYPES : Z := 64.

(** ** [driver/interrupt.c] *)

Section interrupts.
Context {S : Type}.

(** [int_handler]: addresses of functions, 0 for none. *)
Record irqs : Type := mkIrqs { int_handler : list Z; kernel : S }.
Context (device_get_u32 : Z → M irqs Z) (device_put_u32 : Z → Z → M irqs unit) (cpuid : irqs → Z).
Context (invoke_clock_handler : M irqs unit) (call : Z → M irqs unit).
Abbreviation M := (M irqs).

Definition set_handlers (l : list Z) (s : irqs) : irqs := mkIrqs l s.(kernel).
Definition put_handler (i h : Z) : M unit :=
  l ← gets int_handler; deref (l !! Z.to_nat i) ;; modify (set_handlers (<[Z.to_nat i := h]> l)).

Definition init_interrupt : M unit :=
  for_each (zseq 0 NUM_IRQ_TYPES) (λ i, put_handler i 0) ;;
  device_put_u32 GPU_INT_ROUTE (GPU_IRQ2CORE 0).

Definition set_interrupt_handler (type handler : Z) : M unit :=
  device_put_u32 (ENABLE_IRQS_1 + 4 * (type / 32)) (u32 (Z.shiftl 1 (type mod 32))) ;;
  put_handler type handler.

(** The body of the loop over the interrupts of the GPU. *)
Definition gpu_interrupt (map i : Z) : M unit :=
  if Z.land (Z.shiftr map i) 1 =? 0 then mret tt
  else
    l ← gets int_handler;
    h ← deref (l !! Z.to_nat i);
    if h =? 0 then panic else call h.

Definition interrupt_global_handler : M unit :=
  c ← gets cpuid;
  source ← device_get_u32 (IRQ_SRC_CORE c);
  source ← (if Z.land source IRQ_SRC_CNTPNSIRQ =? 0 then mret source
            else invoke_clock_handler ;; mret (Z.lxor source IRQ_SRC_CNTPNSIRQ));
  source ← (if Z.land source IRQ_SRC_GPU =? 0 then mret source
            else
              lo ← device_get_u32 IRQ_PENDING_1;
              hi ← device_get_u32 IRQ_PENDING_2;
              for_each (zseq 0 NUM_IRQ_TYPES) (gpu_interrupt (Z.lor lo (u64 (Z.shiftl hi 32)))) ;;
              mret (Z.lxor source IRQ_SRC_GPU));
  if source =? 0 then mret tt else panic.

(** *** The handlers that run *)

(** The pending interrupts, in the order of their numbers. *)
Definition pending_irqs (map : Z) : list Z := filter (λ i, Z.testbit map i = true) (zseq 0 NUM_IRQ_TYPES).
Definition dispatch (i : Z) : M unit :=
  l ← gets int_handler; h ← deref (l !! Z.to_nat i); if h =? 0 then panic else call h.
(** What is to happen for the sources, bit by bit. *)
Definition handle_source (source : Z) : M unit :=
  (if Z.testbit source 1 then invoke_clock_handler else mret tt) ;;
  (if Z.testbit source 8 then
     lo ← device_get_u32 IRQ_PENDING_1;
     hi ← device_get_u32 IRQ_PENDING_2;
     for_each (pending_irqs (Z.lor lo (u64 (Z.shiftl hi 32)))) dispatch
   else mret tt) ;;
  if bool_decide (source = Z.lor (Z.land source (2 ^ 1)) (Z.land source (2 ^ 8))) then mret tt else panic.

Lemma land_bit x k : 0 ≤ k → (Z.land x (2 ^ k) =? 0) = negb (Z.testbit x k).
Proof.
  intros Hk. assert (E : Z.land x (2 ^ k) = if Z.testbit x k then 2 ^ k else 0).
  { apply Z.bits_inj'. intros i Hi. rewrite Z.land_spec, Z.pow2_bits_eqb by done. destruct (Z.eqb_spec k i) as [->|Hne].
    - rewrite andb_true_r. destruct (Z.testbit x i); [by rewrite Z.pow2_bits_true|by rewrite Z.bits_0].
    - rewrite andb_false_r. destruct (Z.testbit x k); [by rewrite Z.pow2_bits_false|by rewrite Z.bits_0]. }
  rewrite E. destruct (Z.testbit x k); [|done]. apply Z.eqb_neq. pose proof (Z.pow_pos_nonneg 2 k). lia.
Qed.
Lemma for_each_filter {A} (P : A → bool) (l : list A) (body : A → M unit) s :
  for_each l (λ a, if P a then body a else mret tt) s = for_each (filter (λ a, P a = true) l) body s.
Proof.
  revert s. induction l as [|a l IH]; intros s; [done|]. rewrite filter_cons. destruct (P a) eqn:E; case_decide; try done; cbn [for_each]; rewrite !bind_run, E.
  - destruct (body a s) as [[[] s']|]; [apply IH|done].
  - apply IH.
Qed.
Lemma bind_ext {A B} (m : M A) (f g : A → M B) s : (∀ a s', f a s' = g a s') → (m ≫= f) s = (m ≫= g) s.
Proof. intros E. rewrite !bind_run. destruct (m s) as [[a s']|]; [apply E|done]. Qed.
Lemma for_each_ext {A} (l : list A) (f g : A → M unit) s : (∀ a s', f a s' = g a s') → for_each l f s = for_each l g s.
Proof. intros E. revert s. induction l as [|a l IH]; intros s; [done|]. cbn [for_each]. rewrite !bind_run, E. destruct (g a s) as [[[] s']|]; [apply IH|done]. Qed.
Lemma gpu_interrupts map s : for_each (zseq 0 NUM_IRQ_TYPES) (gpu_interrupt map) s = for_each (pending_irqs map) dispatch s.
Proof.
  unfold pending_irqs. rewrite <-(for_each_filter (λ i, Z.testbit map i)). apply for_each_ext. intros i s'. unfold gpu_interrupt.
  change 1 with (2 ^ 0). rewrite land_bit by done. rewrite Z.shiftr_spec by done. rewrite Z.add_0_l. by destruct (Z.testbit map i).
Qed.

Lemma xor_clear x k : 0 ≤ k → Z.testbit x k = true → Z.lxor x (2 ^ k) = Z.ldiff x (2 ^ k).
Proof.
  intros Hk Hx. apply Z.bits_inj'. intros i Hi. rewrite Z.lxor_spec, Z.ldiff_spec, Z.pow2_bits_eqb by done.
  destruct (Z.eqb_spec k i) as [->|]; [by rewrite Hx|]. cbn. by rewrite xorb_false_r, andb_true_r.
Qed.
Lemma ldiff_clear x k : 0 ≤ k → Z.testbit x k = false → Z.ldiff x (2 ^ k) = x.
Proof.
  intros Hk Hx. apply Z.bits_inj'. intros i Hi. rewrite Z.ldiff_spec, Z.pow2_bits_eqb by done.
  destruct (Z.eqb_spec k i) as [->|]; [by rewrite Hx|]. cbn. by rewrite andb_true_r.
Qed.
(** The sources left over are those other than the two bits. *)
Lemma left_over x : Z.ldiff (Z.ldiff x (2 ^ 1)) (2 ^ 8) =? 0 = bool_decide (x = Z.lor (Z.land x (2 ^ 1)) (Z.land x (2 ^ 8))).
Proof.
  rewrite Z.ldiff_ldiff_l. destruct (Z.eqb_spec (Z.ldiff x (Z.lor (2 ^ 1) (2 ^ 8))) 0) as [E|E]; symmetry.
  - apply bool_decide_eq_true. rewrite <-Z.land_lor_distr_r. apply Z.bits_inj'. intros i Hi. pose proof (f_equal (λ y, Z.testbit y i) E) as Eb. cbv beta in Eb.
    rewrite Z.ldiff_spec, Z.bits_0 in Eb by done. rewrite Z.land_spec. by destruct (Z.testbit x i), (Z.testbit (Z.lor (2 ^ 1) (2 ^ 8)) i).
  - apply bool_decide_eq_false. rewrite <-Z.land_lor_distr_r. intros E2. apply E. rewrite E2 at 1. apply Z.bits_inj'. intros i Hi.
    rewrite Z.ldiff_spec, Z.land_spec, Z.bits_0. by destruct (Z.testbit x i), (Z.testbit (Z.lor (2 ^ 1) (2 ^ 8)) i).
Qed.

(** [interrupt_global_handler] runs the clock handler when the timer of the core
    has fired, then the handlers of the pending interrupts of the GPU, each
    once, in the order of their numbers, and it panics when there is another
    source or a pending interrupt without a handler. *)
Lemma interrupt_dispatch s :
  interrupt_global_handler s = (c ← gets cpuid; source ← device_get_u32 (IRQ_SRC_CORE c); handle_source source) s.
Proof.
  unfold interrupt_global_handler. apply bind_ext. intros c s1. apply bind_ext. intros source s2. unfold handle_source.
  change IRQ_SRC_CNTPNSIRQ with (2 ^ 1). change IRQ_SRC_GPU with (2 ^ 8). rewrite <-left_over, land_bit by done.
  assert (Hgpu : ∀ x s3, Z.testbit x 8 = Z.testbit source 8 → Z.ldiff x (2 ^ 8) = Z.ldiff (Z.ldiff source (2 ^ 1)) (2 ^ 8) →
    (y ← (if Z.land x (2 ^ 8) =? 0 then mret x else
            lo ← device_get_u32 IRQ_PENDING_1; hi ← device_get_u32 IRQ_PENDING_2;
            for_each (zseq 0 NUM_IRQ_TYPES) (gpu_interrupt (Z.lor lo (u64 (Z.shiftl hi 32)))) ;; mret (Z.lxor x (2 ^ 8)));
     if y =? 0 then mret tt else panic) s3 =
    ((if Z.testbit source 8 then
        lo ← device_get_u32 IRQ_PENDING_1; hi ← device_get_u32 IRQ_PENDING_2;
        for_each (pending_irqs (Z.lor lo (u64 (Z.shiftl hi 32)))) dispatch
      else mret tt) ;; if Z.ldiff (Z.ldiff source (2 ^ 1)) (2 ^ 8) =? 0 then mret tt else panic) s3).
  { intros x s3 Hx Hd. rewrite land_bit, Hx by done. rewrite <-Hd. destruct (Z.testbit source 8) eqn:E8; cbn [negb].
    - rewrite xor_clear by (by rewrite ?Hx). rewrite !bind_run. destruct (device_get_u32 IRQ_PENDING_1 s3) as [[lo s4]|]; [|done].
      rewrite !bind_run. destruct (device_get_u32 IRQ_PENDING_2 s4) as [[hi s5]|]; [|done]. rewrite bind_run, gpu_interrupts.
      by destruct (for_each _ _ s5) as [[[] s6]|].
    - by rewrite ldiff_clear by (by rewrite ?Hx). }
  destruct (Z.testbit source 1) eqn:E1; cbn [negb].
  - rewrite xor_clear by done. rewrite !bind_run. destruct (invoke_clock_handler s2) as [[[] s3]|]; [|done]. apply Hgpu; [|done].
    rewrite Z.ldiff_spec by done. by rewrite andb_true_r.
  - apply Hgpu; [done|]. by rewrite (ldiff_clear source 1).
Qed.
End interrupts.

(** ** [kernel/syscall.c] and [aarch64/trap.c] *)

Definition NR_SYSCALL : Z := 512.
Definition ESR_EC_SHIFT : Z := 26.
Definition ESR_ISS_MASK : Z := 0xFFFFFF.
Definition ESR_IR_MASK : Z := Z.shiftl 1 25.
Definition ESR_EC_UNKNOWN : Z := 0x00.
Definition ESR_EC_SVC64 : Z := 0x15.
Definition ESR_EC_IABORT_EL0 : Z := 0x20.
Definition ESR_EC_IABORT_EL1 : Z := 0x21.
Definition ESR_EC_DABORT_EL0 : Z := 0x24.
Definition ESR_EC_DABORT_EL1 : Z := 0x25.

(** [UserContext] of [kernel/proc.h] *)
Record UserContext : Type := mkUserContext { lr : Z; sp : Z; spsr : Z; elr : Z; x : list Z }.

Section traps.
Context {S : Type}.

(** The context of the process that trapped, and the rest. *)
Record trap_state : Type := mkTrap { ctx : UserContext; sys : S }.
(** [syscall_table], addresses of functions with 0 for none; the call through
    it; the registers [esr_el1]; the other parts of the kernel. *)
Context (syscall_table : list Z) (call : Z → list Z → M trap_state Z).
Context (arch_get_esr : M trap_state Z) (arch_reset_esr : M trap_state unit).
Context (set_ucontext : M trap_state unit) (killed : trap_state → bool).
Context (interrupt : M trap_state unit) (pgfault : Z → M trap_state Z) (exit : Z → M trap_state unit).
Abbreviation M := (M trap_state).

Definition set_x (i : nat) (v : Z) (s : trap_state) : trap_state :=
  mkTrap (mkUserContext s.(ctx).(lr) s.(ctx).(sp) s.(ctx).(spsr) s.(ctx).(elr) (<[i := v]> s.(ctx).(x))) s.(sys).

(** A call through a null pointer is undefined. *)
Definition syscall_entry : M unit :=
  c ← gets ctx;
  id ← deref (c.(x) !! 8%nat);
  if id <? NR_SYSCALL then
    function_ptr ← deref (syscall_table !! Z.to_nat id);
    if function_ptr =? 0 then fault
    else
      ret ← call function_ptr (take 6 c.(x));
      modify (set_x 0 ret)
  else mret tt.

(** The [switch] on the exception class. *)
Definition handle_exception (ec iss ir : Z) : M unit :=
  if ec =? ESR_EC_UNKNOWN then (if negb (ir =? 0) then panic else interrupt)
  else if ec =? ESR_EC_SVC64 then syscall_entry
  else if (ec =? ESR_EC_IABORT_EL0) || (ec =? ESR_EC_IABORT_EL1) || (ec =? ESR_EC_DABORT_EL0) || (ec =? ESR_EC_DABORT_EL1) then
    r ← pgfault iss; if negb (r =? 0) then panic else mret tt
  else panic.

Definition trap_global_handler : M unit :=
  set_ucontext ;;
  esr ← arch_get_esr;
  arch_reset_esr ;;
  handle_exception (Z.shiftr esr ESR_EC_SHIFT) (Z.land esr ESR_ISS_MASK) (Z.land esr ESR_IR_MASK) ;;
  k ← gets killed;
  c ← gets ctx;
  if k && (Z.land KSPACE_MASK c.(elr) =? 0) then exit (-1) else mret tt.

Definition trap_error_handler (type : Z) : M unit := panic.

(** *** System calls *)

(** What a system call does: the number is in [x8]; a number out of range
    changes nothing, not even [x0]; one without a function calls a null pointer;
    any other gets the first six registers, and its result is in [x0]. *)
Lemma syscall_entry_correct s id : length s.(ctx).(x) = 18%nat → s.(ctx).(x) !! 8%nat = Some id → 0 ≤ id → length syscall_table = 512%nat →
  syscall_entry s =
    if decide (512 ≤ id) then Ok (tt, s)
    else match syscall_table !! Z.to_nat id with
         | Some 0 | None => Fail Faulted
         | Some f => match call f (take 6 s.(ctx).(x)) s with
                     | Ok (ret, s') => Ok (tt, set_x 0 ret s')
                     | Fail e => Fail e
                     end
         end.
Proof.
  intros Hl Hid H0 Ht. unfold syscall_entry. rewrite bind_run. cbn [gets]. rewrite bind_run, Hid. cbn [deref mret M_ret]. unfold NR_SYSCALL.
  destruct (Z.ltb_spec id 512) as [Hlt|Hge]; [|by rewrite decide_True by done]. rewrite decide_False by lia. rewrite bind_run.
  destruct (lookup_lt_is_Some_2 syscall_table (Z.to_nat id)) as [f Hf]; [lia|]. rewrite Hf. cbn [deref mret M_ret].
  destruct f as [|p|p]; [done| |]; cbn [Z.eqb]; rewrite bind_run; by destruct (call _ _ s) as [[ret s']|].
Qed.

(** An exception of the kernel itself never ends the process, and one of a
    program does when the process has been killed. *)
Lemma trap_leaves s s1 s2 s3 esr : set_ucontext s = Ok (tt, s1) → arch_get_esr s1 = Ok (esr, s1) → arch_reset_esr s1 = Ok (tt, s2) →
  handle_exception (Z.shiftr esr 26) (Z.land esr 0xFFFFFF) (Z.land esr (Z.shiftl 1 25)) s2 = Ok (tt, s3) →
  trap_global_handler s = if killed s3 && (Z.land KSPACE_MASK s3.(ctx).(elr) =? 0) then exit (-1) s3 else Ok (tt, s3).
Proof.
  intros E1 E2 E3 E4. unfold trap_global_handler. rewrite (bind_Ok _ _ _ _ _ E1), (bind_Ok _ _ _ _ _ E2), (bind_Ok _ _ _ _ _ E3).
  rewrite (bind_Ok _ _ _ _ _ E4), (bind_Ok _ _ s3 (killed s3) s3), (bind_Ok _ _ s3 s3.(ctx) s3) by done. by destruct (killed s3 && _).
Qed.

(** System calls and page faults, by the class in the top bits of the register. *)
Lemma handle_exception_class ec low s : 0 ≤ low < 2 ^ 26 →
  let esr := ec * 2 ^ 26 + low in
  handle_exception (Z.shiftr esr ESR_EC_SHIFT) (Z.land esr ESR_ISS_MASK) (Z.land esr ESR_IR_MASK) s =
  if decide (ec = 0x15) then syscall_entry s
  else if decide (ec = 0) then (if decide (2 ^ 25 ≤ low) then Fail Panicked else interrupt s)
  else if decide (ec ∈ [0x20; 0x21; 0x24; 0x25]) then
    match pgfault (low mod 2 ^ 24) s with Ok (r, s') => if decide (r = 0) then Ok (tt, s') else Fail Panicked | Fail e => Fail e end
  else Fail Panicked.
Proof.
  intros Hlow esr. assert (Eec : Z.shiftr esr ESR_EC_SHIFT = ec).
  { unfold ESR_EC_SHIFT, esr. rewrite Z.shiftr_div_pow2 by done. rewrite Z.div_add_l by done. rewrite Z.div_small by done. lia. }
  assert (Eiss : Z.land esr ESR_ISS_MASK = low mod 2 ^ 24).
  { change ESR_ISS_MASK with (Z.ones 24). rewrite Z.land_ones by done. unfold esr. replace (ec * 2 ^ 26) with (ec * 4 * 2 ^ 24) by lia.
    rewrite Z.add_comm, Z.mod_add by done. done. }
  assert (Eir : Z.land esr ESR_IR_MASK =? 0 = negb (bool_decide (2 ^ 25 ≤ low))).
  { change ESR_IR_MASK with (2 ^ 25). rewrite land_bit by done. f_equal. rewrite Z.testbit_eqb by done. unfold esr.
    replace (ec * 2 ^ 26 + low) with (low + ec * 2 * 2 ^ 25) by lia. rewrite Z.div_add by done.
    replace (low / 2 ^ 25 + ec * 2) with (low / 2 ^ 25 + ec * 2) by lia. rewrite Z.mod_add by done. case_bool_decide as D.
    - assert (low / 2 ^ 25 = 1) as -> by (symmetry; apply (Z.div_unique low (2 ^ 25) 1 (low - 2 ^ 25)); lia). done.
    - rewrite Z.div_small by lia. done. }
  rewrite Eec, Eiss. unfold handle_exception. rewrite Eir. unfold ESR_EC_UNKNOWN, ESR_EC_SVC64, ESR_EC_IABORT_EL0, ESR_EC_IABORT_EL1, ESR_EC_DABORT_EL0, ESR_EC_DABORT_EL1.
  destruct (Z.eqb_spec ec 0) as [->|H1].
  { rewrite decide_False, decide_True by done. case_bool_decide; case_decide; done. }
  destruct (Z.eqb_spec ec 0x15) as [->|H2]; [done|]. rewrite !decide_False by done.
  destruct (((ec =? 0x20) || (ec =? 0x21)) || (ec =? 0x24) || (ec =? 0x25)) eqn:E.
  - rewrite decide_True. { rewrite bind_run. destruct (pgfault _ s) as [[r s']|]; [|done]. destruct (Z.eqb_spec r 0), (decide (r = 0)); done. }
    rewrite !orb_true_iff, !Z.eqb_eq in E. set_solver.
  - rewrite decide_False; [done|]. rewrite !orb_false_iff, !Z.eqb_neq in E. set_solver.
Qed.
End traps.
