(* ===== verification/SdRegs.v ===== *)
(** * SD host: registers, commands and card registers

    The constants, the command table and the arithmetic of
    [src/driver/sddef.h]: the clock divider and the fields of the CID and CSD
    registers.  [SdHost.v] has the code that talks to the controller. *)

From iris.prelude Require Import prelude.
From stdpp Require Import strings.
From S2P Require Import Prelude.
#[local] Open Scope Z_scope.

(** ** Constants *)

Definition MMIO_BASE : Z := 0xffff000000000000 + 0x3F000000.
Definition GPIO_BASE : Z := MMIO_BASE + 0x200000.
Definition GPFSEL4 : Z := GPIO_BASE + 0x10.
Definition GPFSEL5 : Z := GPIO_BASE + 0x14.
Definition GPEDS1 : Z := GPIO_BASE + 0x44.
Definition GPHEN1 : Z := GPIO_BASE + 0x68.
Definition GPPUD : Z := GPIO_BASE + 0x94.
Definition GPPUDCLK1 : Z := GPIO_BASE + 0x9C.
Definition SD_OK : Z := 0.
Definition SD_ERROR : Z := 1.
Definition SD_TIMEOUT : Z := 2.
Definition SD_BUSY : Z := 3.
Definition SD_ERROR_RESET : Z := 6.
Definition SD_ERROR_CLOCK : Z := 7.
Definition SD_ERROR_VOLTAGE : Z := 8.
Definition SD_ERROR_APP_CMD : Z := 9.
Definition SD_CARD_CHANGED : Z := 10.
Definition SD_CARD_REINSERTED : Z := 12.
Definition EMMC_BLKSIZECNT : Z := MMIO_BASE + 0x00300004.
Definition EMMC_ARG1 : Z := MMIO_BASE + 0x00300008.
Definition EMMC_CMDTM : Z := MMIO_BASE + 0x0030000C.
Definition EMMC_RESP0 : Z := MMIO_BASE + 0x00300010.
Definition EMMC_RESP1 : Z := MMIO_BASE + 0x00300014.
Definition EMMC_RESP2 : Z := MMIO_BASE + 0x00300018.
Definition EMMC_RESP3 : Z := MMIO_BASE + 0x0030001C.
Definition EMMC_DATA : Z := MMIO_BASE + 0x00300020.
Definition EMMC_STATUS : Z := MMIO_BASE + 0x00300024.
Definition EMMC_CONTROL0 : Z := MMIO_BASE + 0x00300028.
Definition EMMC_CONTROL1 : Z := MMIO_BASE + 0x0030002C.
Definition EMMC_INTERRUPT : Z := MMIO_BASE + 0x00300030.
Definition EMMC_IRPT_MASK : Z := MMIO_BASE + 0x00300034.
Definition EMMC_IRPT_EN : Z := MMIO_BASE + 0x00300038.
Definition EMMC_SLOTISR_VER : Z := MMIO_BASE + 0x003000fc.
Definition CMD_IS_DATA : Z := 0x00200000.
Definition CMD_RSPNS_NO : Z := 0x00000000.
Definition CMD_RSPNS_136 : Z := 0x00010000.
Definition CMD_RSPNS_48 : Z := 0x00020000.
Definition CMD_RSPNS_48B : Z := 0x00030000.
Definition TM_MULTI_BLOCK : Z := 0x00000020.
Definition TM_DAT_DIR_HC : Z := 0x00000000.
Definition TM_DAT_DIR_CH : Z := 0x00000010.
Definition TM_BLKCNT_EN : Z := 0x00000002.
Definition TM_MULTI_DATA : Z := Z.lor (Z.lor CMD_IS_DATA TM_MULTI_BLOCK) TM_BLKCNT_EN.
Definition INT_AUTO_ERROR : Z := 0x01000000.
Definition INT_DATA_END_ERR : Z := 0x00400000.
Definition INT_DATA_CRC_ERR : Z := 0x00200000.
Definition INT_DATA_TIMEOUT : Z := 0x00100000.
Definition INT_INDEX_ERROR : Z := 0x00080000.
Definition INT_END_ERROR : Z := 0x00040000.
Definition INT_CRC_ERROR : Z := 0x00020000.
Definition INT_CMD_TIMEOUT : Z := 0x00010000.
Definition INT_ERR : Z := 0x00008000.
Definition INT_READ_RDY : Z := 0x00000020.
Definition INT_WRITE_RDY : Z := 0x00000010.
Definition INT_DATA_DONE : Z := 0x00000002.
Definition INT_CMD_DONE : Z := 0x00000001.
Definition INT_ERROR_MASK : Z := Z.lor (Z.lor (Z.lor (Z.lor (Z.lor (Z.lor (Z.lor INT_CRC_ERROR INT_END_ERROR) INT_INDEX_ERROR) INT_DATA_TIMEOUT) INT_DATA_CRC_ERR) INT_DATA_END_ERR) INT_ERR) INT_AUTO_ERROR.
Definition C0_HCTL_DWITDH : Z := 0x00000002.
Definition C1_SRST_HC : Z := 0x01000000.
Definition C1_TOUNIT_MAX : Z := 0x000e0000.
Definition C1_CLK_EN : Z := 0x00000004.
Definition C1_CLK_STABLE : Z := 0x00000002.
Definition C1_CLK_INTLEN : Z := 0x00000001.
Definition FREQ_SETUP : Z := 400000.
Definition FREQ_NORMAL : Z := 25000000.
Definition HOST_SPEC_NUM : Z := 0x00ff0000.
Definition HOST_SPEC_NUM_SHIFT : Z := 16.
Definition HOST_SPEC_V2 : Z := 1.
Definition SR_READ_AVAILABLE : Z := 0x00000800.
Definition SR_DAT_INHIBIT : Z := 0x00000002.
Definition SR_CMD_INHIBIT : Z := 0x00000001.
Definition ACMD41_HCS : Z := 0x40000000.
Definition ACMD41_SDXC_POWER : Z := 0x10000000.
Definition ACMD41_S18R : Z := 0x01000000.
Definition ACMD41_VOLTAGE : Z := 0x00ff8000.
Definition ACMD41_ARG_HC : Z := Z.lor (Z.lor (Z.lor ACMD41_HCS ACMD41_SDXC_POWER) ACMD41_VOLTAGE) ACMD41_S18R.
Definition ACMD41_ARG_SC : Z := Z.lor ACMD41_VOLTAGE ACMD41_S18R.
Definition ST_CARD_STATE : Z := 0x00001e00.
Definition ST_APP_CMD : Z := 0x00000020.
Definition R1_CARD_STATE_SHIFT : Z := 9.
Definition R1_ERRORS_MASK : Z := 0xfff9c004.
Definition R3_COMPLETE : Z := 0x80000000.
Definition R3_CCS : Z := 0x40000000.
Definition R3_S18A : Z := 0x01000000.
Definition R6_RCA_MASK : Z := 0xffff0000.
Definition RESP_NO : Z := 0.
Definition RESP_R1 : Z := 1.
Definition RESP_R1b : Z := 11.
Definition RESP_R2I : Z := 2.
Definition RESP_R2S : Z := 12.
Definition RESP_R3 : Z := 3.
Definition RESP_R6 : Z := 6.
Definition RESP_R7 : Z := 7.
Definition RCA_NO : Z := 1.
Definition RCA_YES : Z := 2.
Definition IX_GO_IDLE_STATE : Z := 0.
Definition IX_ALL_SEND_CID : Z := 1.
Definition IX_SEND_REL_ADDR : Z := 2.
Definition IX_CARD_SELECT : Z := 5.
Definition IX_SEND_IF_COND : Z := 6.
Definition IX_SEND_CSD : Z := 7.
Definition IX_SET_BLOCKLEN : Z := 13.
Definition IX_READ_SINGLE : Z := 14.
Definition IX_WRITE_SINGLE : Z := 19.
Definition IX_APP_CMD : Z := 29.
Definition IX_APP_CMD_RCA : Z := 30.
Definition IX_APP_CMD_START : Z := 32.
Definition IX_SET_BUS_WIDTH : Z := 32.
Definition IX_APP_SEND_OP_COND : Z := 36.
Definition IX_SEND_SCR : Z := 38.
Definition CSD0_VERSION : Z := 0x00c00000.
Definition CSD0_V1 : Z := 0x00000000.
Definition CSD1VN_READ_BL_LEN : Z := 0x00000f00.
Definition CSD1VN_READ_BL_LEN_SHIFT : Z := 8.
Definition CSD3VN_FILE_FORMAT : Z := 0x0000000c.
Definition CSD3VN_FILE_FORMAT_HDD : Z := 0x00000000.
Definition CSD3VN_FILE_FORMAT_DOSFAT : Z := 0x00000004.
Definition CSD1V1_C_SIZEH : Z := 0x00000003.
Definition CSD1V1_C_SIZEH_SHIFT : Z := 10.
Definition CSD2V1_C_SIZEL : Z := 0xffc00000.
Definition CSD2V1_C_SIZEL_SHIFT : Z := 22.
Definition CSD2V1_C_SIZE_MULT : Z := 0x00000380.
Definition CSD2V1_C_SIZE_MULT_SHIFT : Z := 7.
Definition CSD2V2_C_SIZE : Z := 0x3fffff00.
Definition CSD2V2_C_SIZE_SHIFT : Z := 8.
Definition SCR_SD_BUS_WIDTH_1 : Z := 0x00000100.
Definition SCR_SD_BUS_WIDTH_4 : Z := 0x00000400.
Definition SCR_CMD_SUPP_SET_BLKCNT : Z := 0x02000000.
Definition SCR_CMD_SUPP_SPEED_CLASS : Z := 0x01000000.
Definition SD_TYPE_1 : Z := 2.
Definition SD_TYPE_2_SC : Z := 3.
Definition SD_TYPE_2_HC : Z := 4.
Definition SD_SUPP_SET_BLOCK_COUNT : Z := 0x80000000.
Definition SD_SUPP_SPEED_CLASS : Z := 0x40000000.
Definition SD_SUPP_BUS_WIDTH_4 : Z := 0x20000000.
Definition SD_SUPP_BUS_WIDTH_1 : Z := 0x10000000.
Definition MBX_PROP_CLOCK_EMMC : Z := 1.

(** ** The command table *)

Record EMMCCommand : Type := EMMCCommand_ {
  name : string;
  code : Z;
  resp : Z;
  rca_flag : Z;
  delay_after : Z;
}.

#[local] Open Scope string_scope.
Definition sdCommandTable : list EMMCCommand := [
  EMMCCommand_ "GO_IDLE_STATE" (Z.lor 0x00000000 CMD_RSPNS_NO) RESP_NO RCA_NO 0;
  EMMCCommand_ "ALL_SEND_CID" (Z.lor 0x02000000 CMD_RSPNS_136) RESP_R2I RCA_NO 0;
  EMMCCommand_ "SEND_REL_ADDR" (Z.lor 0x03000000 CMD_RSPNS_48) RESP_R6 RCA_NO 0;
  EMMCCommand_ "SET_DSR" (Z.lor 0x04000000 CMD_RSPNS_NO) RESP_NO RCA_NO 0;
  EMMCCommand_ "SWITCH_FUNC" (Z.lor 0x06000000 CMD_RSPNS_48) RESP_R1 RCA_NO 0;
  EMMCCommand_ "CARD_SELECT" (Z.lor 0x07000000 CMD_RSPNS_48B) RESP_R1b RCA_YES 0;
  EMMCCommand_ "SEND_IF_COND" (Z.lor 0x08000000 CMD_RSPNS_48) RESP_R7 RCA_NO 100;
  EMMCCommand_ "SEND_CSD" (Z.lor 0x09000000 CMD_RSPNS_136) RESP_R2S RCA_YES 0;
  EMMCCommand_ "SEND_CID" (Z.lor 0x0A000000 CMD_RSPNS_136) RESP_R2I RCA_YES 0;
  EMMCCommand_ "VOLT_SWITCH" (Z.lor 0x0B000000 CMD_RSPNS_48) RESP_R1 RCA_NO 0;
  EMMCCommand_ "STOP_TRANS" (Z.lor 0x0C000000 CMD_RSPNS_48B) RESP_R1b RCA_NO 0;
  EMMCCommand_ "SEND_STATUS" (Z.lor 0x0D000000 CMD_RSPNS_48) RESP_R1 RCA_YES 0;
  EMMCCommand_ "GO_INACTIVE" (Z.lor 0x0F000000 CMD_RSPNS_NO) RESP_NO RCA_YES 0;
  EMMCCommand_ "SET_BLOCKLEN" (Z.lor 0x10000000 CMD_RSPNS_48) RESP_R1 RCA_NO 0;
  EMMCCommand_ "READ_SINGLE" (Z.lor (Z.lor (Z.lor 0x11000000 CMD_RSPNS_48) CMD_IS_DATA) TM_DAT_DIR_CH) RESP_R1 RCA_NO 0;
  EMMCCommand_ "READ_MULTI" (Z.lor (Z.lor (Z.lor 0x12000000 CMD_RSPNS_48) TM_MULTI_DATA) TM_DAT_DIR_CH) RESP_R1 RCA_NO 0;
  EMMCCommand_ "SEND_TUNING" (Z.lor 0x13000000 CMD_RSPNS_48) RESP_R1 RCA_NO 0;
  EMMCCommand_ "SPEED_CLASS" (Z.lor 0x14000000 CMD_RSPNS_48B) RESP_R1b RCA_NO 0;
  EMMCCommand_ "SET_BLOCKCNT" (Z.lor 0x17000000 CMD_RSPNS_48) RESP_R1 RCA_NO 0;
  EMMCCommand_ "WRITE_SINGLE" (Z.lor (Z.lor (Z.lor 0x18000000 CMD_RSPNS_48) CMD_IS_DATA) TM_DAT_DIR_HC) RESP_R1 RCA_NO 0;
  EMMCCommand_ "WRITE_MULTI" (Z.lor (Z.lor (Z.lor 0x19000000 CMD_RSPNS_48) TM_MULTI_DATA) TM_DAT_DIR_HC) RESP_R1 RCA_NO 0;
  EMMCCommand_ "PROGRAM_CSD" (Z.lor 0x1B000000 CMD_RSPNS_48) RESP_R1 RCA_NO 0;
  EMMCCommand_ "SET_WRITE_PR" (Z.lor 0x1C000000 CMD_RSPNS_48B) RESP_R1b RCA_NO 0;
  EMMCCommand_ "CLR_WRITE_PR" (Z.lor 0x1D000000 CMD_RSPNS_48B) RESP_R1b RCA_NO 0;
  EMMCCommand_ "SND_WRITE_PR" (Z.lor 0x1E000000 CMD_RSPNS_48) RESP_R1 RCA_NO 0;
  EMMCCommand_ "ERASE_WR_ST" (Z.lor 0x20000000 CMD_RSPNS_48) RESP_R1 RCA_NO 0;
  EMMCCommand_ "ERASE_WR_END" (Z.lor 0x21000000 CMD_RSPNS_48) RESP_R1 RCA_NO 0;
  EMMCCommand_ "ERASE" (Z.lor 0x26000000 CMD_RSPNS_48B) RESP_R1b RCA_NO 0;
  EMMCCommand_ "LOCK_UNLOCK" (Z.lor 0x2A000000 CMD_RSPNS_48) RESP_R1 RCA_NO 0;
  EMMCCommand_ "APP_CMD" (Z.lor 0x37000000 CMD_RSPNS_NO) RESP_NO RCA_NO 100;
  EMMCCommand_ "APP_CMD" (Z.lor 0x37000000 CMD_RSPNS_48) RESP_R1 RCA_YES 0;
  EMMCCommand_ "GEN_CMD" (Z.lor 0x38000000 CMD_RSPNS_48) RESP_R1 RCA_NO 0;
  EMMCCommand_ "SET_BUS_WIDTH" (Z.lor 0x06000000 CMD_RSPNS_48) RESP_R1 RCA_NO 0;
  EMMCCommand_ "SD_STATUS" (Z.lor 0x0D000000 CMD_RSPNS_48) RESP_R1 RCA_YES 0;
  EMMCCommand_ "SEND_NUM_WRBL" (Z.lor 0x16000000 CMD_RSPNS_48) RESP_R1 RCA_NO 0;
  EMMCCommand_ "SEND_NUM_ERS" (Z.lor 0x17000000 CMD_RSPNS_48) RESP_R1 RCA_NO 0;
  EMMCCommand_ "SD_SENDOPCOND" (Z.lor 0x29000000 CMD_RSPNS_48) RESP_R3 RCA_NO 1000;
  EMMCCommand_ "SET_CLR_DET" (Z.lor 0x2A000000 CMD_RSPNS_48) RESP_R1 RCA_NO 0;
  EMMCCommand_ "SEND_SCR" (Z.lor (Z.lor (Z.lor 0x33000000 CMD_RSPNS_48) CMD_IS_DATA) TM_DAT_DIR_CH) RESP_R1 RCA_NO 0
].
#[local] Close Scope string_scope.

(** ** Arithmetic *)

(** [x & mask] is 0: then [x] is shifted up by [n] and [r] goes down by [n]. *)
Definition fls_step (mask n : Z) (xr : Z * Z) : Z * Z :=
  let '(x, r) := xr in
  if Z.land x mask =? 0 then (u64 (Z.shiftl x n), r - n) else (x, r).

Definition fls_long (x : Z) : Z :=
  if x =? 0 then 0
  else (fls_step 0x80000000 1 (fls_step 0xc0000000 2 (fls_step 0xf0000000 4
         (fls_step 0xff000000 8 (fls_step 0xffff0000 16 (x, 32)))))).2.

Definition roundup_pow_of_two (x : Z) : Z := u64 (Z.shiftl 1 (fls_long (u64 (x - 1)))).

(** [None]: a division by zero. *)
Definition sdGetClockDivider (sdHostVer freq : Z) : option Z :=
  if freq =? 0 then None else
  let closest := u32 (41666666 / freq) in
  let shiftcount := u32 (fls_long (u32 (closest - 1))) in
  let shiftcount := if 0 <? shiftcount then shiftcount - 1 else shiftcount in
  let shiftcount := if 7 <? shiftcount then 7 else shiftcount in
  let divisor := if HOST_SPEC_V2 <? sdHostVer then closest else u32 (Z.shiftl 1 shiftcount) in
  let divisor := if divisor <=? 2 then 2 else divisor in
  let hi := if HOST_SPEC_V2 <? sdHostVer then Z.shiftr (Z.land divisor 0x300) 2 else 0 in
  let lo := Z.land divisor 0x0ff in
  Some (u32 (u32 (Z.shiftl lo 8) + hi)).

(** The size in bytes and the file format, from the four words of the CSD. *)
Definition sdParseCSD (csd0 csd1 csd2 csd3 : Z) : Z * Z :=
  let csdVersion := Z.land csd0 CSD0_VERSION in
  let capacity :=
    if csdVersion =? CSD0_V1 then
      let csize := i32 (u32 (u32 (Z.shiftl (Z.land csd1 CSD1V1_C_SIZEH) CSD1V1_C_SIZEH_SHIFT) +
                             Z.shiftr (Z.land csd2 CSD2V1_C_SIZEL) CSD2V1_C_SIZEL_SHIFT)) in
      let mult := i32 (Z.shiftl 1 (Z.shiftr (Z.land csd2 CSD2V1_C_SIZE_MULT) CSD2V1_C_SIZE_MULT_SHIFT + 2)) in
      let blockSize := i32 (Z.shiftl 1 (Z.shiftr (Z.land csd1 CSD1VN_READ_BL_LEN) CSD1VN_READ_BL_LEN_SHIFT)) in
      let numBlocks := i64 ((csize + 1) * mult) in
      u64 (i64 (numBlocks * blockSize))
    else
      let csize := Z.shiftr (Z.land csd2 CSD2V2_C_SIZE) CSD2V2_C_SIZE_SHIFT in
      u64 (i64 (i64 ((csize + 1) * 512) * 1024)) in
  (capacity, Z.land csd3 CSD3VN_FILE_FORMAT).

(** What [sdParseCID] prints of the four words of the CID. *)
Record cid_info : Type := CidInfo {
  manId : Z; appId : list Z; cid_name : list Z; revH : Z; revL : Z; serial : Z; dateY : Z; dateM : Z }.
Definition sdParseCID (cid0 cid1 cid2 cid3 : Z) : cid_info := {|
  manId := Z.shiftr (Z.land cid0 0x00ff0000) 16;
  appId := [u8 (Z.shiftr (Z.land cid0 0x0000ff00) 8); u8 (Z.land cid0 0x000000ff); 0];
  cid_name := [u8 (Z.shiftr (Z.land cid1 0xff000000) 24); u8 (Z.shiftr (Z.land cid1 0x00ff0000) 16);
               u8 (Z.shiftr (Z.land cid1 0x0000ff00) 8); u8 (Z.land cid1 0x000000ff);
               u8 (Z.shiftr (Z.land cid2 0xff000000) 24); 0];
  revH := Z.shiftr (Z.land cid2 0x00f00000) 20;
  revL := Z.shiftr (Z.land cid2 0x000f0000) 16;
  serial := i32 (u32 (u32 (Z.shiftl (Z.land cid2 0x0000ffff) 16) + Z.shiftr (Z.land cid3 0xffff0000) 16));
  dateY := i32 (Z.shiftr (Z.land cid3 0x00000ff0) 4) + 2000;
  dateM := Z.land cid3 0x0000000f |}.

(** ** Lemmas *)

(** *** [fls_long] *)

Lemma top_mask x n : 0 ≤ n ≤ 32 → 0 ≤ x < 2 ^ 32 →
  (Z.land x (Z.shiftl (Z.ones n) (32 - n)) =? 0) = (x <? 2 ^ (32 - n)).
Proof.
  intros Hn Hx. rewrite land_field; [|lia..]. rewrite Z.shiftr_div_pow2; [|lia].
  assert (0 < 2 ^ (32 - n)) by (apply Z.pow_pos_nonneg; lia).
  assert (2 ^ 32 = 2 ^ (32 - n) * 2 ^ n) as E by (rewrite -Z.pow_add_r; [f_equal|..]; lia).
  rewrite Z.mod_small; [|split; [apply Z.div_pos; lia|apply Z.div_lt_upper_bound; lia]].
  rewrite Z.shiftl_mul_pow2; [|lia]. destruct (Z.ltb_spec x (2 ^ (32 - n))).
  - rewrite Z.div_small; lia.
  - apply Z.eqb_neq. pose proof (Z.div_le_lower_bound x (2 ^ (32 - n)) 1 ltac:(lia) ltac:(lia)). nia.
Qed.

(** After the step for [n] one of the [n] top bits of 32 is set. *)
Definition fls_inv (x0 n : Z) (xr : Z * Z) : Prop :=
  let '(x, r) := xr in r ≤ 32 ∧ x = x0 * 2 ^ (32 - r) ∧ 2 ^ (32 - n) ≤ x < 2 ^ 32.

Lemma fls_step_spec x0 n xr :
  1 ≤ n ≤ 16 → fls_inv x0 (2 * n) xr → fls_inv x0 n (fls_step (Z.shiftl (Z.ones n) (32 - n)) n xr).
Proof.
  intros Hn. destruct xr as [x r]. intros (Hr & Ex & Hx). unfold fls_step.
  assert (0 < 2 ^ (32 - 2 * n)) by (apply Z.pow_pos_nonneg; lia).
  rewrite top_mask; [|lia|lia]. destruct (Z.ltb_spec x (2 ^ (32 - n))) as [Hlt|Hge]; [|split; [done|split; [done|lia]]].
  assert (2 ^ (32 - n) = 2 ^ (32 - 2 * n) * 2 ^ n) as E1 by (rewrite -Z.pow_add_r; [f_equal|..]; lia).
  assert (2 ^ 32 = 2 ^ (32 - n) * 2 ^ n) as E2 by (rewrite -Z.pow_add_r; [f_equal|..]; lia).
  assert (0 < 2 ^ n) by (apply Z.pow_pos_nonneg; lia).
  rewrite Z.shiftl_mul_pow2; [|lia]. rewrite u64_small; [|nia]. split; [lia|]. split; [|nia].
  rewrite {1}Ex -Z.mul_assoc -Z.pow_add_r; [|lia..]. do 2 f_equal. lia.
Qed.

Lemma fls_long_spec x : 0 < x < 2 ^ 32 → fls_long x = Z.log2 x + 1.
Proof.
  intros Hx. unfold fls_long. destruct (Z.eqb_spec x 0) as [|_]; [lia|].
  assert (H : fls_inv x 1 (fls_step 0x80000000 1 (fls_step 0xc0000000 2 (fls_step 0xf0000000 4
         (fls_step 0xff000000 8 (fls_step 0xffff0000 16 (x, 32))))))).
  { apply (fls_step_spec x 1); [lia|]. apply (fls_step_spec x 2); [lia|]. apply (fls_step_spec x 4); [lia|].
    apply (fls_step_spec x 8); [lia|]. apply (fls_step_spec x 16); [lia|]. split_and!; [lia| |lia|lia]. by rewrite Z.mul_1_r. }
  destruct (fls_step _ _ _) as [y r]. destruct H as (Hr & -> & Hy). cbn [snd].
  assert (Z.log2 (x * 2 ^ (32 - r)) = 31) as E by (apply Z.log2_unique; [lia|]; exact Hy).
  rewrite Z.log2_mul_pow2 in E; lia.
Qed.

Lemma roundup_pow_of_two_spec x : 1 ≤ x ≤ 2 ^ 32 → roundup_pow_of_two x = 2 ^ Z.log2_up x.
Proof.
  intros Hx. unfold roundup_pow_of_two. rewrite (u64_small (x - 1)); [|lia]. unfold Z.log2_up.
  destruct (Z.compare_spec 1 x) as [<-|H|]; [done| |lia]. change (Z.pred x) with (x - 1).
  rewrite fls_long_spec; [|lia]. rewrite Z.shiftl_1_l. apply u64_small.
  pose proof (Z.log2_nonneg (x - 1)). assert (Z.log2 (x - 1) < 32) by (apply Z.log2_lt_pow2; lia).
  split; [apply Z.pow_nonneg; lia|]. apply Z.pow_lt_mono_r; lia.
Qed.

(** *** The clock divider *)

(** The divider that a clock setting encodes. *)
Definition divider_of (c : Z) : Z := c / 256 + 256 * (c / 64 mod 4).

Lemma divider_code v d : HOST_SPEC_V2 < v ∧ 0 ≤ d < 1024 ∨ v ≤ HOST_SPEC_V2 ∧ 0 ≤ d < 256 →
  let hi := if HOST_SPEC_V2 <? v then Z.shiftr (Z.land d 0x300) 2 else 0 in
  let c := u32 (u32 (Z.shiftl (Z.land d 0x0ff) 8) + hi) in
  0 ≤ c < 2 ^ 16 ∧ c mod 64 = 0 ∧ divider_of c = d.
Proof.
  intros Hd hi c. assert (El : Z.land d 0xff = d mod 256) by exact (Z.land_ones d 8 ltac:(done)).
  assert (Eh : hi = 64 * (if HOST_SPEC_V2 <? v then d / 256 mod 4 else 0)).
  { unfold hi. destruct (_ <? _); [|done]. change 0x300 with (Z.shiftl (Z.ones 2) 8). rewrite land_field //.
    rewrite Z.shiftr_shiftl_l //. rewrite Z.shiftr_div_pow2 // Z.shiftl_mul_pow2 //. change (2 ^ 8) with 256. change (2 ^ 2) with 4. change (2 ^ (8 - 2)) with 64. lia. }
  assert (Hq : d = 256 * (if HOST_SPEC_V2 <? v then d / 256 mod 4 else 0) + d mod 256).
  { pose proof (Z.div_mod d 256 ltac:(done)). destruct (Z.ltb_spec HOST_SPEC_V2 v).
    - rewrite Z.mod_small; [lia|]. split; [apply Z.div_pos; lia|apply Z.div_lt_upper_bound; lia].
    - rewrite Z.mod_small; lia. }
  pose proof (Z.mod_pos_bound d 256 ltac:(done)). pose proof (Z.mod_pos_bound (d / 256) 4 ltac:(done)).
  unfold c. rewrite El Eh Z.shiftl_mul_pow2 //. change (2 ^ 8) with 256.
  assert (0 ≤ (if HOST_SPEC_V2 <? v then d / 256 mod 4 else 0) < 4) by (destruct (HOST_SPEC_V2 <? v); lia).
  set (q := if HOST_SPEC_V2 <? v then d / 256 mod 4 else 0) in *. clearbody q.
  rewrite (u32_small (_ * _)); [|lia]. rewrite u32_small; [|lia]. unfold divider_of. split; [lia|]. split.
  - replace (d mod 256 * 256 + 64 * q) with (0 + (d mod 256 * 4 + q) * 64) by lia. by rewrite Z_mod_plus_full.
  - replace ((d mod 256 * 256 + 64 * q) / 256) with (d mod 256).
    + replace ((d mod 256 * 256 + 64 * q) / 64) with (q + d mod 256 * 4).
      * rewrite Z_mod_plus_full (Z.mod_small q); lia.
      * replace (d mod 256 * 256 + 64 * q) with ((q + d mod 256 * 4) * 64) by lia. by rewrite Z.div_mul.
    + rewrite Z.add_comm Z.div_add // (Z.div_small (64 * q)); lia.
Qed.

Lemma closest_range freq : 0 < freq ≤ 41666666 → 1 ≤ 41666666 / freq ≤ 41666666.
Proof.
  intros H. split; [apply Z.div_le_lower_bound; lia|apply Z.div_le_upper_bound; nia].
Qed.

(** ** Properties of the arithmetic *)

(** [fls_long] is the position of the highest bit set, from 1, for the
    arguments of 32 bits; [roundup_pow_of_two] is the least power of two above. *)
Theorem fls_long_roundup x : 1 ≤ x < 2 ^ 32 →
  fls_long x = Z.log2 x + 1 ∧ roundup_pow_of_two x = 2 ^ Z.log2_up x ∧ x ≤ roundup_pow_of_two x < 2 * x.
Proof.
  intros Hx. rewrite fls_long_spec; [|lia]. rewrite roundup_pow_of_two_spec; [|lia]. split; [done|]. split; [done|].
  destruct (decide (x = 1)) as [->|Hne]; [done|]. pose proof (Z.log2_up_spec x ltac:(lia)) as [H1 H2]. split; [done|].
  rewrite -(Z.succ_pred (Z.log2_up x)) Z.pow_succ_r; [lia|]. assert (0 < Z.log2_up x) by (apply Z.log2_up_pos; lia). lia.
Qed.

Lemma fls_long_roundup_witness : fls_long 104 = Z.log2 104 + 1 ∧ roundup_pow_of_two 104 = 2 ^ Z.log2_up 104 ∧
  104 ≤ roundup_pow_of_two 104 < 2 * 104.
Proof. apply (fls_long_roundup 104). lia. Defined.

(** Beyond 32 bits [fls_long] looks at the low half only, though its argument
    is an [unsigned long]. *)
Example fls_long_high : fls_long (2 ^ 32) = 1.
Proof. reflexivity. Qed.

(** The setting [sdGetClockDivider] returns only has bits 6 to 15, those
    that [sdSetClock] clears in CONTROL1, and encodes a divider of at least 2;
    on a version 3 host the card's clock, the base clock over twice the
    divider, is never above the frequency asked for. *)
Theorem sdGetClockDivider_correct v freq : 40691 ≤ freq ≤ 41666666 → 0 ≤ v →
  ∃ c, sdGetClockDivider v freq = Some c ∧ 0 ≤ c < 2 ^ 16 ∧ c mod 64 = 0 ∧ 2 ≤ divider_of c ∧
    (HOST_SPEC_V2 < v → 41666666 ≤ freq * (2 * divider_of c)).
Proof.
  intros Hf Hv. pose proof (closest_range freq ltac:(lia)) as Hc.
  assert (Hd : 41666666 / freq < 1024) by (apply Z.div_lt_upper_bound; lia).
  pose proof (Z.mul_succ_div_gt 41666666 freq ltac:(lia)) as Hgt.
  unfold sdGetClockDivider. destruct (Z.eqb_spec freq 0) as [|_]; [lia|]. rewrite (u32_small (41666666 / freq)); [|lia].
  set (q := 41666666 / freq) in *. clearbody q.
  set (s := u32 (fls_long (u32 (q - 1)))).
  assert (Hs0 : 0 ≤ s) by exact (proj1 (wrap_range 32 _ ltac:(done))). clearbody s. cbv zeta.
  set (s2 := if 7 <? (if 0 <? s then s - 1 else s) then 7 else (if 0 <? s then s - 1 else s)).
  assert (Hs : 0 ≤ s2 ≤ 7). { unfold s2. destruct (Z.ltb_spec 0 s); [destruct (Z.ltb_spec 7 (s - 1))|destruct (Z.ltb_spec 7 s)]; lia. }
  assert (Hp : 1 ≤ Z.shiftl 1 s2 ≤ 128). { rewrite Z.shiftl_1_l. change 1 with (2 ^ 0). change 128 with (2 ^ 7).
    split; apply Z.pow_le_mono_r; lia. }
  clearbody s2. rewrite (u32_small (Z.shiftl 1 s2)); [|lia].
  set (d := if (if HOST_SPEC_V2 <? v then q else Z.shiftl 1 s2) <=? 2 then 2 else _).
  assert (Hd2 : 2 ≤ d ∧ (HOST_SPEC_V2 < v → q ≤ d < 1024) ∧ (v ≤ HOST_SPEC_V2 → d < 256)).
  { unfold d. destruct (Z.ltb_spec HOST_SPEC_V2 v); [destruct (Z.leb_spec q 2)|destruct (Z.leb_spec (Z.shiftl 1 s2) 2)]; lia. }
  pose proof (divider_code v d) as Hcode. destruct Hd2 as (Hd2 & Hd3 & Hd4).
  destruct Hcode as (H1 & H2 & H3). { destruct (Z.le_gt_cases v HOST_SPEC_V2); [right|left]; lia. }
  eexists. split; [reflexivity|]. split; [exact H1|]. split; [exact H2|]. rewrite H3. split; [lia|].
  intros Hv3%Hd3. nia.
Qed.

Lemma sdGetClockDivider_correct_witness :
  ∃ c, sdGetClockDivider 2 400000 = Some c ∧ 0 ≤ c < 2 ^ 16 ∧ c mod 64 = 0 ∧ 2 ≤ divider_of c ∧
    (HOST_SPEC_V2 < 2 → 41666666 ≤ 400000 * (2 * divider_of c)).
Proof. apply (sdGetClockDivider_correct 2 400000); lia. Defined.

(** *** The CSD *)

(** The register as the 128-bit number whose words the controller returns (the
    specification's bit [n] is bit [n - 8] here, the CRC being dropped). *)
Definition csd_value (csd0 csd1 csd2 csd3 : Z) : Z := ((csd0 * 2 ^ 32 + csd1) * 2 ^ 32 + csd2) * 2 ^ 32 + csd3.
Definition csd_field (v hi lo : Z) : Z := v / 2 ^ (lo - 8) mod 2 ^ (hi - lo + 1).

(** The capacity by the specification: READ_BL_LEN [83:80], C_SIZE [73:62] and
    C_SIZE_MULT [49:47] for version 1 of the structure ([127:126]), C_SIZE [69:48] for version 2. *)
Definition csd_capacity (v : Z) : Z :=
  if csd_field v 127 126 =? 0 then
    (csd_field v 73 62 + 1) * 2 ^ (csd_field v 49 47 + 2) * 2 ^ csd_field v 83 80
  else (csd_field v 69 48 + 1) * 524288.

Lemma csd_split csd0 csd1 csd2 csd3 n :
  0 ≤ csd0 < 2 ^ 32 → 0 ≤ csd1 < 2 ^ 32 → 0 ≤ csd2 < 2 ^ 32 → 0 ≤ csd3 < 2 ^ 32 → 0 ≤ n →
  csd_value csd0 csd1 csd2 csd3 / 2 ^ (32 + n) = ((csd0 * 2 ^ 32 + csd1) * 2 ^ 32 + csd2) / 2 ^ n.
Proof.
  intros H0 H1 H2 H3 Hn. unfold csd_value. rewrite Z.pow_add_r; [|lia..].
  assert (0 < 2 ^ n) by (apply Z.pow_pos_nonneg; lia). rewrite -Z.div_div; [|lia..].
  rewrite (Z.add_comm _ csd3) Z.div_add; [|lia]. by rewrite (Z.div_small csd3).
Qed.

(** A field inside the low word of [a * 2 ^ 32 + b]. *)
Lemma low_field a b n w : 0 ≤ b < 2 ^ 32 → 0 ≤ n → 0 ≤ w → n + w ≤ 32 →
  (a * 2 ^ 32 + b) / 2 ^ n mod 2 ^ w = b / 2 ^ n mod 2 ^ w.
Proof.
  intros Hb Hn Hw Hnw. assert (0 < 2 ^ n) by (apply Z.pow_pos_nonneg; lia).
  assert (0 < 2 ^ w) by (apply Z.pow_pos_nonneg; lia).
  replace (a * 2 ^ 32 + b) with (b + a * 2 ^ (32 - n - w) * 2 ^ w * 2 ^ n).
  - rewrite Z.div_add; [|lia]. by rewrite Z_mod_plus_full.
  - rewrite -!Z.mul_assoc -!Z.pow_add_r; [|lia..]. replace (32 - n - w + (w + n)) with 32 by lia. lia.
Qed.

(** The fields, word by word. *)
Lemma csd_fields csd0 csd1 csd2 csd3 :
  0 ≤ csd0 < 2 ^ 32 → 0 ≤ csd1 < 2 ^ 32 → 0 ≤ csd2 < 2 ^ 32 → 0 ≤ csd3 < 2 ^ 32 →
  let v := csd_value csd0 csd1 csd2 csd3 in
  csd_field v 127 126 = csd0 / 2 ^ 22 mod 2 ^ 2 ∧ csd_field v 83 80 = csd1 / 2 ^ 8 mod 2 ^ 4 ∧
  csd_field v 73 62 = csd1 mod 4 * 2 ^ 10 + csd2 / 2 ^ 22 ∧ csd_field v 49 47 = csd2 / 2 ^ 7 mod 2 ^ 3 ∧
  csd_field v 69 48 = csd2 / 2 ^ 8 mod 2 ^ 22.
Proof.
  intros H0 H1 H2 H3 v. unfold csd_field, v. cbn -[Z.pow Z.div Z.modulo csd_value]. split_and!.
  - change (126 - 8) with (32 + 86). rewrite csd_split; [|done..]. change 86 with (32 + (32 + 22)). rewrite Z.pow_add_r // -Z.div_div //.
    rewrite Z.div_add_l // (Z.div_small csd2) // Z.add_0_r. rewrite Z.pow_add_r // -Z.div_div //.
    by rewrite Z.div_add_l // (Z.div_small csd1) // Z.add_0_r.
  - change (80 - 8) with (32 + 40). rewrite csd_split; [|done..]. change 40 with (32 + 8). rewrite Z.pow_add_r // -Z.div_div //.
    rewrite Z.div_add_l // (Z.div_small csd2) // Z.add_0_r. by apply low_field.
  - change (62 - 8) with (32 + 22). rewrite csd_split; [|done..].
    replace ((csd0 * 2 ^ 32 + csd1) * 2 ^ 32 + csd2) with (csd2 + (csd0 * 2 ^ 32 + csd1) * 2 ^ 10 * 2 ^ 22) by lia.
    rewrite Z.div_add //. change (73 - 62 + 1) with (2 + 10).
    pose proof (Z.div_mod csd1 4 ltac:(done)) as Hq. pose proof (Z.mod_pos_bound csd1 4 ltac:(done)).
    assert (0 ≤ csd2 / 2 ^ 22 < 2 ^ 10) by (split; [apply Z.div_pos|apply Z.div_lt_upper_bound]; lia).
    replace (csd2 / 2 ^ 22 + (csd0 * 2 ^ 32 + csd1) * 2 ^ 10)
      with ((csd1 mod 4 * 2 ^ 10 + csd2 / 2 ^ 22) + (csd0 * 2 ^ 30 + csd1 / 4) * 2 ^ (2 + 10)) by lia.
    rewrite Z_mod_plus_full Z.mod_small; lia.
  - change (47 - 8) with (32 + 7). rewrite csd_split; [|done..]. by apply low_field.
  - change (48 - 8) with (32 + 8). rewrite csd_split; [|done..]. by apply low_field.
Qed.

Lemma mask_field x lo w m : m = Z.shiftl (Z.ones w) lo → 0 ≤ lo → 0 ≤ w → Z.shiftr (Z.land x m) lo = x / 2 ^ lo mod 2 ^ w.
Proof. intros ->. apply field_eq. Qed.

Lemma one_shift n : 0 ≤ n < 31 → i32 (Z.shiftl 1 n) = 2 ^ n.
Proof.
  intros H. rewrite Z.shiftl_1_l. apply i32_small. assert (2 ^ n < 2 ^ 31) by (apply Z.pow_lt_mono_r; lia).
  assert (0 < 2 ^ n) by (apply Z.pow_pos_nonneg; lia). lia.
Qed.

Lemma csd_version csd0 : (Z.land csd0 CSD0_VERSION =? CSD0_V1) = (csd0 / 2 ^ 22 mod 2 ^ 2 =? 0).
Proof.
  unfold CSD0_VERSION, CSD0_V1. change 0x00c00000 with (Z.shiftl (Z.ones 2) 22). rewrite land_field // Z.shiftr_div_pow2 //.
  rewrite Z.shiftl_mul_pow2 //. destruct (Z.eqb_spec (csd0 / 2 ^ 22 mod 2 ^ 2) 0) as [->|H]; [done|]. apply Z.eqb_neq. lia.
Qed.

Lemma sdParseCSD_spec csd0 csd1 csd2 csd3 :
  0 ≤ csd0 < 2 ^ 32 → 0 ≤ csd1 < 2 ^ 32 → 0 ≤ csd2 < 2 ^ 32 → 0 ≤ csd3 < 2 ^ 32 →
  (sdParseCSD csd0 csd1 csd2 csd3).1 = csd_capacity (csd_value csd0 csd1 csd2 csd3) ∧
  0 < csd_capacity (csd_value csd0 csd1 csd2 csd3) ≤ 2 ^ 41 ∧ 0 ≤ (sdParseCSD csd0 csd1 csd2 csd3).2 < 2 ^ 32.
Proof.
  intros H0 H1 H2 H3. rewrite assoc. split.
  2: { cbn [snd sdParseCSD]. unfold CSD3VN_FILE_FORMAT. change 0xc with (Z.shiftl (Z.ones 2) 2). rewrite land_field // Z.shiftl_mul_pow2 //.
    pose proof (Z.mod_pos_bound (Z.shiftr csd3 2) (2 ^ 2) ltac:(done)). lia. }
  destruct (csd_fields csd0 csd1 csd2 csd3 H0 H1 H2 H3) as (E1 & E2 & E3 & E4 & E5).
  unfold csd_capacity. rewrite E1 E2 E3 E4 E5. unfold sdParseCSD. cbn [fst]. rewrite csd_version.
  destruct (csd0 / 2 ^ 22 mod 2 ^ 2 =? 0).
  - unfold CSD1V1_C_SIZEH_SHIFT, CSD2V1_C_SIZEL_SHIFT, CSD2V1_C_SIZE_MULT_SHIFT, CSD1VN_READ_BL_LEN_SHIFT.
    rewrite (mask_field csd2 22 10) // (mask_field csd2 7 3) // (mask_field csd1 8 4) //.
    assert (Z.land csd1 CSD1V1_C_SIZEH = csd1 mod 4) as -> by exact (Z.land_ones csd1 2 ltac:(done)).
    pose proof (Z.mod_pos_bound csd1 4 ltac:(done)). pose proof (Z.mod_pos_bound (csd2 / 2 ^ 7) (2 ^ 3) ltac:(done)).
    pose proof (Z.mod_pos_bound (csd1 / 2 ^ 8) (2 ^ 4) ltac:(done)).
    assert (0 ≤ csd2 / 2 ^ 22 < 2 ^ 10) by (split; [apply Z.div_pos|apply Z.div_lt_upper_bound]; lia).
    rewrite (Z.mod_small (csd2 / 2 ^ 22)) // Z.shiftl_mul_pow2 //.
    set (a := csd1 mod 4) in *. set (b := csd2 / 2 ^ 22) in *. set (m := (csd2 / 2 ^ 7) mod 2 ^ 3) in *.
    set (r := (csd1 / 2 ^ 8) mod 2 ^ 4) in *. clearbody a b m r.
    rewrite (u32_small (a * 2 ^ 10)); [|lia]. rewrite u32_small; [|lia]. rewrite i32_small; [|lia].
    rewrite one_shift; [|lia]. rewrite one_shift; [|lia].
    assert (1 ≤ 2 ^ (m + 2) ≤ 2 ^ 9) by (split; [apply (Z.pow_le_mono_r 2 0)|apply Z.pow_le_mono_r]; lia).
    assert (1 ≤ 2 ^ r ≤ 2 ^ 15) by (split; [apply (Z.pow_le_mono_r 2 0)|apply Z.pow_le_mono_r]; lia).
    set (p := 2 ^ (m + 2)) in *. set (q := 2 ^ r) in *. clearbody p q.
    assert (1 ≤ (a * 2 ^ 10 + b + 1) * p ≤ 2 ^ 12 * 2 ^ 9) by nia.
    rewrite (i64_small ((a * 2 ^ 10 + b + 1) * p)); [|lia]. set (n := (a * 2 ^ 10 + b + 1) * p) in *. clearbody n.
    assert (1 ≤ n * q ≤ 2 ^ 21 * 2 ^ 15) by nia. rewrite i64_small; [|lia]. rewrite u64_small; lia.
  - unfold CSD2V2_C_SIZE_SHIFT. rewrite (mask_field csd2 8 22) //.
    pose proof (Z.mod_pos_bound (csd2 / 2 ^ 8) (2 ^ 22) ltac:(done)).
    set (c := (csd2 / 2 ^ 8) mod 2 ^ 22) in *. clearbody c.
    rewrite (i64_small ((c + 1) * 512)); [|lia]. rewrite i64_small; [|lia]. rewrite u64_small; lia.
Qed.

(** C35: [sdParseCSD] reads the capacity as the specification of the register
    gives it, for both versions and whatever the words hold; none of its
    64-bit products overflows. *)
Theorem sdParseCSD_capacity csd0 csd1 csd2 csd3 :
  0 ≤ csd0 < 2 ^ 32 → 0 ≤ csd1 < 2 ^ 32 → 0 ≤ csd2 < 2 ^ 32 → 0 ≤ csd3 < 2 ^ 32 →
  (sdParseCSD csd0 csd1 csd2 csd3).1 = csd_capacity (csd_value csd0 csd1 csd2 csd3) ∧
  0 < csd_capacity (csd_value csd0 csd1 csd2 csd3) ≤ 2 ^ 41.
Proof. intros H0 H1 H2 H3. destruct (sdParseCSD_spec _ _ _ _ H0 H1 H2 H3) as (? & ? & _). by split. Qed.

(** A version 1 card of 2 GB and a version 2 card of 8 GB. *)
Lemma sdParseCSD_capacity_witness :
  (sdParseCSD 0x002f0032 0x325b5a83 0xa9c00380 0x16800020).1 = csd_capacity (csd_value 0x002f0032 0x325b5a83 0xa9c00380 0x16800020) ∧
  0 < csd_capacity (csd_value 0x002f0032 0x325b5a83 0xa9c00380 0x16800020) ≤ 2 ^ 41.
Proof. apply (sdParseCSD_capacity 0x002f0032 0x325b5a83 0xa9c00380 0x16800020); lia. Defined.

Example capacities :
  (sdParseCSD 0x002f0032 0x325b5a83 0xa9c00380 0x16800020).1 = 1967128576 ∧
  (sdParseCSD 0x00400e00 0x325b5900 0x003b377f 0x800a4000).1 = 7948206080.
Proof. vm_compute. auto. Qed.
