(* ===== verification/SdHost.v ===== *)
(** * SD host controller

    The driver code of [src/driver/sddef.h] and [src/driver/mbox.c]: waiting for
    the controller, sending a command and reading its response, resetting the
    card and bringing it up.  The controller, the mailbox and the timer are
    hardware: an instance of the class [Device], any at all, answers each
    access of a register.  What [printk] writes is not modelled, the registers
    it reads for its arguments are. *)

From iris.prelude Require Import prelude.
From stdpp Require Import strings.
From S2P Require Import Prelude SdRegs.
#[local] Open Scope Z_scope.

(** ** Hardware *)

Class Device (HW : Type) := {
  mmio_read : Z → HW → Z * HW;
  mmio_write : Z → Z → HW → HW;
  (** time spent in [delay_us] and in [delay] *)
  delay_us : Z → HW → HW;
  delay : Z → HW → HW;
  (** the message buffer at an address when the firmware has answered *)
  message : Z → list Z → HW → list Z;
  mmio_read_u32 : ∀ r h, 0 ≤ (mmio_read r h).1 < 2 ^ 32;
  message_length : ∀ a l h, length (message a l h) = length l;
}.

(** ** State *)

(** [lastCmd]: [None] is NULL. *)
Record SDDescriptor : Type := SDDescriptor_ {
  capacity : Z;
  cid : list Z;
  csd : list Z;
  scr : list Z;
  ocr : Z;
  support : Z;
  fileFormat : Z;
  type : Z;
  uhsi : Z;
  init : Z;
  absent : Z;
  rca : Z;
  cardState : Z;
  status : Z;
  lastCmd : option EMMCCommand;
  lastArg : Z;
}.

Definition set_capacity (x : Z) (c : SDDescriptor) : SDDescriptor := SDDescriptor_ x c.(cid) c.(csd) c.(scr) c.(ocr) c.(support) c.(fileFormat) c.(type) c.(uhsi) c.(init) c.(absent) c.(rca) c.(cardState) c.(status) c.(lastCmd) c.(lastArg).
Definition set_cid (x : list Z) (c : SDDescriptor) : SDDescriptor := SDDescriptor_ c.(capacity) x c.(csd) c.(scr) c.(ocr) c.(support) c.(fileFormat) c.(type) c.(uhsi) c.(init) c.(absent) c.(rca) c.(cardState) c.(status) c.(lastCmd) c.(lastArg).
Definition set_csd (x : list Z) (c : SDDescriptor) : SDDescriptor := SDDescriptor_ c.(capacity) c.(cid) x c.(scr) c.(ocr) c.(support) c.(fileFormat) c.(type) c.(uhsi) c.(init) c.(absent) c.(rca) c.(cardState) c.(status) c.(lastCmd) c.(lastArg).
Definition set_scr (x : list Z) (c : SDDescriptor) : SDDescriptor := SDDescriptor_ c.(capacity) c.(cid) c.(csd) x c.(ocr) c.(support) c.(fileFormat) c.(type) c.(uhsi) c.(init) c.(absent) c.(rca) c.(cardState) c.(status) c.(lastCmd) c.(lastArg).
Definition set_ocr (x : Z) (c : SDDescriptor) : SDDescriptor := SDDescriptor_ c.(capacity) c.(cid) c.(csd) c.(scr) x c.(support) c.(fileFormat) c.(type) c.(uhsi) c.(init) c.(absent) c.(rca) c.(cardState) c.(status) c.(lastCmd) c.(lastArg).
Definition set_support (x : Z) (c : SDDescriptor) : SDDescriptor := SDDescriptor_ c.(capacity) c.(cid) c.(csd) c.(scr) c.(ocr) x c.(fileFormat) c.(type) c.(uhsi) c.(init) c.(absent) c.(rca) c.(cardState) c.(status) c.(lastCmd) c.(lastArg).
Definition set_fileFormat (x : Z) (c : SDDescriptor) : SDDescriptor := SDDescriptor_ c.(capacity) c.(cid) c.(csd) c.(scr) c.(ocr) c.(support) x c.(type) c.(uhsi) c.(init) c.(absent) c.(rca) c.(cardState) c.(status) c.(lastCmd) c.(lastArg).
Definition set_type (x : Z) (c : SDDescriptor) : SDDescriptor := SDDescriptor_ c.(capacity) c.(cid) c.(csd) c.(scr) c.(ocr) c.(support) c.(fileFormat) x c.(uhsi) c.(init) c.(absent) c.(rca) c.(cardState) c.(status) c.(lastCmd) c.(lastArg).
Definition set_uhsi (x : Z) (c : SDDescriptor) : SDDescriptor := SDDescriptor_ c.(capacity) c.(cid) c.(csd) c.(scr) c.(ocr) c.(support) c.(fileFormat) c.(type) x c.(init) c.(absent) c.(rca) c.(cardState) c.(status) c.(lastCmd) c.(lastArg).
Definition set_init (x : Z) (c : SDDescriptor) : SDDescriptor := SDDescriptor_ c.(capacity) c.(cid) c.(csd) c.(scr) c.(ocr) c.(support) c.(fileFormat) c.(type) c.(uhsi) x c.(absent) c.(rca) c.(cardState) c.(status) c.(lastCmd) c.(lastArg).
Definition set_absent (x : Z) (c : SDDescriptor) : SDDescriptor := SDDescriptor_ c.(capacity) c.(cid) c.(csd) c.(scr) c.(ocr) c.(support) c.(fileFormat) c.(type) c.(uhsi) c.(init) x c.(rca) c.(cardState) c.(status) c.(lastCmd) c.(lastArg).
Definition set_rca (x : Z) (c : SDDescriptor) : SDDescriptor := SDDescriptor_ c.(capacity) c.(cid) c.(csd) c.(scr) c.(ocr) c.(support) c.(fileFormat) c.(type) c.(uhsi) c.(init) c.(absent) x c.(cardState) c.(status) c.(lastCmd) c.(lastArg).
Definition set_cardState (x : Z) (c : SDDescriptor) : SDDescriptor := SDDescriptor_ c.(capacity) c.(cid) c.(csd) c.(scr) c.(ocr) c.(support) c.(fileFormat) c.(type) c.(uhsi) c.(init) c.(absent) c.(rca) x c.(status) c.(lastCmd) c.(lastArg).
Definition set_status (x : Z) (c : SDDescriptor) : SDDescriptor := SDDescriptor_ c.(capacity) c.(cid) c.(csd) c.(scr) c.(ocr) c.(support) c.(fileFormat) c.(type) c.(uhsi) c.(init) c.(absent) c.(rca) c.(cardState) x c.(lastCmd) c.(lastArg).
Definition set_lastCmd (x : option EMMCCommand) (c : SDDescriptor) : SDDescriptor := SDDescriptor_ c.(capacity) c.(cid) c.(csd) c.(scr) c.(ocr) c.(support) c.(fileFormat) c.(type) c.(uhsi) c.(init) c.(absent) c.(rca) c.(cardState) c.(status) x c.(lastArg).
Definition set_lastArg (x : Z) (c : SDDescriptor) : SDDescriptor := SDDescriptor_ c.(capacity) c.(cid) c.(csd) c.(scr) c.(ocr) c.(support) c.(fileFormat) c.(type) c.(uhsi) c.(init) c.(absent) c.(rca) c.(cardState) c.(status) c.(lastCmd) x.

Record host (HW : Type) : Type := Host {
  hw : HW;
  sdCard : SDDescriptor;
  sdHostVer : Z;
  sdBaseClock : Z;
}.
Arguments Host {HW} _ _ _ _.
Arguments hw {HW} _.
Arguments sdCard {HW} _.
Arguments sdHostVer {HW} _.
Arguments sdBaseClock {HW} _.

Definition sdDebug : Z := 0.

Section host.
Context {HW : Type} `{Device HW}.
Abbreviation M := (M (host HW)).

(** [*reg] and [*reg = v] *)
Definition rd (reg : Z) : M Z :=
  λ s, let '(v, h) := mmio_read reg s.(hw) in Ok (v, Host h s.(sdCard) s.(sdHostVer) s.(sdBaseClock)).
Definition on_hw (f : HW → HW) : M unit := modify (λ s, Host (f s.(hw)) s.(sdCard) s.(sdHostVer) s.(sdBaseClock)).
Definition wr (reg v : Z) : M unit := on_hw (mmio_write reg v).
Definition card {A} (f : SDDescriptor → A) : M A := gets (λ s, f s.(sdCard)).
Definition set_card (f : SDDescriptor → SDDescriptor) : M unit :=
  modify (λ s, Host s.(hw) (f s.(sdCard)) s.(sdHostVer) s.(sdBaseClock)).

(** Registers that [printk] reads for its arguments. *)
Definition show (regs : list Z) : M unit := for_each regs (λ r, rd r ;; mret tt).

Definition sd_delayus (c : Z) : M unit := on_hw (delay_us (u32 (c * 3))).

Definition sdDebugResponse (r : Z) : M Z :=
  cmd ← card lastCmd;
  deref cmd ;;
  show [EMMC_RESP3; EMMC_RESP2; EMMC_RESP1; EMMC_RESP0] ;;
  show [EMMC_STATUS; EMMC_CONTROL1; EMMC_INTERRUPT] ;;
  mret r.

(** [while (cond && count--) sd_delayus(us);], and the value it leaves in [count]. *)
Fixpoint countdown (fuel : nat) (cond : M bool) (us count : Z) : M Z :=
  match fuel with
  | O => fail OutOfFuel
  | S fuel =>
      b ← cond;
      if b : bool then
        if count =? 0 then mret (-1)
        else sd_delayus us ;; countdown fuel cond us (count - 1)
      else mret count
  end.
(** One turn per value of [count], and the last test. *)
Definition turns (count : Z) : nat := S (Z.to_nat count).

Definition bits_set (reg mask : Z) : M bool := v ← rd reg; mret (negb (Z.land v mask =? 0)).
Definition bits_clear (reg mask : Z) : M bool := v ← rd reg; mret (Z.land v mask =? 0).

(** *** Waiting *)

Definition sdWaitForInterrupt (mask : Z) : M Z :=
  let waitMask := Z.lor mask INT_ERROR_MASK in
  count ← countdown (turns 1000000) (bits_clear EMMC_INTERRUPT waitMask) 1 1000000;
  ival ← rd EMMC_INTERRUPT;
  if (count <=? 0) || negb (Z.land ival INT_CMD_TIMEOUT =? 0) || negb (Z.land ival INT_DATA_TIMEOUT =? 0) then
    wr EMMC_INTERRUPT ival ;; mret SD_TIMEOUT
  else if negb (Z.land ival INT_ERROR_MASK =? 0) then
    show [EMMC_STATUS; EMMC_RESP0] ;;
    wr EMMC_INTERRUPT ival ;; mret SD_ERROR
  else
    wr EMMC_INTERRUPT mask ;; mret SD_OK.

(** [*EMMC_STATUS & flag && !( *EMMC_INTERRUPT & INT_ERROR_MASK)] *)
Definition inhibited (flag : Z) : M bool :=
  b ← bits_set EMMC_STATUS flag;
  if b : bool then bits_clear EMMC_INTERRUPT INT_ERROR_MASK else mret false.

Definition sdWaitForCommand : M Z :=
  count ← countdown (turns 1000000) (inhibited SR_CMD_INHIBIT) 1 1000000;
  bad ← (if count <=? 0 then mret true else bits_set EMMC_INTERRUPT INT_ERROR_MASK);
  if bad : bool then show [EMMC_STATUS; EMMC_INTERRUPT; EMMC_RESP0] ;; mret SD_BUSY
  else mret SD_OK.

(** [while (cond && ++count < limit) sd_delayus(1);] *)
Fixpoint countup (fuel : nat) (cond : M bool) (limit count : Z) : M Z :=
  match fuel with
  | O => fail OutOfFuel
  | S fuel =>
      b ← cond;
      if b : bool then
        if count + 1 <? limit then sd_delayus 1 ;; countup fuel cond limit (count + 1)
        else mret (count + 1)
      else mret count
  end.

Definition sdWaitForData : M Z :=
  count ← countup (turns 500000) (inhibited SR_DAT_INHIBIT) 500000 0;
  bad ← (if 500000 <=? count then mret true else bits_set EMMC_INTERRUPT INT_ERROR_MASK);
  if bad : bool then show [EMMC_STATUS; EMMC_INTERRUPT; EMMC_RESP0] ;; mret SD_BUSY
  else mret SD_OK.

(** *** Commands *)

(** The [switch] on the response type; [resp0] is the signed value of RESP0. *)
Definition handle_response (cmd : EMMCCommand) (arg resp0 : Z) : M Z :=
  let t := cmd.(resp) in
  if t =? RESP_NO then mret SD_OK
  else if (t =? RESP_R1) || (t =? RESP_R1b) then
    set_card (set_status (u32 resp0)) ;;
    set_card (set_cardState (Z.shiftr (Z.land resp0 ST_CARD_STATE) R1_CARD_STATE_SHIFT)) ;;
    mret (i32 (Z.land resp0 R1_ERRORS_MASK))
  else if (t =? RESP_R2I) || (t =? RESP_R2S) then
    set_card (set_status 0) ;;
    r3 ← rd EMMC_RESP3;
    r2 ← rd EMMC_RESP2;
    r1 ← rd EMMC_RESP1;
    set_card ((if t =? RESP_R2I then set_cid else set_csd) [r3; r2; r1; u32 resp0]) ;;
    mret SD_OK
  else if t =? RESP_R3 then
    set_card (set_status 0) ;;
    set_card (set_ocr (u32 resp0)) ;;
    mret SD_OK
  else if t =? RESP_R6 then
    set_card (set_rca (Z.land (u32 resp0) R6_RCA_MASK)) ;;
    let st := Z.lor (Z.lor (Z.lor (Z.land resp0 0x1fff) (Z.shiftl (Z.land resp0 0x2000) 6))
                       (Z.shiftl (Z.land resp0 0x4000) 8)) (Z.shiftl (Z.land resp0 0x8000) 8) in
    set_card (set_status st) ;;
    set_card (set_cardState (Z.shiftr (Z.land resp0 ST_CARD_STATE) R1_CARD_STATE_SHIFT)) ;;
    mret (i32 (Z.land st R1_ERRORS_MASK))
  else if t =? RESP_R7 then
    set_card (set_status 0) ;;
    mret (if resp0 =? arg then SD_OK else SD_ERROR)
  else panic.

Definition sdSendCommandP (cmd : EMMCCommand) (arg : Z) : M Z :=
  busy ← sdWaitForCommand;
  if negb (busy =? 0) then mret SD_BUSY else
  set_card (set_lastCmd (Some cmd)) ;;
  set_card (set_lastArg (u32 arg)) ;;
  i ← rd EMMC_INTERRUPT;
  wr EMMC_INTERRUPT i ;;
  wr EMMC_ARG1 (u32 arg) ;;
  wr EMMC_CMDTM cmd.(code) ;;
  (if cmd.(delay_after) =? 0 then mret tt else sd_delayus cmd.(delay_after)) ;;
  result ← sdWaitForInterrupt INT_CMD_DONE;
  if negb (result =? 0) then mret result else
  resp0 ← rd EMMC_RESP0;
  handle_response cmd arg (i32 resp0).

(** [&sdCommandTable[index]] *)
Definition command (index : Z) : M EMMCCommand := deref (sdCommandTable !! Z.to_nat index).

Definition sdSendAppCommand : M Z :=
  r ← card rca;
  if r =? 0 then
    cmd ← command IX_APP_CMD; sdSendCommandP cmd 0 ;; mret SD_OK
  else
    cmd ← command IX_APP_CMD_RCA;
    resp ← sdSendCommandP cmd (i32 r);
    if negb (resp =? 0) then sdDebugResponse resp else
    st ← card status;
    if Z.land st ST_APP_CMD =? 0 then mret SD_ERROR else mret SD_OK.

(** The check at the end of [sdSendCommand] and [sdSendCommandA]. *)
Definition app_accepted (index : Z) : M Z :=
  r ← card rca;
  st ← card status;
  mret (if (IX_APP_CMD_START <=? index) && negb (r =? 0) && (Z.land st ST_APP_CMD =? 0)
        then SD_ERROR_APP_CMD else SD_OK).

Definition sdSendCommand (index : Z) : M Z :=
  resp ← (if IX_APP_CMD_START <=? index then sdSendAppCommand else mret 0);
  if negb (resp =? 0) then sdDebugResponse resp else
  cmd ← command index;
  r ← card rca;
  let arg := if cmd.(rca_flag) =? RCA_YES then i32 r else 0 in
  resp ← sdSendCommandP cmd arg;
  if negb (resp =? 0) then mret resp else app_accepted index.

Definition sdSendCommandA (index arg : Z) : M Z :=
  resp ← (if IX_APP_CMD_START <=? index then sdSendAppCommand else mret 0);
  if negb (resp =? 0) then sdDebugResponse resp else
  cmd ← command index;
  resp ← sdSendCommandP cmd arg;
  if negb (resp =? 0) then mret resp else app_accepted index.

(** *** The SCR *)

Fixpoint read_scr (fuel : nat) (numRead count : Z) : M Z :=
  match fuel with
  | O => fail OutOfFuel
  | S fuel =>
      if numRead <? 2 then
        b ← bits_set EMMC_STATUS SR_READ_AVAILABLE;
        if b : bool then
          v ← rd EMMC_DATA;
          set_card (λ c, set_scr (<[Z.to_nat numRead := v]> c.(scr)) c) ;;
          read_scr fuel (numRead + 1) count
        else
          sd_delayus 1 ;;
          if count - 1 =? 0 then mret numRead else read_scr fuel numRead (count - 1)
      else mret numRead
  end.

Definition supports (flag supp : Z) : M unit :=
  w ← card (λ c, c.(scr) !! 0%nat);
  w ← deref w;
  if Z.land w flag =? 0 then mret tt else set_card (λ c, set_support (Z.lor c.(support) supp) c).

Definition sdReadSCR : M Z :=
  busy ← sdWaitForData;
  if negb (busy =? 0) then mret SD_TIMEOUT else
  wr EMMC_BLKSIZECNT (Z.lor (Z.shiftl 1 16) 8) ;;
  resp ← sdSendCommand IX_SEND_SCR;
  if negb (resp =? 0) then sdDebugResponse resp else
  resp ← sdWaitForInterrupt INT_READ_RDY;
  if negb (resp =? 0) then sdDebugResponse resp else
  numRead ← read_scr (turns 100002) 0 100000;
  if negb (numRead =? 2) then
    show [EMMC_STATUS; EMMC_INTERRUPT; EMMC_RESP0] ;; mret SD_TIMEOUT
  else
    supports SCR_SD_BUS_WIDTH_4 SD_SUPP_BUS_WIDTH_4 ;;
    supports SCR_SD_BUS_WIDTH_1 SD_SUPP_BUS_WIDTH_1 ;;
    supports SCR_CMD_SUPP_SET_BLKCNT SD_SUPP_SET_BLOCK_COUNT ;;
    supports SCR_CMD_SUPP_SPEED_CLASS SD_SUPP_SPEED_CLASS ;;
    mret SD_OK.

(** *** Clock and reset *)

(** [while (cond && --count) sd_delayus(1);] *)
Fixpoint predecrement (fuel : nat) (cond : M bool) (count : Z) : M Z :=
  match fuel with
  | O => fail OutOfFuel
  | S fuel =>
      b ← cond;
      if b : bool then
        if count - 1 =? 0 then mret 0
        else sd_delayus 1 ;; predecrement fuel cond (count - 1)
      else mret count
  end.

(** [*reg = f( *reg)] *)
Definition update_reg (reg : Z) (f : Z → Z) : M unit := v ← rd reg; wr reg (u32 (f v)).

Definition sdSetClock (freq : Z) : M Z :=
  count ← predecrement (turns 100000) (bits_set EMMC_STATUS (Z.lor SR_CMD_INHIBIT SR_DAT_INHIBIT)) 100000;
  if count <=? 0 then show [EMMC_STATUS] ;; mret SD_ERROR_CLOCK else
  update_reg EMMC_CONTROL1 (λ v, Z.land v (u32 (Z.lnot C1_CLK_EN))) ;;
  sd_delayus 10 ;;
  ver ← gets sdHostVer;
  cdiv ← deref (sdGetClockDivider ver (u32 freq));
  update_reg EMMC_CONTROL1 (λ v, Z.lor (Z.land v 0xffff003f) cdiv) ;;
  sd_delayus 10 ;;
  update_reg EMMC_CONTROL1 (λ v, Z.lor v C1_CLK_EN) ;;
  sd_delayus 10 ;;
  count ← countdown (turns 10000) (bits_clear EMMC_CONTROL1 C1_CLK_STABLE) 10 10000;
  if count <=? 0 then mret SD_ERROR_CLOCK
  else show [EMMC_STATUS; EMMC_CONTROL1] ;; mret SD_OK.

Definition sdResetCard (resetType : Z) : M Z :=
  wr EMMC_CONTROL0 0 ;;
  update_reg EMMC_CONTROL1 (λ v, Z.lor v resetType) ;;
  sd_delayus 10 ;;
  count ← countdown (turns 10000) (bits_set EMMC_CONTROL1 resetType) 10 10000;
  if count <=? 0 then mret SD_ERROR_RESET else
  update_reg EMMC_CONTROL1 (λ v, Z.lor v (Z.lor C1_CLK_INTLEN C1_TOUNIT_MAX)) ;;
  sd_delayus 10 ;;
  resp ← sdSetClock FREQ_SETUP;
  if negb (resp =? 0) then mret resp else
  wr EMMC_IRPT_EN (Z.land (Z.land 0xffffffff (u32 (Z.lnot INT_CMD_DONE))) (u32 (Z.lnot INT_WRITE_RDY))) ;;
  wr EMMC_IRPT_MASK 0xffffffff ;;
  set_card (set_rca 0) ;;
  set_card (set_ocr 0) ;;
  set_card (set_lastArg 0) ;;
  set_card (set_lastCmd None) ;;
  set_card (set_status 0) ;;
  set_card (set_type 0) ;;
  set_card (set_uhsi 0) ;;
  sdSendCommand IX_GO_IDLE_STATE.

(** [sdSendCommandA(IX_APP_SEND_OP_COND, arg)]; [Some r]: return [r] at once. *)
Definition op_cond (arg : Z) : M (option Z) :=
  resp ← sdSendCommandA IX_APP_SEND_OP_COND arg;
  mret (if negb (resp =? 0) && negb (resp =? SD_TIMEOUT) then Some resp else None).

Fixpoint op_cond_retry (fuel : nat) (arg count : Z) : M (option Z) :=
  match fuel with
  | O => fail OutOfFuel
  | S fuel =>
      o ← card ocr;
      if negb (Z.land o R3_COMPLETE =? 0) then mret None
      else if count =? 0 then mret None
      else
        show [EMMC_STATUS] ;;
        on_hw (delay 50000) ;;
        r ← op_cond arg;
        match r with
        | Some resp => mret (Some resp)
        | None => op_cond_retry fuel arg (count - 1)
        end
  end.

Definition sdAppSendOpCond (arg : Z) : M Z :=
  show [EMMC_STATUS] ;;
  r ← op_cond arg;
  match r with
  | Some resp => mret resp
  | None =>
      r ← op_cond_retry (turns 6) arg 6;
      match r with
      | Some resp => mret resp
      | None =>
          o ← card ocr;
          if Z.land o R3_COMPLETE =? 0 then mret SD_TIMEOUT
          else if Z.land o ACMD41_VOLTAGE =? 0 then mret SD_ERROR_VOLTAGE
          else mret SD_OK
      end
  end.

Definition sdSwitchVoltage : M Z := mret SD_OK.

(** One group of pins: their function, then pull up through a clock pulse. *)
Definition pull_up (clk : Z) : M unit :=
  wr GPPUD 2 ;; on_hw (delay 150) ;;
  wr GPPUDCLK1 clk ;; on_hw (delay 150) ;;
  wr GPPUD 0 ;; wr GPPUDCLK1 0.

Definition sdInitGPIO : M unit :=
  update_reg GPFSEL4 (λ r, Z.land r (u32 (Z.lnot (Z.shiftl 7 21)))) ;;
  pull_up (Z.shiftl 1 15) ;;
  update_reg GPHEN1 (λ r, Z.lor r (Z.shiftl 1 15)) ;;
  update_reg GPFSEL4 (λ r, Z.lor r (u32 (Z.lor (Z.shiftl 7 24) (Z.shiftl 7 27)))) ;;
  pull_up (Z.lor (Z.shiftl 1 16) (Z.shiftl 1 17)) ;;
  update_reg GPFSEL5 (λ r, Z.lor r (Z.lor (Z.lor (Z.lor (Z.shiftl 7 0) (Z.shiftl 7 3)) (Z.shiftl 7 6)) (Z.shiftl 7 9))) ;;
  pull_up (Z.lor (Z.lor (Z.lor (Z.shiftl 1 18) (Z.shiftl 1 19)) (Z.shiftl 1 20)) (Z.shiftl 1 21)).

(** *** The mailbox *)

Definition MBOX_READ : Z := MMIO_BASE + 0xB880.
Definition MBOX_STATUS : Z := MMIO_BASE + 0xB880 + 0x18.
Definition MBOX_WRITE : Z := MMIO_BASE + 0xB880 + 0x20.
Definition MBOX_FULL : Z := 0x80000000.
Definition MBOX_EMPTY : Z := 0x40000000.
Definition MBOX_TAG_GET_CLOCK_RATE : Z := 0x00030002.
Definition MBOX_TAG_END : Z := 0.

(** [while ( *MBOX_STATUS & flag);] *)
Fixpoint spin (fuel : nat) (flag : Z) : M unit :=
  match fuel with
  | O => fail OutOfFuel
  | S fuel => b ← bits_set MBOX_STATUS flag; if b : bool then spin fuel flag else mret tt
  end.

Fixpoint mbox_read (fuel : nat) (chan : Z) : M Z :=
  match fuel with
  | O => fail OutOfFuel
  | S n =>
      spin fuel MBOX_EMPTY ;;
      r ← rd MBOX_READ;
      if Z.land r 0xF =? chan then mret (i32 (Z.shiftr r 4)) else mbox_read n chan
  end.

Definition mbox_write (fuel : nat) (buf chan : Z) : M unit :=
  assert_ ((Z.land buf 0xF =? 0) && (Z.land chan (Z.lnot 0xF) =? 0)) ;;
  spin fuel MBOX_FULL ;;
  wr MBOX_WRITE (Z.lor (Z.land buf (u32 (Z.lnot 0xF))) chan).

(** [buf] is the physical address of the message on the stack. *)
Definition mbox_get_clock_rate (fuel : nat) (buf : Z) : M Z :=
  let msg := [36; 0; MBOX_TAG_GET_CLOCK_RATE; 8; 0; 1; 0; MBOX_TAG_END] in
  assert_ (Z.land buf 0xF =? 0) ;;
  mbox_write fuel (u32 buf) 8 ;;
  mbox_read fuel 8 ;;
  answer ← gets (λ s, message buf msg s.(hw));
  rate ← deref (answer !! 6%nat);
  mret (i32 rate).

Definition sdGetBaseClock (fuel : nat) (buf : Z) : M Z :=
  rate ← mbox_get_clock_rate fuel buf;
  modify (λ s, Host s.(hw) s.(sdCard) s.(sdHostVer) rate) ;;
  mret (if rate =? -1 then SD_ERROR else SD_OK).

(** *** Initialisation *)

(** [if ((resp = step)) return sdDebugResponse(resp);] before [rest] *)
Definition step_or_debug (step : M Z) (rest : M Z) : M Z :=
  resp ← step; if negb (resp =? 0) then sdDebugResponse resp else rest.
(** [if ((resp = step)) return resp;] before [rest] *)
Definition step_or_return (step : M Z) (rest : M Z) : M Z :=
  resp ← step; if negb (resp =? 0) then mret resp else rest.

Definition sdParseCSD_card : M unit :=
  c ← gets sdCard;
  w0 ← deref (c.(csd) !! 0%nat); w1 ← deref (c.(csd) !! 1%nat);
  w2 ← deref (c.(csd) !! 2%nat); w3 ← deref (c.(csd) !! 3%nat);
  set_card (set_capacity (sdParseCSD w0 w1 w2 w3).1) ;;
  set_card (set_fileFormat (sdParseCSD w0 w1 w2 w3).2).

(** From the identification of the card on. *)
Definition identified (oldCID : list Z) : M Z :=
  o ← card ocr;
  step_or_return (if Z.land o R3_S18A =? 0 then mret 0 else sdSwitchVoltage) (
  step_or_debug (sdSendCommand IX_ALL_SEND_CID) (
  step_or_debug (sdSendCommand IX_SEND_REL_ADDR) (
  step_or_debug (sdSendCommand IX_SEND_CSD) (
  sdParseCSD_card ;;
  ff ← card fileFormat;
  if negb (ff =? CSD3VN_FILE_FORMAT_DOSFAT) && negb (ff =? CSD3VN_FILE_FORMAT_HDD) then mret SD_ERROR else
  step_or_debug (sdSetClock FREQ_NORMAL) (
  step_or_debug (sdSendCommand IX_CARD_SELECT) (
  step_or_debug sdReadSCR (
  supp ← card support;
  step_or_debug
    (if Z.land supp SD_SUPP_BUS_WIDTH_4 =? 0 then mret 0
     else r ← card rca; sdSendCommandA IX_SET_BUS_WIDTH (Z.lor (i32 r) 2)) (
  (if Z.land supp SD_SUPP_BUS_WIDTH_4 =? 0 then mret tt
   else update_reg EMMC_CONTROL0 (λ v, Z.lor v C0_HCTL_DWITDH)) ;;
  step_or_debug (sdSendCommandA IX_SET_BLOCKLEN 512) (
  set_card (set_init 1) ;;
  newCID ← card cid;
  mret (if bool_decide (oldCID = newCID) then SD_CARD_REINSERTED else SD_CARD_CHANGED)))))))))).

(** The branches on the answer to SEND_IF_COND. *)
Definition resolve (oldCID : list Z) (resp : Z) : M Z :=
  if resp =? SD_OK then
    on_hw (delay 50) ;;
    step_or_debug (sdAppSendOpCond ACMD41_ARG_HC) (
    o ← card ocr;
    set_card (set_type (if Z.land o R3_CCS =? 0 then SD_TYPE_2_SC else SD_TYPE_2_HC)) ;;
    identified oldCID)
  else if resp =? SD_BUSY then mret resp
  else
    b ← bits_set EMMC_STATUS SR_CMD_INHIBIT;
    step_or_return (if b : bool then sdResetCard C1_SRST_HC else mret 0) (
    step_or_debug (sdAppSendOpCond ACMD41_ARG_SC) (
    set_card (set_type SD_TYPE_1) ;;
    identified oldCID)).

Definition sdInit (fuel : nat) (buf : Z) : M Z :=
  i ← card init;
  (if i =? 0 then sdInitGPIO else mret tt) ;;
  eds ← rd GPEDS1;
  let cardEjected := negb (Z.land eds (Z.shiftl 1 15) =? 0) in
  set_card (set_absent 0) ;;
  old ← card cid;
  let oldCID := if cardEjected && negb (i =? 0) then old else [0; 0; 0; 0] in
  (if cardEjected && negb (i =? 0) then set_card (set_init 0) else mret tt) ;;
  i ← card init;
  if negb (i =? 0) then mret SD_OK else
  v ← rd EMMC_SLOTISR_VER;
  modify (λ s, Host s.(hw) s.(sdCard) (Z.shiftr (Z.land v HOST_SPEC_NUM) HOST_SPEC_NUM_SHIFT) s.(sdBaseClock)) ;;
  step_or_return (sdGetBaseClock fuel buf) (
  step_or_return (sdResetCard C1_SRST_HC) (
  resp ← sdSendCommandA IX_SEND_IF_COND 0x1AA;
  resolve oldCID resp)).

(** ** Invariant *)

Definition u32_ok (x : Z) : Prop := 0 ≤ x < 2 ^ 32.

(** The fields are in their C types, and with a relative address there is a last command. *)
Record card_ok (c : SDDescriptor) : Prop := {
  ok_capacity : 0 ≤ c.(capacity) < 2 ^ 64;
  ok_cid : length c.(cid) = 4%nat ∧ Forall u32_ok c.(cid);
  ok_csd : length c.(csd) = 4%nat ∧ Forall u32_ok c.(csd);
  ok_scr : length c.(scr) = 2%nat ∧ Forall u32_ok c.(scr);
  ok_words : u32_ok c.(ocr) ∧ u32_ok c.(support) ∧ u32_ok c.(fileFormat) ∧ u32_ok c.(rca) ∧
             u32_ok c.(cardState) ∧ u32_ok c.(status) ∧ u32_ok c.(lastArg);
  ok_bytes : byte_ok c.(type) ∧ byte_ok c.(uhsi) ∧ byte_ok c.(init) ∧ byte_ok c.(absent);
  ok_rca : c.(rca) ≠ 0 → c.(lastCmd) ≠ None;
}.

(** [P] is about the fields that commands leave alone (only SEND_CSD sets [csd]). *)
Definition quiet (P : SDDescriptor → Prop) : Prop := ∀ c x l o,
  P c → P (set_status x c) ∧ P (set_cardState x c) ∧ P (set_lastCmd o c) ∧ P (set_lastArg x c) ∧
        P (set_rca x c) ∧ P (set_ocr x c) ∧ P (set_cid l c) ∧ P (set_scr l c) ∧ P (set_support x c).

(** With [h], some command has been sent since the last reset. *)
Definition Inv (h : bool) (P : SDDescriptor → Prop) (c : SDDescriptor) : Prop :=
  card_ok c ∧ P c ∧ (h = true → c.(lastCmd) ≠ None).

(** [m] returns, keeps the invariant, and with [h' a] a command has been sent. *)
Definition T {A} (h : bool) (P : SDDescriptor → Prop) (m : M A) (h' : A → bool) (R : A → Prop) : Prop :=
  ∀ s, Inv h P s.(sdCard) → wp m (λ a s', Inv (h' a) P s'.(sdCard) ∧ R a) s.

Lemma Inv_true P c : Inv true P c → ∀ h, Inv h P c.
Proof. intros (? & ? & H1) h. split_and!; auto. Qed.

Lemma Inv_weaken (h1 h2 : bool) P c : Inv h1 P c → (h2 = true → h1 = true) → Inv h2 P c.
Proof. intros (? & ? & ?) Hh. split_and!; auto. Qed.

Lemma wp_rd reg (Q : Z → host HW → Prop) s :
  (∀ v h, mmio_read reg s.(hw) = (v, h) → Q v (Host h s.(sdCard) s.(sdHostVer) s.(sdBaseClock))) → wp (rd reg) Q s.
Proof.
  intros HQ. unfold wp, rd. destruct (mmio_read reg (hw s)) as [v h] eqn:E. eexists _, _. split; [reflexivity|]. by apply HQ.
Qed.

Section triples.
Context (P : SDDescriptor → Prop).
Implicit Types h : bool.

Lemma T_ret {A} h (a : A) (R : A → Prop) : R a → T h P (mret a) (λ _, h) R.
Proof. intros HR s Hs. apply wp_ret. split; [exact Hs|exact HR]. Qed.

Lemma T_bind {A B} h (m : M A) (f : A → M B) (h1 : A → bool) (R1 : A → Prop) (h2 : B → bool) (R : B → Prop) :
  T h P m h1 R1 → (∀ a, R1 a → T (h1 a) P (f a) h2 R) → T h P (m ≫= f) h2 R.
Proof. intros Hm Hf s Hs. apply wp_bind. eapply wp_mono; [by apply Hm|]. intros a s' [Hs' HR]. by apply Hf. Qed.

(** A first step that only keeps the invariant. *)
Lemma T_then {A B} h (m : M A) (f : A → M B) (h2 : B → bool) (R : B → Prop) :
  T h P m (λ _, h) (λ _, True) → (∀ a, T h P (f a) h2 R) → T h P (m ≫= f) h2 R.
Proof. intros Hm Hf. eapply T_bind; [exact Hm|]. auto. Qed.

Lemma T_mono {A} h (m : M A) (h1 : A → bool) (R1 : A → Prop) (h2 : A → bool) (R2 : A → Prop) :
  T h P m h1 R1 → (∀ a, R1 a → R2 a ∧ (h2 a = true → h1 a = true)) → T h P m h2 R2.
Proof.
  intros Hm HR s Hs. eapply wp_mono; [by apply Hm|]. intros a s' [Hs' Ha]. destruct (HR a Ha) as [H1 H2].
  split; [|done]. by eapply Inv_weaken.
Qed.

Lemma T_pre {A} (h h0 : bool) (m : M A) (h1 : A → bool) (R : A → Prop) : T h0 P m h1 R → (h0 = true → h = true) → T h P m h1 R.
Proof. intros Hm Hh s Hs. apply Hm. by eapply Inv_weaken. Qed.

Lemma T_rd h reg : T h P (rd reg) (λ _, h) u32_ok.
Proof.
  intros s Hs. apply wp_rd. intros v h1 E. split; [done|]. pose proof (mmio_read_u32 reg (hw s)) as Hv. by rewrite E in Hv.
Qed.

Lemma T_hw h f : T h P (on_hw f) (λ _, h) (λ _, True).
Proof. intros s Hs. apply wp_modify. split; [exact Hs|done]. Qed.

Lemma T_card {A} h (f : SDDescriptor → A) : T h P (card f) (λ _, h) (λ a, ∃ c, Inv h P c ∧ a = f c).
Proof. intros s Hs. apply wp_gets. split; [done|]. by exists (sdCard s). Qed.

Lemma T_set h f : (∀ c, Inv h P c → Inv h P (f c)) → T h P (set_card f) (λ _, h) (λ _, True).
Proof. intros Hf s Hs. apply wp_modify. split; [exact (Hf _ Hs)|done]. Qed.

Lemma T_show h regs : T h P (show regs) (λ _, h) (λ _, True).
Proof.
  induction regs as [|r regs IH]; [by apply T_ret|]. cbn [show for_each]. apply T_then; [|intros; exact IH].
  eapply T_bind; [apply T_rd|]. intros a _. by apply T_ret.
Qed.

Lemma T_bits_set h reg mask : T h P (bits_set reg mask) (λ _, h) (λ _, True).
Proof. eapply T_bind; [apply T_rd|]. intros v _. by apply T_ret. Qed.
Lemma T_bits_clear h reg mask : T h P (bits_clear reg mask) (λ _, h) (λ _, True).
Proof. eapply T_bind; [apply T_rd|]. intros v _. by apply T_ret. Qed.
Lemma T_inhibited h flag : T h P (inhibited flag) (λ _, h) (λ _, True).
Proof. eapply T_bind; [apply T_bits_set|]. intros [] _; [apply T_bits_clear|by apply T_ret]. Qed.
Lemma T_update_reg h reg f : T h P (update_reg reg f) (λ _, h) (λ _, True).
Proof. eapply T_bind; [apply T_rd|]. intros v _. apply T_hw. Qed.

(** *** Loops *)

Lemma T_countdown h cond us fuel count :
  T h P cond (λ _, h) (λ _, True) → 0 ≤ count < Z.of_nat fuel → T h P (countdown fuel cond us count) (λ _, h) (λ _, True).
Proof.
  intros Hc. revert count. induction fuel as [|fuel IH]; intros count Hf; [lia|]. cbn [countdown].
  eapply T_bind; [exact Hc|]. intros [] _; [|by apply T_ret]. destruct (Z.eqb_spec count 0); [by apply T_ret|].
  eapply T_bind; [apply T_hw|]. intros ? _. apply IH. lia.
Qed.

Lemma T_countup h cond limit fuel count :
  T h P cond (λ _, h) (λ _, True) → 0 ≤ limit - count < Z.of_nat fuel →
  T h P (countup fuel cond limit count) (λ _, h) (λ _, True).
Proof.
  intros Hc. revert count. induction fuel as [|fuel IH]; intros count Hf; [lia|]. cbn [countup].
  eapply T_bind; [exact Hc|]. intros [] _; [|by apply T_ret]. destruct (Z.ltb_spec (count + 1) limit); [|by apply T_ret].
  eapply T_bind; [apply T_hw|]. intros ? _. apply IH. lia.
Qed.

Lemma T_predecrement h cond fuel count :
  T h P cond (λ _, h) (λ _, True) → 0 < count < Z.of_nat fuel → T h P (predecrement fuel cond count) (λ _, h) (λ _, True).
Proof.
  intros Hc. revert count. induction fuel as [|fuel IH]; intros count Hf; [lia|]. cbn [predecrement].
  eapply T_bind; [exact Hc|]. intros [] _; [|by apply T_ret]. destruct (Z.eqb_spec (count - 1) 0); [by apply T_ret|].
  eapply T_bind; [apply T_hw|]. intros ? _. apply IH. lia.
Qed.

Lemma turns_spec count : 0 ≤ count → 0 ≤ count < Z.of_nat (turns count).
Proof. unfold turns. lia. Qed.

(** A result that is not one of the codes of a successful [sdInit]. *)
Definition code_ok (r : Z) : Prop := r ≠ SD_CARD_CHANGED ∧ r ≠ SD_CARD_REINSERTED.

Lemma T_sdWaitForInterrupt h mask : T h P (sdWaitForInterrupt mask) (λ _, h) (λ r, code_ok r ∧ r ≠ SD_BUSY).
Proof.
  eapply T_bind; [apply T_countdown; [apply T_bits_clear|by apply turns_spec]|]. intros count _.
  eapply T_bind; [apply T_rd|]. intros v _. destruct (_ || _).
  { eapply T_bind; [apply T_hw|]. intros ? _. by apply T_ret. }
  destruct (negb _).
  - eapply T_bind; [apply T_show|]. intros ? _. eapply T_bind; [apply T_hw|]. intros ? _. by apply T_ret.
  - eapply T_bind; [apply T_hw|]. intros ? _. by apply T_ret.
Qed.

Lemma T_sdWaitForCommand h : T h P sdWaitForCommand (λ _, h) code_ok.
Proof.
  eapply T_bind; [apply T_countdown; [apply T_inhibited|by apply turns_spec]|]. intros count _.
  eapply T_bind. { instantiate (1 := λ _, True). instantiate (1 := λ _, h). destruct (_ <=? _); [by apply T_ret|apply T_bits_set]. }
  intros [] _; [|by apply T_ret]. eapply T_bind; [apply T_show|]. intros ? _. by apply T_ret.
Qed.

Lemma T_sdWaitForData h : T h P sdWaitForData (λ _, h) code_ok.
Proof.
  eapply T_bind; [apply T_countup; [apply T_inhibited|unfold turns; lia]|]. intros count _.
  eapply T_bind. { instantiate (1 := λ _, True). instantiate (1 := λ _, h). destruct (_ <=? _); [by apply T_ret|apply T_bits_set]. }
  intros [] _; [|by apply T_ret]. eapply T_bind; [apply T_show|]. intros ? _. by apply T_ret.
Qed.

Lemma T_sdDebugResponse r : T true P (sdDebugResponse r) (λ _, true) (λ r', r' = r).
Proof.
  eapply T_bind; [apply T_card|]. intros o (c & (_ & _ & Hc) & ->). destruct (lastCmd c) as [cmd|]; [|by destruct Hc].
  apply T_then; [by apply T_ret|]. intros ?. eapply T_bind; [apply T_show|]. intros ? _.
  eapply T_bind; [apply T_show|]. intros ? _. by apply T_ret.
Qed.
End triples.

(** *** Commands *)

Lemma lor_u32 a b : u32_ok a → u32_ok b → u32_ok (Z.lor a b).
Proof.
  intros Ha Hb. split; [apply Z.lor_nonneg; unfold u32_ok in *; lia|].
  destruct (decide (Z.lor a b = 0)) as [->|]; [done|]. apply Z.log2_lt_pow2; [|rewrite Z.log2_lor; [|unfold u32_ok in *; lia..]].
  - assert (0 ≤ Z.lor a b) by (apply Z.lor_nonneg; unfold u32_ok in *; lia). lia.
  - unfold u32_ok in *. assert (∀ x, 0 ≤ x < 2 ^ 32 → Z.log2 x < 32) as Hl.
    { intros x Hx. destruct (decide (x = 0)) as [->|]; [done|]. apply Z.log2_lt_pow2; lia. }
    apply Z.max_lub_lt; by apply Hl.
Qed.

Lemma land_u32 a m : u32_ok m → u32_ok (Z.land a m).
Proof.
  intros [Hm1 Hm2]. split; [apply Z.land_nonneg; lia|].
  assert (Z.land a m = Z.land (Z.land a m) (Z.ones 32)) as ->.
  { rewrite -Z.land_assoc (Z.land_ones m 32) // Z.mod_small //. }
  rewrite Z.land_ones //. by apply Z.mod_pos_bound.
Qed.

Lemma u32_u32 x : u32_ok (u32 x).
Proof. by apply wrap_range. Qed.

Lemma shiftr_u32 x n : u32_ok x → 0 ≤ n → u32_ok (Z.shiftr x n).
Proof.
  intros [H1 H2] Hn. rewrite Z.shiftr_div_pow2 //. assert (0 < 2 ^ n) by (apply Z.pow_pos_nonneg; lia).
  split; [apply Z.div_pos; lia|]. apply Z.div_lt_upper_bound; nia.
Qed.

(** An error value of a card is never one of the driver's codes. *)
Lemma r1_code x : code_ok (i32 (Z.land x R1_ERRORS_MASK)).
Proof.
  assert (E : i32 (Z.land x R1_ERRORS_MASK) mod 16 = Z.land (x mod 16) 4).
  { unfold i32, swrap. change (2 ^ (32 - 1)) with (2 ^ 31).
    rewrite Zminus_mod Z.mod_mod_divide; [|by exists (2 ^ 28)]. rewrite -Zminus_mod Z.add_simpl_r.
    change 16 with (2 ^ 4). rewrite -!Z.land_ones //. rewrite -!Z.land_assoc. f_equal. }
  assert (H4 : Z.land (x mod 16) 4 = 0 ∨ Z.land (x mod 16) 4 = 4).
  { pose proof (land_field (x mod 16) 2 1 ltac:(done) ltac:(done)) as E4. change (Z.shiftl (Z.ones 1) 2) with 4 in E4.
    rewrite E4 Z.shiftl_mul_pow2 //. pose proof (Z.mod_pos_bound (Z.shiftr (x mod 16) 2) 2 ltac:(done)).
    change (2 ^ 1) with 2. change (2 ^ 2) with 4. lia. }
  rewrite -E in H4. split; intros E'; rewrite E' in H4; vm_compute in H4; destruct H4; discriminate.
Qed.

Section commands.
Context (P : SDDescriptor → Prop) (HP : quiet P).
Implicit Types h : bool.

(** Setting fields that the invariant does not relate to others. *)
Definition harmless (f : SDDescriptor → SDDescriptor) : Prop :=
  ∀ c, card_ok c → P c → card_ok (f c) ∧ P (f c) ∧ (f c).(lastCmd) = c.(lastCmd).

Lemma T_harmless h f : harmless f → T h P (set_card f) (λ _, h) (λ _, True).
Proof.
  intros Hf. apply T_set. intros c (H1 & H2 & H3). destruct (Hf c H1 H2) as (? & ? & E). split_and!; [done..|]. by rewrite E.
Qed.

Lemma harmless_status x : u32_ok x → harmless (set_status x).
Proof. intros Hx c [] Pc. split; [split; cbn; naive_solver|]. split; [|done]. by apply (HP c x [] None Pc). Qed.
Lemma harmless_cardState x : u32_ok x → harmless (set_cardState x).
Proof. intros Hx c [] Pc. split; [split; cbn; naive_solver|]. split; [|done]. by apply (HP c x [] None Pc). Qed.
Lemma harmless_lastArg x : u32_ok x → harmless (set_lastArg x).
Proof. intros Hx c [] Pc. split; [split; cbn; naive_solver|]. split; [|done]. by apply (HP c x [] None Pc). Qed.
Lemma harmless_ocr x : u32_ok x → harmless (set_ocr x).
Proof. intros Hx c [] Pc. split; [split; cbn; naive_solver|]. split; [|done]. by apply (HP c x [] None Pc). Qed.
Lemma harmless_cid l : length l = 4%nat → Forall u32_ok l → harmless (set_cid l).
Proof. intros Hl Hx c [] Pc. split; [split; cbn; naive_solver|]. split; [|done]. by apply (HP c 0 l None Pc). Qed.
Lemma harmless_support x : u32_ok x → harmless (λ c, set_support (Z.lor c.(support) x) c).
Proof.
  intros Hx c [] Pc. split; [split; cbn; try done|split; [|done]]; [|by apply (HP c _ [] None Pc)].
  destruct ok_words0 as (? & ? & ?). split_and!; try tauto. by apply lor_u32.
Qed.
Lemma harmless_scr i v : u32_ok v → harmless (λ c, set_scr (<[i := v]> c.(scr)) c).
Proof.
  intros Hx c [] Pc. split; [split; cbn; try done|split; [|done]]; [|by apply (HP c 0 _ None Pc)].
  rewrite length_insert. split; [tauto|]. apply Forall_insert; tauto.
Qed.

(** [rca] only with a command sent. *)
Lemma T_rca x : u32_ok x → T true P (set_card (set_rca x)) (λ _, true) (λ _, True).
Proof.
  intros Hx. apply T_set. intros c ([] & Pc & Hc). split; [split; cbn; naive_solver|]. split; [|done]. by apply (HP c x [] None Pc).
Qed.

(** SEND_CSD needs more of [P]. *)
Definition csd_quiet (cmd : EMMCCommand) : Prop := cmd.(resp) = RESP_R2S → ∀ c l, P c → P (set_csd l c).

Definition resp_known (cmd : EMMCCommand) : Prop :=
  cmd.(resp) ∈ [RESP_NO; RESP_R1; RESP_R1b; RESP_R2I; RESP_R2S; RESP_R3; RESP_R6; RESP_R7].

Lemma T_handle_response cmd arg resp0 :
  resp_known cmd → csd_quiet cmd → T true P (handle_response cmd arg resp0) (λ _, true) code_ok.
Proof.
  intros Hk Hcsd. unfold handle_response.
  destruct (Z.eqb_spec (resp cmd) RESP_NO); [by apply T_ret|].
  destruct (_ || _) eqn:E1.
  { apply T_then; [apply T_harmless, harmless_status, u32_u32|]. intros _.
    apply T_then; [apply T_harmless, harmless_cardState, shiftr_u32; [by apply land_u32|done]|]. intros _.
    apply T_ret, r1_code. }
  destruct ((resp cmd =? RESP_R2I) || (resp cmd =? RESP_R2S)) eqn:E2.
  { apply T_then; [by apply T_harmless, harmless_status|]. intros _.
    eapply T_bind; [apply T_rd|]. intros r3 H3. eapply T_bind; [apply T_rd|]. intros r2 H2.
    eapply T_bind; [apply T_rd|]. intros r1 H1. assert (Hl : Forall u32_ok [r3; r2; r1; u32 resp0]) by eauto using u32_u32.
    apply T_then; [|intros _; by apply T_ret]. destruct (Z.eqb_spec (resp cmd) RESP_R2I); [by apply T_harmless, harmless_cid|].
    apply T_harmless. intros c [] Pc. split; [split; cbn; naive_solver|]. split; [|done]. apply Hcsd; [|done].
    apply orb_true_iff in E2 as [?|?]; lia. }
  destruct (Z.eqb_spec (resp cmd) RESP_R3).
  { apply T_then; [by apply T_harmless, harmless_status|]. intros _.
    apply T_then; [by apply T_harmless, harmless_ocr, u32_u32|]. intros _. by apply T_ret. }
  destruct (Z.eqb_spec (resp cmd) RESP_R6).
  { apply T_then; [by apply T_rca, land_u32|]. intros _. apply T_then.
    { apply T_harmless, harmless_status. repeat apply lor_u32; [by apply land_u32|..]; rewrite Z.shiftl_land; by apply land_u32. }
    intros _. apply T_then; [apply T_harmless, harmless_cardState, shiftr_u32; [by apply land_u32|done]|]. intros _.
    apply T_ret, r1_code. }
  destruct (Z.eqb_spec (resp cmd) RESP_R7).
  { apply T_then; [by apply T_harmless, harmless_status|]. intros _. apply T_ret. by destruct (resp0 =? arg). }
  exfalso. unfold resp_known in Hk. rewrite !elem_of_cons elem_of_nil in Hk.
  apply orb_false_iff in E1 as [?%Z.eqb_neq ?%Z.eqb_neq]. apply orb_false_iff in E2 as [?%Z.eqb_neq ?%Z.eqb_neq]. tauto.
Qed.

Lemma table_resp i cmd : sdCommandTable !! i = Some cmd → resp_known cmd.
Proof.
  intros Hi%list_elem_of_lookup_2. revert cmd Hi. apply Forall_forall. unfold resp_known.
  apply (bool_decide_eq_true_1 _). vm_compute. reflexivity.
Qed.

Lemma T_sdSendCommandP h cmd arg :
  resp_known cmd → csd_quiet cmd → T h P (sdSendCommandP cmd arg) (λ r, h || negb (r =? SD_BUSY)) code_ok.
Proof.
  intros Hk Hcsd. eapply T_bind; [apply T_sdWaitForCommand|]. intros busy Hb. destruct (negb (busy =? 0)).
  { eapply T_mono; [apply (T_ret P h SD_BUSY (λ r, r = SD_BUSY)); done|]. intros r ->. split; [done|]. by destruct h. }
  assert (Ht : T h P (set_card (set_lastCmd (Some cmd))) (λ _, true) (λ _, True)).
  { intros s ([] & Pc & _). apply wp_modify. split; [|done]. split; [split; cbn; naive_solver|].
    split; [by apply (HP _ 0 [] (Some cmd) Pc)|done]. }
  eapply T_bind; [exact Ht|]. intros ? _. apply T_then; [apply T_harmless, harmless_lastArg, u32_u32|]. intros _.
  eapply T_bind; [apply T_rd|]. intros i _. apply T_then; [apply T_hw|]. intros _. apply T_then; [apply T_hw|]. intros _.
  apply T_then; [apply T_hw|]. intros _. apply T_then; [destruct (_ =? _); [by apply T_ret|apply T_hw]|]. intros _.
  eapply T_bind; [apply T_sdWaitForInterrupt|]. intros r [Hr Hb']. destruct (negb (r =? 0)).
  { eapply T_mono; [by apply (T_ret P true r code_ok)|]. done. }
  eapply T_bind; [apply T_rd|]. intros resp0 _. eapply T_mono; [by apply T_handle_response|]. done.
Qed.

Lemma T_command h i : (i < 39)%nat → T h P (deref (sdCommandTable !! i)) (λ _, h) (λ cmd, sdCommandTable !! i = Some cmd).
Proof. intros Hi. destruct (lookup_lt_is_Some_2 sdCommandTable i Hi) as [cmd E]. rewrite E. by apply T_ret. Qed.

Definition index_ok (i : Z) : Prop := 0 ≤ i < 39 ∧ i ≠ IX_SEND_CSD.

Lemma command_quiet i cmd : index_ok i → sdCommandTable !! Z.to_nat i = Some cmd → csd_quiet cmd.
Proof.
  intros [Hi Hne] E Hr. exfalso. apply Hne. assert (Z.to_nat i = 7%nat) as Hi7; [|unfold IX_SEND_CSD; lia].
  assert (Ht : ∀ k, k ∈ seq 0 39 → match sdCommandTable !! k with Some c => resp c = RESP_R2S → k = 7%nat | None => True end).
  { apply Forall_forall. repeat constructor; done. }
  specialize (Ht (Z.to_nat i)). rewrite E in Ht. apply Ht; [|done]. apply elem_of_seq. lia.
Qed.

Lemma T_send h i arg : 0 ≤ i < 39 → (∀ cmd, sdCommandTable !! Z.to_nat i = Some cmd → csd_quiet cmd) →
  ∀ {B} (f : EMMCCommand → M B) (h2 : B → bool) (R : B → Prop),
  (∀ cmd, T h P (sdSendCommandP cmd (arg cmd)) (λ r, h || negb (r =? SD_BUSY)) code_ok → T h P (f cmd) h2 R) →
  T h P (cmd ← command i; f cmd) h2 R.
Proof.
  intros Hi Hq B f h2 R Hf. eapply T_bind; [apply T_command; lia|]. intros cmd E. apply Hf.
  apply T_sdSendCommandP; [exact (table_resp _ _ E)|by apply Hq].
Qed.

Lemma T_app_no_rca h :
  T h P (cmd ← command IX_APP_CMD; sdSendCommandP cmd 0 ;; mret SD_OK) (λ r, h || negb (r =? 0)) code_ok.
Proof.
  apply (T_send h IX_APP_CMD (λ _, 0)); [done|intros cmd; by apply command_quiet|]. intros cmd Hc.
  eapply T_bind; [exact Hc|]. intros r _. eapply T_mono; [by apply (T_ret P _ SD_OK (λ r, r = SD_OK))|].
  intros ? ->. split; [done|]. by destruct h.
Qed.

Lemma T_app_rca x :
  T true P (cmd ← command IX_APP_CMD_RCA;
    resp ← sdSendCommandP cmd x;
    if negb (resp =? 0) then sdDebugResponse resp else
    st ← card status;
    if Z.land st ST_APP_CMD =? 0 then mret SD_ERROR else mret SD_OK) (λ _, true) code_ok.
Proof.
  apply (T_send true IX_APP_CMD_RCA (λ _, x)); [done|intros cmd; by apply command_quiet|]. intros cmd Hcmd.
  eapply T_bind; [exact Hcmd|]. intros r Hr. destruct (negb (r =? 0)).
  { eapply T_mono; [apply T_sdDebugResponse|]. by intros ? ->. }
  eapply T_bind; [apply T_card|]. intros st _. destruct (Z.land st ST_APP_CMD =? 0); by apply T_ret.
Qed.

(** With a relative address a command has been sent. *)
Lemma T_sdSendAppCommand h : T h P sdSendAppCommand (λ r, h || negb (r =? 0)) code_ok.
Proof.
  intros s Hs. apply wp_bind, wp_gets. destruct (Z.eqb_spec (rca (sdCard s)) 0) as [E|Hne]; [by apply T_app_no_rca|].
  destruct Hs as (Hc & HPs & _). eapply wp_mono; [apply T_app_rca|].
  - split_and!; [done|done|]. intros _. by apply Hc.
  - intros r s' [Hs' Hr]. split; [|done]. by eapply Inv_true.
Qed.

Lemma T_app_accepted h i : T h P (app_accepted i) (λ _, h) code_ok.
Proof.
  eapply T_bind; [apply T_card|]. intros r _. eapply T_bind; [apply T_card|]. intros st _. apply T_ret. by destruct (_ && _).
Qed.

(** The part that [sdSendCommand] and [sdSendCommandA] share. *)
Lemma T_with_app h i (m : M Z) :
  T h P m (λ r, h || negb (r =? SD_BUSY)) code_ok →
  T h P (resp ← (if IX_APP_CMD_START <=? i then sdSendAppCommand else mret 0);
         if negb (resp =? 0) then sdDebugResponse resp else m) (λ r, h || negb (r =? SD_BUSY)) code_ok.
Proof.
  intros Hm. eapply (T_bind P h _ _ (λ r, h || negb (r =? 0)) code_ok).
  { destruct (_ <=? _); [apply T_sdSendAppCommand|]. eapply T_mono; [by apply (T_ret P h 0 (λ r, r = 0))|].
    intros ? ->. split; [done|]. by destruct h. }
  intros r Hr. destruct (Z.eqb_spec r 0) as [->|Hne]; cbn [negb].
  - eapply T_pre; [exact Hm|]. by destruct h.
  - eapply T_pre; [eapply T_mono; [apply T_sdDebugResponse|by intros ? ->]|]. by rewrite orb_true_r.
Qed.

Lemma T_after_send h i (m : M Z) :
  T h P m (λ r, h || negb (r =? SD_BUSY)) code_ok →
  T h P (resp ← m; if negb (resp =? 0) then mret resp else app_accepted i) (λ r, h || negb (r =? SD_BUSY)) code_ok.
Proof.
  intros Hm. eapply T_bind; [exact Hm|]. intros r Hr. destruct (Z.eqb_spec r 0) as [->|Hne]; cbn [negb].
  - eapply T_mono; [apply T_app_accepted|]. intros r Hr'. split; [done|]. by rewrite orb_true_r.
  - eapply T_mono; [by apply (T_ret P _ r (λ r', r' = r))|]. by intros ? ->.
Qed.

Lemma T_sdSendCommand_gen h i : 0 ≤ i < 39 → (∀ cmd, sdCommandTable !! Z.to_nat i = Some cmd → csd_quiet cmd) →
  T h P (sdSendCommand i) (λ r, h || negb (r =? SD_BUSY)) code_ok.
Proof.
  intros Hi Hq. apply T_with_app. eapply T_bind; [apply T_command; lia|]. intros cmd E.
  eapply T_bind; [apply T_card|]. intros r _. apply T_after_send. apply T_sdSendCommandP; [exact (table_resp _ _ E)|by apply Hq].
Qed.

Lemma T_sdSendCommand h i : index_ok i → T h P (sdSendCommand i) (λ r, h || negb (r =? SD_BUSY)) code_ok.
Proof. intros Hi. apply T_sdSendCommand_gen; [apply Hi|]. intros cmd. by apply command_quiet. Qed.

Lemma T_sdSendCommandA h i arg : index_ok i → T h P (sdSendCommandA i arg) (λ r, h || negb (r =? SD_BUSY)) code_ok.
Proof.
  intros Hi. apply T_with_app. eapply T_bind; [apply T_command; destruct Hi; lia|]. intros cmd E.
  apply T_after_send. apply T_sdSendCommandP; [exact (table_resp _ _ E)|exact (command_quiet _ _ Hi E)].
Qed.
End commands.

(** *** The rest of the code *)

Section rest.
Context (P : SDDescriptor → Prop) (HP : quiet P).
Implicit Types h : bool.

Lemma T_read_scr h fuel numRead count :
  0 ≤ numRead ≤ 2 → 0 < count → 2 - numRead + count < Z.of_nat fuel →
  T h P (read_scr fuel numRead count) (λ _, h) (λ _, True).
Proof.
  revert numRead count. induction fuel as [|fuel IH]; intros n c Hn Hc Hf; [lia|]. cbn [read_scr].
  destruct (Z.ltb_spec n 2); [|by apply T_ret]. eapply T_bind; [apply T_bits_set|]. intros [] _.
  - eapply T_bind; [apply T_rd|]. intros v Hv. apply T_then; [by apply T_harmless, (harmless_scr P HP)|]. intros _. apply IH; lia.
  - apply T_then; [apply T_hw|]. intros _. destruct (Z.eqb_spec (c - 1) 0); [by apply T_ret|]. apply IH; lia.
Qed.

Lemma T_supports h flag supp : u32_ok supp → T h P (supports flag supp) (λ _, h) (λ _, True).
Proof.
  intros Hs. eapply T_bind; [apply T_card|]. intros w (c & ([] & _) & ->).
  destruct ok_scr0 as [Hl _]. destruct (scr c) as [|w l]; [done|].
  apply T_then; [by apply T_ret|]. intros a. destruct (Z.land a flag =? 0); [by apply T_ret|].
  by apply T_harmless, (harmless_support P HP).
Qed.

Lemma T_sdReadSCR : T true P sdReadSCR (λ _, true) code_ok.
Proof.
  eapply T_bind; [apply T_sdWaitForData|]. intros b _. destruct (negb (b =? 0)); [by apply T_ret|].
  apply T_then; [apply T_hw|]. intros _.
  eapply T_bind; [by apply (T_sdSendCommand P HP true IX_SEND_SCR)|]. intros r Hr. destruct (negb (r =? 0)).
  { eapply T_mono; [apply T_sdDebugResponse|]. by intros ? ->. }
  eapply T_bind; [apply T_sdWaitForInterrupt|]. intros r2 [Hr2 _]. destruct (negb (r2 =? 0)).
  { eapply T_mono; [apply T_sdDebugResponse|]. by intros ? ->. }
  apply T_then; [apply T_read_scr; unfold turns; lia|]. intros n. destruct (negb (n =? 2)).
  { apply T_then; [apply T_show|]. intros _. by apply T_ret. }
  do 4 (apply T_then; [by apply T_supports|]; intros _). by apply T_ret.
Qed.

Lemma T_sdSetClock h freq : 40691 ≤ freq ≤ 41666666 → T h P (sdSetClock freq) (λ _, h) code_ok.
Proof.
  intros Hf. apply T_then; [apply T_predecrement; [apply T_bits_set|unfold turns; lia]|]. intros count.
  destruct (count <=? 0). { apply T_then; [apply T_show|]. intros _. by apply T_ret. }
  apply T_then; [apply T_update_reg|]. intros _. apply T_then; [apply T_hw|]. intros _.
  eapply (T_bind P h _ _ (λ _, h) (λ _, True)). { intros s Hs. apply wp_gets. split; [exact Hs|done]. }
  intros ver _. apply T_then.
  { rewrite (u32_small freq); [|lia]. unfold sdGetClockDivider. destruct (Z.eqb_spec freq 0); [lia|]. by apply T_ret. }
  intros cdiv. do 4 (apply T_then; [first [apply T_update_reg|apply T_hw]|]; intros _).
  apply T_then; [apply T_countdown; [apply T_bits_clear|by apply turns_spec]|]. intros c2. destruct (c2 <=? 0); [by apply T_ret|].
  apply T_then; [apply T_show|]. intros _. by apply T_ret.
Qed.

(** [P] also leaves out what a reset clears. *)
Definition reset_quiet : Prop := ∀ c x, P c → P (set_type x c) ∧ P (set_uhsi x c).

Lemma T_sdResetCard h resetType : reset_quiet → T h P (sdResetCard resetType) (λ r, r =? 0) code_ok.
Proof.
  intros HR. eapply (T_pre P h false); [|done].
  apply T_then; [apply T_hw|]. intros _. apply T_then; [apply T_update_reg|]. intros _. apply T_then; [apply T_hw|]. intros _.
  apply T_then; [apply T_countdown; [apply T_bits_set|by apply turns_spec]|]. intros count. destruct (count <=? 0).
  { eapply T_mono; [by apply (T_ret P _ SD_ERROR_RESET (λ r, r = SD_ERROR_RESET))|]. by intros ? ->. }
  apply T_then; [apply T_update_reg|]. intros _. apply T_then; [apply T_hw|]. intros _.
  eapply T_bind; [by apply T_sdSetClock|]. intros r Hr. destruct (Z.eqb_spec r 0) as [|Hne]; cbn [negb].
  2: { eapply T_mono; [by apply (T_ret P _ r (λ r', r' = r))|]. intros ? ->. split; [done|]. intros ?%Z.eqb_eq. done. }
  do 2 (apply T_then; [apply T_hw|]; intros _).
  intros s Hs. repeat (apply wp_bind, wp_modify). eapply wp_mono.
  - apply (T_sdSendCommand P HP false IX_GO_IDLE_STATE); [done|]. cbn [sdCard]. destruct Hs as ([] & Pc & _).
    split; [|split; [|done]].
    + split; cbn; try assumption; try done; [|by destruct ok_bytes0 as (_ & _ & ? & ?)].
      destruct ok_words0 as (? & ? & ? & ? & ? & ? & ?). by split_and!.
    + apply HR, HR. apply (HP _ 0 [] None), (HP _ 0 [] None), (HP _ 0 [] None), (HP _ 0 [] None), (HP _ 0 [] None), Pc.
  - intros r' s' [Hs' Hr']. split; [|done]. eapply Inv_weaken; [exact Hs'|]. by intros ->%Z.eqb_eq.
Qed.

Lemma T_op_cond h arg : T h P (op_cond arg) (λ _, h) (λ o, match o with Some r => code_ok r | None => True end).
Proof.
  eapply T_bind; [by apply (T_sdSendCommandA P HP h IX_APP_SEND_OP_COND)|]. intros r Hr.
  eapply T_mono; [apply (T_ret P _ _ (λ o, match o with Some r => code_ok r | None => True end))|].
  - by destruct (_ && _).
  - intros o Ho. split; [done|]. by intros ->.
Qed.

Lemma T_op_cond_retry h fuel arg count : 0 ≤ count < Z.of_nat fuel →
  T h P (op_cond_retry fuel arg count) (λ _, h) (λ o, match o with Some r => code_ok r | None => True end).
Proof.
  revert count. induction fuel as [|fuel IH]; intros count Hf; [lia|]. cbn [op_cond_retry].
  eapply T_bind; [apply T_card|]. intros o _. destruct (negb (Z.land o R3_COMPLETE =? 0)); [by apply T_ret|].
  destruct (Z.eqb_spec count 0); [by apply T_ret|]. apply T_then; [apply T_show|]. intros _.
  apply T_then; [apply T_hw|]. intros _. eapply T_bind; [apply T_op_cond|]. intros [r|] Hr; [by apply T_ret|]. apply IH. lia.
Qed.

Lemma T_sdAppSendOpCond h arg : T h P (sdAppSendOpCond arg) (λ _, h) code_ok.
Proof.
  apply T_then; [apply T_show|]. intros _. eapply T_bind; [apply T_op_cond|]. intros [r|] Hr; [by apply T_ret|].
  eapply T_bind; [apply T_op_cond_retry; by apply turns_spec|]. intros [r|] Hr'; [by apply T_ret|].
  eapply T_bind; [apply T_card|]. intros o _. destruct (Z.land o R3_COMPLETE =? 0); [by apply T_ret|].
  destruct (Z.land o ACMD41_VOLTAGE =? 0); by apply T_ret.
Qed.

Lemma T_sdInitGPIO h : T h P sdInitGPIO (λ _, h) (λ _, True).
Proof.
  assert (Hp : ∀ clk, T h P (pull_up clk) (λ _, h) (λ _, True)).
  { intros clk. do 5 (apply T_then; [apply T_hw|]; intros _). apply T_hw. }
  do 6 (apply T_then; [first [apply T_update_reg|apply Hp]|]; intros _). apply Hp.
Qed.
End rest.

(** ** The mailbox *)

Section mailbox.
Context (fuel : nat).

Fixpoint status_after (k : nat) (h : HW) : HW :=
  match k with O => h | S k => status_after k (mmio_read MBOX_STATUS h).2 end.

(** The firmware takes and answers messages: within [fuel] polls the mailbox
    is no longer full and no longer empty, and what it holds is for channel 8,
    the only one in use. *)
Definition settles (flag : Z) : Prop :=
  ∀ h, ∃ k, (k < fuel)%nat ∧ Z.land (mmio_read MBOX_STATUS (status_after k h)).1 flag = 0.
Record mailbox_answers : Prop := {
  not_full : settles MBOX_FULL;
  not_empty : settles MBOX_EMPTY;
  for_us : ∀ h, Z.land (mmio_read MBOX_READ h).1 0xF = 8;
}.

Context (HM : mailbox_answers) (P : SDDescriptor → Prop).

Lemma T_spin h flag : settles flag → T h P (spin fuel flag) (λ _, h) (λ _, True).
Proof.
  intros Hs s HI. destruct (Hs (hw s)) as (k & Hk & Hz). clear Hs. revert Hk. generalize fuel as f. intros f Hk. revert s f HI Hk Hz.
  induction k as [|k IH]; intros s f HI Hk Hz; (destruct f as [|f]; [lia|]); cbn [spin status_after] in *.
  - apply wp_bind, wp_bind, wp_rd. intros v h' E. rewrite E in Hz. cbn in Hz. apply wp_ret. rewrite Hz. cbn.
    apply wp_ret. split; [exact HI|done].
  - apply wp_bind, wp_bind, wp_rd. intros v h' E. rewrite E in Hz. apply wp_ret. destruct (negb _).
    + apply IH; [exact HI|lia|exact Hz].
    + apply wp_ret. split; [exact HI|done].
Qed.

Lemma T_mbox_read h : (0 < fuel)%nat → T h P (mbox_read fuel 8) (λ _, h) (λ _, True).
Proof.
  intros Hf. assert (E : fuel = S (pred fuel)) by lia. rewrite E. cbn [mbox_read]. rewrite -E.
  apply T_then; [apply T_spin, HM|]. intros _ s Hs. apply wp_bind, wp_rd. intros v h' Er.
  pose proof (for_us HM (hw s)) as Hr. rewrite Er in Hr. cbn in Hr. rewrite Hr. cbn. apply wp_ret. split; [exact Hs|done].
Qed.

Lemma T_mbox_write h buf : Z.land buf 0xF = 0 → T h P (mbox_write fuel buf 8) (λ _, h) (λ _, True).
Proof.
  intros Hb. apply T_then; [rewrite Hb; by apply T_ret|]. intros _. apply T_then; [apply T_spin, HM|]. intros _. apply T_hw.
Qed.

Lemma T_sdGetBaseClock h buf : (0 < fuel)%nat → Z.land buf 0xF = 0 → 0 ≤ buf < 2 ^ 32 →
  T h P (sdGetBaseClock fuel buf) (λ _, h) code_ok.
Proof.
  intros Hf Hb Hr. eapply (T_bind P h _ _ (λ _, h) (λ _, True)).
  { apply T_then; [rewrite Hb; by apply T_ret|]. intros _. apply T_then; [apply T_mbox_write; by rewrite u32_small|].
    intros _. apply T_then; [by apply T_mbox_read|]. intros _ s Hs. apply wp_bind, wp_gets.
    destruct (lookup_lt_is_Some_2 (message buf [36; 0; MBOX_TAG_GET_CLOCK_RATE; 8; 0; 1; 0; MBOX_TAG_END] (hw s)) 6) as [w E].
    { rewrite message_length. cbn. lia. }
    rewrite E. apply wp_bind, wp_ret, wp_ret. split; [exact Hs|done]. }
  intros rate _ s Hs. apply wp_bind, wp_modify, wp_ret. split; [exact Hs|]. by destruct (_ =? _).
Qed.
End mailbox.

(** ** Bringing the card up *)

(** The capacity is the one the CSD says. *)
Definition sized (c : SDDescriptor) : Prop :=
  ∃ w0 w1 w2 w3, c.(csd) = [w0; w1; w2; w3] ∧ c.(capacity) = csd_capacity (csd_value w0 w1 w2 w3).
Definition card_type_ok (t : Z) : Prop := t = SD_TYPE_1 ∨ t = SD_TYPE_2_SC ∨ t = SD_TYPE_2_HC.
Definition format_ok (f : Z) : Prop := f = CSD3VN_FILE_FORMAT_DOSFAT ∨ f = CSD3VN_FILE_FORMAT_HDD.
Definition ready (c : SDDescriptor) : Prop :=
  c.(init) = 1 ∧ sized c ∧ card_type_ok c.(type) ∧ format_ok c.(fileFormat).

(** What [sdInit] leaves of a card that was not initialised. *)
Definition brought_up (r : Z) (c : SDDescriptor) : Prop :=
  card_ok c ∧ (((r = SD_CARD_CHANGED ∨ r = SD_CARD_REINSERTED) ∧ ready c) ∨ (r ≠ SD_OK ∧ code_ok r ∧ c.(init) = 0)).

Definition down (c : SDDescriptor) : Prop := c.(init) = 0.
Definition typed (c : SDDescriptor) : Prop := down c ∧ card_type_ok c.(type).
Definition parsed (c : SDDescriptor) : Prop := typed c ∧ sized c.
Definition checked (c : SDDescriptor) : Prop := parsed c ∧ format_ok c.(fileFormat).

Lemma quiet_down : quiet down. Proof. intros c x l o Hc. by split_and!. Qed.
Lemma quiet_typed : quiet typed. Proof. intros c x l o Hc. by split_and!. Qed.
Lemma quiet_parsed : quiet parsed. Proof. intros c x l o Hc. by split_and!. Qed.
Lemma quiet_checked : quiet checked. Proof. intros c x l o Hc. by split_and!. Qed.

Definition goes (P : SDDescriptor → Prop) (h : bool) (m : M Z) : Prop :=
  ∀ s, Inv h P s.(sdCard) → wp m (λ r s', brought_up r s'.(sdCard)) s.

Lemma goes_fail P h (m : M Z) r s :
  (∀ c, P c → down c) → r ≠ 0 → code_ok r → T h P m (λ _, h) (λ r', r' = r) → Inv h P s.(sdCard) →
  wp m (λ r s', brought_up r s'.(sdCard)) s.
Proof.
  intros HP Hr Hc Hm Hs. eapply wp_mono; [by apply Hm|]. intros r' s' [([] & HP' & _) ->]. split; [done|].
  right. split; [done|]. split; [done|]. by apply HP.
Qed.

Lemma goes_debug (P : SDDescriptor → Prop) (m rest : M Z) :
  (∀ c, P c → down c) → T true P m (λ _, true) code_ok → goes P true rest → goes P true (step_or_debug m rest).
Proof.
  intros HP Hm Hr s Hs. apply wp_bind. eapply wp_mono; [by apply Hm|]. intros r s' [Hs' Hc].
  destruct (Z.eqb_spec r 0) as [->|Hne]; [by apply Hr|]. by apply (goes_fail P true _ r); [| | |apply T_sdDebugResponse|].
Qed.

Lemma goes_return (P : SDDescriptor → Prop) h h1 (m rest : M Z) :
  (∀ c, P c → down c) → T h P m h1 code_ok → goes P (h1 0) rest → goes P h (step_or_return m rest).
Proof.
  intros HP Hm Hr s Hs. apply wp_bind. eapply wp_mono; [by apply Hm|]. intros r s' [Hs' Hc].
  destruct (Z.eqb_spec r 0) as [->|Hne]; [by apply Hr|]. by apply (goes_fail P (h1 r) _ r); [| | |by apply T_ret|].
Qed.

Lemma goes_then (P : SDDescriptor → Prop) {A} h (m : M A) (f : A → M Z) :
  T h P m (λ _, h) (λ _, True) → (∀ a, goes P h (f a)) → goes P h (m ≫= f).
Proof. intros Hm Hf s Hs. apply wp_bind. eapply wp_mono; [by apply Hm|]. intros a s' [Hs' _]. by apply Hf. Qed.

Lemma T_true {A} h (P : SDDescriptor → Prop) (m : M A) h1 R : T h P m h1 R → T h P m h1 (λ _, True).
Proof. intros Hm. eapply T_mono; [exact Hm|done]. Qed.

(** From the card's selection on. *)
Definition selected (oldCID : list Z) : M Z :=
  step_or_debug (sdSetClock FREQ_NORMAL) (
  step_or_debug (sdSendCommand IX_CARD_SELECT) (
  step_or_debug sdReadSCR (
  supp ← card support;
  step_or_debug
    (if Z.land supp SD_SUPP_BUS_WIDTH_4 =? 0 then mret 0
     else r ← card rca; sdSendCommandA IX_SET_BUS_WIDTH (Z.lor (i32 r) 2)) (
  (if Z.land supp SD_SUPP_BUS_WIDTH_4 =? 0 then mret tt
   else update_reg EMMC_CONTROL0 (λ v, Z.lor v C0_HCTL_DWITDH)) ;;
  step_or_debug (sdSendCommandA IX_SET_BLOCKLEN 512) (
  set_card (set_init 1) ;;
  newCID ← card cid;
  mret (if bool_decide (oldCID = newCID) then SD_CARD_REINSERTED else SD_CARD_CHANGED)))))).

Lemma goes_selected oldCID : goes checked true (selected oldCID).
Proof.
  assert (HP : ∀ c, checked c → down c) by (intros c Hc; apply Hc). pose proof quiet_checked as HQ.
  apply goes_debug; [done|by apply T_sdSetClock|]. apply goes_debug; [done|by apply (T_sdSendCommand _ HQ true IX_CARD_SELECT)|].
  apply goes_debug; [done|by apply T_sdReadSCR|]. apply goes_then; [eapply T_true, T_card|]. intros supp.
  apply goes_debug; [done| |].
  { destruct (_ =? 0); [by apply T_ret|]. apply T_then; [eapply T_true, T_card|]. intros r.
    by apply (T_sdSendCommandA _ HQ true IX_SET_BUS_WIDTH). }
  apply goes_then; [destruct (_ =? 0); [by apply T_ret|apply T_update_reg]|]. intros _.
  apply goes_debug; [done|by apply (T_sdSendCommandA _ HQ true IX_SET_BLOCKLEN)|].
  intros s ([] & HPs & _). apply wp_bind, wp_modify, wp_bind, wp_gets, wp_ret. cbn [sdCard]. split.
  - split; cbn; try assumption. destruct ok_bytes0 as (? & ? & _ & ?). by split_and!.
  - left. split; [case_bool_decide; auto|]. destruct HPs as [[[_ ?] ?] ?]. by split_and!.
Qed.

(** The CSD has been read. *)
Lemma goes_parse (rest : M Z) : goes parsed true rest → goes typed true (sdParseCSD_card ;; rest).
Proof.
  intros Hr s ([] & HPs & Hl). apply wp_bind, wp_bind, wp_gets. destruct ok_csd0 as [Hlen Hf].
  destruct (csd (sdCard s)) as [|w0 [|w1 [|w2 [|w3 [|]]]]] eqn:E; try done. rewrite !Forall_cons in Hf.
  destruct Hf as (H0 & H1 & H2 & H3 & _). destruct (sdParseCSD_spec w0 w1 w2 w3 H0 H1 H2 H3) as (E1 & E2 & E3).
  do 4 apply wp_bind, wp_ret. apply wp_bind, wp_modify, wp_modify, Hr. cbn [sdCard].
  destruct (sdParseCSD w0 w1 w2 w3) as [size ff]. cbn [fst snd] in *. split; [|split; [split; [exact HPs|]|exact Hl]].
  - split; cbn; try assumption; [rewrite E1; lia|rewrite E; split; [done|by rewrite !Forall_cons Forall_nil]|]. destruct ok_words0 as (? & ? & ? & ? & ? & ? & ?). by split_and!.
  - exists w0, w1, w2, w3. split; [exact E|exact E1].
Qed.

Lemma goes_identified oldCID : goes typed true (identified oldCID).
Proof.
  assert (HP : ∀ c, typed c → down c) by (intros c Hc; apply Hc). pose proof quiet_typed as HQ.
  apply goes_then; [eapply T_true, T_card|]. intros o. eapply (goes_return typed true (λ _, true)); [done|by destruct (_ =? 0); apply T_ret|].
  apply goes_debug; [done|by apply (T_sdSendCommand _ HQ true IX_ALL_SEND_CID)|].
  apply goes_debug; [done|by apply (T_sdSendCommand _ HQ true IX_SEND_REL_ADDR)|].
  apply goes_debug; [done|apply (T_sdSendCommand_gen _ HQ true IX_SEND_CSD); [done|]|].
  { intros cmd _ _ c l Hc. exact Hc. }
  apply goes_parse. intros s Hs. apply wp_bind, wp_gets.
  destruct (Z.eqb_spec (fileFormat (sdCard s)) CSD3VN_FILE_FORMAT_DOSFAT); [|destruct (Z.eqb_spec (fileFormat (sdCard s)) CSD3VN_FILE_FORMAT_HDD)]; cbn [negb andb].
  1, 2: apply goes_selected; destruct Hs as (Hc & HPs & Hl); (split; [done|]); (split; [|done]); (split; [done|]); by [left|right].
  apply (goes_fail parsed true _ SD_ERROR); [by intros c [[? _] _]|done|done|by apply T_ret|done].
Qed.

Lemma goes_ret_code (P : SDDescriptor → Prop) h r : (∀ c, P c → down c) → r ≠ 0 → code_ok r → goes P h (mret r).
Proof. intros HP Hr Hc s Hs. by apply (goes_fail P h _ r); [| | |by apply T_ret|]. Qed.

Lemma goes_typed oldCID (f : SDDescriptor → Z) : (∀ c, card_type_ok (f c) ∧ byte_ok (f c)) →
  goes down true (set_card (λ c, set_type (f c) c) ;; identified oldCID).
Proof.
  intros Hf s ([] & HPs & Hl). apply wp_bind, wp_modify. apply goes_identified. cbn [sdCard].
  destruct (Hf (sdCard s)). split; [|split; [by split|done]]. split; cbn; try assumption.
  destruct ok_bytes0 as (_ & ? & ? & ?). by split_and!.
Qed.

Lemma reset_quiet_down : reset_quiet down. Proof. by intros c x Hc. Qed.

Lemma goes_resolve oldCID resp : code_ok resp → goes down (negb (resp =? SD_BUSY)) (resolve oldCID resp).
Proof.
  intros Hc. assert (HP : ∀ c, down c → down c) by done. unfold resolve.
  destruct (Z.eqb_spec resp SD_OK) as [->|Hne].
  { apply goes_then; [apply T_hw|]. intros _. apply goes_debug; [done|apply (T_sdAppSendOpCond _ quiet_down)|].
    intros s Hs. apply wp_bind, wp_gets.
    apply (goes_typed oldCID (λ _, if Z.land (ocr (sdCard s)) R3_CCS =? 0 then SD_TYPE_2_SC else SD_TYPE_2_HC)); [|done].
    intros _. unfold card_type_ok, byte_ok, SD_TYPE_2_SC, SD_TYPE_2_HC. destruct (_ =? 0); lia. }
  destruct (Z.eqb_spec resp SD_BUSY) as [->|Hnb]; [by apply goes_ret_code|]. cbn [negb].
  apply goes_then; [apply T_bits_set|]. intros b. eapply (goes_return down true (λ r, r =? 0) (if b then _ else _)); [done| |].
  { destruct b; [apply (T_sdResetCard _ quiet_down), reset_quiet_down|].
    eapply T_mono; [by apply (T_ret down true 0 (λ r, r = 0))|]. by intros ? ->. }
  apply goes_debug; [done|apply (T_sdAppSendOpCond _ quiet_down)|].
  apply (goes_typed oldCID (λ _, SD_TYPE_1)). intros _. by split; [left|].
Qed.

(** [sdInit] once the card is known not to be initialised. *)
Lemma goes_start fuel buf oldCID :
  mailbox_answers fuel → (0 < fuel)%nat → Z.land buf 0xF = 0 → 0 ≤ buf < 2 ^ 32 →
  goes down false (
    v ← rd EMMC_SLOTISR_VER;
    modify (λ s, Host s.(hw) s.(sdCard) (Z.shiftr (Z.land v HOST_SPEC_NUM) HOST_SPEC_NUM_SHIFT) s.(sdBaseClock)) ;;
    step_or_return (sdGetBaseClock fuel buf) (
    step_or_return (sdResetCard C1_SRST_HC) (
    resp ← sdSendCommandA IX_SEND_IF_COND 0x1AA;
    resolve oldCID resp))).
Proof.
  intros HM Hf Hb Hr. apply goes_then; [eapply T_true, T_rd|]. intros v.
  apply goes_then. { intros s Hs. apply wp_modify. split; [exact Hs|done]. } intros _.
  apply (goes_return down false (λ _, false)); [done|by apply T_sdGetBaseClock|].
  apply (goes_return down false (λ r, r =? 0)); [done|apply (T_sdResetCard _ quiet_down), reset_quiet_down|].
  intros s Hs. apply wp_bind. eapply wp_mono; [by apply (T_sdSendCommandA _ quiet_down true IX_SEND_IF_COND)|].
  intros r s' [Hs' Hc]. apply goes_resolve; [done|]. by eapply Inv_true.
Qed.

(** C34: Whatever the controller answers, [sdInit] returns: it does not panic, does
    not read [lastCmd] when that is NULL and leaves every loop, provided that
    the firmware answers on its mailbox and the fields of the descriptor are in
    their types.  They stay so.  When the card was not initialised before, the
    result is SD_CARD_CHANGED or SD_CARD_REINSERTED, and then the card is marked
    as initialised, with a type, a known file format and the capacity its CSD
    register gives; or another non-zero code, and then it is not so marked.
    SD_OK only says that there was nothing to do. *)
Theorem sdInit_returns fuel buf s :
  card_ok s.(sdCard) → mailbox_answers fuel → (0 < fuel)%nat → Z.land buf 0xF = 0 → 0 ≤ buf < 2 ^ 32 →
  wp (sdInit fuel buf)
     (λ r s', brought_up r s'.(sdCard) ∨
        (r = SD_OK ∧ s.(sdCard).(init) ≠ 0 ∧ s'.(sdCard) = set_absent 0 s.(sdCard))) s.
Proof.
  intros Hc HM Hf Hb Hr. unfold sdInit. apply wp_bind, wp_gets. apply wp_bind.
  assert (Hg : T false (λ c, c = sdCard s) (if init (sdCard s) =? 0 then sdInitGPIO else mret tt) (λ _, false) (λ _, True)).
  { destruct (_ =? 0); [apply T_sdInitGPIO|by apply T_ret]. }
  eapply wp_mono; [apply Hg; split; [done|by split]|]. intros _ s1 [(_ & E1 & _) _]. apply wp_bind, wp_rd. intros eds h1 _.
  apply wp_bind, wp_modify, wp_bind, wp_gets, wp_bind. cbn [sdCard]. rewrite E1. destruct Hc.
  assert (Hok : ∀ x, byte_ok x → card_ok (set_init x (set_absent 0 (sdCard s)))).
  { intros x Hx. split; cbn; try assumption. destruct ok_bytes0 as (? & ? & _ & _). by split_and!. }
  destruct (negb (Z.land eds (Z.shiftl 1 15) =? 0) && negb (init (sdCard s) =? 0)) eqn:E.
  - apply wp_modify, wp_bind, wp_gets. cbn. apply (wp_mono _ (λ r s', brought_up r (sdCard s'))); [|by intros; left].
    apply goes_start; [done..|]. split; [|by split]. by apply Hok.
  - apply wp_ret, wp_bind, wp_gets. cbn. destruct (Z.eqb_spec (init (sdCard s)) 0) as [E0|Hne]; cbn [negb].
    + apply (wp_mono _ (λ r s', brought_up r (sdCard s'))); [|by intros; left]. apply goes_start; [done..|]. split; [|by split].
      assert (set_absent 0 (sdCard s) = set_init 0 (set_absent 0 (sdCard s))) as Ei by (rewrite -E0; by destruct (sdCard s)).
      cbn [sdCard]. rewrite Ei. by apply Hok.
    + apply wp_ret. by right.
Qed.

End host.

(** ** Order of the writes *)

(** A device with a record of the registers written. *)
Program Definition traced {HW} (D : Device HW) : Device (HW * list (Z * Z)) := {|
  mmio_read r h := let '(v, h') := mmio_read r h.1 in (v, (h', h.2));
  mmio_write r v h := (mmio_write r v h.1, h.2 ++ [(r, v)]);
  delay_us n h := (delay_us n h.1, h.2);
  delay n h := (delay n h.1, h.2);
  message a l h := message a l h.1;
|}.
Next Obligation. intros HW D r h. cbn. pose proof (mmio_read_u32 r h.1). by destruct (mmio_read r h.1). Qed.
Next Obligation. intros HW D a l h. cbn. apply message_length. Qed.

Section order.
Context {HW : Type} (D : Device HW).
Local Instance traced_device : Device (HW * list (Z * Z)) := traced D.
Abbreviation M := (M (host (HW * list (Z * Z)))).
Abbreviation log s := (s.(hw)).2.

(** [m] writes registers as [Q] says. *)
Definition writes {A} (m : M A) (Q : A → list (Z * Z) → Prop) : Prop :=
  ∀ s a s', m s = Ok (a, s') → ∃ l, log s' = log s ++ l ∧ Q a l.
Definition silent {A} (m : M A) : Prop := writes m (λ _ l, l = []).

Lemma writes_ret {A} (a : A) (Q : A → list (Z * Z) → Prop) : Q a [] → writes (mret a) Q.
Proof. intros HQ s a' s' [= <- <-]. exists []. by rewrite app_nil_r. Qed.

Lemma silent_bind {A B} (m : M A) (f : A → M B) (Q : B → list (Z * Z) → Prop) :
  silent m → (∀ a, writes (f a) Q) → writes (m ≫= f) Q.
Proof.
  intros Hm Hf s b s2 (a & s1 & E1 & E2)%bind_inv. destruct (Hm _ _ _ E1) as (l1 & L1 & ->).
  destruct (Hf a _ _ _ E2) as (l2 & L2 & HQ). exists l2. by rewrite L2 L1 app_nil_r.
Qed.

Lemma write_bind {B} reg v (f : unit → M B) (Q : B → list (Z * Z) → Prop) :
  writes (f tt) (λ b l, Q b ((reg, v) :: l)) → writes (wr reg v ≫= f) Q.
Proof.
  intros Hf s b s2 ([] & s1 & E1 & E2)%bind_inv. injection E1 as <-. destruct (Hf _ _ _ E2) as (l & L & HQ).
  exists ((reg, v) :: l). rewrite L. cbn. by rewrite -app_assoc.
Qed.

Lemma silent_rd reg : silent (rd reg).
Proof.
  intros s a s'. unfold rd. cbn. destruct (mmio_read reg _) as [v h]. intros [= <- <-]. exists []. by rewrite app_nil_r.
Qed.
Lemma silent_delayus n : silent (sd_delayus n).
Proof. intros s a s' [= <- <-]. exists []. by rewrite app_nil_r. Qed.
Lemma silent_set_card f : silent (set_card f).
Proof. intros s a s' [= <- <-]. exists []. by rewrite app_nil_r. Qed.
Lemma silent_fail {A} e (Q : A → list (Z * Z) → Prop) : writes (fail e) Q.
Proof. by intros s a s'. Qed.

Lemma silent_bits reg mask : silent (bits_set reg mask) ∧ silent (bits_clear reg mask).
Proof. split; (apply silent_bind; [apply silent_rd|]); intros v; by apply writes_ret. Qed.
Lemma silent_inhibited flag : silent (inhibited flag).
Proof. apply silent_bind; [apply silent_bits|]. intros []; [apply silent_bits|by apply writes_ret]. Qed.

Lemma silent_countdown fuel cond us count : silent cond → silent (countdown fuel cond us count).
Proof.
  intros Hc. revert count. induction fuel as [|fuel IH]; intros count; [apply silent_fail|]. cbn [countdown].
  apply silent_bind; [exact Hc|]. intros []; [|by apply writes_ret]. destruct (count =? 0); [by apply writes_ret|].
  apply silent_bind; [apply silent_delayus|]. intros _. apply IH.
Qed.

Lemma silent_show regs : silent (show regs).
Proof.
  induction regs as [|r regs IH]; [by apply writes_ret|]. apply silent_bind; [|intros; exact IH].
  apply silent_bind; [apply silent_rd|]. intros a. by apply writes_ret.
Qed.

Lemma silent_sdWaitForCommand : silent sdWaitForCommand.
Proof.
  apply silent_bind; [apply silent_countdown, silent_inhibited|]. intros c.
  apply silent_bind; [destruct (c <=? 0); [by apply writes_ret|apply silent_bits]|]. intros [].
  - apply silent_bind; [apply silent_show|]. intros _. by apply writes_ret.
  - by apply writes_ret.
Qed.

Lemma writes_sdWaitForInterrupt mask :
  writes (sdWaitForInterrupt mask) (λ r l, ∃ v, l = [(EMMC_INTERRUPT, v)] ∧ (r = SD_OK → v = mask)).
Proof.
  apply silent_bind; [apply silent_countdown, silent_bits|]. intros c. apply silent_bind; [apply silent_rd|]. intros v.
  destruct (_ || _).
  { apply write_bind, writes_ret. by exists v. }
  destruct (negb _).
  - apply silent_bind; [apply silent_show|]. intros _. apply write_bind, writes_ret. by exists v.
  - apply write_bind, writes_ret. by exists mask.
Qed.

Lemma silent_handle_response cmd arg resp0 : silent (handle_response cmd arg resp0).
Proof.
  unfold handle_response. destruct (resp cmd =? RESP_NO); [by apply writes_ret|]. destruct (_ || _).
  { do 2 (apply silent_bind; [apply silent_set_card|]; intros _). by apply writes_ret. }
  destruct (_ || _).
  { apply silent_bind; [apply silent_set_card|]; intros _. do 3 (apply silent_bind; [apply silent_rd|]; intros ?).
    apply silent_bind; [apply silent_set_card|]; intros _. by apply writes_ret. }
  destruct (resp cmd =? RESP_R3).
  { do 2 (apply silent_bind; [apply silent_set_card|]; intros _). by apply writes_ret. }
  destruct (resp cmd =? RESP_R6).
  { do 3 (apply silent_bind; [apply silent_set_card|]; intros _). by apply writes_ret. }
  destruct (resp cmd =? RESP_R7); [|apply silent_fail]. apply silent_bind; [apply silent_set_card|]; intros _. by apply writes_ret.
Qed.

(** The writes of one command: none when the controller is busy, and
    otherwise the acknowledgement of what was pending, the argument, the command,
    and the acknowledgement of its own interrupts. *)
Definition command_writes (cmd : EMMCCommand) (arg r : Z) (l : list (Z * Z)) : Prop :=
  (l = [] ∧ r = SD_BUSY) ∨
  ∃ i v, l = [(EMMC_INTERRUPT, i); (EMMC_ARG1, u32 arg); (EMMC_CMDTM, cmd.(code)); (EMMC_INTERRUPT, v)].

(** [sdSendCommandP] of any command of the table returns on any device, and
    writes the registers in that order: the argument before the command
    register, which starts it, and nothing at all while another command is
    in progress. *)
Theorem sdSendCommandP_writes i cmd arg s :
  sdCommandTable !! i = Some cmd → card_ok s.(sdCard) →
  wp (sdSendCommandP cmd arg) (λ r s', card_ok s'.(sdCard) ∧ ∃ l, log s' = log s ++ l ∧ command_writes cmd arg r l) s.
Proof.
  intros Hi Hc. assert (Hwr : writes (sdSendCommandP cmd arg) (command_writes cmd arg)).
  { apply silent_bind; [apply silent_sdWaitForCommand|]. intros b. destruct (negb (b =? 0)); [apply writes_ret; by left|].
    do 2 (apply silent_bind; [apply silent_set_card|]; intros _). apply silent_bind; [apply silent_rd|]. intros i0.
    do 3 apply write_bind. apply silent_bind; [destruct (_ =? 0); [by apply writes_ret|apply silent_delayus]|]. intros _.
    intros s0 a s1 (r & s2 & E1 & E2)%bind_inv. destruct (writes_sdWaitForInterrupt _ _ _ _ E1) as (l1 & L1 & v & -> & _).
    exists [(EMMC_INTERRUPT, v)]. split; [|right; eauto]. rewrite -L1. destruct (negb (r =? 0)); [by injection E2 as _ <-|].
    assert (Hs : silent (resp0 ← rd EMMC_RESP0; handle_response cmd arg (i32 resp0))).
    { apply silent_bind; [apply silent_rd|]. intros r0. apply silent_handle_response. }
    destruct (Hs _ _ _ E2) as (l & -> & ->). by rewrite app_nil_r. }
  destruct (T_sdSendCommandP (λ _, True) ltac:(done) false cmd arg (table_resp _ _ Hi) ltac:(done) s) as (r & s' & E & [(? & _) _]).
  { by split_and!. }
  exists r, s'. split; [exact E|]. split; [done|]. by apply Hwr in E.
Qed.
End order.

(** ** Examples *)

Module HostExamples.

(** A controller with a version 2 card of 8 GB in it that answers at once; its
    state is the last command. *)
Definition answer (cmd : Z) : Z :=
  if cmd =? Z.lor 0x08000000 CMD_RSPNS_48 then 0x1AA
  else if cmd =? Z.lor 0x29000000 CMD_RSPNS_48 then 0xC0FF8000
  else if cmd =? Z.lor 0x03000000 CMD_RSPNS_48 then 0x12340000
  else if cmd =? Z.lor 0x09000000 CMD_RSPNS_136 then 0x800a4000
  else ST_APP_CMD.

Definition reg_value (reg cmd : Z) : Z :=
  if reg =? EMMC_INTERRUPT then Z.lor INT_CMD_DONE INT_READ_RDY
  else if reg =? EMMC_STATUS then SR_READ_AVAILABLE
  else if reg =? EMMC_CONTROL1 then C1_CLK_STABLE
  else if reg =? EMMC_RESP0 then answer cmd
  else if reg =? EMMC_RESP1 then 0x003b377f
  else if reg =? EMMC_RESP2 then 0x325b5900
  else if reg =? EMMC_RESP3 then 0x00400e00
  else if reg =? EMMC_DATA then SCR_SD_BUS_WIDTH_4
  else if reg =? MBOX_READ then 8
  else 0.

Program Definition sim : Device Z := {|
  mmio_read r h := (reg_value r h, h);
  mmio_write r v h := if r =? EMMC_CMDTM then v else h;
  delay_us n h := h;
  delay n h := h;
  message a l h := l;
|}.
Next Obligation.
  intros r h. cbn [fst]. unfold reg_value, answer.
  repeat match goal with |- context [if ?b then _ else _] => destruct b end; by vm_compute.
Qed.
Next Obligation. done. Qed.

Definition no_card : SDDescriptor :=
  SDDescriptor_ 0 [0; 0; 0; 0] [0; 0; 0; 0] [0; 0] 0 0 0 0 0 0 0 0 0 0 None 0.
Definition power_on : host Z := Host 0 no_card 0 0.

Lemma no_card_ok : card_ok no_card.
Proof.
  split; cbn; try done; try (split; [done|by rewrite !Forall_cons Forall_nil]); by split_and!.
Qed.

Lemma sim_answers : @mailbox_answers Z sim 3.
Proof. split; [intros h; exists 0%nat; split; [lia|by vm_compute]..|]. intros h. by vm_compute. Qed.

Lemma sdInit_returns_witness :
  wp (@sdInit Z sim 3 0x1000)
     (λ r s', brought_up r s'.(sdCard) ∨
        (r = SD_OK ∧ power_on.(sdCard).(init) ≠ 0 ∧ s'.(sdCard) = set_absent 0 power_on.(sdCard))) power_on.
Proof. apply (@sdInit_returns Z sim 3 0x1000 power_on no_card_ok sim_answers); [lia|done|lia]. Defined.

(** What the code does there. *)
Example sdInit_run :
  match @sdInit Z sim 3 0x1000 power_on with
  | Ok (r, s) => r = SD_CARD_CHANGED ∧ type (sdCard s) = SD_TYPE_2_HC ∧ capacity (sdCard s) = 7948206080 ∧
      rca (sdCard s) = 0x12340000 ∧ init (sdCard s) = 1 ∧ hw s = Z.lor 0x10000000 CMD_RSPNS_48
  | Fail _ => False
  end.
Proof. vm_compute. auto 10. Qed.

Lemma sdSendCommandP_writes_witness :
  ∃ cmd, sdCommandTable !! 6%nat = Some cmd ∧
  wp (@sdSendCommandP _ (traced sim) cmd 0x1AA)
     (λ r s', card_ok s'.(sdCard) ∧ ∃ l, (s'.(hw)).2 = [] ++ l ∧ command_writes cmd 0x1AA r l)
     (Host (0, []) no_card 0 0).
Proof.
  eexists. split; [reflexivity|].
  exact (sdSendCommandP_writes sim 6 _ 0x1AA (Host (0, []) no_card 0 0) eq_refl no_card_ok).
Defined.

End HostExamples.
