(* ===== verification/SdQueue.v ===== *)
(** * SD request queue and block device

    [src/driver/sd.c], without its self-test, and [src/fs/block_device.c]: the
    queue of requests, the start of a transfer, the interrupt handler, and the
    two halves of [sdrw]: handing in a request, and the loop that sleeps until
    the flags of a buffer change.  The queue is that of [LinkedList.v] (the code
    is the same), [rw_done] a semaphore of [Sem.v], the registers those of
    [SdHost.v].

    What the theorems need of the hardware is the class [Controller]: the
    controller and the card as a state machine that the driver's accesses move,
    each interrupt flag arriving after less than a million of the driver's
    delays.  A controller that conforms is at the end of the file. *)

From iris.prelude Require Import prelude.
From S2P Require Import Prelude LinkedList FsLayout Sem SdRegs SdHost.
#[local] Open Scope Z_scope.

(** ** State *)

Definition B_VALID : Z := 0x2.
Definition B_DIRTY : Z := 0x4.

(** [data]: the bytes. *)
Record buf : Type := mkBuf { flags : Z; blockno : Z; data : list Z }.

Definition set_flags (x : Z) (b : buf) : buf := mkBuf x b.(blockno) b.(data).
Definition set_data (x : list Z) (b : buf) : buf := mkBuf b.(flags) b.(blockno) x.

(** Offsets of fields of [struct buf]. *)
Definition offset_data : Z := 8.
Definition offset_node : Z := 520.
Definition node_of (b : Z) : Z := b + offset_node.
Definition container_of (p : Z) : Z := p - offset_node.

(** [bqueue] comes with the nodes of all buffers; [bufs]: by address. *)
Record driver (HW : Type) : Type := Driver {
  sd_host : host HW;
  bqueue : Queue.St;
  rw_done : Semaphore;
  bufs : gmap Z buf;
}.
Arguments Driver {HW} _ _ _ _.
Arguments sd_host {HW} _.
Arguments bqueue {HW} _.
Arguments rw_done {HW} _.
Arguments bufs {HW} _.

Section driver.
Context {HW : Type} `{Device HW}.
Abbreviation M := (Prelude.M (driver HW)).

Definition on_host {A} (m : Prelude.M (host HW) A) : M A :=
  zoom sd_host (λ h s, Driver h s.(bqueue) s.(rw_done) s.(bufs)) m.
Definition on_queue {A} (m : Prelude.M Queue.St A) : M A :=
  zoom bqueue (λ q s, Driver s.(sd_host) q s.(rw_done) s.(bufs)) m.
Definition on_sem {A} (m : Prelude.M Semaphore A) : M A :=
  zoom rw_done (λ r s, Driver s.(sd_host) s.(bqueue) r s.(bufs)) m.
Definition get_buf (b : Z) : M buf := bs ← gets bufs; deref (bs !! b).
Definition put_buf (b : Z) (v : buf) : M unit :=
  modify (λ s, Driver s.(sd_host) s.(bqueue) s.(rw_done) (<[b := v]> s.(bufs))).

(** ** The queue *)

Definition bufqueue_init : M unit := on_queue Queue.queue_init.
Definition bufqueue_push (b : Z) : M unit := on_queue (Queue.queue_push (node_of b)).
Definition bufqueue_pop : M unit := on_queue Queue.queue_pop.
Definition bufqueue_front : M Z := container_of <$> on_queue Queue.queue_front.
Definition bufqueue_empty : M bool := on_queue Queue.queue_empty.

(** ** Transfers *)

(** [(int)x << 9]: undefined when the result does not fit. *)
Definition shift9 (x : Z) : M Z :=
  if (0 <=? i32 x) && (Z.shiftl (i32 x) 9 <? 2 ^ 31) then mret (Z.shiftl (i32 x) 9) else fault.

(** [if ( *EMMC_INTERRUPT) { printk(.., *EMMC_INTERRUPT); PANIC(); }] *)
Definition no_interrupt : M unit :=
  i ← on_host (rd EMMC_INTERRUPT);
  if i =? 0 then mret tt else on_host (show [EMMC_INTERRUPT]) ;; panic.

(** [intbuf[k]] *)
Definition buf_word (v : buf) (k : Z) : Z := le_value (slice v.(data) (Z.to_nat (4 * k)) 4).
Definition set_buf_word (b k x : Z) : M unit :=
  v ← get_buf b; put_buf b (set_data (splice v.(data) (Z.to_nat (4 * k)) (le_bytes 4 x)) v).

Definition send_data (b : Z) : M unit :=
  for_each (zseq 0 128) (λ k, v ← get_buf b; on_host (wr EMMC_DATA (buf_word v k))).
Definition receive_data (b : Z) : M unit :=
  for_each (zseq 0 128) (λ k, x ← on_host (rd EMMC_DATA); set_buf_word b k x).

Definition sd_start (b : Z) : M unit :=
  t ← on_host (card type);
  v ← get_buf b;
  bno ← (if t =? SD_TYPE_2_HC then mret (i32 v.(blockno)) else shift9 v.(blockno));
  let write := negb (Z.land v.(flags) B_DIRTY =? 0) in
  no_interrupt ;;
  on_host (wr EMMC_BLKSIZECNT 512) ;;
  resp ← on_host (sdSendCommandA (if write then IX_WRITE_SINGLE else IX_READ_SINGLE) bno);
  if negb (resp =? 0) then panic else
  if negb (Z.land (b + offset_data) 0x03 =? 0) then panic else
  if write then
    resp ← on_host (sdWaitForInterrupt INT_WRITE_RDY);
    if negb (resp =? 0) then panic else
    no_interrupt ;;
    send_data b
  else mret tt.

(** The interrupt handler, after [bufqueue_front]: the transfer of [b] ends. *)
Definition finish (b : Z) : M unit :=
  v ← get_buf b;
  if negb (Z.land v.(flags) B_DIRTY =? 0) then
    put_buf b (set_flags B_VALID v) ;;
    bufqueue_pop ;;
    on_host (sdWaitForInterrupt INT_DATA_DONE) ;;
    on_sem _post_sem
  else if Z.land v.(flags) B_VALID =? 0 then
    resp ← on_host (sdWaitForInterrupt INT_READ_RDY);
    if negb (resp =? 0) then panic else
    no_interrupt ;;
    receive_data b ;;
    on_host (sdWaitForInterrupt INT_DATA_DONE) ;;
    v ← get_buf b;
    put_buf b (set_flags B_VALID v) ;;
    bufqueue_pop ;;
    on_sem _post_sem
  else mret tt.

Definition sd_intr : M unit :=
  b ← bufqueue_front;
  finish b ;;
  e ← bufqueue_empty;
  if negb e then n ← bufqueue_front; sd_start n else mret tt.

(** *** [sdrw] *)

(** Whoever still sleeps keeps its [WaitData]. *)
Definition init_rw_done : M unit := on_sem (modify (λ r, mkSem 0 [] r.(waits) r.(activated))).

(** Up to the unlocking of the queue; the buffer whose flags are watched. *)
Definition sdrw_request (b : Z) : M Z :=
  init_rw_done ;;
  bufqueue_push b ;;
  sd_start b ;;
  e ← bufqueue_empty;
  if e : bool then mret b else bufqueue_front.

(** [while (flag_save == w->flags) ASSERT(wait_sem(&rw_done));]: [false] when
    the process [me] goes to sleep. *)
Fixpoint sdrw_loop (fuel : nat) (me w flag_save : Z) : M bool :=
  match fuel with
  | O => fail OutOfFuel
  | S fuel =>
      v ← get_buf w;
      if flag_save =? v.(flags) then
        r ← on_sem (_wait_sem me true);
        if r : bool then sdrw_loop fuel me w flag_save else mret false
      else mret true
  end.
(** One turn per unit of the semaphore, one to sleep. *)
Definition sdrw_turns (s : driver HW) : nat := S (S (Z.to_nat s.(rw_done).(val))).
Definition sdrw_enter (me w : Z) : M (Z * bool) :=
  v ← get_buf w;
  n ← gets sdrw_turns;
  r ← sdrw_loop n me w v.(flags);
  mret (v.(flags), r).
(** The rest of [wait_sem] when [me] runs again, and the loop. *)
Definition sdrw_resume (me w flag_save : Z) : M bool :=
  r ← on_sem (wait_sem_wake me);
  assert_ r ;;
  n ← gets sdrw_turns;
  sdrw_loop n me w flag_save.

(** *** [sd_init] *)

(** The first block, its transfer waited for without interrupts. *)
Definition read_MBR (b : Z) : M (Z * Z) :=
  put_buf b (mkBuf 0 0 zero_block) ;;
  sd_start b ;;
  on_host (sdWaitForInterrupt INT_READ_RDY) ;;
  receive_data b ;;
  on_host (sdWaitForInterrupt INT_DATA_DONE) ;;
  v ← get_buf b;
  mret (le_value (slice v.(data) (0x1CE + 0x8) 4), le_value (slice v.(data) (0x1CE + 0xC) 4)).

(** [mbox]: the buffer for the firmware; [b]: what [kalloc] returned.  The two
    handlers that are registered are [sd_intr]. *)
Definition sd_init (fuel : nat) (mbox b : Z) : M (Z * Z) :=
  on_host (sdInit fuel mbox) ;;
  bufqueue_init ;;
  read_MBR b.

(** ** Interleavings *)

(** A process in [sdrw] of [b]: it watches [w], or sleeps and has read [save]. *)
Inductive pc : Type :=
| Requested (b w : Z)
| Sleeping (b w save : Z)
| Returned (b : Z).

Record system : Type := System { drv : driver HW; threads : gmap Z pc }.

Inductive event : Type := Request (me b : Z) | Enter (me : Z) | Resume (me : Z) | Interrupt | Time | Return (me : Z).

Inductive sd_step : event → system → system → Prop :=
| step_request me b w s t s' :
    t !! me = None → sdrw_request b s = Ok (w, s') →
    sd_step (Request me b) (System s t) (System s' (<[me := Requested b w]> t))
| step_enter me b w save (r : bool) s t s' :
    t !! me = Some (Requested b w) → sdrw_enter me w s = Ok ((save, r), s') →
    sd_step (Enter me) (System s t) (System s' (<[me := if r then Returned b else Sleeping b w save]> t))
| step_resume me b w save (r : bool) s t s' :
    t !! me = Some (Sleeping b w save) → enabled s.(rw_done) (Wake me) → sdrw_resume me w save s = Ok (r, s') →
    sd_step (Resume me) (System s t) (System s' (<[me := if r then Returned b else Sleeping b w save]> t))
| step_interrupt s t s' :
    Z.land (mmio_read EMMC_INTERRUPT s.(sd_host).(hw)).1 (Z.lor INT_READ_RDY INT_DATA_DONE) ≠ 0 →
    sd_intr s = Ok (tt, s') → sd_step Interrupt (System s t) (System s' t)
| step_time n s t s' :
    on_host (on_hw (delay_us n)) s = Ok (tt, s') → sd_step Time (System s t) (System s' t)
| step_return me b s t :
    t !! me = Some (Returned b) → sd_step (Return me) (System s t) (System s (delete me t)).

(** Some steps, none of them a new request. *)
Definition no_request (e : event) : bool := match e with Request _ _ => false | _ => true end.
Definition runs_on : system → system → Prop := rtc (λ S S', ∃ e, no_request e = true ∧ sd_step e S S').

(** *** One request on its own *)

(** The processor is idle until the line of the controller is up. *)
Fixpoint until_interrupt (fuel : nat) : M unit :=
  match fuel with
  | O => fail OutOfFuel
  | S fuel =>
      i ← on_host (rd EMMC_INTERRUPT);
      if Z.land i (Z.lor INT_READ_RDY INT_DATA_DONE) =? 0 then
        on_host (on_hw (delay_us 3)) ;; until_interrupt fuel
      else mret tt
  end.

Definition sdrw (me b : Z) : M unit :=
  w ← sdrw_request b;
  '(save, r) ← sdrw_enter me w;
  if r : bool then mret tt else
  until_interrupt (turns 1000000) ;;
  sd_intr ;;
  r ← sdrw_resume me w save;
  if r : bool then mret tt else fail Asleep.

(** ** Block device *)

Definition BLOCKNO_OFFSET : Z := 0x20800.

(** [b]: the address of the buffer on the stack; [junk]: what is in it. *)
Definition sd_read (me b : Z) (junk : list Z) (block_no : Z) : M (list Z) :=
  put_buf b (mkBuf 0 (u32 (u32 block_no + BLOCKNO_OFFSET)) junk) ;;
  sdrw me b ;;
  v ← get_buf b;
  mret v.(data).

Definition sd_write (me b : Z) (block_no : Z) (buffer : list Z) : M unit :=
  put_buf b (mkBuf (Z.lor B_DIRTY B_VALID) (u32 (u32 block_no + BLOCKNO_OFFSET)) buffer) ;;
  sdrw me b.

(** [sblock_data] *)
Definition init_block_device (me b : Z) (junk : list Z) : M (list Z) := sd_read me b junk 1.

(** A client of the block device, with the stack buffer at [b]. *)
Inductive dev_op : Type := DevRead (junk : list Z) (block_no : Z) | DevWrite (block_no : Z) (buffer : list Z).
Definition dev_exec (me b : Z) (o : dev_op) : M (list Z) :=
  match o with
  | DevRead junk n => sd_read me b junk n
  | DevWrite n l => sd_write me b n l ;; mret []
  end.
Fixpoint dev_run (me b : Z) (os : list dev_op) : M (list (list Z)) :=
  match os with
  | [] => mret []
  | o :: os => r ← dev_exec me b o; rs ← dev_run me b os; mret (r :: rs)
  end.

End driver.

(** ** The controller and the card *)

(** What the controller is doing.  [Sized], [Addressed a]: the block size, the
    argument of the next command written.  [Command w b]: it reads block [b] from
    the card, or with [w] writes it; then it is [Data_ready]; then the words [ws]
    are still to be read, or have been written; then it is [Finishing]. *)
Inductive phase : Type :=
| Idle
| Sized
| Addressed (a : Z)
| Command (w : bool) (b : Z)
| Data_ready (w : bool) (b : Z)
| Reading (ws : list Z)
| Writing (b : Z) (ws : list Z)
| Finishing.

(** [wait]: how many delays it takes until the interrupt flag of the phase. *)
Record ctl : Type := Ctl { ph : phase; wait : nat; disk : gmap Z (list Z) }.

Definition flag_of (p : phase) : Z :=
  match p with
  | Command _ _ => INT_CMD_DONE
  | Data_ready false _ => INT_READ_RDY
  | Data_ready true _ => INT_WRITE_RDY
  | Finishing => INT_DATA_DONE
  | _ => 0
  end.
Definition pending (c : ctl) : Z := if (wait c =? 0)%nat then flag_of (ph c) else 0.

Definition words (l : list Z) : list Z := le_unarray 4 128 l.

(** Its flag was acknowledged. *)
Definition acknowledged (d : gmap Z (list Z)) (p : phase) : phase :=
  match p with
  | Command w b => Data_ready w b
  | Data_ready false b => Reading (words (default [] (d !! b)))
  | Data_ready true b => Writing b []
  | Finishing => Idle
  | p => p
  end.

Definition no_command (p : phase) : bool :=
  match p with Idle | Sized | Addressed _ => true | _ => false end.

(** High-capacity cards are addressed by block, others by byte. *)
Definition card_address (hc : bool) (b : Z) : Z := if hc then b else b * 512.
Definition transfer_code (w : bool) : Z :=
  if w then Z.lor (Z.lor (Z.lor 0x18000000 CMD_RSPNS_48) CMD_IS_DATA) TM_DAT_DIR_HC
  else Z.lor (Z.lor (Z.lor 0x11000000 CMD_RSPNS_48) CMD_IS_DATA) TM_DAT_DIR_CH.

(** The word read was the last; the word written was. *)
Definition after_read (ws : list Z) : phase := match ws with [] => Finishing | _ => Reading ws end.
Definition after_write (n : nat) (d : gmap Z (list Z)) (b : Z) (ws : list Z) : ctl :=
  if (length ws =? 128)%nat then Ctl Finishing n (<[b := le_array 4 ws]> d) else Ctl (Writing b ws) n d.

(** [at_ h c]: the hardware is as [c] says. *)
Class Controller (HW : Type) `{Device HW} := {
  hc : bool;
  at_ : HW → ctl → Prop;
  at_wait : ∀ h c, at_ h c → Z.of_nat (wait c) < 1000000;
  at_disk : ∀ h c, at_ h c → map_Forall (λ _, block_ok) (disk c);
  ctl_delay : ∀ h c n, at_ h c → at_ (delay_us n h) (Ctl (ph c) (pred (wait c)) (disk c));
  ctl_interrupt : ∀ h c, at_ h c → ∃ h', mmio_read EMMC_INTERRUPT h = (pending c, h') ∧ at_ h' c;
  ctl_ack : ∀ h c, at_ h c → pending c ≠ 0 → ∃ n,
    at_ (mmio_write EMMC_INTERRUPT (pending c) h) (Ctl (acknowledged (disk c) (ph c)) n (disk c));
  ctl_ack_none : ∀ h c, at_ h c → pending c = 0 → at_ (mmio_write EMMC_INTERRUPT 0 h) c;
  ctl_status : ∀ h c, at_ h c → no_command (ph c) = true → ∃ v h',
    mmio_read EMMC_STATUS h = (v, h') ∧ Z.land v SR_CMD_INHIBIT = 0 ∧ at_ h' c;
  ctl_size : ∀ h n d, at_ h (Ctl Idle n d) → at_ (mmio_write EMMC_BLKSIZECNT 512 h) (Ctl Sized n d);
  ctl_arg : ∀ h n d a, at_ h (Ctl Sized n d) → at_ (mmio_write EMMC_ARG1 a h) (Ctl (Addressed a) n d);
  ctl_command : ∀ h n d w b, at_ h (Ctl (Addressed (card_address hc b)) n d) → is_Some (d !! b) → ∃ n',
    at_ (mmio_write EMMC_CMDTM (transfer_code w) h) (Ctl (Command w b) n' d);
  ctl_response : ∀ h n d w b, at_ h (Ctl (Data_ready w b) n d) → ∃ v h',
    mmio_read EMMC_RESP0 h = (v, h') ∧ Z.land v R1_ERRORS_MASK = 0 ∧ at_ h' (Ctl (Data_ready w b) n d);
  ctl_read : ∀ h n d x ws, at_ h (Ctl (Reading (x :: ws)) n d) → ∃ h' n',
    mmio_read EMMC_DATA h = (x, h') ∧ at_ h' (Ctl (after_read ws) n' d);
  ctl_write : ∀ h n d b ws x, at_ h (Ctl (Writing b ws) n d) → u32_ok x → ∃ n',
    at_ (mmio_write EMMC_DATA x h) (after_write n' d b (ws ++ [x]));
}.

(** ** Lemmas on the host *)

Lemma i32_split x : ∃ k, i32 x = x + k * 2 ^ 32.
Proof.
  unfold i32, swrap. exists (- ((x + 2 ^ 31) / 2 ^ 32)). change (2 ^ (32 - 1)) with (2 ^ 31).
  pose proof (Z.div_mod (x + 2 ^ 31) (2 ^ 32) ltac:(lia)). lia.
Qed.

Lemma land_i32 x m : u32_ok m → Z.land (i32 x) m = Z.land x m.
Proof.
  intros Hm. destruct (i32_split x) as [k ->].
  assert (E : ∀ y, Z.land y m = Z.land (y mod 2 ^ 32) m).
  { intros y. rewrite -(Z.land_ones y 32) // -Z.land_assoc (Z.land_comm (Z.ones 32)) (Z.land_ones m) //. by rewrite (Z.mod_small m). }
  rewrite E (E x). by rewrite Z_mod_plus_full.
Qed.

Lemma u32_i32 x : u32_ok x → u32 (i32 x) = x.
Proof.
  intros Hx. destruct (i32_split x) as [k ->]. unfold u32, wrap. rewrite Z_mod_plus_full. by apply Z.mod_small.
Qed.

Section host.
Context {HW : Type} `{Controller HW}.
Implicit Types (s : host HW) (c : ctl).

(** The hardware is as [c] says, the card of type [t]. *)
Definition host_at (t : Z) (c : ctl) (s : host HW) : Prop := at_ s.(hw) c ∧ type s.(sdCard) = t.

Lemma wp_interrupt t c s (Q : Z → host HW → Prop) :
  host_at t c s → (∀ s', host_at t c s' → Q (pending c) s') → wp (rd EMMC_INTERRUPT) Q s.
Proof.
  intros [Hat Ht] HQ. destruct (ctl_interrupt _ _ Hat) as (h' & E & Hat'). apply wp_rd. rewrite E.
  intros v h [= <- <-]. by apply HQ.
Qed.

Lemma wp_pass t c s us (Q : unit → host HW → Prop) :
  host_at t c s → (∀ s', host_at t (Ctl (ph c) (pred (wait c)) (disk c)) s' → Q tt s') → wp (sd_delayus us) Q s.
Proof. intros [Hat Ht] HQ. apply wp_modify, HQ. split; [by apply ctl_delay|done]. Qed.

(** Waiting for a flag that comes. *)
Lemma wp_countdown_flag t mask c s fuel count :
  host_at t c s → Z.land (flag_of (ph c)) mask ≠ 0 → Z.of_nat (wait c) < count < Z.of_nat fuel →
  wp (countdown fuel (bits_clear EMMC_INTERRUPT mask) 1 count)
    (λ n s', 0 < n ∧ host_at t (Ctl (ph c) 0 (disk c)) s') s.
Proof.
  intros Hat Hm. revert s c Hat Hm count. induction fuel as [|fuel IH]; intros s c Hat Hm count Hf; [lia|]. cbn [countdown].
  apply wp_bind, wp_bind. apply (wp_interrupt t c); [done|]. intros s1 Hat1. apply wp_ret. unfold pending.
  destruct (Nat.eqb_spec (wait c) 0) as [E|Hne].
  - destruct (Z.eqb_spec (Z.land (flag_of (ph c)) mask) 0); [done|]. apply wp_ret. split; [lia|].
    destruct c as [p k d]. cbn in *. by subst k.
  - rewrite Z.land_0_l. destruct (Z.eqb_spec count 0); [lia|]. apply wp_bind. apply (wp_pass t c); [done|].
    intros s2 Hat2. by apply (IH s2 (Ctl (ph c) (pred (wait c)) (disk c))); [| |cbn; lia].
Qed.

(** [sdWaitForInterrupt] of the flag the phase leads to. *)
Lemma wp_wait_flag t mask p n d s :
  host_at t (Ctl p n d) s → flag_of p = mask → mask ≠ 0 →
  wp (sdWaitForInterrupt mask) (λ r s', r = SD_OK ∧ ∃ n', host_at t (Ctl (acknowledged d p) n' d) s') s.
Proof.
  intros Hat Hp Hm. unfold sdWaitForInterrupt. apply wp_bind.
  assert (Hcase : mask = INT_CMD_DONE ∨ mask = INT_READ_RDY ∨ mask = INT_WRITE_RDY ∨ mask = INT_DATA_DONE).
  { subst mask. destruct p as [| | | |[]| | |]; (by destruct Hm) || (cbn [flag_of]; tauto). }
  eapply wp_mono; [apply (wp_countdown_flag t _ (Ctl p n d)); [done|..]|].
  - cbn. rewrite Hp. destruct Hcase as [-> | [-> | [-> | ->]]]; by vm_compute.
  - pose proof (at_wait _ _ (proj1 Hat)) as Hw. cbn in *. pose proof (turns_spec 1000000 ltac:(lia)). lia.
  - intros count s1 [Hc Hat1]. cbn [ph disk] in Hat1. apply wp_bind. apply (wp_interrupt t _ s1 _ Hat1).
    intros s2 Hat2. unfold pending. cbn [wait ph]. rewrite Nat.eqb_refl Hp.
    destruct (Z.leb_spec count 0); [lia|]. cbn [orb].
    assert (Z.land mask INT_CMD_TIMEOUT = 0 ∧ Z.land mask INT_DATA_TIMEOUT = 0 ∧ Z.land mask INT_ERROR_MASK = 0) as (-> & -> & ->).
    { by destruct Hcase as [-> | [-> | [-> | ->]]]; vm_compute. }
    cbn [Z.eqb negb orb]. destruct Hat2 as [Ha2 Ht2]. destruct (ctl_ack _ _ Ha2) as [n' Ha3].
    { unfold pending. cbn. by rewrite Hp. }
    apply wp_bind, wp_modify, wp_ret. split; [done|]. exists n'. split; [|done]. revert Ha3. unfold pending. cbn. by rewrite Hp.
Qed.

Lemma wp_not_inhibited t c s (Q : bool → host HW → Prop) :
  host_at t c s → no_command (ph c) = true → (∀ s', host_at t c s' → Q false s') → wp (inhibited SR_CMD_INHIBIT) Q s.
Proof.
  intros [Hat Ht] Hp HQ. unfold inhibited. apply wp_bind, wp_bind. destruct (ctl_status _ _ Hat Hp) as (v & h' & E & Ev & Hat').
  apply wp_rd. rewrite E. intros v' h [= <- <-]. apply wp_ret. rewrite Ev. apply wp_ret, HQ. by split.
Qed.

Lemma no_command_pending c : no_command (ph c) = true → pending c = 0.
Proof. unfold pending. destruct (_ =? _)%nat; [|done]. by destruct (ph c). Qed.

Lemma wp_waitForCommand t c s :
  host_at t c s → no_command (ph c) = true → wp sdWaitForCommand (λ r s', r = SD_OK ∧ host_at t c s') s.
Proof.
  intros Hat Hp. unfold sdWaitForCommand. apply wp_bind. unfold turns. cbn [countdown]. apply wp_bind.
  apply (wp_not_inhibited t c); [done..|]. intros s1 Hat1. apply wp_ret. cbn [Z.leb Z.compare]. apply wp_bind, wp_bind.
  apply (wp_interrupt t c); [done|]. intros s2 Hat2. rewrite no_command_pending //. apply wp_ret, wp_ret. by split.
Qed.

(** *** Sending the command of a transfer *)

Definition transfer_cmd (w : bool) : Z := if w then IX_WRITE_SINGLE else IX_READ_SINGLE.

Lemma transfer_entry w : ∃ cmd, sdCommandTable !! Z.to_nat (transfer_cmd w) = Some cmd ∧
  cmd.(code) = transfer_code w ∧ cmd.(resp) = RESP_R1 ∧ cmd.(delay_after) = 0.
Proof. destruct w; eexists; (split; [reflexivity|done]). Qed.

Lemma wp_card_set t c s f (Q : unit → host HW → Prop) :
  host_at t c s → (∀ x, type (f x) = type x) → (∀ s', host_at t c s' → Q tt s') → wp (set_card f) Q s.
Proof. intros [Hat Ht] Hf HQ. apply wp_modify, HQ. split; [done|]. cbn. by rewrite Hf. Qed.

Lemma wp_sendCommandP t w b a n d s cmd :
  host_at t (Ctl Sized n d) s → sdCommandTable !! Z.to_nat (transfer_cmd w) = Some cmd →
  u32 a = card_address hc b → is_Some (d !! b) →
  wp (sdSendCommandP cmd a) (λ r s', r = SD_OK ∧ ∃ n', host_at t (Ctl (Data_ready w b) n' d) s') s.
Proof.
  intros Hat Hcmd Ha Hb. destruct (transfer_entry w) as (cmd' & E & Ecode & Eresp & Edelay). rewrite E in Hcmd.
  injection Hcmd as <-. unfold sdSendCommandP. apply wp_bind.
  eapply wp_mono; [by apply (wp_waitForCommand t)|]. intros r s1 [-> Hat1]. cbn [Z.eqb negb SD_OK].
  do 2 (apply wp_bind; eapply wp_card_set; [eassumption|done|]; clear Hat1; intros ? Hat1).
  apply wp_bind, (wp_interrupt t (Ctl Sized n d)); [done|]. clear Hat1. intros s2 [Hat2 Ht2].
  rewrite no_command_pending //. apply wp_bind, wp_modify, wp_bind, wp_modify, wp_bind, wp_modify. cbn [hw sdCard sdHostVer sdBaseClock].
  pose proof (ctl_ack_none _ _ Hat2 (no_command_pending (Ctl Sized n d) eq_refl)) as Hat3. pose proof (ctl_arg _ _ _ (u32 a) Hat3) as Hat4. rewrite {2}Ha in Hat4.
  destruct (ctl_command _ _ _ w _ Hat4 Hb) as [n' Hat5]. rewrite Ecode Edelay. apply wp_bind, wp_ret, wp_bind.
  eapply wp_mono; [apply (wp_wait_flag t INT_CMD_DONE (Command w b) n' d); [by split|done|done]|].
  intros r s6 (-> & n6 & Hat6 & Ht6). cbn [Z.eqb negb SD_OK acknowledged] in *. apply wp_bind, wp_rd.
  destruct (ctl_response _ _ _ _ _ Hat6) as (v & h & Ev & Hv & Hat7). rewrite Ev. intros ? ? [= <- <-].
  unfold handle_response. rewrite Eresp. cbn [Z.eqb orb RESP_R1 RESP_NO].
  apply wp_bind, wp_modify, wp_bind, wp_modify, wp_ret. rewrite land_i32 // Hv. split; [done|]. exists n6. by split.
Qed.

Lemma wp_sendCommandA t w b a n d s :
  host_at t (Ctl Sized n d) s → u32 a = card_address hc b → is_Some (d !! b) →
  wp (sdSendCommandA (transfer_cmd w) a) (λ r s', r = SD_OK ∧ ∃ n', host_at t (Ctl (Data_ready w b) n' d) s') s.
Proof.
  intros Hat Ha Hb. destruct (transfer_entry w) as (cmd & E & _). unfold sdSendCommandA.
  assert (Hlt : IX_APP_CMD_START <=? transfer_cmd w = false) by by destruct w. rewrite Hlt.
  apply wp_bind, wp_ret. cbn [Z.eqb negb]. apply wp_bind, (wp_deref _ _ _ _ E), wp_bind.
  eapply wp_mono; [by apply (wp_sendCommandP t w b a n d)|]. intros r s1 [-> Hat1]. cbn [Z.eqb negb SD_OK].
  unfold app_accepted. apply wp_bind, wp_gets, wp_bind, wp_gets, wp_ret. by rewrite Hlt.
Qed.

End host.

(** ** The words of a block *)

Lemma lookup_words l k : (k < 128)%nat → words l !! k = Some (le_value (slice l (4 * k) 4)).
Proof.
  unfold words. generalize 128%nat. intros m. revert l k. induction m as [|m IH]; intros l k Hk; [lia|].
  destruct k as [|k]; [done|]. cbn [le_unarray lookup list_lookup]. rewrite IH; [|lia].
  unfold slice. rewrite drop_drop. do 4 f_equal. lia.
Qed.

Lemma words_slice l k : block_ok l → (k < 128)%nat → le_bytes 4 (le_value (slice l (4 * k) 4)) = slice l (4 * k) 4.
Proof.
  intros [Hl Hb] Hk. change (Z.to_nat BLOCK_SIZE) with 512%nat in Hl.
  rewrite -{1}(length_slice l (4 * k) 4) ?le_bytes_value //; [|lia]. by apply Forall_slice.
Qed.

Lemma words_ok l k : block_ok l → (k < 128)%nat → u32_ok (le_value (slice l (4 * k) 4)).
Proof.
  intros [Hl Hb] Hk. change (Z.to_nat BLOCK_SIZE) with 512%nat in Hl.
  pose proof (le_value_range (slice l (4 * k) 4) (Forall_slice _ _ _ _ Hb)) as Hr.
  rewrite length_slice in Hr; [exact Hr|lia].
Qed.

Lemma array_words l : block_ok l → le_array 4 (words l) = l.
Proof. intros [Hl Hb]. by apply le_array_unarray. Qed.

Lemma length_words l : length (words l) = 128%nat.
Proof. apply length_le_unarray. Qed.

(** A buffer filled up to [m] with [l]. *)
Definition filled (l j : list Z) (m : nat) : list Z := take m l ++ drop m j.

Lemma filled_splice l j m n : length l = length j → (m + n ≤ length l)%nat →
  splice (filled l j m) m (slice l m n) = filled l j (m + n).
Proof.
  intros Hl Hm. unfold splice, filled. rewrite length_slice //.
  rewrite take_app_le ?take_take; [|len]. rewrite Nat.min_id.
  rewrite drop_app_ge; [|len]. rewrite drop_drop length_take. replace (m + (m + n - m `min` length l))%nat with (m + n)%nat by lia.
  rewrite app_assoc. f_equal. unfold slice. by rewrite take_take_drop.
Qed.

(** ** Lemmas on the driver *)

Lemma wp_zoom {T St A} (proj : T → St) (inj : St → T → T) (m : Prelude.M St A) (Q : A → T → Prop) t :
  wp m (λ a s, Q a (inj s t)) (proj t) → wp (zoom proj inj m) Q t.
Proof. intros (a & s & E & HQ). exists a, (inj s t). by rewrite /zoom E. Qed.

(** Block [b] can be addressed. *)
Definition addressable (hc : bool) (b : Z) : Prop := 0 ≤ b < (if hc then 2 ^ 32 else 2 ^ 22).
Definition aligned (b : Z) : Prop := Z.land (b + offset_data) 0x03 = 0.
Definition writes_back (v : buf) : bool := negb (Z.land v.(flags) B_DIRTY =? 0).

Section driver.
Context {HW : Type} `{Controller HW}.
Implicit Types (s : driver HW) (c : ctl).

(** A buffer whose transfer can be started. *)
Record ready_buf (d : gmap Z (list Z)) (v : buf) : Prop := {
  r_data : block_ok v.(data);
  r_addr : addressable hc v.(blockno);
  r_block : is_Some (d !! v.(blockno));
}.

(** The state of the driver with another host. *)
Definition with_host (h : host HW) (s : driver HW) : driver HW := Driver h s.(bqueue) s.(rw_done) s.(bufs).

Lemma wp_on_host {A} (m : Prelude.M (host HW) A) (Q : A → driver HW → Prop) s :
  wp m (λ a h, Q a (with_host h s)) s.(sd_host) → wp (on_host m) Q s.
Proof. apply wp_zoom. Qed.

Lemma wp_get_buf b v (Q : buf → driver HW → Prop) s : s.(bufs) !! b = Some v → Q v s → wp (get_buf b) Q s.
Proof. intros Hb HQ. apply wp_bind, wp_gets. by apply (wp_deref _ v). Qed.

Lemma wp_no_interrupt t c s (Q : unit → driver HW → Prop) :
  host_at t c s.(sd_host) → pending c = 0 →
  (∀ h, host_at t c h → Q tt (with_host h s)) → wp no_interrupt Q s.
Proof.
  intros Hat Hp HQ. apply wp_bind, wp_on_host, (wp_interrupt t c); [done|]. intros h Hh. rewrite Hp. by apply wp_ret, HQ.
Qed.

(** The words of the buffer, sent in order, become the block. *)
Lemma wp_send_data t b v n d s :
  s.(bufs) !! b = Some v → block_ok v.(data) → host_at t (Ctl (Writing v.(blockno) []) n d) s.(sd_host) →
  wp (send_data b) (λ _ s', ∃ h n', s' = with_host h s ∧ host_at t (Ctl Finishing n' (<[v.(blockno) := v.(data)]> d)) h) s.
Proof.
  intros Hb Hv Hat. set (I := λ (k : Z) s', ∃ h n', s' = with_host h s ∧
    host_at t (after_write n' d v.(blockno) (take (Z.to_nat k) (words v.(data)))) h).
  eapply wp_mono; [apply (wp_for_zseq _ I); [lia|..]|].
  - exists s.(sd_host), n. split; [by destruct s|]. by rewrite take_0.
  - intros k s' Hk (h & m & -> & Hh). apply wp_bind, (wp_get_buf b v); [done|]. apply wp_on_host, wp_modify.
    destruct Hh as [Hh Ht]. unfold after_write in Hh. rewrite length_take length_words in Hh.
    destruct (Nat.eqb_spec (Z.to_nat k `min` 128) 128); [lia|].
    destruct (ctl_write _ _ _ _ _ (buf_word v k) Hh) as [m' Hh'].
    { unfold buf_word. rewrite Z2Nat.inj_mul //; [|lia]. by apply words_ok; [|lia]. }
    eexists _, m'. split; [reflexivity|]. split; [|done]. rewrite Z2Nat.inj_add //; [|lia].
    rewrite Nat.add_comm (take_S_r _ _ (buf_word v k)); [exact Hh'|].
    unfold buf_word. rewrite Z2Nat.inj_mul //; [|lia]. by apply lookup_words; lia.
  - intros [] s' (h & m & -> & Hh). exists h, m. split; [done|]. revert Hh. rewrite take_ge; [|by rewrite length_words].
    unfold after_write. by rewrite length_words array_words.
Qed.

(** The words read, stored in order, are the block. *)
Lemma wp_receive_data t b v l n d s :
  s.(bufs) !! b = Some v → block_ok l → length v.(data) = 512%nat → host_at t (Ctl (Reading (words l)) n d) s.(sd_host) →
  wp (receive_data b) (λ _ s', ∃ h n', s' = Driver h s.(bqueue) s.(rw_done) (<[b := set_data l v]> s.(bufs)) ∧
    host_at t (Ctl Finishing n' d) h) s.
Proof.
  intros Hb Hl Hlen Hat. assert (Hl512 : length l = 512%nat) by apply Hl.
  set (I := λ (k : Z) s', ∃ h n',
    s' = Driver h s.(bqueue) s.(rw_done) (<[b := set_data (filled l v.(data) (4 * Z.to_nat k)) v]> s.(bufs)) ∧
    host_at t (Ctl (after_read (drop (Z.to_nat k) (words l))) n' d) h).
  eapply wp_mono; [apply (wp_for_zseq _ I); [lia|..]|].
  - exists s.(sd_host), n. split; [|exact Hat]. cbn [Z.to_nat Nat.mul]. unfold filled. rewrite take_0 drop_0.
    rewrite insert_id; [by destruct s|]. rewrite Hb. by destruct v.
  - intros k s' Hk (h & m & -> & Hh & Ht). apply wp_bind, wp_on_host, wp_rd. cbn [sd_host].
    assert (Ek : words l !! Z.to_nat k = Some (le_value (slice l (4 * Z.to_nat k) 4))) by (apply lookup_words; lia).
    rewrite (drop_S _ _ _ Ek) in Hh. destruct (ctl_read _ _ _ _ _ Hh) as (h' & m' & E & Hh'). rewrite E. intros ? ? [= <- <-].
    apply wp_bind, (wp_get_buf b (set_data (filled l v.(data) (4 * Z.to_nat k)) v)); [cbn; by rewrite lookup_insert_eq|].
    apply wp_modify. eexists _, m'. split.
    + unfold with_host. cbn [bqueue rw_done bufs set_data flags blockno data]. rewrite insert_insert_eq.
      f_equal. unfold set_data. cbn [blockno flags]. do 2 f_equal. rewrite words_slice //; [|lia]. rewrite Z2Nat.inj_mul; [|lia..]. change (Z.to_nat 4) with 4%nat.
      rewrite filled_splice; [|lia..]. f_equal. lia.
    + split; [|done]. rewrite Z2Nat.inj_add //; [|lia]. by rewrite Nat.add_comm.
  - intros [] s' (h & m & -> & Hh). exists h, m. rewrite drop_ge in Hh; [|by rewrite length_words]. split; [|exact Hh].
    do 3 f_equal. unfold filled. rewrite take_ge; [|lia]. rewrite drop_ge; [|lia]. by rewrite app_nil_r.
Qed.

(** *** Starting a transfer *)

(** Where the controller is then. *)
Definition started (v : buf) (n : nat) (d : gmap Z (list Z)) : ctl :=
  if writes_back v then Ctl Finishing n (<[v.(blockno) := v.(data)]> d) else Ctl (Data_ready false v.(blockno)) n d.

Lemma start_address t v s (Q : Z → driver HW → Prop) :
  (t =? SD_TYPE_2_HC) = hc → addressable hc v.(blockno) →
  (∀ a, u32 a = card_address hc v.(blockno) → Q a s) →
  wp (if t =? SD_TYPE_2_HC then mret (i32 v.(blockno)) else shift9 v.(blockno)) Q s.
Proof.
  intros -> Ha HQ. unfold addressable, card_address in *. destruct hc.
  - apply wp_ret, HQ. by apply u32_i32.
  - change (2 ^ 22) with 4194304 in Ha. unfold shift9. rewrite i32_small; [|lia]. rewrite Z.shiftl_mul_pow2 //. change (2 ^ 9) with 512.
    destruct (Z.leb_spec 0 (blockno v)), (Z.ltb_spec (blockno v * 512) (2 ^ 31)); try lia.
    apply wp_ret, HQ, u32_small. lia.
Qed.

Lemma wp_sd_start t b v n d s :
  (t =? SD_TYPE_2_HC) = hc → host_at t (Ctl Idle n d) s.(sd_host) → s.(bufs) !! b = Some v → ready_buf d v → aligned b →
  wp (sd_start b) (λ _ s', ∃ h n', s' = with_host h s ∧ host_at t (started v n' d) h) s.
Proof.
  intros Hhc Hat Hb [Hv Ha Hd] Hal. unfold sd_start. apply wp_bind, wp_on_host, wp_gets. rewrite (proj2 Hat).
  apply wp_bind, (wp_get_buf b v); [done|]. cbn zeta. apply wp_bind, (start_address t v); [done..|]. intros a Haddr.
  apply wp_bind, (wp_no_interrupt t (Ctl Idle n d)); [done|by apply no_command_pending|]. intros h1 [Hat1 Ht1].
  apply wp_bind, wp_on_host, wp_modify. cbn [with_host sd_host]. apply ctl_size in Hat1.
  fold (writes_back v). apply wp_bind, wp_on_host. cbn [with_host sd_host].
  change (if writes_back v then IX_WRITE_SINGLE else IX_READ_SINGLE) with (transfer_cmd (writes_back v)).
  eapply wp_mono; [apply (wp_sendCommandA t (writes_back v) (blockno v) a n d); [by split|done..]|].
  intros r h2 (-> & n2 & Hat2). cbn [SD_OK Z.eqb negb]. rewrite Hal. cbn [Z.eqb negb]. unfold started.
  destruct (writes_back v); [|apply wp_ret; by exists h2, n2].
  apply wp_bind, wp_on_host. eapply wp_mono; [by apply (wp_wait_flag t INT_WRITE_RDY (Data_ready true (blockno v)) n2 d)|].
  intros r h3 (-> & n3 & Hat3). cbn [SD_OK Z.eqb negb acknowledged] in *.
  apply wp_bind, (wp_no_interrupt t (Ctl (Writing (blockno v) []) n3 d)); [done|unfold pending; by destruct (_ =? _)%nat|].
  intros h4 Hat4. eapply wp_mono; [by apply (wp_send_data t b v n3 d)|]. intros [] s' (h & n' & -> & Hh). by exists h, n'.
Qed.

(** *** The end of a transfer *)

(** What a request leaves in its buffer and on the card. *)
Definition served (d : gmap Z (list Z)) (v : buf) : buf :=
  mkBuf B_VALID v.(blockno) (if writes_back v then v.(data) else default [] (d !! v.(blockno))).
Definition written (d : gmap Z (list Z)) (v : buf) : gmap Z (list Z) :=
  if writes_back v then <[v.(blockno) := v.(data)]> d else d.
(** The flags of a request: B_DIRTY, or neither flag. *)
Definition requested (v : buf) : Prop := writes_back v = true ∨ Z.land v.(flags) B_VALID = 0.

Lemma container_of_node b : container_of (node_of b) = b.
Proof. unfold container_of, node_of. lia. Qed.

Lemma wp_front b l s (Q : Z → driver HW → Prop) :
  Queue.represents s.(bqueue) (node_of b :: l) → Q b s → wp bufqueue_front Q s.
Proof.
  intros Hq HQ. apply wp_bind, wp_zoom. exists (node_of b), s.(bqueue).
  split; [exact (Queue.queue_front_refines _ _ Hq)|]. apply wp_ret. rewrite container_of_node. by destruct s.
Qed.

Lemma wp_empty l s (Q : bool → driver HW → Prop) :
  Queue.represents s.(bqueue) l → Q (bool_decide (l = [])) s → wp bufqueue_empty Q s.
Proof.
  intros Hq HQ. apply wp_zoom. eexists _, s.(bqueue). split; [exact (Queue.queue_empty_refines _ _ Hq)|]. by destruct s.
Qed.

Lemma wp_pop b l s (Q : unit → driver HW → Prop) :
  Queue.represents s.(bqueue) (node_of b :: l) →
  (∀ q, Queue.represents q l → Q tt (Driver s.(sd_host) q s.(rw_done) s.(bufs))) → wp bufqueue_pop Q s.
Proof.
  intros Hq HQ. apply wp_zoom. eapply wp_mono; [exact (Queue.queue_pop_refines _ _ _ Hq)|]. intros [] q Hq'. by apply HQ.
Qed.

Lemma wp_post r' s (Q : unit → driver HW → Prop) :
  _post_sem s.(rw_done) = Ok (tt, r') → Q tt (Driver s.(sd_host) s.(bqueue) r' s.(bufs)) → wp (on_sem _post_sem) Q s.
Proof. intros E HQ. apply wp_zoom. by exists tt, r'. Qed.

(** The state once the request of [b] is served. *)
Definition after_finish (t b : Z) (v : buf) (d : gmap Z (list Z)) (l : list Z) (r' : Semaphore) s s' : Prop :=
  ∃ h n q, s' = Driver h q r' (<[b := served d v]> s.(bufs)) ∧
    host_at t (Ctl Idle n (written d v)) h ∧ Queue.represents q l.

Lemma wp_finish_write t b v n d l r' s :
  host_at t (started v n d) s.(sd_host) → s.(bufs) !! b = Some v → Queue.represents s.(bqueue) (node_of b :: l) →
  _post_sem s.(rw_done) = Ok (tt, r') → writes_back v = true →
  wp (finish b) (λ _ s', after_finish t b v d l r' s s') s.
Proof.
  intros Hat Hb Hq Hr Hw. unfold finish, started in *. apply wp_bind, (wp_get_buf b v); [done|]. fold (writes_back v).
  rewrite Hw in Hat |- *. apply wp_bind, wp_modify, wp_bind, (wp_pop b l); [done|]. intros q Hq'.
  apply wp_bind, wp_on_host. eapply wp_mono; [by apply (wp_wait_flag t INT_DATA_DONE Finishing n (<[v.(blockno) := v.(data)]> d))|].
  intros r h (_ & n' & Hat'). apply (wp_post r'); [done|].
  exists h, n', q. unfold served, written. rewrite Hw. by split.
Qed.

Lemma wp_finish_read t b v n d l r' s :
  host_at t (started v n d) s.(sd_host) → s.(bufs) !! b = Some v → ready_buf d v → Queue.represents s.(bqueue) (node_of b :: l) →
  _post_sem s.(rw_done) = Ok (tt, r') → writes_back v = false → Z.land v.(flags) B_VALID = 0 →
  wp (finish b) (λ _ s', after_finish t b v d l r' s s') s.
Proof.
  intros Hat Hb [Hv Ha [blk Hd]] Hq Hr Hw Hf. unfold finish, started in *. apply wp_bind, (wp_get_buf b v); [done|].
  fold (writes_back v). rewrite Hw Hf in Hat |- *. cbn [Z.eqb].
  pose proof (map_Forall_lookup_1 _ _ _ _ (at_disk _ _ (proj1 Hat)) Hd) as Hblk. cbn beta in Hblk.
  apply wp_bind, wp_on_host. eapply wp_mono; [by apply (wp_wait_flag t INT_READ_RDY (Data_ready false (blockno v)) n d)|].
  intros r h (-> & n1 & Hat1). cbn [SD_OK Z.eqb negb acknowledged] in *. rewrite Hd in Hat1. cbn [default] in Hat1.
  apply wp_bind, (wp_no_interrupt t (Ctl (Reading (words blk)) n1 d)); [exact Hat1|unfold pending; by destruct (_ =? _)%nat|].
  intros h2 Hat2. apply wp_bind. eapply wp_mono; [apply (wp_receive_data t b v blk n1 d); [done|done|apply Hv|done]|].
  intros [] s3 (h3 & n3 & -> & Hat3). apply wp_bind, wp_on_host.
  eapply wp_mono; [by apply (wp_wait_flag t INT_DATA_DONE Finishing n3 d)|]. intros r h4 (_ & n4 & Hat4).
  cbn [with_host bqueue rw_done bufs]. apply wp_bind, (wp_get_buf b (set_data blk v)); [cbn; by rewrite lookup_insert_eq|].
  apply wp_bind, wp_modify. cbn [with_host sd_host bqueue rw_done bufs]. rewrite insert_insert_eq.
  apply wp_bind, (wp_pop b l); [done|]. intros q Hq'. apply (wp_post r'); [done|].
  exists h4, n4, q. unfold served, written. rewrite Hw Hd. by split.
Qed.

Lemma wp_finish t b v n d l r' s :
  host_at t (started v n d) s.(sd_host) → s.(bufs) !! b = Some v → ready_buf d v → Queue.represents s.(bqueue) (node_of b :: l) →
  _post_sem s.(rw_done) = Ok (tt, r') → requested v →
  wp (finish b) (λ _ s', after_finish t b v d l r' s s') s.
Proof.
  intros Hat Hb Hv Hq Hr Hf. destruct (writes_back v) eqn:Hw; [by eapply wp_finish_write|].
  destruct Hf as [?|Hf]; [congruence|]. by eapply wp_finish_read.
Qed.

(** The handler, when this was the only request. *)
Lemma wp_sd_intr t b v n d r' s :
  host_at t (started v n d) s.(sd_host) → s.(bufs) !! b = Some v → ready_buf d v → Queue.represents s.(bqueue) [node_of b] →
  _post_sem s.(rw_done) = Ok (tt, r') → requested v →
  wp sd_intr (λ _ s', after_finish t b v d [] r' s s') s.
Proof.
  intros Hat Hb Hv Hq Hr Hf. apply wp_bind, (wp_front b []); [done|]. apply wp_bind.
  eapply wp_mono; [by apply (wp_finish t b v n d [] r')|]. intros [] s' Hs'.
  apply wp_bind, (wp_empty []); [by destruct Hs' as (h & n' & q & -> & _ & Hq')|]. by apply wp_ret.
Qed.

(** *** A request *)

(** Nothing is going on, and [me] does not sleep on [rw_done]. *)
Record idle (t me : Z) (d : gmap Z (list Z)) s : Prop := {
  i_host : ∃ n, host_at t (Ctl Idle n d) s.(sd_host);
  i_type : (t =? SD_TYPE_2_HC) = hc;
  i_queue : Queue.represents s.(bqueue) [];
  i_waits : s.(rw_done).(waits) !! me = None;
}.

Definition rw_reset (r : Semaphore) : Semaphore := mkSem 0 [] r.(waits) r.(activated).

Lemma wp_sdrw_request t me b v d s :
  idle t me d s → s.(bufs) !! b = Some v → ready_buf d v → aligned b → node_of b ≠ 0 →
  wp (sdrw_request b) (λ w s', w = b ∧ ∃ h n q, s' = Driver h q (rw_reset s.(rw_done)) s.(bufs) ∧
    host_at t (started v n d) h ∧ Queue.represents q [node_of b]) s.
Proof.
  intros [[n Hat] Ht Hq Hw] Hb Hv Hal Hnull. apply wp_bind, wp_zoom, wp_modify. fold (rw_reset s.(rw_done)).
  apply wp_bind, wp_zoom. cbn [bqueue]. eapply wp_mono; [apply (Queue.queue_push_refines _ [] (node_of b)); [done|done|set_solver|done]|].
  intros [] q Hq'. cbn [app] in Hq'. apply wp_bind. eapply wp_mono; [by apply (wp_sd_start t b v n d)|].
  intros [] s' (h & n' & -> & Hat'). cbn [with_host bqueue rw_done bufs].
  apply wp_bind, (wp_empty [node_of b]); [done|]. cbn. apply (wp_front b []); [done|]. split; [done|]. by exists h, n', q.
Qed.

(** [me] is the only sleeper. *)
Definition asleep_alone (me : Z) (r : Semaphore) : Semaphore :=
  mkSem (-1) [me] (<[me := mkWait false true]> r.(waits)) r.(activated).
(** It was woken. *)
Definition woken_alone (me : Z) (r : Semaphore) : Semaphore :=
  mkSem 0 [] (<[me := mkWait true true]> r.(waits)) (r.(activated) ++ [me]).

Lemma wp_enter_sleeps me b v r s (Q : Z * bool → driver HW → Prop) :
  s.(bufs) !! b = Some v → s.(rw_done) = rw_reset r →
  Q (v.(flags), false) (Driver s.(sd_host) s.(bqueue) (asleep_alone me r) s.(bufs)) → wp (sdrw_enter me b) Q s.
Proof.
  intros Hb Hr HQ. apply wp_bind, (wp_get_buf b v); [done|]. apply wp_bind, wp_gets. unfold sdrw_turns. rewrite Hr.
  cbn [rw_reset val Z.to_nat sdrw_loop]. apply wp_bind, wp_bind, (wp_get_buf b v); [done|]. rewrite Z.eqb_refl.
  apply wp_bind, wp_zoom. rewrite Hr. eexists false, _. split; [reflexivity|]. apply wp_ret, wp_ret. exact HQ.
Qed.

Lemma post_alone me r : _post_sem (asleep_alone me r) = Ok (tt, woken_alone me r).
Proof.
  unfold _post_sem. rewrite (bind_Ok _ _ _ 0 (set_val 0 (asleep_alone me r))) //. cbn [Z.leb Z.compare].
  rewrite (bind_Ok _ _ _ [me] (set_val 0 (asleep_alone me r))) // (bind_Ok _ _ _ tt (set_val 0 (asleep_alone me r))) //.
  rewrite (bind_Ok _ _ _ me (set_val 0 (asleep_alone me r))) //. unfold woken_alone, asleep_alone, set_val, set_waits, set_sleeplist, set_activated.
  unfold modify. rewrite /mbind /M_bind. cbn. rewrite alter_insert_eq. rewrite decide_False //. by intros ?.
Qed.

Definition line : Z := Z.lor INT_READ_RDY INT_DATA_DONE.

(** The line of the controller comes up. *)
Lemma wp_until_interrupt t c s fuel :
  host_at t c s.(sd_host) → Z.land (flag_of (ph c)) line ≠ 0 → (wait c < fuel)%nat →
  wp (until_interrupt fuel) (λ _ s', ∃ h, s' = with_host h s ∧ host_at t (Ctl (ph c) 0 (disk c)) h) s.
Proof.
  revert s c. induction fuel as [|fuel IH]; intros s c Hat Hf Hw; [lia|]. cbn [until_interrupt].
  apply wp_bind, wp_on_host, (wp_interrupt t c); [done|]. intros h Hh. unfold pending.
  destruct (Nat.eqb_spec (wait c) 0) as [E|Hne].
  - fold line. destruct (Z.eqb_spec (Z.land (flag_of (ph c)) line) 0); [done|]. apply wp_ret. exists h. split; [done|].
    destruct c as [p k d]. cbn in *. by subst k.
  - rewrite Z.land_0_l. cbn [Z.eqb]. apply wp_bind, wp_on_host, wp_modify. cbn [with_host sd_host]. destruct Hh as [Hh Ht].
    eapply wp_mono; [apply (IH _ (Ctl (ph c) (pred (wait c)) (disk c)))|].
    + split; [by apply ctl_delay|exact Ht].
    + exact Hf.
    + cbn. lia.
    + intros [] s' (h' & -> & Hh'). by exists h'.
Qed.

Lemma started_line v n d : Z.land (flag_of (ph (started v n d))) line ≠ 0 ∧ wait (started v n d) = n.
Proof. unfold started. by destruct (writes_back v). Qed.

(** The process was woken, and the flags are no longer those it saw. *)
Lemma wp_resume me b v r save s (Q : bool → driver HW → Prop) :
  s.(bufs) !! b = Some v → v.(flags) ≠ save → s.(rw_done) = woken_alone me r → r.(waits) !! me = None →
  Q true (Driver s.(sd_host) s.(bqueue) (mkSem 0 [] r.(waits) (r.(activated) ++ [me])) s.(bufs)) → wp (sdrw_resume me b save) Q s.
Proof.
  intros Hb Hne Hr Hw HQ. apply wp_bind, wp_zoom. rewrite Hr. eexists true, _. split.
  { unfold wait_sem_wake, woken_alone. rewrite (bind_Ok _ _ _ (<[me := mkWait true true]> r.(waits)) (woken_alone me r)) //.
    rewrite (bind_Ok _ _ _ (mkWait true true) (woken_alone me r)); [|by rewrite lookup_insert_eq].
    rewrite (bind_Ok _ _ _ tt (woken_alone me r)) // (bind_Ok _ _ _ tt (set_waits (delete me (<[me := mkWait true true]> r.(waits))) (woken_alone me r))) //. }
  rewrite delete_insert_id //. apply wp_bind, wp_assert; [done|]. apply wp_bind, wp_gets.
  unfold sdrw_turns. cbn [sdrw_loop]. apply wp_bind, (wp_get_buf b v); [done|].
  destruct (Z.eqb_spec save v.(flags)) as [E|_]; [by destruct Hne|]. by apply wp_ret.
Qed.

Lemma served_flags d v : requested v → v.(flags) ≠ (served d v).(flags).
Proof.
  unfold requested, writes_back. cbn [served flags]. intros Hr E. rewrite E in Hr. by destruct Hr.
Qed.

(** A whole request. *)
Lemma wp_sdrw t me b v d s :
  idle t me d s → s.(bufs) !! b = Some v → ready_buf d v → requested v → aligned b → node_of b ≠ 0 →
  wp (sdrw me b) (λ _ s', idle t me (written d v) s' ∧ s'.(bufs) = <[b := served d v]> s.(bufs)) s.
Proof.
  intros Hi Hb Hv Hreq Hal Hnull. apply wp_bind. eapply wp_mono; [by apply (wp_sdrw_request t me b v d)|].
  intros w s1 (-> & h1 & n1 & q1 & -> & Hat1 & Hq1). apply wp_bind, (wp_enter_sleeps me b v s.(rw_done)); [done..|]. cbn [bufs].
  apply wp_bind. destruct (started_line v n1 d) as [Hl Hn]. pose proof (at_wait _ _ (proj1 Hat1)) as Hwait.
  eapply wp_mono; [apply (wp_until_interrupt t (started v n1 d)); [exact Hat1|done|]|].
  { rewrite Hn in Hwait |- *. pose proof (turns_spec 1000000 ltac:(lia)). lia. }
  intros [] s2 (h2 & -> & Hat2).
  apply wp_bind. eapply wp_mono; [apply (wp_sd_intr t b v 0 d (woken_alone me s.(rw_done))); try done|].
  - revert Hat2. unfold started. by destruct (writes_back v).
  - apply post_alone.
  - intros [] s3 (h3 & n3 & q3 & -> & Hat3 & Hq3). cbn [with_host bufs sd_host bqueue rw_done].
    apply wp_bind, (wp_resume me b (served d v) s.(rw_done)); [cbn; by rewrite lookup_insert_eq| |done|by destruct Hi|].
    { intros E. by apply (served_flags d v Hreq). }
    apply wp_ret. split; [|done]. destruct Hi as [_ Ht _ Hw]. split; [by exists n3|done..].
Qed.

Lemma written_block d v : block_ok v.(data) → map_Forall (λ _, block_ok) d → map_Forall (λ _, block_ok) (written d v).
Proof. unfold written. destruct (writes_back v); [|done]. intros. by apply map_Forall_insert_2. Qed.

(** ** The block device *)

(** The disk at once: what each call returns, and the disk after it. *)
Definition dev_spec (o : dev_op) : Prelude.M (gmap Z (list Z)) (list Z) :=
  match o with
  | DevRead _ n => d ← gets id; deref (d !! (n + BLOCKNO_OFFSET))
  | DevWrite n l => modify (insert (n + BLOCKNO_OFFSET) l) ;; mret []
  end.
Fixpoint dev_spec_run (os : list dev_op) : Prelude.M (gmap Z (list Z)) (list (list Z)) :=
  match os with
  | [] => mret []
  | o :: os => r ← dev_spec o; rs ← dev_spec_run os; mret (r :: rs)
  end.

(** The block is on the disk, the buffers are 512 bytes. *)
Definition dev_block (d : gmap Z (list Z)) (n : Z) : Prop :=
  0 ≤ n ∧ addressable hc (n + BLOCKNO_OFFSET) ∧ is_Some (d !! (n + BLOCKNO_OFFSET)).
Definition dev_legal (d : gmap Z (list Z)) (o : dev_op) : Prop :=
  match o with
  | DevRead junk n => dev_block d n ∧ block_ok junk
  | DevWrite n l => dev_block d n ∧ block_ok l
  end.

Lemma dev_blockno d n : dev_block d n → u32 (u32 n + BLOCKNO_OFFSET) = n + BLOCKNO_OFFSET.
Proof.
  intros (Hn & Ha & _). unfold addressable in Ha. assert (n + BLOCKNO_OFFSET < 2 ^ 32) by (destruct hc; lia).
  unfold BLOCKNO_OFFSET in *. rewrite (u32_small n); [|lia]. apply u32_small. lia.
Qed.

Lemma idle_put t me d s b v : idle t me d s → idle t me d (Driver s.(sd_host) s.(bqueue) s.(rw_done) (<[b := v]> s.(bufs))).
Proof. intros [H1 H2 H3 H4]. by split. Qed.

Lemma wp_dev_exec t me b d s o :
  idle t me d s → dev_legal d o → aligned b → node_of b ≠ 0 →
  wp (dev_exec me b o) (λ r s', ∃ d', dev_spec o d = Ok (r, d') ∧ idle t me d' s' ∧ dom d' = dom d) s.
Proof.
  intros Hi Ho Hal Hnull. destruct o as [junk n|n l]; destruct Ho as [Hn Hl]; cbn [dev_exec].
  - apply wp_bind, wp_modify, wp_bind. rewrite (dev_blockno d n Hn). destruct Hn as (Hn & Ha & [blk Hd]).
    eapply wp_mono; [apply (wp_sdrw t me b (mkBuf 0 (n + BLOCKNO_OFFSET) junk) d); try done|].
    + by apply idle_put.
    + cbn. by rewrite lookup_insert_eq.
    + by right.
    + intros [] s' [Hi' Hb]. apply wp_bind, (wp_get_buf b (served d (mkBuf 0 (n + BLOCKNO_OFFSET) junk))).
      { by rewrite Hb lookup_insert_eq. }
      apply wp_ret. exists d. cbn. rewrite Hd. split; [|by split]. cbn. by rewrite bind_run /= Hd.
  - apply wp_bind, wp_bind, wp_modify. rewrite (dev_blockno d n Hn). destruct Hn as (Hn & Ha & [blk Hd]).
    eapply wp_mono; [apply (wp_sdrw t me b (mkBuf (Z.lor B_DIRTY B_VALID) (n + BLOCKNO_OFFSET) l) d); try done|].
    + by apply idle_put.
    + cbn. by rewrite lookup_insert_eq.
    + by left.
    + intros [] s' [Hi' _]. apply wp_ret. eexists. split; [reflexivity|]. split; [exact Hi'|].
      cbn. apply set_eq. intros x. rewrite elem_of_dom lookup_insert_is_Some elem_of_dom.
      destruct (decide (n + BLOCKNO_OFFSET = x)) as [<-|]; naive_solver.
Qed.

Lemma dev_legal_dom d d' o : dom d' = dom d → dev_legal d o → dev_legal d' o.
Proof.
  intros Hdom. assert (Hd : ∀ n, dev_block d n → dev_block d' n).
  { intros n (H1 & H2 & H3). split_and!; try done. by rewrite -elem_of_dom Hdom elem_of_dom. }
  destruct o; cbn; intros []; auto.
Qed.


(** ** The MBR *)

(** [sd_init] reads block 0 of the card with its interrupts off and takes the
    start and the length of the second partition from it; no request is
    pending then. *)
Theorem read_MBR_correct t me b l d s :
  idle t me d s → d !! 0 = Some l → aligned b →
  wp (read_MBR b) (λ r s', r = (le_value (slice l 470 4), le_value (slice l 474 4)) ∧ idle t me d s') s.
Proof.
  intros Hi Hd Hal. pose proof Hi as [[n Hat] Ht Hq Hw].
  pose proof (map_Forall_lookup_1 _ _ _ _ (at_disk _ _ (proj1 Hat)) Hd) as Hl. cbn beta in Hl.
  set (v := mkBuf 0 0 zero_block). apply wp_bind, wp_modify. apply wp_bind.
  eapply wp_mono; [apply (wp_sd_start t b v n d); try done|].
  - cbn. by rewrite lookup_insert_eq.
  - split; cbn; [by split; [|apply Forall_replicate]| |by eexists]. unfold addressable. by destruct hc.
  - intros [] s1 (h1 & n1 & -> & Hat1). unfold started in Hat1. cbn [writes_back v flags Z.land Z.eqb negb] in Hat1.
    apply wp_bind, wp_on_host. eapply wp_mono; [by apply (wp_wait_flag t INT_READ_RDY (Data_ready false 0) n1 d)|].
    intros r h2 (_ & n2 & Hat2). cbn [acknowledged] in Hat2. rewrite Hd in Hat2. cbn [default] in Hat2.
    apply wp_bind. eapply wp_mono; [apply (wp_receive_data t b v l n2 d); [cbn; by rewrite lookup_insert_eq|done|done|exact Hat2]|].
    intros [] s3 (h3 & n3 & -> & Hat3). apply wp_bind, wp_on_host.
    eapply wp_mono; [by apply (wp_wait_flag t INT_DATA_DONE Finishing n3 d)|]. intros r' h4 (_ & n4 & Hat4).
    apply wp_bind, (wp_get_buf b (set_data l v)); [cbn; by rewrite lookup_insert_eq|].
    apply wp_ret. split; [done|]. split; [by exists n4|done..].
Qed.

(** ** The lost wake-up *)

Lemma runs_time t c s ts :
  host_at t c s.(sd_host) →
  ∃ h, runs_on (System s ts) (System (with_host h s) ts) ∧ host_at t (Ctl (ph c) 0 (disk c)) h.
Proof.
  remember (wait c) as n eqn:En. revert c En s. induction n as [|n IH]; intros c En s [Hat Ht].
  - exists s.(sd_host). split; [by destruct s; apply rtc_refl|]. split; [|done]. destruct c as [p k d]. cbn in *. by subst k.
  - set (h1 := Host (delay_us 3 s.(sd_host).(hw)) s.(sd_host).(sdCard) s.(sd_host).(sdHostVer) s.(sd_host).(sdBaseClock)).
    destruct (IH (Ctl (ph c) (pred (wait c)) (disk c)) ltac:(cbn; lia) (with_host h1 s)) as (h & Hr & Hh).
    { split; [by apply ctl_delay|done]. }
    exists h. split; [|exact Hh]. eapply rtc_l; [|exact Hr]. exists Time. split; [done|]. by apply (step_time 3).
Qed.

(** The process sleeps and nothing is left to wake it. *)
Record stranded (t me b : Z) (d : gmap Z (list Z)) (S : system) : Prop := {
  x_threads : S.(threads) = {[me := Sleeping b b B_VALID]};
  x_host : ∃ n, host_at t (Ctl Idle n d) S.(drv).(sd_host);
  x_waits : S.(drv).(rw_done).(waits) !! me = Some (mkWait false true);
}.

Lemma stranded_resume me w save s x : s.(rw_done).(waits) !! me = Some (mkWait false true) → sdrw_resume me w save s ≠ Ok x.
Proof.
  intros Hw E. destruct x as [r s']. apply bind_inv in E as (a & s1 & E1 & E2). unfold on_sem, zoom in E1.
  destruct (wait_sem_wake me (rw_done s)) as [[a' r1]|] eqn:Ew; [|done]. injection E1 as -> <-.
  unfold wait_sem_wake in Ew. rewrite (bind_Ok _ _ _ (waits (rw_done s)) (rw_done s)) // in Ew.
  rewrite (bind_Ok _ _ _ (mkWait false true) (rw_done s)) ?Hw // in Ew.
  apply bind_inv in Ew as (? & r2 & _ & Ew). apply bind_inv in Ew as (? & r3 & _ & Ew). injection Ew as <- _. done.
Qed.

Lemma stranded_step t me b d S e S' :
  stranded t me b d S → no_request e = true → sd_step e S S' → stranded t me b d S'.
Proof.
  intros [Ht [n Hat] Hw] He Hs. destruct Hs; cbn [threads drv] in *; subst; try done.
  - apply lookup_singleton_Some in H1 as [_ ?]. done.
  - apply lookup_singleton_Some in H1 as [<- _]. by apply (stranded_resume _ _ _ _ _ Hw) in H3.
  - destruct Hat as [Hat _]. destruct (ctl_interrupt _ _ Hat) as (h & E & _). rewrite E no_command_pending // in H1.
  - injection H1 as <-. split; [done| |done]. exists (pred n). destruct Hat as [Hat Htype]. split; [exact (ctl_delay _ _ n0 Hat)|done].
  - apply lookup_singleton_Some in H1 as [_ ?]. done.
Qed.

(** The handler ran before [sdrw] read the flags: it sees them unchanged for ever. *)
Lemma wp_enter_late me b v r s (Q : Z * bool → driver HW → Prop) :
  s.(bufs) !! b = Some v → s.(rw_done) = mkSem 1 [] r.(waits) r.(activated) →
  Q (v.(flags), false) (Driver s.(sd_host) s.(bqueue) (asleep_alone me r) s.(bufs)) → wp (sdrw_enter me b) Q s.
Proof.
  intros Hb Hr HQ. apply wp_bind, (wp_get_buf b v); [done|]. apply wp_bind, wp_gets. unfold sdrw_turns. rewrite Hr.
  cbn [val]. change (Z.to_nat 1) with 1%nat. cbn [sdrw_loop]. apply wp_bind, wp_bind, (wp_get_buf b v); [done|]. rewrite Z.eqb_refl.
  apply wp_bind, wp_zoom. rewrite Hr. eexists true, _. split; [reflexivity|].
  apply wp_bind, (wp_get_buf b v); [done|]. rewrite Z.eqb_refl.
  apply wp_bind, wp_zoom. eexists false, _. split; [reflexivity|]. apply wp_ret, wp_ret. exact HQ.
Qed.

(** C31: The flags are read after the queue is unlocked.  When the interrupt comes in
    between, the request is served, the buffer valid, no request pending, and
    yet the process goes to sleep; whatever happens short of another request,
    it is never woken. *)
Theorem sdrw_lost_wakeup t me b v d s :
  idle t me d s → s.(bufs) !! b = Some v → ready_buf d v → requested v → aligned b → node_of b ≠ 0 →
  ∃ S1 S2, sd_step (Request me b) (System s ∅) S1 ∧ runs_on S1 S2 ∧
    S2.(drv).(bufs) !! b = Some (served d v) ∧
    ∀ S3, runs_on S2 S3 → S3.(threads) !! me = Some (Sleeping b b B_VALID).
Proof.
  intros Hi Hb Hv Hreq Hal Hnull. pose proof Hi as [_ _ _ Hw].
  destruct (wp_sdrw_request t me b v d s Hi Hb Hv Hal Hnull) as (w & s1 & E1 & -> & h1 & n1 & q1 & -> & Hat1 & Hq1).
  destruct (runs_time t (started v n1 d) (Driver h1 q1 (rw_reset (rw_done s)) (bufs s)) (<[me := Requested b b]> ∅) Hat1) as (h2 & Hr2 & Hat2).
  cbn [with_host bqueue rw_done bufs] in Hr2.
  assert (Hat2' : host_at t (started v 0 d) h2) by (revert Hat2; unfold started; by destruct (writes_back v)).
  set (s2 := with_host h2 (Driver h1 q1 (rw_reset (rw_done s)) (bufs s))) in *.
  destruct (wp_sd_intr t b v 0 d (mkSem 1 [] s.(rw_done).(waits) s.(rw_done).(activated)) s2 Hat2' Hb Hv Hq1 eq_refl Hreq)
    as ([] & s3 & E3 & h3 & n3 & q3 & -> & Hat3 & Hq3).
  match type of E3 with _ = Ok (_, ?x) => set (s3 := x) in * end.
  assert (Hb3 : s3.(bufs) !! b = Some (served d v)) by (cbn; by rewrite lookup_insert_eq).
  destruct (wp_enter_late me b (served d v) s.(rw_done) s3 (λ r s', r = (B_VALID, false) ∧
    s' = Driver h3 q3 (asleep_alone me (rw_done s)) s3.(bufs)) Hb3 eq_refl ltac:(by split)) as ([save r] & s4 & E4 & [= -> ->] & ->).
  eexists (System _ (<[me := Requested b b]> ∅)), (System _ (<[me := Sleeping b b B_VALID]> (<[me := Requested b b]> ∅))).
  split_and!.
  - by apply step_request.
  - unfold runs_on in *. etrans; [exact Hr2|]. eapply rtc_l; [exists Interrupt; split; [done|]; apply step_interrupt; [|exact E3]|].
    { destruct (ctl_interrupt _ _ (proj1 Hat2')) as (h' & E & _). cbn [s2 with_host sd_host]. rewrite E.
      unfold started. by destruct (writes_back v). }
    apply rtc_once. exists (Enter me). split; [done|]. by apply (step_enter me b b B_VALID false s3 (<[me := Requested b b]> ∅) _ (lookup_insert_eq _ _ _)).
  - exact Hb3.
  - intros S3 HS3. set (S2 := System _ _) in HS3.
    assert (HX : stranded t me b (written d v) S2).
    { split; [by rewrite /S2 /= insert_insert_eq insert_empty|by exists n3|]. cbn. by rewrite lookup_insert_eq. }
    clearbody S2. cut (stranded t me b (written d v) S3); [intros [-> _ _]; by rewrite lookup_singleton_eq|].
    revert HX. induction HS3 as [|x y z (e & He & Hs) _ IH]; [done|]. intros HX. apply IH. by eapply stranded_step.
Qed.

End driver.

(** ** A controller *)

Module CardExamples.

(** A high-capacity card behind a controller that takes two delays for each of
    its interrupts. *)
Definition next_ctl (c : ctl) (p : phase) : ctl := Ctl p 2 c.(disk).

Definition card_read (r : Z) (c : ctl) : Z * ctl :=
  if r =? EMMC_INTERRUPT then (pending c, c)
  else if r =? EMMC_DATA then
    match c.(ph) with Reading (x :: ws) => (u32 x, next_ctl c (after_read ws)) | _ => (0, c) end
  else (0, c).

Definition card_write (r v : Z) (c : ctl) : ctl :=
  if r =? EMMC_INTERRUPT then
    if (v =? pending c) && negb (v =? 0) then next_ctl c (acknowledged c.(disk) c.(ph)) else c
  else match c.(ph) with
  | Idle => if r =? EMMC_BLKSIZECNT then Ctl Sized c.(wait) c.(disk) else c
  | Sized => if r =? EMMC_ARG1 then Ctl (Addressed v) c.(wait) c.(disk) else c
  | Addressed a =>
      if r =? EMMC_CMDTM then
        if v =? transfer_code true then next_ctl c (Command true a)
        else if v =? transfer_code false then next_ctl c (Command false a) else c
      else c
  | Writing b ws => if r =? EMMC_DATA then after_write 2 c.(disk) b (ws ++ [v]) else c
  | _ => c
  end.

Lemma pending_u32 c : u32_ok (pending c).
Proof. unfold pending. destruct (_ =? _)%nat; [|done]. by destruct (ph c) as [| | | |[]| | |]. Qed.

Program Definition simcard : Device ctl := {|
  mmio_read := card_read;
  mmio_write := card_write;
  delay_us n c := Ctl c.(ph) (pred c.(wait)) c.(disk);
  delay n c := c;
  message a l c := l;
|}.
Next Obligation.
  intros r c. unfold card_read. destruct (_ =? _); [apply pending_u32|]. destruct (_ =? _); [|done].
  destruct (ph c) as [| | | | |[]| |]; try done. apply u32_u32.
Qed.
Next Obligation. done. Qed.
#[local] Existing Instance simcard.

Definition phase_ok (p : phase) : Prop :=
  match p with
  | Reading ws => Forall u32_ok ws
  | Writing _ ws => Forall u32_ok ws ∧ (length ws < 128)%nat
  | _ => True
  end.
Definition sim_at (h c : ctl) : Prop :=
  h = c ∧ (wait c < 10)%nat ∧ map_Forall (λ _, block_ok) (disk c) ∧ phase_ok (ph c).

Lemma words_u32 o : (∀ l, o = Some l → block_ok l) → Forall u32_ok (words (default [] o)).
Proof.
  intros Ho. destruct o as [l|]; cbn [default].
  - destruct (Ho l eq_refl) as [Hl Hb]. by apply (le_unarray_uint 4 128).
  - assert (words [] = replicate 128 0) as -> by reflexivity. by apply Forall_replicate.
Qed.

Lemma sim_ack c : sim_at c c → sim_at (next_ctl c (acknowledged (disk c) (ph c))) (next_ctl c (acknowledged (disk c) (ph c))).
Proof.
  intros (_ & Hw & Hd & Hp). split; [done|]. split; [cbn; lia|]. split; [done|]. cbn [next_ctl ph].
  destruct (ph c) as [| | | |[] b| | |]; cbn [acknowledged phase_ok] in *; try done; [split; [constructor|cbn; lia]|].
  apply words_u32. intros l E. exact (map_Forall_lookup_1 _ _ _ _ Hd E).
Qed.

Lemma sim_write n d b ws x : sim_at (Ctl (Writing b ws) n d) (Ctl (Writing b ws) n d) → u32_ok x →
  sim_at (after_write 2 d b (ws ++ [x])) (after_write 2 d b (ws ++ [x])).
Proof.
  intros (_ & _ & Hd & Hws & Hl) Hx. cbn in Hws, Hl. assert (Hws' : Forall u32_ok (ws ++ [x])) by (by apply Forall_app; split; [|constructor]).
  unfold after_write. destruct (Nat.eqb_spec (length (ws ++ [x])) 128) as [E|Hne].
  - split; [done|]. split; [cbn; lia|]. split; [|done]. apply map_Forall_insert_2; [|exact Hd].
    split; [by rewrite length_le_array E|apply le_array_ok].
  - split; [done|]. split; [cbn; lia|]. split; [exact Hd|]. split; [done|]. rewrite length_app in Hne |- *. cbn in *. lia.
Qed.

Lemma sim_next c p : sim_at c c → phase_ok p → sim_at (next_ctl c p) (next_ctl c p).
Proof. intros (_ & _ & Hd & _) Hp. split; [done|]. split; [cbn; lia|]. by split. Qed.

Program Definition simcard_ok : Controller ctl := {| hc := true; at_ := sim_at |}.
Next Obligation. intros h c (_ & Hw & _). cbn in *. lia. Qed.
Next Obligation. by intros h c (_ & _ & Hd & _). Qed.
Next Obligation. intros h c n (-> & Hw & Hd & Hp). split; [done|]. split; [cbn; lia|by split]. Qed.
Next Obligation. intros h c Hat. pose proof Hat as [-> _]. exists c. by split. Qed.
Next Obligation.
  intros h c Hat Hne. pose proof Hat as [-> _]. exists 2%nat. cbn [mmio_write simcard]. unfold card_write.
  rewrite !Z.eqb_refl (proj2 (Z.eqb_neq _ _) Hne). cbn [andb negb]. by apply sim_ack.
Qed.
Next Obligation.
  intros h c Hat E. pose proof Hat as [-> _]. cbn [mmio_write simcard]. unfold card_write. by rewrite Z.eqb_refl E.
Qed.
Next Obligation. intros h c Hat _. pose proof Hat as [-> _]. by exists 0, c. Qed.
Next Obligation. intros h n d (-> & Hw & Hd & _). by split. Qed.
Next Obligation. intros h n d a (-> & Hw & Hd & _). by split. Qed.
Next Obligation.
  intros h n d w b Hat _. pose proof Hat as [-> _]. exists 2%nat. destruct w; by apply (sim_next (Ctl (Addressed b) n d)).
Qed.
Next Obligation. intros h n d w b Hat. pose proof Hat as [-> _]. exists 0. eexists. by split. Qed.
Next Obligation.
  intros h n d x ws Hat. pose proof Hat as (-> & _ & _ & Hp). cbn in Hp. apply Forall_cons in Hp as [Hx Hws].
  eexists _, 2%nat. split; [cbn [mmio_read simcard]; unfold card_read; cbn [ph]; by rewrite (u32_small x Hx)|].
  apply (sim_next (Ctl (Reading (x :: ws)) n d)); [done|]. by destruct ws.
Qed.
Next Obligation. intros h n d b ws x Hat Hx. pose proof Hat as [-> _]. exists 2%nat. by apply (sim_write n). Qed.
#[local] Existing Instance simcard_ok.

(** A card with two blocks of the second partition and an MBR. *)
Definition mbr : list Z := splice (splice zero_block 470 (le_bytes 4 BLOCKNO_OFFSET)) 474 (le_bytes 4 1000).
Definition disk0 : gmap Z (list Z) :=
  <[0 := mbr]> (<[0x20805 := zero_block]> (<[0x20806 := replicate 512 6]> ∅)).
Definition ready0 : driver ctl :=
  Driver (Host (Ctl Idle 0 disk0) (set_type SD_TYPE_2_HC HostExamples.no_card) 0 0)
    (Queue.mkQueue 0 0 0, ∅) (init_sem 0) {[0x8000 := mkBuf 0 0x20806 zero_block]}.

Lemma const_block x : byte_ok x → block_ok (replicate 512 x).
Proof. intros Hx. split; [done|]. by apply Forall_replicate. Qed.

Lemma disk0_ok : map_Forall (λ _, block_ok) disk0.
Proof.
  assert (byte_ok 0 ∧ byte_ok 6) as [H0 H6] by by split.
  apply map_Forall_insert_2.
  - split; [done|]. apply Forall_splice; [apply Forall_splice|]; [by apply Forall_replicate|apply le_bytes_ok..].
  - do 2 (apply map_Forall_insert_2; [by apply const_block|]). by intros ? ? ?.
Qed.

Lemma ready0_idle : idle SD_TYPE_2_HC 7 disk0 ready0.
Proof.
  split; [|done|done|done]. exists 0%nat. split; [|done]. split; [done|]. split; [cbn; lia|]. split; [exact disk0_ok|done].
Qed.

Definition ops0 : list dev_op :=
  [DevWrite 5 (replicate 512 9); DevRead zero_block 5; DevRead zero_block 6].

Lemma ops0_legal : Forall (dev_legal disk0) ops0.
Proof.
  repeat apply Forall_cons_2; try apply Forall_nil_2; (split; [|by apply const_block]); (split_and!; [done|by vm_compute|by eexists]).
Qed.


(** What the code does there. *)
Example dev_run_ops0 :
  match dev_run 7 0x8000 ops0 ready0 with
  | Ok (rs, _) => rs = [[]; replicate 512 9; replicate 512 6]
  | Fail _ => False
  end.
Proof. by vm_compute. Qed.

Lemma read_MBR_correct_witness :
  wp (read_MBR 0x8000) (λ r s', r = (le_value (slice mbr 470 4), le_value (slice mbr 474 4)) ∧ idle SD_TYPE_2_HC 7 disk0 s') ready0.
Proof. apply (read_MBR_correct SD_TYPE_2_HC 7 0x8000 mbr disk0 ready0 ready0_idle); [reflexivity|by vm_compute]. Defined.

Example mbr_parsed : le_value (slice mbr 470 4) = BLOCKNO_OFFSET ∧ le_value (slice mbr 474 4) = 1000.
Proof. by vm_compute. Qed.

Definition read6 : buf := mkBuf 0 0x20806 zero_block.
Lemma read6_ready : ready_buf disk0 read6.
Proof. split; [by apply const_block|done|by eexists]. Qed.

Lemma sdrw_lost_wakeup_witness :
  ∃ S1 S2, sd_step (Request 7 0x8000) (System ready0 ∅) S1 ∧ runs_on S1 S2 ∧
    S2.(drv).(bufs) !! 0x8000 = Some (served disk0 read6) ∧
    ∀ S3, runs_on S2 S3 → S3.(threads) !! 7 = Some (Sleeping 0x8000 0x8000 B_VALID).
Proof.
  apply (sdrw_lost_wakeup SD_TYPE_2_HC 7 0x8000 read6 disk0 ready0 ready0_idle); [reflexivity|exact read6_ready|by right|by vm_compute..].
Defined.

End CardExamples.
