(* ===== verification/Slab.v ===== *)
(** * The slab allocator

    [kalloc] and [kfree] of [src/kernel/mem.c].  A slab is a page with a header,
    a table of the free objects' numbers, the objects, and, in the first slab of
    a size, that size's cache at the end.  A slab and a cache are known by their
    addresses; the three lists of a cache are the sequences of their slabs'
    addresses from the head on ([LinkedList.v] has the pointers).  The pages
    come from an interface.  The theorems: objects handed out do not overlap
    one another, the slabs' headers or the caches, and freeing never fails. *)

From iris.prelude Require Import prelude.
From S2P Require Import Prelude Pages.
#[local] Open Scope Z_scope.

(** ** Data *)

Definition COLOUR_OFF : Z := 0.
Definition CPU_NUM : nat := 4.
Definition AC_LIMIT : Z := 10.
Definition sizeof_SlabNode : Z := 40.
Definition sizeof_CacheNode : Z := 440.

Record Array_cache : Type := mkArray { avail : Z; entry : list Z }.

Record CacheNode : Type := mkCache {
  pgorder : Z;
  num : Z;
  object_size : Z;
  colour_off : Z;
  array_cache : list Array_cache;
  slabs_partial : list Z;
  slabs_full : list Z;
  slabs_free : list Z;
}.

Record SlabNode : Type := mkSlab { colour : Z; active : Z; owner_cache : Z; freelist : list Z }.

(** What [kalloc] needs of [kalloc_page]: [None] is NULL. *)
Class PageSource (P : Type) := {
  kalloc_page : P → option (Z * P);
  kfree_page : Z → P → P;
  free_pages : P → gset Z;
  kalloc_page_takes : ∀ p a p', kalloc_page p = Some (a, p') →
    page_ok a ∧ a ∈ free_pages p ∧ free_pages p' = free_pages p ∖ {[a]};
}.

Record slab_state (P : Type) : Type := mkState {
  slabs : gmap Z SlabNode;
  caches : gmap Z CacheNode;
  kmem_cache_array : gmap Z Z;
  source : P;
}.
Arguments mkState {P} _ _ _ _.
Arguments slabs {P} _.
Arguments caches {P} _.
Arguments kmem_cache_array {P} _.
Arguments source {P} _.

(** ** Code *)

Section code.
Context {P : Type} `{PageSource P}.
Abbreviation M := (M (slab_state P)).

Definition set_slabs (x : gmap Z SlabNode) (s : slab_state P) : slab_state P := mkState x s.(caches) s.(kmem_cache_array) s.(source).
Definition set_caches (x : gmap Z CacheNode) (s : slab_state P) : slab_state P := mkState s.(slabs) x s.(kmem_cache_array) s.(source).
Definition set_array (x : gmap Z Z) (s : slab_state P) : slab_state P := mkState s.(slabs) s.(caches) x s.(source).
Definition set_source (x : P) (s : slab_state P) : slab_state P := mkState s.(slabs) s.(caches) s.(kmem_cache_array) x.
Definition upd_slab (a : Z) (f : SlabNode → SlabNode) : M unit := modify (λ s, set_slabs (alter f a s.(slabs)) s).
Definition upd_cache (c : Z) (f : CacheNode → CacheNode) : M unit := modify (λ s, set_caches (alter f c s.(caches)) s).
Definition slab (a : Z) : M SlabNode := m ← gets slabs; deref (m !! a).
Definition cache (c : Z) : M CacheNode := m ← gets caches; deref (m !! c).

Definition with_active (x : Z) (sn : SlabNode) : SlabNode := mkSlab sn.(colour) x sn.(owner_cache) sn.(freelist).
Definition with_owner (x : Z) (sn : SlabNode) : SlabNode := mkSlab sn.(colour) sn.(active) x sn.(freelist).
Definition with_freelist (x : list Z) (sn : SlabNode) : SlabNode := mkSlab sn.(colour) sn.(active) sn.(owner_cache) x.
Definition with_arrays (x : list Array_cache) (c : CacheNode) : CacheNode :=
  mkCache c.(pgorder) c.(num) c.(object_size) c.(colour_off) x c.(slabs_partial) c.(slabs_full) c.(slabs_free).
Definition with_lists (p f e : list Z) (c : CacheNode) : CacheNode :=
  mkCache c.(pgorder) c.(num) c.(object_size) c.(colour_off) c.(array_cache) p f e.

(** [_insert_into_list(&head, node)] and [_merge_list(node, &head)] put a single
    node at the front and at the end; [_detach_from_list(node)] takes it off
    the list it is on. *)
Definition to_partial (a : Z) (c : CacheNode) : CacheNode := with_lists (a :: c.(slabs_partial)) c.(slabs_full) c.(slabs_free) c.
Definition to_free (a : Z) (c : CacheNode) : CacheNode := with_lists c.(slabs_partial) c.(slabs_full) (a :: c.(slabs_free)) c.
Definition end_partial (a : Z) (c : CacheNode) : CacheNode := with_lists (c.(slabs_partial) ++ [a]) c.(slabs_full) c.(slabs_free) c.
Definition end_full (a : Z) (c : CacheNode) : CacheNode := with_lists c.(slabs_partial) (c.(slabs_full) ++ [a]) c.(slabs_free) c.
Definition detach (a : Z) (c : CacheNode) : CacheNode :=
  with_lists (filter (.≠ a) c.(slabs_partial)) (filter (.≠ a) c.(slabs_full)) (filter (.≠ a) c.(slabs_free)) c.

Definition init_slab_node (a obj_num : Z) : M unit :=
  modify (λ s, set_slabs (<[a := mkSlab 0 0 0 (zseq 0 obj_num)]> s.(slabs)) s).

(** The address of an object. *)
Definition obj_addr (a colour size obj_num i : Z) : Z :=
  a + sizeof_SlabNode + (4 * obj_num / 8 + 1) * 8 + colour + i * size.

Definition alloc_obj (a size obj_num : Z) : M Z :=
  sn ← slab a;
  i ← deref (sn.(freelist) !! Z.to_nat sn.(active));
  upd_slab a (with_active (sn.(active) + 1)) ;;
  mret (obj_addr a sn.(colour) size obj_num i).

Definition get_obj_index (a size obj_num obj : Z) : M Z :=
  sn ← slab a;
  if size =? 0 then fault
  else mret (i32 (u64 (obj - a - (4 * obj_num / 8 + 1) * 8 - sn.(colour) - sizeof_SlabNode) / size)).

Definition init_cache_node (size c n : Z) : M unit :=
  modify (λ s, set_caches (<[c := mkCache 0 n size COLOUR_OFF
    (replicate CPU_NUM (mkArray 0 (replicate (Z.to_nat AC_LIMIT) 0))) [] [] []]> s.(caches)) s).

(** [kmem_cache_array[size]]: an array of 2048 pointers. *)
Definition array_at (size : Z) : M (option Z) :=
  if (0 <=? size) && (size <? 2048) then gets (λ s, s.(kmem_cache_array) !! size) else fault.

(** A page for a slab; there is no test for NULL. *)
Definition slab_page : M Z :=
  p ← gets source;
  match kalloc_page p with
  | Some (a, p) => modify (set_source p) ;; mret a
  | None => fault
  end.

(** The end of three of the branches: a slab that has become full changes lists. *)
Definition full_check (a c : Z) : M unit :=
  sn ← slab a;
  cn ← cache c;
  if cn.(num) <=? sn.(active) then upd_cache c (end_full a ∘ detach a) else mret tt.

Definition objects_per_slab (size : Z) : Z :=
  (PAGE_SIZE - 3 * COLOUR_OFF - sizeof_SlabNode - 8 - sizeof_CacheNode) / (size + 4).

(** The first object of a size. *)
Definition kalloc_first (size : Z) : M Z :=
  a ← slab_page;
  let c := PAGE_BASE a + PAGE_SIZE - sizeof_CacheNode in
  modify (λ s, set_array (<[size := c]> s.(kmem_cache_array)) s) ;;
  let n := objects_per_slab size in
  init_cache_node size c n ;;
  init_slab_node a n ;;
  upd_slab a (with_owner c) ;;
  upd_cache c (to_partial a) ;;
  ret ← alloc_obj a size n;
  full_check a c ;;
  mret ret.

Definition kalloc_partial (size c a n : Z) : M Z :=
  ret ← alloc_obj a size n;
  full_check a c ;;
  mret ret.

Definition kalloc_free (size c a n : Z) : M Z :=
  ret ← alloc_obj a size n;
  upd_cache c (detach a) ;;
  sn ← slab a;
  cn ← cache c;
  upd_cache c (if cn.(num) <=? sn.(active) then end_full a else end_partial a) ;;
  mret ret.

Definition kalloc_new (size c n : Z) : M Z :=
  a ← slab_page;
  init_slab_node a n ;;
  upd_slab a (with_owner c) ;;
  upd_cache c (to_partial a) ;;
  ret ← alloc_obj a size n;
  full_check a c ;;
  mret ret.

Definition kalloc (cpu : nat) (size : Z) : M Z :=
  r ← array_at size;
  match r with
  | None => kalloc_first size
  | Some c =>
      cn ← cache c;
      ac ← deref (cn.(array_cache) !! cpu);
      if 0 <? ac.(avail) then
        upd_cache c (with_arrays (<[cpu := mkArray (ac.(avail) - 1) ac.(entry)]> cn.(array_cache))) ;;
        deref (ac.(entry) !! Z.to_nat (ac.(avail) - 1))
      else
        match cn.(slabs_partial), cn.(slabs_free) with
        | a :: _, _ => kalloc_partial size c a cn.(num)
        | [], a :: _ => kalloc_free size c a cn.(num)
        | [], [] => kalloc_new size c cn.(num)
        end
  end.

(** Gives the last object of a full array back to its slab. *)
Definition cache_flusharray (cpu : nat) (c : Z) : M unit :=
  cn ← cache c;
  ac ← deref (cn.(array_cache) !! cpu);
  let n := ac.(avail) - 1 in
  obj ← deref (ac.(entry) !! Z.to_nat n);
  upd_cache c (with_arrays (<[cpu := mkArray n ac.(entry)]> cn.(array_cache))) ;;
  let a := PAGE_BASE obj in
  sn ← slab a;
  upd_slab a (with_active (sn.(active) - 1)) ;;
  i ← get_obj_index a cn.(object_size) cn.(num) obj;
  (if (0 <=? sn.(active) - 1) && (sn.(active) - 1 <? Z.of_nat (length sn.(freelist)))
   then upd_slab a (with_freelist (<[Z.to_nat (sn.(active) - 1) := i]> sn.(freelist))) else fault) ;;
  upd_cache c (detach a) ;;
  sn ← slab a;
  if sn.(active) =? cn.(num) - 1 then upd_cache c (to_partial a)
  else if sn.(active) =? 0 then upd_cache c (to_free a)
  else mret tt.

Definition kfree (cpu : nat) (p : Z) : M unit :=
  owner ← slab (PAGE_BASE p);
  let c := owner.(owner_cache) in
  cn ← cache c;
  ac ← deref (cn.(array_cache) !! cpu);
  (if ac.(avail) =? AC_LIMIT then cache_flusharray cpu c else mret tt) ;;
  cn ← cache c;
  ac ← deref (cn.(array_cache) !! cpu);
  if (ac.(avail) <? 0) || (Z.of_nat (length ac.(entry)) <=? ac.(avail)) then fault
  else
    upd_cache c (with_arrays (<[cpu := mkArray (ac.(avail) + 1) (<[Z.to_nat ac.(avail) := p]> ac.(entry))]> cn.(array_cache))) ;;
    if (u32 (ac.(avail) + 1) =? 0) && bool_decide (cn.(slabs_full) = []) && bool_decide (cn.(slabs_partial) = [])
    then modify (λ s, set_source (kfree_page (PAGE_BASE p) s.(source)) s)
    else mret tt.
End code.

(** ** Addresses *)

Lemma page_base_split a off : a mod 4096 = 0 → 0 ≤ a → 0 ≤ off < 4096 → a + off < 2 ^ 64 → PAGE_BASE (a + off) = a.
Proof.
  intros Ha H0 Hoff Hlt. unfold PAGE_BASE. change (u64 (Z.lnot (PAGE_SIZE - 1))) with (Z.shiftl (Z.ones 52) 12).
  rewrite land_field // Z.shiftr_div_pow2 // Z.shiftl_mul_pow2 //. change (2 ^ 12) with 4096.
  assert (∃ q, a = q * 4096) as [q ->].
  { exists (a / 4096). pose proof (Z.div_mod a 4096 ltac:(done)) as Hd. lia. }
  rewrite Z.div_add_l // (Z.div_small off) // Z.add_0_r Z.mod_small //.
  change (2 ^ 52) with 4503599627370496. change (2 ^ 64) with (4503599627370496 * 4096) in Hlt. nia.
Qed.

(** Where the objects of a slab start. *)
Definition obj_base (n : Z) : Z := sizeof_SlabNode + (4 * n / 8 + 1) * 8.

(** The number of objects of a size fits in a slab, with the table and a cache. *)
Lemma objects_fit size : 1 ≤ size < 2048 →
  1 ≤ objects_per_slab size ≤ 721 ∧ obj_base (objects_per_slab size) + objects_per_slab size * size ≤ PAGE_SIZE - sizeof_CacheNode ∧
  sizeof_SlabNode + 4 * objects_per_slab size ≤ obj_base (objects_per_slab size).
Proof.
  intros Hs. unfold obj_base, objects_per_slab.
  change (PAGE_SIZE - 3 * COLOUR_OFF - sizeof_SlabNode - 8 - sizeof_CacheNode) with 3608.
  change sizeof_SlabNode with 40. change (PAGE_SIZE - sizeof_CacheNode) with 3656.
  pose proof (Z.div_mod 3608 (size + 4) ltac:(lia)) as Hd. pose proof (Z.mod_pos_bound 3608 (size + 4) ltac:(lia)) as Hm.
  set (n := 3608 / (size + 4)) in *. assert (1 ≤ n) by nia. assert (n ≤ 721) by nia.
  pose proof (Z.div_mod (4 * n) 8 ltac:(lia)) as Hd'. pose proof (Z.mod_pos_bound (4 * n) 8 ltac:(lia)) as Hm'.
  set (q := 4 * n / 8) in *. assert ((size + 4) * n = n * size + 4 * n) by ring. lia.
Qed.

Lemma obj_addr_0 a size n i : obj_addr a 0 size n i = a + obj_base n + i * size.
Proof. unfold obj_addr, obj_base. lia. Qed.

Lemma obj_in_page a size i : page_ok a → 1 ≤ size < 2048 → 0 ≤ i < objects_per_slab size →
  PAGE_BASE (obj_addr a 0 size (objects_per_slab size) i) = a.
Proof.
  intros [[Hk H64] Hp] Hs Hi. destruct (objects_fit size Hs) as (Hn & Hfit & Htab). rewrite obj_addr_0 -Z.add_assoc.
  unfold PAGE_SIZE, sizeof_CacheNode, sizeof_SlabNode, KSPACE_MASK in *.
  apply page_base_split; [done|lia|nia|].
  pose proof (Z.div_mod a 4096 ltac:(done)) as Hd. rewrite Hp in Hd.
  change (2 ^ 64) with (4096 * 4503599627370496) in *. nia.
Qed.

Lemma obj_addr_inj a size n i j : 1 ≤ size → obj_addr a 0 size n i = obj_addr a 0 size n j → i = j.
Proof. intros Hs. rewrite !obj_addr_0. nia. Qed.

(** ** Invariant *)

Section invariant.
Context {P : Type} `{PageSource P}.
Implicit Types s : slab_state P.
Implicit Types L : gmap Z Z.

(** The objects an array holds, and those of a cache's four arrays. *)
Definition held (ac : Array_cache) : list Z := take (Z.to_nat ac.(avail)) ac.(entry).
Definition cached (cn : CacheNode) : list Z := concat (held <$> cn.(array_cache)).
Definition array_ok (ac : Array_cache) : Prop := 0 ≤ ac.(avail) ≤ AC_LIMIT ∧ Z.of_nat (length ac.(entry)) = AC_LIMIT.

(** [x] is the address of an object of the slabs of cache [c]. *)
Definition object s (c x : Z) : Prop :=
  ∃ sn cn i, s.(slabs) !! PAGE_BASE x = Some sn ∧ sn.(owner_cache) = c ∧ s.(caches) !! c = Some cn ∧
    0 ≤ i < cn.(num) ∧ x = obj_addr (PAGE_BASE x) 0 cn.(object_size) cn.(num) i.

(** Handed out to a caller ([L] maps the live objects to the sizes asked for)
    or kept in an array. *)
Definition out s L (x : Z) : Prop := is_Some (L !! x) ∨ ∃ c cn, s.(caches) !! c = Some cn ∧ x ∈ cached cn.

Record cache_ok s (c : Z) (cn : CacheNode) : Prop := {
  c_size : 1 ≤ cn.(object_size) < 2048;
  c_num : cn.(num) = objects_per_slab cn.(object_size);
  c_arrays : length cn.(array_cache) = CPU_NUM ∧ Forall array_ok cn.(array_cache);
  c_index : s.(kmem_cache_array) !! cn.(object_size) = Some c;
  c_place : ∃ a sn, s.(slabs) !! a = Some sn ∧ c = a + PAGE_SIZE - sizeof_CacheNode;
  c_nodup : NoDup (cached cn);
  c_objects : ∀ x, x ∈ cached cn → object s c x;
}.

(** The table of a slab lists, from [active] on, the objects that are not out. *)
Record slab_ok s L (a : Z) (sn : SlabNode) : Prop := {
  s_page : page_ok a ∧ a ∉ free_pages s.(source);
  s_colour : sn.(colour) = 0;
  s_cache : ∃ cn, s.(caches) !! sn.(owner_cache) = Some cn ∧ Z.of_nat (length sn.(freelist)) = cn.(num) ∧
    0 ≤ sn.(active) ≤ cn.(num) ∧ NoDup (drop (Z.to_nat sn.(active)) sn.(freelist)) ∧
    ∀ i, i ∈ drop (Z.to_nat sn.(active)) sn.(freelist) ↔
         0 ≤ i < cn.(num) ∧ ¬ out s L (obj_addr a 0 cn.(object_size) cn.(num) i);
}.

Record core L s : Prop := {
  i_slabs : ∀ a sn, s.(slabs) !! a = Some sn → slab_ok s L a sn;
  i_caches : ∀ c cn, s.(caches) !! c = Some cn → cache_ok s c cn ∧ ∀ x, x ∈ cached cn → L !! x = None;
  i_array : ∀ size c, s.(kmem_cache_array) !! size = Some c → ∃ cn, s.(caches) !! c = Some cn ∧ cn.(object_size) = size;
  i_live : ∀ x size, L !! x = Some size → ∃ c cn, object s c x ∧ s.(caches) !! c = Some cn ∧ cn.(object_size) = size;
}.

(** The slabs that [kalloc] looks at have a free object, those of [E] excepted. *)
Definition lists_ok (E : Z → Prop) s : Prop := ∀ c cn a, s.(caches) !! c = Some cn →
  a ∈ cn.(slabs_partial) ++ cn.(slabs_free) → ∃ sn, s.(slabs) !! a = Some sn ∧ sn.(owner_cache) = c ∧ (sn.(active) < cn.(num) ∨ E a).

Definition slab_inv L s : Prop := core L s ∧ lists_ok (λ _, False) s.

(** *** Arrays *)

Lemma cached_at cn cpu ac :
  cn.(array_cache) !! cpu = Some ac → ∃ l1 l2, cached cn = l1 ++ held ac ++ l2 ∧
    ∀ ac', cached (with_arrays (<[cpu := ac']> cn.(array_cache)) cn) = l1 ++ held ac' ++ l2.
Proof.
  intros Hac. exists (concat (held <$> take cpu cn.(array_cache))), (concat (held <$> drop (S cpu) cn.(array_cache))).
  unfold cached. cbn. split.
  - by rewrite -{1}(take_drop_middle _ _ _ Hac) fmap_app concat_app.
  - intros ac'. rewrite (insert_take_drop _ _ _ (lookup_lt_Some _ _ _ Hac)) fmap_app concat_app //.
Qed.

Lemma held_pop ac : array_ok ac → 0 < ac.(avail) →
  ∃ x, ac.(entry) !! Z.to_nat (ac.(avail) - 1) = Some x ∧ held ac = held (mkArray (ac.(avail) - 1) ac.(entry)) ++ [x] ∧
    array_ok (mkArray (ac.(avail) - 1) ac.(entry)).
Proof.
  intros [Ha Hl] Hp. destruct (lookup_lt_is_Some_2 ac.(entry) (Z.to_nat (ac.(avail) - 1))) as [x Hx]; [lia|].
  exists x. split; [done|]. unfold held. cbn. split.
  - replace (Z.to_nat ac.(avail)) with (S (Z.to_nat (ac.(avail) - 1))) by lia. by apply take_S_r.
  - split; cbn; [lia|done].
Qed.

Lemma held_push ac x : array_ok ac → ac.(avail) < AC_LIMIT →
  held (mkArray (ac.(avail) + 1) (<[Z.to_nat ac.(avail) := x]> ac.(entry))) = held ac ++ [x] ∧
  array_ok (mkArray (ac.(avail) + 1) (<[Z.to_nat ac.(avail) := x]> ac.(entry))).
Proof.
  intros [Ha Hl] Hp. split.
  - unfold held. cbn. replace (Z.to_nat (ac.(avail) + 1)) with (S (Z.to_nat ac.(avail))) by lia.
    rewrite (take_S_r _ _ x); [|apply list_lookup_insert_eq; lia]. by rewrite take_insert_ge.
  - split; cbn; [lia|]. by rewrite length_insert.
Qed.

Lemma array_of L s c cn cpu : core L s → s.(caches) !! c = Some cn → (cpu < CPU_NUM)%nat →
  ∃ ac, cn.(array_cache) !! cpu = Some ac ∧ array_ok ac.
Proof.
  intros Hs Hc Hcpu. destruct (i_caches L s Hs _ _ Hc) as [[_ _ [Hl Hf] _ _ _ _] _].
  destruct (lookup_lt_is_Some_2 cn.(array_cache) cpu) as [ac Hac]; [lia|]. exists ac. split; [done|].
  by eapply Forall_lookup_1.
Qed.

(** *** Changes of a cache *)

(** What stays when a cache's arrays and lists change. *)
Record same_shape (cn cn' : CacheNode) : Prop := {
  h_size : cn'.(object_size) = cn.(object_size);
  h_num : cn'.(num) = cn.(num);
}.

Lemma object_upd s c cn cn' c1 x : s.(caches) !! c = Some cn → same_shape cn cn' →
  object s c1 x → object (set_caches (<[c := cn']> s.(caches)) s) c1 x.
Proof.
  intros Hc [Es En] (sn & cn1 & i & Hsn & Ho & Hc1 & Hi & Ex). destruct (decide (c1 = c)) as [->|Hne].
  - rewrite Hc in Hc1. injection Hc1 as <-. exists sn, cn', i. cbn. rewrite lookup_insert_eq Es En. done.
  - exists sn, cn1, i. cbn. rewrite lookup_insert_ne //.
Qed.

Lemma core_upd L L' s c cn cn' (s' := set_caches (<[c := cn']> s.(caches)) s) :
  core L s → s.(caches) !! c = Some cn → same_shape cn cn' →
  length cn'.(array_cache) = CPU_NUM → Forall array_ok cn'.(array_cache) →
  (∀ x, out s' L' x ↔ out s L x) → NoDup (cached cn') → (∀ x, x ∈ cached cn' → object s c x) →
  (∀ c1 cn1 x, s'.(caches) !! c1 = Some cn1 → x ∈ cached cn1 → L' !! x = None) →
  (∀ x size, L' !! x = Some size → ∃ c1 cn1, object s c1 x ∧ s.(caches) !! c1 = Some cn1 ∧ cn1.(object_size) = size) →
  core L' s'.
Proof.
  intros Hs Hc Hsh Hl Hf Hout Hnd Hobj Hdis Hlive. pose proof Hsh as [Es En].
  assert (Hs' : s'.(caches) = <[c := cn']> s.(caches) ∧ s'.(slabs) = s.(slabs) ∧ s'.(kmem_cache_array) = s.(kmem_cache_array) ∧ s'.(source) = s.(source)) by done.
  assert (Hobj' : ∀ c1 x, object s c1 x → object s' c1 x) by (intros; by eapply object_upd).
  clearbody s'. destruct Hs' as (E1 & E2 & E3 & E4). split.
  - intros a sn Ha. rewrite E2 in Ha. destruct (i_slabs L s Hs a sn Ha) as [Hp Hcol (cn1 & Hc1 & Hfl & [Ha1 Ha2] & Hn & Hiff)].
    split; [by rewrite E4|done|]. destruct (decide (sn.(owner_cache) = c)) as [E|Hne].
    + rewrite E Hc in Hc1. injection Hc1 as <-. exists cn'. rewrite E1 E lookup_insert_eq En Es. split_and!; try done.
      intros i. rewrite Hout. apply Hiff.
    + exists cn1. rewrite E1 lookup_insert_ne //. split_and!; try done. intros i. rewrite Hout. apply Hiff.
  - intros c1 cn1 Hc1. split; [|by eauto]. rewrite E1 in Hc1. destruct (decide (c1 = c)) as [->|Hne].
    + rewrite lookup_insert_eq in Hc1. injection Hc1 as <-.
      destruct (i_caches L s Hs _ _ Hc) as [[] _]. split; rewrite ?Es ?En ?E2 ?E3 //. intros x Hx. by apply Hobj', Hobj.
    + rewrite lookup_insert_ne // in Hc1. destruct (i_caches L s Hs _ _ Hc1) as [[] _]. split; rewrite ?E2 ?E3 //.
      intros x Hx. by apply Hobj', c_objects0.
  - intros size c1 Hsz. rewrite E3 in Hsz. destruct (i_array L s Hs _ _ Hsz) as (cn1 & Hc1 & Esz). rewrite E1.
    destruct (decide (c1 = c)) as [->|Hne].
    + exists cn'. rewrite lookup_insert_eq. rewrite Hc in Hc1. injection Hc1 as <-. by rewrite Es.
    + exists cn1. by rewrite lookup_insert_ne.
  - intros x size Hx. destruct (Hlive x size Hx) as (c1 & cn1 & Ho & Hc1 & Esz). rewrite E1. destruct (decide (c1 = c)) as [->|Hne].
    + exists c, cn'. rewrite Hc in Hc1. injection Hc1 as <-. rewrite lookup_insert_eq Es. split_and!; [by apply Hobj'|done..].
    + exists c1, cn1. rewrite lookup_insert_ne //. split_and!; [by apply Hobj'|done..].
Qed.

(** The three lists do not matter to it. *)
Lemma core_lists L s c cn p f e : core L s → s.(caches) !! c = Some cn →
  core L (set_caches (<[c := with_lists p f e cn]> s.(caches)) s).
Proof.
  intros Hs Hc. destruct (i_caches L s Hs _ _ Hc) as [[_ _ [Hl Hf] _ _ Hnd Hob] Hdis].
  eapply core_upd; try done.
  - intros x. unfold out. cbn. split; intros [Hx|(c1 & cn1 & Hc1 & Hx)]; [by left| |by left|].
    + right. destruct (decide (c1 = c)) as [->|Hne].
      * rewrite lookup_insert_eq in Hc1. injection Hc1 as <-. by exists c, cn.
      * rewrite lookup_insert_ne // in Hc1. by exists c1, cn1.
    + right. destruct (decide (c1 = c)) as [->|Hne].
      * exists c, (with_lists p f e cn). rewrite lookup_insert_eq. rewrite Hc in Hc1. by injection Hc1 as <-.
      * exists c1, cn1. by rewrite lookup_insert_ne.
  - intros c1 cn1 x. cbn. destruct (decide (c1 = c)) as [->|Hne].
    + rewrite lookup_insert_eq. intros [= <-]. apply Hdis.
    + rewrite lookup_insert_ne //. intros Hc1. by apply (i_caches L s Hs _ _ Hc1).
  - apply (i_live L s Hs).
Qed.

(** An object belongs to one cache only. *)
Lemma object_cache s c c' x : object s c x → object s c' x → c = c'.
Proof. intros (sn & cn & i & Hsn & <- & _) (sn' & cn' & i' & Hsn' & <- & _). congruence. Qed.

(** *** Objects between a caller and an array *)

(** One object less in an array. *)
Lemma cached_swap cn cpu ac ac' x :
  cn.(array_cache) !! cpu = Some ac → held ac = held ac' ++ [x] →
  cached cn ≡ₚ x :: cached (with_arrays (<[cpu := ac']> cn.(array_cache)) cn).
Proof.
  intros Hac Hh. destruct (cached_at _ _ _ Hac) as (l1 & l2 & E & E'). rewrite E E' Hh.
  rewrite !(assoc_L (++)) -(assoc_L (++) (l1 ++ held ac')) /=. by rewrite -Permutation_middle.
Qed.

(** One object more. *)
Lemma cached_swap' cn cpu ac ac' x :
  cn.(array_cache) !! cpu = Some ac → held ac' = held ac ++ [x] →
  cached (with_arrays (<[cpu := ac']> cn.(array_cache)) cn) ≡ₚ x :: cached cn.
Proof.
  intros Hac Hh. destruct (cached_at _ _ _ Hac) as (l1 & l2 & E & E'). rewrite E E' Hh.
  rewrite !(assoc_L (++)) -(assoc_L (++) (l1 ++ held ac)) /=. by rewrite -Permutation_middle.
Qed.

Lemma arrays_ok cn cpu ac' : Forall array_ok cn.(array_cache) → array_ok ac' →
  Forall array_ok (<[cpu := ac']> cn.(array_cache)).
Proof. intros Hf Ha. by apply Forall_insert. Qed.

(** What is out of a cache replaced by another. *)
Lemma out_upd s L c cn cn' y : s.(caches) !! c = Some cn →
  out (set_caches (<[c := cn']> s.(caches)) s) L y ↔
  is_Some (L !! y) ∨ y ∈ cached cn' ∨ ∃ c1 cn1, c1 ≠ c ∧ s.(caches) !! c1 = Some cn1 ∧ y ∈ cached cn1.
Proof.
  intros Hc. unfold out. cbn. split.
  - intros [Hy|(c1 & cn1 & Hc1 & Hy)]; [by left|right]. destruct (decide (c1 = c)) as [->|Hne].
    + rewrite lookup_insert_eq in Hc1. injection Hc1 as <-. by left.
    + rewrite lookup_insert_ne // in Hc1. right. by exists c1, cn1.
  - intros [Hy|[Hy|(c1 & cn1 & Hne & Hc1 & Hy)]]; [by left|right..].
    + exists c, cn'. by rewrite lookup_insert_eq.
    + exists c1, cn1. by rewrite lookup_insert_ne.
Qed.
Lemma out_split s L c cn y : s.(caches) !! c = Some cn →
  out s L y ↔ is_Some (L !! y) ∨ y ∈ cached cn ∨ ∃ c1 cn1, c1 ≠ c ∧ s.(caches) !! c1 = Some cn1 ∧ y ∈ cached cn1.
Proof. intros Hc. rewrite -(out_upd s L c cn cn) //. rewrite insert_id //. Qed.

Lemma cached_other L s c c1 cn1 x : core L s → object s c x → s.(caches) !! c1 = Some cn1 → x ∈ cached cn1 → c1 = c.
Proof.
  intros Hs Ho Hc1 Hx. destruct (i_caches L s Hs _ _ Hc1) as [[] _]. eapply object_cache; [by apply c_objects0|done].
Qed.

(** Handed out from an array. *)
Lemma core_pop L s c cn cpu ac : core L s → s.(caches) !! c = Some cn → cn.(array_cache) !! cpu = Some ac → 0 < ac.(avail) →
  ∃ x, ac.(entry) !! Z.to_nat (ac.(avail) - 1) = Some x ∧ x ∈ cached cn ∧ L !! x = None ∧ object s c x ∧
    core (<[x := cn.(object_size)]> L)
      (set_caches (<[c := with_arrays (<[cpu := mkArray (ac.(avail) - 1) ac.(entry)]> cn.(array_cache)) cn]> s.(caches)) s).
Proof.
  intros Hs Hc Hac Hp. destruct (i_caches L s Hs _ _ Hc) as [[Hsz Hnum [Hl Hf] Hix Hpl Hnd Hob] Hdis].
  destruct (held_pop ac (Forall_lookup_1 _ _ _ _ Hf Hac) Hp) as (x & Hx & Hh & Hok).
  pose proof (cached_swap cn cpu ac _ x Hac Hh) as Hperm. set (cn' := with_arrays _ cn) in *.
  assert (Hxc : x ∈ cached cn) by (rewrite Hperm; by left).
  assert (Hnd' : NoDup (x :: cached cn')) by (by rewrite -Hperm). apply NoDup_cons in Hnd' as [Hx' Hnd'].
  exists x. split; [done|]. split; [done|]. split; [by apply Hdis|]. split; [by apply Hob|].
  assert (Hsub : ∀ y, y ∈ cached cn' → y ∈ cached cn) by (intros y Hy; rewrite Hperm; by right).
  eapply core_upd; try done.
  - by rewrite /= length_insert.
  - by apply arrays_ok.
  - intros y. rewrite (out_upd _ _ _ cn) // (out_split s L c cn) // Hperm elem_of_cons lookup_insert_is_Some.
    destruct (decide (x = y)) as [->|]; naive_solver.
  - intros y Hy. by apply Hob, Hsub.
  - intros c1 cn1 y. cbn. destruct (decide (c1 = c)) as [->|Hne].
    + rewrite lookup_insert_eq. intros [= <-] Hy. rewrite lookup_insert_ne; [|by intros ->]. by apply Hdis, Hsub.
    + rewrite lookup_insert_ne //. intros Hc1 Hy. rewrite lookup_insert_ne; [by apply (i_caches L s Hs _ _ Hc1)|].
      intros ->. apply Hne. by apply (cached_other L s c c1 cn1 y Hs (Hob y Hxc)).
  - intros y size. destruct (decide (y = x)) as [->|Hne].
    + rewrite lookup_insert_eq. intros [= <-]. exists c, cn. split_and!; [by apply Hob|done..].
    + rewrite lookup_insert_ne //. apply (i_live L s Hs).
Qed.

(** Given back to an array. *)
Lemma core_push L s c cn cpu ac x size : core L s → s.(caches) !! c = Some cn → cn.(array_cache) !! cpu = Some ac →
  ac.(avail) < AC_LIMIT → L !! x = Some size → object s c x →
  core (delete x L) (set_caches (<[c := with_arrays
    (<[cpu := mkArray (ac.(avail) + 1) (<[Z.to_nat ac.(avail) := x]> ac.(entry))]> cn.(array_cache)) cn]> s.(caches)) s).
Proof.
  intros Hs Hc Hac Hp HL Hx. destruct (i_caches L s Hs _ _ Hc) as [[Hsz Hnum [Hl Hf] Hix Hpl Hnd Hob] Hdis].
  destruct (held_push ac x (Forall_lookup_1 _ _ _ _ Hf Hac) Hp) as (Hh & Hok).
  pose proof (cached_swap' cn cpu ac _ x Hac Hh) as Hperm. set (cn' := with_arrays _ cn) in *.
  assert (Hxc : x ∉ cached cn) by (intros Hx'; by rewrite Hdis in HL).
  eapply core_upd; try done.
  - by rewrite /= length_insert.
  - by apply arrays_ok.
  - intros y. rewrite (out_upd _ _ _ cn) // (out_split s L c cn) // Hperm elem_of_cons lookup_delete_is_Some.
    destruct (decide (x = y)) as [->|]; naive_solver.
  - rewrite Hperm. by apply NoDup_cons.
  - intros y. rewrite Hperm elem_of_cons. intros [->|Hy]; [done|by apply Hob].
  - intros c1 cn1 y. cbn. destruct (decide (c1 = c)) as [->|Hne].
    + rewrite lookup_insert_eq. intros [= <-]. rewrite Hperm elem_of_cons. intros [->|Hy]; [apply lookup_delete_eq|].
      rewrite lookup_delete_None. right. by apply Hdis.
    + rewrite lookup_insert_ne //. intros Hc1 Hy. rewrite lookup_delete_None. right. by apply (i_caches L s Hs _ _ Hc1).
  - intros y sz. rewrite lookup_delete_Some. intros [_ Hy]. by apply (i_live L s Hs).
Qed.

(** *** Objects between a caller and a slab *)

Lemma slab_object L s a sn cn i : core L s → s.(slabs) !! a = Some sn → s.(caches) !! sn.(owner_cache) = Some cn →
  0 ≤ i < cn.(num) → PAGE_BASE (obj_addr a 0 cn.(object_size) cn.(num) i) = a ∧
    object s sn.(owner_cache) (obj_addr a 0 cn.(object_size) cn.(num) i).
Proof.
  intros Hs Ha Hc Hi. destruct (i_caches L s Hs _ _ Hc) as [[Hsz Hn _ _ _ _ _] _].
  destruct (i_slabs L s Hs _ _ Ha) as [[Hp _] _ _].
  assert (Hb : PAGE_BASE (obj_addr a 0 cn.(object_size) cn.(num) i) = a) by (rewrite Hn in Hi |- *; by apply obj_in_page).
  split; [done|]. exists sn, cn, i. by rewrite Hb.
Qed.

(** The table of slab [a] changes and one object [x] of it comes or goes. *)
Lemma core_slab L L' s a sn sn' x (s' := set_slabs (<[a := sn']> s.(slabs)) s) :
  core L s → s.(slabs) !! a = Some sn → sn'.(owner_cache) = sn.(owner_cache) → sn'.(colour) = 0 →
  PAGE_BASE x = a → (∀ y, y ≠ x → L' !! y = L !! y) →
  slab_ok s' L' a sn' →
  (∀ c cn y, s.(caches) !! c = Some cn → y ∈ cached cn → y ≠ x) →
  (∀ size, L' !! x = Some size → ∃ cn, object s sn.(owner_cache) x ∧ s.(caches) !! sn.(owner_cache) = Some cn ∧ cn.(object_size) = size) →
  core L' s'.
Proof.
  intros Hs Ha Ho Hcol Hx HL Hok Hne Hlive.
  assert (Hobj : ∀ c y, object s c y → object s' c y).
  { intros c y (sn1 & cn1 & i & Hsn & Hc & Hcn & Hi & Hy). destruct (decide (PAGE_BASE y = a)) as [E|Hn].
    - exists sn', cn1, i. split; [cbn; by rewrite E lookup_insert_eq|]. split; [congruence|done].
    - exists sn1, cn1, i. split; [cbn; by rewrite lookup_insert_ne|done]. }
  assert (E1 : s'.(slabs) = <[a := sn']> s.(slabs)) by done. assert (E2 : s'.(caches) = s.(caches)) by done.
  assert (E3 : s'.(kmem_cache_array) = s.(kmem_cache_array)) by done. assert (E4 : s'.(source) = s.(source)) by done.
  clearbody s'. split.
  - intros b snb Hb. rewrite E1 in Hb. destruct (decide (b = a)) as [->|Hn].
    { rewrite lookup_insert_eq in Hb. by injection Hb as <-. }
    rewrite lookup_insert_ne // in Hb. destruct (i_slabs L s Hs _ _ Hb) as [Hp Hc (cn & Hcn & Hfl & [? ?] & Hnd & Hiff)].
    split; [by rewrite E4|done|]. exists cn. rewrite E2. split_and!; try done. intros i. rewrite Hiff.
    assert (Heq : 0 ≤ i < cn.(num) → out s' L' (obj_addr b 0 cn.(object_size) cn.(num) i) ↔ out s L (obj_addr b 0 cn.(object_size) cn.(num) i)).
    { intros Hi. unfold out. rewrite E2 HL //. intros E. apply Hn.
      by rewrite -Hx -E (proj1 (slab_object L s b snb cn i Hs Hb Hcn Hi)). }
    naive_solver.
  - intros c cn Hc. rewrite E2 in Hc. destruct (i_caches L s Hs _ _ Hc) as [[Hsz Hn Har Hix (b & snb & Hb & Hpl) Hnd Hob] Hdis]. split.
    + split; try done; [by rewrite E3| |by intros y Hy; apply Hobj, Hob]. rewrite E1. destruct (decide (b = a)) as [->|Hn'].
      * exists a, sn'. by rewrite lookup_insert_eq.
      * exists b, snb. by rewrite lookup_insert_ne.
    + intros y Hy. rewrite HL; [by apply Hdis|by eapply Hne].
  - intros size c Hc. rewrite E3 in Hc. rewrite E2. by apply (i_array L s Hs).
  - intros y size Hy. rewrite E2. destruct (decide (y = x)) as [->|Hn].
    + destruct (Hlive size Hy) as (cn & Hxo & Hcn & Es). exists sn.(owner_cache), cn. by eauto.
    + rewrite HL // in Hy. destruct (i_live L s Hs _ _ Hy) as (c & cn & Hyo & Hcn & Es). exists c, cn. by eauto.
Qed.

Lemma core_alloc L s a sn cn : core L s → s.(slabs) !! a = Some sn → s.(caches) !! sn.(owner_cache) = Some cn →
  sn.(active) < cn.(num) →
  ∃ i, sn.(freelist) !! Z.to_nat sn.(active) = Some i ∧
    let x := obj_addr a 0 cn.(object_size) cn.(num) i in
    L !! x = None ∧ object s sn.(owner_cache) x ∧
    core (<[x := cn.(object_size)]> L) (set_slabs (<[a := with_active (sn.(active) + 1) sn]> s.(slabs)) s).
Proof.
  intros Hs Ha Hc Hact. destruct (i_slabs L s Hs _ _ Ha) as [Hp Hcol (cn' & Hc' & Hfl & [Ha1 Ha2] & Hnd & Hiff)].
  rewrite Hc in Hc'. injection Hc' as <-.
  destruct (lookup_lt_is_Some_2 sn.(freelist) (Z.to_nat sn.(active))) as [i Hi]; [lia|]. exists i. split; [done|]. intros x.
  rewrite (drop_S _ _ _ Hi) in Hnd Hiff. apply NoDup_cons in Hnd as [Hni Hnd].
  destruct (proj1 (Hiff i) ltac:(by left)) as [Hib Hout]. fold x in Hout.
  destruct (slab_object L s a sn cn i Hs Ha Hc Hib) as [Hb Hob]. fold x in Hb, Hob.
  destruct (i_caches L s Hs _ _ Hc) as [[Hsz _ _ _ _ _ _] _].
  assert (HL : L !! x = None) by (apply eq_None_not_Some; intros Hx; apply Hout; by left).
  split; [done|]. split; [done|].
  eapply (core_slab L _ s a sn _ x); try done.
  - intros y Hy. by rewrite lookup_insert_ne.
  - split; [done|done|]. exists cn. cbn. replace (Z.to_nat (sn.(active) + 1)) with (S (Z.to_nat sn.(active))) by lia.
    split_and!; try done; [lia..|]. intros j. split.
    + intros Hj. destruct (proj1 (Hiff j) ltac:(by right)) as [Hjb Hjo]. split; [done|]. intros [Hj'|Hj']; apply Hjo; [|by right].
      left. rewrite lookup_insert_ne // in Hj'. intros E. apply obj_addr_inj in E; [|lia]. by rewrite E in Hni.
    + intros [Hjb Hjo]. assert (j ∈ i :: drop (S (Z.to_nat sn.(active))) sn.(freelist)) as [->|Hj]%elem_of_cons; [| |done].
      * apply Hiff. split; [done|]. intros Hj. apply Hjo. destruct Hj as [Hj|Hj]; [|by right]. left. apply lookup_insert_is_Some'. by right.
      * exfalso. apply Hjo. left. unfold x. rewrite lookup_insert_eq. by eexists.
  - intros c1 cn1 y Hc1 Hy ->. apply Hout. right. by exists c1, cn1.
  - intros size. rewrite lookup_insert_eq. intros [= <-]. by exists cn.
Qed.

Lemma nodup_bound (l : list Z) n : NoDup l → (∀ i, i ∈ l → 0 ≤ i < n) → Z.of_nat (length l) ≤ Z.max 0 n.
Proof.
  intros Hnd Hb. assert (Hsub : l ⊆+ zseq 0 n) by (apply NoDup_submseteq; [done|]; intros i Hi; by apply elem_of_zseq, Hb).
  apply submseteq_length in Hsub. rewrite length_zseq in Hsub. lia.
Qed.

Lemma nodup_zseq lo hi : NoDup (zseq lo hi).
Proof. unfold zseq. apply NoDup_fmap_2; [intros x y; lia|]. apply NoDup_seq. Qed.

(** Given back to its slab. *)
Lemma core_give L s a sn cn i size (x := obj_addr a 0 cn.(object_size) cn.(num) i) :
  core L s → s.(slabs) !! a = Some sn → s.(caches) !! sn.(owner_cache) = Some cn → 0 ≤ i < cn.(num) → L !! x = Some size →
  1 ≤ sn.(active) ≤ Z.of_nat (length sn.(freelist)) ∧
  core (delete x L) (set_slabs (<[a := with_freelist (<[Z.to_nat (sn.(active) - 1) := i]> sn.(freelist))
    (with_active (sn.(active) - 1) sn)]> s.(slabs)) s).
Proof.
  intros Hs Ha Hc Hi HL. destruct (i_slabs L s Hs _ _ Ha) as [Hp Hcol (cn' & Hc' & Hfl & [Ha1 Ha2] & Hnd & Hiff)].
  rewrite Hc in Hc'. injection Hc' as <-. destruct (i_caches L s Hs _ _ Hc) as [[Hsz _ _ _ _ _ _] _].
  destruct (slab_object L s a sn cn i Hs Ha Hc Hi) as [Hb Hob]. fold x in Hb, Hob.
  assert (Hni : i ∉ drop (Z.to_nat sn.(active)) sn.(freelist)).
  { intros [_ Hout]%Hiff. apply Hout. left. by exists size. }
  assert (Hact : 1 ≤ sn.(active)).
  { pose proof (nodup_bound (i :: drop (Z.to_nat sn.(active)) sn.(freelist)) cn.(num)) as Hlen.
    cbn [length] in Hlen. rewrite length_drop in Hlen. assert (Hlt : Z.of_nat (S (length (freelist sn) - Z.to_nat (active sn))) ≤ Z.max 0 cn.(num)); [|lia].
    apply Hlen; [by apply NoDup_cons|]. intros j [->|Hj]%elem_of_cons; [done|]. by apply Hiff. }
  split; [lia|].
  assert (Hdrop : drop (Z.to_nat (sn.(active) - 1)) (<[Z.to_nat (sn.(active) - 1) := i]> sn.(freelist)) =
                  i :: drop (Z.to_nat sn.(active)) sn.(freelist)).
  { replace (Z.to_nat sn.(active)) with (S (Z.to_nat (sn.(active) - 1))) by lia.
    rewrite (drop_S _ i); [|apply list_lookup_insert_eq; lia]. by rewrite drop_insert_lt; [|lia]. }
  eapply (core_slab L _ s a sn _ x); try done.
  - intros y Hy. by rewrite lookup_delete_ne.
  - split; [done|done|]. exists cn. cbn. rewrite Hdrop length_insert. split_and!; try done; [lia..|by apply NoDup_cons|].
    intros j. rewrite elem_of_cons Hiff. split.
    + intros [->|[Hj Ho]]; split; try done.
      * intros [Hx|Hx]; [by rewrite lookup_delete_eq in Hx; destruct Hx|].
        destruct Hx as (c1 & cn1 & Hc1 & Hx). by rewrite (proj2 (i_caches L s Hs _ _ Hc1) x Hx) in HL.
      * intros [Hx|Hx]; apply Ho; [left|by right]. rewrite lookup_delete_is_Some in Hx. by destruct Hx.
    + intros [Hj Ho]. destruct (decide (j = i)) as [->|Hne]; [by left|right]. split; [done|].
      intros [Hx|Hx]; apply Ho; [left|by right]. rewrite lookup_delete_is_Some. split; [|done].
      intros E. apply obj_addr_inj in E; [done|lia].
  - intros c1 cn1 y Hc1 Hy ->. by rewrite (proj2 (i_caches L s Hs _ _ Hc1) x Hy) in HL.
  - intros sz. by rewrite lookup_delete_eq.
Qed.

(** *** A new slab *)

Lemma not_slab L s a : core L s → a ∈ free_pages s.(source) → s.(slabs) !! a = None.
Proof. intros Hs Ha. apply eq_None_not_Some. intros [sn Hsn]. by apply (i_slabs L s Hs) in Hsn as [[_ ?] _ _]. Qed.

Lemma core_page L s s' a c cn p :
  core L s → kalloc_page s.(source) = Some (a, p) → s'.(source) = p →
  s'.(slabs) = <[a := mkSlab 0 0 c (zseq 0 cn.(num))]> s.(slabs) → s'.(caches) !! c = Some cn →
  (∀ c1 cn1, s.(caches) !! c1 = Some cn1 → s'.(caches) !! c1 = Some cn1) →
  (∀ c1 cn1, s'.(caches) !! c1 = Some cn1 → s.(caches) !! c1 = Some cn1 ∨ cached cn1 = [] ∧ cache_ok s' c1 cn1) →
  (∀ size c1, s.(kmem_cache_array) !! size = Some c1 → s'.(kmem_cache_array) !! size = Some c1) →
  (∀ size c1, s'.(kmem_cache_array) !! size = Some c1 → ∃ cn1, s'.(caches) !! c1 = Some cn1 ∧ cn1.(object_size) = size) →
  1 ≤ cn.(object_size) < 2048 → cn.(num) = objects_per_slab cn.(object_size) →
  core L s'.
Proof.
  intros Hs Hpg Esrc Esl Hc Hmono Hcc Hamono Harr Hsz Hn. destruct (kalloc_page_takes _ _ _ Hpg) as (Hpa & Hfree & Hfree').
  pose proof (not_slab L s a Hs Hfree) as Hna. pose proof (objects_fit _ Hsz) as [Hn1 _].
  assert (Hobj : ∀ c1 y, object s c1 y → object s' c1 y).
  { intros c1 y (sn1 & cn1 & i & Hsn & Ho & Hcn & Hi & Hy). exists sn1, cn1, i. rewrite Esl. split; [|by eauto].
    rewrite lookup_insert_ne //. intros E. by rewrite E Hsn in Hna. }
  assert (Hout : ∀ y, out s' L y ↔ out s L y).
  { intros y. unfold out. split; (intros [Hy|(c1 & cn1 & Hc1 & Hy)]; [by left|right]); [|by eauto].
    destruct (Hcc _ _ Hc1) as [Hc1'|[E _]]; [by eauto|]. rewrite E in Hy. by apply not_elem_of_nil in Hy. }
  split.
  - intros b snb Hb. rewrite Esl in Hb. destruct (decide (b = a)) as [->|Hne].
    + rewrite lookup_insert_eq in Hb. injection Hb as <-. split; [split; [done|rewrite Esrc Hfree'; set_solver]|done|].
      exists cn. cbn. rewrite length_zseq. split_and!; try done; [lia..|apply nodup_zseq|]. intros i. rewrite elem_of_zseq Hout.
      split; [|by intros []]. intros Hi. split; [done|]. intros Hx.
      assert (∃ c1, object s c1 (obj_addr a 0 cn.(object_size) cn.(num) i)) as (c1 & sn1 & cn1 & j & Hsn & _).
      { destruct Hx as [[sz Hx]|(c1 & cn1 & Hc1 & Hx)]; [by destruct (i_live L s Hs _ _ Hx) as (c1 & _ & ? & _); exists c1|].
        exists c1. destruct (i_caches L s Hs _ _ Hc1) as [[] _]. by apply c_objects0. }
      rewrite Hn in Hi, Hsn. rewrite obj_in_page // in Hsn. by rewrite Hsn in Hna.
    + rewrite lookup_insert_ne // in Hb. destruct (i_slabs L s Hs _ _ Hb) as [[Hp Hnf] Hcol (cn1 & Hcn & Hfl & [? ?] & Hnd & Hiff)].
      split; [split; [done|rewrite Esrc Hfree'; set_solver]|done|]. exists cn1. split; [by apply Hmono|]. split_and!; try done.
      intros i. by rewrite Hout.
  - intros c1 cn1 Hc1. destruct (Hcc _ _ Hc1) as [Hc1'|[E Hok]].
    + destruct (i_caches L s Hs _ _ Hc1') as [[Hsz1 Hn' Har Hix (b & snb & Hb & Hpl) Hnd Hob] Hdis]. split; [|done].
      split; try done; [by apply Hamono| |by intros y Hy; apply Hobj, Hob]. exists b, snb. split; [|done].
      rewrite Esl lookup_insert_ne //. intros ->. by rewrite Hb in Hna.
    + split; [done|]. intros x Hx. rewrite E in Hx. by apply not_elem_of_nil in Hx.
  - apply Harr.
  - intros x size Hx. destruct (i_live L s Hs _ _ Hx) as (c1 & cn1 & Ho & Hc1 & Es). exists c1, cn1. eauto.
Qed.

(** ** Running the code *)

Lemma alter_Some {B} (f : B → B) (m : gmap Z B) k b : m !! k = Some b → alter f k m = <[k := f b]> m.
Proof.
  intros Hk. apply map_eq. intros j. destruct (decide (j = k)) as [->|Hne].
  - by rewrite lookup_alter_eq Hk lookup_insert_eq.
  - by rewrite lookup_alter_ne // lookup_insert_ne.
Qed.
Lemma upd_slab_run s a sn f : s.(slabs) !! a = Some sn → upd_slab a f s = Ok (tt, set_slabs (<[a := f sn]> s.(slabs)) s).
Proof. intros Ha. unfold upd_slab, modify. by rewrite (alter_Some _ _ _ _ Ha). Qed.
Lemma upd_cache_run s c cn f : s.(caches) !! c = Some cn → upd_cache c f s = Ok (tt, set_caches (<[c := f cn]> s.(caches)) s).
Proof. intros Hc. unfold upd_cache, modify. by rewrite (alter_Some _ _ _ _ Hc). Qed.
Lemma slab_run s a sn : s.(slabs) !! a = Some sn → slab a s = Ok (sn, s).
Proof. intros Ha. unfold slab. rewrite (bind_Ok _ _ s s.(slabs) s) //. by rewrite Ha. Qed.
Lemma cache_run s c cn : s.(caches) !! c = Some cn → cache c s = Ok (cn, s).
Proof. intros Hc. unfold cache. rewrite (bind_Ok _ _ s s.(caches) s) //. by rewrite Hc. Qed.

(** An object of slab [a] for the caller. *)
Lemma alloc_obj_run L s a c sn cn : slab_inv L s → s.(slabs) !! a = Some sn → sn.(owner_cache) = c → s.(caches) !! c = Some cn →
  sn.(active) < cn.(num) →
  ∃ x, alloc_obj a cn.(object_size) cn.(num) s = Ok (x, set_slabs (<[a := with_active (sn.(active) + 1) sn]> s.(slabs)) s) ∧
    L !! x = None ∧
    core (<[x := cn.(object_size)]> L) (set_slabs (<[a := with_active (sn.(active) + 1) sn]> s.(slabs)) s) ∧
    lists_ok (λ b, b = a) (set_slabs (<[a := with_active (sn.(active) + 1) sn]> s.(slabs)) s).
Proof.
  intros [Hs Hl] Ha <- Hc Hact. destruct (core_alloc L s a sn cn Hs Ha Hc Hact) as (i & Hi & HL & Hob & Hcore).
  eexists. split; [|split; [exact HL|split; [exact Hcore|]]].
  - unfold alloc_obj. rewrite (bind_Ok _ _ _ _ _ (slab_run _ _ _ Ha)) Hi (bind_Ok _ _ s i s) //.
    rewrite (bind_Ok _ _ _ _ _ (upd_slab_run _ _ _ _ Ha)). by rewrite (s_colour _ _ _ _ (i_slabs L s Hs _ _ Ha)).
  - intros c1 cn1 b Hc1 Hb. destruct (Hl c1 cn1 b Hc1 Hb) as (snb & Hsb & Ho & [Hlt|[]]). cbn. destruct (decide (b = a)) as [->|Hne].
    + rewrite lookup_insert_eq. rewrite Ha in Hsb. injection Hsb as <-. eexists. split; [done|]. split; [done|by right].
    + rewrite lookup_insert_ne //. exists snb. auto.
Qed.

(** Changing the lists of [c], which may only name slabs with free objects. *)
Lemma lists_change (E E' : Z → Prop) s c cn p f e : lists_ok E s → s.(caches) !! c = Some cn →
  (∀ b, b ∈ p ++ e → (b ∈ cn.(slabs_partial) ++ cn.(slabs_free) ∧ (E b → E' b)) ∨
        ∃ sn, s.(slabs) !! b = Some sn ∧ sn.(owner_cache) = c ∧ sn.(active) < cn.(num)) →
  (∀ b sn, s.(slabs) !! b = Some sn → sn.(owner_cache) ≠ c → E b → E' b) →
  lists_ok E' (set_caches (<[c := with_lists p f e cn]> s.(caches)) s).
Proof.
  intros Hl Hc Hin Hother c1 cn1 b Hc1 Hb. cbn in Hc1 |- *. destruct (decide (c1 = c)) as [->|Hne].
  - rewrite lookup_insert_eq in Hc1. injection Hc1 as <-. cbn in Hb |- *. destruct (Hin b Hb) as [[Hb' HE]|(sn & Hsn & Ho & Hact)].
    + destruct (Hl c cn b Hc Hb') as (sn & Hsn & Ho & [?|?]); exists sn; auto.
    + exists sn. auto.
  - rewrite lookup_insert_ne // in Hc1. destruct (Hl c1 cn1 b Hc1 Hb) as (sn & Hsn & Ho & [?|?]); exists sn; [by auto|].
    split_and!; [done..|right]. eapply Hother; [done|congruence|done].
Qed.

Lemma end_full_detach a cn : end_full a (detach a cn) =
  with_lists (filter (.≠ a) cn.(slabs_partial)) (filter (.≠ a) cn.(slabs_full) ++ [a]) (filter (.≠ a) cn.(slabs_free)) cn.
Proof. done. Qed.

Lemma full_check_run L s a c sn cn : core L s → lists_ok (λ b, b = a) s → s.(slabs) !! a = Some sn → sn.(owner_cache) = c →
  s.(caches) !! c = Some cn → ∃ s', full_check a c s = Ok (tt, s') ∧ slab_inv L s'.
Proof.
  intros Hs Hl Ha Ho Hc. unfold full_check. rewrite (bind_Ok _ _ _ _ _ (slab_run _ _ _ Ha)) (bind_Ok _ _ _ _ _ (cache_run _ _ _ Hc)).
  destruct (Z.leb_spec cn.(num) sn.(active)) as [Hfull|Hroom].
  - eexists. split; [by apply upd_cache_run|]. cbn [compose]. rewrite end_full_detach. split; [by apply core_lists|].
    eapply lists_change; [done|done| |].
    + intros b Hb. left. apply elem_of_app in Hb. cbn in Hb. rewrite !list_elem_of_filter in Hb. split; [apply elem_of_app; naive_solver|].
      intros ->. naive_solver.
    + intros b snb Hsb Hne ->. congruence.
  - exists s. split; [done|]. split; [done|]. intros c1 cn1 b Hc1 Hb. destruct (Hl c1 cn1 b Hc1 Hb) as (snb & Hsb & Ho' & [?| ->]).
    + exists snb. auto.
    + rewrite Ha in Hsb. injection Hsb as <-. exists sn. split_and!; [done..|left]. rewrite Ho' in Ho. subst c. by rewrite Hc in Hc1; injection Hc1 as <-.
Qed.

(** The end of three branches of [kalloc]. *)
Lemma kalloc_partial_run L s a c sn cn : slab_inv L s → s.(slabs) !! a = Some sn → sn.(owner_cache) = c → s.(caches) !! c = Some cn →
  sn.(active) < cn.(num) →
  ∃ x s', kalloc_partial cn.(object_size) c a cn.(num) s = Ok (x, s') ∧ L !! x = None ∧ slab_inv (<[x := cn.(object_size)]> L) s'.
Proof.
  intros Hs Ha Ho Hc Hact. destruct (alloc_obj_run L s a c sn cn Hs Ha Ho Hc Hact) as (x & E & HL & Hcore & Hl).
  destruct (full_check_run _ _ a c (with_active (sn.(active) + 1) sn) cn Hcore Hl) as (s' & E' & Hs'); [by apply lookup_insert_eq|done|done|].
  exists x, s'. unfold kalloc_partial. by rewrite (bind_Ok _ _ _ _ _ E) (bind_Ok _ _ _ _ _ E').
Qed.

Lemma kalloc_free_run L s a c sn cn : slab_inv L s → s.(slabs) !! a = Some sn → sn.(owner_cache) = c → s.(caches) !! c = Some cn →
  sn.(active) < cn.(num) →
  ∃ x s', kalloc_free cn.(object_size) c a cn.(num) s = Ok (x, s') ∧ L !! x = None ∧ slab_inv (<[x := cn.(object_size)]> L) s'.
Proof.
  intros Hs Ha Ho Hc Hact. destruct (alloc_obj_run L s a c sn cn Hs Ha Ho Hc Hact) as (x & E & HL & Hcore & Hl).
  set (s1 := set_slabs _ s) in *. assert (Ha1 : s1.(slabs) !! a = Some (with_active (sn.(active) + 1) sn)) by apply lookup_insert_eq.
  exists x. unfold kalloc_free. rewrite (bind_Ok _ _ _ _ _ E) (bind_Ok _ _ _ _ _ (upd_cache_run s1 c cn _ Hc)).
  set (s2 := set_caches _ s1). assert (Hc2 : s2.(caches) !! c = Some (detach a cn)) by apply lookup_insert_eq.
  rewrite (bind_Ok _ _ _ _ _ (slab_run s2 a _ Ha1)) (bind_Ok _ _ _ _ _ (cache_run s2 c _ Hc2)).
  rewrite (bind_Ok _ _ _ _ _ (upd_cache_run s2 c _ _ Hc2)). eexists. split; [done|]. split; [done|].
  assert (H2 : slab_inv (<[x := cn.(object_size)]> L) s2).
  { split; [by apply core_lists|]. eapply lists_change; [done|done| |].
    - intros b Hb. left. apply elem_of_app in Hb. rewrite !list_elem_of_filter in Hb. split; [apply elem_of_app; naive_solver|].
      intros ->. naive_solver.
    - intros b snb Hsb Hne ->. cbn in Hsb. rewrite lookup_insert_eq in Hsb. injection Hsb as <-. done. }
  destruct H2 as [Hcore2 Hl2]. cbn [num active with_active detach with_lists].
  destruct (Z.leb_spec cn.(num) (sn.(active) + 1)) as [Hfull|Hroom];
    (split; [by apply core_lists|]); (eapply lists_change; [done|done| |done]); intros b Hb; [by left|].
  cbn in Hb. rewrite !elem_of_app list_elem_of_singleton in Hb. destruct Hb as [[Hb| ->]|Hb]; [left|right|left].
  - split; [apply elem_of_app; by left|done].
  - eexists. split; [exact Ha1|]. done.
  - split; [apply elem_of_app; by right|done].
Qed.

Lemma slab_page_run s a p : kalloc_page s.(source) = Some (a, p) → slab_page s = Ok (a, set_source p s).
Proof. intros Hp. unfold slab_page. by rewrite (bind_Ok _ _ s s.(source) s) // Hp. Qed.

(** The state with a new, empty slab for cache [c], first on its partial list. *)
Definition with_page s a c cn p : slab_state P :=
  mkState (<[a := mkSlab 0 0 c (zseq 0 cn.(num))]> s.(slabs)) (<[c := to_partial a cn]> s.(caches)) s.(kmem_cache_array) p.

(** The steps after the page has been taken, in two of the branches. *)
Lemma new_slab_run s a c cn n : s.(caches) !! c = Some cn → cn.(num) = n →
  (init_slab_node a n ;; upd_slab a (with_owner c) ;; upd_cache c (to_partial a) ;; kalloc_partial cn.(object_size) c a n) s =
  kalloc_partial cn.(object_size) c a n (with_page s a c cn s.(source)).
Proof.
  intros Hc <-. unfold init_slab_node. rewrite (bind_Ok _ _ s tt (set_slabs (<[a := mkSlab 0 0 0 (zseq 0 cn.(num))]> s.(slabs)) s)) //.
  set (s1 := set_slabs _ s). assert (Ha : s1.(slabs) !! a = Some (mkSlab 0 0 0 (zseq 0 cn.(num)))) by apply lookup_insert_eq.
  rewrite (bind_Ok _ _ _ _ _ (upd_slab_run s1 a _ _ Ha)). set (s2 := set_slabs _ s1).
  rewrite (bind_Ok _ _ _ _ _ (upd_cache_run s2 c cn _ Hc)). unfold s2, s1, with_page, set_slabs, set_caches. cbn.
  by rewrite insert_insert_eq.
Qed.

Lemma with_page_inv L s a c cn p : slab_inv L s → s.(caches) !! c = Some cn → kalloc_page s.(source) = Some (a, p) →
  slab_inv L (with_page s a c cn p).
Proof.
  intros [Hs Hl] Hc Hp. destruct (i_caches L s Hs _ _ Hc) as [[Hsz Hn _ _ _ _ _] _].
  destruct (kalloc_page_takes _ _ _ Hp) as (_ & Hfree & _). pose proof (not_slab L s a Hs Hfree) as Hna.
  set (s1 := mkState (<[a := mkSlab 0 0 c (zseq 0 cn.(num))]> s.(slabs)) s.(caches) s.(kmem_cache_array) p).
  assert (H1 : core L s1).
  { eapply (core_page L s s1 a c cn p); try done; [by auto|]. apply (i_array L s Hs). }
  assert (Hl1 : lists_ok (λ _, False) s1).
  { intros c1 cn1 b Hc1 Hb. destruct (Hl c1 cn1 b Hc1 Hb) as (sn & Hsn & Ho & [Hact|[]]). exists sn. split_and!; [|done|by left].
    cbn. rewrite lookup_insert_ne //. intros ->. by rewrite Hsn in Hna. }
  split; [exact (core_lists L s1 c cn _ _ _ H1 Hc)|]. apply (lists_change (λ _, False) _ s1 c cn); [done|done| |done].
  intros b Hb. cbn in Hb. apply elem_of_cons in Hb as [->|Hb]; [right|left; by split].
  exists (mkSlab 0 0 c (zseq 0 cn.(num))). cbn. rewrite lookup_insert_eq. pose proof (objects_fit _ Hsz). split_and!; [done..|lia].
Qed.

Lemma kalloc_new_run L s a c cn p : slab_inv L s → s.(caches) !! c = Some cn → kalloc_page s.(source) = Some (a, p) →
  ∃ x s', kalloc_new cn.(object_size) c cn.(num) s = Ok (x, s') ∧ L !! x = None ∧ slab_inv (<[x := cn.(object_size)]> L) s'.
Proof.
  intros Hs Hc Hp. pose proof (with_page_inv L s a c cn p Hs Hc Hp) as Hs1.
  destruct (i_caches L s (proj1 Hs) _ _ Hc) as [[Hsz Hn _ _ _ _ _] _]. pose proof (objects_fit _ Hsz).
  unfold kalloc_new. rewrite (bind_Ok _ _ _ _ _ (slab_page_run s a p Hp)).
  pose proof (new_slab_run (set_source p s) a c cn cn.(num) Hc eq_refl) as E. unfold kalloc_partial at 1 in E. rewrite E.
  apply (kalloc_partial_run L (with_page s a c cn p) a c (mkSlab 0 0 c (zseq 0 cn.(num))) (to_partial a cn));
    [done|by apply lookup_insert_eq|done|by apply lookup_insert_eq|cbn; lia].
Qed.

(** A fresh cache, and the state with it and its first slab. *)
Definition new_cache (size : Z) : CacheNode :=
  mkCache 0 (objects_per_slab size) size COLOUR_OFF (replicate CPU_NUM (mkArray 0 (replicate (Z.to_nat AC_LIMIT) 0))) [] [] [].
Definition cache_place (a : Z) : Z := PAGE_BASE a + PAGE_SIZE - sizeof_CacheNode.

Lemma page_base_page a : page_ok a → PAGE_BASE a = a.
Proof. intros [[Hk H64] Hp]. rewrite -{1}(Z.add_0_r a). unfold KSPACE_MASK, PAGE_SIZE in *. apply page_base_split; [done|lia|lia|lia]. Qed.

Lemma first_inv L s a p size : slab_inv L s → 1 ≤ size < 2048 → s.(kmem_cache_array) !! size = None →
  kalloc_page s.(source) = Some (a, p) →
  let c := cache_place a in
  slab_inv L (mkState (<[a := mkSlab 0 0 c (zseq 0 (objects_per_slab size))]> s.(slabs)) (<[c := to_partial a (new_cache size)]> s.(caches))
    (<[size := c]> s.(kmem_cache_array)) p).
Proof.
  intros [Hs Hl] Hsz Harr Hp c. destruct (kalloc_page_takes _ _ _ Hp) as (Hpa & Hfree & _).
  pose proof (not_slab L s a Hs Hfree) as Hna.
  assert (Hnc : s.(caches) !! c = None).
  { apply eq_None_not_Some. intros [cn Hc]. destruct (i_caches L s Hs _ _ Hc) as [[_ _ _ _ (b & sn & Hb & Hpl) _ _] _].
    unfold c, cache_place in Hpl. rewrite page_base_page // in Hpl. assert (a = b) as -> by lia. by rewrite Hb in Hna. }
  split.
  - eapply (core_page L s _ a c (to_partial a (new_cache size)) p); try done; cbn.
    + by apply lookup_insert_eq.
    + intros c1 cn1 Hc1. rewrite lookup_insert_ne //. intros ->. by rewrite Hc1 in Hnc.
    + intros c1 cn1. destruct (decide (c1 = c)) as [->|Hne]; [|rewrite lookup_insert_ne //; by left].
      rewrite lookup_insert_eq. intros [= <-]. right. split; [done|]. split; try done; cbn.
      * split; [done|]. by repeat constructor.
      * by rewrite lookup_insert_eq.
      * exists a, (mkSlab 0 0 c (zseq 0 (objects_per_slab size))). rewrite lookup_insert_eq. split; [done|]. unfold c, cache_place. by rewrite page_base_page.
      * by apply NoDup_nil.
      * intros x Hx. by apply not_elem_of_nil in Hx.
    + intros sz c1 Hc1. rewrite lookup_insert_ne //. intros ->. by rewrite Hc1 in Harr.
    + intros sz c1. destruct (decide (sz = size)) as [->|Hne].
      * rewrite lookup_insert_eq. intros [= <-]. rewrite lookup_insert_eq. eexists. by split.
      * rewrite lookup_insert_ne //. intros Hc1. destruct (i_array L s Hs _ _ Hc1) as (cn1 & Hcn1 & Es). exists cn1.
        rewrite lookup_insert_ne //. intros E. by rewrite -E Hnc in Hcn1.
  - intros c1 cn1 b. cbn. destruct (decide (c1 = c)) as [->|Hne].
    + rewrite lookup_insert_eq. intros [= <-]. cbn. intros ->%list_elem_of_singleton.
      exists (mkSlab 0 0 c (zseq 0 (objects_per_slab size))). rewrite lookup_insert_eq. pose proof (objects_fit _ Hsz). split_and!; [done..|left; cbn; lia].
    + rewrite lookup_insert_ne //. intros Hc1 Hb. destruct (Hl c1 cn1 b Hc1 Hb) as (sn & Hsn & Ho & [Hact|[]]). exists sn.
      rewrite lookup_insert_ne; [by auto|]. intros ->. by rewrite Hsn in Hna.
Qed.

Lemma kalloc_first_run L s a p size : slab_inv L s → 1 ≤ size < 2048 → s.(kmem_cache_array) !! size = None →
  kalloc_page s.(source) = Some (a, p) →
  ∃ x s', kalloc_first size s = Ok (x, s') ∧ L !! x = None ∧ slab_inv (<[x := size]> L) s'.
Proof.
  intros Hs Hsz Harr Hp. pose proof (first_inv L s a p size Hs Hsz Harr Hp) as Hs1. pose proof (objects_fit _ Hsz).
  unfold kalloc_first. rewrite (bind_Ok _ _ _ _ _ (slab_page_run s a p Hp)). fold (cache_place a). set (c := cache_place a) in *.
  rewrite (bind_Ok _ _ _ tt (set_array (<[size := c]> s.(kmem_cache_array)) (set_source p s))) //. set (s1 := set_array _ _).
  unfold init_cache_node. rewrite (bind_Ok _ _ s1 tt (set_caches (<[c := new_cache size]> s1.(caches)) s1)) //. set (s2 := set_caches _ s1).
  assert (Hc : s2.(caches) !! c = Some (new_cache size)) by apply lookup_insert_eq.
  pose proof (new_slab_run s2 a c (new_cache size) _ Hc eq_refl) as E. unfold kalloc_partial at 1 in E. cbn [object_size num new_cache] in E. rewrite E.
  cbv zeta in Hs1. match type of Hs1 with slab_inv _ ?st => set (s3 := st) in * end. assert (Es : with_page s2 a c (new_cache size) (source s2) = s3).
  { unfold with_page, s3, s2, s1. cbn. by rewrite insert_insert_eq. }
  rewrite Es. apply (kalloc_partial_run L s3 a c (mkSlab 0 0 c (zseq 0 (objects_per_slab size))) (to_partial a (new_cache size)));
    [done|by apply lookup_insert_eq|done|by apply lookup_insert_eq|cbn; lia].
Qed.

(** ** Allocating *)

Lemma lists_arrays E s c cn arrs : lists_ok E s → s.(caches) !! c = Some cn →
  lists_ok E (set_caches (<[c := with_arrays arrs cn]> s.(caches)) s).
Proof.
  intros Hl Hc c1 cn1 b. cbn. destruct (decide (c1 = c)) as [->|Hne].
  - rewrite lookup_insert_eq. intros [= <-] Hb. by apply (Hl c cn b).
  - rewrite lookup_insert_ne //. apply Hl.
Qed.

Lemma kalloc_spec L s cpu size : slab_inv L s → (cpu < CPU_NUM)%nat → 1 ≤ size < 2048 →
  (∃ x s', kalloc cpu size s = Ok (x, s') ∧ L !! x = None ∧ slab_inv (<[x := size]> L) s') ∨
  (kalloc cpu size s = Fail Faulted ∧ kalloc_page s.(source) = None).
Proof.
  intros Hs Hcpu Hsz. unfold kalloc, array_at. destruct (Z.leb_spec 0 size), (Z.ltb_spec size 2048); try lia. cbn [andb].
  rewrite (bind_Ok _ _ s (s.(kmem_cache_array) !! size) s) //. pose proof Hs as [Hcore Hl].
  destruct (s.(kmem_cache_array) !! size) as [c|] eqn:Harr.
  2: { destruct (kalloc_page s.(source)) as [[a p]|] eqn:Hp; [left; by apply (kalloc_first_run L s a p)|right].
       split; [|done]. unfold kalloc_first. apply bind_Fail. unfold slab_page. by rewrite (bind_Ok _ _ s s.(source) s) // Hp. }
  destruct (i_array L s Hcore _ _ Harr) as (cn & Hc & Es). rewrite (bind_Ok _ _ _ _ _ (cache_run _ _ _ Hc)).
  destruct (array_of L s c cn cpu Hcore Hc Hcpu) as (ac & Hac & Hok). rewrite Hac (bind_Ok _ _ s ac s) //.
  destruct (Z.ltb_spec 0 ac.(avail)).
  { left. destruct (core_pop L s c cn cpu ac) as (x & Hx & _ & HL & _ & Hcore'); [done..|].
    rewrite (bind_Ok _ _ _ _ _ (upd_cache_run s c cn _ Hc)) Hx. exists x. eexists. split; [done|]. split; [done|].
    rewrite Es in Hcore'. split; [done|]. by apply lists_arrays. }
  destruct (slabs_partial cn) as [|a l] eqn:Epa; [destruct (slabs_free cn) as [|a l] eqn:Efr|].
  - destruct (kalloc_page s.(source)) as [[a p]|] eqn:Hp; [left; rewrite -Es; by apply (kalloc_new_run L s a c cn p)|right].
    split; [|done]. unfold kalloc_new. apply bind_Fail. unfold slab_page. by rewrite (bind_Ok _ _ s s.(source) s) // Hp.
  - left. destruct (Hl c cn a Hc) as (sn & Hsn & Ho & [Hact|[]]); [rewrite Epa Efr; by left|]. rewrite -Es.
    by apply (kalloc_free_run L s a c sn cn).
  - left. destruct (Hl c cn a Hc) as (sn & Hsn & Ho & [Hact|[]]); [rewrite Epa; by left|]. rewrite -Es.
    by apply (kalloc_partial_run L s a c sn cn).
Qed.

(** Where a live object lies. *)
Lemma live_place L s x size : core L s → L !! x = Some size →
  ∃ sn, s.(slabs) !! PAGE_BASE x = Some sn ∧ page_ok (PAGE_BASE x) ∧
    PAGE_BASE x + sizeof_SlabNode + 4 * objects_per_slab size ≤ x ∧
    x + size ≤ PAGE_BASE x + PAGE_SIZE - sizeof_CacheNode.
Proof.
  intros Hs HL. destruct (i_live L s Hs _ _ HL) as (c & cn & (sn & cn' & i & Hsn & Ho & Hcn' & Hi & Ex) & Hcn & Es).
  rewrite Hcn in Hcn'. injection Hcn' as <-. destruct (i_caches L s Hs _ _ Hcn) as [[Hsz Hn _ _ _ _ _] _].
  destruct (i_slabs L s Hs _ _ Hsn) as [[Hp _] _ _]. exists sn. split; [done|]. split; [done|].
  destruct (objects_fit _ Hsz) as (Hn1 & Hfit & Htab). rewrite Hn Es obj_addr_0 in Ex. rewrite Hn Es in Hi. rewrite Es in Hfit Htab Hsz Hn1.
  set (b := PAGE_BASE x) in *. split; nia.
Qed.

Lemma live_disjoint L s x y n m : core L s → L !! x = Some n → L !! y = Some m → x ≠ y → x + n ≤ y ∨ y + m ≤ x.
Proof.
  intros Hs Hx Hy Hne.
  destruct (i_live L s Hs _ _ Hx) as (c & cn & (sn & cn' & i & Hsn & Ho & Hcn' & Hi & Ex) & Hcn & Es).
  rewrite Hcn in Hcn'. injection Hcn' as <-. destruct (i_caches L s Hs _ _ Hcn) as [[Hsz Hn _ _ _ _ _] _].
  destruct (i_live L s Hs _ _ Hy) as (c' & cn' & (sn' & cn2 & j & Hsn' & Ho' & Hcn2 & Hj & Ey) & Hcn' & Es').
  rewrite Hcn' in Hcn2. injection Hcn2 as <-.
  destruct (decide (PAGE_BASE x = PAGE_BASE y)) as [E|Hpg].
  - rewrite -E in Hsn' Ey. rewrite Hsn in Hsn'. injection Hsn' as <-. assert (c' = c) as -> by congruence.
    rewrite Hcn in Hcn'. injection Hcn' as <-. assert (m = n) as -> by congruence. rewrite obj_addr_0 Es in Ex. rewrite obj_addr_0 Es in Ey. rewrite Es in Hsz.
    assert (i ≠ j) by (intros ->; exact (Hne (eq_trans Ex (eq_sym Ey)))). assert (i < j ∨ j < i) as [?|?] by lia; [left|right]; nia.
  - destruct (live_place L s x n Hs Hx) as (_ & _ & [[Hk Hk'] Hpx] & Hx1 & Hx2).
    destruct (live_place L s y m Hs Hy) as (_ & _ & [[Hl Hl'] Hpy] & Hy1 & Hy2).
    pose proof (Z.div_mod (PAGE_BASE x) 4096 ltac:(done)) as Hdx. pose proof (Z.div_mod (PAGE_BASE y) 4096 ltac:(done)) as Hdy.
    unfold PAGE_SIZE, sizeof_CacheNode, sizeof_SlabNode in *. rewrite Hpx in Hdx. rewrite Hpy in Hdy.
    destruct (i_caches L s Hs _ _ Hcn') as [[Hsz' Hn' _ _ _ _ _] _]. rewrite Es' in Hsz'. rewrite Es in Hsz.
    pose proof (objects_fit _ Hsz) as [? _]. pose proof (objects_fit _ Hsz') as [? _].
    set (a := PAGE_BASE x) in *. set (b := PAGE_BASE y) in *. set (qa := a / 4096) in *. set (qb := b / 4096) in *.
    assert (qa < qb ∨ qb < qa) as [?|?] by lia; [left|right]; lia.
Qed.

(** ** Freeing *)

Lemma get_obj_index_run s a sn cn i : s.(slabs) !! a = Some sn → sn.(colour) = 0 → 1 ≤ cn.(object_size) < 2048 → page_ok a →
  cn.(num) = objects_per_slab cn.(object_size) → 0 ≤ i < cn.(num) →
  get_obj_index a cn.(object_size) cn.(num) (obj_addr a 0 cn.(object_size) cn.(num) i) s = Ok (i, s).
Proof.
  intros Ha Hcol Hsz Hp Hn Hi. unfold get_obj_index. rewrite (bind_Ok _ _ _ _ _ (slab_run _ _ _ Ha)).
  destruct (Z.eqb_spec cn.(object_size) 0); [lia|]. rewrite Hcol obj_addr_0. unfold obj_base.
  replace (_ - sizeof_SlabNode) with (i * cn.(object_size)) by lia.
  destruct (objects_fit _ Hsz) as [Hn1 _]. rewrite -Hn in Hn1. rewrite u64_small; [|change (2 ^ 64) with 18446744073709551616; nia].
  rewrite Z.div_mul; [|lia]. by rewrite i32_small; [|change (2 ^ 31) with 2147483648; lia].
Qed.

(** The slab lists once a slab has fewer objects out. *)
Lemma lists_slab s a sn sn' : lists_ok (λ _, False) s → s.(slabs) !! a = Some sn → sn'.(owner_cache) = sn.(owner_cache) →
  sn'.(active) ≤ sn.(active) → lists_ok (λ _, False) (set_slabs (<[a := sn']> s.(slabs)) s).
Proof.
  intros Hl Ha Ho Hact c1 cn1 b Hc1 Hb. destruct (Hl c1 cn1 b Hc1 Hb) as (snb & Hsb & Hob & [Hlt|[]]). cbn.
  destruct (decide (b = a)) as [->|Hne].
  - rewrite Ha in Hsb. injection Hsb as <-. exists sn'. rewrite lookup_insert_eq. split_and!; [done|congruence|left; lia].
  - exists snb. rewrite lookup_insert_ne //. auto.
Qed.

(** The slab moved to the list it belongs on, or to none. *)
Lemma relist L s a c sn cn : slab_inv L s → s.(slabs) !! a = Some sn → sn.(owner_cache) = c → s.(caches) !! c = Some cn →
  sn.(active) < cn.(num) → 1 ≤ cn.(num) →
  ∃ s' cn', (upd_cache c (detach a) ;; (sn ← slab a;
     if sn.(active) =? cn.(num) - 1 then upd_cache c (to_partial a)
     else if sn.(active) =? 0 then upd_cache c (to_free a) else mret tt)) s = Ok (tt, s') ∧ slab_inv L s' ∧
    s'.(slabs) = s.(slabs) ∧ s'.(caches) = <[c := cn']> s.(caches) ∧ same_shape cn cn' ∧ cn'.(array_cache) = cn.(array_cache).
Proof.
  intros [Hs Hl] Ha Ho Hc Hact Hn. rewrite (bind_Ok _ _ _ _ _ (upd_cache_run s c cn _ Hc)). set (s1 := set_caches _ s).
  assert (Hc1 : s1.(caches) !! c = Some (detach a cn)) by apply lookup_insert_eq.
  assert (H1 : slab_inv L s1).
  { split; [by apply core_lists|]. eapply lists_change; [done|done| |done]. intros b Hb. left. split; [|done].
    apply elem_of_app in Hb. rewrite !list_elem_of_filter in Hb. apply elem_of_app. naive_solver. }
  destruct H1 as [H1 Hl1]. rewrite (bind_Ok _ _ _ _ _ (slab_run s1 a sn Ha)).
  assert (Hout : ∀ p e, (∀ b, b ∈ p ++ e → b = a ∨ b ∈ (detach a cn).(slabs_partial) ++ (detach a cn).(slabs_free)) →
    ∀ f, slab_inv L (set_caches (<[c := with_lists p f e (detach a cn)]> s1.(caches)) s1)).
  { intros p e Hpe f. split; [by apply core_lists|]. eapply lists_change; [done|done| |done]. intros b Hb.
    destruct (Hpe b Hb) as [->|Hb']; [right; by exists sn|by left]. }
  destruct (Z.eqb_spec sn.(active) (cn.(num) - 1)); [|destruct (Z.eqb_spec sn.(active) 0)].
  - rewrite (upd_cache_run s1 c _ _ Hc1). eexists _, (to_partial a (detach a cn)). split; [done|]. split.
    { apply Hout. intros b [->|Hb]%elem_of_cons; auto. }
    split; [done|]. split; [apply insert_insert_eq|]. by split.
  - rewrite (upd_cache_run s1 c _ _ Hc1). eexists _, (to_free a (detach a cn)). split; [done|]. split.
    { apply Hout. intros b [Hb|[->|Hb]%elem_of_cons]%elem_of_app; [right|by left|right]; apply elem_of_app; auto. }
    split; [done|]. split; [apply insert_insert_eq|]. by split.
  - exists s1, (detach a cn). by split_and!.
Qed.

Lemma cache_flusharray_run L s c cn cpu ac : slab_inv L s → s.(caches) !! c = Some cn → cn.(array_cache) !! cpu = Some ac →
  0 < ac.(avail) →
  ∃ s' cn', cache_flusharray cpu c s = Ok (tt, s') ∧ slab_inv L s' ∧ s'.(caches) !! c = Some cn' ∧
    cn'.(array_cache) !! cpu = Some (mkArray (ac.(avail) - 1) ac.(entry)) ∧ (∀ x, object s c x → object s' c x).
Proof.
  intros [Hs Hl] Hc Hac Hp. destruct (core_pop L s c cn cpu ac) as (x & Hx & Hxc & HL & Hob & Hcore); [done..|].
  set (L1 := <[x := cn.(object_size)]> L) in *. set (cn1 := with_arrays _ cn) in *. set (s1 := set_caches _ s) in *.
  pose proof (lists_arrays _ s c cn _ Hl Hc : lists_ok _ s1) as Hl1.
  assert (Hc1 : s1.(caches) !! c = Some cn1) by apply lookup_insert_eq.
  destruct (i_caches L s Hs _ _ Hc) as [[Hsz Hn _ _ _ _ _] _]. pose proof (objects_fit _ Hsz) as [Hn1 _].
  destruct Hob as (sn & cn0 & i & Hsn & Ho & Hc0 & Hi & Ex). rewrite Hc in Hc0. injection Hc0 as <-. set (a := PAGE_BASE x) in *.
  destruct (core_give L1 s1 a sn cn1 i cn.(object_size)) as [Hact Hcore2]; [done|done|by rewrite Ho|done|cbn; rewrite -Ex; apply lookup_insert_eq|].
  cbn [object_size num cn1 with_arrays] in Hcore2. rewrite -Ex /L1 delete_insert_id // in Hcore2.
  unfold cache_flusharray. rewrite (bind_Ok _ _ _ _ _ (cache_run _ _ _ Hc)) Hac (bind_Ok _ _ s ac s) // Hx (bind_Ok _ _ s x s) //.
  rewrite (bind_Ok _ _ _ _ _ (upd_cache_run s c cn _ Hc)). cbv zeta. fold a. change (set_caches _ s) with s1.
  rewrite (bind_Ok _ _ _ _ _ (slab_run s1 a sn Hsn)) (bind_Ok _ _ _ _ _ (upd_slab_run s1 a sn _ Hsn)).
  set (sn1 := with_active _ sn) in *. set (s2 := set_slabs (<[a := sn1]> s1.(slabs)) s1).
  assert (Hsn2 : s2.(slabs) !! a = Some sn1) by apply lookup_insert_eq.
  destruct (i_slabs L s Hs _ _ Hsn) as [[Hpa _] Hcol (cn2 & Hc2 & _ & [_ Hle] & _)].
  rewrite Ho Hc in Hc2. injection Hc2 as <-.
  rewrite Ex (bind_Ok _ _ _ _ _ (get_obj_index_run s2 a sn1 cn i Hsn2 Hcol Hsz Hpa Hn Hi)).
  destruct (Z.leb_spec 0 (sn.(active) - 1)), (Z.ltb_spec (sn.(active) - 1) (Z.of_nat (length sn.(freelist)))); try lia. cbn [andb].
  rewrite (bind_Ok _ _ _ _ _ (upd_slab_run s2 a sn1 _ Hsn2)). set (sn2 := with_freelist _ sn1) in *.
  set (s3 := set_slabs (<[a := sn2]> s2.(slabs)) s2). assert (E3 : s3 = set_slabs (<[a := sn2]> s1.(slabs)) s1).
  { unfold s3, s2, set_slabs. cbn. by rewrite insert_insert_eq. }
  destruct (relist L s3 a c sn2 cn1) as (s' & cn' & E & Hs' & Esl & Ec & Hsh & Harr); [|by apply lookup_insert_eq|done|done|cbn; lia|cbn; lia|].
  { rewrite E3. split; [done|]. eapply lists_slab; [done|exact Hsn|done|cbn; lia]. }
  exists s', cn'. split; [exact E|]. split; [done|]. rewrite Ec lookup_insert_eq Harr. split; [done|]. split.
  { cbn. apply list_lookup_insert_eq. by eapply lookup_lt_Some. }
  intros y (sny & cny & j & Hsny & Hoy & Hcy & Hj & Ey). rewrite Hc in Hcy. injection Hcy as <-. destruct Hsh as [Esz Enum].
  cbn in Esz, Enum. destruct (decide (PAGE_BASE y = a)) as [Ea|Hne].
  - exists sn2, cn', j. rewrite Esl E3 Ec lookup_insert_eq Esz Enum. split; [cbn; rewrite Ea; apply lookup_insert_eq|]. split; [done|].
    split; [done|]. split; [done|exact Ey].
  - exists sny, cn', j. rewrite Esl E3 Ec lookup_insert_eq Esz Enum. split; [cbn; by rewrite lookup_insert_ne|]. split; [done|].
    split; [done|]. split; [done|exact Ey].
Qed.

(** What was pushed last is handed out next. *)
Lemma kalloc_pop_run s cpu c cn size x v e : 0 ≤ size < 2048 → s.(kmem_cache_array) !! size = Some c → s.(caches) !! c = Some cn →
  cn.(array_cache) !! cpu = Some (mkArray (v + 1) (<[Z.to_nat v := x]> e)) → 0 ≤ v < Z.of_nat (length e) →
  ∃ s', kalloc cpu size s = Ok (x, s').
Proof.
  intros Hsz Harr Hc Hac Hv. unfold kalloc, array_at. destruct (Z.leb_spec 0 size), (Z.ltb_spec size 2048); try lia. cbn [andb].
  rewrite (bind_Ok _ _ s (s.(kmem_cache_array) !! size) s) // Harr (bind_Ok _ _ _ _ _ (cache_run _ _ _ Hc)) Hac (bind_Ok _ _ s (mkArray (v + 1) (<[Z.to_nat v := x]> e)) s) //.
  cbn [avail entry]. destruct (Z.ltb_spec 0 (v + 1)); [|lia]. rewrite (bind_Ok _ _ _ _ _ (upd_cache_run s c cn _ Hc)).
  replace (v + 1 - 1) with v by lia. rewrite list_lookup_insert_eq; [|lia]. by eexists.
Qed.

Lemma live_index L s c cn x size : core L s → L !! x = Some size → object s c x → s.(caches) !! c = Some cn →
  cn.(object_size) = size ∧ 1 ≤ size < 2048 ∧ s.(kmem_cache_array) !! size = Some c.
Proof.
  intros Hs HL Hob Hc. destruct (i_live L s Hs _ _ HL) as (c' & cn' & Hob' & Hc' & Es).
  rewrite (object_cache _ _ _ _ Hob' Hob) Hc in Hc'. injection Hc' as <-. destruct (i_caches L s Hs _ _ Hc) as [[Hsz _ _ Hix _ _ _] _].
  by rewrite Es in Hsz Hix.
Qed.

Lemma kfree_spec L s cpu x size : slab_inv L s → (cpu < CPU_NUM)%nat → L !! x = Some size →
  ∃ s', kfree cpu x s = Ok (tt, s') ∧ slab_inv (delete x L) s' ∧ ∃ s'', kalloc cpu size s' = Ok (x, s'').
Proof.
  intros Hs Hcpu HL. pose proof Hs as [Hcore Hl]. destruct (i_live L s Hcore _ _ HL) as (c & cn & Hob & Hc & Es).
  pose proof Hob as (sn & _ & _ & Hsn & Ho & _). destruct (array_of L s c cn cpu Hcore Hc Hcpu) as (ac & Hac & [[Ha0 Ha1] Hlen]).
  unfold kfree. rewrite (bind_Ok _ _ _ _ _ (slab_run s _ _ Hsn)). cbv zeta. rewrite Ho (bind_Ok _ _ _ _ _ (cache_run _ _ _ Hc)).
  rewrite Hac (bind_Ok _ _ s ac s) //.
  assert (∃ s1 cn1 ac1, (if ac.(avail) =? AC_LIMIT then cache_flusharray cpu c else mret tt) s = Ok (tt, s1) ∧ slab_inv L s1 ∧
    s1.(caches) !! c = Some cn1 ∧ cn1.(array_cache) !! cpu = Some ac1 ∧ 0 ≤ ac1.(avail) < AC_LIMIT ∧
    Z.of_nat (length ac1.(entry)) = AC_LIMIT ∧ object s1 c x) as (s1 & cn1 & ac1 & E1 & Hs1 & Hc1 & Hac1 & Hav & Hlen1 & Hob1).
  { unfold AC_LIMIT in *. destruct (Z.eqb_spec ac.(avail) 10).
    - destruct (cache_flusharray_run L s c cn cpu ac Hs Hc Hac ltac:(lia)) as (s1 & cn1 & E1 & Hs1 & Hc1 & Hac1 & Hobs).
      exists s1, cn1. eexists. split_and!; [done..| | |done|by apply Hobs]; cbn; lia.
    - exists s, cn, ac. split_and!; try done; lia. }
  rewrite (bind_Ok _ _ _ _ _ E1) (bind_Ok _ _ _ _ _ (cache_run _ _ _ Hc1)) Hac1 (bind_Ok _ _ s1 ac1 s1) //.
  destruct (Z.ltb_spec ac1.(avail) 0), (Z.leb_spec (Z.of_nat (length ac1.(entry))) ac1.(avail)); try lia. cbn [orb].
  rewrite (bind_Ok _ _ _ _ _ (upd_cache_run s1 c cn1 _ Hc1)). destruct Hs1 as [Hcore1 Hl1].
  pose proof (core_push L s1 c cn1 cpu ac1 x size Hcore1 Hc1 Hac1 ltac:(lia) HL Hob1) as Hcore2.
  destruct (Z.eqb_spec (u32 (ac1.(avail) + 1)) 0) as [E0|_]; [rewrite u32_small in E0; unfold AC_LIMIT in *; lia|].
  cbn [andb]. eexists. split; [done|]. split; [split; [done|by apply lists_arrays]|].
  destruct (live_index L s1 c cn1 x size Hcore1 HL Hob1 Hc1) as (_ & Hsz & Hix).
  eapply (kalloc_pop_run _ cpu c _ size x ac1.(avail) ac1.(entry)); [lia|exact Hix|apply lookup_insert_eq| |lia].
  cbn. apply list_lookup_insert_eq. by eapply lookup_lt_Some.
Qed.

(** ** Reachable states *)

(** The states that calls of [kalloc] and [kfree] reach, with the live objects. *)
Inductive reach : gmap Z Z → slab_state P → Prop :=
| reach_init s : s.(slabs) = ∅ → s.(caches) = ∅ → s.(kmem_cache_array) = ∅ → reach ∅ s
| reach_alloc L s cpu size x s' : reach L s → (cpu < CPU_NUM)%nat → 1 ≤ size < 2048 →
    kalloc cpu size s = Ok (x, s') → reach (<[x := size]> L) s'
| reach_free L s cpu x s' : reach L s → (cpu < CPU_NUM)%nat → is_Some (L !! x) →
    kfree cpu x s = Ok (tt, s') → reach (delete x L) s'.

Lemma reach_inv L s : reach L s → slab_inv L s.
Proof.
  induction 1 as [s E1 E2 E3|L s cpu size x s' _ IH Hcpu Hsz E|L s cpu x s' _ IH Hcpu [size Hx] E].
  - split; [split|]; rewrite ?E1 ?E2 ?E3; try done. intros c cn a. by rewrite E2.
  - destruct (kalloc_spec L s cpu size IH Hcpu Hsz) as [(x' & s1 & E' & _ & Hs1)|[E' _]]; rewrite E in E'; [|done]. by injection E' as <- <-.
  - destruct (kfree_spec L s cpu x size IH Hcpu Hx) as (s1 & E' & Hs1 & _). rewrite E in E'. by injection E' as <-.
Qed.

(** C36: In every state that calls of [kalloc] and [kfree] reach, live objects do not
    overlap one another, and each lies in a page of its own allocator, behind
    that page's header and table and before the place of a cache. *)
Theorem live_objects_disjoint L s x n (Hr : reach L s) (Hx : L !! x = Some n) :
  (∀ y m, L !! y = Some m → x ≠ y → x + n ≤ y ∨ y + m ≤ x) ∧
  is_Some (s.(slabs) !! PAGE_BASE x) ∧ PAGE_BASE x ∉ free_pages s.(source) ∧
  PAGE_BASE x + sizeof_SlabNode + 4 * objects_per_slab n ≤ x ∧ x + n ≤ PAGE_BASE x + PAGE_SIZE - sizeof_CacheNode.
Proof.
  apply reach_inv in Hr as [Hs _]. split; [intros y m Hy Hne; by eapply live_disjoint|].
  destruct (live_place L s x n Hs Hx) as (sn & Hsn & _ & H1 & H2). destruct (i_slabs L s Hs _ _ Hsn) as [[_ Hf] _ _].
  split; [by exists sn|]. done.
Qed.

(** In every reachable state [kalloc] of a size the array has a place for hands out
    an object that is not live, or faults, and then no page is left: it does
    not test for that. *)
Theorem kalloc_correct L s cpu size (Hr : reach L s) (Hcpu : (cpu < CPU_NUM)%nat) (Hsz : 1 ≤ size < 2048) :
  (∃ x s', kalloc cpu size s = Ok (x, s') ∧ L !! x = None ∧ reach (<[x := size]> L) s') ∨
  (kalloc cpu size s = Fail Faulted ∧ kalloc_page s.(source) = None).
Proof.
  destruct (kalloc_spec L s cpu size (reach_inv _ _ Hr) Hcpu Hsz) as [(x & s' & E & HL & _)|?]; [left|by right].
  exists x, s'. split; [done|]. split; [done|]. by eapply reach_alloc.
Qed.

(** C37: In every reachable state [kfree] of a live object returns, and the next [kalloc]
    of its size on the same processor hands it out again. *)
Theorem kfree_correct L s cpu x size (Hr : reach L s) (Hcpu : (cpu < CPU_NUM)%nat) (Hx : L !! x = Some size) :
  ∃ s' s'', kfree cpu x s = Ok (tt, s') ∧ reach (delete x L) s' ∧ kalloc cpu size s' = Ok (x, s'').
Proof.
  destruct (kfree_spec L s cpu x size (reach_inv _ _ Hr) Hcpu Hx) as (s' & E & _ & s'' & E').
  exists s', s''. split; [done|]. split; [|done]. eapply reach_free; [done|done|by exists size|done].
Qed.
End invariant.

(** ** Examples *)

Section examples.

(** The pages [KSPACE_MASK + 1 * PAGE_SIZE] to [KSPACE_MASK + n * PAGE_SIZE]. *)
Definition page_no (k : Z) : Z := KSPACE_MASK + k * 4096.
#[local] Program Instance countdown : PageSource Z := {|
  kalloc_page n := if (0 <? n) && (n <? 100) then Some (page_no n, n - 1) else None;
  kfree_page _ n := n;
  free_pages n := list_to_set (page_no <$> zseq 1 (n + 1));
|}.
Next Obligation.
  intros n a n' E. cbn in E. destruct (Z.ltb_spec 0 n), (Z.ltb_spec n 100); try done. injection E as <- <-. split_and!.
  - unfold page_ok, page_no, KSPACE_MASK, PAGE_SIZE. change (2 ^ 64) with 18446744073709551616. split; [lia|].
    rewrite Z.mod_add //.
  - rewrite elem_of_list_to_set list_elem_of_fmap. exists n. rewrite elem_of_zseq. split; [done|lia].
  - apply set_eq. intros x. rewrite elem_of_difference !elem_of_list_to_set !list_elem_of_fmap not_elem_of_singleton.
    setoid_rewrite elem_of_zseq. unfold page_no. split.
    + intros (k & -> & Hk). split; [exists k; split; [done|lia]|lia].
    + intros [(k & -> & Hk) Hne]. exists k. split; [done|]. lia.
Qed.

Definition state_of {B} (d : slab_state Z) (r : outcome (B * slab_state Z)) : slab_state Z := match r with Ok (_, s) => s | Fail _ => d end.
Definition ex_start : slab_state Z := mkState ∅ ∅ ∅ 9.
Definition ex_one : slab_state Z := state_of ex_start (kalloc 0 24 ex_start).
Definition ex_two : slab_state Z := state_of ex_start (kalloc 1 24 ex_one).
Definition ex_x : Z := KSPACE_MASK + 9 * 4096 + 40 + 520.

Lemma ex_reach_one : reach {[ex_x := 24]} ex_one.
Proof. apply (reach_alloc ∅ ex_start 0 24); [by apply reach_init|unfold CPU_NUM; lia|lia|]. vm_compute. reflexivity. Qed.
Lemma ex_reach_two : reach (<[ex_x + 24 := 24]> {[ex_x := 24]}) ex_two.
Proof. apply (reach_alloc _ ex_one 1 24); [apply ex_reach_one|unfold CPU_NUM; lia|lia|]. vm_compute. reflexivity. Qed.

Lemma live_objects_disjoint_witness : ex_x + 24 ≤ ex_x + 24 ∨ ex_x + 24 + 24 ≤ ex_x.
Proof. apply (live_objects_disjoint _ ex_two ex_x 24 ex_reach_two); [by vm_compute|by vm_compute|unfold ex_x; lia]. Defined.

Lemma kalloc_correct_witness :
  (∃ x s', kalloc 2 100 ex_one = Ok (x, s') ∧ ({[ex_x := 24]} : gmap Z Z) !! x = None ∧ reach (<[x := 100]> {[ex_x := 24]}) s') ∨
  (kalloc 2 100 ex_one = Fail Faulted ∧ kalloc_page ex_one.(source) = None).
Proof. apply (kalloc_correct _ ex_one 2 100 ex_reach_one); [unfold CPU_NUM; lia|lia]. Defined.

Lemma kfree_correct_witness :
  ∃ s' s'', kfree 3 ex_x ex_one = Ok (tt, s') ∧ reach (delete ex_x {[ex_x := 24]}) s' ∧ kalloc 3 24 s' = Ok (ex_x, s'').
Proof. apply (kfree_correct _ ex_one 3 ex_x 24 ex_reach_one); [unfold CPU_NUM; lia|by vm_compute]. Defined.
End examples.
