(* ===== verification/Ipc.v ===== *)
(** * Message queues

    [src/common/ipc.c]: message queues with typed messages, blocking senders
    and receivers.  A system call is a critical section under [msg_ids.lock];
    one that sleeps ends here with [Sleeps], and what the process does when it
    is woken is a definition of its own.  The nodes of the lists are on the
    stacks of the sleeping processes: a queue holds the processes' numbers, and
    [waits] the structures.  The allocators of [mem.c] are an interface. *)

From iris.prelude Require Import prelude.
From S2P Require Import Prelude.
#[local] Open Scope Z_scope.

(** ** Constants *)

Definition ENOMEM : Z := -1.
Definition ENOSEQ : Z := -2.
Definition ENOENT : Z := -3.
Definition EEXIST : Z := -4.
Definition EINVAL : Z := -5.
Definition EAGAIN : Z := -6.
Definition EIDRM : Z := -7.
Definition E2BIG : Z := -8.
Definition ENOMSG : Z := -9.
Definition IPC_RMID : Z := 0.
Definition SEQ_MULTIPLIER : Z := 16.
Definition IPC_PRIVATE : Z := 0.
Definition IPC_CREATE : Z := 2.
Definition IPC_EXCL : Z := 1.
Definition IPC_NOWAIT : Z := 1.
Definition MAX_MSGNUM : Z := 256.
(** A page less the header of a message (two pointers, two integers and a
    pointer), and less that of a further segment (a pointer). *)
Definition MSG_MSGSZ : Z := 4096 - 32.
Definition MSG_MSGSEGSZ : Z := 4096 - 8.

(** ** Data *)

(** The bytes of the first page and those of the further segments. *)
Record msg_msg : Type := Msg { m_type : Z; m_size : Z; m_data : list Z; m_segs : list (list Z) }.

(** [r_msg]: [None] as long as nobody has written it, [Some None] for NULL. *)
Record msg_receiver : Type := Receiver { r_type : Z; r_size : Z; r_msg : option (option msg_msg) }.

Record msg_queue : Type := Queue {
  key : Z;
  seq : Z;
  max_msg : Z;
  sum_msg : Z;
  q_message : list msg_msg;
  q_sender : list Z;
  q_receiver : list Z;
}.

(** What the code needs of [kalloc], [kalloc_page] and their inverses.
    [pages_used] counts the pages that callers of [kalloc_page] hold; those that
    [kalloc] takes for its slabs are not among them. *)
Class Allocator (A : Type) := {
  kalloc : A → option A;
  kalloc_page : A → option A;
  kfree : A → A;
  kfree_page : A → A;
  pages_used : A → Z;
  kalloc_page_used : ∀ a a', kalloc_page a = Some a' → pages_used a' = pages_used a + 1;
  kfree_page_used : ∀ a, pages_used (kfree_page a) = pages_used a - 1;
  kalloc_used : ∀ a a', kalloc a = Some a' → pages_used a' = pages_used a;
  kfree_used : ∀ a, pages_used (kfree a) = pages_used a;
}.

(** [user] is user memory by byte, [user_type] the [mtype] of the [msgbuf] whose
    data starts at an address; [activated] are the calls of [activate_proc]. *)
Record ipc (A : Type) : Type := Ipc {
  locked : bool;
  in_use : Z;
  next_seq : Z;
  entries : list (option msg_queue);
  waits : gmap Z msg_receiver;
  activated : list Z;
  heap : A;
  user : Z → Z;
  user_type : Z → Z;
}.
Arguments locked {A} _.
Arguments in_use {A} _.
Arguments next_seq {A} _.
Arguments entries {A} _.
Arguments waits {A} _.
Arguments activated {A} _.
Arguments heap {A} _.
Arguments user {A} _.
Arguments user_type {A} _.
Arguments Ipc {A} _ _ _ _ _ _ _ _ _.

Definition set_locked {A} (x : bool) (s : ipc A) : ipc A := Ipc x s.(in_use) s.(next_seq) s.(entries) s.(waits) s.(activated) s.(heap) s.(user) s.(user_type).
Definition set_in_use {A} (x : Z) (s : ipc A) : ipc A := Ipc s.(locked) x s.(next_seq) s.(entries) s.(waits) s.(activated) s.(heap) s.(user) s.(user_type).
Definition set_next_seq {A} (x : Z) (s : ipc A) : ipc A := Ipc s.(locked) s.(in_use) x s.(entries) s.(waits) s.(activated) s.(heap) s.(user) s.(user_type).
Definition set_entries {A} (x : list (option msg_queue)) (s : ipc A) : ipc A := Ipc s.(locked) s.(in_use) s.(next_seq) x s.(waits) s.(activated) s.(heap) s.(user) s.(user_type).
Definition set_waits {A} (x : gmap Z msg_receiver) (s : ipc A) : ipc A := Ipc s.(locked) s.(in_use) s.(next_seq) s.(entries) x s.(activated) s.(heap) s.(user) s.(user_type).
Definition set_activated {A} (x : list Z) (s : ipc A) : ipc A := Ipc s.(locked) s.(in_use) s.(next_seq) s.(entries) s.(waits) x s.(heap) s.(user) s.(user_type).
Definition set_heap {A} (x : A) (s : ipc A) : ipc A := Ipc s.(locked) s.(in_use) s.(next_seq) s.(entries) s.(waits) s.(activated) x s.(user) s.(user_type).
Definition set_user {A} (x : Z → Z) (s : ipc A) : ipc A := Ipc s.(locked) s.(in_use) s.(next_seq) s.(entries) s.(waits) s.(activated) s.(heap) x s.(user_type).
Definition set_user_type {A} (x : Z → Z) (s : ipc A) : ipc A := Ipc s.(locked) s.(in_use) s.(next_seq) s.(entries) s.(waits) s.(activated) s.(heap) s.(user) x.

Definition with_sum_msg (x : Z) (q : msg_queue) : msg_queue := Queue q.(key) q.(seq) q.(max_msg) x q.(q_message) q.(q_sender) q.(q_receiver).
Definition with_q_message (x : list msg_msg) (q : msg_queue) : msg_queue := Queue q.(key) q.(seq) q.(max_msg) q.(sum_msg) x q.(q_sender) q.(q_receiver).
Definition with_q_sender (x : list Z) (q : msg_queue) : msg_queue := Queue q.(key) q.(seq) q.(max_msg) q.(sum_msg) q.(q_message) x q.(q_receiver).
Definition with_q_receiver (x : list Z) (q : msg_queue) : msg_queue := Queue q.(key) q.(seq) q.(max_msg) q.(sum_msg) q.(q_message) q.(q_sender) x.

(** ** Code *)

Section code.
Context {A : Type} `{Allocator A}.
Abbreviation M := (M (ipc A)).

(** A call that returns, or sleeps with what it has to remember. *)
Inductive answer (B : Type) : Type := Ret (r : Z) | Sleeps (b : B).
#[local] Arguments Ret {B} r.
#[local] Arguments Sleeps {B} b.

(** [_acquire_spinlock(&msg_ids.lock)]: spinning on a lock one holds never ends. *)
Definition acquire : M unit := l ← gets locked; if l : bool then fail Asleep else modify (set_locked true).
Definition release : M unit := modify (set_locked false).
Definition activate_proc (p : Z) : M unit := modify (λ s, set_activated (s.(activated) ++ [p]) s).

Definition entry (id : Z) : M (option msg_queue) :=
  es ← gets entries; if id <? 0 then fault else deref (es !! Z.to_nat id).
Definition set_entry (id : Z) (q : option msg_queue) : M unit := modify (λ s, set_entries (<[Z.to_nat id := q]> s.(entries)) s).

Definition init_ipc : M unit :=
  release ;;
  modify (set_in_use 0) ;;
  modify (set_next_seq 0) ;;
  modify (set_entries (replicate 16 None)).

(** The first free entry. *)
Definition ipc_addid (q : Z → msg_queue) : M Z :=
  es ← gets entries;
  match list_find (λ e, e = None) es with
  | None => mret (-1)
  | Some (id, _) =>
      modify (λ s, set_in_use (s.(in_use) + 1) s) ;;
      sq ← gets next_seq;
      modify (set_next_seq (u16 (sq + 1))) ;;
      set_entry (Z.of_nat id) (Some (q sq)) ;;
      mret (Z.of_nat id)
  end.

Definition ipc_buildin (id seq : Z) : Z := seq * SEQ_MULTIPLIER + id.

Definition newque (k : Z) : M Z :=
  a ← gets heap;
  match kalloc a with
  | None => mret ENOMEM
  | Some a =>
      modify (set_heap a) ;;
      id ← ipc_addid (λ sq, Queue k sq MAX_MSGNUM 0 [] [] []);
      if id <? 0 then modify (λ s, set_heap (kfree s.(heap)) s) ;; mret ENOSEQ
      else
        e ← entry id;
        q ← deref e;
        mret (ipc_buildin id q.(seq))
  end.

Definition has_key (k : Z) (e : option msg_queue) : Prop := match e with Some q => q.(key) = k | None => False end.
#[global] Instance has_key_dec k e : Decision (has_key k e).
Proof. unfold has_key. destruct e; apply _. Defined.

Definition ipc_findkey (k : Z) : M Z :=
  es ← gets entries;
  mret (match list_find (has_key k) es with Some (id, _) => Z.of_nat id | None => -1 end).

Definition flag (msgflg f : Z) : bool := negb (Z.land msgflg f =? 0).

Definition sys_msgget (k msgflg : Z) : M Z :=
  acquire ;;
  ret ← (if k =? IPC_PRIVATE then newque k
         else
           id ← ipc_findkey k;
           if id =? -1 then (if flag msgflg IPC_CREATE then newque k else mret ENOENT)
           else if flag msgflg IPC_EXCL then mret EEXIST
           else e ← entry id; q ← deref e; mret (ipc_buildin id q.(seq)));
  release ;;
  mret ret.

(** *** Messages in kernel pages *)

Definition free_pages (n : nat) : M unit := for_each (List.seq 0 n) (λ _, modify (λ s, set_heap (kfree_page s.(heap)) s)).
Definition free_msg (m : msg_msg) : M unit := free_pages (S (length m.(m_segs))).

(** [memcpy] between user memory and a page. *)
Definition copy_in (src n : Z) : M (list Z) := gets (λ s, s.(user) <$> zseq src (src + n)).
Definition copy_out (dst : Z) (bs : list Z) : M unit :=
  modify (λ s, set_user (λ a, if (dst <=? a) && (a <? dst + Z.of_nat (length bs))
                              then default 0 (bs !! Z.to_nat (a - dst)) else s.(user) a) s).

Definition alloc_page : M bool :=
  a ← gets heap;
  match kalloc_page a with
  | Some a => modify (set_heap a) ;; mret true
  | None => mret false
  end.

(** The loop over the segments, with those made so far; [None] when a page is missing. *)
Fixpoint load_segs (fuel : nat) (src len : Z) (segs : list (list Z)) : M (option (list (list Z))) :=
  match fuel with
  | O => fail OutOfFuel
  | S fuel =>
      if 0 <? len then
        ok ← alloc_page;
        if ok : bool then
          data ← copy_in src (Z.min MSG_MSGSEGSZ len);
          let len := len - Z.min MSG_MSGSEGSZ len in
          load_segs fuel (src + Z.min MSG_MSGSEGSZ len) len (segs ++ [data])
        else free_pages (S (length segs)) ;; mret None
      else mret (Some segs)
  end.

Definition load_msg (src len : Z) : M (option (list Z * list (list Z))) :=
  ok ← alloc_page;
  if ok : bool then
    data ← copy_in src (Z.min MSG_MSGSZ len);
    let len := len - Z.min MSG_MSGSZ len in
    segs ← load_segs (S (Z.to_nat len)) (src + Z.min MSG_MSGSZ len) len [];
    mret ((λ segs, (data, segs)) <$> segs)
  else mret None.

Fixpoint store_segs (dst msgsz : Z) (segs : list (list Z)) : M unit :=
  if 0 <? msgsz then
    match segs with
    | [] => fault
    | sg :: segs =>
        copy_out dst (take (Z.to_nat (Z.min msgsz MSG_MSGSEGSZ)) sg) ;;
        let msgsz := msgsz - Z.min msgsz MSG_MSGSEGSZ in
        store_segs (dst + Z.min msgsz MSG_MSGSEGSZ) msgsz segs
    end
  else mret tt.

Definition store_msg (msgp : Z) (m : msg_msg) (msgsz : Z) : M unit :=
  modify (λ s, set_user_type (λ a, if a =? msgp then m.(m_type) else s.(user_type) a) s) ;;
  copy_out msgp (take (Z.to_nat (Z.min msgsz MSG_MSGSZ)) m.(m_data)) ;;
  let msgsz := msgsz - Z.min MSG_MSGSZ msgsz in
  store_segs (msgp + Z.min MSG_MSGSZ msgsz) msgsz m.(m_segs).

(** *** Queues *)

Definition get_msgq (msgid : Z) : M (option (Z * msg_queue)) :=
  let id := Z.rem msgid SEQ_MULTIPLIER in
  es ← gets entries;
  if Z.of_nat (length es) <=? id then mret None
  else
    e ← entry id;
    match e with
    | None => mret None
    | Some q => mret (if Z.quot msgid SEQ_MULTIPLIER =? q.(seq) then Some (id, q) else None)
    end.

Definition testmsg (rqtype type : Z) : bool :=
  if rqtype =? 0 then true else if rqtype <? 0 then rqtype + type <=? 0 else rqtype =? type.

(** The node after [p] on the list [l], [None] for the head.  A node taken off
    a list is linked to itself. *)
Definition next_node (l : list Z) (p : Z) : option Z :=
  match list_find (λ x, x = p) l with
  | Some (i, _) => l !! S i
  | None => Some p
  end.

Definition set_waits_msg (p : Z) (m : option msg_msg) : M unit :=
  modify (λ s, set_waits (alter (λ r, Receiver r.(r_type) r.(r_size) (Some m)) p s.(waits)) s).

(** [_for_in_list(node, &msgq->q_receiver)] from [node] on. *)
Fixpoint pipeline_loop (fuel : nat) (id : Z) (m : msg_msg) (node : option Z) : M bool :=
  match fuel with
  | O => fail OutOfFuel
  | S fuel =>
      match node with
      | None => mret false
      | Some p =>
          w ← gets waits;
          r ← deref (w !! p);
          e ← entry id;
          q ← deref e;
          if testmsg r.(r_type) m.(m_type) then
            set_entry id (Some (with_q_receiver (filter (λ x, x ≠ p) q.(q_receiver)) q)) ;;
            if r.(r_size) <? m.(m_size) then
              set_waits_msg p None ;;
              activate_proc p ;;
              pipeline_loop fuel id m (next_node (filter (λ x, x ≠ p) q.(q_receiver)) p)
            else
              set_waits_msg p (Some m) ;;
              activate_proc p ;;
              mret true
          else pipeline_loop fuel id m (next_node q.(q_receiver) p)
      end
  end.
Definition pipeline_send (fuel : nat) (id : Z) (m : msg_msg) : M bool :=
  e ← entry id;
  q ← deref e;
  pipeline_loop fuel id m (head q.(q_receiver)).

(** *** Sending *)

(** From [retry:] on; [me] is the calling process. *)
Definition msgsnd_retry (fuel : nat) (me msgid : Z) (m : msg_msg) (msgflg : Z) : M (answer msg_msg) :=
  acquire ;;
  r ← get_msgq msgid;
  match r with
  | None => release ;; free_msg m ;; mret (Ret EIDRM)
  | Some (id, q) =>
      if q.(max_msg) <? q.(sum_msg) + 1 then
        if flag msgflg IPC_NOWAIT then release ;; free_msg m ;; mret (Ret EAGAIN)
        else
          set_entry id (Some (with_q_sender (q.(q_sender) ++ [me]) q)) ;;
          release ;;
          mret (Sleeps m)
      else
        sent ← pipeline_send fuel id m;
        (if sent : bool then mret tt
         else
           e ← entry id;
           q ← deref e;
           set_entry id (Some (with_sum_msg (q.(sum_msg) + 1) (with_q_message (q.(q_message) ++ [m]) q)))) ;;
        release ;;
        mret (Ret 0)
  end.

Definition sys_msgsnd (fuel : nat) (me msgid msgp msgsz msgflg : Z) : M (answer msg_msg) :=
  t ← gets user_type;
  if (msgsz <? 0) || (msgp =? 0) || (t msgp <? 1) then mret (Ret EINVAL)
  else
    r ← load_msg msgp msgsz;
    match r with
    | None => mret (Ret ENOMEM)
    | Some (data, segs) => msgsnd_retry fuel me msgid (Msg (t msgp) msgsz data segs) msgflg
    end.

(** *** Receiving *)

Definition ss_wakeup (l : list Z) : M unit := for_each l activate_proc.

(** The index of the message to take: the last that the loop stops at. *)
Fixpoint find_msg (l : list msg_msg) (i : nat) (mtype : Z) (found : option nat) : option nat :=
  match l with
  | [] => found
  | m :: l =>
      if testmsg mtype m.(m_type) then
        if mtype <? -1 then find_msg l (S i) (mtype + 1) (Some i) else Some i
      else find_msg l (S i) mtype found
  end.

(** What follows when there is a message. *)
Definition take_msg (m : msg_msg) (msgp msgsz : Z) : M (answer unit) :=
  let n := Z.min msgsz m.(m_size) in
  store_msg msgp m n ;;
  free_msg m ;;
  mret (Ret n).

Definition sys_msgrcv (me msgid msgp msgsz mtype msgflg : Z) : M (answer unit) :=
  if (msgsz <? 0) || (msgp =? 0) then mret (Ret EINVAL)
  else
    acquire ;;
    r ← get_msgq msgid;
    match r with
    | None => release ;; mret (Ret EIDRM)
    | Some (id, q) =>
        match find_msg q.(q_message) 0 mtype None with
        | Some i =>
            m ← deref (q.(q_message) !! i);
            if msgsz <? m.(m_size) then release ;; mret (Ret E2BIG)
            else
              set_entry id (Some (with_q_sender [] (with_sum_msg (q.(sum_msg) - 1) (with_q_message (delete i q.(q_message)) q)))) ;;
              ss_wakeup q.(q_sender) ;;
              release ;;
              take_msg m msgp msgsz
        | None =>
            if flag msgflg IPC_NOWAIT then release ;; mret (Ret ENOMSG)
            else
              set_entry id (Some (with_q_receiver (q.(q_receiver) ++ [me]) q)) ;;
              modify (λ s, set_waits (<[me := Receiver mtype msgsz None]> s.(waits)) s) ;;
              release ;;
              mret (Sleeps tt)
        end
    end.

(** Woken up: what [receiver.r_msg] holds, which is garbage when nobody wrote it. *)
Definition msgrcv_wake (me msgp msgsz : Z) : M (answer unit) :=
  w ← gets waits;
  r ← deref (w !! me);
  m ← deref r.(r_msg);
  match m with
  | None => mret (Ret E2BIG)
  | Some m => take_msg m msgp msgsz
  end.

(** *** Removing *)

Definition expunge_all (l : list Z) : M unit := for_each l (λ p, set_waits_msg p None ;; activate_proc p).

Definition freeque (msgid : Z) : M unit :=
  acquire ;;
  r ← get_msgq msgid;
  match r with
  | None => mret tt
  | Some (_, q) =>
      set_entry (Z.rem msgid SEQ_MULTIPLIER) None ;;
      ss_wakeup q.(q_receiver) ;;
      (* [q_receiver] is empty now *)
      expunge_all [] ;;
      for_each q.(q_message) free_msg ;;
      modify (λ s, set_in_use (s.(in_use) - 1) s) ;;
      modify (λ s, set_heap (kfree s.(heap)) s)
  end ;;
  release.

Definition sys_msgctl (msgid cmd : Z) : M Z :=
  if cmd =? IPC_RMID then freeque msgid ;; mret 0 else mret EINVAL.
End code.
Arguments Ret {B} r.
Arguments Sleeps {B} b.

(** ** Invariant *)

Section invariant.
Context {A : Type} `{Allocator A}.
Abbreviation M := (M (ipc A)).
Implicit Types s : ipc A.

Definition live (e : option msg_queue) : bool := match e with Some _ => true | None => false end.
Definition live_count (es : list (option msg_queue)) : Z := Z.of_nat (length (filter (λ e, live e = true) es)).

(** A waiting receiver is known, and no queued message is one it would take;
    senders only wait on a full queue. *)
Definition matches (w : gmap Z msg_receiver) (m : msg_msg) (p : Z) : bool :=
  match w !! p with Some r => testmsg r.(r_type) m.(m_type) | None => false end.
Record queue_ok (w : gmap Z msg_receiver) (q : msg_queue) : Prop := {
  q_max : q.(max_msg) = MAX_MSGNUM;
  q_sum : q.(sum_msg) = Z.of_nat (length q.(q_message)) ∧ q.(sum_msg) ≤ q.(max_msg);
  q_full : q.(q_sender) ≠ [] → q.(sum_msg) = q.(max_msg);
  q_nodup : NoDup q.(q_receiver);
  q_waits : ∀ p, p ∈ q.(q_receiver) → is_Some (w !! p);
  q_nomatch : ∀ p m, p ∈ q.(q_receiver) → m ∈ q.(q_message) → matches w m p = false;
}.

Record ipc_wf s : Prop := {
  i_size : length s.(entries) = 16%nat;
  i_count : s.(in_use) = live_count s.(entries);
  i_seq : 0 ≤ s.(next_seq) < 2 ^ 16;
  i_queues : ∀ i q, s.(entries) !! i = Some (Some q) → queue_ok s.(waits) q ∧ 0 ≤ q.(seq) < 2 ^ 16;
  i_keys : ∀ i j q q', s.(entries) !! i = Some (Some q) → s.(entries) !! j = Some (Some q') →
             q.(key) = q'.(key) → q.(key) ≠ IPC_PRIVATE → i = j;
}.

(** Between two calls the lock is free. *)
Definition ipc_ok s : Prop := s.(locked) = false ∧ ipc_wf s.

(** [p] is asleep in no queue. *)
Definition awake s (p : Z) : Prop := ∀ i q, s.(entries) !! i = Some (Some q) → p ∉ q.(q_receiver).

(** *** Running the code *)

Lemma get_msgq_run msgid s :
  length s.(entries) = 16%nat → 0 ≤ msgid →
  get_msgq msgid s = Ok (match s.(entries) !! Z.to_nat (msgid mod 16) with
                         | Some (Some q) => if msgid / 16 =? q.(seq) then Some (msgid mod 16, q) else None
                         | _ => None
                         end, s).
Proof.
  intros Hl Hid. unfold get_msgq, SEQ_MULTIPLIER. rewrite Z.rem_mod_nonneg // Z.quot_div_nonneg //.
  pose proof (Z.mod_pos_bound msgid 16 ltac:(done)) as Hb. rewrite bind_run. cbn [gets]. rewrite Hl.
  destruct (Z.leb_spec (Z.of_nat 16) (msgid mod 16)); [lia|]. unfold entry. rewrite !bind_run. cbn [gets].
  destruct (Z.ltb_spec (msgid mod 16) 0); [lia|].
  destruct (lookup_lt_is_Some_2 (entries s) (Z.to_nat (msgid mod 16))) as [e E]; [lia|]. rewrite E. by destruct e.
Qed.

Lemma entry_run id s e : s.(entries) !! Z.to_nat id = Some e → 0 ≤ id → entry id s = Ok (e, s).
Proof. intros E Hid. unfold entry. rewrite bind_run. cbn [gets]. destruct (Z.ltb_spec id 0); [lia|]. by rewrite E. Qed.

(** *** [pipeline_send] *)

(** A message handed to receiver [p]. *)
Definition handed (id : Z) (q : msg_queue) (p : Z) (m : option msg_msg) s : ipc A :=
  set_activated (s.(activated) ++ [p])
    (set_waits (alter (λ r, Receiver r.(r_type) r.(r_size) (Some m)) p s.(waits))
       (set_entries (<[Z.to_nat id := Some (with_q_receiver (filter (λ x, x ≠ p) q.(q_receiver)) q)]> s.(entries)) s)).

(** One turn of the loop at receiver [p]. *)
Lemma pipeline_step fuel id m p r q s :
  s.(waits) !! p = Some r → s.(entries) !! Z.to_nat id = Some (Some q) → 0 ≤ id →
  pipeline_loop (S fuel) id m (Some p) s =
  if testmsg r.(r_type) m.(m_type) then
    if r.(r_size) <? m.(m_size) then
      pipeline_loop fuel id m (next_node (filter (λ x, x ≠ p) q.(q_receiver)) p) (handed id q p None s)
    else Ok (true, handed id q p (Some m) s)
  else pipeline_loop fuel id m (next_node q.(q_receiver) p) s.
Proof.
  intros Hw He Hid. cbn [pipeline_loop]. rewrite (bind_Ok _ _ s (waits s) s) // Hw (bind_Ok _ _ s r s) //.
  rewrite (bind_Ok _ _ s _ s (entry_run _ _ _ He Hid)) (bind_Ok _ _ s q s) //.
  destruct (testmsg _ _); [|done]. by destruct (_ <? _).
Qed.

Lemma next_node_detached (p : Z) (l : list Z) : next_node (filter (λ x, x ≠ p) l) p = Some p.
Proof.
  unfold next_node. destruct (list_find _ _) as [[i x]|] eqn:E; [|done]. exfalso.
  apply list_find_Some in E as (Hx & -> & _). apply list_elem_of_lookup_2 in Hx. by apply list_elem_of_filter in Hx as [? _].
Qed.

(** Taken off the list with too small a buffer, the node is its own
    successor: the loop comes back to it for ever. *)
Lemma pipeline_stuck fuel id m p r q s :
  s.(waits) !! p = Some r → s.(entries) !! Z.to_nat id = Some (Some q) → 0 ≤ id →
  testmsg r.(r_type) m.(m_type) = true → r.(r_size) < m.(m_size) →
  pipeline_loop fuel id m (Some p) s = Fail OutOfFuel.
Proof.
  revert r q s. induction fuel as [|fuel IH]; intros r q s Hw He Hid Ht Hs; [done|].
  rewrite (pipeline_step _ _ _ _ _ _ _ Hw He Hid) Ht. destruct (Z.ltb_spec (r_size r) (m_size m)); [|lia].
  rewrite next_node_detached.
  apply (IH (Receiver (r_type r) (r_size r) (Some None)) (with_q_receiver (filter (λ x, x ≠ p) (q_receiver q)) q)); try done.
  - cbn. by rewrite lookup_alter_eq Hw.
  - cbn. apply list_lookup_insert_eq. by eapply lookup_lt_Some.
Qed.

(** The first receiver that a message matches. *)
Definition taker s (m : msg_msg) (l : list Z) : option (nat * Z) := list_find (λ p, matches s.(waits) m p = true) l.

Definition size_of s (p : Z) : Z := match s.(waits) !! p with Some r => r.(r_size) | None => 0 end.

Lemma next_node_at (l1 l2 : list Z) p : NoDup (l1 ++ p :: l2) → next_node (l1 ++ p :: l2) p = head l2.
Proof.
  intros Hd. unfold next_node. assert (list_find (λ x, x = p) (l1 ++ p :: l2) = Some (length l1, p)) as ->.
  { apply list_find_Some. rewrite list_lookup_middle //. split_and!; [done..|]. intros j y Hj Hlt ->.
    rewrite lookup_app_l // in Hj. apply list_elem_of_lookup_2 in Hj. apply NoDup_app in Hd as (_ & Hd & _).
    apply (Hd p Hj). by left. }
  rewrite lookup_app_r; [|lia]. replace (S (length l1) - length l1)%nat with 1%nat by lia.
  by destruct l2.
Qed.

Lemma pipeline_spec fuel id m q l1 l2 s :
  s.(entries) !! Z.to_nat id = Some (Some q) → 0 ≤ id → q.(q_receiver) = l1 ++ l2 → NoDup q.(q_receiver) →
  (∀ p, p ∈ q.(q_receiver) → is_Some (s.(waits) !! p)) → (length l2 < fuel)%nat →
  pipeline_loop fuel id m (head l2) s =
  match taker s m l2 with
  | None => Ok (false, s)
  | Some (_, p) => if size_of s p <? m.(m_size) then Fail OutOfFuel else Ok (true, handed id q p (Some m) s)
  end.
Proof.
  intros He Hid. revert l1 fuel. induction l2 as [|p l2 IH]; intros l1 fuel Hl Hd Hw Hf.
  { destruct fuel; [lia|]. done. }
  destruct fuel as [|fuel]; [cbn in Hf; lia|]. destruct (Hw p) as [r Hr]; [rewrite Hl; apply elem_of_app; right; by left|].
  cbn [head]. rewrite (pipeline_step _ _ _ _ _ _ _ Hr He Hid). unfold taker. cbn [list_find].
  assert (Hm : matches (waits s) m p = testmsg (r_type r) (m_type m)) by (unfold matches; by rewrite Hr).
  destruct (testmsg (r_type r) (m_type m)) eqn:Et.
  - rewrite decide_True //. unfold size_of. rewrite Hr. destruct (Z.ltb_spec (r_size r) (m_size m)); [|done].
    rewrite next_node_detached.
    apply (pipeline_stuck _ _ _ _ (Receiver (r_type r) (r_size r) (Some None))
             (with_q_receiver (filter (λ x, x ≠ p) (q_receiver q)) q)); try done.
    + cbn. by rewrite lookup_alter_eq Hr.
    + cbn. apply list_lookup_insert_eq. by eapply lookup_lt_Some.
  - rewrite decide_False; [|by rewrite Hm]. rewrite Hl next_node_at; [|by rewrite -Hl].
    rewrite (IH (l1 ++ [p])); [|by rewrite -app_assoc|done|done|cbn in Hf; lia].
    unfold taker. by destruct (list_find _ l2) as [[]|].
Qed.

Lemma pipeline_send_spec fuel id m q s :
  s.(entries) !! Z.to_nat id = Some (Some q) → 0 ≤ id → NoDup q.(q_receiver) →
  (∀ p, p ∈ q.(q_receiver) → is_Some (s.(waits) !! p)) → (length q.(q_receiver) < fuel)%nat →
  pipeline_send fuel id m s =
  match taker s m q.(q_receiver) with
  | None => Ok (false, s)
  | Some (_, p) => if size_of s p <? m.(m_size) then Fail OutOfFuel else Ok (true, handed id q p (Some m) s)
  end.
Proof.
  intros He Hid Hd Hw Hf. unfold pipeline_send. rewrite (bind_Ok _ _ s _ s (entry_run _ _ _ He Hid)) (bind_Ok _ _ s q s) //.
  by apply (pipeline_spec fuel id m q []).
Qed.

(** *** Changes that keep the invariant *)

Lemma live_count_mid l1 e l2 : live_count (l1 ++ e :: l2) = live_count l1 + (if live e then 1 else 0) + live_count l2.
Proof.
  unfold live_count. rewrite filter_app filter_cons !length_app. case_decide; destruct e; cbn in *; try done; lia.
Qed.

Lemma live_count_insert i e e' es :
  es !! i = Some e → live_count (<[i := e']> es) = live_count es - (if live e then 1 else 0) + (if live e' then 1 else 0).
Proof.
  intros Hi. rewrite -{2}(take_drop_middle es i e) // insert_take_drop; [|by eapply lookup_lt_Some].
  rewrite !live_count_mid. lia.
Qed.

(** A queue replaced by one with the same key and sequence number. *)
Lemma ipc_wf_update i q q' s :
  ipc_wf s → s.(entries) !! i = Some (Some q) → q'.(key) = q.(key) → q'.(seq) = q.(seq) → queue_ok s.(waits) q' →
  ipc_wf (set_entries (<[i := Some q']> s.(entries)) s).
Proof.
  intros [] He Ek Es Hq. pose proof (lookup_lt_Some _ _ _ He) as Hi.
  assert (Hold : ∀ j x, <[i := Some q']> (entries s) !! j = Some (Some x) →
    ∃ y, entries s !! j = Some (Some y) ∧ x.(key) = y.(key) ∧ x.(seq) = y.(seq) ∧ (j = i ∧ x = q' ∨ j ≠ i ∧ x = y)).
  { intros j x. destruct (decide (i = j)) as [<-|Hne].
    - rewrite list_lookup_insert_eq //. intros [= <-]. exists q. split_and!; [done..|by left].
    - rewrite list_lookup_insert_ne //. intros Hx. exists x. split_and!; [done..|by right]. }
  split; cbn; try done.
  - by rewrite length_insert.
  - rewrite (live_count_insert _ _ _ _ He). cbn. lia.
  - intros j x (y & Hy & _ & Ey & Hc)%Hold. destruct (i_queues0 _ _ Hy) as [Hyq Hys]. rewrite Ey. split; [|done].
    by destruct Hc as [[_ ->]|[_ ->]].
  - intros j k x x' (y & Hy & Ey & _)%Hold (y' & Hy' & Ey' & _)%Hold. rewrite Ey Ey'. by apply i_keys0.
Qed.

(** What a woken receiver finds in its structure does not matter to the others. *)
Lemma matches_alter w p (m : msg_msg) o p' :
  matches (alter (λ r, Receiver r.(r_type) r.(r_size) o) p w) m p' = matches w m p'.
Proof.
  unfold matches. destruct (decide (p = p')) as [->|Hne]; [|by rewrite lookup_alter_ne].
  rewrite lookup_alter_eq. by destruct (w !! p').
Qed.

Lemma queue_ok_waits w w' q :
  (∀ p, p ∈ q.(q_receiver) → is_Some (w !! p) → is_Some (w' !! p)) →
  (∀ p m, p ∈ q.(q_receiver) → matches w' m p = matches w m p) → queue_ok w q → queue_ok w' q.
Proof. intros H1 H2 []. split; eauto. Qed.

Lemma ipc_wf_waits w s :
  (∀ i q, s.(entries) !! i = Some (Some q) → queue_ok s.(waits) q → queue_ok w q) → ipc_wf s → ipc_wf (set_waits w s).
Proof. intros Hw []. split; cbn; try done. intros i q He. destruct (i_queues0 i q He). eauto. Qed.

(** The other fields are not part of it. *)
Lemma ipc_wf_rest s s' :
  s'.(in_use) = s.(in_use) → s'.(next_seq) = s.(next_seq) → s'.(entries) = s.(entries) →
  s'.(waits) = s.(waits) → ipc_wf s → ipc_wf s'.
Proof. intros E2 E3 E4 E5 []. split; rewrite ?E2 ?E3 ?E4 ?E5; done. Qed.

Lemma handed_ok id q p m s :
  ipc_wf s → s.(entries) !! Z.to_nat id = Some (Some q) → ipc_wf (handed id q p m s).
Proof.
  intros Hs He. pose proof (proj1 (i_queues s Hs _ _ He)) as [].
  assert (H1 : ipc_wf (set_entries (<[Z.to_nat id := Some (with_q_receiver (filter (λ x, x ≠ p) q.(q_receiver)) q)]> s.(entries)) s)).
  { eapply ipc_wf_update; [exact Hs|exact He|done|done|]. split; cbn; try done; [by apply NoDup_filter|..].
    - intros p' [_ Hp']%list_elem_of_filter. auto.
    - intros p' m' [_ Hp']%list_elem_of_filter. auto. }
  assert (H2 : ipc_wf (set_waits (alter (λ r, Receiver r.(r_type) r.(r_size) (Some m)) p s.(waits))
      (set_entries (<[Z.to_nat id := Some (with_q_receiver (filter (λ x, x ≠ p) q.(q_receiver)) q)]> s.(entries)) s))).
  { apply ipc_wf_waits; [|exact H1]. intros i x _ Hx. cbn in Hx. eapply queue_ok_waits; [| |exact Hx].
    - intros p' _ Hp'. destruct (decide (p = p')) as [->|Hne]; [rewrite lookup_alter_eq; by apply fmap_is_Some|by rewrite lookup_alter_ne].
    - intros p' m' _. apply matches_alter. }
  revert H2. by apply ipc_wf_rest.
Qed.

(** *** Partial triples *)

Definition hoare {B} (P : ipc A → Prop) (m : M B) (Q : B → ipc A → Prop) : Prop :=
  ∀ s b s', P s → m s = Ok (b, s') → Q b s'.
Definition I (l : bool) s : Prop := s.(locked) = l ∧ ipc_wf s.

Lemma hoare_ret {B} (P : ipc A → Prop) (b : B) (Q : B → ipc A → Prop) : (∀ s, P s → Q b s) → hoare P (mret b) Q.
Proof. intros HQ s b' s' HP [= <- <-]. by apply HQ. Qed.
Lemma hoare_bind {B C} P (m : M B) (f : B → M C) R Q :
  hoare P m R → (∀ b, hoare (R b) (f b) Q) → hoare P (m ≫= f) Q.
Proof. intros Hm Hf s c s2 HP (b & s1 & E1 & E2)%bind_inv. eapply Hf; [|exact E2]. by eapply Hm. Qed.
Lemma hoare_then {B C} P (m : M B) (f : B → M C) Q :
  hoare P m (λ _, P) → (∀ b, hoare P (f b) Q) → hoare P (m ≫= f) Q.
Proof. apply hoare_bind. Qed.
Lemma hoare_gets {B} P (f : ipc A → B) : hoare P (gets f) (λ b s, P s ∧ b = f s).
Proof. by intros s b s' HP [= <- <-]. Qed.
Lemma hoare_modify (P Q : ipc A → Prop) f : (∀ s, P s → Q (f s)) → hoare P (modify f) (λ _, Q).
Proof. intros HQ s [] s' HP [= <-]. by apply HQ. Qed.
Lemma hoare_fault {B} P (Q : B → ipc A → Prop) : hoare P fault Q.
Proof. by intros s b s' _. Qed.
Lemma hoare_fail {B} P e (Q : B → ipc A → Prop) : hoare P (fail e) Q.
Proof. by intros s b s' _. Qed.
Lemma hoare_deref {B} P (o : option B) : hoare P (deref o) (λ b s, P s ∧ o = Some b).
Proof. destruct o; [|done]. by intros s b' s' HP [= <- <-]. Qed.
Lemma hoare_each {B} P (l : list B) body : (∀ x, hoare P (body x) (λ _, P)) → hoare P (for_each l body) (λ _, P).
Proof.
  intros Hb. induction l as [|x l IH]; [by apply hoare_ret|]. cbn [for_each]. eapply hoare_bind; [apply Hb|]. intros ?. apply IH.
Qed.
Lemma hoare_conseq {B} (P P' : ipc A → Prop) (m : M B) (Q : B → ipc A → Prop) :
  hoare P' m Q → (∀ s, P s → P' s) → hoare P m Q.
Proof. intros Hm HP s b s' Hs. apply Hm. auto. Qed.

(** Steps that do not touch what the invariant is about. *)
Lemma hoare_quiet l f :
  (∀ s, (f s).(locked) = s.(locked) ∧ (f s).(in_use) = s.(in_use) ∧ (f s).(next_seq) = s.(next_seq) ∧
        (f s).(entries) = s.(entries) ∧ (f s).(waits) = s.(waits)) → hoare (I l) (modify f) (λ _, I l).
Proof.
  intros Hf. apply hoare_modify. intros s [Hl Hs]. destruct (Hf s) as (E1 & E2 & E3 & E4 & E5).
  split; [by rewrite E1|]. revert Hs. by apply ipc_wf_rest.
Qed.

Lemma hoare_acquire : hoare (I false) acquire (λ _, I true).
Proof.
  eapply hoare_bind; [apply hoare_gets|]. intros []; [by intros s b s' _|]. apply hoare_modify. intros s [[_ Hs] _].
  split; [done|]. revert Hs. by apply ipc_wf_rest.
Qed.
Lemma hoare_release l : hoare (I l) release (λ _, I false).
Proof. apply hoare_modify. intros s [_ Hs]. split; [done|]. revert Hs. by apply ipc_wf_rest. Qed.
Lemma hoare_activate l p : hoare (I l) (activate_proc p) (λ _, I l).
Proof. by apply hoare_quiet. Qed.
Lemma hoare_free_msg l m : hoare (I l) (free_msg m) (λ _, I l).
Proof. apply hoare_each. intros x. by apply hoare_quiet. Qed.
Lemma hoare_alloc_page l : hoare (I l) alloc_page (λ _, I l).
Proof.
  intros s b s' Hs. unfold alloc_page. rewrite bind_run. cbn [gets]. destruct (kalloc_page (heap s)) as [a|]; intros [= <- <-]; [|done].
  destruct Hs as [Hl Hs]. split; [done|]. revert Hs. by apply ipc_wf_rest.
Qed.
Lemma hoare_copy_in l src n : hoare (I l) (copy_in src n) (λ _, I l).
Proof. by intros s b s' Hs [= <- <-]. Qed.
Lemma hoare_copy_out l dst bs : hoare (I l) (copy_out dst bs) (λ _, I l).
Proof. by apply hoare_quiet. Qed.

Lemma hoare_load_segs l fuel src len segs : hoare (I l) (load_segs fuel src len segs) (λ _, I l).
Proof.
  revert src len segs. induction fuel as [|fuel IH]; intros src len segs; [apply hoare_fail|]. cbn [load_segs].
  destruct (0 <? len); [|by apply hoare_ret]. eapply hoare_bind; [apply hoare_alloc_page|]. intros [].
  - eapply hoare_bind; [apply hoare_copy_in|]. intros d. apply IH.
  - eapply hoare_bind; [apply hoare_each; intros x; by apply hoare_quiet|]. intros ?. by apply hoare_ret.
Qed.
Lemma hoare_load_msg l src len : hoare (I l) (load_msg src len) (λ _, I l).
Proof.
  eapply hoare_bind; [apply hoare_alloc_page|]. intros []; [|by apply hoare_ret].
  eapply hoare_bind; [apply hoare_copy_in|]. intros d. eapply hoare_bind; [apply hoare_load_segs|]. intros o. by apply hoare_ret.
Qed.
Lemma hoare_store_segs l dst n segs : hoare (I l) (store_segs dst n segs) (λ _, I l).
Proof.
  revert dst n. induction segs as [|sg segs IH]; intros dst n; cbn [store_segs];
    destruct (0 <? n); try (by apply hoare_ret); [apply hoare_fault|].
  eapply hoare_bind; [apply hoare_copy_out|]. intros ?. apply IH.
Qed.
Lemma hoare_take_msg l m msgp n : hoare (I l) (take_msg m msgp n) (λ _, I l).
Proof.
  eapply hoare_bind.
  { eapply hoare_bind; [by apply (hoare_quiet l)|]. intros ?. eapply hoare_bind; [apply hoare_copy_out|]. intros ?. apply hoare_store_segs. }
  intros ?. eapply hoare_bind; [apply hoare_free_msg|]. intros ?. by apply hoare_ret.
Qed.

(** The queue that a message queue identifier stands for. *)
Definition is_queue (id : Z) (q : msg_queue) s : Prop := s.(entries) !! Z.to_nat id = Some (Some q) ∧ 0 ≤ id.

Lemma hoare_entry P id : hoare P (entry id) (λ e s, P s ∧ s.(entries) !! Z.to_nat id = Some e ∧ 0 ≤ id).
Proof.
  eapply hoare_bind; [apply hoare_gets|]. intros es. destruct (Z.ltb_spec id 0); [apply hoare_fault|].
  intros s e s' [HP ->] E. destruct (entries s !! Z.to_nat id) eqn:Ee; [|done]. by injection E as <- <-.
Qed.

Lemma hoare_get_msgq P msgid :
  hoare P (get_msgq msgid) (λ r s, P s ∧ match r with
    | Some (id, q) => is_queue id q s ∧ id = Z.rem msgid SEQ_MULTIPLIER | None => True end).
Proof.
  unfold get_msgq. eapply hoare_bind; [apply hoare_gets|]. intros es. destruct (_ <=? _); [by apply hoare_ret; intros s []|].
  eapply hoare_bind; [apply hoare_entry|]. intros [q|]; [|by apply hoare_ret; intros s [[] _]].
  apply hoare_ret. intros s [[HP _] He]. split; [done|]. by destruct (_ =? _).
Qed.

Lemma hoare_set_entry P l id q q' :
  (∀ s, P s → I l s ∧ is_queue id q s) → q'.(key) = q.(key) → q'.(seq) = q.(seq) →
  (∀ s, P s → queue_ok s.(waits) q → queue_ok s.(waits) q') →
  hoare P (set_entry id (Some q')) (λ _, I l).
Proof.
  intros HP E1 E2 Hq. apply hoare_modify. intros s Hs. pose proof (HP s Hs) as [[Hl Hw] [He Hid]]. split; [done|].
  eapply ipc_wf_update; [done|exact He|done|done|]. apply Hq; [done|]. by destruct (i_queues s Hw _ _ He).
Qed.

Lemma hoare_entry_deref {B} P id q (f : msg_queue → M B) Q :
  (∀ s, P s → is_queue id q s) → hoare P (f q) Q → hoare P (e ← entry id; q ← deref e; f q) Q.
Proof.
  intros HP Hf s b s' Hs E. destruct (HP s Hs) as [He Hid].
  rewrite (bind_Ok _ _ s _ s (entry_run _ _ _ He Hid)) (bind_Ok _ _ s q s) // in E. by eapply Hf.
Qed.

(** *** The calls *)

Lemma pipeline_mono fuel fuel' id m node s r :
  pipeline_loop fuel id m node s = Ok r → (fuel ≤ fuel')%nat → pipeline_loop fuel' id m node s = Ok r.
Proof.
  revert fuel' node s. induction fuel as [|fuel IH]; intros fuel' node s E Hf; [done|]. destruct fuel' as [|fuel']; [lia|].
  assert (Hf' : (fuel ≤ fuel')%nat) by lia. destruct node as [p|]; [|done]. destruct r as [b s'].
  cbn [pipeline_loop] in E |- *.
  apply bind_inv in E as (w & s1 & E1 & E). rewrite (bind_Ok _ _ _ _ _ E1).
  apply bind_inv in E as (x & s2 & E2 & E). rewrite (bind_Ok _ _ _ _ _ E2).
  apply bind_inv in E as (e & s3 & E3 & E). rewrite (bind_Ok _ _ _ _ _ E3).
  apply bind_inv in E as (q & s4 & E4 & E). rewrite (bind_Ok _ _ _ _ _ E4).
  destruct (testmsg _ _); [|by apply IH]. apply bind_inv in E as (y & s5 & E5 & E). rewrite (bind_Ok _ _ _ _ _ E5).
  destruct (_ <? _); [|done].
  apply bind_inv in E as (y6 & s6 & E6 & E). rewrite (bind_Ok _ _ _ _ _ E6).
  apply bind_inv in E as (y7 & s7 & E7 & E). rewrite (bind_Ok _ _ _ _ _ E7). by apply IH.
Qed.

Lemma hoare_pipeline fuel id m q :
  hoare (λ s, I true s ∧ is_queue id q s) (pipeline_send fuel id m)
    (λ sent s, I true s ∧ (sent = false → is_queue id q s ∧ ∀ p, p ∈ q.(q_receiver) → matches s.(waits) m p = false)).
Proof.
  intros s sent s' [[Hl Hs] [He Hid]] E. destruct (i_queues s Hs _ _ He) as [Hq _].
  assert (E' : pipeline_send (fuel + S (length q.(q_receiver))) id m s = Ok (sent, s')).
  { unfold pipeline_send in *. rewrite (bind_Ok _ _ s _ s (entry_run _ _ _ He Hid)) (bind_Ok _ _ s q s) // in E.
    rewrite (bind_Ok _ _ s _ s (entry_run _ _ _ He Hid)) (bind_Ok _ _ s q s) //.
    eapply pipeline_mono; [exact E|lia]. }
  rewrite (pipeline_send_spec _ _ _ q) // in E'; [|apply Hq..|lia]. destruct (taker s m (q_receiver q)) as [[i p]|] eqn:Et.
  - destruct (_ <? _); [done|]. injection E' as <- <-. split; [|done]. split; [done|]. by apply handed_ok.
  - injection E' as <- <-. split; [done|]. intros _. split; [done|]. intros p Hp. unfold taker in Et.
    pose proof (proj1 (list_find_None _ _) Et) as Hn. rewrite Forall_forall in Hn. specialize (Hn p Hp).
    by destruct (matches _ _ _).
Qed.

Lemma queue_ok_push w q m :
  (∀ p, p ∈ q.(q_receiver) → matches w m p = false) → q.(sum_msg) + 1 ≤ q.(max_msg) → queue_ok w q →
  queue_ok w (with_sum_msg (q.(sum_msg) + 1) (with_q_message (q.(q_message) ++ [m]) q)).
Proof.
  intros Hm Hr [Hmax [Hsum Hle] Hfull Hnd Hw Hno]. split; cbn; try done.
  - rewrite length_app /=. lia.
  - intros Hne. specialize (Hfull Hne). lia.
  - intros p m' Hp Hm'. apply elem_of_app in Hm' as [Hm'|Hm']; [by apply Hno|].
    apply list_elem_of_singleton in Hm' as ->. by apply Hm.
Qed.

Lemma queue_ok_sender w q me :
  q.(max_msg) < q.(sum_msg) + 1 → queue_ok w q → queue_ok w (with_q_sender (q.(q_sender) ++ [me]) q).
Proof. intros Hr [Hmax [Hsum Hle] Hfull Hnd Hw Hno]. split; cbn; try done. intros _. lia. Qed.

Lemma queue_ok_pop w q i m :
  q.(q_message) !! i = Some m → queue_ok w q →
  queue_ok w (with_q_sender [] (with_sum_msg (q.(sum_msg) - 1) (with_q_message (delete i q.(q_message)) q))).
Proof.
  intros Hi [Hmax [Hsum Hle] Hfull Hnd Hw Hno]. pose proof (lookup_lt_Some _ _ _ Hi). split; cbn; try done.
  - rewrite length_delete; [lia|done].
  - intros p m' Hp Hm'. apply Hno; [done|]. by eapply list_elem_of_delete_inv.
Qed.

Lemma hoare_out {B} P l (b : B) :
  (∀ s, P s → I l s) → hoare P (release ;; mret b) (λ _, I false).
Proof.
  intros HP. eapply hoare_bind; [eapply hoare_conseq; [apply (hoare_release l)|done]|]. intros ?. by apply hoare_ret.
Qed.
Lemma hoare_out_free {B} P l m (b : B) :
  (∀ s, P s → I l s) → hoare P (release ;; free_msg m ;; mret b) (λ _, I false).
Proof.
  intros HP. eapply hoare_bind; [eapply hoare_conseq; [apply (hoare_release l)|done]|]. intros ?.
  eapply hoare_bind; [apply hoare_free_msg|]. intros ?. by apply hoare_ret.
Qed.

Lemma hoare_retry fuel me msgid m flg : hoare (I false) (msgsnd_retry fuel me msgid m flg) (λ _, I false).
Proof.
  eapply hoare_bind; [apply hoare_acquire|]. intros ?. eapply hoare_bind; [apply hoare_get_msgq|].
  intros [[id q]|]; [|apply (hoare_out_free _ true); by intros s []].
  destruct (Z.ltb_spec q.(max_msg) (q.(sum_msg) + 1)) as [Hfull|Hroom].
  - destruct (flag _ _); [apply (hoare_out_free _ true); by intros s []|].
    eapply hoare_bind; [apply (hoare_set_entry _ true id q)|].
    { by intros s [? [? _]]. }
    1,2: done.
    { intros s _. by apply queue_ok_sender. }
    intros ?. by apply (hoare_out _ true).
  - eapply hoare_bind; [eapply hoare_conseq; [apply (hoare_pipeline fuel id m q)|by intros s [? [? _]]]|].
    intros sent. eapply (hoare_bind _ _ _ (λ _, I true)); [|intros ?; by apply (hoare_out _ true)].
    destruct sent; [apply hoare_ret; by intros s [? _]|].
    apply (hoare_entry_deref _ _ q); [intros s [_ Hs]; by apply Hs|].
    apply (hoare_set_entry _ true id q); [intros s [Hs Hi]; split; [done|by apply Hi]|done|done|].
    intros s [_ Hs]. apply queue_ok_push; [by apply Hs|lia].
Qed.

Lemma hoare_snd fuel me msgid msgp n flg : hoare (I false) (sys_msgsnd fuel me msgid msgp n flg) (λ _, I false).
Proof.
  eapply hoare_bind; [apply hoare_gets|]. intros t. destruct (_ || _); [apply hoare_ret; by intros s []|].
  eapply hoare_bind; [eapply hoare_conseq; [apply hoare_load_msg|by intros s []]|].
  intros [[data segs]|]; [apply hoare_retry|by apply hoare_ret].
Qed.

Lemma find_msg_kept l i mtype j : find_msg l i mtype (Some j) ≠ None.
Proof.
  revert i mtype j. induction l as [|m l IH]; intros i mtype j; [done|]. cbn [find_msg].
  destruct (testmsg _ _); [|by apply IH]. destruct (_ <? _); [by apply IH|done].
Qed.
Lemma find_msg_None l i mtype : find_msg l i mtype None = None → ∀ m, m ∈ l → testmsg mtype m.(m_type) = false.
Proof.
  revert i. induction l as [|m l IH]; intros i Hf m' Hm'; [by apply not_elem_of_nil in Hm'|]. cbn [find_msg] in Hf.
  destruct (testmsg mtype (m_type m)) eqn:Et.
  { destruct (_ <? _); [by apply find_msg_kept in Hf|done]. }
  apply elem_of_cons in Hm' as [->|Hm']; [done|by eapply IH].
Qed.

Lemma queue_ok_receiver w q me mtype n :
  find_msg q.(q_message) 0 mtype None = None → me ∉ q.(q_receiver) → queue_ok w q →
  queue_ok (<[me := Receiver mtype n None]> w) (with_q_receiver (q.(q_receiver) ++ [me]) q).
Proof.
  intros Hf Hme [Hmax Hsum Hfull Hnd Hw Hno]. split; cbn; try done.
  - apply NoDup_app. split_and!; [done| |by apply NoDup_singleton]. intros x Hx ->%list_elem_of_singleton. done.
  - intros p Hp. destruct (decide (p = me)) as [->|Hne]; [by rewrite lookup_insert_eq|]. rewrite lookup_insert_ne //.
    apply elem_of_app in Hp as [Hp|Hp]; [by apply Hw|by apply list_elem_of_singleton in Hp].
  - intros p m Hp Hm. unfold matches. destruct (decide (p = me)) as [->|Hne].
    + rewrite lookup_insert_eq. cbn. by eapply find_msg_None.
    + rewrite lookup_insert_ne //. apply elem_of_app in Hp as [Hp|Hp]; [by apply Hno|by apply list_elem_of_singleton in Hp].
Qed.

Lemma queue_ok_elsewhere w q me r : me ∉ q.(q_receiver) → queue_ok w q → queue_ok (<[me := r]> w) q.
Proof.
  intros Hme. apply queue_ok_waits.
  - intros p _ Hp. destruct (decide (p = me)) as [->|Hne]; [by rewrite lookup_insert_eq|by rewrite lookup_insert_ne].
  - intros p m Hp. unfold matches. rewrite lookup_insert_ne //. by intros ->.
Qed.

(** A process that goes to sleep in queue [id]. *)
Lemma hoare_wait id q me mtype n (b : answer unit) :
  find_msg q.(q_message) 0 mtype None = None →
  hoare (λ s, (I true s ∧ awake s me) ∧ is_queue id q s)
    (set_entry id (Some (with_q_receiver (q.(q_receiver) ++ [me]) q)) ;;
     modify (λ s, set_waits (<[me := Receiver mtype n None]> s.(waits)) s) ;;
     release ;;
     mret b) (λ _, I false).
Proof.
  intros Hf s b' s' [[[Hl Hs] Ha] [He Hid]] [= _ <-]. split; [done|].
  pose proof (lookup_lt_Some _ _ _ He) as Hlt. destruct Hs as [Hsz Hct Hsq Hqs Hks]. split; cbn.
  - by rewrite length_insert.
  - rewrite (live_count_insert _ _ _ _ He). cbn. lia.
  - done.
  - intros i q'. destruct (decide (i = Z.to_nat id)) as [->|Hne].
    + rewrite list_lookup_insert_eq //. intros [= <-]. destruct (Hqs _ _ He). split; [|done].
      apply queue_ok_receiver; [done|by apply (Ha _ _ He)|done].
    + rewrite list_lookup_insert_ne //. intros Hq'. destruct (Hqs _ _ Hq'). split; [|done].
      apply queue_ok_elsewhere; [by apply (Ha _ _ Hq')|done].
  - assert (Hold : ∀ i x, <[Z.to_nat id := Some (with_q_receiver (q.(q_receiver) ++ [me]) q)]> (entries s) !! i = Some (Some x) →
      ∃ y, entries s !! i = Some (Some y) ∧ x.(key) = y.(key)).
    { intros i x. destruct (decide (i = Z.to_nat id)) as [->|Hne].
      - rewrite list_lookup_insert_eq //. intros [= <-]. by exists q.
      - rewrite list_lookup_insert_ne //. intros Hx. by exists x. }
    intros i j x x' (y & Hy & Ey)%Hold (y' & Hy' & Ey')%Hold. rewrite Ey Ey'. by apply Hks.
Qed.

Lemma hoare_rcv me msgid msgp n mtype flg :
  hoare (λ s, I false s ∧ awake s me) (sys_msgrcv me msgid msgp n mtype flg) (λ _, I false).
Proof.
  unfold sys_msgrcv. destruct (_ || _); [apply hoare_ret; by intros s []|].
  eapply (hoare_bind _ _ _ (λ _ s, I true s ∧ awake s me)).
  { intros s b s' [Hs Ha] E. split; [by eapply hoare_acquire|]. revert E. unfold acquire. rewrite bind_run. cbn [gets].
    destruct (locked s); [done|]. by intros [= _ <-]. }
  intros ?. eapply hoare_bind; [apply hoare_get_msgq|].
  intros [[id q]|]; [|apply (hoare_out _ true); by intros s [[? _] _]].
  destruct (find_msg _ _ _ _) as [i|] eqn:Ef.
  - eapply hoare_bind; [apply hoare_deref|]. intros m. destruct (Z.ltb_spec n m.(m_size)).
    { apply (hoare_out _ true). by intros s [[[? _] _] _]. }
    destruct (q.(q_message) !! i) as [m'|] eqn:Em; [|by intros ? ? ? [_ ?]].
    eapply hoare_bind; [apply (hoare_set_entry _ true id q)|].
    { by intros s [[[? _] [? _]] _]. }
    1,2: done.
    { intros s [_ [= <-]]. by eapply queue_ok_pop. }
    intros ?. eapply hoare_bind; [apply hoare_each; intros x; apply hoare_activate|]. intros ?.
    eapply hoare_bind; [apply hoare_release|]. intros ?. apply hoare_take_msg.
  - destruct (flag _ _); [apply (hoare_out _ true); by intros s [[? _] _]|].
    eapply hoare_conseq; [by apply (hoare_wait id q)|]. by intros s [? [? _]].
Qed.

Lemma hoare_wake me msgp n : hoare (I false) (msgrcv_wake me msgp n) (λ _, I false).
Proof.
  eapply hoare_bind; [apply hoare_gets|]. intros w. eapply hoare_bind; [apply hoare_deref|]. intros r.
  eapply hoare_bind; [apply hoare_deref|]. intros [m|]; [|apply hoare_ret; by intros s [[[? _] _] _]].
  eapply hoare_conseq; [apply hoare_take_msg|]. by intros s [[[? _] _] _].
Qed.

(** No live queue has the key [k], unless it is private. *)
Definition fresh_key (k : Z) s : Prop :=
  k ≠ IPC_PRIVATE → ∀ i q, s.(entries) !! i = Some (Some q) → q.(key) ≠ k.

Lemma ipc_wf_new k i s :
  s.(entries) !! i = Some None → fresh_key k s → ipc_wf s →
  ipc_wf (set_entries (<[i := Some (Queue k s.(next_seq) MAX_MSGNUM 0 [] [] [])]> s.(entries))
            (set_next_seq (u16 (s.(next_seq) + 1)) (set_in_use (s.(in_use) + 1) s))).
Proof.
  intros Hi Hk [Hsz Hct Hsq Hqs Hks]. pose proof (lookup_lt_Some _ _ _ Hi) as Hlt. split; cbn.
  - by rewrite length_insert.
  - rewrite (live_count_insert _ _ _ _ Hi). cbn. lia.
  - apply Z.mod_pos_bound. lia.
  - intros j q'. destruct (decide (j = i)) as [->|Hne].
    + rewrite list_lookup_insert_eq //. intros [= <-]. split; [|done].
      split; cbn; [done|done|done|by apply NoDup_nil|intros p Hp; by apply not_elem_of_nil in Hp|intros p m Hp; by apply not_elem_of_nil in Hp].
    + rewrite list_lookup_insert_ne //. apply Hqs.
  - intros j j' q q'. destruct (decide (j = i)) as [->|Hne]; destruct (decide (j' = i)) as [->|Hne']; [done|..].
    + rewrite list_lookup_insert_eq // list_lookup_insert_ne //. intros [= <-] Hq' Ek Hp. cbn in *. by destruct (Hk Hp _ _ Hq').
    + rewrite list_lookup_insert_eq // list_lookup_insert_ne //. intros Hq [= <-] Ek Hp. cbn in *.
      rewrite Ek in Hp. by destruct (Hk Hp _ _ Hq).
    + rewrite !list_lookup_insert_ne //. apply Hks.
Qed.

Lemma ipc_addid_run f s i :
  s.(entries) !! i = Some None → (∀ j e, s.(entries) !! j = Some e → (j < i)%nat → e ≠ None) →
  ipc_addid f s = Ok (Z.of_nat i, set_entries (<[i := Some (f s.(next_seq))]> s.(entries))
    (set_next_seq (u16 (s.(next_seq) + 1)) (set_in_use (s.(in_use) + 1) s))).
Proof.
  intros Hi Hlt. unfold ipc_addid. rewrite (bind_Ok _ _ s (entries s) s) //.
  assert (list_find (λ e, e = None) (entries s) = Some (i, None)) as -> by (apply list_find_Some; by split_and!).
  unfold set_entry. by rewrite -{4}(Nat2Z.id i).
Qed.
Lemma ipc_addid_full f s : (∀ i e, s.(entries) !! i = Some e → e ≠ None) → ipc_addid f s = Ok (-1, s).
Proof.
  intros Hn. unfold ipc_addid. rewrite (bind_Ok _ _ s (entries s) s) //.
  destruct (list_find _ _) as [[i e]|] eqn:E; [|done]. apply list_find_Some in E as (Hi & -> & _). by destruct (Hn _ _ Hi).
Qed.

(** A queue made in the first free entry. *)
Lemma newque_run k a i s :
  kalloc s.(heap) = Some a → s.(entries) !! i = Some None →
  (∀ j e, s.(entries) !! j = Some e → (j < i)%nat → e ≠ None) →
  newque k s = Ok (ipc_buildin (Z.of_nat i) s.(next_seq),
    set_entries (<[i := Some (Queue k s.(next_seq) MAX_MSGNUM 0 [] [] [])]> s.(entries))
      (set_next_seq (u16 (s.(next_seq) + 1)) (set_in_use (s.(in_use) + 1) (set_heap a s)))).
Proof.
  intros Ha Hi Hlt. pose proof (lookup_lt_Some _ _ _ Hi) as Hl. unfold newque.
  rewrite (bind_Ok _ _ s (heap s) s) // Ha (bind_Ok _ _ s tt (set_heap a s)) //.
  rewrite (bind_Ok _ _ _ _ _ (ipc_addid_run _ (set_heap a s) i Hi Hlt)). destruct (Z.ltb_spec (Z.of_nat i) 0); [lia|].
  rewrite (bind_Ok _ _ _ _ _ (entry_run (Z.of_nat i) _ (Some (Queue k s.(next_seq) MAX_MSGNUM 0 [] [] [])) _ _)) //.
  by rewrite Nat2Z.id /= list_lookup_insert_eq.
Qed.

Lemma hoare_newque k : hoare (λ s, I true s ∧ fresh_key k s) (newque k) (λ _, I true).
Proof.
  intros s b s' [[Hl Hs] Hk] E. destruct (kalloc (heap s)) as [a|] eqn:Ea.
  2: { unfold newque in E. rewrite (bind_Ok _ _ s (heap s) s) // Ea in E. by injection E as <- <-. }
  destruct (list_find (λ e, e = None) (entries s)) as [[i e]|] eqn:Ei.
  - apply list_find_Some in Ei as (Hi & -> & Hlt). rewrite (newque_run k a i) // in E. injection E as _ <-.
    split; [done|]. pose proof (ipc_wf_new k i s Hi Hk Hs) as Hw. revert Hw. by apply ipc_wf_rest.
  - unfold newque in E. rewrite (bind_Ok _ _ s (heap s) s) // Ea (bind_Ok _ _ s tt (set_heap a s)) // in E.
    rewrite (bind_Ok _ _ _ _ _ (ipc_addid_full _ (set_heap a s) _)) in E.
    { injection E as _ <-. split; [done|]. revert Hs. by apply ipc_wf_rest. }
    intros i e Hi. pose proof (proj1 (list_find_None _ _) Ei) as Hn. rewrite Forall_forall in Hn.
    apply Hn. by eapply list_elem_of_lookup_2.
Qed.

Lemma hoare_get k flg : hoare (I false) (sys_msgget k flg) (λ _, I false).
Proof.
  eapply hoare_bind; [apply hoare_acquire|]. intros ?.
  eapply (hoare_bind _ _ _ (λ _, I true)); [|intros ?; by apply (hoare_out _ true)].
  destruct (Z.eqb_spec k IPC_PRIVATE) as [Ek|Hk].
  { eapply hoare_conseq; [apply hoare_newque|]. intros s Hs. split; [done|by intros ?]. }
  unfold ipc_findkey. intros s r s' Hs E. rewrite bind_run in E. cbn [gets] in E. rewrite bind_run in E. cbn in E.
  destruct (list_find (has_key k) (entries s)) as [[i e]|] eqn:Ei.
  - destruct (Z.eqb_spec (Z.of_nat i) (-1)); [lia|]. destruct (flag _ _); [by injection E as <- <-|].
    apply bind_inv in E as (e' & s1 & E1 & E2). destruct (hoare_entry (I true) _ _ _ _ Hs E1) as [Hs1 _].
    apply bind_inv in E2 as (q & s2 & E2 & E3). destruct (hoare_deref (I true) _ _ _ _ Hs1 E2) as [Hs2 _].
    by injection E3 as _ <-.
  - cbn in E. destruct (flag _ _); [|by injection E as <- <-]. revert E. apply hoare_newque. split; [done|].
    intros _ j q Hq Ek. pose proof (proj1 (list_find_None _ _) Ei) as Hn. rewrite Forall_forall in Hn.
    apply (Hn (Some q)); [by eapply list_elem_of_lookup_2|done].
Qed.

Lemma ipc_wf_remove i q s :
  s.(entries) !! i = Some (Some q) → ipc_wf s →
  ipc_wf (set_in_use (s.(in_use) - 1) (set_entries (<[i := None]> s.(entries)) s)).
Proof.
  intros Hi [Hsz Hct Hsq Hqs Hks]. pose proof (lookup_lt_Some _ _ _ Hi) as Hlt.
  assert (Hold : ∀ j x, <[i := None]> (entries s) !! j = Some (Some x) → entries s !! j = Some (Some x)).
  { intros j x. destruct (decide (j = i)) as [->|Hne]; [by rewrite list_lookup_insert_eq|by rewrite list_lookup_insert_ne]. }
  split; cbn; try done.
  - by rewrite length_insert.
  - rewrite (live_count_insert _ _ _ _ Hi). cbn. lia.
  - intros j x Hx%Hold. by apply (Hqs j).
  - intros j j' x x' Hx%Hold Hx'%Hold. by apply Hks.
Qed.

Lemma hoare_free id q : hoare (λ s, I true s ∧ is_queue id q s)
  (set_entry id None ;;
   ss_wakeup q.(q_receiver) ;;
   expunge_all [] ;;
   for_each q.(q_message) free_msg ;;
   modify (λ s, set_in_use (s.(in_use) - 1) s) ;;
   modify (λ s, set_heap (kfree s.(heap)) s)) (λ _, I true).
Proof.
  set (J := λ s, s.(locked) = true ∧ ipc_wf (set_in_use (s.(in_use) - 1) s)).
  assert (HJ : ∀ f, (∀ s, (f s).(locked) = s.(locked) ∧ (f s).(in_use) = s.(in_use) ∧ (f s).(next_seq) = s.(next_seq) ∧
    (f s).(entries) = s.(entries) ∧ (f s).(waits) = s.(waits)) → hoare J (modify f) (λ _, J)).
  { intros f Hf. apply hoare_modify. intros s [Hl Hs]. destruct (Hf s) as (E1 & E2 & E3 & E4 & E5).
    split; [by rewrite E1|]. revert Hs. apply ipc_wf_rest; cbn; by rewrite ?E2. }
  eapply (hoare_bind _ _ _ (λ _, J)).
  { apply hoare_modify. intros s [[Hl Hs] [He _]]. split; [done|]. exact (ipc_wf_remove _ q s He Hs). }
  intros ?. eapply hoare_bind; [apply hoare_each; intros x; by apply HJ|].
  intros ?. eapply (hoare_bind _ _ _ (λ _, J)); [by apply hoare_ret|].
  intros ?. eapply hoare_bind; [apply hoare_each; intros x; apply hoare_each; intros y; by apply HJ|].
  intros ?. eapply (hoare_bind _ _ _ (λ _, I true)); [by apply hoare_modify|]. intros ?. by apply hoare_quiet.
Qed.

Lemma hoare_ctl msgid cmd : hoare (I false) (sys_msgctl msgid cmd) (λ _, I false).
Proof.
  unfold sys_msgctl. destruct (_ =? _); [|by apply hoare_ret].
  eapply (hoare_bind _ _ _ (λ _, I false)); [|intros ?; by apply hoare_ret].
  eapply hoare_bind; [apply hoare_acquire|]. intros ?. eapply hoare_bind; [apply hoare_get_msgq|]. intros r.
  eapply (hoare_bind _ _ _ (λ _, I true)); [|intros ?; by apply hoare_release].
  destruct r as [[id q]|]; [|apply hoare_ret; by intros s []].
  eapply hoare_conseq; [apply (hoare_free (Z.rem msgid SEQ_MULTIPLIER) q)|]. intros s [Hs [Hi <-]]. by split.
Qed.
End invariant.

(** ** Reachable states *)

(** A system call, or what is left of one when its process is woken. *)
Inductive syscall : Type :=
| Msgget (k flg : Z)
| Msgsnd (me msgid msgp n flg : Z)
| Msgsnd_retry (me msgid : Z) (m : msg_msg) (flg : Z)
| Msgrcv (me msgid msgp n mtype flg : Z)
| Msgrcv_wake (me msgp n : Z)
| Msgctl (msgid cmd : Z).

Section reachable.
Context {A : Type} `{Allocator A}.

(** The state that a system call leaves. *)
Inductive step (s : ipc A) : syscall → ipc A → Prop :=
| step_get k flg r s' : sys_msgget k flg s = Ok (r, s') → step s (Msgget k flg) s'
| step_snd fuel me msgid msgp n flg r s' :
    sys_msgsnd fuel me msgid msgp n flg s = Ok (r, s') → step s (Msgsnd me msgid msgp n flg) s'
| step_retry fuel me msgid m flg r s' :
    msgsnd_retry fuel me msgid m flg s = Ok (r, s') → step s (Msgsnd_retry me msgid m flg) s'
| step_rcv me msgid msgp n mtype flg r s' :
    awake s me → sys_msgrcv me msgid msgp n mtype flg s = Ok (r, s') → step s (Msgrcv me msgid msgp n mtype flg) s'
| step_wake me msgp n r s' : msgrcv_wake me msgp n s = Ok (r, s') → step s (Msgrcv_wake me msgp n) s'
| step_ctl msgid cmd r s' : sys_msgctl msgid cmd s = Ok (r, s') → step s (Msgctl msgid cmd) s'.

Inductive reachable (s0 : ipc A) : list syscall → ipc A → Prop :=
| reach_init s : init_ipc s0 = Ok (tt, s) → reachable s0 [] s
| reach_step cs s c s' : reachable s0 cs s → step s c s' → reachable s0 (cs ++ [c]) s'.

Lemma step_ok s c s' : ipc_ok s → step s c s' → ipc_ok s'.
Proof.
  intros Hs Hst. destruct Hst as [??? ? E|??????? ? E|?????? ? E|???????? Ha E|???? ? E|??? ? E].
  - exact (hoare_get _ _ _ _ _ Hs E).
  - exact (hoare_snd _ _ _ _ _ _ _ _ _ Hs E).
  - exact (hoare_retry _ _ _ _ _ _ _ _ Hs E).
  - exact (hoare_rcv _ _ _ _ _ _ _ _ _ (conj Hs Ha) E).
  - exact (hoare_wake _ _ _ _ _ _ Hs E).
  - exact (hoare_ctl _ _ _ _ _ Hs E).
Qed.

Lemma init_ipc_ok (s0 s : ipc A) : init_ipc s0 = Ok (tt, s) → ipc_ok s.
Proof.
  intros [= <-]. split; [done|]. split; cbn; try done.
  - intros i q Hi. by destruct (proj1 (lookup_replicate 16 (None (A:=msg_queue)) (Some q) i) Hi).
  - intros i j q q' Hi. by destruct (proj1 (lookup_replicate 16 (None (A:=msg_queue)) (Some q) i) Hi).
Qed.

(** C38: In every state that [init_ipc] and any sequence of system calls reach, the
    lock of the queues is free, [in_use] counts the queues, no two queues share a
    public key, every queue holds at most [MAX_MSGNUM] messages and as many as
    [sum_msg] says, senders wait only on a full queue, and no waiting receiver
    would take a queued message. *)
Theorem ipc_reachable_ok (s0 : ipc A) cs s : reachable s0 cs s → ipc_ok s.
Proof. induction 1 as [s E|cs s c s' _ IH Hst]; [by eapply init_ipc_ok|by eapply step_ok]. Qed.
End reachable.

(** ** Sending and receiving *)

Section transfer.
Context {A : Type} `{Allocator A}.
Implicit Types s : ipc A.

(** The identifier [msgid] names the live queue [q]. *)
Definition names (msgid : Z) (q : msg_queue) s : Prop :=
  0 ≤ msgid ∧ s.(entries) !! Z.to_nat (msgid mod 16) = Some (Some q) ∧ msgid / 16 = q.(seq).

Lemma names_run msgid q s : ipc_wf s → names msgid q s → get_msgq msgid s = Ok (Some (msgid mod 16, q), s).
Proof.
  intros Hs (Hid & He & Eq). rewrite get_msgq_run //; [|apply Hs]. by rewrite He Eq Z.eqb_refl.
Qed.

Lemma acquire_run s : s.(locked) = false → acquire s = Ok (tt, set_locked true s).
Proof. intros Hl. unfold acquire. by rewrite (bind_Ok _ _ s s.(locked) s) // Hl. Qed.

Lemma ipc_wf_locked l s : ipc_wf s → ipc_wf (set_locked l s).
Proof. by apply ipc_wf_rest. Qed.

(** A message put at the end of its queue. *)
Definition queued msgid q m s : ipc A :=
  set_entries (<[Z.to_nat (msgid mod 16) := Some (with_sum_msg (q.(sum_msg) + 1) (with_q_message (q.(q_message) ++ [m]) q))]> s.(entries)) s.

(** What sending to a queue with room does. *)
Lemma msgsnd_retry_spec fuel me msgid m flg q s :
  ipc_ok s → names msgid q s → q.(sum_msg) < q.(max_msg) → (length q.(q_receiver) < fuel)%nat →
  msgsnd_retry fuel me msgid m flg s =
  match taker s m q.(q_receiver) with
  | None => Ok (Ret 0, set_locked false (queued msgid q m (set_locked true s)))
  | Some (_, p) =>
      if size_of s p <? m.(m_size) then Fail OutOfFuel
      else Ok (Ret 0, set_locked false (handed (msgid mod 16) q p (Some m) (set_locked true s)))
  end.
Proof.
  intros [Hl Hs] Hn Hroom Hf. pose proof Hn as (Hid & He & Eq). destruct (i_queues s Hs _ _ He) as [[] _].
  pose proof (Z.mod_pos_bound msgid 16 ltac:(done)) as Hb.
  unfold msgsnd_retry. rewrite (bind_Ok _ _ _ _ _ (acquire_run _ Hl)).
  rewrite (bind_Ok _ _ _ _ _ (names_run msgid q (set_locked true s) (ipc_wf_locked _ _ Hs) Hn)).
  destruct (Z.ltb_spec q.(max_msg) (q.(sum_msg) + 1)); [lia|].
  pose proof (pipeline_send_spec fuel (msgid mod 16) m q (set_locked true s) He ltac:(lia) q_nodup0 q_waits0 Hf) as Hp.
  change (taker (set_locked true s) m (q_receiver q)) with (taker s m (q_receiver q)) in Hp.
  destruct (taker s m (q_receiver q)) as [[i p]|].
  - change (size_of (set_locked true s) p) with (size_of s p) in Hp.
    destruct (_ <? _); [by rewrite (bind_Fail _ _ _ _ Hp)|by rewrite (bind_Ok _ _ _ _ _ Hp)].
  - rewrite (bind_Ok _ _ _ _ _ Hp). rewrite (bind_Ok _ _ (set_locked true s) tt (queued msgid q m (set_locked true s))) //.
    rewrite (bind_Ok _ _ _ _ _ (entry_run (msgid mod 16) (set_locked true s) (Some q) He ltac:(lia))) //.
Qed.

Lemma msgsnd_retry_mono fuel fuel' me msgid m flg s r :
  msgsnd_retry fuel me msgid m flg s = Ok r → (fuel ≤ fuel')%nat → msgsnd_retry fuel' me msgid m flg s = Ok r.
Proof.
  intros E Hf. destruct r as [r s']. unfold msgsnd_retry in *.
  apply bind_inv in E as (x1 & s1 & E1 & E). rewrite (bind_Ok _ _ _ _ _ E1).
  apply bind_inv in E as (x2 & s2 & E2 & E). rewrite (bind_Ok _ _ _ _ _ E2).
  destruct x2 as [[id q]|]; [|done]. destruct (_ <? _); [done|].
  apply bind_inv in E as (x3 & s3 & E3 & E). unfold pipeline_send in *.
  apply bind_inv in E3 as (x4 & s4 & E4 & E3). apply bind_inv in E3 as (x5 & s5 & E5 & E3).
  rewrite (bind_Ok _ _ _ x3 s3) //. rewrite (bind_Ok _ _ _ _ _ E4) (bind_Ok _ _ _ _ _ E5). by eapply pipeline_mono.
Qed.

(** C40: Sending to a queue with room comes to an end exactly if the first waiting
    receiver that takes messages of this type has a large enough buffer.  With
    too small a buffer [pipeline_send] takes the receiver's node off the list and
    then follows it to itself for ever, holding [msg_ids.lock]. *)
Theorem msgsnd_returns me msgid m flg q s (Hs : ipc_ok s) (Hn : names msgid q s) (Hroom : q.(sum_msg) < q.(max_msg)) :
  (∃ fuel r s', msgsnd_retry fuel me msgid m flg s = Ok (r, s')) ↔
  (∀ i p, taker s m q.(q_receiver) = Some (i, p) → m.(m_size) ≤ size_of s p).
Proof.
  pose proof (λ fuel, msgsnd_retry_spec fuel me msgid m flg q s Hs Hn Hroom) as Hsp. split.
  - intros (fuel & r & s' & E) i p Ht.
    pose proof (msgsnd_retry_mono _ (fuel + S (length q.(q_receiver))) _ _ _ _ _ _ E ltac:(lia)) as E'.
    rewrite Hsp in E'; [|lia]. rewrite Ht in E'. destruct (Z.ltb_spec (size_of s p) m.(m_size)); [done|lia].
  - intros Ht. exists (S (length q.(q_receiver))). rewrite Hsp; [|lia]. destruct (taker _ _ _) as [[i p]|] eqn:E; [|by eauto].
    destruct (Z.ltb_spec (size_of s p) m.(m_size)); [|by eauto]. specialize (Ht i p eq_refl). lia.
Qed.

Lemma load_msg_page src n s a :
  kalloc_page s.(heap) = Some a → n ≤ MSG_MSGSZ →
  load_msg src n s = Ok (Some (s.(user) <$> zseq src (src + n), []), set_heap a s).
Proof.
  intros Ha Hn. unfold load_msg. rewrite (bind_Ok _ _ s true (set_heap a s)).
  2: { unfold alloc_page. by rewrite (bind_Ok _ _ s s.(heap) s) // Ha. }
  rewrite Z.min_r // (bind_Ok _ _ (set_heap a s) (s.(user) <$> zseq src (src + n)) (set_heap a s)) //.
  rewrite Z.sub_diag. done.
Qed.

Lemma find_msg_app l m i mtype :
  find_msg l i mtype None = None → testmsg mtype m.(m_type) = true →
  find_msg (l ++ [m]) i mtype None = Some (i + length l)%nat.
Proof.
  intros Hf Ht. revert i Hf. induction l as [|m' l IH]; intros i Hf; cbn [find_msg app length] in *.
  - rewrite Ht. destruct (_ <? _); f_equal; lia.
  - destruct (testmsg mtype (m_type m')).
    { destruct (_ <? _); [by apply find_msg_kept in Hf|done]. }
    rewrite IH //. f_equal. lia.
Qed.

Lemma take_msg_page m dst n s :
  m.(m_segs) = [] → n = m.(m_size) → Z.of_nat (length m.(m_data)) = n → n ≤ MSG_MSGSZ → 
  ∃ s', take_msg m dst n s = Ok (Ret n, s') ∧ s'.(entries) = s.(entries) ∧
    s'.(heap) = kfree_page s.(heap) ∧ s'.(user_type) dst = m.(m_type) ∧
    ∀ a, s'.(user) a = if (dst <=? a) && (a <? dst + n) then default 0 (m.(m_data) !! Z.to_nat (a - dst)) else s.(user) a.
Proof.
  intros Hsg -> Hl Hn. unfold take_msg, store_msg. cbv zeta. rewrite Z.min_id (Z.min_l m.(m_size)) // (Z.min_r MSG_MSGSZ m.(m_size)) // Z.sub_diag Hsg.
  rewrite take_ge; [|lia]. rewrite !bind_run. unfold free_msg. rewrite Hsg /=. eexists. split; [done|].
  cbn. rewrite Z.eqb_refl. split_and!; [done..|]. intros a. by rewrite Hl.
Qed.

Lemma ss_wakeup_run l s : ss_wakeup l s = Ok (tt, set_activated (s.(activated) ++ l) s).
Proof.
  unfold ss_wakeup. revert s. induction l as [|p l IH]; intros s; cbn [for_each].
  - rewrite app_nil_r. by destruct s.
  - rewrite (bind_Ok _ _ s tt (set_activated (s.(activated) ++ [p]) s)) // IH /= -app_assoc. done.
Qed.

(** Receiving the message at the end of a queue. *)
Lemma rcv_queued me msgid dst size mtype flg q l m s :
  ipc_ok s → names msgid q s → q.(q_message) = l ++ [m] → find_msg l 0 mtype None = None →
  testmsg mtype m.(m_type) = true → dst ≠ 0 → 0 ≤ m.(m_size) ≤ size →
  m.(m_segs) = [] → Z.of_nat (length m.(m_data)) = m.(m_size) → m.(m_size) ≤ MSG_MSGSZ →
  ∃ s', sys_msgrcv me msgid dst size mtype flg s = Ok (Ret m.(m_size), s') ∧
    s'.(entries) = <[Z.to_nat (msgid mod 16) := Some (with_q_sender [] (with_sum_msg (q.(sum_msg) - 1) (with_q_message l q)))]> s.(entries) ∧
    s'.(heap) = kfree_page s.(heap) ∧ s'.(user_type) dst = m.(m_type) ∧
    ∀ a, s'.(user) a = if (dst <=? a) && (a <? dst + m.(m_size)) then default 0 (m.(m_data) !! Z.to_nat (a - dst)) else s.(user) a.
Proof.
  intros [Hl Hs] Hn Hq Hfd Ht Hdst Hsz Hsg Hln Hpg. unfold sys_msgrcv.
  destruct (Z.ltb_spec size 0); [lia|]. destruct (Z.eqb_spec dst 0); [done|]. cbn [orb].
  rewrite (bind_Ok _ _ _ _ _ (acquire_run _ Hl)).
  rewrite (bind_Ok _ _ _ _ _ (names_run msgid q (set_locked true s) (ipc_wf_locked _ _ Hs) Hn)).
  rewrite Hq (find_msg_app l m) // Nat.add_0_l. rewrite list_lookup_middle // (bind_Ok _ _ _ m (set_locked true s)) //.
  destruct (Z.ltb_spec size m.(m_size)); [lia|]. rewrite delete_middle app_nil_r.
  set (s1 := set_entries (<[Z.to_nat (msgid mod 16) := Some (with_q_sender [] (with_sum_msg (q.(sum_msg) - 1) (with_q_message l q)))]> s.(entries)) (set_locked true s)).
  rewrite (bind_Ok _ _ _ tt s1) //. rewrite (bind_Ok _ _ _ _ _ (ss_wakeup_run _ _)).
  set (acts := _ ++ q.(q_sender)).
  rewrite (bind_Ok _ _ _ tt (set_locked false (set_activated acts s1))) //.
  unfold take_msg at 1. rewrite Z.min_r; [|lia].
  destruct (take_msg_page m dst m.(m_size) (set_locked false (set_activated acts s1))) as (s2 & E & E1 & E2 & E3 & E4); try done.
  exists s2. split_and!; try done. unfold take_msg in E. by rewrite Z.min_id in E.
Qed.

(** What [sys_msgsnd] does with a message of a page that nobody waits for. *)
Lemma snd_queued fuel me msgid src n flg q s a (m := Msg (s.(user_type) src) n (s.(user) <$> zseq src (src + n)) []) :
  ipc_ok s → names msgid q s → q.(sum_msg) < q.(max_msg) → (length q.(q_receiver) < fuel)%nat →
  src ≠ 0 → 1 ≤ s.(user_type) src → 0 ≤ n ≤ MSG_MSGSZ → kalloc_page s.(heap) = Some a → taker s m q.(q_receiver) = None →
  sys_msgsnd fuel me msgid src n flg s = Ok (Ret 0, set_locked false (queued msgid q m (set_locked true (set_heap a s)))).
Proof.
  intros [Hl Hs] Hn Hroom Hf Hsrc Ht Hnn Ha Htk.
  assert (Hs' : ipc_ok (set_heap a s)) by (split; [done|]; revert Hs; by apply ipc_wf_rest).
  unfold sys_msgsnd. rewrite (bind_Ok _ _ s s.(user_type) s) //.
  destruct (Z.ltb_spec n 0); [lia|]. destruct (Z.eqb_spec src 0); [done|].
  destruct (Z.ltb_spec (user_type s src) 1); [lia|]. cbn [orb].
  rewrite (bind_Ok _ _ _ _ _ (load_msg_page src n s a Ha ltac:(lia))).
  rewrite (msgsnd_retry_spec fuel me msgid m flg q (set_heap a s)) //.
  change (taker (set_heap a s) m (q_receiver q)) with (taker s m (q_receiver q)). by rewrite Htk.
Qed.

Lemma queued_ok msgid q m s :
  ipc_wf s → names msgid q s → q.(sum_msg) < q.(max_msg) → taker s m q.(q_receiver) = None →
  ipc_wf (queued msgid q m s) ∧
  names msgid (with_sum_msg (q.(sum_msg) + 1) (with_q_message (q.(q_message) ++ [m]) q)) (queued msgid q m s).
Proof.
  intros Hs (Hid & He & Eq) Hroom Htk. pose proof (lookup_lt_Some _ _ _ He) as Hlt. split.
  - eapply ipc_wf_update; [done|exact He|done|done|]. destruct (i_queues s Hs _ _ He) as [Hq _].
    apply queue_ok_push; [|lia|done]. intros p Hp. unfold taker in Htk.
    pose proof (proj1 (list_find_None _ _) Htk) as Hno. rewrite Forall_forall in Hno. specialize (Hno p Hp).
    by destruct (matches _ _ _).
  - split_and!; [done| |done]. cbn. by rewrite list_lookup_insert_eq.
Qed.

(** A queue with room has no senders, so taking what was put restores it. *)
Lemma pushed_popped w q m :
  queue_ok w q → q.(sum_msg) < q.(max_msg) →
  let q' := with_sum_msg (q.(sum_msg) + 1) (with_q_message (q.(q_message) ++ [m]) q) in
  with_q_sender [] (with_sum_msg (q'.(sum_msg) - 1) (with_q_message q.(q_message) q')) = q.
Proof.
  intros [_ _ Hfull _ _ _] Hroom. destruct q as [k sq mx sm ms [|x sd] rc]; cbn in *.
  - unfold with_q_sender, with_sum_msg, with_q_message; cbn. f_equal. lia.
  - pose proof (Hfull ltac:(done)). lia.
Qed.

(** C39: A message of at most a page that is sent to a queue with room, where no
    receiver waits for it, and then received by a process that takes nothing
    already queued: both calls succeed, the receiver's buffer holds the
    message's type and bytes and the rest of memory is as before, the receiver
    gets the size, the queues are as they were, and no page has been lost. *)
Theorem msg_roundtrip fuel me you msgid src dst n size mtype f1 f2 q s a :
  ipc_ok s → names msgid q s → q.(sum_msg) < q.(max_msg) → (length q.(q_receiver) < fuel)%nat →
  src ≠ 0 → dst ≠ 0 → 1 ≤ s.(user_type) src → 0 ≤ n ≤ MSG_MSGSZ → n ≤ size → kalloc_page s.(heap) = Some a →
  taker s (Msg (s.(user_type) src) n (s.(user) <$> zseq src (src + n)) []) q.(q_receiver) = None →
  find_msg q.(q_message) 0 mtype None = None → testmsg mtype (s.(user_type) src) = true →
  ∃ s1 s2,
    sys_msgsnd fuel me msgid src n f1 s = Ok (Ret 0, s1) ∧
    sys_msgrcv you msgid dst size mtype f2 s1 = Ok (Ret n, s2) ∧
    s2.(entries) = s.(entries) ∧ pages_used s2.(heap) = pages_used s.(heap) ∧
    s2.(user_type) dst = s.(user_type) src ∧
    (∀ i, 0 ≤ i < n → s2.(user) (dst + i) = s.(user) (src + i)) ∧
    (∀ b, b < dst ∨ dst + n ≤ b → s2.(user) b = s.(user) b).
Proof.
  intros Hs Hn Hroom Hf Hsrc Hdst Ht Hnn Hsz Ha Htk Hfd Htm. set (m := Msg _ _ _ _) in Htk.
  pose proof (snd_queued fuel me msgid src n f1 q s a Hs Hn Hroom Hf Hsrc Ht Hnn Ha Htk) as Esnd. fold m in Esnd.
  destruct Hs as [Hl Hs]. pose proof Hn as (Hid & He & Eq). destruct (i_queues s Hs _ _ He) as [Hq _].
  set (s0 := set_locked true (set_heap a s)) in Esnd.
  assert (Hs0 : ipc_wf s0) by (revert Hs; by apply ipc_wf_rest).
  destruct (queued_ok msgid q m s0 Hs0 Hn Hroom Htk) as [Hs1 Hn1].
  set (s1 := set_locked false _) in Esnd. set (q' := with_sum_msg _ _) in Hn1.
  assert (Hok : ipc_ok s1) by (split; [done|by apply ipc_wf_locked]).
  destruct (rcv_queued you msgid dst size mtype f2 q' q.(q_message) m s1) as (s2 & Ercv & E1 & E2 & E3 & E4); try done.
  { split; [apply Hnn|exact Hsz]. }
  { unfold m. cbn [m_size m_data]. rewrite length_fmap length_zseq. lia. }
  { apply Hnn. }
  exists s1, s2. split; [exact Esnd|]. split; [exact Ercv|]. split_and!.
  - rewrite E1 /= list_insert_insert_eq (pushed_popped _ q m Hq Hroom). by apply list_insert_id.
  - rewrite E2 kfree_page_used /= (kalloc_page_used _ _ Ha). lia.
  - done.
  - intros i Hi. rewrite E4.
    destruct (Z.leb_spec dst (dst + i)), (Z.ltb_spec (dst + i) (dst + m_size m)); unfold m in *; cbn [m_size m_data] in *; try lia. cbn [andb].
    rewrite list_lookup_fmap lookup_zseq; [|lia]. cbn. f_equal. lia.
  - intros b Hb. rewrite E4.
    destruct (Z.leb_spec dst b), (Z.ltb_spec b (dst + m_size m)); unfold m in *; cbn [m_size m_data] in *; try lia; done.
Qed.

(** *** Long messages *)

Lemma copy_out_other dst bs s a : a < dst ∨ dst + Z.of_nat (length bs) ≤ a →
  ∃ s', copy_out dst bs s = Ok (tt, s') ∧ s'.(user) a = s.(user) a.
Proof.
  intros Ha. eexists. split; [done|]. cbn.
  by destruct (Z.leb_spec dst a), (Z.ltb_spec a (dst + Z.of_nat (length bs))); try lia.
Qed.

(** Of a message of two segments, whatever they hold, the last byte never
    reaches the receiver's buffer: [store_msg] advances by what is left instead
    of by what it copied. *)
Theorem long_message_truncated dst m sg s :
  MSG_MSGSZ < m.(m_size) < 2 * MSG_MSGSZ → Z.of_nat (length m.(m_data)) = MSG_MSGSZ →
  m.(m_segs) = [sg] → Z.of_nat (length sg) = m.(m_size) - MSG_MSGSZ →
  ∃ s', take_msg m dst m.(m_size) s = Ok (Ret m.(m_size), s') ∧
    s'.(user) (dst + m.(m_size) - 1) = s.(user) (dst + m.(m_size) - 1).
Proof.
  intros Hn Hd Hsg Hl. set (n := m.(m_size)) in *. set (k := n - MSG_MSGSZ) in *.
  assert (Hsz : MSG_MSGSZ = 4064) by done. assert (Hsg' : MSG_MSGSEGSZ = 4088) by done.
  unfold take_msg, store_msg. fold n. rewrite Z.min_id (Z.min_r n MSG_MSGSZ); [|lia]. rewrite (Z.min_l MSG_MSGSZ n); [|lia].
  cbv zeta. fold k. rewrite Hsg (Z.min_r MSG_MSGSZ k); [|lia]. rewrite !take_ge; [|lia..].
  set (st := set_user_type (λ a, if a =? dst then m.(m_type) else s.(user_type) a) s).
  destruct (copy_out_other dst m.(m_data) st (dst + n - 1)) as (s1 & E1 & U1); [lia|].
  destruct (copy_out_other (dst + k) sg s1 (dst + n - 1)) as (s2 & E2 & U2); [lia|].
  assert (Es : store_segs (dst + k) k [sg] s1 = Ok (tt, s2)).
  { cbn [store_segs]. destruct (Z.ltb_spec 0 k); [|lia]. rewrite Z.min_l; [|lia]. rewrite take_ge; [|lia].
    rewrite (bind_Ok _ _ _ _ _ E2) Z.sub_diag. done. }
  eexists. split.
  - rewrite (bind_Ok _ _ s tt s2); [by rewrite /free_msg Hsg|]. rewrite (bind_Ok _ _ s tt st) // (bind_Ok _ _ _ _ _ E1). done.
  - cbn. by rewrite U2 U1.
Qed.

(** *** Removing a queue *)

Lemma free_pages_run n s :
  ∃ a, free_pages n s = Ok (tt, set_heap a s) ∧ pages_used a = pages_used s.(heap) - Z.of_nat n.
Proof.
  unfold free_pages. generalize 0%nat as b. revert s. induction n as [|n IH]; intros s b.
  { exists s.(heap). split; [by destruct s|lia]. }
  destruct (IH (set_heap (kfree_page s.(heap)) s) (S b)) as (a & E & Ea). exists a. cbn [List.seq for_each].
  rewrite (bind_Ok _ _ s tt (set_heap (kfree_page s.(heap)) s)) // E. split; [done|]. rewrite Ea /= kfree_page_used. lia.
Qed.

(** The pages of a message. *)
Definition msg_pages (m : msg_msg) : Z := Z.of_nat (S (length m.(m_segs))).

Lemma free_msgs_run l s :
  ∃ a, for_each l free_msg s = Ok (tt, set_heap a s) ∧ pages_used a = pages_used s.(heap) - foldr (λ m n, msg_pages m + n) 0 l.
Proof.
  revert s. induction l as [|m l IH]; intros s.
  { exists s.(heap). split; [by destruct s|cbn; lia]. }
  destruct (free_pages_run (S (length m.(m_segs))) s) as (a & E & Ea). destruct (IH (set_heap a s)) as (a' & E' & Ea').
  exists a'. cbn [for_each]. unfold free_msg at 1. rewrite (bind_Ok _ _ _ _ _ E) E'. split; [done|]. rewrite Ea' /= Ea. unfold msg_pages. lia.
Qed.

(** Removing a queue frees its entry and every page of its messages and wakes
    its receivers, but writes nothing to the structures in which they look for
    a message, and wakes none of its senders. *)
Theorem msgctl_removes msgid q s :
  ipc_ok s → names msgid q s →
  ∃ s', sys_msgctl msgid IPC_RMID s = Ok (0, s') ∧ ipc_ok s' ∧
    s'.(entries) = <[Z.to_nat (msgid mod 16) := None]> s.(entries) ∧
    pages_used s'.(heap) = pages_used s.(heap) - foldr (λ m n, msg_pages m + n) 0 q.(q_message) ∧
    s'.(activated) = s.(activated) ++ q.(q_receiver) ∧ s'.(waits) = s.(waits).
Proof.
  intros Hs Hn. pose proof Hn as (Hid & He & Eq). pose proof Hs as [Hl Hw].
  set (s1 := set_activated (s.(activated) ++ q.(q_receiver)) (set_entries (<[Z.to_nat (msgid mod 16) := None]> s.(entries)) (set_locked true s))).
  destruct (free_msgs_run q.(q_message) s1) as (a & E & Ea).
  set (s2 := set_heap (kfree a) (set_in_use (s1.(in_use) - 1) (set_heap a s1))).
  assert (Erun : sys_msgctl msgid IPC_RMID s = Ok (0, set_locked false s2)).
  { unfold sys_msgctl, freeque. cbn [Z.eqb IPC_RMID]. rewrite (bind_Ok _ _ s tt (set_locked false s2)) //. rewrite (bind_Ok _ _ _ _ _ (acquire_run _ Hl)).
    rewrite (bind_Ok _ _ _ _ _ (names_run msgid q (set_locked true s) (ipc_wf_locked _ _ Hw) Hn)).
    rewrite (bind_Ok _ _ _ tt s2) //. unfold SEQ_MULTIPLIER. rewrite Z.rem_mod_nonneg //.
    rewrite (bind_Ok _ _ _ tt (set_entries (<[Z.to_nat (msgid mod 16) := None]> s.(entries)) (set_locked true s))) //.
    rewrite (bind_Ok _ _ _ _ _ (ss_wakeup_run _ _)) (bind_Ok _ _ _ tt s1) // (bind_Ok _ _ _ _ _ E). done. }
  exists (set_locked false s2). split; [exact Erun|]. split; [exact (hoare_ctl _ _ _ _ _ Hs Erun)|].
  split_and!; [done| |done..]. cbn. rewrite kfree_used Ea. done.
Qed.
End transfer.

(** ** Examples *)

Section examples.

(** A hundred pages. *)
#[local] Program Instance pool : Allocator Z := {|
  kalloc a := Some a;
  kalloc_page a := if a <? 100 then Some (a + 1) else None;
  kfree a := a;
  kfree_page a := a - 1;
  pages_used a := a;
|}.
Next Obligation. intros a a' E. cbn in E. destruct (_ <? _); [by injection E as <-|done]. Qed.
Next Obligation. done. Qed.
Next Obligation. intros a a' E. by injection E as <-. Qed.
Next Obligation. done. Qed.

Definition state_of {B} (d : ipc Z) (r : outcome (B * ipc Z)) : ipc Z := match r with Ok (_, s) => s | Fail _ => d end.
Definition ex_boot : ipc Z := Ipc true 0 0 [] ∅ [] 7 (λ a, a mod 256) (λ _, 3).
Definition ex_init : ipc Z := state_of ex_boot (init_ipc ex_boot).
(** One queue. *)
Definition ex_queue : ipc Z := state_of ex_boot (sys_msgget 5 IPC_CREATE ex_init).
(** Process 9 waits in it for a message of type 3 with a buffer of 4 bytes. *)
Definition ex_waiting : ipc Z := state_of ex_boot (sys_msgrcv 9 0 4000 4 3 0 ex_queue).

Lemma ex_reach_init : reachable ex_boot [] ex_init.
Proof. by apply reach_init. Qed.
Lemma ex_awake : awake ex_queue 9.
Proof.
  intros i q Hi. destruct i as [|i]; [injection Hi as <-; by apply not_elem_of_nil|].
  do 15 (destruct i as [|i]; [done|]). done.
Qed.
Lemma ex_queue_ok : ipc_ok ex_queue.
Proof. eapply step_ok; [by eapply init_ipc_ok|]. eapply (step_get ex_init 5 IPC_CREATE 0). reflexivity. Qed.
Lemma ex_waiting_ok : ipc_ok ex_waiting.
Proof.
  eapply step_ok; [apply ex_queue_ok|]. eapply (step_rcv ex_queue 9 0 4000 4 3 0 (Sleeps tt)); [apply ex_awake|]. reflexivity.
Qed.

Lemma ipc_reachable_ok_witness :
  reachable ex_boot [Msgget 5 IPC_CREATE; Msgrcv 9 0 4000 4 3 0] ex_waiting ∧ ipc_ok ex_waiting.
Proof.
  assert (Hr : reachable ex_boot [Msgget 5 IPC_CREATE; Msgrcv 9 0 4000 4 3 0] ex_waiting).
  { apply (reach_step _ [Msgget 5 IPC_CREATE] ex_queue).
    - apply (reach_step _ [] ex_init); [apply ex_reach_init|]. eapply (step_get ex_init 5 IPC_CREATE 0). reflexivity.
    - eapply (step_rcv ex_queue 9 0 4000 4 3 0 (Sleeps tt)); [apply ex_awake|]. reflexivity. }
  split; [exact Hr|]. exact (ipc_reachable_ok _ _ _ Hr).
Defined.

Definition ex_q : msg_queue := Queue 5 0 MAX_MSGNUM 0 [] [] [].
Definition ex_qw : msg_queue := Queue 5 0 MAX_MSGNUM 0 [] [] [9].

(** A message of five bytes to the process that waits with four: the call never returns. *)
Lemma msgsnd_returns_witness :
  (∃ fuel r s', msgsnd_retry fuel 1 0 (Msg 3 5 [1;2;3;4;5] []) 0 ex_waiting = Ok (r, s')) ↔
  (∀ i p, taker ex_waiting (Msg 3 5 [1;2;3;4;5] []) [9] = Some (i, p) → 5 ≤ size_of ex_waiting p).
Proof. apply (msgsnd_returns 1 0 (Msg 3 5 [1;2;3;4;5] []) 0 ex_qw ex_waiting); [apply ex_waiting_ok|by split_and!|done]. Defined.

Lemma msg_roundtrip_witness : ∃ s1 s2,
  sys_msgsnd 1 1 0 1000 5 0 ex_queue = Ok (Ret 0, s1) ∧ sys_msgrcv 2 0 4000 10 0 0 s1 = Ok (Ret 5, s2) ∧
  s2.(entries) = ex_queue.(entries) ∧ s2.(heap) = ex_queue.(heap) ∧
  s2.(user_type) 4000 = 3 ∧ (∀ i, 0 ≤ i < 5 → s2.(user) (4000 + i) = (1000 + i) mod 256) ∧
  (∀ b, b < 4000 ∨ 4000 + 5 ≤ b → s2.(user) b = b mod 256).
Proof.
  destruct (msg_roundtrip 1 1 2 0 1000 4000 5 10 0 0 0 ex_q ex_queue 8) as (s1 & s2 & E1 & E2 & E3 & E4 & E5 & E6 & E7);
    try done; [apply ex_queue_ok|cbn; lia|].
  exists s1, s2. split; [exact E1|]. split; [exact E2|]. split; [exact E3|]. split; [exact E4|]. split; [exact E5|].
  split; [exact E6|exact E7].
Defined.

Lemma long_message_truncated_witness : ∃ s',
  take_msg (Msg 1 4065 (replicate 4064 1) [[2]]) 8000 4065 ex_queue = Ok (Ret 4065, s') ∧
  s'.(user) (8000 + 4065 - 1) = (8000 + 4065 - 1) mod 256.
Proof.
  apply (long_message_truncated 8000 (Msg 1 4065 (replicate 4064 1) [[2]]) [2] ex_queue); [done| |done|done].
  cbn [m_data]. by rewrite length_replicate.
Defined.

Lemma msgctl_removes_witness : ∃ s',
  sys_msgctl 0 IPC_RMID ex_waiting = Ok (0, s') ∧ ipc_ok s' ∧ s'.(entries) = <[0%nat := None]> ex_waiting.(entries) ∧
  s'.(heap) = 7 - 0 ∧ s'.(activated) = [9] ∧ s'.(waits) = ex_waiting.(waits).
Proof.
  destruct (msgctl_removes 0 ex_qw ex_waiting) as (s' & E1 & E2 & E3 & E4 & E5 & E6); [apply ex_waiting_ok|by split_and!|].
  exists s'. split; [exact E1|]. split; [exact E2|]. split; [exact E3|]. split; [exact E4|]. split; [exact E5|exact E6].
Defined.
End examples.
